(* ===== verification/_CoqProject ===== *)
-Q . S2P
Prelude.v
Bitmap.v
Ring.v
RtList.v
Kernel.v
Ringbuffer.v
OxGame.v
OxApp.v
Mem.v
Bytes.v
KString.v
KStdio.v
Timer.v
Sched.v
IpcList.v
Thread.v
Sem.v
Mutex.v
Event.v
Mailbox.v
Mqueue.v
Mempool.v
ThreadExit.v
DataQueue.v
Completion.v
WaitQueue.v
RingBlk.v
Object.v
Device.v
Serial.v
Msh.v
Shell.v
ShellDevice.v
System.v
KernelInv.v
TimerInv.v
SchedInv.v
ThreadInv.v
TimerIdle.v
ThreadOps.v
IpcOps.v
MutexOps.v
ExitOps.v
SystemInv.v
Demo.v
RtListProps.v
RingBlkProps.v
SchedProps.v
Blocking.v
WaitProps.v
SemProps.v
MailboxProps.v
MqueueProps.v
MempoolProps.v
RingbufferProps.v
OxRules.v
OxInv.v
MemInv.v
MemAlloc.v
MemSpec.v
OxProps.v
MemProps.v
DataQueueProps.v
CompletionProps.v
WaitQueueProps.v
KStringProps.v
ObjectProps.v
DeviceUse.v
SerialProps.v
DeviceProps.v
MshProps.v
ShellProps.v
ShellHistoryProps.v
ShellDeviceProps.v
KStdioProps.v
EventProps.v
MutexProps.v
MutexCalls.v
TimerProps.v
SystemProps.v
