(* ===== verification/Prelude.v ===== *)
(** * A verification library for the RT-Thread kernel of this repository

    The program is the RT-Thread 5.1.0 kernel as the board
    bsp/stm32/stm32f407-atk-explorer configures it (its rtconfig.h): one CPU,
    32 priorities, a tick of 1 kHz, 32-bit words, RT_ALIGN_SIZE 8, assertions and
    the context checks on, hard timers in a one-level skip list, no soft timers,
    signals, SMP or RT_USING_SMART, message queues without priorities.

    ** The model

    - Prelude.v: machine integers with their wrap-around, the state monad
      [st S A := S -> option (A * S)] and its rules, record updates, the tactic
      [preserve] with the hint database [rt_pres].  [None] is a failed RT_ASSERT,
      a dereferenced RT_NULL or a released object, or the end of the fuel of a
      loop.
    - Bitmap.v: [__rt_ffs] of src/kservice.c in both versions.
    - Kernel.v: the store.  A [kernel] holds the thread objects, the lists their
      nodes are linked in, the held mutexes of each thread, the scheduler's
      globals, the tick, the timer list and the tables of timer and IPC objects,
      all by address.  Object addresses are integers; memory that an allocator
      returns is an argument ([None] is RT_NULL).
    - Timer.v: src/timer.c and the tick arithmetic of src/clock.c.
    - Sched.v: src/scheduler_up.c and src/scheduler_comm.c.  A context switch is
      the change of [k_current]; the code runs with interrupts disabled inside
      one operation, so that an operation is one step.
    - IpcList.v, Sem.v, Mutex.v, Event.v, Mailbox.v, Mqueue.v: src/ipc.c.
    - Mempool.v: src/mempool.c.
    - Thread.v, ThreadExit.v: src/thread.c and the defunct queue of src/idle.c.
    - System.v: src/irq.c, the tick, the boot of src/components.c, and the
      transition system [step]: the current thread calls any function of the
      kernel with any arguments, a thread that stands inside a call goes on with
      it when it is current again, the tick interrupt and other handlers come
      between the calls.  The callbacks of timer objects and [thread->cleanup]
      belong to the application and are parameters.

    - DataQueue.v, Completion.v: dataqueue.c and completion.c of
      src/components/drivers/ipc, IPC helpers of the device layer on the kernel's
      threads and timers; their objects are in the same store and their calls are
      steps of the same system.  The callback of a data queue is a parameter.
    - WaitQueue.v: waitqueue.c of the same directory; the queues and their nodes lie
      next to the kernel's store, wake functions of drivers are a parameter.
    - Ringbuffer.v: src/components/drivers/ipc/ringbuffer.c.
    - RingBlk.v: src/components/drivers/ipc/ringblk_buf.c on the pointer code of
      RtList.v.
    - RtList.v: the pointer code of [rt_list_t] and [rt_slist_t] in
      include/rtservice.h, which the other files use as lists.
    - Object.v: the object containers of src/object.c, with the names as bytes and
      the list nodes of RtList.v.  The store of Kernel.v does not use them: there
      the type and the static flag are fields of each object.
    - Device.v: components/drivers/core/device.c on the containers of Object.v; the
      functions of the drivers are a record of parameters.  Serial.v has those of the
      serial driver, components/drivers/serial/serial.c: init, open, close, read, write,
      the receive interrupt and registering; the UART's own operations are parameters.
    - Mem.v: the heap, src/mem.c and the heap functions of src/kservice.c.
    - Bytes.v, KString.v, KStdio.v: src/klibc/kstring.c, src/klibc/kstdio.c and
      [rt_kprintf] of src/kservice.c over a memory of bytes, a finite map in which an
      access to a byte that does not exist fails.
    - Msh.v, Shell.v: components/finsh/msh.c, msh_parse.c and shell.c over the same
      memory of bytes; what is printed is a list of characters, each call of
      [rt_kprintf] cut at its buffer ([console_text]).  The table of
      commands and what they do are parameters.  ShellDevice.v joins the shell with
      the devices of Device.v: reading characters and changing the device.
    - OxGame.v, OxApp.v: the board's application, the OX game of
      applications/OXGame.c.  OxGame.v has the data, the rules and what is drawn
      (the calls of the LCD driver are recorded as a list); OxApp.v has its
      threads and interrupt callbacks as a transition system of its own
      ([app_step]), which uses the contracts of the kernel's semaphores and
      mutexes and the ring buffer.

    A C function that calls [rt_schedule] in its middle is cut there: the part up
    to the call returns [Waiting c], where [c] keeps the local variables, and the
    [_resume] definition is the part after it.  RT_OBJECT_HOOK_CALL, logging and
    the object names are left out.

    ** The invariant

    KernelInv.v states [inv] and the rules with which an update of the store is
    shown to keep it; TimerIdle.v states that no callback is running ([quiet]);
    [kinv] is both.  TimerInv.v, SchedInv.v, ThreadInv.v, ThreadOps.v, IpcOps.v,
    MutexOps.v and ExitOps.v show for the operations of each file that they keep
    [kinv] and what else they do; the scheduler's part is [schedule_spec] with
    the frame [sched_frame].  SystemInv.v concludes for the whole transition
    system.  Demo.v has the concrete stores on which the witnesses evaluate.
    MemInv.v states the layout of a heap as a sequence of blocks ([heap_rep]) and
    shows that merging and releasing keep it, MemAlloc.v the same for allocating
    and resizing; MemSpec.v has the abstract allocator and the simulation.
    OxInv.v states the invariant of the game's threads ([app_rep]): who holds the
    mutex, how often, what the ring buffer holds and which abstract game is played.

    ** The theorems

    - SystemProps.v: the invariant of every reachable system.
    - SchedProps.v, Bitmap.v: [rt_schedule] runs the most urgent ready thread,
      preempts and yields fairly; the time slices rotate; [__rt_ffs] is right.
    - WaitProps.v: the order of the suspend lists, going to sleep, waking.
    - TimerProps.v: the order of the timer list across the wrap of the tick
      counter, the timers a tick fires, the tick arithmetic.
    - SemProps.v: taking, releasing and the results of a semaphore.
    - MailboxProps.v (with Ring.v): the ring of mails refines a bounded queue
      ([mb_rep]) under send, receive and urgent send.
    - MqueueProps.v: the linked nodes of a message queue refine a
      bounded queue of byte strings ([mq_holds]); init and reset establish it.
    - MempoolProps.v: the free list and the blocks in use of a memory pool are
      disjoint and cover it ([mp_rep]) under init, alloc and free.
    - EventProps.v: which waiters rt_event_send serves and with what.
    - MutexProps.v: the walk of [_thread_update_priority] ends and leaves every
      mutex with the priority of its first waiter and every owner with the one it
      inherits.  MutexCalls.v: taking and releasing, recursion, the hand-over.
    - DataQueueProps.v: a data queue refines a bounded queue of items ([dq_rep]) under
      push and pop; who is woken and notified, and that a push does not wake the
      threads that wait to pop; reset.
    - CompletionProps.v: the three states of a completion under wait and done.
    - WaitQueueProps.v: who sleeps in a wait queue, who is woken, when the flag of an
      early wakeup is taken back.
    - RingbufferProps.v: the mirrored indices of a ring buffer refine a bounded
      queue of bytes ([rb_rep]) under put, put_force and get; the byte versions
      agree with them.
    - RingBlkProps.v: the blocks of a ring block buffer lie
      one behind the other in two parts ([rbb_rep]) under alloc, put, get and free;
      runs of the errors that the code has besides.
    - RtListProps.v: the pointer code of the doubly linked lists and of the singly
      linked ones implements the operations on lists ([list_rep], [slist]).
    - ObjectProps.v: the containers are lists of objects, the newest first
      ([reg_rep]), under registering, allocating and removing; what a search by name
      finds.
    - DeviceUse.v, DeviceProps.v: opening and closing refine a counter of users
      ([dev_rep]) for every driver that keeps an invariant of its device and leaves the
      count alone ([Polite]); registering, finding and unregistering.  SerialProps.v:
      the serial driver is such a driver, for devices without DMA as those of the board;
      its receive buffer is a queue that drops the oldest character.
    - MemProps.v: the heap refines an allocator of blocks that are apart from each
      other; first fit; releasing undoes allocating; aligned and cleared blocks;
      what happens to sizes close to 2^32.
    - KStringProps.v: the word-wise copies agree with the byte-wise ones, moving
      overlapping blocks, comparing, searching and copying strings.
    - KStdioProps.v: [rt_vsnprintf] writes a prefix of the text that the format
      stands for ([format_text]), inside the buffer, and what it returns; what
      [rt_kprintf] hands to the console; numbers read back.
    - MshProps.v: the arguments a line is split into ([tokens]), which command runs,
      what completion makes of a word.
    - ShellProps.v, ShellHistoryProps.v: the editing keys refine an editor on lists
      ([ed_rep]) and a model of the terminal shows its line ([shows]); the history
      refines a list of at most five lines; Enter; the start of the shell; runs in
      which a line of 80 characters leaves its bytes behind.  ShellDeviceProps.v:
      changing the device moves one use from the old device to the new one, for
      polite drivers that leave other devices alone ([Isolated]), among them the serial
      driver; reading ends or sleeps.
    - OxRules.v, OxProps.v: the rules of the game as an abstract specification (a
      list of legal moves) and the refinement: every event of the application makes
      no move, one legal move or a new game.  Mutual exclusion, the release of the
      mutex, the names, the screen; two runs that show what the buttons and the
      display do that is not meant.
    - Blocking.v: what the blocking and waking halves of all these calls do, from
      which the theorems of each object follow ([sleep_total], [wake_total],
      [notify_total]).

    A call is one step up to the point where it gives the processor away.  The
    code of some calls (the sends and receives of mailboxes and message queues)
    leaves its critical section for a moment inside that part; interrupts that
    come in such a gap are not modelled.

    ** Fuel

    [resume_all_loop] and [defunct_loop] get one more than the length of the list
    they empty, and theorems show that this is enough.  The walk along the chain
    of mutex owners and the number of timers that a tick fires have a fuel that is
    a parameter: every theorem holds for every value, and
    [TimerProps.timer_check_fires_expired] shows how much is enough for a tick.
    The loops over strings get one more than the number of bytes of the memory,
    the loop over a format one more than its length.

    ** Not modelled

    The soft timers, the SMP scheduler, signals, the other heaps, the console device of
    [rt_kprintf]; of the device layer the drivers other than the serial one (and of that
    the control commands, sending by DMA and waiting for a busy transmitter), the buses,
    work queues and pipes; the file
    systems, the network, the built-in commands and the password of the shell; the
    board's start-up code, the contents of stacks and the machine's context switch.
    Most of these are not configured for the board or only touch hardware. *)

From Stdlib Require Export ZArith Lia.
From stdpp Require Export base gmap option fin_maps countable functions list.

Declare Scope rt_scope.
Delimit Scope rt_scope with rt.
Open Scope Z_scope.

(** ** Machine integers

    Unsigned C integers are integers [0 <= x < 2^w]; every operation whose
    result may leave that range is followed by the wrap-around of its type. *)

Definition u8 (x : Z) : Z := x mod 2 ^ 8.
Definition u16 (x : Z) : Z := x mod 2 ^ 16.
Definition u32 (x : Z) : Z := x mod 2 ^ 32.

(** Conversion of a 32-bit pattern to [rt_int32_t] (two's complement). *)
Definition s32 (x : Z) : Z := (x + 2 ^ 31) mod 2 ^ 32 - 2 ^ 31.

Lemma u8_range x : 0 <= u8 x < 256.
Proof. unfold u8. pose proof (Z.mod_pos_bound x (2 ^ 8)); lia. Qed.
Lemma u16_range x : 0 <= u16 x < 65536.
Proof. unfold u16. pose proof (Z.mod_pos_bound x (2 ^ 16)); lia. Qed.
Lemma u32_range x : 0 <= u32 x < 4294967296.
Proof. unfold u32. pose proof (Z.mod_pos_bound x (2 ^ 32)); lia. Qed.
Lemma u8_small x : 0 <= x < 256 -> u8 x = x.
Proof. intros. unfold u8. apply Z.mod_small. lia. Qed.
Lemma u16_small x : 0 <= x < 65536 -> u16 x = x.
Proof. intros. unfold u16. apply Z.mod_small. lia. Qed.
Lemma u32_small x : 0 <= x < 4294967296 -> u32 x = x.
Proof. intros. unfold u32. apply Z.mod_small. lia. Qed.
Lemma s32_small x : -2147483648 <= x < 2147483648 -> s32 x = x.
Proof. intros. unfold s32. rewrite Z.mod_small; lia. Qed.

Create Rewrite HintDb rt_int.
#[export] Hint Rewrite u8_small u16_small u32_small s32_small using lia : rt_int.

(** Brings the ranges of every wrapped term of the goal into the context and
    calls [lia]. *)
Ltac wrap_ranges :=
  repeat match goal with
    | |- context [u8 ?x] =>
        lazymatch goal with H : 0 <= u8 x < 256 |- _ => fail | _ => pose proof (u8_range x) end
    | |- context [u16 ?x] =>
        lazymatch goal with H : 0 <= u16 x < 65536 |- _ => fail | _ => pose proof (u16_range x) end
    | |- context [u32 ?x] =>
        lazymatch goal with H : 0 <= u32 x < 4294967296 |- _ => fail | _ => pose proof (u32_range x) end
    end.
Ltac wrap_lia := wrap_ranges; lia.

(** [RT_ALIGN] and [RT_ALIGN_DOWN] of rtdef.h, for a power-of-two [align]. *)
Definition RT_ALIGN (size align : Z) : Z :=
  Z.land (u32 (size + align - 1)) (Z.lxor (u32 (align - 1)) (2 ^ 32 - 1)).
Definition RT_ALIGN_DOWN (size align : Z) : Z :=
  Z.land size (Z.lxor (u32 (align - 1)) (2 ^ 32 - 1)).

Definition RT_ALIGN_SIZE : Z := 8.

(** Reflection of boolean integer tests, used by [case_bool]. *)
Ltac case_bool :=
  repeat match goal with
    | |- context [if ?b then _ else _] =>
        lazymatch type of b with bool => destruct b eqn:? end
    end.

Ltac bool_to_prop :=
  repeat match goal with
    | H : (_ =? _) = true |- _ => apply Z.eqb_eq in H
    | H : (_ =? _) = false |- _ => apply Z.eqb_neq in H
    | H : (_ <? _) = true |- _ => apply Z.ltb_lt in H
    | H : (_ <? _) = false |- _ => apply Z.ltb_ge in H
    | H : (_ <=? _) = true |- _ => apply Z.leb_le in H
    | H : (_ <=? _) = false |- _ => apply Z.leb_gt in H
    | H : negb _ = true |- _ => apply negb_true_iff in H
    | H : negb _ = false |- _ => apply negb_false_iff in H
    | H : (_ && _) = true |- _ => apply andb_true_iff in H; destruct H
    | H : (_ || _) = false |- _ => apply orb_false_iff in H; destruct H
    | H : bool_decide _ = true |- _ => apply bool_decide_eq_true in H
    | H : bool_decide _ = false |- _ => apply bool_decide_eq_false in H
    end.

(** ** Bits and alignment *)

Lemma bits_above x k n : 0 <= k <= n -> 0 <= x < 2 ^ k -> Z.testbit x n = false.
Proof.
  intros Hk Hx. destruct (Z.eq_dec x 0) as [->|]; [apply Z.bits_0|].
  apply Z.bits_above_log2; [lia|]. apply Z.log2_lt_pow2; [lia|].
  apply Z.lt_le_trans with (2 ^ k); [lia|]. apply Z.pow_le_mono_r; lia.
Qed.

Lemma lxor_ones k w :
  0 <= k <= w -> Z.lxor (2 ^ k - 1) (2 ^ w - 1) = Z.shiftl (Z.ones (w - k)) k.
Proof.
  intros.
  replace (2 ^ k - 1) with (Z.ones k) by (rewrite Z.ones_equiv; lia).
  replace (2 ^ w - 1) with (Z.ones w) by (rewrite Z.ones_equiv; lia).
  apply Z.bits_inj'. intros n Hn. rewrite Z.lxor_spec, Z.shiftl_spec by lia.
  destruct (Z.ltb_spec n k).
  - rewrite (Z.testbit_neg_r _ (n - k)), !Z.ones_spec_low by lia. reflexivity.
  - rewrite (Z.ones_spec_high k) by lia. destruct (Z.ltb_spec n w).
    + rewrite !Z.ones_spec_low by lia. reflexivity.
    + rewrite !Z.ones_spec_high by lia. reflexivity.
Qed.

Lemma land_align_mask x k :
  0 <= k <= 32 -> 0 <= x < 2 ^ 32 ->
  Z.land x (Z.lxor (2 ^ k - 1) (2 ^ 32 - 1)) = x - x mod 2 ^ k.
Proof.
  intros Hk Hx. rewrite lxor_ones by lia.
  assert (0 < 2 ^ k) by (apply Z.pow_pos_nonneg; lia).
  assert (x - x mod 2 ^ k = Z.shiftl (Z.shiftr x k) k) as ->.
  { rewrite Z.shiftl_mul_pow2, Z.shiftr_div_pow2 by lia.
    pose proof (Z.div_mod x (2 ^ k)). lia. }
  apply Z.bits_inj'. intros n Hn. rewrite Z.land_spec, !Z.shiftl_spec by lia.
  destruct (Z.ltb_spec n k) as [Hl|Hl].
  { rewrite !(Z.testbit_neg_r _ (n - k)) by lia. apply andb_false_r. }
  rewrite Z.shiftr_spec by lia. replace (n - k + k) with n by lia.
  destruct (Z.ltb_spec n 32).
  - rewrite Z.ones_spec_low by lia. apply andb_true_r.
  - rewrite (bits_above x 32) by lia. reflexivity.
Qed.

Lemma RT_ALIGN_DOWN_8 x : 0 <= x < 2 ^ 32 -> RT_ALIGN_DOWN x 8 = x - x mod 8.
Proof. intros. exact (land_align_mask x 3 ltac:(lia) H). Qed.

Lemma RT_ALIGN_8 x :
  0 <= x < 2 ^ 32 - 7 -> RT_ALIGN x 8 = (x + 7) - (x + 7) mod 8.
Proof.
  intros. unfold RT_ALIGN. rewrite (u32_small (x + 8 - 1)) by lia.
  replace (x + 8 - 1) with (x + 7) by lia.
  apply (land_align_mask (x + 7) 3); lia.
Qed.

(** ** The state and error monad of the kernel code

    [st S A] is a computation over a store [S]; [None] is the outcome of a
    failed [RT_ASSERT] (the C program then stays in [rt_assert_handler]) or of
    an access to an object that does not exist. *)

Definition st (S A : Type) : Type := S -> option (A * S).

#[export] Instance st_ret S : MRet (st S) := fun A a s => Some (a, s).
#[export] Instance st_bind S : MBind (st S) :=
  fun A B f m s => match m s with Some (a, s') => f a s' | None => None end.

Definition st_get {S} : st S S := fun s => Some (s, s).
Definition st_gets {S A} (f : S -> A) : st S A := fun s => Some (f s, s).
Definition st_modify {S} (f : S -> S) : st S unit := fun s => Some (tt, f s).
Definition st_fail {S A} : st S A := fun _ => None.
Definition st_opt {S A} (o : option A) : st S A :=
  fun s => match o with Some a => Some (a, s) | None => None end.
(** [RT_ASSERT(b)] *)
Definition rt_assert {S} (b : bool) : st S unit :=
  fun s => if b then Some (tt, s) else None.
(** [if (b) m;] *)
Definition when {S} (b : bool) (m : st S unit) : st S unit :=
  if b then m else mret tt.

Lemma ret_eq {A B} (x y : A) (m : B) : x = y -> Some (x, m) = Some (y, m).
Proof. intros ->. reflexivity. Qed.

(** ** Hoare triples over the monad (partial correctness) *)

Definition triple {S A} (P : S -> Prop) (m : st S A) (Q : A -> S -> Prop) : Prop :=
  forall s a s', P s -> m s = Some (a, s') -> Q a s'.

(** [preserves I m]: the property [I] of the store is an invariant of [m]. *)
Definition preserves {S A} (I : S -> Prop) (m : st S A) : Prop :=
  triple I m (fun _ => I).

Section TripleRules.
Context {S : Type}.
Implicit Types (P : S -> Prop).

Lemma bind_Some {A B} (m : st S A) (f : A -> st S B) s b s' :
  (m ≫= f) s = Some (b, s') ->
  exists a s1, m s = Some (a, s1) /\ f a s1 = Some (b, s').
Proof.
  unfold mbind, st_bind. destruct (m s) as [[a s1]|]; [|discriminate]. eauto.
Qed.

Lemma triple_ret {A} P (a : A) (Q : A -> S -> Prop) :
  (forall s, P s -> Q a s) -> triple P (mret a) Q.
Proof. intros H s ? s' HP [= <- <-]. auto. Qed.

Lemma triple_bind {A B} P (m : st S A) (f : A -> st S B) R Q :
  triple P m R -> (forall a, triple (R a) (f a) Q) -> triple P (m ≫= f) Q.
Proof. intros Hm Hf s b s' HP (a & s1 & H1 & H2)%bind_Some. eapply Hf; eauto. Qed.

Lemma triple_conseq {A} P P' (m : st S A) (Q Q' : A -> S -> Prop) :
  triple P' m Q' -> (forall s, P s -> P' s) -> (forall a s, Q' a s -> Q a s) ->
  triple P m Q.
Proof. intros Hm HP HQ s a s' H1 H2. eauto. Qed.

Lemma triple_pre {A} P P' (m : st S A) (Q : A -> S -> Prop) :
  triple P' m Q -> (forall s, P s -> P' s) -> triple P m Q.
Proof. intros Hm HP s a s' H1 H2. eauto. Qed.

Lemma triple_fail {A} P (Q : A -> S -> Prop) : triple P st_fail Q.
Proof. intros s a s' _ [=]. Qed.

Lemma triple_assert P b (Q : unit -> S -> Prop) :
  (forall s, P s -> b = true -> Q tt s) -> triple P (rt_assert b) Q.
Proof. intros H s [] s' HP. unfold rt_assert. destruct b; [intros [= <-]; auto|discriminate]. Qed.

Lemma preserves_ret {A} P (a : A) : preserves P (mret a).
Proof. apply triple_ret. auto. Qed.

Lemma preserves_bind {A B} P (m : st S A) (f : A -> st S B) :
  preserves P m -> (forall a, preserves P (f a)) -> preserves P (m ≫= f).
Proof. intros. eapply triple_bind; eauto. Qed.

Lemma preserves_gets {A} P (f : S -> A) : preserves P (st_gets f).
Proof. intros s a s' HP [= _ <-]. exact HP. Qed.

Lemma preserves_get P : preserves P (@st_get S).
Proof. intros s a s' HP [= _ <-]. exact HP. Qed.

Lemma preserves_opt {A} P (o : option A) : preserves P (st_opt o).
Proof. intros s a s' HP. unfold st_opt. destruct o; [intros [= _ <-]; exact HP|discriminate]. Qed.

Lemma preserves_assert P b : preserves P (rt_assert b).
Proof. apply triple_assert. auto. Qed.

Lemma preserves_fail {A} P : preserves P (@st_fail S A).
Proof. apply triple_fail. Qed.

Lemma preserves_when P b m : preserves P m -> preserves P (when b m).
Proof. destruct b; [auto|intros _; apply preserves_ret]. Qed.

Lemma preserves_modify P f : (forall s, P s -> P (f s)) -> preserves P (st_modify f).
Proof. intros H s [] s' HP [= <-]. auto. Qed.

Lemma preserves_if {A} P (b : bool) (m1 m2 : st S A) :
  preserves P m1 -> preserves P m2 -> preserves P (if b then m1 else m2).
Proof. destruct b; auto. Qed.
End TripleRules.

Create HintDb rt_pres discriminated.
#[export] Hint Resolve preserves_ret preserves_bind preserves_gets preserves_get
  preserves_opt preserves_assert preserves_fail preserves_when preserves_if : rt_pres.

(** Decomposes a computation and closes its primitive steps by [rt_pres]. *)
Ltac preserve_step :=
  lazymatch goal with
  | |- preserves _ (_ ≫= _) => apply preserves_bind; [|intros]
  | |- preserves _ (mbind _ _) => apply preserves_bind; [|intros]
  | |- preserves _ (when _ _) => apply preserves_when
  | |- preserves _ (match ?x with _ => _ end) => destruct x
  | |- preserves _ (let _ := _ in _) => cbv zeta
  | |- preserves _ _ => solve [eauto with rt_pres nocore]
  end.
Ltac preserve := repeat preserve_step; eauto with rt_pres nocore.

(** Opens an equation [m s = Some _] along the binds of [m]. *)
Ltac inv_bind H :=
  let a := fresh "a" in let s := fresh "s" in let H1 := fresh "Hs" in
  apply bind_Some in H; destruct H as (a & s & H1 & H).

(** ** Record update

    [r <| f := v |>] is the C assignment [r.f = v], [r <| f ::= g |>] is
    [r.f = g(r.f)].  [EtaRec] gives the fields of a record type once; the
    setter of a field is found by abstracting its projection there. *)

Class EtaRec (R : Type) := eta_rec : R -> R.
Class Setter {R F : Type} (proj : R -> F) := set_field : (F -> F) -> R -> R.
Arguments set_field {R F} proj {_} g r.

Ltac find_setter :=
  lazymatch goal with
  | |- @Setter ?R ?F ?proj =>
      let i := constr:(_ : EtaRec R) in
      let e := eval hnf in i in
      lazymatch eval pattern proj in e with
      | ?body _ =>
          let s := eval cbv beta in (fun (g : F -> F) (r : R) => body (fun x => g (proj x)) r) in
          exact s
      end
  end.
#[export] Hint Extern 0 (Setter _) => find_setter : typeclass_instances.

Notation "r <| f ::= g |>" := (set_field f g r) (at level 1, left associativity) : rt_scope.
Notation "r <| f := v |>" := (set_field f (fun _ => v) r) (at level 1, left associativity) : rt_scope.

(** ** Bit masks *)

Lemma bits_bound x w :
  0 <= x -> 0 <= w -> (forall n, w <= n -> Z.testbit x n = false) -> x < 2 ^ w.
Proof.
  intros Hx Hw Hb. destruct (Z.ltb_spec x (2 ^ w)) as [|Hge]; [assumption|exfalso].
  assert (0 < 2 ^ w) by (apply Z.pow_pos_nonneg; lia).
  assert (w <= Z.log2 x) by (apply Z.log2_le_pow2; lia).
  specialize (Hb (Z.log2 x) H0). rewrite Z.bit_log2 in Hb by lia. discriminate.
Qed.

Lemma lor_range x y w : 0 <= w -> 0 <= x < 2 ^ w -> 0 <= y < 2 ^ w -> 0 <= Z.lor x y < 2 ^ w.
Proof.
  intros Hw Hx Hy. assert (0 <= Z.lor x y) by (apply Z.lor_nonneg; lia). split; [assumption|].
  apply bits_bound; [assumption..|]. intros n Hn.
  rewrite Z.lor_spec, (bits_above x w), (bits_above y w) by lia. reflexivity.
Qed.

Lemma ldiff_range x y w : 0 <= w -> 0 <= x < 2 ^ w -> 0 <= Z.ldiff x y < 2 ^ w.
Proof.
  intros Hw Hx. assert (0 <= Z.ldiff x y) by (apply Z.ldiff_nonneg; lia). split; [assumption|].
  apply bits_bound; [assumption..|]. intros n Hn.
  rewrite Z.ldiff_spec, (bits_above x w) by lia. reflexivity.
Qed.

Lemma testbit_set g p q : 0 <= p -> 0 <= q ->
  Z.testbit (Z.lor g (2 ^ p)) q = (Z.testbit g q || (p =? q)).
Proof. intros. rewrite Z.lor_spec, Z.pow2_bits_eqb by lia. reflexivity. Qed.

Lemma testbit_clear g p q : 0 <= p -> 0 <= q ->
  Z.testbit (Z.ldiff g (2 ^ p)) q = (Z.testbit g q && negb (p =? q)).
Proof. intros. rewrite Z.ldiff_spec, Z.pow2_bits_eqb by lia. reflexivity. Qed.

(** ** Total correctness: the computation returns, and then *)

Definition total {S A} (P : S -> Prop) (m : st S A) (Q : A -> S -> Prop) : Prop :=
  forall s, P s -> exists a s', m s = Some (a, s') /\ Q a s'.

(** Equations of the primitive steps, to run a computation on a known state. *)
Lemma bind_eq {S A B} (m : st S A) (f : A -> st S B) s a s' :
  m s = Some (a, s') -> (m ≫= f) s = f a s'.
Proof. intros H. unfold mbind, st_bind. rewrite H. reflexivity. Qed.

Lemma bind_assoc {S A B C} (m : st S A) (f : A -> st S B) (g : B -> st S C) s :
  ((m ≫= f) ≫= g) s = (m ≫= (fun a => f a ≫= g)) s.
Proof. unfold mbind, st_bind. destruct (m s) as [[a s1]|]; reflexivity. Qed.

Lemma bind_eval {S A B} (m : st S A) (f : A -> st S B) s a s' r :
  m s = Some (a, s') -> f a s' = r -> (m ≫= f) s = r.
Proof. intros H <-. apply bind_eq, H. Qed.

(** Runs the first step of a sequence by its equation [H]. *)
Ltac run H := eapply bind_eval; [eapply H|cbv beta].

Lemma assert_eq {S} (b : bool) (s : S) : b = true -> rt_assert b s = Some (tt, s).
Proof. intros ->. reflexivity. Qed.

(** ** Lists *)

Lemma filter_ne_notin {A} `{EqDecision A} (t : A) (l : list A) :
  t ∉ l -> filter (fun x => x <> t) l = l.
Proof.
  induction l as [|a l IH]; [reflexivity|]. intros H. apply not_elem_of_cons in H as [H1 H2].
  rewrite filter_cons_True by congruence. f_equal. auto.
Qed.

Lemma elem_of_filter_ne {A} `{EqDecision A} (t x : A) (l : list A) :
  x ∈ filter (fun x => x <> t) l <-> x <> t /\ x ∈ l.
Proof. rewrite list_elem_of_filter. reflexivity. Qed.

Lemma notin_filter_ne {A} `{EqDecision A} (t : A) (l : list A) : t ∉ filter (fun x => x <> t) l.
Proof. rewrite elem_of_filter_ne. tauto. Qed.

Lemma NoDup_filter_ne {A} `{EqDecision A} (t : A) (l : list A) :
  NoDup l -> NoDup (filter (fun x => x <> t) l).
Proof. apply list_relations.list.NoDup_filter. Qed.
