(* ===== verification/Bitmap.v ===== *)
(** * First set bit: __rt_ffs of src/kservice.c

    The scheduler finds the highest ready priority as the index of the lowest
    set bit of a 32-bit group word.  kservice.c has two versions of the search,
    chosen by RT_USING_TINY_FFS; both are modelled, with the byte tables of the
    source, and both are the same function. *)

From S2P Require Import Prelude.

(** The table of the byte-wise version (256 entries). *)
Definition __lowest_bit_bitmap : list Z := [
  0; 0; 1; 0; 2; 0; 1; 0; 3; 0; 1; 0; 2; 0; 1; 0;
  4; 0; 1; 0; 2; 0; 1; 0; 3; 0; 1; 0; 2; 0; 1; 0;
  5; 0; 1; 0; 2; 0; 1; 0; 3; 0; 1; 0; 2; 0; 1; 0;
  4; 0; 1; 0; 2; 0; 1; 0; 3; 0; 1; 0; 2; 0; 1; 0;
  6; 0; 1; 0; 2; 0; 1; 0; 3; 0; 1; 0; 2; 0; 1; 0;
  4; 0; 1; 0; 2; 0; 1; 0; 3; 0; 1; 0; 2; 0; 1; 0;
  5; 0; 1; 0; 2; 0; 1; 0; 3; 0; 1; 0; 2; 0; 1; 0;
  4; 0; 1; 0; 2; 0; 1; 0; 3; 0; 1; 0; 2; 0; 1; 0;
  7; 0; 1; 0; 2; 0; 1; 0; 3; 0; 1; 0; 2; 0; 1; 0;
  4; 0; 1; 0; 2; 0; 1; 0; 3; 0; 1; 0; 2; 0; 1; 0;
  5; 0; 1; 0; 2; 0; 1; 0; 3; 0; 1; 0; 2; 0; 1; 0;
  4; 0; 1; 0; 2; 0; 1; 0; 3; 0; 1; 0; 2; 0; 1; 0;
  6; 0; 1; 0; 2; 0; 1; 0; 3; 0; 1; 0; 2; 0; 1; 0;
  4; 0; 1; 0; 2; 0; 1; 0; 3; 0; 1; 0; 2; 0; 1; 0;
  5; 0; 1; 0; 2; 0; 1; 0; 3; 0; 1; 0; 2; 0; 1; 0;
  4; 0; 1; 0; 2; 0; 1; 0; 3; 0; 1; 0; 2; 0; 1; 0 ].

Definition bitmap_at (table : list Z) (i : Z) : Z := nth (Z.to_nat i) table 0.

(** [value] is the 32-bit pattern of the [int] argument. *)
Definition __rt_ffs (value : Z) : Z :=
  if value =? 0 then 0
  else if negb (Z.land value 0xff =? 0) then
    bitmap_at __lowest_bit_bitmap (Z.land value 0xff) + 1
  else if negb (Z.land value 0xff00 =? 0) then
    bitmap_at __lowest_bit_bitmap (Z.shiftr (Z.land value 0xff00) 8) + 9
  else if negb (Z.land value 0xff0000 =? 0) then
    bitmap_at __lowest_bit_bitmap (Z.shiftr (Z.land value 0xff0000) 16) + 17
  else bitmap_at __lowest_bit_bitmap (Z.shiftr (Z.land value 0xff000000) 24) + 25.

(** The RT_USING_TINY_FFS version: 37 entries. *)
Definition __lowest_bit_bitmap_tiny : list Z := [
  0; 1; 2; 27; 3; 24; 28; 32;
  4; 17; 25; 31; 29; 12; 32; 14;
  5; 8; 18; 32; 26; 23; 32; 16;
  30; 11; 13; 7; 32; 22; 15; 10;
  6; 21; 9; 20; 19 ].

Definition __rt_ffs_tiny (value : Z) : Z :=
  bitmap_at __lowest_bit_bitmap_tiny
    (u32 (Z.lxor (Z.land value (u32 (value - 1))) value) mod 37).

(** ** The lowest set bit *)

Definition is_lowest_bit (v p : Z) : Prop :=
  0 <= p /\ Z.testbit v p = true /\ forall q, 0 <= q < p -> Z.testbit v q = false.

Lemma is_lowest_bit_unique v p q : is_lowest_bit v p -> is_lowest_bit v q -> p = q.
Proof.
  intros (Hp & Hp1 & Hp2) (Hq & Hq1 & Hq2).
  destruct (Z.lt_trichotomy p q) as [H|[H|H]]; [|exact H|].
  - rewrite Hq2 in Hp1 by lia. discriminate.
  - rewrite Hp2 in Hq1 by lia. discriminate.
Qed.

(** Shifting away zero bits moves the lowest set bit. *)
Lemma is_lowest_bit_shift v p k :
  0 <= k -> (forall q, 0 <= q < k -> Z.testbit v q = false) ->
  is_lowest_bit (Z.shiftr v k) p -> is_lowest_bit v (p + k).
Proof.
  intros Hk Hz (Hp & H1 & H2). rewrite Z.shiftr_spec in H1 by lia.
  split_and!; [lia|exact H1|]. intros q Hq.
  destruct (Z.ltb_spec q k); [apply Hz; lia|].
  specialize (H2 (q - k) ltac:(lia)). rewrite Z.shiftr_spec in H2 by lia.
  replace (q - k + k) with q in H2 by lia. exact H2.
Qed.

(** The lowest set bit of a word is that of a non-zero low byte. *)
Lemma is_lowest_bit_low v p :
  is_lowest_bit (Z.land v 0xff) p -> is_lowest_bit v p.
Proof.
  intros (Hp & H1 & H2). change 0xff with (Z.ones 8) in *.
  rewrite Z.land_spec in H1. apply andb_true_iff in H1 as [H1 H1'].
  destruct (Z.ltb_spec p 8); [|rewrite Z.ones_spec_high in H1' by lia; discriminate].
  split_and!; [lia|exact H1|]. intros q Hq. specialize (H2 q Hq).
  rewrite Z.land_spec, Z.ones_spec_low, andb_true_r in H2 by lia. exact H2.
Qed.

(** A sound executable test, used on the finitely many table entries. *)
Definition lowest_bit_b (v p : Z) : bool :=
  (0 <=? p) && Z.testbit v p &&
  forallb (fun q => negb (Z.testbit v (Z.of_nat q))) (seq 0 (Z.to_nat p)).

Lemma lowest_bit_b_spec v p : lowest_bit_b v p = true -> is_lowest_bit v p.
Proof.
  unfold lowest_bit_b. intros H. bool_to_prop. split_and!; [lia|assumption|].
  intros q Hq. rewrite forallb_forall in H0. specialize (H0 (Z.to_nat q)).
  rewrite in_seq, Z2Nat.id in H0 by lia. apply negb_true_iff, H0. lia.
Qed.

Lemma bitmap_byte b : 0 < b < 256 -> is_lowest_bit b (bitmap_at __lowest_bit_bitmap b).
Proof.
  intros Hb. apply lowest_bit_b_spec.
  assert (forallb (fun i => lowest_bit_b (Z.of_nat i) (bitmap_at __lowest_bit_bitmap (Z.of_nat i)))
            (seq 1 255) = true) as H by (vm_compute; reflexivity).
  rewrite forallb_forall in H. specialize (H (Z.to_nat b)).
  rewrite Z2Nat.id in H by lia. apply H, in_seq. lia.
Qed.

Lemma land_byte_range v : 0 <= Z.land v 0xff < 256.
Proof.
  change 0xff with (Z.ones 8). rewrite Z.land_ones by lia.
  apply Z.mod_pos_bound. lia.
Qed.

(** Extracting byte [k] with a mask and a shift, as the code does. *)
Lemma byte_at v k :
  0 <= k -> Z.shiftr (Z.land v (Z.shiftl 0xff k)) k = Z.land (Z.shiftr v k) 0xff.
Proof.
  intros. rewrite Z.shiftr_land, Z.shiftr_shiftl_l, Z.sub_diag, Z.shiftl_0_r by lia.
  reflexivity.
Qed.

Lemma byte_zero v k q :
  0 <= k -> Z.land v (Z.shiftl 0xff k) = 0 -> k <= q < k + 8 -> Z.testbit v q = false.
Proof.
  intros Hk H Hq. apply (f_equal (fun x => Z.testbit x q)) in H.
  rewrite Z.land_spec, Z.shiftl_spec, Z.bits_0 in H by lia.
  change 0xff with (Z.ones 8) in H. rewrite Z.ones_spec_low, andb_true_r in H by lia.
  exact H.
Qed.

Lemma land_shift_zero v k :
  0 <= k -> Z.land (Z.shiftr v k) 0xff = 0 -> Z.land v (Z.shiftl 0xff k) = 0.
Proof.
  intros Hk H. apply Z.bits_inj'. intros n Hn.
  rewrite Z.land_spec, Z.bits_0, Z.shiftl_spec by lia.
  change 0xff with (Z.ones 8) in *.
  destruct (Z.ltb_spec n k); [rewrite (Z.testbit_neg_r _ (n - k)) by lia; apply andb_false_r|].
  destruct (Z.ltb_spec (n - k) 8); [|rewrite Z.ones_spec_high by lia; apply andb_false_r].
  apply (f_equal (fun x => Z.testbit x (n - k))) in H.
  rewrite Z.land_spec, Z.bits_0, Z.shiftr_spec in H by lia.
  replace (n - k + k) with n in H by lia. exact H.
Qed.

(** One step of the cascade: the byte at offset [k] holds the lowest bit. *)
Lemma ffs_byte v k :
  0 <= k -> Z.land v (Z.shiftl 0xff k) <> 0 ->
  (forall q, 0 <= q < k -> Z.testbit v q = false) ->
  is_lowest_bit v (bitmap_at __lowest_bit_bitmap (Z.shiftr (Z.land v (Z.shiftl 0xff k)) k) + k).
Proof.
  intros Hk Hnz Hz. apply is_lowest_bit_shift; [lia|exact Hz|].
  rewrite byte_at by lia. apply is_lowest_bit_low, bitmap_byte.
  pose proof (land_byte_range (Z.shiftr v k)).
  enough (Z.land (Z.shiftr v k) 0xff <> 0) by lia.
  intros E. apply Hnz, land_shift_zero; [lia|exact E].
Qed.

Lemma __rt_ffs_lowest v :
  0 < v < 2 ^ 32 -> is_lowest_bit v (__rt_ffs v - 1).
Proof.
  intros Hv. unfold __rt_ffs. destruct (Z.eqb_spec v 0); [lia|].
  destruct (Z.eqb_spec (Z.land v 0xff) 0) as [E0|E0]; cbn [negb].
  2:{ rewrite Z.add_simpl_r. pose proof (ffs_byte v 0 ltac:(lia) E0 ltac:(lia)) as H.
      rewrite Z.add_0_r in H. exact H. }
  pose proof (byte_zero v 0) as B0.
  destruct (Z.eqb_spec (Z.land v 0xff00) 0) as [E1|E1]; cbn [negb].
  2:{ rewrite <- Z.add_sub_assoc. apply (ffs_byte v 8); [lia|exact E1|].
      intros q Hq. apply B0; [lia|exact E0|lia]. }
  pose proof (byte_zero v 8 ) as B1.
  destruct (Z.eqb_spec (Z.land v 0xff0000) 0) as [E2|E2]; cbn [negb].
  2:{ rewrite <- Z.add_sub_assoc. apply (ffs_byte v 16); [lia|exact E2|].
      intros q Hq. destruct (Z.ltb_spec q 8); [apply B0|apply B1]; try assumption; lia. }
  pose proof (byte_zero v 16) as B2.
  assert (forall q, 0 <= q < 24 -> Z.testbit v q = false) as Hlow.
  { intros q Hq. destruct (Z.ltb_spec q 8); [apply B0; auto; lia|].
    destruct (Z.ltb_spec q 16); [apply B1; auto; lia|apply B2; auto; lia]. }
  rewrite <- Z.add_sub_assoc. apply (ffs_byte v 24); [lia| |exact Hlow].
  intros E3. apply n. apply Z.bits_inj'. intros q Hq. rewrite Z.bits_0.
  destruct (Z.ltb_spec q 24); [apply Hlow; lia|].
  destruct (Z.ltb_spec q 32); [apply (byte_zero v 24); auto; lia|].
  apply (bits_above v 32); lia.
Qed.

Lemma __rt_ffs_range v : 0 < v < 2 ^ 32 -> 1 <= __rt_ffs v <= 32.
Proof.
  intros Hv. destruct (__rt_ffs_lowest v Hv) as (H0 & H1 & _).
  destruct (Z.leb_spec (__rt_ffs v) 32); [lia|].
  rewrite (bits_above v 32) in H1 by lia. discriminate.
Qed.

(** [value & (value - 1) ^ value] isolates the lowest set bit. *)
Lemma isolate_lowest v p :
  0 < v -> is_lowest_bit v p -> Z.lxor (Z.land v (v - 1)) v = 2 ^ p.
Proof.
  intros Hv (Hp & H1 & H2).
  set (w := Z.shiftr v (p + 1)).
  assert (Hlow : v mod 2 ^ (p + 1) = 2 ^ p).
  { apply Z.bits_inj'. intros n Hn. rewrite Z.pow2_bits_eqb by lia.
    destruct (Z.ltb_spec n (p + 1)).
    - rewrite Z.mod_pow2_bits_low by lia.
      destruct (Z.eqb_spec p n); [subst; exact H1|apply H2; lia].
    - rewrite Z.mod_pow2_bits_high by lia. symmetry. apply Z.eqb_neq. lia. }
  assert (Hvw : v = 2 ^ (p + 1) * w + 2 ^ p).
  { unfold w. rewrite Z.shiftr_div_pow2, <- Hlow at 1 by lia.
    apply Z.div_mod. apply Z.pow_nonzero; lia. }
  assert (Hp0 : 0 < 2 ^ p) by (apply Z.pow_pos_nonneg; lia).
  assert (HS : 2 ^ (p + 1) = 2 * 2 ^ p) by (rewrite Z.pow_add_r; lia).
  assert (Hhi : forall x n, p < n -> Z.testbit x n = Z.testbit (x / 2 ^ (p + 1)) (n - (p + 1))).
  { intros x n Hn. rewrite <- Z.shiftr_div_pow2, Z.shiftr_spec by lia. f_equal. lia. }
  apply Z.bits_inj'. intros n Hn. rewrite Z.lxor_spec, Z.land_spec, Z.pow2_bits_eqb by lia.
  destruct (Z.ltb_spec n p).
  { rewrite (H2 n) by lia. symmetry. apply Z.eqb_neq. lia. }
  destruct (Z.eqb_spec p n) as [<-|Hne].
  - rewrite H1, Z.testbit_eqb by lia. cbn [andb].
    replace ((v - 1) / 2 ^ p) with (w * 2); [rewrite Z.mod_mul by lia; reflexivity|].
    apply (Z.div_unique_pos _ _ _ (2 ^ p - 1)); lia.
  - rewrite (Hhi v n), (Hhi (v - 1) n) by lia.
    replace ((v - 1) / 2 ^ (p + 1)) with w; [replace (v / 2 ^ (p + 1)) with w|].
    + destruct (Z.testbit w _); reflexivity.
    + apply (Z.div_unique_pos _ _ _ (2 ^ p)); lia.
    + apply (Z.div_unique_pos _ _ _ (2 ^ p - 1)); lia.
Qed.

(** ** Properties *)

(** __rt_ffs returns one plus the index of the lowest set bit.  *)
Theorem rt_ffs_spec v :
  0 <= v < 2 ^ 32 ->
  (v = 0 /\ __rt_ffs v = 0) \/
  (1 <= __rt_ffs v <= 32 /\ Z.testbit v (__rt_ffs v - 1) = true /\
   forall q, 0 <= q < __rt_ffs v - 1 -> Z.testbit v q = false).
Proof.
  intros Hv. destruct (Z.eq_dec v 0) as [->|Hnz]; [left; split; reflexivity|right].
  assert (0 < v < 2 ^ 32) as Hv' by lia.
  destruct (__rt_ffs_lowest v Hv') as (_ & H1 & H2).
  split; [exact (__rt_ffs_range v Hv')|]. split; assumption.
Qed.

Lemma rt_ffs_spec_witness :
  (0 <= 0x80010000 < 2 ^ 32) /\ __rt_ffs 0x80010000 = 17 /\
  ((0x80010000 = 0 /\ __rt_ffs 0x80010000 = 0) \/
  (1 <= __rt_ffs 0x80010000 <= 32 /\ Z.testbit 0x80010000 (__rt_ffs 0x80010000 - 1) = true /\
   forall q, 0 <= q < __rt_ffs 0x80010000 - 1 -> Z.testbit 0x80010000 q = false)).
Proof. split; [lia|]. split; [reflexivity|]. apply (rt_ffs_spec 0x80010000). lia. Defined.

(** C7: __rt_ffs returns one plus the index of the lowest set bit.  *)
Theorem rt_ffs_versions_agree v :
  0 <= v < 2 ^ 32 -> __rt_ffs_tiny v = __rt_ffs v.
Proof.
  intros Hv. destruct (Z.eq_dec v 0) as [->|Hnz]; [reflexivity|].
  assert (0 < v < 2 ^ 32) as Hv' by lia.
  pose proof (__rt_ffs_lowest v Hv') as HL. pose proof (__rt_ffs_range v Hv') as HR.
  unfold __rt_ffs_tiny. rewrite (u32_small (v - 1)) by lia.
  rewrite (isolate_lowest v (__rt_ffs v - 1)) by (lia || exact HL).
  assert (forallb (fun i => bitmap_at __lowest_bit_bitmap_tiny (u32 (2 ^ Z.of_nat i) mod 37)
            =? Z.of_nat i + 1) (seq 0 32) = true) as H by (vm_compute; reflexivity).
  rewrite forallb_forall in H. specialize (H (Z.to_nat (__rt_ffs v - 1))).
  rewrite Z2Nat.id in H by lia. apply Z.eqb_eq in H; [lia|]. apply in_seq. lia.
Qed.

Lemma rt_ffs_versions_agree_witness :
  (0 <= 0xF0000000 < 2 ^ 32) /\ __rt_ffs_tiny 0xF0000000 = __rt_ffs 0xF0000000.
Proof. split; [lia|]. apply (rt_ffs_versions_agree 0xF0000000). lia. Defined.
