(* ===== verification/Ring.v ===== *)
(** * Cyclic buffers

    The contents of a pool of [size] slots that is filled cyclically, as the
    list of its entries from the oldest to the newest; shared by the components
    that keep such a pool. *)

From S2P Require Import Prelude.

Section Ring.
Context {A : Type} `{!Inhabited A} (size : Z).
Hypothesis Hsize : 0 < size.

(** The [n] entries from slot [out] on. *)
Definition ring (pool : list A) (out n : Z) : list A :=
  map (fun i => pool !!! Z.to_nat ((out + i) mod size)) (seqZ 0 n).

Lemma ring_length pool out n : 0 <= n -> Z.of_nat (length (ring pool out n)) = n.
Proof. intros Hn. unfold ring. rewrite length_map, length_seqZ. lia. Qed.

Lemma ring_nil pool out : ring pool out 0 = [].
Proof. reflexivity. Qed.

Lemma slot_range i : 0 <= i mod size < size.
Proof. apply Z.mod_pos_bound, Hsize. Qed.

(** Entries at different distances lie in different slots. *)
Lemma slot_inj out i j : 0 <= i < size -> 0 <= j < size -> (out + i) mod size = (out + j) mod size -> i = j.
Proof.
  intros Hi Hj H. assert ((i - j) mod size = 0) as Hd.
  { replace (i - j) with ((out + i) - (out + j)) by lia. rewrite Zminus_mod, H, Z.sub_diag. apply Z.mod_0_l. lia. }
  apply Z.mod_divide in Hd as [z Hz]; [|lia]. assert (z = 0) by nia. lia.
Qed.

Lemma slot_ne out i j : 0 <= i < size -> 0 <= j < size -> i <> j ->
  Z.to_nat ((out + i) mod size) <> Z.to_nat ((out + j) mod size).
Proof.
  intros Hi Hj Hne H. apply Hne, (slot_inj out); [assumption..|].
  pose proof (slot_range (out + i)). pose proof (slot_range (out + j)). lia.
Qed.

Lemma ring_ext pool pool' out n :
  (forall i, 0 <= i < n -> pool !!! Z.to_nat ((out + i) mod size) = pool' !!! Z.to_nat ((out + i) mod size)) ->
  ring pool out n = ring pool' out n.
Proof.
  intros H. apply map_ext_in. intros i Hi. apply H. apply list_elem_of_In, elem_of_seqZ in Hi. lia.
Qed.

(** A new entry behind the others. *)
Lemma ring_push pool out n v :
  0 <= n < size -> size <= Z.of_nat (length pool) ->
  ring (<[Z.to_nat ((out + n) mod size) := v]> pool) out (n + 1) = ring pool out n ++ [v].
Proof.
  intros Hn Hp. unfold ring at 1. rewrite seqZ_app, map_app by lia. f_equal.
  - apply ring_ext. intros i Hi. apply list_lookup_total_insert_ne, slot_ne; lia.
  - change (map ?f (seqZ (0 + n) 1)) with [f (0 + n)]. cbv beta. rewrite Z.add_0_l.
    rewrite list_lookup_total_insert_eq; [reflexivity|]. pose proof (slot_range (out + n)). lia.
Qed.

(** Taking the oldest entry. *)
Lemma ring_pop pool out n :
  0 < n -> 0 <= out < size -> ring pool out n = pool !!! Z.to_nat out :: ring pool ((out + 1) mod size) (n - 1).
Proof.
  intros Hn Ho. unfold ring. rewrite (seqZ_cons 0 n) by lia. cbn [map]. f_equal.
  - rewrite Z.add_0_r, Z.mod_small by lia. reflexivity.
  - change (Z.succ 0) with (1 + 0). replace (Z.pred n) with (n - 1) by lia. rewrite <- (fmap_add_seqZ 1 0 (n - 1)). unfold fmap.
    change (list_fmap _ _ (Z.add 1)) with (map (Z.add 1)). rewrite map_map. apply map_ext. intros i.
    rewrite Zplus_mod_idemp_l, Z.add_assoc. reflexivity.
Qed.

(** A new entry before the others. *)
Lemma ring_unpop pool out n v :
  0 <= n < size -> 0 <= out < size -> size <= Z.of_nat (length pool) ->
  ring (<[Z.to_nat ((out - 1) mod size) := v]> pool) ((out - 1) mod size) (n + 1) = v :: ring pool out n.
Proof.
  intros Hn Ho Hp. pose proof (slot_range (out - 1)) as Hs. rewrite ring_pop by lia. f_equal.
  - apply list_lookup_total_insert_eq. lia.
  - replace (n + 1 - 1) with n by lia. rewrite Zplus_mod_idemp_l. replace (out - 1 + 1) with out by lia.
    rewrite (Z.mod_small out) by lia. apply ring_ext. intros i Hi. apply list_lookup_total_insert_ne.
    replace (out + i) with (out - 1 + (i + 1)) by lia.
    pose proof (slot_ne (out - 1) 0 (i + 1)) as H. rewrite Z.add_0_r in H. apply H; lia.
Qed.

(** The slot after [i], as the code computes it. *)
Lemma next_slot i : 0 <= i < size -> (if size <=? i + 1 then 0 else i + 1) = (i + 1) mod size.
Proof.
  intros Hi. destruct (Z.leb_spec size (i + 1)).
  - replace (i + 1) with size by lia. rewrite Z.mod_same by lia. reflexivity.
  - symmetry. apply Z.mod_small. lia.
Qed.

(** The slot before [i]. *)
Lemma prev_slot i : 0 <= i < size -> (if 0 <? i then i - 1 else size - 1) = (i - 1) mod size.
Proof.
  intros Hi. destruct (Z.ltb_spec 0 i).
  - symmetry. apply Z.mod_small. lia.
  - replace i with 0 by lia. apply (Z.mod_unique_pos _ _ (-1)); lia.
Qed.
End Ring.
