(* ===== verification/RtList.v ===== *)
(** * Linked lists: src/include/rtservice.h

    The inline functions of the circular doubly linked [rt_list_t] and of the
    singly linked [rt_slist_t] on a heap of cells.  [C] are the addresses of the
    cells, those of the list heads and those inside the objects; all cells exist.
    A loop gets fuel; [None] is that it was not enough. *)

From S2P Require Import Prelude.
Open Scope rt_scope.

(** [struct rt_list_node]; the cells of a heap. *)
Record rt_list_node (C : Type) := mkListNode { next : C; prev : C }.
Arguments mkListNode {C}.
Arguments next {C}.
Arguments prev {C}.

Section List.
Context {C : Type} `{EqDecision C}.
Implicit Types (h : C -> rt_list_node C) (l n : C).

Definition set_next l (x : C) h : C -> rt_list_node C := <[l := mkListNode x (prev (h l))]> h.
Definition set_prev l (x : C) h : C -> rt_list_node C := <[l := mkListNode (next (h l)) x]> h.

Definition rt_list_init l h : C -> rt_list_node C := set_next l l (set_prev l l h).

Definition rt_list_insert_after l n h : C -> rt_list_node C :=
  let h := set_prev (next (h l)) n h in
  let h := set_next n (next (h l)) h in
  let h := set_next l n h in
  set_prev n l h.

Definition rt_list_insert_before l n h : C -> rt_list_node C :=
  let h := set_next (prev (h l)) n h in
  let h := set_prev n (prev (h l)) h in
  let h := set_prev l n h in
  set_next n l h.

Definition rt_list_remove n h : C -> rt_list_node C :=
  let h := set_prev (next (h n)) (prev (h n)) h in
  let h := set_next (prev (h n)) (next (h n)) h in
  set_next n n (set_prev n n h).

Definition rt_list_isempty l h : bool := bool_decide (next (h l) = l).

Fixpoint list_len_loop (fuel : nat) l (p : C) (len : Z) h : option Z :=
  match fuel with
  | O => None
  | S fuel => if bool_decide (next (h p) = l) then Some len else list_len_loop fuel l (next (h p)) (u32 (len + 1)) h
  end.
Definition rt_list_len (fuel : nat) l h : option Z := list_len_loop fuel l l 0 h.
End List.

(** ** Singly linked lists; [None] is RT_NULL. *)
Section Slist.
Context {C : Type} `{EqDecision C}.
Implicit Types (h : C -> option C) (l n : C).

Definition rt_slist_init l h : C -> option C := <[l := None]> h.

(** [while (node->next) node = node->next;] *)
Fixpoint slist_end (fuel : nat) (node : C) h : option C :=
  match fuel with
  | O => None
  | S fuel => match h node with Some node => slist_end fuel node h | None => Some node end
  end.

Definition rt_slist_append (fuel : nat) l n h : option (C -> option C) :=
  node ← slist_end fuel l h;
  Some (<[n := None]> (<[node := Some n]> h)).

Definition rt_slist_insert l n h : C -> option C := let h := <[n := h l]> h in <[l := Some n]> h.

Fixpoint slist_len_loop (fuel : nat) (list : option C) (len : Z) h : option Z :=
  match list, fuel with
  | None, _ => Some len
  | Some _, O => None
  | Some c, S fuel => slist_len_loop fuel (h c) (u32 (len + 1)) h
  end.
Definition rt_slist_len (fuel : nat) l h : option Z := slist_len_loop fuel (h l) 0 h.

(** [while (node->next && node->next != n) node = node->next;] *)
Fixpoint slist_find (fuel : nat) (node n : C) h : option C :=
  match fuel with
  | O => None
  | S fuel =>
      match h node with
      | Some c => if bool_decide (c = n) then Some node else slist_find fuel c n h
      | None => Some node
      end
  end.

Definition rt_slist_remove (fuel : nat) l n h : option (C -> option C) :=
  node ← slist_find fuel l n h;
  match h node with
  | Some c => Some (<[node := h c]> h)
  | None => Some h
  end.

Definition rt_slist_first l h : option C := h l.
Definition rt_slist_tail (fuel : nat) l h : option C := slist_end fuel l h.
Definition rt_slist_next n h : option C := h n.
Definition rt_slist_isempty l h : bool := bool_decide (h l = None).
End Slist.
