(* ===== verification/Kernel.v ===== *)
(** * The kernel store: threads, timers, IPC objects, lists

    The data of src/*.c in the configuration of
    bsp/stm32/stm32f407-atk-explorer/rtconfig.h (one CPU, 32 priorities, 32-bit
    words, no RT_USING_SMART, no signals), the store that every handler reads
    and writes, and the primitive accesses to it. *)

From S2P Require Import Prelude.
Open Scope rt_scope.

(** ** Constants of rtdef.h *)

Definition RT_EOK := 0.
Definition RT_ERROR := 1.
Definition RT_ETIMEOUT := 2.
Definition RT_EFULL := 3.
Definition RT_EEMPTY := 4.
Definition RT_ENOMEM := 5.
Definition RT_EBUSY := 7.
Definition RT_EINTR := 9.
Definition RT_EINVAL := 10.

Definition RT_TICK_MAX := 4294967295.
Definition RT_SEM_VALUE_MAX := 65535.
Definition RT_MUTEX_HOLD_MAX := 255.
Definition RT_MB_ENTRY_MAX := 65535.
Definition RT_MQ_ENTRY_MAX := 65535.
Definition RT_THREAD_PRIORITY_MAX := 32.
Definition RT_TICK_PER_SECOND := 1000.

Definition RT_THREAD_INIT := 0.
Definition RT_THREAD_CLOSE := 1.
Definition RT_THREAD_READY := 2.
Definition RT_THREAD_RUNNING := 3.
Definition RT_THREAD_SUSPEND_MASK := 4.
Definition RT_THREAD_SUSPEND_INTERRUPTIBLE := 4.
Definition RT_THREAD_SUSPEND := RT_THREAD_SUSPEND_INTERRUPTIBLE.
Definition RT_THREAD_SUSPEND_KILLABLE := 6.
Definition RT_THREAD_SUSPEND_UNINTERRUPTIBLE := 7.
Definition RT_THREAD_STAT_MASK := 7.
Definition RT_THREAD_STAT_YIELD := 8.

(** The suspend flags of the [_interruptible] and [_killable] entry points. *)
Inductive suspend_flag := RT_INTERRUPTIBLE | RT_KILLABLE | RT_UNINTERRUPTIBLE.

Definition RT_TIMER_FLAG_ACTIVATED := 1.
Definition RT_TIMER_FLAG_PROCESSING := 2.
Definition RT_TIMER_FLAG_PERIODIC := 4.
Definition RT_TIMER_FLAG_THREAD_TIMER := 16.

Definition RT_IPC_FLAG_FIFO := 0.
Definition RT_IPC_FLAG_PRIO := 1.
Definition RT_IPC_CMD_RESET := 1.
Definition RT_IPC_CMD_SET_VLIMIT := 3.
Definition RT_WAITING_FOREVER := -1.
Definition RT_WAITING_NO := 0.

Definition RT_EVENT_FLAG_AND := 1.
Definition RT_EVENT_FLAG_OR := 2.
Definition RT_EVENT_FLAG_CLEAR := 4.

(** ** Objects *)

(** A timer is the [thread_timer] of a thread or a timer object of its own. *)
Inductive tmid := TThread (t : Z) | TUser (i : Z).
#[export] Instance tmid_eq_dec : EqDecision tmid.
Proof. solve_decision. Defined.

(** struct rt_timer *)
Record timer := mkTimer {
  tm_valid : bool;      (** object type is RT_Object_Class_Timer *)
  tm_static : bool;     (** rt_object_is_systemobject *)
  tm_flag : Z;          (** parent.flag, 8 bits *)
  tm_func : Z;          (** timeout_func, a code address *)
  tm_parm : Z;          (** parameter *)
  tm_init_tick : Z;     (** init_tick *)
  tm_timeout_tick : Z;  (** timeout_tick *)
}.
#[export] Instance timer_eta : EtaRec timer :=
  fun t => mkTimer (tm_valid t) (tm_static t) (tm_flag t) (tm_func t) (tm_parm t) (tm_init_tick t)
    (tm_timeout_tick t).

(** struct rt_thread: the fields that scheduling, IPC and timing read. *)
Record thread := mkThread {
  th_valid : bool;        (** object type is RT_Object_Class_Thread *)
  th_static : bool;       (** rt_object_is_systemobject *)
  th_stat : Z;            (** stat, 8 bits *)
  th_ttmr : bool;         (** sched_flag_ttmr_set *)
  th_init_tick : Z;       (** init_tick *)
  th_remaining : Z;       (** remaining_tick *)
  th_cur_prio : Z;        (** current_priority *)
  th_init_prio : Z;       (** init_priority *)
  th_mask : Z;            (** number_mask *)
  th_error : Z;           (** error *)
  th_evset : Z;           (** event_set *)
  th_evinfo : Z;          (** event_info *)
  th_pending : option Z;  (** pending_object *)
  th_timer : timer;       (** thread_timer *)
}.
#[export] Instance thread_eta : EtaRec thread :=
  fun t => mkThread (th_valid t) (th_static t) (th_stat t) (th_ttmr t) (th_init_tick t)
    (th_remaining t) (th_cur_prio t) (th_init_prio t) (th_mask t) (th_error t) (th_evset
    t) (th_evinfo t) (th_pending t) (th_timer t).

(** struct rt_object of an IPC object *)
Record ipc_object := mkIpc {
  ob_valid : bool;   (** the object type field is this class *)
  ob_static : bool;  (** RT_Object_Class_Static *)
  ob_flag : Z;       (** parent.parent.flag *)
}.
#[export] Instance ipc_object_eta : EtaRec ipc_object :=
  fun o => mkIpc (ob_valid o) (ob_static o) (ob_flag o).

(** struct rt_semaphore *)
Record sem := mkSem {
  sem_ob : ipc_object;  (** parent *)
  sem_value : Z;        (** value, 16 bits *)
  sem_max : Z;          (** max_value, 16 bits *)
}.
#[export] Instance sem_eta : EtaRec sem :=
  fun s => mkSem (sem_ob s) (sem_value s) (sem_max s).

(** struct rt_mutex; its [taken_list] node is in [k_taken]. *)
Record mutex := mkMutex {
  mx_ob : ipc_object;   (** parent *)
  mx_ceiling : Z;       (** ceiling_priority, 8 bits *)
  mx_priority : Z;      (** priority, 8 bits *)
  mx_hold : Z;          (** hold, 8 bits *)
  mx_owner : option Z;  (** owner *)
}.
#[export] Instance mutex_eta : EtaRec mutex :=
  fun m => mkMutex (mx_ob m) (mx_ceiling m) (mx_priority m) (mx_hold m) (mx_owner m).

(** struct rt_event *)
Record event := mkEvent {
  ev_ob : ipc_object;  (** parent *)
  ev_set : Z;          (** set, 32 bits *)
}.
#[export] Instance event_eta : EtaRec event :=
  fun e => mkEvent (ev_ob e) (ev_set e).

(** struct rt_mailbox *)
Record mailbox := mkMailbox {
  mb_ob : ipc_object;  (** parent *)
  mb_pool : list Z;    (** msg_pool *)
  mb_size : Z;         (** size, 16 bits *)
  mb_entry : Z;        (** entry, 16 bits *)
  mb_in : Z;           (** in_offset *)
  mb_out : Z;          (** out_offset *)
}.
#[export] Instance mailbox_eta : EtaRec mailbox :=
  fun m => mkMailbox (mb_ob m) (mb_pool m) (mb_size m) (mb_entry m) (mb_in m) (mb_out
    m).

(** struct rt_mq_message and the bytes behind it *)
Record mqnode := mkNode {
  mn_next : option Z;  (** next *)
  mn_length : Z;       (** length *)
  mn_data : list Z;    (** the message bytes after the header *)
}.
#[export] Instance mqnode_eta : EtaRec mqnode :=
  fun n => mkNode (mn_next n) (mn_length n) (mn_data n).

(** struct rt_messagequeue *)
Record msgqueue := mkMq {
  mq_ob : ipc_object;        (** parent *)
  mq_nodes : gmap Z mqnode;  (** msg_pool, by node address *)
  mq_msg_size : Z;           (** msg_size, 16 bits *)
  mq_max_msgs : Z;           (** max_msgs, 16 bits *)
  mq_entry : Z;              (** entry, 16 bits *)
  mq_head : option Z;        (** msg_queue_head *)
  mq_tail : option Z;        (** msg_queue_tail *)
  mq_free : option Z;        (** msg_queue_free *)
}.
#[export] Instance msgqueue_eta : EtaRec msgqueue :=
  fun q => mkMq (mq_ob q) (mq_nodes q) (mq_msg_size q) (mq_max_msgs q) (mq_entry q)
    (mq_head q) (mq_tail q) (mq_free q).

(** struct rt_mempool *)
Record mempool := mkMempool {
  mp_ob : ipc_object;   (** parent *)
  mp_size : Z;          (** size *)
  mp_block_size : Z;    (** block_size *)
  mp_words : gmap Z Z;  (** the pointer word before each block, by address *)
  mp_list : Z;          (** block_list, 0 is RT_NULL *)
  mp_total : Z;         (** block_total_count *)
  mp_free_count : Z;    (** block_free_count *)
}.
#[export] Instance mempool_eta : EtaRec mempool :=
  fun p => mkMempool (mp_ob p) (mp_size p) (mp_block_size p) (mp_words p) (mp_list p)
    (mp_total p) (mp_free_count p).

(** struct rt_data_item: data_ptr and data_size *)
Definition data_item : Type := Z * Z.

(** struct rt_data_queue *)
Record dataqueue := mkDq {
  dq_magic : Z;                (** magic *)
  dq_size : Z;                 (** size, 16 bits *)
  dq_lwm : Z;                  (** lwm, 16 bits *)
  dq_get : Z;                  (** get_index, 15 bits *)
  dq_empty : bool;             (** is_empty *)
  dq_put : Z;                  (** put_index, 15 bits *)
  dq_full : bool;              (** is_full *)
  dq_items : list data_item;   (** queue *)
  dq_notify : Z;               (** evt_notify, a code address, 0 is RT_NULL *)
}.
#[export] Instance dataqueue_eta : EtaRec dataqueue :=
  fun q => mkDq (dq_magic q) (dq_size q) (dq_lwm q) (dq_get q) (dq_empty q) (dq_put q) (dq_full q)
    (dq_items q) (dq_notify q).

(** ** Thread lists

    The list heads a thread's [tlist] node can be linked in: the ready queues
    [rt_thread_priority_table[p]], the [suspend_thread] and
    [suspend_sender_thread] lists of the IPC objects, the suspended_push_list and
    suspended_pop_list of the data queues, and the queue of dead threads of idle.c.  A node that is only linked to itself is in no list. *)
Inductive lid :=
  | LReady (p : Z) | LSem (o : Z) | LMutex (o : Z) | LEvent (o : Z)
  | LMbRecv (o : Z) | LMbSend (o : Z) | LMqRecv (o : Z) | LMqSend (o : Z)
  | LPool (o : Z) | LDqPush (o : Z) | LDqPop (o : Z) | LDefunct.
#[export] Instance lid_eq_dec : EqDecision lid.
Proof. solve_decision. Defined.

(** ** The store *)
Record kernel := mkKernel {
  k_threads : gmap Z thread;  (** thread objects by address *)
  k_lists : lid -> list Z;    (** the thread lists, nodes of the threads in order *)
  k_taken : Z -> list Z;      (** taken_object_list of each thread: its mutexes *)
  k_group : Z;                (** rt_thread_ready_priority_group *)
  k_lock_nest : Z;            (** rt_scheduler_lock_nest *)
  k_current : option Z;       (** rt_current_thread *)
  k_current_prio : Z;         (** rt_current_priority *)
  k_irq_nest : Z;             (** rt_interrupt_nest *)
  k_tick : Z;                 (** rt_tick *)
  k_timer_list : list tmid;   (** _timer_list, one skip-list level *)
  k_timer_exec : list tmid;   (** the local list of rt_timer_check *)
  k_utimers : gmap Z timer;   (** timer objects that are not a thread's *)
  k_sems : gmap Z sem;
  k_mutexes : gmap Z mutex;
  k_events : gmap Z event;
  k_mbs : gmap Z mailbox;
  k_mqs : gmap Z msgqueue;
  k_mps : gmap Z mempool;
  k_dqs : gmap Z dataqueue;   (** data queues of the device layer *)
  k_comps : gmap Z Z;         (** susp_thread_n_flag of the completions *)
}.
#[export] Instance kernel_eta : EtaRec kernel :=
  fun k => mkKernel (k_threads k) (k_lists k) (k_taken k) (k_group k) (k_lock_nest k)
    (k_current k) (k_current_prio k) (k_irq_nest k) (k_tick k) (k_timer_list k)
    (k_timer_exec k) (k_utimers k) (k_sems k) (k_mutexes k) (k_events k) (k_mbs k)
    (k_mqs k) (k_mps k) (k_dqs k) (k_comps k).

(** ** Primitive accesses *)

Abbreviation K := (st kernel).

Definition get_thread (t : Z) : K thread := fun k =>
  match k_threads k !! t with Some th => Some (th, k) | None => None end.
Definition upd_thread (t : Z) (f : thread -> thread) : K unit :=
  th ← get_thread t; st_modify (fun k => k <| k_threads ::= insert t (f th) |>).

(** [rt_thread_self()]; the calls that dereference it fail on RT_NULL. *)
Definition rt_thread_self : K (option Z) := st_gets k_current.
Definition the_self : K Z := o ← rt_thread_self; st_opt o.

(** The list macros of rtservice.h on the thread lists (RtListProps.v relates them
    to the pointer code): [rt_list_remove] unlinks a node wherever it is. *)
Definition rt_list_remove (t : Z) : K unit :=
  st_modify (fun k => k <| k_lists ::= (fun ls l => filter (fun x => x <> t) (ls l)) |>).
Definition rt_list_insert_before (l : lid) (t : Z) : K unit :=
  st_modify (fun k => k <| k_lists ::= (fun ls => <[l := ls l ++ [t]]> ls) |>).
Definition rt_list_insert_after (l : lid) (t : Z) : K unit :=
  st_modify (fun k => k <| k_lists ::= (fun ls => <[l := t :: ls l]> ls) |>).
Definition rt_list_isempty (l : lid) : K bool :=
  st_gets (fun k => bool_decide (k_lists k l = [])).
(** [RT_THREAD_LIST_NODE_ENTRY(l->next)] of a list that is not empty *)
Definition list_first (l : lid) : K Z := x ← st_gets (fun k => head (k_lists k l)); st_opt x.

(** The [taken_list] node of a mutex and [taken_object_list] of a thread. *)
Definition taken_remove (m : Z) : K unit :=
  st_modify (fun k => k <| k_taken ::= (fun ls t => filter (fun x => x <> m) (ls t)) |>).
Definition taken_insert_after (t m : Z) : K unit :=
  st_modify (fun k => k <| k_taken ::= (fun ls => <[t := m :: ls t]> ls) |>).

(** Accessors of the object tables. *)
Section Tables.
Context {O : Type} (proj : kernel -> gmap Z O) `{!Setter proj}.
Definition get_obj (i : Z) : K O := fun k =>
  match proj k !! i with Some o => Some (o, k) | None => None end.
Definition upd_obj (i : Z) (f : O -> O) : K unit :=
  o ← get_obj i; st_modify (set_field proj (insert i (f o))).
(** [rt_object_init]: the object must not be in its container already. *)
Definition obj_init (valid : O -> bool) (i : Z) (o : O) : K unit :=
  old ← st_gets (fun k => proj k !! i);
  rt_assert (match old with Some o' => negb (valid o') | None => true end);;
  st_modify (set_field proj (insert i o)).
(** [rt_object_delete]: the memory of the object is released. *)
Definition obj_delete (i : Z) : K unit := st_modify (set_field proj (delete i)).
End Tables.

(** Context checks of rtthread.h (RT_DEBUGING_CONTEXT is set). *)
Definition rt_interrupt_get_nest : K Z := st_gets (fun k => u8 (k_irq_nest k)).
Definition RT_DEBUG_NOT_IN_INTERRUPT : K unit :=
  n ← rt_interrupt_get_nest; rt_assert (n =? 0).
Definition RT_DEBUG_IN_THREAD_CONTEXT : K unit :=
  o ← rt_thread_self; rt_assert (bool_decide (is_Some o));; RT_DEBUG_NOT_IN_INTERRUPT.
Definition RT_DEBUG_SCHEDULER_AVAILABLE (need_check : bool) : K unit :=
  when need_check
    (n ← st_gets k_lock_nest; rt_assert (n =? 0);; RT_DEBUG_IN_THREAD_CONTEXT).

(** [if (flags & mask)] *)
Definition has_flag (flags mask : Z) : bool := negb (Z.land flags mask =? 0).
(** [RT_SCHED_CTX(thread).stat & RT_THREAD_STAT_MASK] *)
Definition stat_of (th : thread) : Z := Z.land (th_stat th) RT_THREAD_STAT_MASK.
(** [stat | (old & ~RT_THREAD_STAT_MASK)] *)
Definition with_stat (stat old : Z) : Z := Z.lor stat (Z.ldiff old RT_THREAD_STAT_MASK).

(** ** Calls that give up the processor

    A C function that calls [rt_schedule] in its middle goes on when its
    thread is current again.  The handler up to that call returns [Waiting c]:
    [c] names the point where the function stands and the local variables it
    still needs; the matching [_resume] definition is the code after it.
    [Done r out] is a return with result [r]; [out] is what was written through
    the output pointer. *)
Inductive pc :=
  | PcSchedRet (again : bool) (r : Z)
  | PcSemTake (s : Z)
  | PcMutexTake (m : Z)
  | PcMutexTake2 (m : Z)
  | PcMutexFail (ret : Z)
  | PcMutexDetach (m : Z) (del : bool)
  | PcEventRecv (e : Z)
  | PcEventDelete (e : Z)
  | PcMbDelete (m : Z)
  | PcMqDelete (q : Z)
  | PcMbSend (m value timeout tick : Z) (f : suspend_flag)
  | PcMbRecv (m timeout tick : Z) (f : suspend_flag)
  | PcMqSend (q : Z) (buf : list Z) (timeout tick : Z) (f : suspend_flag)
  | PcMqRecv (q size timeout tick : Z) (f : suspend_flag)
  | PcMpAlloc (p time tick : Z)
  | PcDqPush (q data size timeout : Z)
  | PcDqPop (q timeout : Z)
  | PcDqPopEnd (q data size : Z)
  | PcDqDeinit (q : Z) (again : bool)
  | PcCompWait (c : Z)
  | PcSleep
  | PcDelayUntil (tick : Z)
  | PcDelayUntil2 (tick : Z)
  | PcExit.

Inductive outcome := Done (r : Z) (out : list Z) | Waiting (c : pc).

(** The rest of a function after a call that may have switched away. *)
Definition if_still_running (self : option Z) (c : pc) (rest : K outcome) : K outcome :=
  self' ← rt_thread_self;
  if bool_decide (self' = self) then rest else mret (Waiting c).
