(* ===== verification/Ringbuffer.v ===== *)
(** * Ring buffers of bytes: src/components/drivers/ipc/ringbuffer.c

    A [ringbuffer] is [struct rt_ringbuffer] with the bytes of its pool.  The
    one-bit fields are booleans, on which [~] is [negb]; the indices have 31
    bits.  A block of data is the list of its [length] bytes; [rt_memcpy] fails
    outside the pool. *)

From S2P Require Import Prelude.
Open Scope rt_scope.

Record ringbuffer := mkRingbuffer {
  rb_buffer : list Z;       (* what buffer_ptr points to *)
  rb_read_mirror : bool;
  rb_read_index : Z;
  rb_write_mirror : bool;
  rb_write_index : Z;
  rb_size : Z;              (* buffer_size *)
}.

#[export] Instance eta_ringbuffer : EtaRec ringbuffer := fun r =>
  mkRingbuffer (rb_buffer r) (rb_read_mirror r) (rb_read_index r) (rb_write_mirror r) (rb_write_index r) (rb_size r).

Inductive rt_ringbuffer_state := RT_RINGBUFFER_EMPTY | RT_RINGBUFFER_FULL | RT_RINGBUFFER_HALFFULL.

Definition u31 (x : Z) : Z := x mod 2 ^ 31.

Abbreviation RB := (st ringbuffer).

(** ** Access to the pool *)

Fixpoint write_at (i : nat) (bs buf : list Z) : list Z :=
  match bs with [] => buf | b :: bs => write_at (S i) bs (<[i := b]> buf) end.

(** [rt_memcpy(&rb->buffer_ptr[i], bs, length)] *)
Definition copy_in (i : Z) (bs : list Z) : RB unit :=
  rb ← st_get;
  rt_assert ((0 <=? i) && (i + Z.of_nat (length bs) <=? Z.of_nat (length (rb_buffer rb))));;
  st_modify (fun rb => rb <| rb_buffer ::= write_at (Z.to_nat i) bs |>).

(** [rt_memcpy(ptr, &rb->buffer_ptr[i], n)]: the bytes that are copied. *)
Definition copy_out (i n : Z) : RB (list Z) :=
  rb ← st_get;
  rt_assert ((0 <=? i) && (0 <=? n) && (i + n <=? Z.of_nat (length (rb_buffer rb))));;
  mret (take (Z.to_nat n) (drop (Z.to_nat i) (rb_buffer rb))).

Definition load (i : Z) : RB Z := rb ← st_get; st_opt (rb_buffer rb !! Z.to_nat i).

(** ** Sizes *)

Definition rt_ringbuffer_status (rb : ringbuffer) : rt_ringbuffer_state :=
  if rb_read_index rb =? rb_write_index rb then
    if Bool.eqb (rb_read_mirror rb) (rb_write_mirror rb) then RT_RINGBUFFER_EMPTY else RT_RINGBUFFER_FULL
  else RT_RINGBUFFER_HALFFULL.

Definition rt_ringbuffer_data_len (rb : ringbuffer) : Z :=
  match rt_ringbuffer_status rb with
  | RT_RINGBUFFER_EMPTY => 0
  | RT_RINGBUFFER_FULL => rb_size rb
  | RT_RINGBUFFER_HALFFULL =>
      let wi := rb_write_index rb in let ri := rb_read_index rb in
      if ri <? wi then wi - ri else u32 (rb_size rb - (ri - wi))
  end.

Definition rt_ringbuffer_space_len (rb : ringbuffer) : Z := u32 (rb_size rb - rt_ringbuffer_data_len rb).
Definition rt_ringbuffer_get_size (rb : ringbuffer) : Z := u32 (rb_size rb).

(** ** Life cycle *)

Definition rt_ringbuffer_init (pool : list Z) (size : Z) : option ringbuffer :=
  if 0 <? size then Some (mkRingbuffer pool false 0 false 0 (RT_ALIGN_DOWN size RT_ALIGN_SIZE)) else None.

Definition rt_ringbuffer_reset : RB unit :=
  st_modify (fun rb => rb <| rb_read_mirror := false |> <| rb_read_index := 0 |>
                          <| rb_write_mirror := false |> <| rb_write_index := 0 |>).

(** [mem] says whether the structure could be allocated, [pool] is the memory
    for the bytes; [Some None] is a returned RT_NULL. *)
Definition rt_ringbuffer_create (size : Z) (mem : bool) (pool : option (list Z)) : option (option ringbuffer) :=
  if 0 <? size then
    let size := RT_ALIGN_DOWN size RT_ALIGN_SIZE in
    if mem then
      match pool with
      | None => Some None
      | Some pool => match rt_ringbuffer_init pool size with Some rb => Some (Some rb) | None => None end
      end
    else Some None
  else None.

(** ** Writing *)

(** The tail of [put] and [put_force]: [length] bytes in one or two pieces; the
    result says whether the write index went round. *)
Definition write_wrapped (ptr : list Z) : RB unit :=
  rb ← st_get;
  let k := rb_size rb - rb_write_index rb in
  copy_in (rb_write_index rb) (take (Z.to_nat k) ptr);;
  copy_in 0 (drop (Z.to_nat k) ptr);;
  (* we are going into the other side of the mirror *)
  st_modify (fun rb => rb <| rb_write_mirror ::= negb |>
                          <| rb_write_index := u31 (Z.of_nat (length ptr) - k) |>).

Definition rt_ringbuffer_put (ptr : list Z) : RB Z :=
  rb ← st_get;
  (* whether has enough space *)
  let size := rt_ringbuffer_space_len rb in
  (* no space *)
  if size =? 0 then mret 0 else
  (* drop some data *)
  let ptr := if size <? Z.of_nat (length ptr) then take (Z.to_nat size) ptr else ptr in
  let length := Z.of_nat (length ptr) in
  if length <? u32 (rb_size rb - rb_write_index rb) then
    copy_in (rb_write_index rb) ptr;;
    st_modify (fun rb => rb <| rb_write_index ::= (fun i => u31 (i + length)) |>);;
    mret length
  else write_wrapped ptr;; mret length.

Definition rt_ringbuffer_put_force (ptr : list Z) : RB Z :=
  rb ← st_get;
  let space_length := rt_ringbuffer_space_len rb in
  let len := Z.of_nat (length ptr) in
  let ptr := if u32 (rb_size rb) <? len then drop (Z.to_nat (len - rb_size rb)) ptr else ptr in
  let length := Z.of_nat (length ptr) in
  if length <? u32 (rb_size rb - rb_write_index rb) then
    copy_in (rb_write_index rb) ptr;;
    st_modify (fun rb => rb <| rb_write_index ::= (fun i => u31 (i + length)) |>);;
    when (space_length <? length)
      (st_modify (fun rb => rb <| rb_read_index := rb_write_index rb |>));;
    mret length
  else
    write_wrapped ptr;;
    when (space_length <? length)
      (rb ← st_get;
       when (rb_write_index rb <=? rb_read_index rb) (st_modify (fun rb => rb <| rb_read_mirror ::= negb |>));;
       st_modify (fun rb => rb <| rb_read_index := rb_write_index rb |>));;
    mret length.

(** [rb->buffer_ptr[rb->write_index] = ch] and the step of the write index; the
    result says whether it went round. *)
Definition put_byte (ch : Z) : RB bool :=
  rb ← st_get;
  copy_in (rb_write_index rb) [ch];;
  (* flip mirror *)
  if rb_write_index rb =? rb_size rb - 1 then
    st_modify (fun rb => rb <| rb_write_mirror ::= negb |> <| rb_write_index := 0 |>);; mret true
  else st_modify (fun rb => rb <| rb_write_index ::= (fun i => u31 (i + 1)) |>);; mret false.

Definition rt_ringbuffer_putchar (ch : Z) : RB Z :=
  rb ← st_get;
  (* whether has enough space *)
  if rt_ringbuffer_space_len rb =? 0 then mret 0 else
  put_byte ch;; mret 1.

Definition rt_ringbuffer_putchar_force (ch : Z) : RB Z :=
  rb ← st_get;
  let old_state := rt_ringbuffer_status rb in
  wrapped ← put_byte ch;
  match old_state with
  | RT_RINGBUFFER_FULL =>
      when (wrapped : bool) (st_modify (fun rb => rb <| rb_read_mirror ::= negb |>));;
      st_modify (fun rb => rb <| rb_read_index := rb_write_index rb |>)
  | _ => mret tt
  end;;
  mret 1.

(** ** Reading *)

(** The result is the returned size with the bytes written to [ptr]. *)
Definition rt_ringbuffer_get (length : Z) : RB (Z * list Z) :=
  rb ← st_get;
  (* whether has enough data *)
  let size := rt_ringbuffer_data_len rb in
  (* no data *)
  if size =? 0 then mret (0, []) else
  (* less data *)
  let length := if size <? length then size else length in
  let k := rb_size rb - rb_read_index rb in
  if length <? u32 k then
    (* copy all of data *)
    bytes ← copy_out (rb_read_index rb) length;
    st_modify (fun rb => rb <| rb_read_index ::= (fun i => u31 (i + length)) |>);;
    mret (length, bytes)
  else
    bytes1 ← copy_out (rb_read_index rb) k;
    bytes2 ← copy_out 0 (length - k);
    (* we are going into the other side of the mirror *)
    st_modify (fun rb => rb <| rb_read_mirror ::= negb |> <| rb_read_index := u31 (length - k) |>);;
    mret (length, bytes1 ++ bytes2).

(** The result is the size and the index in the pool that [*ptr] points to,
    [None] for RT_NULL. *)
Definition rt_ringbuffer_peek : RB (Z * option Z) :=
  rb ← st_get;
  let size := rt_ringbuffer_data_len rb in
  if size =? 0 then mret (0, None) else
  let at_index := Some (rb_read_index rb) in
  if size <? u32 (rb_size rb - rb_read_index rb) then
    st_modify (fun rb => rb <| rb_read_index ::= (fun i => u31 (i + size)) |>);;
    mret (size, at_index)
  else
    let size := u32 (rb_size rb - rb_read_index rb) in
    st_modify (fun rb => rb <| rb_read_mirror ::= negb |> <| rb_read_index := 0 |>);;
    mret (size, at_index).

(** [Some ch] is a returned 1 with the byte in [*ch], [None] a returned 0. *)
Definition rt_ringbuffer_getchar : RB (option Z) :=
  rb ← st_get;
  if rt_ringbuffer_data_len rb =? 0 then mret None else
  ch ← load (rb_read_index rb);
  (if rb_read_index rb =? rb_size rb - 1 then
     st_modify (fun rb => rb <| rb_read_mirror ::= negb |> <| rb_read_index := 0 |>)
   else st_modify (fun rb => rb <| rb_read_index ::= (fun i => u31 (i + 1)) |>));;
  mret (Some ch).
