(* ===== verification/OxGame.v ===== *)
(** * The OX game: data, rules and display

    bsp/stm32/stm32f407-atk-explorer/applications/OXGame.c and oxgame.h, the
    parts that run under the game's mutex.  An operation on the global [game] is
    a computation over it; drawing is the list of the calls of the LCD driver.
    The functions that block are in OxApp.v.  Console output is left out. *)

From Stdlib Require Import Strings.Ascii Strings.String.
From S2P Require Import Prelude.
Open Scope rt_scope.

Inductive GameState := GAME_PLAYING | GAME_X_WIN | GAME_O_WIN | GAME_DRAW.
Inductive ResetType := RESET_CURRENT | RESET_FULL.

#[export] Instance GameState_eq_dec : EqDecision GameState.
Proof. solve_decision. Defined.

Record Player := mkPlayer {
  symbol : Z;
  positions : list Z;      (* positions[3][2], never used *)
  move_step : Z;           (* never used *)
  name : list Z;           (* name[16] *)
}.

#[export] Instance eta_Player : EtaRec Player := fun p => mkPlayer (symbol p) (positions p) (move_step p) (name p).

Record OXGame := mkOXGame {
  board : list Z;          (* board[x][y] at 3 * x + y; 0 empty, 1 X, 2 O *)
  player_x : Player;
  player_o : Player;
  current_player : Z;      (* 0 X, 1 O *)
  total_steps : Z;
  state : GameState;
  state_changed : bool;
  cursor_x : Z;
  cursor_y : Z;
}.

#[export] Instance eta_OXGame : EtaRec OXGame := fun g =>
  mkOXGame (board g) (player_x g) (player_o g) (current_player g) (total_steps g) (state g) (state_changed g)
    (cursor_x g) (cursor_y g).

Abbreviation G := (st OXGame).

(** [sizeof(player->name)] and the characters of a C string literal. *)
Definition NAME_SIZE : nat := 16.
Definition chars (s : string) : list Z := map (fun c => Z.of_N (N_of_ascii c)) (list_ascii_of_string s).

(** The global [game] before ox_game_init: static memory is zero. *)
Definition no_player : Player := mkPlayer 0 (replicate 6 0) 0 (replicate NAME_SIZE 0).
Definition game_zero : OXGame := mkOXGame (replicate 9 0) no_player no_player 0 0 GAME_PLAYING false 0 0.

(** ** Buttons *)

(** [GET_PIN(PORTx, PIN)], with the number of the port. *)
Definition GET_PIN (port pin : Z) : Z := 16 * port + pin.
Definition BUTTON_RIGHT : Z := GET_PIN 4 4.
Definition BUTTON_DOWN : Z := GET_PIN 4 3.
Definition BUTTON_LEFT : Z := GET_PIN 4 2.
Definition BUTTON_OK : Z := GET_PIN 0 0.
Definition PIN_LOW : Z := 0.
Definition PIN_HIGH : Z := 1.

(** ** The board *)

Definition cell (g : OXGame) (x y : Z) : Z := board g !!! Z.to_nat (3 * x + y).

Definition in_board (x y : Z) : bool := (0 <=? x) && (x <? 3) && (0 <=? y) && (y <? 3).

(** [game.board[game.cursor_x][game.cursor_y]]; [None] outside the array. *)
Definition cursor_cell : G Z :=
  g ← st_get;
  rt_assert (in_board (cursor_x g) (cursor_y g));;
  mret (cell g (cursor_x g) (cursor_y g)).

Definition set_cursor_cell (v : Z) : G unit :=
  g ← st_get;
  rt_assert (in_board (cursor_x g) (cursor_y g));;
  st_modify (fun g => g <| board ::= <[Z.to_nat (3 * cursor_x g + cursor_y g) := v]> |>).

(** The test of one line of three cells. *)
Definition winning_line (a b c : Z) : option GameState :=
  if negb (a =? 0) && (a =? b) && (b =? c) then Some (if a =? 1 then GAME_X_WIN else GAME_O_WIN) else None.

Fixpoint first_of {A} (l : list (option A)) : option A :=
  match l with [] => None | Some a :: _ => Some a | None :: l => first_of l end.

Definition check_win (g : OXGame) : GameState :=
  let c := cell g in
  match first_of
    ( (* rows *)
     map (fun y => winning_line (c 0 y) (c 1 y) (c 2 y)) [0; 1; 2] ++
     (* columns *)
     map (fun x => winning_line (c x 0) (c x 1) (c x 2)) [0; 1; 2] ++
     (* diagonals *)
     [winning_line (c 0 0) (c 1 1) (c 2 2); winning_line (c 2 0) (c 1 1) (c 0 2)])
  with
  | Some s => s
  | None => if 9 <=? total_steps g then GAME_DRAW else GAME_PLAYING
  end.

(** ** Moves *)

Definition mark_changed : G unit := st_modify (fun g => g <| state_changed := true |>).

Definition move_left : G unit :=
  st_modify (fun g => g <| cursor_x ::= (fun x => if x =? 0 then 2 else u8 (x - 1)) |>);; mark_changed.
Definition move_right : G unit :=
  st_modify (fun g => g <| cursor_x ::= (fun x => u8 ((x + 1) mod 3)) |>);; mark_changed.
Definition move_down : G unit :=
  st_modify (fun g => g <| cursor_y ::= (fun y => if y <? 2 then u8 (y + 1) else 0) |>);; mark_changed.
Definition move_up : G unit :=
  st_modify (fun g => g <| cursor_y ::= (fun y => if y =? 0 then 2 else u8 (y - 1)) |>);; mark_changed.

Definition place_piece : G unit :=
  g ← st_get;
  c ← cursor_cell;
  when ((c =? 0) && bool_decide (state g = GAME_PLAYING))
    (set_cursor_cell (u8 (current_player g + 1));;
     st_modify (fun g => g <| total_steps ::= (fun n => u8 (n + 1)) |>);;
     st_modify (fun g => g <| state := check_win g |>);;
     st_modify (fun g => g <| current_player ::= (fun p => if p =? 0 then 1 else 0) |>);;
     mark_changed).

(** The switch of key_thread_entry. *)
Definition key_switch (active_pin : Z) : G unit :=
  if active_pin =? BUTTON_LEFT then move_left
  else if active_pin =? BUTTON_RIGHT then move_right
  else if active_pin =? BUTTON_DOWN then move_down
  else if active_pin =? BUTTON_OK then place_piece
  else mret tt.

(** The switch of cmd_thread_entry; [Some type] is the call of
    [reset_game(type)]. *)
Definition cmd_switch (cmd : Z) : G (option ResetType) :=
  if cmd =? 97 (* a *) then move_left;; mret None
  else if cmd =? 100 (* d *) then move_right;; mret None
  else if cmd =? 115 (* s *) then move_down;; mret None
  else if cmd =? 119 (* w *) then move_up;; mret None
  else if cmd =? 101 (* e *) then place_piece;; mret None
  else if cmd =? 114 (* r *) then mret (Some RESET_FULL)
  else if cmd =? 99 (* c *) then mret (Some RESET_CURRENT)
  else mret None.

(** ** Resetting *)

(** The part of reset_game for every type. *)
Definition reset_common : G unit :=
  st_modify (fun g => g <| cursor_x := 1 |> <| cursor_y := 1 |> <| total_steps := 0 |>
    <| player_x ::= (fun p => p <| symbol := 120 |>) |> <| player_o ::= (fun p => p <| symbol := 111 |>) |>
    <| state := GAME_PLAYING |> <| current_player := 0 |> <| board := replicate 9 0 |> <| state_changed := true |>).

(** The two rt_memset of a full reset. *)
Definition clear_names : G unit :=
  st_modify (fun g => g <| player_x ::= (fun p => p <| name := replicate NAME_SIZE 0 |>) |>
                        <| player_o ::= (fun p => p <| name := replicate NAME_SIZE 0 |>) |>).

(** src/klibc/kstring.c: the [n] bytes that are written to [dst]; [None] if the
    source is read beyond its end. *)
Fixpoint rt_strncpy (src : list Z) (n : nat) : option (list Z) :=
  match n with
  | O => Some []
  | S n =>
      match src with
      | [] => None
      | c :: src => if c =? 0 then Some (0 :: replicate n 0) else d ← rt_strncpy src n; Some (c :: d)
      end
  end.

(** The end of input_player_name: [buf] holds the [len] characters read;
    [for_o] tells which player the pointer is to. *)
Definition set_name (for_o : bool) (buf : list Z) : G unit :=
  n ← st_opt (rt_strncpy (buf ++ [0]) NAME_SIZE);
  st_modify (fun g => if for_o then g <| player_o ::= (fun p => p <| name := n |>) |>
                      else g <| player_x ::= (fun p => p <| name := n |>) |>).

(** ** The display *)

Inductive lcd_op :=
  | LCD_Clear (color : Z)
  | LCD_DrawLine (color x1 y1 x2 y2 : Z)
  | LCD_DrawThickLine (color x0 y0 x1 y1 thickness : Z)
  | LCD_DrawCircle (x0 y0 r color : Z)
  | LCD_DrawRect (x y width height color : Z)
  | LCD_ShowString (x y width height size : Z) (p : list Z).

Definition WHITE : Z := 0xFFFF.
Definition BLACK : Z := 0x0000.
Definition BLUE : Z := 0x001F.
Definition YELLOW : Z := 0xFFE0.
Definition GGREEN : Z := 0x6400.
Definition color_table : list Z := [WHITE; GGREEN; BLUE].

Definition CELL_SIZE : Z := 80.
Definition BOARD_OFFSET_X : Z := 40.
Definition BOARD_OFFSET_Y : Z := 200.

Definition draw_grid : list lcd_op :=
  let X := BOARD_OFFSET_X in let Y := BOARD_OFFSET_Y in let S := CELL_SIZE in
  [LCD_DrawLine BLACK (X + S) Y (X + S) (Y + S * 3);
   LCD_DrawLine BLACK (X + S * 2) Y (X + S * 2) (Y + S * 3);
   LCD_DrawLine BLACK X (Y + S) (X + S * 3) (Y + S);
   LCD_DrawLine BLACK X (Y + S * 2) (X + S * 3) (Y + S * 2)].

Definition draw_piece (x y color : Z) : list lcd_op :=
  let px := u16 (BOARD_OFFSET_X + x * CELL_SIZE + CELL_SIZE / 2) in
  let py := u16 (BOARD_OFFSET_Y + y * CELL_SIZE + CELL_SIZE / 2) in
  if color =? color_table !!! 1%nat then
    [LCD_DrawLine color (u16 (px - 20)) (u16 (py - 20)) (u16 (px + 20)) (u16 (py + 20));
     LCD_DrawLine color (u16 (px + 20)) (u16 (py - 20)) (u16 (px - 20)) (u16 (py + 20));
     LCD_DrawThickLine color (u16 (px - 20)) (u16 (py - 20)) (u16 (px + 20)) (u16 (py + 20)) 5;
     LCD_DrawThickLine color (u16 (px + 20)) (u16 (py - 20)) (u16 (px - 20)) (u16 (py + 20)) 5]
  else if color =? color_table !!! 2%nat then [LCD_DrawCircle px py 20 color]
  else [].

(** The characters of a string before its NUL, and [rt_snprintf] with one
    argument behind a prefix, into a buffer of [size] bytes. *)
Fixpoint cstr (s : list Z) : list Z :=
  match s with [] => [] | c :: s => if c =? 0 then [] else c :: cstr s end.
Definition snprintf_behind (size : nat) (prefix arg : list Z) : list Z := take (size - 1) (prefix ++ arg).

Definition show_line (y width : Z) (s : list Z) : lcd_op := LCD_ShowString 300 y width 24 24 s.

Definition ox_game_draw_board (g : OXGame) : list lcd_op :=
  [LCD_Clear WHITE] ++ draw_grid ++
  (* all pieces *)
  flat_map (fun y => flat_map (fun x =>
    if cell g x y =? 0 then [] else draw_piece x y (color_table !!! Z.to_nat (cell g x y))) [0; 1; 2]) [0; 1; 2] ++
  [show_line 50 200 (snprintf_behind 40 (chars "X: ") (cstr (name (player_x g))));
   show_line 100 200 (snprintf_behind 40 (chars "O: ") (cstr (name (player_o g))));
   show_line 150 200 (snprintf_behind 40 (chars "Current: ")
     [if current_player g =? 0 then symbol (player_x g) else symbol (player_o g)]);
   show_line 200 600 (chars "move:wasd");
   show_line 250 600 (chars "place piece:e");
   show_line 300 600 (chars "reset game:r");
   show_line 350 600 (chars "reset curr:c");
   LCD_DrawRect (u16 (BOARD_OFFSET_X + cursor_x g * CELL_SIZE)) (u16 (BOARD_OFFSET_Y + cursor_y g * CELL_SIZE))
     CELL_SIZE CELL_SIZE YELLOW].

(** What lcd_thread_entry shows over the board when the game is over. *)
Definition result_message (s : GameState) : list Z :=
  match s with GAME_X_WIN => chars "X Wins!" | GAME_O_WIN => chars "O Wins!" | _ => chars "Draw!" end.
Definition show_result (s : GameState) : lcd_op := LCD_ShowString 100 200 200 24 24 (result_message s).

(** What reset_game shows before and after the names are known. *)
Definition reset_screen : list lcd_op :=
  [LCD_Clear WHITE; LCD_ShowString 40 150 600 24 24 (chars "X and O name:")].
Definition name_screen (g : OXGame) : list lcd_op :=
  [LCD_ShowString 40 200 600 24 24 (cstr (name (player_x g))); LCD_ShowString 40 250 600 24 24 (cstr (name (player_o g)))].
