(* ===== verification/OxApp.v ===== *)
(** * The OX game: threads, interrupts and synchronisation

    The blocking functions of OXGame.c: ox_game_start with ox_game_init, the
    three threads, reset_game with input_player_name, and the interrupt
    callbacks, as steps between the places where a thread can block.

    A thread stands at one of those places (its [_pc]); [ready] says whether the
    call there can return and [run] is the code from there to the next place.
    What it needs of the kernel is the contract of its objects: a semaphore has a
    value, a take returns when it is not zero; a mutex has an owner and a hold
    count, a take returns when it is free or the caller's.  rt_thread_mdelay
    returns at any time.  Any thread that is ready may run, so that the theorems
    do not depend on the priorities; interrupts come between the steps.  The
    allocations at start succeed; [pool] is the memory of the ring buffer. *)

From stdpp Require Import gmap.
From S2P Require Import Prelude Ringbuffer OxGame.
Open Scope rt_scope.

Inductive tid := MAIN | KEY | LCD | CMD.
#[export] Instance tid_eq_dec : EqDecision tid.
Proof. solve_decision. Defined.

(** In reset_game: at rt_mutex_take; in the loop of input_player_name with the
    characters read; there in rt_sem_take; in rt_thread_mdelay(2000). *)
Inductive reset_pc :=
  | ResetTake (type : ResetType)
  | ResetName (for_o : bool) (buf : list Z)
  | ResetNameWait (for_o : bool) (buf : list Z)
  | ResetDelay.

(** The thread that calls ox_game_start: before, in reset_game, about to create
    the threads, after. *)
Inductive main_pc := MainInit | MainReset (p : reset_pc) | MainStart | MainDone.
(** key_thread_entry: at rt_sem_take, rt_thread_mdelay(20), rt_mutex_take. *)
Inductive key_pc := KeyOff | KeySem | KeyDelay | KeyLock.
(** lcd_thread_entry: at the first rt_mutex_take, rt_thread_mdelay(2000), in
    reset_game, at the second rt_mutex_take, rt_thread_mdelay(500). *)
Inductive lcd_pc := LcdOff | LcdLock | LcdMessage | LcdReset (p : reset_pc) | LcdRelock | LcdDelay.
(** cmd_thread_entry: at rt_sem_take, before rt_ringbuffer_getchar, at
    rt_mutex_take with the command read, in reset_game, rt_thread_mdelay(5). *)
Inductive cmd_pc := CmdOff | CmdSem | CmdGet | CmdLock (cmd : Z) | CmdReset (p : reset_pc) | CmdDelay.

Record app := mkApp {
  a_game : OXGame;
  a_rb : option ringbuffer;          (* cmd_rb, None is RT_NULL *)
  a_key_sem : Z;
  a_uart_rx_sem : Z;
  a_lock : option (tid * Z);         (* lcd_mutex: owner and hold *)
  a_lcd : list lcd_op;               (* what was drawn since the last LCD_Clear *)
  a_level : gmap Z Z;                (* the levels of the pins *)
  a_irq : gset Z;                    (* the pins whose interrupt is enabled *)
  a_rx : bool;                       (* uart_rx_ind is installed *)
  a_main : main_pc;
  a_key : key_pc;
  a_disp : lcd_pc;
  a_cmd : cmd_pc;
}.

#[export] Instance eta_app : EtaRec app := fun a =>
  mkApp (a_game a) (a_rb a) (a_key_sem a) (a_uart_rx_sem a) (a_lock a) (a_lcd a) (a_level a) (a_irq a) (a_rx a)
    (a_main a) (a_key a) (a_disp a) (a_cmd a).

Abbreviation APP := (st app).

(** ** Parts of the state *)

Definition on_game {A} (m : G A) : APP A :=
  fun a => match m (a_game a) with Some (r, g) => Some (r, a <| a_game := g |>) | None => None end.

(** A call with [cmd_rb]; RT_NULL fails its assertion. *)
Definition on_rb {A} (m : RB A) : APP A :=
  fun a =>
    match a_rb a with
    | Some rb => match m rb with Some (r, rb) => Some (r, a <| a_rb := Some rb |>) | None => None end
    | None => None
    end.

Definition lcd (ops : list lcd_op) : APP unit := st_modify (fun a => a <| a_lcd ::= (fun l => l ++ ops) |>).
(** [LCD_Clear] and what is drawn behind it. *)
Definition lcd_new (ops : list lcd_op) : APP unit := st_modify (fun a => a <| a_lcd := ops |>).

(** ** The kernel objects *)

Definition SEM_VALUE_MAX : Z := 65535.
Definition sem_up (v : Z) : Z := if v <? SEM_VALUE_MAX then v + 1 else v.

Definition lock_free (t : tid) (a : app) : bool :=
  match a_lock a with None => true | Some (o, _) => bool_decide (o = t) end.

Definition lcd_take (t : tid) : APP unit :=
  a ← st_get;
  match a_lock a with
  | None => st_modify (fun a => a <| a_lock := Some (t, 1) |>)
  | Some (o, h) => rt_assert (bool_decide (o = t));; st_modify (fun a => a <| a_lock := Some (t, h + 1) |>)
  end.

Definition lcd_release (t : tid) : APP unit :=
  a ← st_get;
  match a_lock a with
  | None => st_fail
  | Some (o, h) =>
      rt_assert (bool_decide (o = t));;
      st_modify (fun a => a <| a_lock := if h =? 1 then None else Some (t, h - 1) |>)
  end.

(** ** reset_game and input_player_name *)

(** The call of input_player_name. *)
Definition name_start (for_o : bool) : APP reset_pc :=
  on_rb rt_ringbuffer_reset;; mret (ResetName for_o []).

Definition reset_show : APP reset_pc :=
  a ← st_get; lcd (name_screen (a_game a));; mret ResetDelay.

Definition name_done (for_o : bool) (buf : list Z) : APP reset_pc :=
  on_game (set_name for_o buf);;
  if for_o then reset_show else name_start true.

(** One round of the loop of input_player_name. *)
Definition name_round (for_o : bool) (buf : list Z) : APP reset_pc :=
  if Z.of_nat (length buf) <? 15 then
    c ← on_rb rt_ringbuffer_getchar;
    match c with
    | None => mret (ResetNameWait for_o buf)
    | Some ch =>
        if (ch =? 13) || (ch =? 10) then
          if 0 <? Z.of_nat (length buf) then name_done for_o buf
          else mret (ResetName for_o buf)
        else mret (ResetName for_o (buf ++ [ch]))
    end
  else name_done for_o buf.

Definition reset_ready (t : tid) (p : reset_pc) (a : app) : bool :=
  match p with
  | ResetTake _ => lock_free t a
  | ResetNameWait _ _ => 0 <? a_uart_rx_sem a
  | ResetName _ _ | ResetDelay => true
  end.

(** [None] is the return of reset_game. *)
Definition reset_run (t : tid) (p : reset_pc) : APP (option reset_pc) :=
  match p with
  | ResetTake type =>
      lcd_take t;;
      on_game reset_common;;
      lcd_new reset_screen;;
      p ← (match type with
           | RESET_FULL => on_game clear_names;; name_start false
           | RESET_CURRENT => reset_show
           end);
      mret (Some p)
  | ResetName for_o buf => p ← name_round for_o buf; mret (Some p)
  | ResetNameWait for_o buf =>
      st_modify (fun a => a <| a_uart_rx_sem ::= Z.pred |>);; mret (Some (ResetName for_o buf))
  | ResetDelay => lcd_release t;; mret None
  end.

(** ** ox_game_init and ox_game_start *)

Definition CMD_BUF_SIZE : Z := 16.

Definition button_init : APP unit :=
  st_modify (fun a => a <| a_irq ::= (fun s => {[BUTTON_LEFT; BUTTON_RIGHT; BUTTON_DOWN; BUTTON_OK]} ∪ s) |>).

(** ox_game_init up to its call of reset_game. *)
Definition ox_game_init (pool : list Z) : APP unit :=
  st_modify (fun a => a <| a_key_sem := 0 |> <| a_lock := None |> <| a_uart_rx_sem := 0 |>);;
  rb ← st_opt (rt_ringbuffer_create CMD_BUF_SIZE true (Some pool));
  st_modify (fun a => a <| a_rb := rb |> <| a_rx := true |>);;
  button_init;;
  lcd_new [LCD_Clear WHITE].

Definition main_ready (a : app) : bool :=
  match a_main a with MainReset p => reset_ready MAIN p a | MainInit | MainStart => true | MainDone => false end.

Definition main_run (pool : list Z) : APP unit :=
  a ← st_get;
  match a_main a with
  | MainInit =>
      ox_game_init pool;; st_modify (fun a => a <| a_main := MainReset (ResetTake RESET_FULL) |>)
  | MainReset p =>
      r ← reset_run MAIN p;
      st_modify (fun a => a <| a_main := match r with Some p => MainReset p | None => MainStart end |>)
  | MainStart =>
      st_modify (fun a => a <| a_main := MainDone |> <| a_key := KeySem |> <| a_disp := LcdLock |> <| a_cmd := CmdSem |>)
  | MainDone => st_fail
  end.

(** ** key_thread_entry *)

(** The pin that key_thread_entry finds active; RT_NULL is 0. *)
Definition active_pin (level : gmap Z Z) : Z :=
  let rt_pin_read pin := default PIN_LOW (level !! pin) in
  if rt_pin_read BUTTON_LEFT =? PIN_LOW then BUTTON_LEFT
  else if rt_pin_read BUTTON_RIGHT =? PIN_LOW then BUTTON_RIGHT
  else if rt_pin_read BUTTON_DOWN =? PIN_LOW then BUTTON_DOWN
  else if rt_pin_read BUTTON_OK =? PIN_HIGH then BUTTON_OK
  else 0.

Definition key_ready (a : app) : bool :=
  match a_key a with KeyOff => false | KeySem => 0 <? a_key_sem a | KeyDelay => true | KeyLock => lock_free KEY a end.

Definition key_run : APP unit :=
  a ← st_get;
  match a_key a with
  | KeyOff => st_fail
  | KeySem => st_modify (fun a => a <| a_key_sem ::= Z.pred |> <| a_key := KeyDelay |>)
  | KeyDelay => st_modify (fun a => a <| a_key := KeyLock |>)
  | KeyLock =>
      lcd_take KEY;;
      let pin := active_pin (a_level a) in
      on_game (key_switch pin);;
      lcd_release KEY;;
      (* rt_pin_irq_enable(active_pin, RT_TRUE) *)
      st_modify (fun a => a <| a_irq ::= (fun s => {[pin]} ∪ s) |> <| a_key := KeySem |>)
  end.

(** ** lcd_thread_entry *)

Definition lcd_ready (a : app) : bool :=
  match a_disp a with
  | LcdOff => false
  | LcdLock | LcdRelock => lock_free LCD a
  | LcdReset p => reset_ready LCD p a
  | LcdMessage | LcdDelay => true
  end.

Definition lcd_run : APP unit :=
  a ← st_get;
  match a_disp a with
  | LcdOff => st_fail
  | LcdLock =>
      lcd_take LCD;;
      let g := a_game a in
      when (state_changed g)
        (lcd_new (ox_game_draw_board g);; on_game (st_modify (fun g => g <| state_changed := false |>)));;
      if bool_decide (state g = GAME_PLAYING) then
        lcd_release LCD;; st_modify (fun a => a <| a_disp := LcdDelay |>)
      else
        lcd [show_result (state g)];; lcd_release LCD;; st_modify (fun a => a <| a_disp := LcdMessage |>)
  | LcdMessage => st_modify (fun a => a <| a_disp := LcdReset (ResetTake RESET_CURRENT) |>)
  | LcdReset p =>
      r ← reset_run LCD p;
      st_modify (fun a => a <| a_disp := match r with Some p => LcdReset p | None => LcdRelock end |>)
  | LcdRelock => lcd_take LCD;; lcd_release LCD;; st_modify (fun a => a <| a_disp := LcdDelay |>)
  | LcdDelay => st_modify (fun a => a <| a_disp := LcdLock |>)
  end.

(** ** cmd_thread_entry *)

Definition cmd_ready (a : app) : bool :=
  match a_cmd a with
  | CmdOff => false
  | CmdSem => 0 <? a_uart_rx_sem a
  | CmdLock _ => lock_free CMD a
  | CmdReset p => reset_ready CMD p a
  | CmdGet | CmdDelay => true
  end.

Definition cmd_run : APP unit :=
  a ← st_get;
  match a_cmd a with
  | CmdOff => st_fail
  | CmdSem => st_modify (fun a => a <| a_uart_rx_sem ::= Z.pred |> <| a_cmd := CmdGet |>)
  | CmdGet =>
      c ← on_rb rt_ringbuffer_getchar;
      match c with
      | None => st_modify (fun a => a <| a_uart_rx_sem ::= sem_up |> <| a_cmd := CmdDelay |>)
      | Some ch => st_modify (fun a => a <| a_cmd := CmdLock ch |>)
      end
  | CmdLock ch =>
      lcd_take CMD;;
      r ← on_game (cmd_switch ch);
      match r with
      | None => lcd_release CMD;; st_modify (fun a => a <| a_cmd := CmdGet |>)
      | Some type => st_modify (fun a => a <| a_cmd := CmdReset (ResetTake type) |>)
      end
  | CmdReset p =>
      r ← reset_run CMD p;
      match r with
      | Some p => st_modify (fun a => a <| a_cmd := CmdReset p |>)
      | None => lcd_release CMD;; st_modify (fun a => a <| a_cmd := CmdGet |>)
      end
  | CmdDelay => st_modify (fun a => a <| a_cmd := CmdSem |>)
  end.

(** ** Interrupts *)

(** The receive callback; [bytes] are what rt_device_read delivers. *)
Fixpoint putchars (bytes : list Z) : APP unit :=
  match bytes with [] => mret tt | ch :: bytes => on_rb (rt_ringbuffer_putchar ch);; putchars bytes end.

Definition uart_rx_ind (bytes : list Z) : APP unit :=
  putchars bytes;;
  st_modify (fun a => a <| a_uart_rx_sem ::= sem_up |>).

Definition button_isr (pin : Z) : APP unit :=
  st_modify (fun a => a <| a_irq ::= (fun s => s ∖ {[pin]}) |> <| a_key_sem ::= sem_up |>).

(** ** The transition system *)

Inductive event :=
  | EvThread (t : tid)            (* a thread that is ready runs *)
  | EvUart (bytes : list Z)       (* bytes arrive *)
  | EvButton (pin : Z)            (* an enabled pin has its edge *)
  | EvLevel (pin level : Z).      (* a pin changes *)

Definition ready (t : tid) (a : app) : bool :=
  match t with MAIN => main_ready a | KEY => key_ready a | LCD => lcd_ready a | CMD => cmd_ready a end.

Section System.
Context (pool : list Z).

Definition run (t : tid) : APP unit :=
  match t with MAIN => main_run pool | KEY => key_run | LCD => lcd_run | CMD => cmd_run end.

Definition enabled (e : event) (a : app) : bool :=
  match e with
  | EvThread t => ready t a
  | EvUart bytes => a_rx a && forallb (fun b => (0 <=? b) && (b <? 256)) bytes
  | EvButton pin => bool_decide (pin ∈ a_irq a)
  | EvLevel _ l => (l =? PIN_LOW) || (l =? PIN_HIGH)
  end.

Definition handle (e : event) : APP unit :=
  match e with
  | EvThread t => run t
  | EvUart bytes => uart_rx_ind bytes
  | EvButton pin => button_isr pin
  | EvLevel pin l => st_modify (fun a => a <| a_level ::= <[pin := l]> |>)
  end.

Definition app_step (a a' : app) : Prop := exists e, enabled e a = true /\ handle e a = Some (tt, a').

(** A sequence of events, [None] if one of them is not enabled. *)
Fixpoint play (es : list event) (a : app) : option app :=
  match es with
  | [] => Some a
  | e :: es => if enabled e a then '(_, a') ← handle e a; play es a' else None
  end.

(** Before ox_game_start; [level] are the pins. *)
Definition app0 (level : gmap Z Z) : app :=
  mkApp game_zero None 0 0 None [] level ∅ false MainInit KeyOff LcdOff CmdOff.

Inductive app_reachable (level : gmap Z Z) : app -> Prop :=
  | app_reachable_0 : app_reachable level (app0 level)
  | app_reachable_step a a' : app_reachable level a -> app_step a a' -> app_reachable level a'.
End System.
