(* ===== verification/Mem.v ===== *)
(** * The small memory allocator: src/mem.c and the heap functions of src/kservice.c

    A [small_mem] is [struct rt_small_mem] with the memory behind it.  The headers
    are kept by their offset from [heap_ptr], which is how [next] and [prev] refer
    to them; reading where no header was ever written fails.  The bytes of the
    blocks are [sm_data], by address.  [lfree] and [heap_end] are offsets too;
    pointers given to and returned by the functions are addresses.  There is one
    heap: a header that names another one is outside the model and fails. *)

From S2P Require Import Prelude.
Open Scope rt_scope.

(** [struct rt_small_mem_item], without RT_USING_MEMTRACE. *)
Record rt_small_mem_item := mkItem {
  pool_ptr : Z;
  it_next : Z;
  it_prev : Z;
}.
#[export] Instance eta_item : EtaRec rt_small_mem_item := fun i => mkItem (pool_ptr i) (it_next i) (it_prev i).

Record rt_small_mem := mkSmallMem {
  sm_addr : Z;                          (* the address of the structure *)
  sm_valid : bool;                      (* parent: a memory object, initialised *)
  sm_total : Z;
  sm_used : Z;
  sm_max : Z;
  heap_ptr : Z;
  heap_end : Z;
  lfree : Z;
  mem_size_aligned : Z;
  sm_items : gmap Z rt_small_mem_item;
  sm_data : gmap Z Z;
}.
#[export] Instance eta_small_mem : EtaRec rt_small_mem := fun m =>
  mkSmallMem (sm_addr m) (sm_valid m) (sm_total m) (sm_used m) (sm_max m) (heap_ptr m) (heap_end m) (lfree m)
    (mem_size_aligned m) (sm_items m) (sm_data m).

Abbreviation SM := (st rt_small_mem).

Definition SIZEOF_ITEM : Z := 12.                     (* sizeof(struct rt_small_mem_item) *)
Definition MIN_SIZE : Z := 12.
Definition MIN_SIZE_ALIGNED : Z := RT_ALIGN MIN_SIZE RT_ALIGN_SIZE.
Definition SIZEOF_STRUCT_MEM : Z := RT_ALIGN SIZEOF_ITEM RT_ALIGN_SIZE.

Definition MEM_MASK : Z := 2 ^ 32 - 2.
Definition MEM_USED (mem : Z) : Z := Z.lor (Z.land mem MEM_MASK) 1.
Definition MEM_FREED (mem : Z) : Z := Z.lor (Z.land mem MEM_MASK) 0.
Definition MEM_ISUSED (it : rt_small_mem_item) : bool := negb (Z.land (pool_ptr it) 1 =? 0).
Definition MEM_POOL (it : rt_small_mem_item) : Z := Z.land (pool_ptr it) MEM_MASK.

(** [&heap_ptr[off]] as an item. *)
Definition item (off : Z) : SM rt_small_mem_item := m ← st_get; st_opt (sm_items m !! off).
Definition set_item (off : Z) (it : rt_small_mem_item) : SM unit :=
  st_modify (fun m => m <| sm_items ::= <[off := it]> |>).
Definition upd_item (off : Z) (f : rt_small_mem_item -> rt_small_mem_item) : SM unit :=
  it ← item off; set_item off (f it).

Definition set_lfree (off : Z) : SM unit := st_modify (fun m => m <| lfree := off |>).

(** [parent.used += n] with the maximum. *)
Definition use_more (n : Z) : SM unit :=
  st_modify (fun m => m <| sm_used ::= (fun u => u32 (u + n)) |>);;
  st_modify (fun m => if sm_max m <? sm_used m then m <| sm_max := sm_used m |> else m).
Definition use_less (n : Z) : SM unit := st_modify (fun m => m <| sm_used ::= (fun u => u32 (u - n)) |>).

(** ** Merging *)

(** plug hole forward: if mem->next is unused and not end of heap_ptr, combine
    mem and mem->next *)
Definition plug_forward (mem : Z) : SM unit :=
  m ← st_get;
  it ← item mem;
  let nmem := it_next it in
  nit ← item nmem;
  when (negb (mem =? nmem) && negb (MEM_ISUSED nit) && negb (nmem =? heap_end m))
    (when (lfree m =? nmem) (set_lfree mem);;
     upd_item nmem (fun i => i <| pool_ptr := 0 |>);;
     upd_item mem (fun i => i <| it_next := it_next nit |>);;
     upd_item (it_next nit) (fun i => i <| it_prev := mem |>)).

(** plug hole backward: if mem->prev is unused, combine mem and mem->prev *)
Definition plug_backward (mem : Z) : SM unit :=
  m ← st_get;
  it ← item mem;
  let pmem := it_prev it in
  pit ← item pmem;
  when (negb (pmem =? mem) && negb (MEM_ISUSED pit))
    (when (lfree m =? mem) (set_lfree pmem);;
     upd_item mem (fun i => i <| pool_ptr := 0 |>);;
     upd_item pmem (fun i => i <| it_next := it_next it |>);;
     upd_item (it_next it) (fun i => i <| it_prev := pmem |>)).

Definition plug_holes (mem : Z) : SM unit :=
  m ← st_get;
  rt_assert (0 <=? mem);; rt_assert (mem <? heap_end m);;
  plug_forward mem;;
  plug_backward mem.

(** ** Initialisation *)

(** [sizeof(struct rt_small_mem)] is [struct_size]; [None] is RT_NULL. *)
Definition rt_smem_init (struct_size begin_addr size : Z) : option rt_small_mem :=
  let small_mem := RT_ALIGN begin_addr RT_ALIGN_SIZE in
  let start_addr := u32 (small_mem + struct_size) in
  let begin_align := RT_ALIGN start_addr RT_ALIGN_SIZE in
  let end_align := RT_ALIGN_DOWN (u32 (begin_addr + size)) RT_ALIGN_SIZE in
  if (2 * SIZEOF_STRUCT_MEM <? end_align) && (start_addr <=? end_align - 2 * SIZEOF_STRUCT_MEM) then
    (* calculate the aligned memory size *)
    let mem_size := u32 (end_align - begin_align - 2 * SIZEOF_STRUCT_MEM) in
    let last := u32 (mem_size + SIZEOF_STRUCT_MEM) in
    Some (mkSmallMem small_mem true mem_size 0 0 begin_align last 0 mem_size
      (<[last := mkItem (MEM_USED small_mem) last last]> {[0 := mkItem (MEM_FREED small_mem) last 0]}) ∅)
  else None.

Definition rt_smem_detach : SM Z :=
  m ← st_get;
  rt_assert (sm_valid m);;
  st_modify (fun m => m <| sm_valid := false |>);; mret 0.

(** ** Allocation *)

(** The number of rounds that a walk along the items can make. *)
Definition walk_fuel (m : rt_small_mem) : nat := S (size (sm_items m)).

(** [while (MEM_ISUSED(lfree) && lfree != heap_end) lfree = lfree->next;] *)
Fixpoint next_free (fuel : nat) : SM unit :=
  match fuel with
  | O => st_fail
  | S fuel =>
      m ← st_get;
      it ← item (lfree m);
      if MEM_ISUSED it && negb (lfree m =? heap_end m) then set_lfree (it_next it);; next_free fuel else mret tt
  end.

(** The header of the block at [ptr], which is large enough: it is split if the
    rest can be a block of its own, and marked as used. *)
Definition take_block (ptr size : Z) (mem : rt_small_mem_item) : SM unit :=
  m ← st_get;
  (if size + SIZEOF_STRUCT_MEM + MIN_SIZE_ALIGNED <=? u32 (it_next mem - (ptr + SIZEOF_STRUCT_MEM)) then
     (* create mem2 struct *)
     let ptr2 := u32 (ptr + SIZEOF_STRUCT_MEM + size) in
     set_item ptr2 (mkItem (MEM_FREED (sm_addr m)) (it_next mem) ptr);;
     (* and insert it between mem and mem->next *)
     upd_item ptr (fun i => i <| it_next := ptr2 |>);;
     when (negb (it_next mem =? u32 (mem_size_aligned m + SIZEOF_STRUCT_MEM)))
       (upd_item (it_next mem) (fun i => i <| it_prev := ptr2 |>));;
     use_more (size + SIZEOF_STRUCT_MEM)
   else use_more (u32 (it_next mem - ptr)));;
  (* set small memory object *)
  upd_item ptr (fun i => i <| pool_ptr := MEM_USED (sm_addr m) |>).

Definition alloc_here (ptr size : Z) (mem : rt_small_mem_item) : SM Z :=
  take_block ptr size mem;;
  m ← st_get;
  when (ptr =? lfree m)
    ( (* find next free block after mem and update lowest free pointer *)
     next_free (walk_fuel m);;
     m ← st_get;
     it ← item (lfree m);
     rt_assert ((lfree m =? heap_end m) || negb (MEM_ISUSED it)));;
  m ← st_get;
  rt_assert (ptr + SIZEOF_STRUCT_MEM + size <=? heap_end m);;
  rt_assert (u32 (heap_ptr m + ptr + SIZEOF_STRUCT_MEM) mod RT_ALIGN_SIZE =? 0);;
  rt_assert (Z.land (u32 (heap_ptr m + ptr)) (RT_ALIGN_SIZE - 1) =? 0);;
  (* return the memory data except mem struct *)
  mret (u32 (heap_ptr m + ptr + SIZEOF_STRUCT_MEM)).

Fixpoint alloc_loop (fuel : nat) (ptr size : Z) : SM (option Z) :=
  match fuel with
  | O => st_fail
  | S fuel =>
      m ← st_get;
      if ptr <=? u32 (mem_size_aligned m - size) then
        mem ← item ptr;
        if negb (MEM_ISUSED mem) && (size <=? u32 (it_next mem - (ptr + SIZEOF_STRUCT_MEM))) then
          p ← alloc_here ptr size mem; mret (Some p)
        else alloc_loop fuel (it_next mem) size
      else mret None
  end.

Definition rt_smem_alloc (size : Z) : SM (option Z) :=
  if size =? 0 then mret None else
  m ← st_get;
  rt_assert (sm_valid m);;
  (* alignment size *)
  let size := RT_ALIGN size RT_ALIGN_SIZE in
  (* every data block must be at least MIN_SIZE_ALIGNED long *)
  let size := if size <? MIN_SIZE_ALIGNED then MIN_SIZE_ALIGNED else size in
  if mem_size_aligned m <? size then mret None else
  alloc_loop (walk_fuel m) (lfree m) size.

(** ** Release *)

Definition rt_smem_free (rmem : option Z) : SM unit :=
  match rmem with
  | None => mret tt
  | Some rmem =>
      rt_assert (Z.land rmem (RT_ALIGN_SIZE - 1) =? 0);;
      m ← st_get;
      let mem := rmem - SIZEOF_STRUCT_MEM - heap_ptr m in
      it ← item mem;
      (* small_mem = MEM_POOL(mem): the heap that the header names *)
      rt_assert (negb (MEM_POOL it =? 0) && (MEM_POOL it =? sm_addr m));;
      rt_assert (MEM_ISUSED it);;
      rt_assert (sm_valid m);;
      rt_assert ((heap_ptr m <=? rmem) && (rmem <? heap_ptr m + heap_end m));;
      nit ← item (it_next it);
      rt_assert (MEM_POOL nit =? sm_addr m);;
      (* ... and is now unused. *)
      upd_item mem (fun i => i <| pool_ptr := MEM_FREED (sm_addr m) |>);;
      (* the newly freed struct is now the lowest *)
      when (mem <? lfree m) (set_lfree mem);;
      use_less (u32 (it_next it - mem));;
      (* finally, see if prev or next are free also *)
      plug_holes mem
  end.

(** ** Resizing *)

(** The copy of [n] bytes by rt_memcpy. *)
Definition copy_bytes (dst src : Z) (n : nat) (d : gmap Z Z) : gmap Z Z :=
  foldr (fun i acc => match d !! (src + Z.of_nat i) with
                      | Some b => <[dst + Z.of_nat i := b]> acc
                      | None => delete (dst + Z.of_nat i) acc
                      end) d (seq 0 n).

Definition rt_smem_realloc (rmem : option Z) (newsize : Z) : SM (option Z) :=
  m ← st_get;
  rt_assert (sm_valid m);;
  (* alignment size *)
  let newsize := RT_ALIGN newsize RT_ALIGN_SIZE in
  if mem_size_aligned m <? newsize then mret None
  else if newsize =? 0 then rt_smem_free rmem;; mret None
  else
  match rmem with
  (* allocate a new memory block *)
  | None => rt_smem_alloc newsize
  | Some rmem =>
      rt_assert (Z.land rmem (RT_ALIGN_SIZE - 1) =? 0);;
      rt_assert (heap_ptr m <=? rmem);;
      rt_assert (rmem <? heap_ptr m + heap_end m);;
      (* current memory block size *)
      let ptr := rmem - SIZEOF_STRUCT_MEM - heap_ptr m in
      mem ← item ptr;
      let size := u32 (it_next mem - ptr - SIZEOF_STRUCT_MEM) in
      (* the size is the same as *)
      if size =? newsize then mret (Some rmem)
      else if newsize + SIZEOF_STRUCT_MEM + MIN_SIZE <? size then
        (* split memory block *)
        use_less (u32 (size - newsize));;
        let ptr2 := u32 (ptr + SIZEOF_STRUCT_MEM + newsize) in
        set_item ptr2 (mkItem (MEM_FREED (sm_addr m)) (it_next mem) ptr);;
        upd_item ptr (fun i => i <| it_next := ptr2 |>);;
        when (negb (it_next mem =? u32 (mem_size_aligned m + SIZEOF_STRUCT_MEM)))
          (upd_item (it_next mem) (fun i => i <| it_prev := ptr2 |>));;
        (* the splited struct is now the lowest *)
        when (ptr2 <? lfree m) (set_lfree ptr2);;
        plug_holes ptr2;;
        mret (Some rmem)
      else
        (* expand memory *)
        nmem ← rt_smem_alloc newsize;
        match nmem with
        | Some p =>
            st_modify (fun m => m <| sm_data ::= copy_bytes p rmem (Z.to_nat (if size <? newsize then size else newsize)) |>);;
            rt_smem_free (Some rmem);; mret nmem
        | None => mret None
        end
  end.

(** ** The system heap: src/kservice.c

    The lock of the heap, a mutex taken without a timeout, is left out: each of
    these functions is one step. *)

Definition _rt_system_heap_init (struct_size begin_addr end_addr : Z) : option (option rt_small_mem) :=
  let begin_align := RT_ALIGN begin_addr RT_ALIGN_SIZE in
  let end_align := RT_ALIGN_DOWN end_addr RT_ALIGN_SIZE in
  if begin_align <? end_align then Some (rt_smem_init struct_size begin_align (u32 (end_align - begin_align))) else None.

Definition rt_malloc (size : Z) : SM (option Z) := rt_smem_alloc size.
Definition rt_realloc (ptr : option Z) (newsize : Z) : SM (option Z) := rt_smem_realloc ptr newsize.
Definition rt_free (ptr : option Z) : SM unit :=
  match ptr with None => mret tt | Some _ => rt_smem_free ptr end.

(** [rt_memset(p, 0, n)] *)
Definition zero_bytes (p : Z) (n : nat) (d : gmap Z Z) : gmap Z Z :=
  foldr (fun i acc => <[p + Z.of_nat i := 0]> acc) d (seq 0 n).

(** total, used and the maximum of used *)
Definition rt_memory_info : SM (Z * Z * Z) := m ← st_get; mret (sm_total m, sm_used m, sm_max m).

Definition rt_calloc (count size : Z) : SM (option Z) :=
  p ← rt_malloc (u32 (count * size));
  match p with
  | Some p => st_modify (fun m => m <| sm_data ::= zero_bytes p (Z.to_nat (u32 (count * size))) |>);; mret (Some p)
  | None => mret None
  end.

(** The word before the aligned address keeps the address of the block: its four
    bytes, little endian. *)
Definition store_word (a v : Z) (d : gmap Z Z) : gmap Z Z :=
  <[a + 3 := Z.shiftr v 24]> (<[a + 2 := u8 (Z.shiftr v 16)]> (<[a + 1 := u8 (Z.shiftr v 8)]> (<[a := u8 v]> d))).
Definition load_word (a : Z) (d : gmap Z Z) : option Z :=
  b0 ← d !! a; b1 ← d !! (a + 1); b2 ← d !! (a + 2); b3 ← d !! (a + 3);
  Some (b0 + 2 ^ 8 * b1 + 2 ^ 16 * b2 + 2 ^ 24 * b3).

Definition rt_malloc_align (size align : Z) : SM (option Z) :=
  let uintptr_size := 4 - 1 in
  (* align the alignment size and the size to uintptr size byte *)
  let align := Z.ldiff (u32 (align + uintptr_size)) uintptr_size in
  let align_size := u32 (Z.ldiff (u32 (size + uintptr_size)) uintptr_size + align) in
  (* allocate memory block from heap *)
  ptr ← rt_malloc align_size;
  match ptr with
  | None => mret None
  | Some ptr =>
      let align_ptr :=
        (* the allocated memory block is aligned *)
        if Z.land ptr (u32 (align - 1)) =? 0 then u32 (ptr + align)
        (* it is not: the next aligned address *)
        else Z.ldiff (u32 (ptr + u32 (align - 1))) (u32 (align - 1)) in
      (* set the pointer before alignment pointer to the real pointer *)
      st_modify (fun m => m <| sm_data ::= store_word (align_ptr - 4) ptr |>);;
      mret (Some align_ptr)
  end.

Definition rt_free_align (ptr : option Z) : SM unit :=
  match ptr with
  | None => mret tt
  | Some ptr => m ← st_get; real_ptr ← st_opt (load_word (ptr - 4) (sm_data m)); rt_free (Some real_ptr)
  end.
