(* ===== verification/Bytes.v ===== *)
(** * Memory as bytes

    A memory maps the addresses that exist to their bytes.  Reading or writing an
    address that does not exist fails, so that a call that succeeds has stayed
    inside the objects it was given.  [write_list] and [read_list] are the effects
    of whole loops. *)

From stdpp Require Import gmap.
From S2P Require Import Prelude.
Open Scope rt_scope.

Abbreviation bytes := (gmap Z Z).
Abbreviation BM := (st bytes).

Definition ld (a : Z) : BM Z := m ← st_get; st_opt (m !! a).
Definition sb (a v : Z) : BM unit :=
  m ← st_get; match m !! a with Some _ => st_modify <[a := v]> | None => st_fail end.

(** The bytes of [l] stored from [a] on, the lowest address first. *)
Fixpoint stores (a : Z) (l : list Z) : BM unit :=
  match l with [] => mret tt | x :: l => sb a x;; stores (a + 1) l end.
Fixpoint loads (a : Z) (n : nat) : BM (list Z) :=
  match n with O => mret [] | S n => x ← ld a; l ← loads (a + 1) n; mret (x :: l) end.

(** ** Effects *)

Definition mapped (m : bytes) (a : Z) (n : nat) : Prop := forall i, a <= i < a + Z.of_nat n -> is_Some (m !! i).
Fixpoint write_list (a : Z) (l : list Z) (m : bytes) : bytes :=
  match l with [] => m | x :: l => write_list (a + 1) l (<[a := x]> m) end.
Definition holds (m : bytes) (a : Z) (l : list Z) : Prop := forall i x, l !! i = Some x -> m !! (a + Z.of_nat i) = Some x.
Definition byte_mem (m : bytes) : Prop := forall i x, m !! i = Some x -> 0 <= x < 256.

Lemma write_list_lookup a l m i : write_list a l m !! i =
  if decide (a <= i < a + Z.of_nat (length l)) then l !! Z.to_nat (i - a) else m !! i.
Proof.
  revert a m. induction l as [|x l IH]; intros a m; cbn [write_list length]; [rewrite decide_False by lia; reflexivity|].
  rewrite IH. destruct (Z.eq_dec i a) as [->|Hne].
  - rewrite decide_False, decide_True, lookup_insert_eq by lia. rewrite Z.sub_diag. reflexivity.
  - destruct (decide (a + 1 <= i < _)); [rewrite decide_True by lia|rewrite decide_False, lookup_insert_ne by lia; reflexivity].
    replace (Z.to_nat (i - a)) with (S (Z.to_nat (i - (a + 1)))) by lia. reflexivity.
Qed.

Lemma write_list_app a l1 l2 m : write_list a (l1 ++ l2) m = write_list (a + Z.of_nat (length l1)) l2 (write_list a l1 m).
Proof.
  revert a m. induction l1 as [|x l1 IH]; intros a m; cbn; [rewrite Z.add_0_r; reflexivity|].
  rewrite IH. f_equal. lia.
Qed.

Lemma mapped_S m a n : mapped m a (S n) <-> is_Some (m !! a) /\ mapped m (a + 1) n.
Proof.
  split.
  - intros H. split; [apply H; lia|]. intros i Hi. apply H. lia.
  - intros [H1 H2] i Hi. destruct (Z.eq_dec i a) as [->|]; [exact H1|apply H2; lia].
Qed.

Lemma mapped_app m a n1 n2 : mapped m a (n1 + n2) <-> mapped m a n1 /\ mapped m (a + Z.of_nat n1) n2.
Proof.
  split.
  - intros H. split; intros i Hi; apply H; lia.
  - intros [H1 H2] i Hi. destruct (Z.lt_ge_cases i (a + Z.of_nat n1)); [apply H1|apply H2]; lia.
Qed.

#[export] Instance mapped_dec m a n : Decision (mapped m a n).
Proof.
  revert a. induction n as [|n IH]; intros a; [left; intros i Hi; lia|].
  destruct (decide (is_Some (m !! a) /\ mapped m (a + 1) n)) as [H|H]; [left|right]; rewrite mapped_S; exact H.
Defined.

Lemma mapped_insert m a n i x : is_Some (m !! i) -> mapped (<[i := x]> m) a n <-> mapped m a n.
Proof.
  intros Hi. split; intros H j Hj; specialize (H j Hj); (destruct (Z.eq_dec i j) as [<-|Hne]; [|rewrite lookup_insert_ne in * by exact Hne; exact H]).
  - exact Hi.
  - rewrite lookup_insert_eq. eauto.
Qed.

(** ** The loops *)

Lemma ld_eq a m x : m !! a = Some x -> ld a m = Some (x, m).
Proof. intros H. unfold ld, mbind, st_bind, st_get. rewrite H. reflexivity. Qed.

Lemma ld_none a m : m !! a = None -> ld a m = None.
Proof. intros H. unfold ld, mbind, st_bind, st_get. rewrite H. reflexivity. Qed.

Lemma sb_eq a v m : sb a v m = if decide (is_Some (m !! a)) then Some (tt, <[a := v]> m) else None.
Proof.
  unfold sb, mbind, st_bind, st_get. destruct (m !! a) as [x|]; [rewrite decide_True by eauto; reflexivity|].
  rewrite decide_False by (intros [? [=]]). reflexivity.
Qed.

Lemma stores_eq a l m : stores a l m = if decide (mapped m a (length l)) then Some (tt, write_list a l m) else None.
Proof.
  revert a m. induction l as [|x l IH]; intros a m; cbn [stores length write_list].
  - rewrite decide_True by (intros i Hi; cbn in Hi; lia). reflexivity.
  - unfold mbind, st_bind. rewrite sb_eq. destruct (decide (is_Some (m !! a))) as [H|H].
    + rewrite IH. destruct (decide (mapped (<[a := x]> m) (a + 1) (length l))) as [H'|H'].
      * rewrite mapped_insert in H' by exact H. rewrite decide_True by (apply mapped_S; auto). reflexivity.
      * rewrite mapped_insert in H' by exact H. rewrite decide_False by (rewrite mapped_S; tauto). reflexivity.
    + rewrite decide_False by (rewrite mapped_S; tauto). reflexivity.
Qed.

Lemma stores_app a l1 l2 m : stores a (l1 ++ l2) m = (stores a l1;; stores (a + Z.of_nat (length l1)) l2) m.
Proof.
  revert a m. induction l1 as [|x l1 IH]; intros a m; cbn [app stores length].
  - unfold mbind, st_bind. cbn. rewrite Z.add_0_r. reflexivity.
  - rewrite bind_assoc. unfold mbind at 1 2, st_bind at 1 2. destruct (sb a x m) as [[[] m1]|]; [|reflexivity].
    rewrite IH. unfold mbind, st_bind. destruct (stores (a + 1) l1 m1) as [[[] m2]|]; [|reflexivity].
    replace (a + Z.of_nat (S (length l1))) with (a + 1 + Z.of_nat (length l1)) by lia. reflexivity.
Qed.

Definition read_list (m : bytes) (a : Z) (n : nat) : list Z := map (fun i => default 0 (m !! (a + Z.of_nat i))) (seq 0 n).

Lemma read_list_S m a n : read_list m a (S n) = default 0 (m !! a) :: read_list m (a + 1) n.
Proof.
  unfold read_list. cbn [seq map]. rewrite Z.add_0_r. f_equal. rewrite <- seq_shift, map_map. apply map_ext. intros i. do 2 f_equal. lia.
Qed.

Lemma read_list_length m a n : length (read_list m a n) = n.
Proof. unfold read_list. rewrite length_map, length_seq. reflexivity. Qed.

Lemma loads_eq a n m : loads a n m = if decide (mapped m a n) then Some (read_list m a n, m) else None.
Proof.
  revert a. induction n as [|n IH]; intros a; cbn [loads].
  - rewrite decide_True by (intros i Hi; cbn in Hi; lia). reflexivity.
  - unfold mbind, st_bind. destruct (m !! a) as [x|] eqn:E.
    + rewrite (ld_eq _ _ _ E), IH. destruct (decide (mapped m (a + 1) n)) as [H|H].
      * rewrite decide_True by (apply mapped_S; split; [rewrite E; eauto|exact H]). rewrite read_list_S, E. reflexivity.
      * rewrite decide_False by (rewrite mapped_S; tauto). reflexivity.
    + rewrite ld_none by exact E. rewrite decide_False; [reflexivity|]. rewrite mapped_S, E. intros [[? [=]] _].
Qed.

Lemma read_list_lookup m a n i : read_list m a n !! i = if decide (i < n)%nat then Some (default 0 (m !! (a + Z.of_nat i))) else None.
Proof.
  unfold read_list. rewrite list_lookup_fmap. destruct (decide (i < n)%nat).
  - rewrite lookup_seq_lt by lia. reflexivity.
  - rewrite lookup_seq_ge by lia. reflexivity.
Qed.

(** Memory is only as large as its map: the walks along a string end in it. *)
Lemma mapped_size m a n : mapped m a n -> (n <= size m)%nat.
Proof.
  intros H. set (X := list_to_set (map (fun i => a + Z.of_nat i) (seq 0 n)) : gset Z).
  assert (X ⊆ dom m) as Hsub.
  { intros x Hx. apply elem_of_list_to_set, list_elem_of_fmap in Hx as (i & -> & Hi%elem_of_seq). apply elem_of_dom, H. lia. }
  apply subseteq_size in Hsub. rewrite size_dom in Hsub. etransitivity; [|exact Hsub]. unfold X.
  rewrite size_list_to_set; [rewrite length_map, length_seq; reflexivity|]. apply NoDup_fmap_2; [intros i j; lia|apply NoDup_seq].
Qed.

Lemma holds_mapped m a l : holds m a l -> mapped m a (length l).
Proof.
  intros H i Hi. destruct (lookup_lt_is_Some_2 l (Z.to_nat (i - a))) as [x E]; [lia|]. apply H in E.
  replace (a + Z.of_nat (Z.to_nat (i - a))) with i in E by lia. eauto.
Qed.

Lemma holds_cons m a x l : holds m a (x :: l) <-> m !! a = Some x /\ holds m (a + 1) l.
Proof.
  split.
  - intros H. split; [specialize (H O x eq_refl); rewrite Z.add_0_r in H; exact H|].
    intros i y E. specialize (H (S i) y E). rewrite <- H. f_equal. lia.
  - intros [H1 H2] [|i] y E; [injection E as <-; rewrite Z.add_0_r; exact H1|]. rewrite <- (H2 i y E). f_equal. lia.
Qed.

Lemma holds_nil m a : holds m a [].
Proof. intros i x [=]. Qed.

Lemma holds_app m a l1 l2 : holds m a (l1 ++ l2) <-> holds m a l1 /\ holds m (a + Z.of_nat (length l1)) l2.
Proof.
  revert a. induction l1 as [|x l1 IH]; intros a.
  - cbn. rewrite Z.add_0_r. split; [intros H; split; [apply holds_nil|exact H]|tauto].
  - cbn [app length]. rewrite !holds_cons, IH. replace (a + 1 + Z.of_nat (length l1)) with (a + Z.of_nat (S (length l1))) by lia. tauto.
Qed.

Lemma write_holds m a l : holds (write_list a l m) a l.
Proof.
  intros i x E. pose proof (lookup_lt_Some _ _ _ E). rewrite write_list_lookup, decide_True by lia.
  replace (Z.to_nat (a + Z.of_nat i - a)) with i by lia. exact E.
Qed.

Lemma write_outside d l m i : i < d \/ d + Z.of_nat (length l) <= i -> write_list d l m !! i = m !! i.
Proof. intros H. rewrite write_list_lookup, decide_False by lia. reflexivity. Qed.

Lemma read_holds m a l : holds m a l -> read_list m a (length l) = l.
Proof.
  intros H. apply list_eq. intros i. rewrite read_list_lookup. destruct (decide (i < length l)%nat) as [Hi|Hi].
  - destruct (lookup_lt_is_Some_2 l i Hi) as [x E]. rewrite E. apply H in E. rewrite E. reflexivity.
  - rewrite lookup_ge_None_2 by lia. reflexivity.
Qed.

Lemma holds_write m a l b l' : b + Z.of_nat (length l') <= a \/ a + Z.of_nat (length l) <= b -> holds m a l -> holds (write_list b l' m) a l.
Proof.
  intros Hd H i x E. pose proof (lookup_lt_Some _ _ _ E). rewrite write_list_lookup, decide_False by lia. apply H, E.
Qed.
