(* ===== verification/KString.v ===== *)
(** * src/klibc/kstring.c: memory blocks and strings

    The functions over a memory of bytes.  [char] has no sign on this machine (ARM),
    [long] has four bytes.  The loops that run to the end of a string have the size
    of the memory as their fuel; the others are counted by their argument.  The
    board compiles [rt_memset] and [rt_memcpy] with word accesses; the variants of
    RT_KSERVICE_USING_TINY_SIZE are here too. *)

From S2P Require Import Prelude Bytes.
Open Scope rt_scope.

Definition LBLOCKSIZE : Z := 4.                    (* sizeof(rt_ubase_t) *)
Definition BIGBLOCKSIZE : Z := 16.                 (* sizeof(long) << 2 *)
Definition LITTLEBLOCKSIZE : Z := 4.
Definition UNALIGNED (x : Z) : bool := negb (Z.land x (LBLOCKSIZE - 1) =? 0).
Definition UNALIGNED2 (x y : Z) : bool := negb (Z.lor (Z.land x (LBLOCKSIZE - 1)) (Z.land y (LBLOCKSIZE - 1)) =? 0).

Definition s8 (x : Z) : Z := (x + 2 ^ 7) mod 2 ^ 8 - 2 ^ 7.

(** The four bytes of a [long] in memory order. *)
Definition lw (a : Z) : BM (list Z) := loads a 4.
Definition sw (a : Z) (w : list Z) : BM unit := stores a w.

(** ** rt_memset *)

(** [while (count--) *m++ = d;] *)
Fixpoint set_bytes (count : nat) (m d : Z) : BM unit :=
  match count with O => mret tt | S count => sb m d;; set_bytes count (m + 1) d end.

(** [while (count >= LBLOCKSIZE * 4)]: four words a round *)
Fixpoint set_blocks (fuel : nat) (aligned_addr count : Z) (buffer : list Z) : BM (Z * Z) :=
  match fuel with
  | O => st_fail
  | S fuel =>
      if LBLOCKSIZE * 4 <=? count then
        sw aligned_addr buffer;; sw (aligned_addr + 4) buffer;; sw (aligned_addr + 8) buffer;; sw (aligned_addr + 12) buffer;;
        set_blocks fuel (aligned_addr + 16) (count - 4 * LBLOCKSIZE) buffer
      else mret (aligned_addr, count)
  end.

(** [while (count >= LBLOCKSIZE)]: one word a round *)
Fixpoint set_words (fuel : nat) (aligned_addr count : Z) (buffer : list Z) : BM (Z * Z) :=
  match fuel with
  | O => st_fail
  | S fuel =>
      if LBLOCKSIZE <=? count then
        sw aligned_addr buffer;; set_words fuel (aligned_addr + 4) (count - LBLOCKSIZE) buffer
      else mret (aligned_addr, count)
  end.

Definition rt_memset (s c count : Z) : BM Z :=
  let d := Z.land c 255 in
  let fuel := S (Z.to_nat count) in
  '(m, count) ← (if negb (count <? LBLOCKSIZE) && negb (UNALIGNED s) then
      let buffer := [d; d; d; d] in
      '(a, count) ← set_blocks fuel s count buffer;
      set_words fuel a count buffer
    else mret (s, count));
  set_bytes (Z.to_nat count) m d;;
  mret s.

Definition rt_memset_tiny (s c count : Z) : BM Z :=
  set_bytes (Z.to_nat count) s (u8 c);; mret s.

(** ** rt_memcpy, rt_memmove *)

(** [while (n--) *dst++ = *src++;] *)
Fixpoint copy_up (n : nat) (dst src : Z) : BM unit :=
  match n with O => mret tt | S n => b ← ld src; sb dst b;; copy_up n (dst + 1) (src + 1) end.

(** [while (n--) *(--dst) = *(--src);] *)
Fixpoint copy_down (n : nat) (dst src : Z) : BM unit :=
  match n with O => mret tt | S n => b ← ld (src - 1); sb (dst - 1) b;; copy_down n (dst - 1) (src - 1) end.

Definition copy_word (dst src : Z) : BM unit := w ← lw src; sw dst w.

Fixpoint copy_blocks (fuel : nat) (dst src len : Z) : BM (Z * Z * Z) :=
  match fuel with
  | O => st_fail
  | S fuel =>
      if BIGBLOCKSIZE <=? len then
        copy_word dst src;; copy_word (dst + 4) (src + 4);; copy_word (dst + 8) (src + 8);; copy_word (dst + 12) (src + 12);;
        copy_blocks fuel (dst + 16) (src + 16) (len - BIGBLOCKSIZE)
      else mret (dst, src, len)
  end.

Fixpoint copy_words (fuel : nat) (dst src len : Z) : BM (Z * Z * Z) :=
  match fuel with
  | O => st_fail
  | S fuel =>
      if LITTLEBLOCKSIZE <=? len then copy_word dst src;; copy_words fuel (dst + 4) (src + 4) (len - LITTLEBLOCKSIZE)
      else mret (dst, src, len)
  end.

Definition rt_memcpy (dst src count : Z) : BM Z :=
  let fuel := S (Z.to_nat count) in
  '(d, s, len) ← (if negb (count <? BIGBLOCKSIZE) && negb (UNALIGNED2 src dst) then
      '(d, s, len) ← copy_blocks fuel dst src count;
      copy_words fuel d s len
    else mret (dst, src, count));
  copy_up (Z.to_nat len) d s;;
  mret dst.

(** [for (len = count; len > 0; len--) tmp[len - 1] = s[len - 1];] is [copy_down]
    from the ends. *)
Definition rt_memcpy_tiny (dst src count : Z) : BM Z :=
  (if (dst <=? src) || (src + count <? dst) then copy_up (Z.to_nat count) dst src
   else copy_down (Z.to_nat count) (dst + count) (src + count));;
  mret dst.

Definition rt_memmove (dest src n : Z) : BM Z :=
  (if (src <? dest) && (dest <? src + n) then copy_down (Z.to_nat n) (dest + n) (src + n)
   else copy_up (Z.to_nat n) dest src);;
  mret dest.

(** ** Comparison *)

Fixpoint memcmp_loop (count : nat) (su1 su2 : Z) : BM Z :=
  match count with
  | O => mret 0
  | S count =>
      a ← ld su1; b ← ld su2;
      if negb (a - b =? 0) then mret (a - b) else memcmp_loop count (su1 + 1) (su2 + 1)
  end.
Definition rt_memcmp (cs ct count : Z) : BM Z := memcmp_loop (Z.to_nat count) cs ct.

Definition str_fuel (m : bytes) : nat := S (size m).

Fixpoint strcmp_loop (fuel : nat) (cs ct : Z) : BM Z :=
  match fuel with
  | O => st_fail
  | S fuel =>
      a ← ld cs; b ← ld ct;
      if negb (a =? 0) && (a =? b) then strcmp_loop fuel (cs + 1) (ct + 1) else mret (a - b)
  end.
Definition rt_strcmp (cs ct : Z) : BM Z := m ← st_get; strcmp_loop (str_fuel m) cs ct.

(** [__res] is a [signed char]. *)
Fixpoint strncmp_loop (count : nat) (cs ct : Z) : BM Z :=
  match count with
  | O => mret 0
  | S count =>
      a ← ld cs; b ← ld ct;
      let res := s8 (a - b) in
      if negb (res =? 0) || (a =? 0) then mret res else strncmp_loop count (cs + 1) (ct + 1)
  end.
Definition rt_strncmp (cs ct count : Z) : BM Z := strncmp_loop (Z.to_nat count) cs ct.

(** 'A' is 65, 'Z' 90, 'a' 97. *)
Definition lower (c : Z) : Z := if (65 <=? c) && (c <=? 90) then c + (97 - 65) else c.

Fixpoint strcasecmp_loop (fuel : nat) (a b : Z) : BM Z :=
  match fuel with
  | O => st_fail
  | S fuel =>
      ca ← ld a; cb ← ld b;
      let ca := lower (Z.land ca 255) in
      let cb := lower (Z.land cb 255) in
      if (ca =? cb) && negb (ca =? 0) then strcasecmp_loop fuel (a + 1) (b + 1) else mret (ca - cb)
  end.
Definition rt_strcasecmp (a b : Z) : BM Z := m ← st_get; strcasecmp_loop (str_fuel m) a b.

(** ** Length, search, copies *)

Fixpoint strlen_loop (fuel : nat) (sc : Z) : BM Z :=
  match fuel with
  | O => st_fail
  | S fuel => c ← ld sc; if c =? 0 then mret sc else strlen_loop fuel (sc + 1)
  end.
Definition rt_strlen (s : Z) : BM Z := m ← st_get; sc ← strlen_loop (str_fuel m) s; mret (sc - s).

(** The byte is read before the length is looked at. *)
Fixpoint strnlen_loop (fuel : nat) (s sc maxlen : Z) : BM Z :=
  match fuel with
  | O => st_fail
  | S fuel => c ← ld sc; if negb (c =? 0) && (sc - s <? maxlen) then strnlen_loop fuel s (sc + 1) maxlen else mret sc
  end.
Definition rt_strnlen (s maxlen : Z) : BM Z := m ← st_get; sc ← strnlen_loop (str_fuel m) s s maxlen; mret (sc - s).

Fixpoint strstr_loop (fuel : nat) (s1 l1 s2 l2 : Z) : BM (option Z) :=
  match fuel with
  | O => st_fail
  | S fuel =>
      if l2 <=? l1 then
        r ← rt_memcmp s1 s2 l2;
        if r =? 0 then mret (Some s1) else strstr_loop fuel (s1 + 1) (l1 - 1) s2 l2
      else mret None
  end.
Definition rt_strstr (s1 s2 : Z) : BM (option Z) :=
  l2 ← rt_strlen s2;
  if l2 =? 0 then mret (Some s1) else
  l1 ← rt_strlen s1;
  strstr_loop (S (Z.to_nat l1)) s1 l1 s2 l2.

Fixpoint strcpy_loop (fuel : nat) (dst src : Z) : BM Z :=
  match fuel with
  | O => st_fail
  | S fuel => c ← ld src; if negb (c =? 0) then sb dst c;; strcpy_loop fuel (dst + 1) (src + 1) else mret dst
  end.
Definition rt_strcpy (dst src : Z) : BM Z :=
  m ← st_get; d ← strcpy_loop (str_fuel m) dst src; sb d 0;; mret dst.

Fixpoint strncpy_loop (n : nat) (d s : Z) : BM unit :=
  match n with
  | O => mret tt
  | S n => c ← ld s; sb d c;; if c =? 0 then set_bytes n (d + 1) 0 else strncpy_loop n (d + 1) (s + 1)
  end.
Definition rt_strncpy (dst src n : Z) : BM Z := strncpy_loop (Z.to_nat n) dst src;; mret dst.
