(* ===== verification/KStdio.v ===== *)
(** * src/klibc/kstdio.c: formatted output

    [rt_vsnprintf] over a memory of bytes.  The format and the strings that [%s]
    prints are lists of characters without the final 0, which stand apart from the
    buffer; [long] has four bytes and RT_KPRINTF_USING_LONGLONG is not set.  The
    variable arguments are a list: a conversion that finds no argument of its kind
    fails.  [end] of the code is [e] here. *)

From S2P Require Import Prelude Bytes KString.
Open Scope rt_scope.

Inductive va_arg :=
  | VInt (v : Z)                       (* int, long, a pointer *)
  | VStr (s : option (list Z))         (* char *, None is RT_NULL *)
  | VDouble.

Definition ZEROPAD : Z := 1.
Definition SIGN : Z := 2.
Definition PLUS : Z := 4.
Definition SPACE : Z := 8.
Definition LEFT : Z := 16.
Definition SPECIAL : Z := 32.
Definition LARGE : Z := 64.
Definition has (type flag : Z) : bool := negb (Z.land type flag =? 0).

Definition s16 (x : Z) : Z := (x + 2 ^ 15) mod 2 ^ 16 - 2 ^ 15.

Definition _ISDIGIT (c : Z) : bool := (48 <=? c) && (c <=? 57).

(** [if (str < end) *str = c; ++str;] *)
Definition put (e str c : Z) : BM Z := when (str <? e) (sb str c);; mret (u32 (str + 1)).
Fixpoint put_list (e str : Z) (l : list Z) : BM Z :=
  match l with [] => mret str | c :: l => str ← put e str c; put_list e str l end.
(** [while (n-- > 0)] put [c] *)
Definition put_n (e str n c : Z) : BM Z := put_list e str (replicate (Z.to_nat n) c).

(** ** Numbers *)

Definition divide (n base : Z) : Z * Z := (n mod base, n / base).

Definition digit_char (large : bool) (d : Z) : Z := if d <? 10 then 48 + d else (if large then 65 else 97) + (d - 10).

(** [while (num != 0) tmp[i++] = digits[divide(&num, base)]]; [room] is what is left
    of [tmp]. *)
Fixpoint number_digits (room : nat) (large : bool) (num base : Z) : option (list Z) :=
  if num =? 0 then Some [] else
  match room with
  | O => None
  | S room => let '(d, num) := divide num base in l ← number_digits room large num base; Some (digit_char large d :: l)
  end.

(** The value of a [SIGN] number and its magnitude. *)
Definition narrow (qualifier num : Z) : Z := if qualifier =? 104 (* 'h' *) then s16 num else s32 num.
Definition magnitude (qualifier num : Z) : Z := if qualifier =? 104 then u16 (- num) else u32 (- num).

Definition sign_of (type qualifier num : Z) : Z * Z :=
  if has type SIGN then
    if narrow qualifier num <? 0 then (45, magnitude qualifier num)     (* '-' *)
    else if has type PLUS then (43, num)
    else if has type SPACE then (32, num)
    else (0, num)
  else (0, num).

(** The size of [0b], [0] and [0x]. *)
Definition prefix_of (type base : Z) : list Z :=
  if has type SPECIAL then
    if base =? 2 then [48; 98] else if base =? 8 then [48]
    else if base =? 16 then [48; if has type LARGE then 88 else 120] else []
  else [].

(** What [while (size-- > 0)] leaves in [size]. *)
Definition after_pad (size : Z) : Z := Z.min size 0 - 1.

Definition print_number (buf e num base qualifier s precision type : Z) : BM Z :=
  let type := if has type LEFT then Z.ldiff type ZEROPAD else type in
  let c := if has type ZEROPAD then 48 else 32 in
  let '(sign, num) := sign_of type qualifier num in
  let size := s - Z.of_nat (length (prefix_of type base)) in
  tmp ← st_opt (if num =? 0 then Some [48] else number_digits 32 (has type LARGE) num base);
  let i := Z.of_nat (length tmp) in
  let precision_bak := precision in
  let precision := if precision <? i then i else precision in
  let size := size - precision in
  '(buf, size) ← (if negb (has type (Z.lor ZEROPAD LEFT)) then
      let size := if negb (sign =? 0) && (0 <? size) then size - 1 else size in
      buf ← put_n e buf size 32; mret (buf, after_pad size)
    else mret (buf, size));
  '(buf, size) ← (if negb (sign =? 0) then buf ← put e buf sign; mret (buf, size - 1) else mret (buf, size));
  buf ← put_list e buf (prefix_of type base);
  '(buf, size) ← (if negb (has type LEFT) then buf ← put_n e buf size c; mret (buf, after_pad size) else mret (buf, size));
  (* while (i < precision--) *)
  buf ← put_n e buf (precision - i) 48;
  (* while (i-- > 0 && precision_bak != 0) *)
  buf ← (if negb (precision_bak =? 0) then put_list e buf (rev tmp) else mret buf);
  put_n e buf size 32.

(** ** The format *)

(** The characters after '%': - + space # 0 *)
Fixpoint skip_flags (fmt : list Z) (flags : Z) : list Z * Z :=
  match fmt with
  | c :: fmt' =>
      if c =? 45 then skip_flags fmt' (Z.lor flags LEFT)
      else if c =? 43 then skip_flags fmt' (Z.lor flags PLUS)
      else if c =? 32 then skip_flags fmt' (Z.lor flags SPACE)
      else if c =? 35 then skip_flags fmt' (Z.lor flags SPECIAL)
      else if c =? 48 then skip_flags fmt' (Z.lor flags ZEROPAD)
      else (fmt, flags)
  | [] => (fmt, flags)
  end.

Fixpoint skip_atoi (fmt : list Z) (i : Z) : list Z * Z :=
  match fmt with
  | c :: fmt' => if _ISDIGIT c then skip_atoi fmt' (s32 (i * 10 + c - 48)) else (fmt, i)
  | [] => (fmt, i)
  end.

Definition next_int (args : list va_arg) : option (Z * list va_arg) :=
  match args with VInt v :: args => Some (v, args) | _ => None end.

(** Field width: a number, [*], or none. *)
Definition get_width (fmt : list Z) (args : list va_arg) (flags : Z) : option (list Z * list va_arg * Z * Z) :=
  match fmt with
  | c :: fmt' =>
      if _ISDIGIT c then let '(fmt, w) := skip_atoi fmt 0 in Some (fmt, args, flags, w)
      else if c =? 42 then
        '(v, args) ← next_int args;
        let w := s32 v in
        Some (if w <? 0 then (fmt', args, Z.lor flags LEFT, s32 (- w)) else (fmt', args, flags, w))
      else Some (fmt, args, flags, -1)
  | [] => Some (fmt, args, flags, -1)
  end.

Definition get_precision (fmt : list Z) (args : list va_arg) : option (list Z * list va_arg * Z) :=
  match fmt with
  | c :: fmt =>
      if c =? 46 then
        '(fmt, args, p) ← (match fmt with
          | c :: fmt' =>
              if _ISDIGIT c then let '(fmt, p) := skip_atoi fmt 0 in Some (fmt, args, p)
              else if c =? 42 then '(v, args) ← next_int args; Some (fmt', args, s32 v)
              else Some (fmt, args, -1)
          | [] => Some (fmt, args, -1)
          end);
        Some (fmt, args, if p <? 0 then 0 else p)
      else Some (c :: fmt, args, -1)
  | [] => Some (fmt, args, -1)
  end.

(** h, hh (which becomes 'H'), l, z *)
Definition get_qualifier (fmt : list Z) : list Z * Z :=
  match fmt with
  | c :: fmt' =>
      if c =? 104 then match fmt' with d :: fmt'' => if d =? 104 then (fmt'', 72) else (fmt', 104) | [] => (fmt', 104) end
      else if (c =? 108) || (c =? 122) then (fmt', c)
      else (fmt, 0)
  | [] => (fmt, 0)
  end.

(** The argument of a number. *)
Definition fetch (qualifier flags v : Z) : Z :=
  if qualifier =? 72 then u32 (s8 v)
  else if qualifier =? 104 then (if has flags SIGN then u32 (s16 (u16 v)) else u16 v)
  else u32 v.

(** The number conversions: their base and flags. *)
Definition number_conv (c flags : Z) : option (Z * Z) :=
  if c =? 98 then Some (2, flags)
  else if c =? 111 then Some (8, flags)
  else if c =? 88 then Some (16, Z.lor flags LARGE)
  else if c =? 120 then Some (16, flags)
  else if (c =? 100) || (c =? 105) then Some (10, Z.lor flags SIGN)
  else if c =? 117 then Some (10, flags)
  else None.

Definition is_float (c : Z) : bool := bool_decide (c ∈ [101; 69; 71; 103; 102; 70]).

(** [%c] *)
Definition put_char (e str width flags v : Z) : BM Z :=
  '(str, width) ← (if negb (has flags LEFT) then str ← put_n e str (width - 1) 32; mret (str, Z.min (width - 1) 0)
                   else mret (str, width));
  str ← put e str (u8 v);
  put_n e str (width - 1) 32.

(** The length that [%s] prints. *)
Definition str_len (s : list Z) (width precision : Z) : Z :=
  let len := Z.of_nat (length s) in
  let len := if 0 <=? width then Z.min len width else len in
  if (0 <? precision) && (precision <? len) then precision else len.

(** [%s] *)
Definition put_str (e str : Z) (s : option (list Z)) (width precision flags : Z) : BM Z :=
  let s := default [40; 78; 85; 76; 76; 41] s in     (* "(NULL)" *)
  let len := str_len s width precision in
  '(str, width) ← (if negb (has flags LEFT) then str ← put_n e str (width - len) 32; mret (str, Z.min width len - 1)
                   else mret (str, width));
  str ← put_list e str (take (Z.to_nat len) s);
  put_n e str (width - len) 32.

(** The conversion that [c] names; the arguments that are left. *)
Definition convert (e str c : Z) (args : list va_arg) (flags width precision qualifier : Z) : BM (Z * list va_arg) :=
  if c =? 99 then                                    (* 'c' *)
    '(v, args) ← st_opt (next_int args);
    str ← put_char e str width flags v; mret (str, args)
  else if c =? 115 then                              (* 's' *)
    match args with
    | VStr s :: args => str ← put_str e str s width precision flags; mret (str, args)
    | _ => st_fail
    end
  else if c =? 112 then                              (* 'p' *)
    let '(width, flags) := if width =? -1 then (10, Z.lor (Z.lor flags SPECIAL) ZEROPAD) else (width, flags) in
    '(v, args) ← st_opt (next_int args);
    str ← print_number str e (u32 v) 16 qualifier width precision flags; mret (str, args)
  else if c =? 37 then str ← put e str 37; mret (str, args)
  else
    match number_conv c flags with
    | Some (base, flags) =>
        '(v, args) ← st_opt (next_int args);
        str ← print_number str e (fetch qualifier flags v) base qualifier width precision flags; mret (str, args)
    | None =>
        args ← (if is_float c then match args with VDouble :: args => mret args | _ => st_fail end else mret args);
        str ← put e str 37;
        str ← (if negb (c =? 0) then put e str c else mret str);
        mret (str, args)
    end.

(** [for (; *fmt; ++fmt)] *)
Fixpoint vsnprintf_loop (fuel : nat) (e str : Z) (fmt : list Z) (args : list va_arg) : BM Z :=
  match fuel with
  | O => st_fail
  | S fuel =>
      match fmt with
      | [] => mret str
      | c :: fmt =>
          if negb (c =? 37) then str ← put e str c; vsnprintf_loop fuel e str fmt args
          else
            let '(fmt, flags) := skip_flags fmt 0 in
            '(fmt, args, flags, width) ← st_opt (get_width fmt args flags);
            '(fmt, args, precision) ← st_opt (get_precision fmt args);
            let '(fmt, qualifier) := get_qualifier fmt in
            '(str, args) ← convert e str (hd 0 fmt) args flags width precision qualifier;
            vsnprintf_loop fuel e str (tl fmt) args
      end
  end.

Definition rt_vsnprintf (buf size : Z) (fmt : list Z) (args : list va_arg) : BM Z :=
  let e := u32 (buf + size) in
  (* make sure end is always >= buf *)
  let '(e, size) := if e <? buf then (2 ^ 32 - 1, 2 ^ 32 - 1 - buf) else (e, size) in
  str ← vsnprintf_loop (S (length fmt)) e buf fmt args;
  when (0 <? size) (if str <? e then sb str 0 else sb (e - 1) 0);;
  mret (s32 (str - buf)).

Definition rt_snprintf (buf size : Z) (fmt : list Z) (args : list va_arg) : BM Z := rt_vsnprintf buf size fmt args.
Definition rt_vsprintf (buf : Z) (fmt : list Z) (args : list va_arg) : BM Z := rt_vsnprintf buf (2 ^ 32 - 1) fmt args.
Definition rt_sprintf (buf : Z) (fmt : list Z) (args : list va_arg) : BM Z := rt_vsprintf buf fmt args.

(** ** rt_kprintf: src/kservice.c *)

Definition RT_CONSOLEBUF_SIZE : Z := 128.

(** The result is what [_kputs] hands to the console device; [rt_log_buf] has
    RT_CONSOLEBUF_SIZE bytes. *)
Definition rt_kprintf (rt_log_buf : Z) (fmt : list Z) (args : list va_arg) : BM (list Z) :=
  (* the return value of vsnprintf is the number of bytes that would be written *)
  length ← rt_vsnprintf rt_log_buf (RT_CONSOLEBUF_SIZE - 1) fmt args;
  let length := u32 length in
  let length := if RT_CONSOLEBUF_SIZE - 1 <? length then RT_CONSOLEBUF_SIZE - 1 else length in
  m ← st_get; mret (read_list m rt_log_buf (Z.to_nat length)).

(** What it is for the text [l] of the format: of a text that does not fit, the first 126
    characters and the final 0. *)
Definition console_text (l : list Z) : list Z :=
  if Z.of_nat (length l) <? RT_CONSOLEBUF_SIZE - 1 then l else take (Z.to_nat (RT_CONSOLEBUF_SIZE - 2)) l ++ [0].
