(* ===== verification/Timer.v ===== *)
(** * Timers: src/timer.c and the tick arithmetic of src/clock.c

    [_timer_list] is the skip list of hard timers with the default
    RT_TIMER_SKIP_LIST_LEVEL of 1: one list ordered by [timeout_tick] modulo
    2^32.  Timer objects and the embedded [thread_timer] of the threads share
    the operations.  RT_USING_TIMER_SOFT is not set in the board's
    configuration. *)

From S2P Require Import Prelude Kernel.
Open Scope rt_scope.

(** ** clock.c *)

Definition rt_tick_get : K Z := st_gets k_tick.
Definition rt_tick_set (tick : Z) : K unit := st_modify (fun k => k <| k_tick := u32 tick |>).

(** [ms] is an [rt_int32_t]; a negative one gives [(rt_tick_t)RT_WAITING_FOREVER]. *)
Definition rt_tick_from_millisecond (ms : Z) : Z :=
  if ms <? 0 then u32 RT_WAITING_FOREVER
  else
    let tick := u32 (RT_TICK_PER_SECOND * (ms / 1000)) in
    u32 (tick + (RT_TICK_PER_SECOND * (ms mod 1000) + 999) / 1000).

(** ** Access to a timer *)

Definition get_timer (i : tmid) : K timer :=
  match i with
  | TThread t => th ← get_thread t; mret (th_timer th)
  | TUser u => get_obj k_utimers u
  end.
Definition upd_timer (i : tmid) (f : timer -> timer) : K unit :=
  match i with
  | TThread t => upd_thread t (fun th => th <| th_timer ::= f |>)
  | TUser u => upd_obj k_utimers u f
  end.

(** The [timeout_tick] of a timer of the list. *)
Definition timeout_of (k : kernel) (i : tmid) : Z :=
  match i with
  | TThread t => match k_threads k !! t with Some th => tm_timeout_tick (th_timer th) | None => 0 end
  | TUser u => match k_utimers k !! u with Some tm => tm_timeout_tick tm | None => 0 end
  end.

(** ** timer.c *)

Definition HALF_TICK : Z := RT_TICK_MAX / 2.

Definition _timer_remove (i : tmid) : K unit :=
  st_modify (fun k => k <| k_timer_list ::= filter (fun j => j <> i) |>
                        <| k_timer_exec ::= filter (fun j => j <> i) |>).

Definition _timer_init (func parm time flag : Z) (tm : timer) : timer :=
  tm <| tm_flag := Z.ldiff (u8 flag) RT_TIMER_FLAG_ACTIVATED |> <| tm_func := func |>
     <| tm_parm := parm |> <| tm_timeout_tick := 0 |> <| tm_init_tick := time |>.

(** [rt_timer_init]: the object must not be a live timer; the node is
    self-linked. *)
Definition rt_timer_init (i : tmid) (func parm time flag : Z) : K unit :=
  rt_assert (negb (func =? 0));;
  rt_assert (time <? HALF_TICK);;
  tm ← get_timer i;
  rt_assert (negb (tm_valid tm));;
  upd_timer i (fun tm => (_timer_init func parm time flag tm) <| tm_valid := true |> <| tm_static := true |>).

Definition rt_timer_detach (i : tmid) : K Z :=
  tm ← get_timer i;
  rt_assert (tm_valid tm);;
  rt_assert (tm_static tm);;
  _timer_remove i;;
  upd_timer i (fun tm => tm <| tm_flag ::= (fun f => Z.ldiff f RT_TIMER_FLAG_ACTIVATED) |>);;
  upd_timer i (fun tm => tm <| tm_valid := false |> <| tm_static := false |>);;
  mret RT_EOK.

(** [rt_timer_create] with the address that [rt_object_allocate] returned. *)
Definition rt_timer_create (mem : option Z) (func parm time flag : Z) : K (option Z) :=
  rt_assert (negb (func =? 0));;
  rt_assert (time <? HALF_TICK);;
  match mem with
  | None => mret None
  | Some u =>
      old ← st_gets (fun k => k_utimers k !! u);
      rt_assert (bool_decide (old = None));;
      st_modify (fun k => k <| k_utimers ::=
        insert u (_timer_init func parm time flag (mkTimer true false 0 0 0 0 0)) |>);;
      mret (Some u)
  end.

Definition rt_timer_delete (u : Z) : K Z :=
  tm ← get_timer (TUser u);
  rt_assert (tm_valid tm);;
  rt_assert (negb (tm_static tm));;
  _timer_remove (TUser u);;
  upd_timer (TUser u) (fun tm => tm <| tm_flag ::= (fun f => Z.ldiff f RT_TIMER_FLAG_ACTIVATED) |>);;
  obj_delete k_utimers u;;
  mret RT_EOK.

(** The walk of [_timer_start] over row 0: the new timer goes before the first
    timer that is due strictly later, timers due at the same tick stay ahead. *)
Fixpoint timer_insert (due : tmid -> Z) (i : tmid) (at_tick : Z) (l : list tmid) : list tmid :=
  match l with
  | [] => [i]
  | t :: l' =>
      let d := u32 (due t - at_tick) in
      if d =? 0 then t :: timer_insert due i at_tick l'
      else if d <? HALF_TICK then i :: l
      else t :: timer_insert due i at_tick l'
  end.

Definition _timer_start (i : tmid) : K Z :=
  tm ← get_timer i;
  if has_flag (tm_flag tm) RT_TIMER_FLAG_PROCESSING then mret (- RT_ERROR) else
  _timer_remove i;;
  upd_timer i (fun tm => tm <| tm_flag ::= (fun f => Z.ldiff f RT_TIMER_FLAG_ACTIVATED) |>);;
  now ← rt_tick_get;
  let at_tick := u32 (now + tm_init_tick tm) in
  upd_timer i (fun tm => tm <| tm_timeout_tick := at_tick |>);;
  st_modify (fun k => k <| k_timer_list ::= timer_insert (timeout_of k) i at_tick |>);;
  upd_timer i (fun tm => tm <| tm_flag ::= (fun f => Z.lor f RT_TIMER_FLAG_ACTIVATED) |>);;
  mret RT_EOK.

(** scheduler_comm.c: the thread remembers that its timer was started. *)
Definition rt_sched_thread_timer_start (t : Z) : K unit :=
  upd_thread t (fun th => th <| th_ttmr := true |>).

Definition rt_timer_start (i : tmid) : K Z :=
  tm ← get_timer i;
  rt_assert (tm_valid tm);;
  when (has_flag (tm_flag tm) RT_TIMER_FLAG_THREAD_TIMER)
    match i with TThread t => rt_sched_thread_timer_start t | TUser _ => st_fail end;;
  _timer_start i.

Definition rt_timer_stop (i : tmid) : K Z :=
  tm ← get_timer i;
  rt_assert (tm_valid tm);;
  if negb (has_flag (tm_flag tm) RT_TIMER_FLAG_ACTIVATED) then mret (- RT_ERROR) else
  _timer_remove i;;
  upd_timer i (fun tm => tm <| tm_flag ::= (fun f => Z.ldiff f RT_TIMER_FLAG_ACTIVATED) |>);;
  mret RT_EOK.

(** The commands of [rt_timer_control]; the [GET] commands return what the
    function writes through [arg]. *)
Inductive timer_cmd :=
  | SET_TIME (v : Z) | GET_TIME | SET_ONESHOT | SET_PERIODIC | GET_STATE
  | GET_REMAIN_TIME | GET_FUNC | SET_FUNC (f : Z) | GET_PARM | SET_PARM (p : Z).

Definition rt_timer_control (i : tmid) (cmd : timer_cmd) : K (list Z) :=
  tm ← get_timer i;
  rt_assert (tm_valid tm);;
  match cmd with
  | GET_TIME => mret [tm_init_tick tm]
  | SET_TIME v =>
      rt_assert (u32 v <? HALF_TICK);;
      when (has_flag (tm_flag tm) RT_TIMER_FLAG_ACTIVATED)
        (_timer_remove i;;
         upd_timer i (fun tm => tm <| tm_flag ::= (fun f => Z.ldiff f RT_TIMER_FLAG_ACTIVATED) |>));;
      upd_timer i (fun tm => tm <| tm_init_tick := u32 v |>);;
      mret []
  | SET_ONESHOT =>
      upd_timer i (fun tm => tm <| tm_flag ::= (fun f => Z.ldiff f RT_TIMER_FLAG_PERIODIC) |>);; mret []
  | SET_PERIODIC =>
      upd_timer i (fun tm => tm <| tm_flag ::= (fun f => Z.lor f RT_TIMER_FLAG_PERIODIC) |>);; mret []
  | GET_STATE => mret [if has_flag (tm_flag tm) RT_TIMER_FLAG_ACTIVATED then 1 else 0]
  | GET_REMAIN_TIME => mret [tm_timeout_tick tm]
  | GET_FUNC => mret [tm_func tm]
  | SET_FUNC f => upd_timer i (fun tm => tm <| tm_func := f |>);; mret []
  | GET_PARM => mret [tm_parm tm]
  | SET_PARM p => upd_timer i (fun tm => tm <| tm_parm := p |>);; mret []
  end.

(** [_timer_list_next_timeout] and [rt_timer_next_timeout_tick] *)
Definition _timer_list_next_timeout (k : kernel) : option Z :=
  match k_timer_list k with i :: _ => Some (timeout_of k i) | [] => None end.
Definition rt_timer_next_timeout_tick : K Z :=
  st_gets (fun k => default RT_TICK_MAX (_timer_list_next_timeout k)).

(** [rt_timer_check], called by the tick interrupt.  [timeout_func] runs the
    callback of a timer.  The loop ends when the list is empty or its head is
    not due; [fuel] bounds the number of expired timers, [None] is its end. *)
Section Check.
Context (timeout_func : tmid -> K unit).

Fixpoint timer_check_loop (fuel : nat) (current_tick : Z) : K unit :=
  match fuel with
  | O => st_fail
  | S fuel =>
      l ← st_gets k_timer_list;
      match l with
      | [] => mret tt
      | i :: _ =>
          due ← st_gets (fun k => timeout_of k i);
          if negb (u32 (current_tick - due) <? HALF_TICK) then mret tt else
          _timer_remove i;;
          tm ← get_timer i;
          when (negb (has_flag (tm_flag tm) RT_TIMER_FLAG_PERIODIC))
            (upd_timer i (fun tm => tm <| tm_flag ::= (fun f => Z.ldiff f RT_TIMER_FLAG_ACTIVATED) |>));;
          upd_timer i (fun tm => tm <| tm_flag ::= (fun f => Z.lor f RT_TIMER_FLAG_PROCESSING) |>);;
          st_modify (fun k => k <| k_timer_exec ::= cons i |>);;
          timeout_func i;;
          now ← rt_tick_get;
          upd_timer i (fun tm => tm <| tm_flag ::= (fun f => Z.ldiff f RT_TIMER_FLAG_PROCESSING) |>);;
          e ← st_gets k_timer_exec;
          if bool_decide (e = []) then timer_check_loop fuel now else
          st_modify (fun k => k <| k_timer_exec ::= filter (fun j => j <> i) |>);;
          tm ← get_timer i;
          when (has_flag (tm_flag tm) RT_TIMER_FLAG_PERIODIC &&
                has_flag (tm_flag tm) RT_TIMER_FLAG_ACTIVATED)
            (upd_timer i (fun tm => tm <| tm_flag ::= (fun f => Z.ldiff f RT_TIMER_FLAG_ACTIVATED) |>);;
             _timer_start i;; mret tt);;
          timer_check_loop fuel now
      end
  end.

Definition rt_timer_check (fuel : nat) : K unit :=
  n ← rt_interrupt_get_nest;
  rt_assert (0 <? n);;
  now ← rt_tick_get;
  st_modify (fun k => k <| k_timer_exec := [] |>);; (* rt_list_init(&list) *)
  timer_check_loop fuel now.
End Check.
