(* ===== verification/Sched.v ===== *)
(** * The scheduler: src/scheduler_up.c and src/scheduler_comm.c

    One CPU, 32 priorities: a ready queue for each priority and the group word
    whose bit [p] tells whether queue [p] is occupied.  A context switch is the
    change of [k_current]; interrupts are disabled inside every operation. *)

From S2P Require Import Prelude Bitmap Kernel Timer.
Open Scope rt_scope.

(** [&highest_ready_priority] and the first thread of that queue *)
Definition _scheduler_get_highest_priority_thread : K (Z * Z) :=
  g ← st_gets k_group;
  let highest_ready_priority := __rt_ffs g - 1 in
  t ← list_first (LReady highest_ready_priority);
  mret (t, highest_ready_priority).

Definition rt_system_scheduler_init : K unit :=
  st_modify (fun k => k <| k_lock_nest := 0 |>
    <| k_lists ::= (fun ls l => match l with
         | LReady p => if (0 <=? p) && (p <? RT_THREAD_PRIORITY_MAX) then [] else ls l
         | _ => ls l end) |>
    <| k_group := 0 |>).

Definition set_stat (t : Z) (f : Z -> Z) : K unit := upd_thread t (fun th => th <| th_stat ::= f |>).

Definition rt_sched_remove_thread (t : Z) : K unit :=
  rt_list_remove t;;
  th ← get_thread t;
  empty ← rt_list_isempty (LReady (th_cur_prio th));
  when empty (st_modify (fun k => k <| k_group ::= (fun g => Z.ldiff g (th_mask th)) |>)).

Definition rt_sched_insert_thread (t : Z) : K unit :=
  cur ← rt_thread_self;
  if bool_decide (cur = Some t) then
    (* it's current thread, it should be RUNNING thread *)
    set_stat t (with_stat RT_THREAD_RUNNING)
  else
    set_stat t (with_stat RT_THREAD_READY);;
    th ← get_thread t;
    (if has_flag (th_stat th) RT_THREAD_STAT_YIELD
     then rt_list_insert_before (LReady (th_cur_prio th)) t
     else rt_list_insert_after (LReady (th_cur_prio th)) t);;
    st_modify (fun k => k <| k_group ::= (fun g => Z.lor g (th_mask th)) |>).

Definition rt_system_scheduler_start : K unit :=
  '(to, _) ← _scheduler_get_highest_priority_thread;
  st_modify (fun k => k <| k_current := Some to |>);;
  rt_sched_remove_thread to;;
  set_stat to (fun _ => RT_THREAD_RUNNING).

(** The choice of [rt_schedule]: the thread to run and [need_insert_from_thread]. *)
Definition sched_pick (cur : Z) (cth : thread) (cand hp : Z) : Z * bool :=
  if stat_of cth =? RT_THREAD_RUNNING then
    if th_cur_prio cth <? hp then (cur, false)
    else if (th_cur_prio cth =? hp) && negb (has_flag (th_stat cth) RT_THREAD_STAT_YIELD)
    then (cur, false)
    else (cand, true)
  else (cand, false).

Definition rt_schedule : K unit :=
  nest ← st_gets k_lock_nest;
  if negb (nest =? 0) then mret tt else
  g ← st_gets k_group;
  if g =? 0 then mret tt else
  '(cand, hp) ← _scheduler_get_highest_priority_thread;
  cur ← the_self;
  cth ← get_thread cur;
  let '(to, need_insert_from_thread) := sched_pick cur cth cand hp in
  if to =? cur then
    rt_sched_remove_thread cur;;
    set_stat cur (with_stat RT_THREAD_RUNNING)
  else
    st_modify (fun k => k <| k_current_prio := u8 hp |> <| k_current := Some to |>);;
    when need_insert_from_thread (rt_sched_insert_thread cur);;
    from ← get_thread cur;
    when (has_flag (th_stat from) RT_THREAD_STAT_YIELD)
      (set_stat cur (fun s => Z.ldiff s RT_THREAD_STAT_YIELD));;
    rt_sched_remove_thread to;;
    set_stat to (with_stat RT_THREAD_RUNNING).

(** ** Scheduler lock *)

Definition s16 (x : Z) : Z := (x + 2 ^ 15) mod 2 ^ 16 - 2 ^ 15.

Definition rt_enter_critical : K Z :=
  st_modify (fun k => k <| k_lock_nest ::= (fun n => s16 (n + 1)) |>);;
  st_gets k_lock_nest.

Definition rt_exit_critical : K unit :=
  st_modify (fun k => k <| k_lock_nest ::= (fun n => s16 (n - 1)) |>);;
  n ← st_gets k_lock_nest;
  if n <=? 0 then
    st_modify (fun k => k <| k_lock_nest := 0 |>);;
    cur ← rt_thread_self;
    when (bool_decide (is_Some cur)) rt_schedule
  else mret tt.

(** A level that does not match leaves the program in an endless loop. *)
Definition rt_exit_critical_safe (critical_level : Z) : K unit :=
  n ← st_gets k_lock_nest;
  rt_assert (critical_level =? n);;
  rt_exit_critical.

Definition rt_critical_level : K Z := n ← st_gets k_lock_nest; mret (u16 n).

(** On one CPU [rt_spin_lock] is the scheduler lock; the [_irqsave] versions and
    [rt_sched_lock] only mask interrupts and leave no trace in the store. *)
Definition rt_spin_lock : K unit := rt_enter_critical;; mret tt.
Definition rt_spin_unlock : K unit := rt_exit_critical.

Definition rt_sched_unlock_n_resched : K unit :=
  cur ← rt_thread_self;
  when (bool_decide (is_Some cur)) rt_schedule.

(** ** scheduler_comm.c *)

(** [rt_list_init] of the node: a thread object that is initialised is in no
    list ([rt_object_init] rejects a live one). *)
Definition rt_sched_thread_init_priv (t tick priority : Z) : K unit :=
  rt_assert (priority <? RT_THREAD_PRIORITY_MAX);;
  upd_thread t (fun th => th <| th_init_prio := priority |> <| th_cur_prio := priority |>
    <| th_mask := 0 |> <| th_init_tick := tick |> <| th_remaining := tick |>).

Definition rt_sched_thread_init_ctx (t tick priority : Z) : K unit :=
  set_stat t (fun _ => RT_THREAD_INIT);;
  rt_sched_thread_init_priv t tick priority.

Definition rt_sched_thread_startup (t : Z) : K unit :=
  upd_thread t (fun th => th <| th_mask := u32 (Z.shiftl 1 (th_cur_prio th)) |>);;
  set_stat t (fun _ => RT_THREAD_SUSPEND).

Definition rt_sched_thread_timer_stop (t : Z) : K Z :=
  th ← get_thread t;
  if th_ttmr th then
    error ← rt_timer_stop (TThread t);
    (* mask out timer flag no matter stop success or not *)
    upd_thread t (fun th => th <| th_ttmr := false |>);;
    mret error
  else mret RT_EOK.

Definition rt_sched_thread_get_stat (t : Z) : K Z := th ← get_thread t; mret (stat_of th).
Definition rt_sched_thread_get_curr_prio (t : Z) : K Z := th ← get_thread t; mret (th_cur_prio th).
Definition rt_sched_thread_get_init_prio (t : Z) : K Z := th ← get_thread t; mret (th_init_prio th).

Definition is_suspended (th : thread) : bool :=
  Z.land (th_stat th) RT_THREAD_SUSPEND_MASK =? RT_THREAD_SUSPEND_MASK.
Definition rt_sched_thread_is_suspended (t : Z) : K bool := th ← get_thread t; mret (is_suspended th).

Definition rt_sched_thread_close (t : Z) : K unit := set_stat t (fun _ => RT_THREAD_CLOSE).

Definition rt_sched_thread_yield (t : Z) : K unit :=
  upd_thread t (fun th => th <| th_remaining := th_init_tick th |>);;
  set_stat t (fun s => Z.lor s RT_THREAD_STAT_YIELD).

Definition rt_sched_thread_ready (t : Z) : K Z :=
  susp ← rt_sched_thread_is_suspended t;
  if negb susp then mret (- RT_EINVAL) else
  th ← get_thread t;
  error ← (if th_ttmr th then rt_sched_thread_timer_stop t else mret RT_EOK);
  when (error =? 0)
    (rt_list_remove t;; (* remove from suspend list *)
     rt_sched_insert_thread t);;
  mret error.

Definition rt_sched_tick_increase : K Z :=
  t ← the_self;
  upd_thread t (fun th => th <| th_remaining ::= (fun r => u32 (r - 1)) |>);;
  th ← get_thread t;
  (if negb (th_remaining th =? 0) then mret tt
   else rt_sched_thread_yield t;; rt_sched_unlock_n_resched);;
  mret RT_EOK.

Definition rt_sched_thread_change_priority (t priority : Z) : K Z :=
  rt_assert (priority <? RT_THREAD_PRIORITY_MAX);;
  st ← rt_sched_thread_get_stat t;
  let set_prio := upd_thread t (fun th =>
    th <| th_cur_prio := priority |> <| th_mask := u32 (Z.shiftl 1 priority) |>) in
  if st =? RT_THREAD_READY then
    rt_sched_remove_thread t;;
    set_prio;;
    set_stat t (fun _ => RT_THREAD_INIT);;
    rt_sched_insert_thread t;;
    mret RT_EOK
  else set_prio;; mret RT_EOK.
