(* ===== verification/IpcList.v ===== *)
(** * Suspend lists: the first part of src/ipc.c

    The lists of threads that wait on an IPC object. *)

From S2P Require Import Prelude Kernel Timer Sched.
Open Scope rt_scope.

(** [rt_susp_list_dequeue]: resumes the first thread; [None] is RT_NULL. *)
Definition rt_susp_list_dequeue (l : lid) (thread_error : Z) : K (option Z) :=
  empty ← rt_list_isempty l;
  if (empty : bool) then mret None else
  thread ← list_first l;
  error ← rt_sched_thread_ready thread;
  if negb (error =? 0) then mret None else
  (* thread error should not be a negative value *)
  when (0 <=? thread_error)
    (upd_thread thread (fun th => th <| th_error := thread_error |>));;
  mret (Some thread).

(** The [while (thread)] loop of [rt_susp_list_resume_all]; [fuel] bounds its
    iterations, [st_fail] is the end of the fuel. *)
Fixpoint resume_all_loop (fuel : nat) (l : lid) (thread_error : Z) : K unit :=
  match fuel with
  | O => st_fail
  | S fuel =>
      thread ← rt_susp_list_dequeue l thread_error;
      match thread with
      | Some _ => resume_all_loop fuel l thread_error
      | None => mret tt
      end
  end.

(** Each iteration that goes on takes a thread off the list. *)
Definition rt_susp_list_resume_all (l : lid) (thread_error : Z) : K Z :=
  n ← st_gets (fun k => length (k_lists k l));
  resume_all_loop (S n) l thread_error;;
  mret RT_EOK.

(** The position that the RT_IPC_FLAG_PRIO case finds: before the first thread
    of lower urgency (greater [current_priority]). *)
Fixpoint prio_insert (prio : Z -> Z) (t : Z) (l : list Z) : list Z :=
  match l with
  | [] => [t]
  | s :: l' => if prio t <? prio s then t :: l else s :: prio_insert prio t l'
  end.

Definition prio_of (k : kernel) (t : Z) : Z :=
  match k_threads k !! t with Some th => th_cur_prio th | None => 0 end.

Definition rt_susp_list_enqueue (l : lid) (t : Z) (ipc_flags : Z) : K Z :=
  if ipc_flags =? RT_IPC_FLAG_FIFO then rt_list_insert_before l t;; mret RT_EOK
  else if ipc_flags =? RT_IPC_FLAG_PRIO then
    st_modify (fun k => k <| k_lists ::= (fun ls => <[l := prio_insert (prio_of k) t (ls l)]> ls) |>);;
    mret RT_EOK
  else st_fail. (* RT_ASSERT(0) *)
