(* ===== verification/Thread.v ===== *)
(** * Threads: src/thread.c

    Creation, startup, suspension, resumption and delays.  The end of a thread
    (detach, delete, exit, idle cleanup) is in ThreadExit.v, after the mutexes
    it has to release. *)

From S2P Require Import Prelude Kernel Timer Sched IpcList.
Open Scope rt_scope.

(** The rest of a function after [rt_schedule()]: at once when the thread kept
    the processor, otherwise when it is current again. *)
Definition after_schedule (c : pc) (rest : K outcome) : K outcome :=
  self ← rt_thread_self;
  rt_schedule;;
  if_still_running self c rest.

(** [if (again) rt_schedule(); return r;] *)
Definition sched_ret (again : bool) (r : Z) : K outcome :=
  when again rt_schedule;;
  mret (Done r []).

(** [rt_set_errno] of kservice.c; outside of threads it sets a global that only
    [rt_get_errno] reads *)
Definition rt_set_errno (error : Z) : K unit :=
  n ← rt_interrupt_get_nest;
  if negb (n =? 0) then mret tt else
  cur ← rt_thread_self;
  match cur with
  | Some t => upd_thread t (fun th => th <| th_error := error |>)
  | None => mret tt
  end.

(** ** Timeout of a waiting thread *)

Definition _thread_timeout (t : Z) : K unit :=
  th ← get_thread t;
  rt_assert (th_valid th);;
  susp ← rt_sched_thread_is_suspended t;
  rt_assert susp;;
  (* set error number *)
  upd_thread t (fun th => th <| th_error := - RT_ETIMEOUT |>);;
  (* remove from suspend list *)
  rt_list_remove t;;
  (* insert to schedule ready list *)
  rt_sched_insert_thread t;;
  rt_sched_unlock_n_resched.

(** ** Creation *)

(** The address of [_thread_timeout], which is not RT_NULL.  The address and its
    parameter are not looked at for a [TThread] timer: its callback is
    [_thread_timeout] of this thread. *)
Definition thread_timeout_at : Z := 1.

Definition _thread_init (t priority tick : Z) : K Z :=
  rt_sched_thread_init_ctx t tick priority;;
  st_modify (fun k => k <| k_taken ::= <[t := []]> |>);;
  upd_thread t (fun th => th <| th_pending := None |> <| th_evset := 0 |> <| th_evinfo := 0 |>
    <| th_error := RT_EOK |>);;
  rt_timer_init (TThread t) thread_timeout_at t 0 RT_TIMER_FLAG_THREAD_TIMER;;
  mret RT_EOK.

Definition new_thread (static : bool) : thread :=
  mkThread true static 0 false 0 0 0 0 0 0 0 0 None (mkTimer false false 0 0 0 0 0).

(** [rt_thread_init]: static objects.  The object may be one that was used
    before: the fields that [_thread_init] does not write keep their values. *)
Definition rt_thread_init (t priority tick : Z) : K Z :=
  rt_assert (negb (tick =? 0));;
  old ← st_gets (fun k => k_threads k !! t);
  rt_assert (match old with Some th => negb (th_valid th) | None => true end);;
  st_modify (fun k => k <| k_threads ::= insert t
    (match old with
     | Some th => th <| th_valid := true |> <| th_static := true |>
     | None => new_thread true end) |>);;
  _thread_init t priority tick.

(** [rt_thread_create], given the addresses that [rt_object_allocate] (zeroed
    memory) and RT_KERNEL_MALLOC of the stack returned. *)
Definition rt_thread_create (mem stack : option Z) (priority tick : Z) : K (option Z) :=
  rt_assert (negb (tick =? 0));;
  match mem with
  | None => mret None
  | Some t =>
      old ← st_gets (fun k => k_threads k !! t);
      rt_assert (bool_decide (old = None));;
      match stack with
      | None => mret None (* allocate stack failure: the object is deleted *)
      | Some _ =>
          st_modify (fun k => k <| k_threads ::= insert t (new_thread false) |>);;
          _thread_init t priority tick;;
          mret (Some t)
      end
  end.

(** ** Suspend and resume *)

Definition suspend_stat (f : suspend_flag) : Z :=
  match f with
  | RT_INTERRUPTIBLE => RT_THREAD_SUSPEND_INTERRUPTIBLE
  | RT_KILLABLE => RT_THREAD_SUSPEND_KILLABLE
  | RT_UNINTERRUPTIBLE => RT_THREAD_SUSPEND_UNINTERRUPTIBLE
  end.

Definition _thread_set_suspend_state (t : Z) (f : suspend_flag) : K unit :=
  set_stat t (with_stat (suspend_stat f)).

Definition rt_thread_suspend_to_list (t : Z) (susp_list : option lid) (ipc_flags : Z)
    (f : suspend_flag) : K Z :=
  th ← get_thread t;
  rt_assert (th_valid th);;
  cur ← rt_thread_self;
  rt_assert (bool_decide (cur = Some t));;
  let stat := stat_of th in
  if negb (stat =? RT_THREAD_READY) && negb (stat =? RT_THREAD_RUNNING)
  then mret (- RT_ERROR) else
  (* change thread stat *)
  rt_sched_remove_thread t;;
  _thread_set_suspend_state t f;;
  match susp_list with
  | Some l => rt_susp_list_enqueue l t ipc_flags;; mret tt
  | None => mret tt
  end;;
  (* stop thread timer anyway *)
  rt_sched_thread_timer_stop t;;
  mret RT_EOK.

Definition rt_thread_suspend_with_flag (t : Z) (f : suspend_flag) : K Z :=
  rt_thread_suspend_to_list t None 0 f.
Definition rt_thread_suspend (t : Z) : K Z := rt_thread_suspend_with_flag t RT_UNINTERRUPTIBLE.

Definition rt_thread_resume (t : Z) : K Z :=
  th ← get_thread t;
  rt_assert (th_valid th);;
  error ← rt_sched_thread_ready t;
  if error =? 0 then rt_sched_unlock_n_resched;; mret RT_EOK
  else mret error.

Definition rt_thread_startup (t : Z) : K Z :=
  th ← get_thread t;
  rt_assert (stat_of th =? RT_THREAD_INIT);;
  rt_assert (th_valid th);;
  rt_sched_thread_startup t;;
  rt_thread_resume t;;
  mret RT_EOK.

Definition rt_thread_yield : K Z :=
  t ← the_self;
  rt_sched_thread_yield t;;
  rt_sched_unlock_n_resched;;
  mret RT_EOK.

(** ** Waiting with a timeout *)

(** The waiting loops of ipc.c and mempool.c: [timeout] after a wait that began at tick [tick_delta]:
    [timeout -= rt_tick_get() - tick_delta], in 32 bits, not below 0. *)
Definition remaining_timeout (timeout tick_delta now : Z) : Z :=
  if 0 <? timeout then
    let timeout := s32 (timeout - u32 (now - tick_delta)) in
    if timeout <? 0 then 0 else timeout
  else timeout.

(** ** Delays *)

(** Sets the thread timer to [timeout] ticks and starts it. *)
Definition start_thread_timer (t timeout : Z) : K unit :=
  rt_timer_control (TThread t) (SET_TIME timeout);;
  rt_timer_start (TThread t);;
  mret tt.

Definition _thread_sleep (tick : Z) : K outcome :=
  if tick =? 0 then mret (Done (- RT_EINVAL) []) else
  t ← the_self;
  RT_DEBUG_SCHEDULER_AVAILABLE true;;
  upd_thread t (fun th => th <| th_error := RT_EOK |>);;
  critical_level ← rt_enter_critical;
  err ← rt_thread_suspend_with_flag t RT_INTERRUPTIBLE;
  if err =? RT_EOK then
    start_thread_timer t tick;;
    upd_thread t (fun th => th <| th_error := - RT_EINTR |>);;
    rt_schedule;; (* the scheduler is locked here *)
    rt_exit_critical_safe critical_level;;
    mret (Waiting PcSleep)
  else
    rt_exit_critical_safe critical_level;;
    mret (Done err []).

Definition _thread_sleep_resume : K outcome :=
  t ← the_self;
  th ← get_thread t;
  when (th_error th =? - RT_ETIMEOUT) (upd_thread t (fun th => th <| th_error := RT_EOK |>));;
  mret (Done RT_EOK []).

Definition rt_thread_delay (tick : Z) : K outcome := _thread_sleep tick.
Definition rt_thread_mdelay (ms : Z) : K outcome := _thread_sleep (rt_tick_from_millisecond ms).

(** [rt_thread_delay_until]: [tick] is the value of [*tick]; the new one is the
    output. *)
Definition rt_thread_delay_until (tick inc_tick : Z) : K outcome :=
  t ← the_self;
  th ← get_thread t;
  rt_assert (th_valid th);;
  upd_thread t (fun th => th <| th_error := RT_EOK |>);;
  critical_level ← rt_enter_critical;
  cur_tick ← rt_tick_get;
  if u32 (cur_tick - tick) <? inc_tick then
    let tick := u32 (tick + inc_tick) in
    let left_tick := u32 (tick - cur_tick) in
    rt_thread_suspend_with_flag t RT_UNINTERRUPTIBLE;;
    start_thread_timer t left_tick;;
    rt_exit_critical_safe critical_level;;
    mret (Waiting (PcDelayUntil tick))
  else
    rt_exit_critical_safe critical_level;;
    th ← get_thread t;
    mret (Done (th_error th) [cur_tick]).

Definition rt_thread_delay_until_resume2 (tick : Z) : K outcome :=
  t ← the_self;
  th ← get_thread t;
  when (th_error th =? - RT_ETIMEOUT) (upd_thread t (fun th => th <| th_error := RT_EOK |>));;
  th ← get_thread t;
  mret (Done (th_error th) [tick]).
Definition rt_thread_delay_until_resume (tick : Z) : K outcome :=
  after_schedule (PcDelayUntil2 tick) (rt_thread_delay_until_resume2 tick).
