(* ===== verification/Sem.v ===== *)
(** * Semaphores: src/ipc.c, RT_USING_SEMAPHORE *)

From S2P Require Import Prelude Kernel Timer Sched IpcList Thread.
Open Scope rt_scope.

Definition get_sem (s : Z) : K sem := get_obj k_sems s.
Definition upd_sem (s : Z) (f : sem -> sem) : K unit := upd_obj k_sems s f.
Definition sem_valid (x : sem) : bool := ob_valid (sem_ob x).
Definition sem_suspend (s : Z) : lid := LSem s.

(** [rt_object_get_type(&sem->parent.parent) == RT_Object_Class_Semaphore] *)
Definition check_sem (s : Z) : K sem := x ← get_sem s; rt_assert (sem_valid x);; mret x.

Definition valid_flag (flag : Z) : bool := (flag =? RT_IPC_FLAG_FIFO) || (flag =? RT_IPC_FLAG_PRIO).

(** [rt_list_init] of the suspend list is part of the object's set-up. *)
Definition list_init (l : lid) : K unit :=
  st_modify (fun k => k <| k_lists ::= (fun ls => <[l := []]> ls) |>).

Definition _sem_object_init (s value flag max_value : Z) : K unit :=
  list_init (LSem s);;
  upd_sem s (fun x => x <| sem_max := max_value |> <| sem_value := u16 value |>
                        <| sem_ob ::= (fun o => o <| ob_flag := flag |>) |>).

Definition rt_sem_init (s value flag : Z) : K Z :=
  rt_assert (value <? 0x10000);;
  rt_assert (valid_flag flag);;
  obj_init k_sems sem_valid s (mkSem (mkIpc true true 0) 0 0);;
  _sem_object_init s value flag RT_SEM_VALUE_MAX;;
  mret RT_EOK.

Definition rt_sem_detach (s : Z) : K Z :=
  x ← check_sem s;
  rt_assert (ob_static (sem_ob x));;
  rt_susp_list_resume_all (LSem s) RT_ERROR;;
  upd_sem s (fun x => x <| sem_ob ::= (fun o => o <| ob_valid := false |>) |>);;
  mret RT_EOK.

(** [mem] is the result of [rt_object_allocate]. *)
Definition rt_sem_create (mem : option Z) (value flag : Z) : K (option Z) :=
  rt_assert (value <? 0x10000);;
  rt_assert (valid_flag flag);;
  RT_DEBUG_NOT_IN_INTERRUPT;;
  match mem with
  | None => mret None
  | Some s =>
      obj_init k_sems sem_valid s (mkSem (mkIpc true false 0) 0 0);;
      _sem_object_init s value flag RT_SEM_VALUE_MAX;;
      mret (Some s)
  end.

Definition rt_sem_delete (s : Z) : K Z :=
  x ← check_sem s;
  rt_assert (negb (ob_static (sem_ob x)));;
  RT_DEBUG_NOT_IN_INTERRUPT;;
  rt_susp_list_resume_all (LSem s) RT_ERROR;;
  obj_delete k_sems s;;
  mret RT_EOK.

Definition _rt_sem_take (s timeout : Z) (f : suspend_flag) : K outcome :=
  check_sem s;;
  RT_DEBUG_SCHEDULER_AVAILABLE true;;
  x ← get_sem s;
  if 0 <? sem_value x then
    (* semaphore is available *)
    upd_sem s (fun x => x <| sem_value ::= (fun v => u16 (v - 1)) |>);;
    mret (Done RT_EOK [])
  else if timeout =? 0 then mret (Done (- RT_ETIMEOUT) [])
  else
    t ← the_self;
    upd_thread t (fun th => th <| th_error := RT_EINTR |>);;
    ret ← rt_thread_suspend_to_list t (Some (LSem s)) (ob_flag (sem_ob x)) f;
    if negb (ret =? RT_EOK) then mret (Done ret []) else
    when (0 <? timeout) (start_thread_timer t timeout);;
    rt_schedule;;
    mret (Waiting (PcSemTake s)).

(** After [rt_schedule()]: the thread was resumed by a release, a timeout or
    the end of the semaphore. *)
Definition _rt_sem_take_resume (s : Z) : K outcome :=
  t ← the_self;
  th ← get_thread t;
  let error := th_error th in
  if negb (error =? RT_EOK) then mret (Done (if 0 <? error then - error else error) [])
  else mret (Done RT_EOK []).

Definition rt_sem_take (s time : Z) := _rt_sem_take s time RT_UNINTERRUPTIBLE.
Definition rt_sem_take_interruptible (s time : Z) := _rt_sem_take s time RT_INTERRUPTIBLE.
Definition rt_sem_take_killable (s time : Z) := _rt_sem_take s time RT_KILLABLE.
Definition rt_sem_trytake (s : Z) := rt_sem_take s RT_WAITING_NO.

Definition rt_sem_release (s : Z) : K Z :=
  x ← check_sem s;
  empty ← rt_list_isempty (LSem s);
  if negb empty then
    (* resume the suspended thread *)
    rt_susp_list_dequeue (LSem s) RT_EOK;;
    rt_schedule;;
    mret RT_EOK
  else if sem_value x <? sem_max x then
    upd_sem s (fun x => x <| sem_value ::= (fun v => u16 (v + 1)) |>);;
    mret RT_EOK
  else mret (- RT_EFULL). (* value overflowed *)

(** [arg] is the pointer-sized argument. *)
Definition rt_sem_control (s cmd arg : Z) : K Z :=
  check_sem s;;
  if cmd =? RT_IPC_CMD_RESET then
    rt_susp_list_resume_all (LSem s) RT_ERROR;;
    upd_sem s (fun x => x <| sem_value := u16 arg |>);;
    rt_schedule;;
    mret RT_EOK
  else if cmd =? RT_IPC_CMD_SET_VLIMIT then
    let max_value := u16 arg in
    if (RT_SEM_VALUE_MAX <? max_value) || (max_value <? 1) then mret (- RT_EINVAL) else
    x ← get_sem s;
    empty ← rt_list_isempty (LSem s);
    let need_schedule := (max_value <? sem_value x) && negb empty in
    when need_schedule (rt_susp_list_resume_all (LSem s) RT_ERROR;; mret tt);;
    upd_sem s (fun x => x <| sem_max := max_value |>);;
    when need_schedule rt_schedule;;
    mret RT_EOK
  else mret (- RT_ERROR).
