(* ===== verification/Mutex.v ===== *)
(** * Mutexes with priority inheritance: src/ipc.c, RT_USING_MUTEX

    A mutex knows its owner, the recursion depth [hold] and the priority of the
    most urgent waiter; a thread knows the mutexes it took ([k_taken]) and the
    mutex it waits for ([th_pending]).  [rt_spin_lock] is the scheduler lock
    here, and [rt_spin_unlock] may switch to another thread. *)

From S2P Require Import Prelude Kernel Timer Sched IpcList Thread Sem.
Open Scope rt_scope.

Definition get_mutex (m : Z) : K mutex := get_obj k_mutexes m.
Definition upd_mutex (m : Z) (f : mutex -> mutex) : K unit := upd_obj k_mutexes m f.
Definition mutex_valid (x : mutex) : bool := ob_valid (mx_ob x).
Definition check_mutex (m : Z) : K mutex := x ← get_mutex m; rt_assert (mutex_valid x);; mret x.

(** ** Priorities *)

(** The priority of the first waiter, 0xff without waiters. *)
Definition first_waiter_prio (m : Z) : K Z :=
  empty ← rt_list_isempty (LMutex m);
  if (empty : bool) then mret 0xff
  else thread ← list_first (LMutex m); rt_sched_thread_get_curr_prio thread.

Definition _mutex_update_priority (m : Z) : K Z :=
  p ← first_waiter_prio m;
  upd_mutex m (fun x => x <| mx_priority := p |>);;
  mret p.

(** The loop of [_thread_get_mutex_priority] over [taken_object_list]. *)
Fixpoint taken_priority (ms : list Z) (priority : Z) : K Z :=
  match ms with
  | [] => mret priority
  | m :: ms =>
      x ← get_mutex m;
      let mutex_prio := if mx_priority x <? mx_ceiling x then mx_priority x else mx_ceiling x in
      taken_priority ms (if mutex_prio <? priority then mutex_prio else priority)
  end.

Definition _thread_get_mutex_priority (t : Z) : K Z :=
  p ← rt_sched_thread_get_init_prio t;
  ms ← st_gets (fun k => k_taken k t);
  taken_priority ms p.

(** The [while] loop of [_thread_update_priority]: [t] just got a new priority;
    if it waits for a mutex, it is put at its new place in the queue and the
    owner's priority is recomputed. *)
Fixpoint update_priority_loop (fuel : nat) (t : Z) : K unit :=
  match fuel with
  | O => st_fail
  | S fuel =>
      susp ← rt_sched_thread_is_suspended t;
      if negb susp then mret tt else
      th ← get_thread t;
      match th_pending th with
      | None => mret tt
      | Some pm =>
          px ← get_mutex pm;
          if negb (mutex_valid px) then mret tt else
          (* re-insert thread to suspended thread list to resort priority list *)
          rt_list_remove t;;
          rt_susp_list_enqueue (LMutex pm) t (ob_flag (mx_ob px));;
          _mutex_update_priority pm;;
          owner ← st_opt (mx_owner px);
          mutex_priority ← _thread_get_mutex_priority owner;
          cur ← rt_sched_thread_get_curr_prio owner;
          if negb (mutex_priority =? cur) then
            rt_sched_thread_change_priority owner mutex_priority;;
            update_priority_loop fuel owner
          else mret tt
      end
  end.

Section Fuel.
(** Bound on the length of the chain of owners that are followed. *)
Context (fuel : nat).

Definition _thread_update_priority (t priority : Z) : K unit :=
  rt_sched_thread_change_priority t priority;;
  update_priority_loop fuel t.

Definition _check_and_update_prio (t : Z) (x : mutex) : K bool :=
  cur ← rt_sched_thread_get_curr_prio t;
  if negb (mx_ceiling x =? 0xFF) || (cur =? mx_priority x) then
    priority ← _thread_get_mutex_priority t;
    rt_sched_thread_change_priority t priority;;
    mret true
  else mret false.

(** ** Life cycle *)

Definition fresh_mutex (static : bool) : mutex :=
  mkMutex (mkIpc true static RT_IPC_FLAG_PRIO) 0xFF 0xFF 0 None.

Definition rt_mutex_init (m : Z) : K Z :=
  obj_init k_mutexes mutex_valid m (fresh_mutex true);;
  list_init (LMutex m);;
  mret RT_EOK.

Definition rt_mutex_create (mem : option Z) : K (option Z) :=
  RT_DEBUG_NOT_IN_INTERRUPT;;
  match mem with
  | None => mret None
  | Some m =>
      obj_init k_mutexes mutex_valid m (fresh_mutex false);;
      list_init (LMutex m);;
      mret (Some m)
  end.

Definition _mutex_before_delete_detach (m : Z) : K unit :=
  rt_spin_lock;;
  (* wakeup all suspended threads *)
  rt_susp_list_resume_all (LMutex m) RT_ERROR;;
  (* remove mutex from thread's taken list *)
  taken_remove m;;
  x ← get_mutex m;
  match mx_owner x with
  | Some owner =>
      need_schedule ← _check_and_update_prio owner x;
      when need_schedule rt_sched_unlock_n_resched
  | None => mret tt
  end;;
  rt_spin_unlock.

(** [rt_object_detach] or [rt_object_delete] runs when the thread has the
    processor again after [rt_spin_unlock]. *)
Definition mutex_object_gone (m : Z) (del : bool) : K unit :=
  if del then obj_delete k_mutexes m
  else upd_mutex m (fun x => x <| mx_ob ::= (fun o => o <| ob_valid := false |>) |>).

Definition rt_mutex_detach_resume (m : Z) (del : bool) : K outcome :=
  mutex_object_gone m del;; mret (Done RT_EOK []).

Definition unlock_then_gone (m : Z) (del : bool) : K outcome :=
  self ← rt_thread_self;
  _mutex_before_delete_detach m;;
  if_still_running self (PcMutexDetach m del) (rt_mutex_detach_resume m del).

Definition rt_mutex_detach (m : Z) : K outcome :=
  x ← check_mutex m;
  rt_assert (ob_static (mx_ob x));;
  unlock_then_gone m false.

Definition rt_mutex_delete (m : Z) : K outcome :=
  x ← check_mutex m;
  rt_assert (negb (ob_static (mx_ob x)));;
  RT_DEBUG_NOT_IN_INTERRUPT;;
  unlock_then_gone m true.

(** Common tail of [rt_mutex_drop_thread] and of a [take] that failed: a
    waiter of [m] with the owner's priority has left the queue. *)
Definition waiter_left (m t : Z) : K unit :=
  x ← get_mutex m;
  need_update ← match mx_owner x with
    | Some owner =>
        po ← rt_sched_thread_get_curr_prio owner;
        pt ← rt_sched_thread_get_curr_prio t;
        mret (po =? pt)
    | None => mret false
    end;
  (* update the priority of mutex *)
  _mutex_update_priority m;;
  (* try to change the priority of mutex owner thread *)
  match mx_owner x with
  | Some owner =>
      when need_update
        (priority ← _thread_get_mutex_priority owner;
         po ← rt_sched_thread_get_curr_prio owner;
         when (negb (priority =? po)) (_thread_update_priority owner priority))
  | None => mret tt
  end.

Definition rt_mutex_drop_thread (m t : Z) : K unit :=
  RT_DEBUG_IN_THREAD_CONTEXT;;
  rt_spin_lock;;
  th ← get_thread t;
  rt_assert (bool_decide (th_pending th = Some m));;
  (* detach from suspended list *)
  rt_list_remove t;;
  waiter_left m t;;
  rt_spin_unlock.

(** ** Priority ceiling *)

(** [m] is [None] for a null pointer. *)
Definition rt_mutex_setprioceiling (m : option Z) (priority : Z) : K Z :=
  RT_DEBUG_IN_THREAD_CONTEXT;;
  match m with
  | Some m =>
      if priority <? RT_THREAD_PRIORITY_MAX then
        (* critical section here if multiple updates to one mutex happen *)
        rt_spin_lock;;
        x ← get_mutex m;
        upd_mutex m (fun x => x <| mx_ceiling := priority |>);;
        match mx_owner x with
        | Some owner =>
            highest_prio ← _thread_get_mutex_priority owner;
            cur ← rt_sched_thread_get_curr_prio owner;
            when (negb (highest_prio =? cur)) (_thread_update_priority owner highest_prio)
        | None => mret tt
        end;;
        rt_spin_unlock;;
        mret (mx_ceiling x)
      else rt_set_errno (- RT_EINVAL);; mret 0xFF
  | None => rt_set_errno (- RT_EINVAL);; mret 0xFF
  end.

Definition rt_mutex_getprioceiling (m : Z) : K Z :=
  RT_DEBUG_IN_THREAD_CONTEXT;;
  rt_spin_lock;;
  x ← get_mutex m;
  rt_spin_unlock;;
  mret (mx_ceiling x).

(** ** Take *)

Definition _rt_mutex_take (m timeout : Z) (f : suspend_flag) : K outcome :=
  RT_DEBUG_SCHEDULER_AVAILABLE true;;
  check_mutex m;;
  thread ← the_self;
  rt_spin_lock;;
  (* reset thread error *)
  upd_thread thread (fun th => th <| th_error := RT_EOK |>);;
  x ← get_mutex m;
  match mx_owner x with
  | Some owner =>
      if owner =? thread then
        if mx_hold x <? RT_MUTEX_HOLD_MAX then
          (* it's the same thread *)
          upd_mutex m (fun x => x <| mx_hold ::= (fun h => u8 (h + 1)) |>);;
          rt_spin_unlock;;
          mret (Done RT_EOK [])
        else
          rt_spin_unlock;;
          mret (Done (- RT_EFULL) []) (* value overflowed *)
      else if timeout =? 0 then
        (* no waiting, return with timeout *)
        upd_thread thread (fun th => th <| th_error := RT_ETIMEOUT |>);;
        rt_spin_unlock;;
        mret (Done (- RT_ETIMEOUT) [])
      else
        (* suspend current thread *)
        ret ← rt_thread_suspend_to_list thread (Some (LMutex m)) (ob_flag (mx_ob x)) f;
        if negb (ret =? RT_EOK) then rt_spin_unlock;; mret (Done ret []) else
        upd_thread thread (fun th => th <| th_pending := Some m |>);;
        priority ← rt_sched_thread_get_curr_prio thread;
        (* update the priority of mutex and of its owner *)
        when (priority <? mx_priority x)
          (upd_mutex m (fun x => x <| mx_priority := priority |>);;
           po ← rt_sched_thread_get_curr_prio owner;
           when (priority <? po) (_thread_update_priority owner priority));;
        when (0 <? timeout) (start_thread_timer thread timeout);;
        rt_spin_unlock;;
        mret (Waiting (PcMutexTake m))
  | None =>
      (* set mutex owner and original priority *)
      upd_mutex m (fun x => x <| mx_owner := Some thread |> <| mx_priority := 0xff |>
                              <| mx_hold := 1 |>);;
      when (negb (mx_ceiling x =? 0xFF))
        (cur ← rt_sched_thread_get_curr_prio thread;
         when (mx_ceiling x <? cur) (_thread_update_priority thread (mx_ceiling x)));;
      (* insert mutex to thread's taken object list *)
      taken_insert_after thread m;;
      rt_spin_unlock;;
      mret (Done RT_EOK [])
  end.

(** The end of a [take] that was resumed with an error. *)
Definition _rt_mutex_take_failed (ret : Z) : K outcome :=
  thread ← the_self;
  (* clear pending object before exit *)
  upd_thread thread (fun th => th <| th_pending := None |>);;
  mret (Done (if 0 <? ret then - ret else ret) []).

(** The code after the second [rt_spin_lock]. *)
Definition _rt_mutex_take_resume2 (m : Z) : K outcome :=
  thread ← the_self;
  rt_spin_lock;;
  th ← get_thread thread;
  x ← get_mutex m;
  if th_error th =? RT_EOK then
    (* get mutex successfully *)
    rt_assert (bool_decide (mx_owner x = Some thread));;
    rt_spin_unlock;;
    mret (Done RT_EOK [])
  else
    rt_assert (negb (bool_decide (mx_owner x = Some thread)));;
    let ret := th_error th in
    waiter_left m thread;;
    rt_spin_unlock;;
    if_still_running (Some thread) (PcMutexFail ret) (_rt_mutex_take_failed ret).

(** The thread runs again after [rt_spin_unlock]; it calls [rt_schedule()]. *)
Definition _rt_mutex_take_resume (m : Z) : K outcome :=
  after_schedule (PcMutexTake2 m) (_rt_mutex_take_resume2 m).

Definition rt_mutex_take (m time : Z) := _rt_mutex_take m time RT_UNINTERRUPTIBLE.
Definition rt_mutex_take_interruptible (m time : Z) := _rt_mutex_take m time RT_INTERRUPTIBLE.
Definition rt_mutex_take_killable (m time : Z) := _rt_mutex_take m time RT_KILLABLE.
Definition rt_mutex_trytake (m : Z) := rt_mutex_take m RT_WAITING_NO.

(** ** Release *)

(** The [do ... while] loop that looks for a waiter that can be resumed; each
    round takes one waiter off the list, so its length is enough fuel. *)
Fixpoint release_next (n : nat) (m : Z) : K (option Z) :=
  match n with
  | O => st_fail
  | S n =>
      next_thread ← list_first (LMutex m);
      susp ← rt_sched_thread_is_suspended next_thread;
      rt_assert susp;;
      (* remove the thread from the suspended list of mutex *)
      rt_list_remove next_thread;;
      (* resume thread to ready queue *)
      r ← rt_sched_thread_ready next_thread;
      if r =? RT_EOK then mret (Some next_thread) else
      empty ← rt_list_isempty (LMutex m);
      if (empty : bool) then mret None else release_next n m
  end.

(** [hold] has reached 0: ownership goes to a waiter or the mutex is free;
    the result is [need_schedule]. *)
Definition release_last (m thread : Z) : K bool :=
  (* remove mutex from thread's taken list *)
  taken_remove m;;
  x ← get_mutex m;
  (* whether change the thread priority *)
  need ← _check_and_update_prio thread x;
  ws ← st_gets (fun k => k_lists k (LMutex m));
  match ws with
  | [] =>
      (* clear owner *)
      upd_mutex m (fun x => x <| mx_owner := None |> <| mx_priority := 0xff |>);;
      mret need
  | _ =>
      next ← release_next (length ws) m;
      match next with
      | Some next_thread =>
          upd_mutex m (fun x => x <| mx_owner := Some next_thread |> <| mx_hold := 1 |>);;
          taken_insert_after next_thread m;;
          (* cleanup pending object *)
          upd_thread next_thread (fun th => th <| th_pending := None |>);;
          (* update mutex priority *)
          _mutex_update_priority m;;
          mret true
      | None =>
          (* no waiting thread is woke up, clear owner *)
          upd_mutex m (fun x => x <| mx_owner := None |> <| mx_priority := 0xff |>);;
          mret need
      end
  end.

Definition rt_mutex_release (m : Z) : K outcome :=
  check_mutex m;;
  (* only thread could release mutex because we need test the ownership *)
  RT_DEBUG_IN_THREAD_CONTEXT;;
  thread ← the_self;
  rt_spin_lock;;
  x ← get_mutex m;
  (* mutex only can be released by owner *)
  if negb (bool_decide (mx_owner x = Some thread)) then
    upd_thread thread (fun th => th <| th_error := - RT_ERROR |>);;
    rt_spin_unlock;;
    mret (Done (- RT_ERROR) [])
  else
    upd_mutex m (fun x => x <| mx_hold ::= (fun h => u8 (h - 1)) |>);;
    x ← get_mutex m;
    (* if no hold *)
    need_schedule ← (if mx_hold x =? 0 then release_last m thread else mret false);
    rt_spin_unlock;;
    if_still_running (Some thread) (PcSchedRet need_schedule RT_EOK)
      (sched_ret need_schedule RT_EOK).

Definition rt_mutex_control : K Z := mret (- RT_EINVAL).
End Fuel.
