(* ===== verification/Event.v ===== *)
(** * Event sets: src/ipc.c, RT_USING_EVENT *)

From S2P Require Import Prelude Kernel Timer Sched IpcList Thread Sem.
Open Scope rt_scope.

Definition get_event (e : Z) : K event := get_obj k_events e.
Definition upd_event (e : Z) (f : event -> event) : K unit := upd_obj k_events e f.
Definition event_valid (x : event) : bool := ob_valid (ev_ob x).
Definition check_event (e : Z) : K event := x ← get_event e; rt_assert (event_valid x);; mret x.

Definition rt_event_init (e flag : Z) : K Z :=
  rt_assert (valid_flag flag);;
  obj_init k_events event_valid e (mkEvent (mkIpc true true flag) 0);;
  list_init (LEvent e);;
  mret RT_EOK.

Definition rt_event_detach (e : Z) : K Z :=
  x ← check_event e;
  rt_assert (ob_static (ev_ob x));;
  rt_susp_list_resume_all (LEvent e) RT_ERROR;;
  upd_event e (fun x => x <| ev_ob ::= (fun o => o <| ob_valid := false |>) |>);;
  mret RT_EOK.

Definition rt_event_create (mem : option Z) (flag : Z) : K (option Z) :=
  rt_assert (valid_flag flag);;
  RT_DEBUG_NOT_IN_INTERRUPT;;
  match mem with
  | None => mret None
  | Some e =>
      obj_init k_events event_valid e (mkEvent (mkIpc true false flag) 0);;
      list_init (LEvent e);;
      mret (Some e)
  end.

(** [rt_spin_unlock] may switch; [rt_object_delete] is then still to come. *)
Definition rt_event_delete_resume (e : Z) : K outcome :=
  obj_delete k_events e;; mret (Done RT_EOK []).

Definition rt_event_delete (e : Z) : K outcome :=
  x ← check_event e;
  rt_assert (negb (ob_static (ev_ob x)));;
  RT_DEBUG_NOT_IN_INTERRUPT;;
  self ← rt_thread_self;
  rt_spin_lock;;
  rt_susp_list_resume_all (LEvent e) RT_ERROR;;
  rt_spin_unlock;;
  if_still_running self (PcEventDelete e) (rt_event_delete_resume e).

(** [thread->event_set] against [event->set] under [event_info]: [None] is the
    branch without AND and OR, [Some None] a wait that goes on, [Some (Some s)]
    a wait that ends with the events [s]. *)
Definition event_match (info want have : Z) : option (option Z) :=
  if has_flag info RT_EVENT_FLAG_AND then
    Some (if Z.land want have =? want then Some want else None)
  else if has_flag info RT_EVENT_FLAG_OR then
    Some (if negb (Z.land want have =? 0) then Some (Z.land want have) else None)
  else None.

(** The walk of [rt_event_send] over the waiting threads [ts]; the accumulators
    are [need_clear_set] and [need_schedule].  The result is [None] for the
    early return of -RT_EINVAL. *)
Fixpoint event_send_loop (ts : list Z) (have need_clear_set : Z) (need_schedule : bool)
  : K (option (Z * bool)) :=
  match ts with
  | [] => mret (Some (need_clear_set, need_schedule))
  | t :: ts =>
      th ← get_thread t;
      match event_match (th_evinfo th) (th_evset th) have with
      | None => mret None
      | Some None => event_send_loop ts have need_clear_set need_schedule
      | Some (Some got) =>
          (* save the received event set *)
          upd_thread t (fun th => th <| th_evset := got |>);;
          let clear := if has_flag (th_evinfo th) RT_EVENT_FLAG_CLEAR
                       then Z.lor need_clear_set got else need_clear_set in
          (* resume thread, and thread list breaks out *)
          rt_sched_thread_ready t;;
          upd_thread t (fun th => th <| th_error := RT_EOK |>);;
          event_send_loop ts have clear true
      end
  end.

Definition rt_event_send (e set : Z) : K Z :=
  check_event e;;
  if set =? 0 then mret (- RT_ERROR) else
  upd_event e (fun x => x <| ev_set ::= (fun s => Z.lor s set) |>);;
  x ← get_event e;
  ts ← st_gets (fun k => k_lists k (LEvent e));
  r ← event_send_loop ts (ev_set x) 0 false;
  match r with
  | None => mret (- RT_EINVAL)
  | Some (need_clear_set, need_schedule) =>
      when (negb (need_clear_set =? 0))
        (upd_event e (fun x => x <| ev_set ::= (fun s => Z.ldiff s need_clear_set) |>));;
      when need_schedule rt_schedule;;
      mret RT_EOK
  end.

Definition _rt_event_recv (e set option timeout : Z) (f : suspend_flag) : K outcome :=
  check_event e;;
  RT_DEBUG_SCHEDULER_AVAILABLE true;;
  if set =? 0 then mret (Done (- RT_ERROR) []) else
  thread ← the_self;
  upd_thread thread (fun th => th <| th_error := - RT_EINTR |>);;
  x ← get_event e;
  status ← (if has_flag option RT_EVENT_FLAG_AND then mret (Z.land (ev_set x) set =? set)
            else if has_flag option RT_EVENT_FLAG_OR then mret (negb (Z.land (ev_set x) set =? 0))
            else st_fail); (* RT_ASSERT(0) *)
  if (status : bool) then
    (* received event set *)
    let got := Z.land (ev_set x) set in
    upd_thread thread (fun th => th <| th_error := RT_EOK |> <| th_evset := got |>
                                    <| th_evinfo := option |>);;
    when (has_flag option RT_EVENT_FLAG_CLEAR)
      (upd_event e (fun x => x <| ev_set ::= (fun s => Z.ldiff s set) |>));;
    mret (Done RT_EOK [got])
  else if timeout =? 0 then
    upd_thread thread (fun th => th <| th_error := - RT_ETIMEOUT |>);;
    mret (Done (- RT_ETIMEOUT) [])
  else
    (* fill thread event info *)
    upd_thread thread (fun th => th <| th_evset := set |> <| th_evinfo := option |>);;
    ret ← rt_thread_suspend_to_list thread (Some (LEvent e)) (ob_flag (ev_ob x)) f;
    if negb (ret =? RT_EOK) then mret (Done ret []) else
    when (0 <? timeout) (start_thread_timer thread timeout);;
    rt_schedule;;
    mret (Waiting (PcEventRecv e)).

Definition _rt_event_recv_resume (e : Z) : K outcome :=
  thread ← the_self;
  th ← get_thread thread;
  if negb (th_error th =? RT_EOK) then mret (Done (th_error th) [])
  else mret (Done (th_error th) [th_evset th]).

Definition rt_event_recv (e set option timeout : Z) :=
  _rt_event_recv e set option timeout RT_UNINTERRUPTIBLE.
Definition rt_event_recv_interruptible (e set option timeout : Z) :=
  _rt_event_recv e set option timeout RT_INTERRUPTIBLE.
Definition rt_event_recv_killable (e set option timeout : Z) :=
  _rt_event_recv e set option timeout RT_KILLABLE.

Definition rt_event_control (e cmd : Z) : K Z :=
  check_event e;;
  if cmd =? RT_IPC_CMD_RESET then
    rt_susp_list_resume_all (LEvent e) RT_ERROR;;
    upd_event e (fun x => x <| ev_set := 0 |>);;
    rt_schedule;;
    mret RT_EOK
  else mret (- RT_ERROR).
