(* ===== verification/Mailbox.v ===== *)
(** * Mailboxes: src/ipc.c, RT_USING_MAILBOX

    A mailbox is a ring of words with counters of 16 bits, a list of waiting
    receivers and a list of waiting senders. *)

From S2P Require Import Prelude Kernel Timer Sched IpcList Thread Sem.
Open Scope rt_scope.

Definition get_mb (m : Z) : K mailbox := get_obj k_mbs m.
Definition upd_mb (m : Z) (f : mailbox -> mailbox) : K unit := upd_obj k_mbs m f.
Definition mb_valid (x : mailbox) : bool := ob_valid (mb_ob x).
Definition check_mb (m : Z) : K mailbox := x ← get_mb m; rt_assert (mb_valid x);; mret x.

(** [pool] is the memory behind [msgpool], one word per entry. *)
Definition rt_mb_init (m : Z) (pool : list Z) (size flag : Z) : K Z :=
  rt_assert (valid_flag flag);;
  obj_init k_mbs mb_valid m (mkMailbox (mkIpc true true flag) pool (u16 size) 0 0 0);;
  list_init (LMbRecv m);;
  list_init (LMbSend m);;
  mret RT_EOK.

(** [mem] and [pool]: what [rt_object_allocate] and RT_KERNEL_MALLOC returned. *)
Definition rt_mb_create (mem : option Z) (pool : option (list Z)) (size flag : Z) : K (option Z) :=
  rt_assert (valid_flag flag);;
  RT_DEBUG_NOT_IN_INTERRUPT;;
  match mem with
  | None => mret None
  | Some m =>
      match pool with
      | None => mret None (* delete mailbox object *)
      | Some pool =>
          obj_init k_mbs mb_valid m (mkMailbox (mkIpc true false flag) pool (u16 size) 0 0 0);;
          list_init (LMbRecv m);;
          list_init (LMbSend m);;
          mret (Some m)
      end
  end.

Definition rt_mb_detach (m : Z) : K Z :=
  x ← check_mb m;
  rt_assert (ob_static (mb_ob x));;
  rt_susp_list_resume_all (LMbRecv m) RT_ERROR;;
  rt_susp_list_resume_all (LMbSend m) RT_ERROR;;
  upd_mb m (fun x => x <| mb_ob ::= (fun o => o <| ob_valid := false |>) |>);;
  mret RT_EOK.

Definition rt_mb_delete_resume (m : Z) : K outcome :=
  obj_delete k_mbs m;; mret (Done RT_EOK []).

Definition rt_mb_delete (m : Z) : K outcome :=
  x ← check_mb m;
  rt_assert (negb (ob_static (mb_ob x)));;
  RT_DEBUG_NOT_IN_INTERRUPT;;
  self ← rt_thread_self;
  rt_spin_lock;;
  rt_susp_list_resume_all (LMbRecv m) RT_ERROR;;
  rt_susp_list_resume_all (LMbSend m) RT_ERROR;;
  rt_spin_unlock;;
  if_still_running self (PcMbDelete m) (rt_mb_delete_resume m).

(** [msg_pool[i] = value]; an index outside the pool is not memory of it. *)
Definition pool_store (m i value : Z) : K unit :=
  x ← get_mb m;
  rt_assert ((0 <=? i) && (i <? Z.of_nat (length (mb_pool x))));;
  upd_mb m (fun x => x <| mb_pool ::= <[Z.to_nat i := value]> |>).

(** The code of [_rt_mb_send_wait] below the waiting loop. *)
Definition mb_put (m value : Z) : K Z :=
  x ← get_mb m;
  pool_store m (mb_in x) value;;
  (* increase input offset *)
  upd_mb m (fun x => x <| mb_in ::= (fun i =>
    let i := u16 (i + 1) in if mb_size x <=? i then 0 else i) |>);;
  if mb_entry x <? RT_MB_ENTRY_MAX then
    upd_mb m (fun x => x <| mb_entry ::= (fun n => u16 (n + 1)) |>);;
    (* resume suspended thread *)
    empty ← rt_list_isempty (LMbRecv m);
    if negb empty then
      rt_susp_list_dequeue (LMbRecv m) RT_EOK;;
      rt_schedule;;
      mret RT_EOK
    else mret RT_EOK
  else mret (- RT_EFULL). (* value overflowed *)

(** One round of [while (mb->entry == mb->size)]: the mail is stored, the call
    returns, or the thread waits. *)
Definition mb_send_round (m value timeout : Z) (f : suspend_flag) : K outcome :=
  x ← get_mb m;
  if mb_entry x =? mb_size x then
    thread ← the_self;
    upd_thread thread (fun th => th <| th_error := - RT_EINTR |>);;
    if timeout =? 0 then mret (Done (- RT_EFULL) []) else
    ret ← rt_thread_suspend_to_list thread (Some (LMbSend m)) (ob_flag (mb_ob x)) f;
    if negb (ret =? RT_EOK) then mret (Done ret []) else
    now ← rt_tick_get;
    when (0 <? timeout) (start_thread_timer thread timeout);;
    rt_schedule;;
    mret (Waiting (PcMbSend m value timeout now f))
  else r ← mb_put m value; mret (Done r []).

Definition _rt_mb_send_wait (m value timeout : Z) (f : suspend_flag) : K outcome :=
  check_mb m;;
  RT_DEBUG_SCHEDULER_AVAILABLE (negb (timeout =? 0));;
  x ← get_mb m;
  if (mb_entry x =? mb_size x) && (timeout =? 0) then mret (Done (- RT_EFULL) [])
  else mb_send_round m value timeout f.

Definition _rt_mb_send_wait_resume (m value timeout tick_delta : Z) (f : suspend_flag) : K outcome :=
  thread ← the_self;
  th ← get_thread thread;
  if negb (th_error th =? RT_EOK) then mret (Done (th_error th) []) else
  now ← rt_tick_get;
  mb_send_round m value (remaining_timeout timeout tick_delta now) f.

Definition rt_mb_send_wait (m value timeout : Z) := _rt_mb_send_wait m value timeout RT_UNINTERRUPTIBLE.
Definition rt_mb_send_wait_interruptible (m value timeout : Z) :=
  _rt_mb_send_wait m value timeout RT_INTERRUPTIBLE.
Definition rt_mb_send_wait_killable (m value timeout : Z) :=
  _rt_mb_send_wait m value timeout RT_KILLABLE.
Definition rt_mb_send (m value : Z) := rt_mb_send_wait m value 0.
Definition rt_mb_send_interruptible (m value : Z) := rt_mb_send_wait_interruptible m value 0.
Definition rt_mb_send_killable (m value : Z) := rt_mb_send_wait_killable m value 0.

Definition rt_mb_urgent (m value : Z) : K Z :=
  x ← check_mb m;
  if mb_entry x =? mb_size x then mret (- RT_EFULL) else
  (* rewind to the previous position *)
  upd_mb m (fun x => x <| mb_out ::= (fun o => if 0 <? o then o - 1 else u16 (mb_size x - 1)) |>);;
  x ← get_mb m;
  pool_store m (mb_out x) value;;
  upd_mb m (fun x => x <| mb_entry ::= (fun n => u16 (n + 1)) |>);;
  empty ← rt_list_isempty (LMbRecv m);
  if negb empty then
    rt_susp_list_dequeue (LMbRecv m) RT_EOK;;
    rt_schedule;;
    mret RT_EOK
  else mret RT_EOK.

(** The code of [_rt_mb_recv] below the waiting loop. *)
Definition mb_take (m : Z) : K outcome :=
  x ← get_mb m;
  value ← st_opt (mb_pool x !! Z.to_nat (mb_out x));
  (* increase output offset *)
  upd_mb m (fun x => x <| mb_out ::= (fun o =>
    let o := u16 (o + 1) in if mb_size x <=? o then 0 else o) |>);;
  when (0 <? mb_entry x) (upd_mb m (fun x => x <| mb_entry ::= (fun n => n - 1) |>));;
  empty ← rt_list_isempty (LMbSend m);
  when (negb empty)
    (rt_susp_list_dequeue (LMbSend m) RT_EOK;;
     rt_schedule);;
  mret (Done RT_EOK [value]).

Definition mb_recv_round (m timeout : Z) (f : suspend_flag) : K outcome :=
  x ← get_mb m;
  if mb_entry x =? 0 then
    thread ← the_self;
    upd_thread thread (fun th => th <| th_error := - RT_EINTR |>);;
    if timeout =? 0 then
      upd_thread thread (fun th => th <| th_error := - RT_ETIMEOUT |>);;
      mret (Done (- RT_ETIMEOUT) [])
    else
    ret ← rt_thread_suspend_to_list thread (Some (LMbRecv m)) (ob_flag (mb_ob x)) f;
    if negb (ret =? RT_EOK) then mret (Done ret []) else
    now ← rt_tick_get;
    when (0 <? timeout) (start_thread_timer thread timeout);;
    rt_schedule;;
    mret (Waiting (PcMbRecv m timeout now f))
  else mb_take m.

Definition _rt_mb_recv (m timeout : Z) (f : suspend_flag) : K outcome :=
  check_mb m;;
  RT_DEBUG_SCHEDULER_AVAILABLE (negb (timeout =? 0));;
  x ← get_mb m;
  if (mb_entry x =? 0) && (timeout =? 0) then mret (Done (- RT_ETIMEOUT) [])
  else mb_recv_round m timeout f.

Definition _rt_mb_recv_resume (m timeout tick_delta : Z) (f : suspend_flag) : K outcome :=
  thread ← the_self;
  th ← get_thread thread;
  if negb (th_error th =? RT_EOK) then mret (Done (th_error th) []) else
  now ← rt_tick_get;
  mb_recv_round m (remaining_timeout timeout tick_delta now) f.

Definition rt_mb_recv (m timeout : Z) := _rt_mb_recv m timeout RT_UNINTERRUPTIBLE.
Definition rt_mb_recv_interruptible (m timeout : Z) := _rt_mb_recv m timeout RT_INTERRUPTIBLE.
Definition rt_mb_recv_killable (m timeout : Z) := _rt_mb_recv m timeout RT_KILLABLE.

Definition rt_mb_control (m cmd : Z) : K Z :=
  check_mb m;;
  if cmd =? RT_IPC_CMD_RESET then
    rt_susp_list_resume_all (LMbRecv m) RT_ERROR;;
    rt_susp_list_resume_all (LMbSend m) RT_ERROR;;
    upd_mb m (fun x => x <| mb_entry := 0 |> <| mb_in := 0 |> <| mb_out := 0 |>);;
    rt_schedule;;
    mret RT_EOK
  else mret (- RT_ERROR).
