(* ===== verification/Mqueue.v ===== *)
(** * Message queues: src/ipc.c, RT_USING_MESSAGEQUEUE

    The pool is an array of nodes (header and message bytes); every node is on
    the singly linked free list or on the queue from [msg_queue_head] to
    [msg_queue_tail].  RT_USING_MESSAGEQUEUE_PRIORITY is not set. *)

From S2P Require Import Prelude Kernel Timer Sched IpcList Thread Sem Mailbox.
Open Scope rt_scope.

Definition get_mq (q : Z) : K msgqueue := get_obj k_mqs q.
Definition upd_mq (q : Z) (f : msgqueue -> msgqueue) : K unit := upd_obj k_mqs q f.
Definition mq_valid (x : msgqueue) : bool := ob_valid (mq_ob x).
Definition check_mq (q : Z) : K msgqueue := x ← get_mq q; rt_assert (mq_valid x);; mret x.

(** sizeof(struct rt_mq_message) *)
Definition MQ_HEADER : Z := 8.

(** The [for] loop of [rt_mq_init] and [rt_mq_create]: node [temp] is at
    [pool + temp * (msg_align_size + header)] and is pushed on the free list. *)
Fixpoint mq_free_chain (pool step : Z) (msg_align_size : nat) (temp n : nat)
    (nodes : gmap Z mqnode) (free : option Z) : gmap Z mqnode * option Z :=
  match n with
  | O => (nodes, free)
  | S n =>
      let head := pool + Z.of_nat temp * step in
      mq_free_chain pool step msg_align_size (S temp) n
        (<[head := mkNode free 0 (replicate msg_align_size 0)]> nodes) (Some head)
  end.

(** The distance of two nodes, [msg_align_size + sizeof(struct rt_mq_message)]. *)
Definition mq_step (msg_size : Z) : Z := u32 (RT_ALIGN msg_size RT_ALIGN_SIZE + MQ_HEADER).

Definition mq_fresh (static : bool) (pool msg_size max_msgs flag : Z) : msgqueue :=
  let msg_align_size := RT_ALIGN msg_size RT_ALIGN_SIZE in
  let '(nodes, free) := mq_free_chain pool (mq_step msg_size)
      (Z.to_nat msg_align_size) 0 (Z.to_nat max_msgs) ∅ None in
  mkMq (mkIpc true static flag) nodes (u16 msg_size) max_msgs 0 None None free.

(** The object is registered before the pool size is checked; the fields behind the
    check keep what the memory held, which is zero at reset. *)
Definition rt_mq_init (q pool msg_size pool_size flag : Z) : K Z :=
  rt_assert (valid_flag flag);;
  old ← st_gets (fun k => default (mkMq (mkIpc false false 0) ∅ 0 0 0 None None None) (k_mqs k !! q));
  (* a divisor that wraps to 0 gives 0, as the division of the CPU does *)
  let max_msgs := u16 (pool_size / mq_step msg_size) in
  obj_init k_mqs mq_valid q (old <| mq_ob := mkIpc true true flag |> <| mq_msg_size := u16 msg_size |> <| mq_max_msgs := max_msgs |>);;
  list_init (LMqRecv q);;
  if max_msgs =? 0 then mret (- RT_EINVAL) else
  upd_mq q (fun _ => mq_fresh true pool msg_size max_msgs flag);;
  list_init (LMqSend q);;
  mret RT_EOK.

Definition rt_mq_create (mem pool : option Z) (msg_size max_msgs flag : Z) : K (option Z) :=
  rt_assert (valid_flag flag);;
  RT_DEBUG_NOT_IN_INTERRUPT;;
  match mem with
  | None => mret None
  | Some q =>
      match pool with
      | None => mret None
      | Some pool =>
          obj_init k_mqs mq_valid q (mq_fresh false pool msg_size (u16 max_msgs) flag);;
          list_init (LMqRecv q);;
          list_init (LMqSend q);;
          mret (Some q)
      end
  end.

Definition rt_mq_detach (q : Z) : K Z :=
  x ← check_mq q;
  rt_assert (ob_static (mq_ob x));;
  rt_susp_list_resume_all (LMqRecv q) RT_ERROR;;
  rt_susp_list_resume_all (LMqSend q) RT_ERROR;;
  upd_mq q (fun x => x <| mq_ob ::= (fun o => o <| ob_valid := false |>) |>);;
  mret RT_EOK.

Definition rt_mq_delete_resume (q : Z) : K outcome :=
  obj_delete k_mqs q;; mret (Done RT_EOK []).

Definition rt_mq_delete (q : Z) : K outcome :=
  x ← check_mq q;
  rt_assert (negb (ob_static (mq_ob x)));;
  RT_DEBUG_NOT_IN_INTERRUPT;;
  self ← rt_thread_self;
  rt_spin_lock;;
  rt_susp_list_resume_all (LMqRecv q) RT_ERROR;;
  rt_susp_list_resume_all (LMqSend q) RT_ERROR;;
  rt_spin_unlock;;
  if_still_running self (PcMqDelete q) (rt_mq_delete_resume q).

(** ** The queue itself, on the object *)

Definition node_at (x : msgqueue) (a : Z) : option mqnode := mq_nodes x !! a.
Definition upd_node (a : Z) (f : mqnode -> mqnode) (x : msgqueue) : msgqueue :=
  match node_at x a with
  | Some n => x <| mq_nodes ::= insert a (f n) |>
  | None => x
  end.

(** [rt_memcpy(GET_MESSAGEBYTE_ADDR(msg), buffer, size)] and the header. *)
Definition fill_node (buf : list Z) (n : mqnode) : mqnode :=
  n <| mn_length := Z.of_nat (length buf) |> <| mn_data ::= (fun d => buf ++ drop (length buf) d) |>.

(** Unlinks the first free node. *)
Definition mq_get_free (x : msgqueue) : option (Z * msgqueue) :=
  match mq_free x with
  | Some msg =>
      match node_at x msg with
      | Some n => Some (msg, x <| mq_free := mn_next n |>)
      | None => None
      end
  | None => None
  end.

(** Links a filled node behind the tail. *)
Definition mq_append (msg : Z) (x : msgqueue) : msgqueue :=
  let x := match mq_tail x with
           | Some t => upd_node t (fun n => n <| mn_next := Some msg |>) x
           | None => x end in
  let x := x <| mq_tail := Some msg |> in
  match mq_head x with None => x <| mq_head := Some msg |> | Some _ => x end.

(** Links a filled node before the head. *)
Definition mq_prepend (msg : Z) (x : msgqueue) : msgqueue :=
  let x := upd_node msg (fun n => n <| mn_next := mq_head x |>) x in
  let x := x <| mq_head := Some msg |> in
  match mq_tail x with None => x <| mq_tail := Some msg |> | Some _ => x end.

(** Unlinks the first queued node. *)
Definition mq_take_head (x : msgqueue) : option (Z * mqnode * msgqueue) :=
  match mq_head x with
  | Some msg =>
      match node_at x msg with
      | Some n =>
          let x := x <| mq_head := mn_next n |> in
          let x := if bool_decide (mq_tail x = Some msg) then x <| mq_tail := None |> else x in
          Some (msg, n, x)
      | None => None
      end
  | None => None
  end.

(** Puts a node back on the free list. *)
Definition mq_put_free (msg : Z) (x : msgqueue) : msgqueue :=
  let x := upd_node msg (fun n => n <| mn_next := mq_free x |>) x in
  x <| mq_free := Some msg |>.

Definition upd_mq_opt {A} (q : Z) (f : msgqueue -> option (A * msgqueue)) : K A :=
  x ← get_mq q; '(a, x') ← st_opt (f x); upd_mq q (fun _ => x');; mret a.

(** ** Send *)

(** Counts the new message and resumes a receiver. *)
Definition mq_notify (q : Z) : K Z :=
  x ← get_mq q;
  if mq_entry x <? RT_MQ_ENTRY_MAX then
    upd_mq q (fun x => x <| mq_entry ::= (fun n => u16 (n + 1)) |>);;
    empty ← rt_list_isempty (LMqRecv q);
    if negb empty then
      rt_susp_list_dequeue (LMqRecv q) RT_EOK;;
      rt_schedule;;
      mret RT_EOK
    else mret RT_EOK
  else mret (- RT_EFULL). (* value overflowed *)

Definition mq_send_round (q : Z) (buf : list Z) (timeout : Z) (f : suspend_flag) : K outcome :=
  x ← get_mq q;
  match mq_free x with
  | None =>
      thread ← the_self;
      upd_thread thread (fun th => th <| th_error := - RT_EINTR |>);;
      if timeout =? 0 then mret (Done (- RT_EFULL) []) else
      ret ← rt_thread_suspend_to_list thread (Some (LMqSend q)) (ob_flag (mq_ob x)) f;
      if negb (ret =? RT_EOK) then mret (Done ret []) else
      now ← rt_tick_get;
      when (0 <? timeout) (start_thread_timer thread timeout);;
      rt_schedule;;
      mret (Waiting (PcMqSend q buf timeout now f))
  | Some _ =>
      msg ← upd_mq_opt q mq_get_free;
      (* the msg is the new tailer of list, the next shall be NULL *)
      upd_mq q (upd_node msg (fun n => fill_node buf (n <| mn_next := None |>)));;
      (* link msg to message queue *)
      upd_mq q (mq_append msg);;
      r ← mq_notify q;
      mret (Done r [])
  end.

Definition _rt_mq_send_wait (q : Z) (buf : list Z) (timeout : Z) (f : suspend_flag) : K outcome :=
  x ← check_mq q;
  rt_assert (negb (bool_decide (buf = [])));;
  RT_DEBUG_SCHEDULER_AVAILABLE (negb (timeout =? 0));;
  (* greater than one message size *)
  if mq_msg_size x <? Z.of_nat (length buf) then mret (Done (- RT_ERROR) [])
  else if bool_decide (mq_free x = None) && (timeout =? 0) then mret (Done (- RT_EFULL) [])
  else mq_send_round q buf timeout f.

Definition _rt_mq_send_wait_resume (q : Z) (buf : list Z) (timeout tick_delta : Z)
    (f : suspend_flag) : K outcome :=
  thread ← the_self;
  th ← get_thread thread;
  if negb (th_error th =? RT_EOK) then mret (Done (th_error th) []) else
  now ← rt_tick_get;
  mq_send_round q buf (remaining_timeout timeout tick_delta now) f.

Definition rt_mq_send_wait (q : Z) (buf : list Z) (timeout : Z) :=
  _rt_mq_send_wait q buf timeout RT_UNINTERRUPTIBLE.
Definition rt_mq_send_wait_interruptible (q : Z) (buf : list Z) (timeout : Z) :=
  _rt_mq_send_wait q buf timeout RT_INTERRUPTIBLE.
Definition rt_mq_send_wait_killable (q : Z) (buf : list Z) (timeout : Z) :=
  _rt_mq_send_wait q buf timeout RT_KILLABLE.
Definition rt_mq_send (q : Z) (buf : list Z) := rt_mq_send_wait q buf 0.
Definition rt_mq_send_interruptible (q : Z) (buf : list Z) := rt_mq_send_wait_interruptible q buf 0.
Definition rt_mq_send_killable (q : Z) (buf : list Z) := rt_mq_send_wait_killable q buf 0.

Definition rt_mq_urgent (q : Z) (buf : list Z) : K Z :=
  x ← check_mq q;
  rt_assert (negb (bool_decide (buf = [])));;
  if mq_msg_size x <? Z.of_nat (length buf) then mret (- RT_ERROR) else
  match mq_free x with
  | None => mret (- RT_EFULL)
  | Some _ =>
      msg ← upd_mq_opt q mq_get_free;
      upd_mq q (upd_node msg (fill_node buf));;
      (* link msg to the beginning of message queue *)
      upd_mq q (mq_prepend msg);;
      mq_notify q
  end.

(** ** Receive *)

(** [size] is the room in the receiver's buffer; the result is the number of
    bytes copied, the output the bytes. *)
Definition mq_take (q size : Z) : K outcome :=
  '(msg, n) ← upd_mq_opt q (fun x =>
    match mq_take_head x with Some (msg, n, x') => Some ((msg, n), x') | None => None end);
  upd_mq q (fun x => if 0 <? mq_entry x then x <| mq_entry ::= (fun n => n - 1) |> else x);;
  let len := if size <? mn_length n then size else mn_length n in
  let out := take (Z.to_nat len) (mn_data n) in
  upd_mq q (mq_put_free msg);;
  empty ← rt_list_isempty (LMqSend q);
  when (negb empty)
    (rt_susp_list_dequeue (LMqSend q) RT_EOK;;
     rt_schedule);;
  mret (Done len out).

Definition mq_recv_round (q size timeout : Z) (f : suspend_flag) : K outcome :=
  x ← get_mq q;
  if mq_entry x =? 0 then
    thread ← the_self;
    upd_thread thread (fun th => th <| th_error := - RT_EINTR |>);;
    if timeout =? 0 then
      upd_thread thread (fun th => th <| th_error := - RT_ETIMEOUT |>);;
      mret (Done (- RT_ETIMEOUT) [])
    else
    ret ← rt_thread_suspend_to_list thread (Some (LMqRecv q)) (ob_flag (mq_ob x)) f;
    if negb (ret =? RT_EOK) then mret (Done ret []) else
    now ← rt_tick_get;
    when (0 <? timeout) (start_thread_timer thread timeout);;
    rt_schedule;;
    mret (Waiting (PcMqRecv q size timeout now f))
  else mq_take q size.

Definition _rt_mq_recv (q size timeout : Z) (f : suspend_flag) : K outcome :=
  x ← check_mq q;
  rt_assert (negb (size =? 0));;
  RT_DEBUG_SCHEDULER_AVAILABLE (negb (timeout =? 0));;
  if (mq_entry x =? 0) && (timeout =? 0) then mret (Done (- RT_ETIMEOUT) [])
  else mq_recv_round q size timeout f.

Definition _rt_mq_recv_resume (q size timeout tick_delta : Z) (f : suspend_flag) : K outcome :=
  thread ← the_self;
  th ← get_thread thread;
  if negb (th_error th =? RT_EOK) then mret (Done (th_error th) []) else
  now ← rt_tick_get;
  mq_recv_round q size (remaining_timeout timeout tick_delta now) f.

Definition rt_mq_recv (q size timeout : Z) := _rt_mq_recv q size timeout RT_UNINTERRUPTIBLE.
Definition rt_mq_recv_interruptible (q size timeout : Z) := _rt_mq_recv q size timeout RT_INTERRUPTIBLE.
Definition rt_mq_recv_killable (q size timeout : Z) := _rt_mq_recv q size timeout RT_KILLABLE.

(** The [while] loop of the reset: every queued node goes back to the free
    list; the number of nodes of the pool is enough fuel. *)
Fixpoint mq_reset_loop (fuel : nat) (x : msgqueue) : option msgqueue :=
  match mq_head x with
  | None => Some x
  | Some _ =>
      match fuel with
      | O => None
      | S fuel =>
          match mq_take_head x with
          | Some (msg, _, x) => mq_reset_loop fuel (mq_put_free msg x)
          | None => None
          end
      end
  end.

Definition rt_mq_control (q cmd : Z) : K Z :=
  check_mq q;;
  if cmd =? RT_IPC_CMD_RESET then
    rt_susp_list_resume_all (LMqRecv q) RT_ERROR;;
    rt_susp_list_resume_all (LMqSend q) RT_ERROR;;
    x ← get_mq q;
    x' ← st_opt (mq_reset_loop (size (mq_nodes x)) x);
    upd_mq q (fun _ => x');;
    upd_mq q (fun x => x <| mq_entry := 0 |>);;
    rt_schedule;;
    mret RT_EOK
  else mret (- RT_ERROR).
