(* ===== verification/Mempool.v ===== *)
(** * Memory pools: src/mempool.c

    Fixed-size blocks, each preceded by one pointer word.  The word of a free
    block links the free list that starts at [mp_list]; the word of a block in
    use holds the address of its pool.  [mp_words] is the memory of these
    words; the contents of the blocks are the application's. *)

From S2P Require Import Prelude Kernel Timer Sched IpcList Thread Sem.
Open Scope rt_scope.

Definition get_mp (p : Z) : K mempool := get_obj k_mps p.
Definition upd_mp (p : Z) (f : mempool -> mempool) : K unit := upd_obj k_mps p f.
Definition mp_valid (x : mempool) : bool := ob_valid (mp_ob x).
Definition check_mp (p : Z) : K mempool := x ← get_mp p; rt_assert (mp_valid x);; mret x.

(** sizeof(rt_uint8_t * ) *)
Definition POINTER_SIZE : Z := 4.

(** Writes the word of block [offset] of the pool memory at [start]. *)
Definition block_addr (start block_size offset : Z) : Z :=
  u32 (start + offset * (block_size + POINTER_SIZE)).

(** The [for] loop over the blocks from [offset] on: each word is the address of
    the next block. *)
Fixpoint mp_chain (start block_size : Z) (offset : Z) (n : nat) (words : gmap Z Z) : gmap Z Z :=
  match n with
  | O => words
  | S n => mp_chain start block_size (offset + 1) n
             (<[block_addr start block_size offset := block_addr start block_size (offset + 1)]> words)
  end.

(** The loop and the store of RT_NULL at block [offset - 1] after it. *)
Definition mp_blocks (start block_size count : Z) : gmap Z Z :=
  <[block_addr start block_size (count - 1) := 0]>
    (mp_chain start block_size 0 (Z.to_nat count) ∅).

Definition mp_fresh (static : bool) (start size block_size count : Z) : mempool :=
  mkMempool (mkIpc true static 0) size block_size (mp_blocks start block_size count) start count count.

Definition rt_mp_init (p start size block_size : Z) : K Z :=
  rt_assert ((0 <? size) && (0 <? block_size));;
  let size := RT_ALIGN_DOWN size RT_ALIGN_SIZE in
  let block_size := RT_ALIGN block_size RT_ALIGN_SIZE in
  let count := size / u32 (block_size + POINTER_SIZE) in
  obj_init k_mps mp_valid p (mp_fresh true start size block_size count);;
  list_init (LPool p);;
  mret RT_EOK.

Definition rt_mp_detach (p : Z) : K Z :=
  x ← check_mp p;
  rt_assert (ob_static (mp_ob x));;
  rt_susp_list_resume_all (LPool p) RT_ERROR;;
  upd_mp p (fun x => x <| mp_ob ::= (fun o => o <| ob_valid := false |>) |>);;
  mret RT_EOK.

(** [mem] and [start]: what [rt_object_allocate] and [rt_malloc] returned. *)
Definition rt_mp_create (mem start : option Z) (block_count block_size : Z) : K (option Z) :=
  RT_DEBUG_NOT_IN_INTERRUPT;;
  rt_assert ((0 <? block_count) && (0 <? block_size));;
  match mem with
  | None => mret None
  | Some p =>
      let block_size := RT_ALIGN block_size RT_ALIGN_SIZE in
      match start with
      | None => mret None (* no memory, delete memory pool object *)
      | Some start =>
          obj_init k_mps mp_valid p (mp_fresh false start
            (u32 (u32 (block_size + POINTER_SIZE) * block_count)) block_size block_count);;
          list_init (LPool p);;
          mret (Some p)
      end
  end.

Definition rt_mp_delete (p : Z) : K Z :=
  RT_DEBUG_NOT_IN_INTERRUPT;;
  x ← check_mp p;
  rt_assert (negb (ob_static (mp_ob x)));;
  rt_susp_list_resume_all (LPool p) RT_ERROR;;
  obj_delete k_mps p;;
  mret RT_EOK.

(** The code of [rt_mp_alloc] below the waiting loop: the first free block; the
    result is the address behind its word. *)
Definition mp_take (p : Z) : K outcome :=
  upd_mp p (fun x => x <| mp_free_count ::= (fun n => u32 (n - 1)) |>);;
  x ← get_mp p;
  let block_ptr := mp_list x in
  rt_assert (negb (block_ptr =? 0));;
  next ← st_opt (mp_words x !! block_ptr);
  (* setup the next free node, point to memory pool *)
  upd_mp p (fun x => x <| mp_list := next |> <| mp_words ::= insert block_ptr p |>);;
  mret (Done (u32 (block_ptr + POINTER_SIZE)) []).

(** One round of [while (mp->block_free_count == 0)]; the result of the suspend
    call is ignored.  RT_NULL is 0. *)
Definition mp_alloc_round (p time : Z) : K outcome :=
  x ← get_mp p;
  if mp_free_count x =? 0 then
    if time =? 0 then
      rt_set_errno (- RT_ETIMEOUT);;
      mret (Done 0 [])
    else
      RT_DEBUG_NOT_IN_INTERRUPT;;
      thread ← the_self;
      upd_thread thread (fun th => th <| th_error := RT_EOK |>);;
      (* need suspend thread *)
      rt_thread_suspend_to_list thread (Some (LPool p)) RT_IPC_FLAG_FIFO RT_UNINTERRUPTIBLE;;
      before_sleep ← rt_tick_get;
      when (0 <? time) (start_thread_timer thread time);;
      rt_schedule;;
      mret (Waiting (PcMpAlloc p time before_sleep))
  else mp_take p.

Definition rt_mp_alloc (p time : Z) : K outcome := mp_alloc_round p time.

Definition rt_mp_alloc_resume (p time before_sleep : Z) : K outcome :=
  thread ← the_self;
  th ← get_thread thread;
  if negb (th_error th =? RT_EOK) then mret (Done 0 []) else
  now ← rt_tick_get;
  mp_alloc_round p (remaining_timeout time before_sleep now).

(** [block] lies in the memory of pool [home]; the pool to return it to is read
    from the word before it. *)
Definition rt_mp_free (home block : Z) : K unit :=
  if block =? 0 then mret tt else
  let block_ptr := u32 (block - POINTER_SIZE) in
  h ← get_mp home;
  p ← st_opt (mp_words h !! block_ptr);
  (* increase the free block count *)
  upd_mp p (fun x => x <| mp_free_count ::= (fun n => u32 (n + 1)) |>);;
  (* link the block into the block list *)
  x ← get_mp p;
  upd_mp home (fun h => h <| mp_words ::= insert block_ptr (mp_list x) |>);;
  upd_mp p (fun x => x <| mp_list := block_ptr |>);;
  thread ← rt_susp_list_dequeue (LPool p) RT_EOK;
  match thread with
  | Some _ => rt_schedule
  | None => mret tt
  end.
