(* ===== verification/ThreadExit.v ===== *)
(** * The end of a thread: src/thread.c and src/idle.c

    A thread that returns, is detached or is deleted is closed, leaves its
    mutexes and waits in the defunct queue until the idle thread releases its
    object. *)

From S2P Require Import Prelude Kernel Timer Sched IpcList Thread Sem Mutex.
Open Scope rt_scope.

(** ** The defunct queue of idle.c *)

Definition rt_thread_defunct_enqueue (t : Z) : K unit := rt_list_insert_after LDefunct t.

Definition rt_thread_defunct_dequeue : K (option Z) :=
  empty ← rt_list_isempty LDefunct;
  if (empty : bool) then mret None else
  thread ← list_first LDefunct;
  rt_list_remove thread;;
  mret (Some thread).

Section Cleanup.
(** [thread->cleanup(thread)], a callback of the application. *)
Context (cleanup : Z -> K unit).

(** The [while (1)] loop of [rt_defunct_execute]; [fuel] bounds the number of
    threads released. *)
Fixpoint defunct_loop (fuel : nat) : K unit :=
  match fuel with
  | O => st_fail
  | S fuel =>
      thread ← rt_thread_defunct_dequeue;
      match thread with
      | None => mret tt
      | Some t =>
          th ← get_thread t;
          let object_is_systemobject := th_static th in
          (* detach this object *)
          when object_is_systemobject (upd_thread t (fun th => th <| th_valid := false |>));;
          cleanup t;;
          (* delete thread object *)
          when (negb object_is_systemobject)
            (st_modify (fun k => k <| k_threads ::= delete t |>));;
          defunct_loop fuel
      end
  end.

(** Without callbacks each round takes one thread off the queue. *)
Definition rt_defunct_execute : K unit :=
  n ← st_gets (fun k => length (k_lists k LDefunct));
  defunct_loop (S n).
End Cleanup.

(** ** thread.c *)

(** The thread returned from its entry function. *)
Definition _thread_exit : K outcome :=
  thread ← the_self;
  critical_level ← rt_enter_critical;
  rt_sched_remove_thread thread;;
  rt_timer_detach (TThread thread);;
  rt_sched_thread_close thread;;
  (* insert to defunct thread list *)
  rt_thread_defunct_enqueue thread;;
  rt_exit_critical_safe critical_level;;
  if_still_running (Some thread) PcExit (sched_ret true RT_EOK).

Section Fuel.
Context (fuel : nat).

(** [rt_list_for_each_safe] over the mutexes the thread holds. *)
Fixpoint release_all (ms : list Z) : K unit :=
  match ms with
  | [] => mret tt
  | m :: ms => rt_mutex_release m;; release_all ms
  end.

Definition _thread_detach_from_mutex (t : Z) : K unit :=
  th ← get_thread t;
  match th_pending th with
  | Some pm =>
      px ← get_mutex pm;
      when (mutex_valid px)
        (rt_mutex_drop_thread fuel pm t;;
         upd_thread t (fun th => th <| th_pending := None |>))
  | None => mret tt
  end;;
  ms ← st_gets (fun k => k_taken k t);
  release_all ms.

(** [again]: the caller goes on with [rt_schedule()]. *)
Definition _thread_detach (t : Z) (again : bool) : K outcome :=
  self ← rt_thread_self;
  (* forbid scheduling on current core before returning *)
  critical_level ← rt_enter_critical;
  (* before checking status of scheduler *)
  thread_status ← rt_sched_thread_get_stat t;
  when (negb (thread_status =? RT_THREAD_CLOSE))
    (when (negb (thread_status =? RT_THREAD_INIT)) (rt_sched_remove_thread t);;
     (* remove from schedule *)
     rt_timer_detach (TThread t);;
     (* change stat *)
     rt_sched_thread_close t;;
     _thread_detach_from_mutex t;;
     (* insert to defunct thread list *)
     rt_thread_defunct_enqueue t);;
  rt_exit_critical_safe critical_level;;
  if_still_running self (PcSchedRet again RT_EOK) (sched_ret again RT_EOK).

Definition detach_thread (t : Z) (again : bool) : K outcome :=
  th ← get_thread t;
  rt_assert (th_valid th);;
  rt_assert (th_static th);;
  _thread_detach t again.
Definition rt_thread_detach (t : Z) : K outcome := detach_thread t false.

Definition delete_thread (t : Z) (again : bool) : K outcome :=
  th ← get_thread t;
  rt_assert (th_valid th);;
  rt_assert (negb (th_static th));;
  _thread_detach t again.
Definition rt_thread_delete (t : Z) : K outcome := delete_thread t false.

(** The commands of [rt_thread_control]; RT_THREAD_CTRL_BIND_CPU does nothing on
    one CPU but return -RT_EINVAL, every other number is ignored. *)
Inductive thread_cmd := CHANGE_PRIORITY (priority : Z) | STARTUP | CLOSE | BIND_CPU | OTHER_CMD (cmd : Z).

Definition rt_thread_control (t : Z) (cmd : thread_cmd) : K outcome :=
  th ← get_thread t;
  rt_assert (th_valid th);;
  match cmd with
  | CHANGE_PRIORITY priority =>
      error ← rt_sched_thread_change_priority t priority; mret (Done error [])
  | STARTUP => r ← rt_thread_startup t; mret (Done r [])
  | CLOSE => if th_static th then detach_thread t true else delete_thread t true
  | BIND_CPU => mret (Done (- RT_EINVAL) [])
  | OTHER_CMD _ => mret (Done RT_EOK [])
  end.
End Fuel.
