(* ===== verification/DataQueue.v ===== *)
(** * Data queues: src/components/drivers/ipc/dataqueue.c

    A ring of items with an is_empty and an is_full flag, a list of threads that
    wait to push and one of threads that wait to pop.  [evt_notify] is the
    application's callback: its code address, the queue and the event. *)

From S2P Require Import Prelude Kernel Timer Sched IpcList Thread Sem.
Open Scope rt_scope.

Definition DATAQUEUE_MAGIC : Z := 0xbead0e0e.
Definition RT_DATAQUEUE_EVENT_POP : Z := 1.
Definition RT_DATAQUEUE_EVENT_PUSH : Z := 2.
Definition RT_DATAQUEUE_EVENT_LWM : Z := 3.
Definition RT_THREAD_RESUME_RES_THR_ERR : Z := -1.

(** [get_index] and [put_index] are bit fields of 15 bits. *)
Definition u15 (x : Z) : Z := x mod 2 ^ 15.

Definition get_dq (q : Z) : K dataqueue := get_obj k_dqs q.
Definition upd_dq (q : Z) (f : dataqueue -> dataqueue) : K unit := upd_obj k_dqs q f.
(** [RT_ASSERT(queue->magic == DATAQUEUE_MAGIC)] *)
Definition check_dq (q : Z) : K dataqueue :=
  x ← get_dq q; rt_assert (dq_magic x =? DATAQUEUE_MAGIC);; mret x.

(** [items]: the memory that [rt_malloc] returned, [size] items, or [None]. *)
Definition rt_data_queue_init (q : Z) (items : option (list data_item)) (size lwm notify : Z) : K Z :=
  let size := u16 size in
  rt_assert (0 <? size);;
  st_modify (fun k => k <| k_dqs ::= insert q
    (mkDq DATAQUEUE_MAGIC size (u16 lwm) 0 true 0 false (default [] items) notify) |>);;
  list_init (LDqPush q);;
  list_init (LDqPop q);;
  match items with None => mret (- RT_ENOMEM) | Some _ => mret RT_EOK end.

(** [get_index] and [put_index] after an item: the next slot. *)
Definition next_index (size i : Z) : Z := let i := u15 (i + 1) in if i =? size then 0 else i.

Definition rt_data_queue_len (q : Z) : K Z :=
  x ← check_dq q;
  if dq_empty x then mret 0
  else if dq_get x <? dq_put x then mret (u16 (dq_put x - dq_get x))
  else mret (u16 (dq_size x + dq_put x - dq_get x)).

Section DataQueue.
Context (evt_notify : Z -> Z -> Z -> K unit).

(** [if (queue->evt_notify != RT_NULL) queue->evt_notify(queue, event)] *)
Definition notify (q event : Z) : K unit :=
  x ← get_dq q;
  when (negb (dq_notify x =? 0)) (evt_notify (dq_notify x) q event).

(** The code of [rt_data_queue_push] below the waiting loop. *)
Definition dq_put_item (q data_ptr data_size : Z) : K outcome :=
  x ← get_dq q;
  rt_assert (dq_put x <? Z.of_nat (length (dq_items x)));;
  upd_dq q (fun x => x <| dq_items ::= <[Z.to_nat (dq_put x) := (data_ptr, data_size)]> |>);;
  upd_dq q (fun x => x <| dq_put ::= next_index (dq_size x) |>);;
  upd_dq q (fun x => x <| dq_empty := false |>);;
  x ← get_dq q;
  when (dq_put x =? dq_get x) (upd_dq q (fun x => x <| dq_full := true |>));;
  (* there is at least one thread in suspended list *)
  thread ← rt_susp_list_dequeue (LDqPush q) RT_THREAD_RESUME_RES_THR_ERR;
  match thread with
  | Some _ => rt_schedule;; mret (Done RT_EOK [])
  | None => notify q RT_DATAQUEUE_EVENT_PUSH;; mret (Done RT_EOK [])
  end.

(** One round of [while (queue->is_full)] *)
Definition dq_push_round (q data_ptr data_size timeout : Z) : K outcome :=
  x ← get_dq q;
  if dq_full x then
    (* queue is full *)
    if timeout =? 0 then mret (Done (- RT_ETIMEOUT) []) else
    thread ← the_self;
    (* reset thread error number *)
    upd_thread thread (fun th => th <| th_error := RT_EOK |>);;
    (* suspend thread on the push list *)
    result ← rt_thread_suspend_to_list thread (Some (LDqPush q)) RT_IPC_FLAG_FIFO RT_UNINTERRUPTIBLE;
    if negb (result =? RT_EOK) then mret (Done result []) else
    when (0 <? timeout) (start_thread_timer thread timeout);;
    rt_schedule;;
    mret (Waiting (PcDqPush q data_ptr data_size timeout))
  else dq_put_item q data_ptr data_size.

Definition rt_data_queue_push (q data_ptr data_size timeout : Z) : K outcome :=
  check_dq q;;
  RT_DEBUG_SCHEDULER_AVAILABLE (negb (timeout =? 0));;
  dq_push_round q data_ptr data_size timeout.

Definition rt_data_queue_push_resume (q data_ptr data_size timeout : Z) : K outcome :=
  thread ← the_self;
  th ← get_thread thread;
  if negb (th_error th =? RT_EOK) then mret (Done (th_error th) [])
  else dq_push_round q data_ptr data_size timeout.

(** The end of [rt_data_queue_pop] when the low water mark is reached. *)
Definition dq_pop_end (q data_ptr data_size : Z) : K outcome :=
  notify q RT_DATAQUEUE_EVENT_LWM;;
  mret (Done RT_EOK [data_ptr; data_size]).

(** The code of [rt_data_queue_pop] below the waiting loop. *)
Definition dq_take_item (q : Z) : K outcome :=
  x ← get_dq q;
  '(data_ptr, data_size) ← st_opt (dq_items x !! Z.to_nat (dq_get x));
  upd_dq q (fun x => x <| dq_get ::= next_index (dq_size x) |>);;
  upd_dq q (fun x => x <| dq_full := false |>);;
  x ← get_dq q;
  when (dq_put x =? dq_get x) (upd_dq q (fun x => x <| dq_empty := true |>));;
  len ← rt_data_queue_len q;
  if len <=? dq_lwm x then
    (* there is at least one thread in suspended list *)
    thread ← rt_susp_list_dequeue (LDqPush q) RT_THREAD_RESUME_RES_THR_ERR;
    match thread with
    | Some _ => after_schedule (PcDqPopEnd q data_ptr data_size) (dq_pop_end q data_ptr data_size)
    | None => dq_pop_end q data_ptr data_size
    end
  else
    notify q RT_DATAQUEUE_EVENT_POP;;
    mret (Done RT_EOK [data_ptr; data_size]).

(** One round of [while (queue->is_empty)].  When the suspend call failed, the loop
    would go on for ever. *)
Definition dq_pop_round (q timeout : Z) : K outcome :=
  x ← get_dq q;
  if dq_empty x then
    (* queue is empty *)
    if timeout =? 0 then mret (Done (- RT_ETIMEOUT) []) else
    thread ← the_self;
    (* reset thread error number *)
    upd_thread thread (fun th => th <| th_error := RT_EOK |>);;
    (* suspend thread on the pop list *)
    result ← rt_thread_suspend_to_list thread (Some (LDqPop q)) RT_IPC_FLAG_FIFO RT_UNINTERRUPTIBLE;
    if negb (result =? RT_EOK) then st_fail else
    when (0 <? timeout) (start_thread_timer thread timeout);;
    rt_schedule;;
    mret (Waiting (PcDqPop q timeout))
  else dq_take_item q.

Definition rt_data_queue_pop (q timeout : Z) : K outcome :=
  check_dq q;;
  RT_DEBUG_SCHEDULER_AVAILABLE (negb (timeout =? 0));;
  dq_pop_round q timeout.

Definition rt_data_queue_pop_resume (q timeout : Z) : K outcome :=
  thread ← the_self;
  th ← get_thread thread;
  if negb (th_error th =? RT_EOK) then mret (Done (th_error th) [])
  else dq_pop_round q timeout.

Definition rt_data_queue_peek (q : Z) : K outcome :=
  x ← check_dq q;
  if dq_empty x then mret (Done (- RT_EEMPTY) []) else
  '(data_ptr, data_size) ← st_opt (dq_items x !! Z.to_nat (dq_get x));
  mret (Done RT_EOK [data_ptr; data_size]).
End DataQueue.

(** [rt_data_queue_reset] up to [rt_exit_critical()]; [rt_susp_list_resume_all_irq]
    differs from [rt_susp_list_resume_all] in the gaps for interrupts. *)
Definition dq_clear (q : Z) : K unit :=
  check_dq q;;
  upd_dq q (fun x => x <| dq_get := 0 |> <| dq_put := 0 |> <| dq_empty := true |> <| dq_full := false |>);;
  rt_enter_critical;;
  (* wakeup all suspend threads *)
  rt_susp_list_resume_all (LDqPop q) RT_ERROR;;
  rt_susp_list_resume_all (LDqPush q) RT_ERROR;;
  rt_exit_critical.

Definition rt_data_queue_reset (q : Z) : K outcome :=
  self ← rt_thread_self;
  dq_clear q;;
  if_still_running self (PcSchedRet true RT_EOK) (sched_ret true RT_EOK).

(** What [rt_data_queue_deinit] does behind the call of [rt_data_queue_reset]. *)
Definition dq_release (q : Z) : K outcome :=
  upd_dq q (fun x => x <| dq_magic := 0 |>);;
  (* rt_free(queue->queue) *)
  upd_dq q (fun x => x <| dq_items := [] |>);;
  mret (Done RT_EOK []).

Definition rt_data_queue_deinit_resume (q : Z) (again : bool) : K outcome :=
  if again then after_schedule (PcDqDeinit q false) (dq_release q) else dq_release q.

Definition rt_data_queue_deinit (q : Z) : K outcome :=
  self ← rt_thread_self;
  dq_clear q;;
  if_still_running self (PcDqDeinit q true) (rt_data_queue_deinit_resume q true).
