(* ===== verification/Completion.v ===== *)
(** * Completions: src/components/drivers/ipc/completion.c

    A completion is one word: the address of the thread that waits, in which bit 0,
    always clear in an address, is the completed flag.  RT_NULL is 0. *)

From S2P Require Import Prelude Kernel Timer Sched IpcList Thread.
Open Scope rt_scope.

Definition RT_COMPLETED : Z := 1.
Definition RT_UNCOMPLETED : Z := 0.
Definition RT_COMPLETION_FLAG (w : Z) : Z := Z.land w 1.
Definition RT_COMPLETION_THREAD (w : Z) : Z := Z.ldiff w 1.
Definition RT_COMPLETION_NEW_STAT (thread flag : Z) : Z := Z.lor (Z.land flag 1) (Z.ldiff thread 1).

Definition get_comp (c : Z) : K Z := get_obj k_comps c.
Definition set_comp (c w : Z) : K unit := st_modify (fun k => k <| k_comps ::= insert c w |>).

Definition rt_completion_init (c : Z) : K unit :=
  set_comp c (RT_COMPLETION_NEW_STAT 0 RT_UNCOMPLETED).

Definition rt_completion_wait (c timeout : Z) : K outcome :=
  (* current context checking *)
  RT_DEBUG_SCHEDULER_AVAILABLE (negb (timeout =? 0));;
  w ← get_comp c;
  if negb (RT_COMPLETION_FLAG w =? RT_COMPLETED) then
    (* only one thread can suspend on complete *)
    rt_assert (RT_COMPLETION_THREAD w =? 0);;
    if timeout =? 0 then mret (Done (- RT_ETIMEOUT) []) else
    thread ← the_self;
    upd_thread thread (fun th => th <| th_error := RT_EOK |>);;
    result ← rt_thread_suspend_with_flag thread RT_UNINTERRUPTIBLE;
    if result =? RT_EOK then
      set_comp c (RT_COMPLETION_NEW_STAT thread RT_UNCOMPLETED);;
      RT_DEBUG_NOT_IN_INTERRUPT;;
      when (0 <? timeout) (start_thread_timer thread timeout);;
      rt_schedule;;
      mret (Waiting (PcCompWait c))
    else
      set_comp c (RT_COMPLETION_NEW_STAT 0 RT_UNCOMPLETED);; mret (Done result [])
  else
    (* clean completed flag & remove susp_thread on the case of waking by timeout *)
    set_comp c (RT_COMPLETION_NEW_STAT 0 RT_UNCOMPLETED);; mret (Done RT_EOK []).

(** After [rt_schedule()] *)
Definition rt_completion_wait_resume (c : Z) : K outcome :=
  thread ← the_self;
  th ← get_thread thread;
  set_comp c (RT_COMPLETION_NEW_STAT 0 RT_UNCOMPLETED);;
  mret (Done (th_error th) []).

Definition _completion_done (c : Z) : K Z :=
  w ← get_comp c;
  if RT_COMPLETION_FLAG w =? RT_COMPLETED then mret (- RT_EBUSY) else
  let suspend_thread := RT_COMPLETION_THREAD w in
  error ← (if negb (suspend_thread =? 0) then rt_thread_resume suspend_thread
           else mret (- RT_EEMPTY));
  set_comp c (RT_COMPLETION_NEW_STAT 0 RT_COMPLETED);;
  mret error.

Definition rt_completion_done (c : Z) : K unit := _completion_done c;; mret tt.
Definition rt_completion_wakeup (c : Z) : K Z := _completion_done c.
