(* ===== verification/WaitQueue.v ===== *)
(** * Wait queues: src/components/drivers/ipc/waitqueue.c

    The nodes of a wait queue lie on the stacks of the threads that wait, or are added by
    a driver with a wake function of its own.  The queues and nodes are kept next to the
    kernel's store; the wake functions are a parameter and leave the list alone. *)

From stdpp Require Import gmap.
From S2P Require Import Prelude Kernel Timer Sched IpcList Thread.
Open Scope rt_scope.

(** ** Data *)

Definition RT_WQ_FLAG_CLEAN : Z := 0.
Definition RT_WQ_FLAG_WAKEUP : Z := 1.

(** [struct rt_wqueue]: the list holds the addresses of the nodes. *)
Record rt_wqueue := mkWq { wq_flag : Z; wq_list : list Z }.
#[export] Instance rt_wqueue_eta : EtaRec rt_wqueue := fun q => mkWq (wq_flag q) (wq_list q).

(** [wqueue] is 0 for RT_NULL, [wakeup] the address of a function. *)
Record rt_wqueue_node := mkWqNode { wn_thread : Z; wn_wqueue : Z; wn_wakeup : Z; wn_key : Z }.
#[export] Instance rt_wqueue_node_eta : EtaRec rt_wqueue_node := fun n => mkWqNode (wn_thread n) (wn_wqueue n) (wn_wakeup n) (wn_key n).

Record wq_store := mkWqStore { ws_kernel : kernel; ws_queues : gmap Z rt_wqueue; ws_nodes : gmap Z rt_wqueue_node }.
#[export] Instance wq_store_eta : EtaRec wq_store := fun w => mkWqStore (ws_kernel w) (ws_queues w) (ws_nodes w).

Abbreviation WQ := (st wq_store).

Definition in_kernel {A} (m : K A) : WQ A :=
  fun w => match m (ws_kernel w) with Some (x, k) => Some (x, w <| ws_kernel := k |>) | None => None end.
Definition get_queue (q : Z) : WQ rt_wqueue := w ← st_get; st_opt (ws_queues w !! q).
Definition upd_queue (q : Z) (f : rt_wqueue -> rt_wqueue) : WQ unit :=
  x ← get_queue q; st_modify (fun w => w <| ws_queues ::= <[q := f x]> |>).
Definition get_node (n : Z) : WQ rt_wqueue_node := w ← st_get; st_opt (ws_nodes w !! n).
Definition set_node (n : Z) (x : rt_wqueue_node) : WQ unit := st_modify (fun w => w <| ws_nodes ::= <[n := x]> |>).

(** [rt_list_insert_before] of the head and [rt_list_remove] of a node, wherever it is. *)
Definition wait_list_insert (q n : Z) : WQ unit := upd_queue q (fun x => x <| wq_list ::= (fun l => l ++ [n]) |>).
Definition wait_list_remove (n : Z) : WQ unit :=
  st_modify (fun w => w <| ws_queues ::= fmap (fun x => x <| wq_list ::= filter (fun y => y <> n) |>) |>).

(** ** Operations *)

Definition rt_wqueue_init (queue : Z) : WQ unit :=
  rt_assert (negb (queue =? 0));;
  st_modify (fun w => w <| ws_queues ::= <[queue := mkWq RT_WQ_FLAG_CLEAN []]> |>).

Definition rt_wqueue_add (queue node : Z) : WQ unit :=
  n ← get_node node;
  set_node node (n <| wn_wqueue := queue |>);;
  wait_list_insert queue node.

Definition rt_wqueue_remove (node : Z) : WQ unit :=
  n ← get_node node;
  rt_assert (negb (wn_wqueue n =? 0));;
  wait_list_remove node.

(** The address of the function that returns 0. *)
Definition __wqueue_default_wake : Z := 0.

Section Wake.
(** The other wake functions: [call f node key]. *)
Context (call : Z -> Z -> Z -> WQ Z).
Definition call_wakeup (f node key : Z) : WQ Z := if f =? __wqueue_default_wake then mret 0 else call f node key.

(** [entry->polling_thread->error = RT_EOK] and [rt_thread_resume]. *)
Definition resume_entry (entry : rt_wqueue_node) : WQ Z :=
  in_kernel (upd_thread (wn_thread entry) (fun th => th <| th_error := RT_EOK |>);; rt_thread_resume (wn_thread entry)).

(** The result is [need_schedule]. *)
Fixpoint wakeup_loop (nodes : list Z) (key : Z) : WQ bool :=
  match nodes with
  | [] => mret false
  | node :: nodes =>
      entry ← get_node node;
      r ← call_wakeup (wn_wakeup entry) node key;
      if r =? 0 then
        e ← resume_entry entry;
        if e =? 0 then wait_list_remove node;; mret true else wakeup_loop nodes key
      else wakeup_loop nodes key
  end.

Definition rt_wqueue_wakeup (queue key : Z) : WQ unit :=
  upd_queue queue (fun x => x <| wq_flag := RT_WQ_FLAG_WAKEUP |>);;
  q ← get_queue queue;
  need_schedule ← wakeup_loop (wq_list q) key;
  when need_schedule (in_kernel rt_schedule).

Fixpoint wakeup_all_loop (nodes : list Z) (key : Z) (need_schedule : bool) : WQ bool :=
  match nodes with
  | [] => mret need_schedule
  | node :: nodes =>
      entry ← get_node node;
      r ← call_wakeup (wn_wakeup entry) node key;
      if r =? 0 then
        e ← resume_entry entry;
        wakeup_all_loop nodes key (need_schedule || (e =? 0))
      else wakeup_all_loop nodes key need_schedule
  end.

Definition rt_wqueue_wakeup_all (queue key : Z) : WQ unit :=
  upd_queue queue (fun x => x <| wq_flag := RT_WQ_FLAG_WAKEUP |>);;
  q ← get_queue queue;
  need_schedule ← wakeup_all_loop (wq_list q) key false;
  when need_schedule (in_kernel rt_schedule).
End Wake.

(** ** Waiting *)

(** [None]: the thread sleeps behind [rt_schedule]. *)
Definition wait_result (tid : Z) : WQ (option Z) :=
  th ← in_kernel (get_thread tid);
  mret (Some (if 0 <? th_error th then - th_error th else th_error th)).

(** [wait]: the address of the node [__wait]. *)
Definition _rt_wqueue_wait (queue condition msec wait : Z) (suspend_flag : suspend_flag) : WQ (option Z) :=
  tid ← in_kernel the_self;
  (* current context checking *)
  in_kernel (RT_DEBUG_SCHEDULER_AVAILABLE true);;
  let tick := s32 (rt_tick_from_millisecond msec) in
  if negb (condition =? 0) || (tick =? 0) then mret (Some 0) else
  set_node wait (mkWqNode tid queue __wqueue_default_wake 0);;
  (* reset thread error *)
  in_kernel (upd_thread tid (fun th => th <| th_error := RT_EOK |>));;
  q ← get_queue queue;
  if wq_flag q =? RT_WQ_FLAG_WAKEUP then
    (* already wakeup *)
    upd_queue queue (fun x => x <| wq_flag := RT_WQ_FLAG_CLEAN |>);;
    rt_wqueue_remove wait;;
    wait_result tid
  else
    ret ← in_kernel (rt_thread_suspend_with_flag tid suspend_flag);
    if negb (ret =? RT_EOK) then (* suspend failed *) mret (Some (- RT_EINTR)) else
    wait_list_insert queue wait;;
    (* start timer *)
    when (negb (tick =? RT_WAITING_FOREVER)) (in_kernel (start_thread_timer tid tick));;
    in_kernel rt_schedule;;
    mret None.

(** After [rt_schedule()] *)
Definition wqueue_wait_resume (queue wait : Z) : WQ (option Z) :=
  tid ← in_kernel the_self;
  upd_queue queue (fun x => x <| wq_flag := RT_WQ_FLAG_CLEAN |>);;
  rt_wqueue_remove wait;;
  wait_result tid.

Definition rt_wqueue_wait (queue condition msec wait : Z) : WQ (option Z) := _rt_wqueue_wait queue condition msec wait RT_UNINTERRUPTIBLE.
Definition rt_wqueue_wait_killable (queue condition msec wait : Z) : WQ (option Z) := _rt_wqueue_wait queue condition msec wait RT_KILLABLE.
Definition rt_wqueue_wait_interruptible (queue condition msec wait : Z) : WQ (option Z) := _rt_wqueue_wait queue condition msec wait RT_INTERRUPTIBLE.
