(* ===== verification/RingBlk.v ===== *)
(** * Ring block buffers: src/components/drivers/ipc/ringblk_buf.c

    Blocks are allocated one behind the other in a buffer, filled, taken and released;
    their descriptors are in the list of the blocks in use or in the free list.  The
    lists are those of RtList.v, on cells for the two heads and the descriptors of
    [blk_set]; [None] is RT_NULL.  A failed assertion and a missing descriptor fail. *)

From S2P Require Import Prelude RtList.
Open Scope rt_scope.

Inductive rt_rbb_status := RT_RBB_BLK_UNUSED | RT_RBB_BLK_INITED | RT_RBB_BLK_PUT | RT_RBB_BLK_GET.
#[export] Instance rt_rbb_status_eq_dec : EqDecision rt_rbb_status.
Proof. solve_decision. Defined.

Record rt_rbb_blk := mkBlk { bk_status : rt_rbb_status; bk_size : Z; bk_buf : Z }.
#[export] Instance rt_rbb_blk_eta : EtaRec rt_rbb_blk := fun b => mkBlk (bk_status b) (bk_size b) (bk_buf b).

(** The list nodes: [&rbb->blk_list], [&rbb->free_list] and the [list] of a block. *)
Inductive node := BlkList | FreeList | Blk (i : Z).
#[export] Instance node_eq_dec : EqDecision node.
Proof. solve_decision. Defined.

Record rt_rbb := mkRbb {
  rbb_buf : Z;
  rbb_size : Z;                    (* buf_size *)
  rbb_max : Z;                     (* blk_max_num *)
  rbb_set : gmap Z rt_rbb_blk;     (* blk_set *)
  rbb_next : node -> option node;  (* the [next] of every node *)
  rbb_tail : node;
}.
#[export] Instance rt_rbb_eta : EtaRec rt_rbb :=
  fun r => mkRbb (rbb_buf r) (rbb_size r) (rbb_max r) (rbb_set r) (rbb_next r) (rbb_tail r).

Abbreviation RB := (st rt_rbb).

(** Enough for a walk along a list of blocks. *)
Definition rbb_fuel (r : rt_rbb) : nat := S (Z.to_nat (rbb_max r)).

Definition get_blk (i : Z) : RB rt_rbb_blk := r ← st_get; st_opt (rbb_set r !! i).
Definition upd_blk (i : Z) (f : rt_rbb_blk -> rt_rbb_blk) : RB unit :=
  b ← get_blk i; st_modify (fun r => r <| rbb_set ::= insert i (f b) |>).
(** [rt_slist_entry] *)
Definition entry (n : node) : RB Z := match n with Blk i => mret i | _ => st_fail end.
Definition next_of (n : node) : RB (option node) := st_gets (fun r => rbb_next r n).
Definition set_next (n : node) (x : option node) : RB unit := st_modify (fun r => r <| rbb_next ::= <[n := x]> |>).
Definition set_tail (n : node) : RB unit := st_modify (fun r => r <| rbb_tail := n |>).
Definition slist_insert (l n : node) : RB unit := st_modify (fun r => r <| rbb_next ::= rt_slist_insert l n |>).
Definition u24 (x : Z) : Z := x mod 2 ^ 24.

(** ** Set-up *)

Fixpoint rbb_init_loop (n : nat) (i : Z) : RB unit :=
  match n with
  | O => mret tt
  | S n =>
      upd_blk i (fun b => b <| bk_status := RT_RBB_BLK_UNUSED |>);;
      set_next (Blk i) None;;
      slist_insert FreeList (Blk i);;
      rbb_init_loop n (i + 1)
  end.

(** [block_set]: the memory of the descriptors. *)
Definition rt_rbb_init (buf buf_size : Z) (block_set : gmap Z rt_rbb_blk) (blk_max_num : Z) : RB unit :=
  rt_assert (negb (buf =? 0));;
  st_modify (fun r => r <| rbb_buf := buf |> <| rbb_size := buf_size |> <| rbb_set := block_set |>
    <| rbb_max := blk_max_num |> <| rbb_tail := BlkList |>);;
  set_next BlkList None;;
  set_next FreeList None;;
  rbb_init_loop (Z.to_nat blk_max_num) 0.

Definition find_empty_blk_in_set : RB (option Z) :=
  r ← st_get;
  if rt_slist_isempty FreeList (rbb_next r) then mret None else
  first ← st_opt (rt_slist_first FreeList (rbb_next r));
  blk ← entry first;
  h ← st_opt (rt_slist_remove (rbb_fuel r) FreeList (Blk blk) (rbb_next r));
  st_modify (fun r => r <| rbb_next := h |>);;
  b ← get_blk blk;
  rt_assert (bool_decide (bk_status b = RT_RBB_BLK_UNUSED));;
  mret (Some blk).

Definition list_append (n : node) : RB unit :=
  r ← st_get;
  (* append the node to the tail *)
  set_next (rbb_tail r) (Some n);;
  set_next n None;;
  (* save tail node *)
  set_tail n.

Definition list_remove (n : node) : RB unit :=
  r ← st_get;
  (* remove slist head *)
  node ← st_opt (slist_find (rbb_fuel r) BlkList n (rbb_next r));
  c ← next_of node;
  match c with
  | Some c =>
      (* remove node *)
      x ← next_of c;
      set_next node x;;
      set_next n None;;
      (* update tail node *)
      when (bool_decide (rbb_tail r = n)) (set_tail node)
  | None => mret tt
  end.

(** ** Blocks *)

(** The descriptor of a new block goes to the end of the list. *)
Definition take_blk (blk buf size : Z) : RB (option Z) :=
  list_append (Blk blk);;
  upd_blk blk (fun b => b <| bk_status := RT_RBB_BLK_INITED |>);;
  upd_blk blk (fun b => b <| bk_buf := buf |>);;
  upd_blk blk (fun b => b <| bk_size := u24 size |>);;
  mret (Some blk).

(** The place of the block [new_rbb]. *)
Definition alloc_in (new_rbb blk_size : Z) : RB (option Z) :=
  r ← st_get;
  if negb (rt_slist_isempty BlkList (rbb_next r)) then
    first ← st_opt (rt_slist_first BlkList (rbb_next r));
    head ← entry first; head ← get_blk head;
    (* get tail rbb blk object *)
    tail ← entry (rbb_tail r); tail ← get_blk tail;
    let tail_end := bk_buf tail + bk_size tail in
    if bk_buf head <=? bk_buf tail then
      let empty1 := u32 ((rbb_buf r + rbb_size r) - tail_end) in
      let empty2 := u32 (bk_buf head - rbb_buf r) in
      if blk_size <=? empty1 then take_blk new_rbb tail_end blk_size
      else if blk_size <=? empty2 then take_blk new_rbb (rbb_buf r) blk_size
      else mret None (* no space *)
    else
      let empty1 := u32 (bk_buf head - tail_end) in
      if blk_size <=? empty1 then take_blk new_rbb tail_end blk_size
      else mret None (* no space *)
  else
    (* the list is empty *)
    take_blk new_rbb (rbb_buf r) blk_size.

Definition rt_rbb_blk_alloc (blk_size : Z) : RB (option Z) :=
  rt_assert (blk_size <? 2 ^ 24);;
  new_rbb ← find_empty_blk_in_set;
  match new_rbb with
  | Some new_rbb => alloc_in new_rbb blk_size
  | None => mret None
  end.

Definition rt_rbb_blk_put (block : Z) : RB unit :=
  b ← get_blk block;
  rt_assert (bool_decide (bk_status b = RT_RBB_BLK_INITED));;
  upd_blk block (fun b => b <| bk_status := RT_RBB_BLK_PUT |>).

Fixpoint blk_get_loop (fuel : nat) (node : option node) : RB (option Z) :=
  match node, fuel with
  | None, _ => mret None
  | Some _, O => st_fail
  | Some n, S fuel =>
      block ← entry n; b ← get_blk block;
      if bool_decide (bk_status b = RT_RBB_BLK_PUT) then
        upd_blk block (fun b => b <| bk_status := RT_RBB_BLK_GET |>);; mret (Some block)
      else x ← next_of n; blk_get_loop fuel x
  end.

Definition rt_rbb_blk_get : RB (option Z) :=
  r ← st_get;
  if rt_slist_isempty BlkList (rbb_next r) then mret None
  else blk_get_loop (rbb_fuel r) (rt_slist_first BlkList (rbb_next r)).

Definition rt_rbb_blk_size (block : Z) : RB Z := b ← get_blk block; mret (bk_size b).
Definition rt_rbb_blk_buf (block : Z) : RB Z := b ← get_blk block; mret (bk_buf b).

Definition rt_rbb_blk_free (block : Z) : RB unit :=
  b ← get_blk block;
  rt_assert (negb (bool_decide (bk_status b = RT_RBB_BLK_UNUSED)));;
  (* remove it on rbb block list *)
  list_remove (Blk block);;
  upd_blk block (fun b => b <| bk_status := RT_RBB_BLK_UNUSED |>);;
  slist_insert FreeList (Blk block).

(** ** Queues of blocks *)

Record rt_rbb_blk_queue := mkQueue { bq_blocks : option Z; bq_num : Z }.

(** The loop of [rt_rbb_blk_queue_get].  Behind the last node the code reads the
    [next] of RT_NULL, whose value is not used. *)
Fixpoint queue_get_loop (fuel : nat) (node : option node) (last_block : option Z) (total queue_data_len : Z)
    (q : rt_rbb_blk_queue) : RB (Z * rt_rbb_blk_queue) :=
  match node, fuel with
  | None, _ => mret (total, q)
  | Some _, O => st_fail
  | Some n, S fuel =>
      x ← next_of n;
      block ← entry n; b ← get_blk block;
      match last_block with
      | None =>
          if bool_decide (bk_status b = RT_RBB_BLK_PUT) then
            (* save the first put status block to queue *)
            upd_blk block (fun b => b <| bk_status := RT_RBB_BLK_GET |>);;
            queue_get_loop fuel x (Some block) (u32 (total + bk_size b)) queue_data_len (mkQueue (Some block) 1)
          else
            (* the first block must be put status *)
            queue_get_loop fuel x None total queue_data_len q
      | Some last_block =>
          last ← get_blk last_block;
          (* these following conditions will break the loop *)
          if negb (bool_decide (bk_status b = RT_RBB_BLK_PUT)) || (bk_buf b <? bk_buf last) ||
             (queue_data_len <? u32 (total + bk_size b))
          then mret (total, q)
          else
            (* backup last block *)
            upd_blk block (fun b => b <| bk_status := RT_RBB_BLK_GET |>);;
            queue_get_loop fuel x (Some block) (u32 (total + bk_size b)) queue_data_len (mkQueue (bq_blocks q) (u32 (bq_num q + 1)))
      end
  end.

(** [q]: what [*blk_queue] holds before. *)
Definition rt_rbb_blk_queue_get (queue_data_len : Z) (q : rt_rbb_blk_queue) : RB (Z * rt_rbb_blk_queue) :=
  r ← st_get;
  if rt_slist_isempty BlkList (rbb_next r) then mret (0, q)
  else queue_get_loop (rbb_fuel r) (rt_slist_first BlkList (rbb_next r)) None 0 queue_data_len q.

Definition entry_opt (n : option node) : option Z := match n with Some (Blk i) => Some i | _ => None end.

Fixpoint queue_len_loop (n : nat) (blk : option Z) (total : Z) : RB Z :=
  match n with
  | O => mret total
  | S n =>
      i ← st_opt blk; b ← get_blk i; x ← next_of (Blk i);
      queue_len_loop n (entry_opt x) (u32 (total + bk_size b))
  end.
Definition rt_rbb_blk_queue_len (q : rt_rbb_blk_queue) : RB Z := queue_len_loop (Z.to_nat (bq_num q)) (bq_blocks q) 0.

Definition rt_rbb_blk_queue_buf (q : rt_rbb_blk_queue) : RB Z :=
  i ← st_opt (bq_blocks q); b ← get_blk i; mret (bk_buf b).

Fixpoint queue_free_loop (n : nat) (blk : option Z) : RB unit :=
  match n with
  | O => mret tt
  | S n =>
      i ← st_opt blk; x ← next_of (Blk i);
      rt_rbb_blk_free i;;
      queue_free_loop n (entry_opt x)
  end.
Definition rt_rbb_blk_queue_free (q : rt_rbb_blk_queue) : RB unit := queue_free_loop (Z.to_nat (bq_num q)) (bq_blocks q).

Fixpoint next_queue_len_loop (fuel : nat) (node : option node) (last_block : option Z) (data_len : Z) : RB Z :=
  match node, fuel with
  | None, _ => mret data_len
  | Some _, O => st_fail
  | Some n, S fuel =>
      x ← next_of n;
      block ← entry n; b ← get_blk block;
      match last_block with
      | None =>
          if negb (bool_decide (bk_status b = RT_RBB_BLK_PUT)) then next_queue_len_loop fuel x None data_len
          else next_queue_len_loop fuel x (Some block) (u32 (data_len + bk_size b))
      | Some last_block =>
          last ← get_blk last_block;
          if negb (bool_decide (bk_status b = RT_RBB_BLK_PUT)) || (bk_buf b <? bk_buf last) then mret data_len
          else next_queue_len_loop fuel x (Some block) (u32 (data_len + bk_size b))
      end
  end.
Definition rt_rbb_next_blk_queue_len : RB Z :=
  r ← st_get;
  if rt_slist_isempty BlkList (rbb_next r) then mret 0
  else next_queue_len_loop (rbb_fuel r) (rt_slist_first BlkList (rbb_next r)) None 0.

Definition rt_rbb_get_buf_size : RB Z := st_gets rbb_size.

(** [rt_rbb_create], given what the three calls of [rt_malloc] return; [true] is that
    the ring block buffer exists. *)
Definition rt_rbb_create (rbb buf : option Z) (blk_set : option (gmap Z rt_rbb_blk)) (buf_size blk_max_num : Z) : RB bool :=
  match rbb, buf, blk_set with
  | Some _, Some buf, Some set => rt_rbb_init buf buf_size set blk_max_num;; mret true
  | _, _, _ => mret false
  end.
