(* ===== verification/Object.v ===== *)
(** * Kernel objects: src/src/object.c

    The containers of the kernel's objects.  The name, type and flag of an object are
    bytes of a memory at the object's address; its list node is a cell of the heap of
    RtList.v.  The containers are those of the board's configuration; hooks are left
    out, and a container's spin lock is outside the operation. *)

From S2P Require Import Prelude Kernel RtList Bytes KString.
Open Scope rt_scope.

(** ** Data *)

(** [enum rt_object_class_type] *)
Definition RT_Object_Class_Null : Z := 0.
Definition RT_Object_Class_Custom : Z := 16.
Definition RT_Object_Class_Static : Z := 128.

Inductive rt_object_info_type :=
  RT_Object_Info_Thread | RT_Object_Info_Semaphore | RT_Object_Info_Mutex | RT_Object_Info_Event | RT_Object_Info_MailBox |
  RT_Object_Info_MessageQueue | RT_Object_Info_MemPool | RT_Object_Info_Device | RT_Object_Info_Timer | RT_Object_Info_Memory |
  RT_Object_Info_Custom.
#[export] Instance rt_object_info_type_eq_dec : EqDecision rt_object_info_type.
Proof. solve_decision. Defined.

(** The [type] of the elements of [_object_container]. *)
Definition _object_container : list (rt_object_info_type * Z) :=
  [(RT_Object_Info_Thread, 1); (RT_Object_Info_Semaphore, 2); (RT_Object_Info_Mutex, 3); (RT_Object_Info_Event, 4);
   (RT_Object_Info_MailBox, 5); (RT_Object_Info_MessageQueue, 6); (RT_Object_Info_MemPool, 8); (RT_Object_Info_Device, 9);
   (RT_Object_Info_Timer, 10); (RT_Object_Info_Memory, 12); (RT_Object_Info_Custom, RT_Object_Class_Custom)].

(** [&information->object_list] and [&object->list]. *)
Inductive node := Info (i : rt_object_info_type) | Obj (a : Z).
#[export] Instance node_eq_dec : EqDecision node.
Proof. solve_decision. Defined.

Record rt_custom_object := mkCustom { cu_destroy : option Z; cu_data : Z }.

Record registry := mkRegistry {
  rg_mem : bytes;
  rg_list : node -> rt_list_node node;
  rg_custom : gmap Z rt_custom_object;
  rg_nest : Z;   (* rt_interrupt_get_nest() *)
}.
#[export] Instance registry_eta : EtaRec registry := fun r => mkRegistry (rg_mem r) (rg_list r) (rg_custom r) (rg_nest r).

Abbreviation RG := (st registry).

Definition RT_NAME_MAX : Z := 8.
(** The places of [name], [type] and [flag] in [struct rt_object]. *)
Definition ob_name (a : Z) : Z := a.
Definition ob_type (a : Z) : Z := a + 8.
Definition ob_flag (a : Z) : Z := a + 9.

Definition in_mem {A} (c : BM A) : RG A :=
  fun r => match c (rg_mem r) with Some (x, m) => Some (x, r <| rg_mem := m |>) | None => None end.
Definition links (f : (node -> rt_list_node node) -> node -> rt_list_node node) : RG unit := st_modify (fun r => r <| rg_list ::= f |>).
Definition next_node (n : node) : RG node := st_gets (fun r => next (rg_list r n)).
(** [rt_list_entry] *)
Definition entry (n : node) : RG Z := match n with Obj a => mret a | Info _ => st_fail end.
Definition not_in_interrupt : RG unit := r ← st_get; rt_assert (rg_nest r =? 0).

(** An object of a list has bytes of its own. *)
Definition reg_fuel (r : registry) : nat := S (size (rg_mem r)).

(** ** Containers *)

Definition rt_object_get_information (type : Z) : option rt_object_info_type :=
  let type := Z.land type (Z.lnot RT_Object_Class_Static) in
  fst <$> List.find (fun e => e.2 =? type) _object_container.

(** [rt_list_for_each] *)
Fixpoint get_length_loop (fuel : nat) (head node : node) (count : Z) : RG Z :=
  if bool_decide (node = head) then mret count else
  match fuel with
  | O => st_fail
  | S fuel => x ← next_node node; get_length_loop fuel head x (s32 (count + 1))
  end.
Definition rt_object_get_length (type : Z) : RG Z :=
  match rt_object_get_information type with
  | None => mret 0
  | Some i => r ← st_get; x ← next_node (Info i); get_length_loop (reg_fuel r) (Info i) x 0
  end.

(** The result is the array [pointers] up to the returned index. *)
Fixpoint get_pointers_loop (fuel : nat) (head node : node) (pointers : list Z) (maxlen : Z) : RG (list Z) :=
  if bool_decide (node = head) then mret pointers else
  match fuel with
  | O => st_fail
  | S fuel =>
      object ← entry node;
      let pointers := pointers ++ [object] in
      if maxlen <=? Z.of_nat (length pointers) then mret pointers
      else x ← next_node node; get_pointers_loop fuel head x pointers maxlen
  end.
Definition rt_object_get_pointers (type maxlen : Z) : RG (list Z) :=
  if maxlen <=? 0 then mret [] else
  match rt_object_get_information type with
  | None => mret []
  | Some i => r ← st_get; x ← next_node (Info i); get_pointers_loop (reg_fuel r) (Info i) x [] maxlen
  end.

(** ** Objects *)

(** The check for re-initialisation. *)
Fixpoint check_new_loop (fuel : nat) (head node : node) (object : Z) : RG unit :=
  if bool_decide (node = head) then mret tt else
  match fuel with
  | O => st_fail
  | S fuel =>
      obj ← entry node;
      rt_assert (negb (obj =? object));;
      x ← next_node node; check_new_loop fuel head x object
  end.

Definition rt_object_init (object type name : Z) : RG unit :=
  i ← st_opt (rt_object_get_information type);
  r ← st_get; x ← next_node (Info i);
  check_new_loop (reg_fuel r) (Info i) x object;;
  (* set object type to static *)
  in_mem (sb (ob_type object) (u8 (Z.lor type RT_Object_Class_Static)));;
  in_mem (rt_strncpy (ob_name object) name RT_NAME_MAX);;
  (* insert object into information object list *)
  links (rt_list_insert_after (Info i) (Obj object)).

Definition rt_object_detach (object : Z) : RG unit :=
  rt_assert (negb (object =? 0));;
  type ← in_mem (ld (ob_type object));
  _ ← st_opt (rt_object_get_information type);
  (* remove from old list *)
  links (rt_list_remove (Obj object));;
  in_mem (sb (ob_type object) 0).

Section Heap.
(** [information->object_size] *)
Context (object_size : rt_object_info_type -> Z).

(** [object]: what RT_KERNEL_MALLOC returns. *)
Definition rt_object_allocate (type name : Z) (object : option Z) : RG (option Z) :=
  not_in_interrupt;;
  i ← st_opt (rt_object_get_information type);
  match object with
  | None => mret None (* no memory can be allocated *)
  | Some object =>
      (* clean memory data of object *)
      in_mem (rt_memset object 0 (object_size i));;
      in_mem (sb (ob_type object) (u8 type));;
      in_mem (sb (ob_flag object) 0);;
      in_mem (rt_strncpy (ob_name object) name (RT_NAME_MAX - 1));;
      links (rt_list_insert_after (Info i) (Obj object));;
      mret (Some object)
  end.

(** RT_KERNEL_FREE of the object is outside. *)
Definition rt_object_delete (object : Z) : RG unit :=
  rt_assert (negb (object =? 0));;
  type ← in_mem (ld (ob_type object));
  rt_assert (Z.land type RT_Object_Class_Static =? 0);;
  _ ← st_opt (rt_object_get_information type);
  (* remove from old list *)
  links (rt_list_remove (Obj object));;
  (* reset object type *)
  in_mem (sb (ob_type object) RT_Object_Class_Null).

Definition rt_object_is_systemobject (object : Z) : RG bool :=
  rt_assert (negb (object =? 0));;
  type ← in_mem (ld (ob_type object));
  mret (negb (Z.land type RT_Object_Class_Static =? 0)).

Definition rt_object_get_type (object : Z) : RG Z :=
  rt_assert (negb (object =? 0));;
  type ← in_mem (ld (ob_type object));
  mret (u8 (Z.land type (Z.lnot RT_Object_Class_Static))).

Fixpoint find_loop (fuel : nat) (head node : node) (name : Z) : RG (option Z) :=
  if bool_decide (node = head) then mret None else
  match fuel with
  | O => st_fail
  | S fuel =>
      object ← entry node;
      c ← in_mem (rt_strncmp (ob_name object) name RT_NAME_MAX);
      if c =? 0 then mret (Some object)
      else x ← next_node node; find_loop fuel head x name
  end.
Definition rt_object_find (name type : Z) : RG (option Z) :=
  match rt_object_get_information type with
  | None => mret None
  | Some i =>
      if name =? 0 then mret None else
      not_in_interrupt;;
      r ← st_get; x ← next_node (Info i);
      find_loop (reg_fuel r) (Info i) x name
  end.

Definition rt_object_get_name (object name name_size : Z) : RG Z :=
  if negb (object =? 0) && negb (name =? 0) && negb (name_size =? 0) then
    in_mem (rt_strncpy name (ob_name object) name_size);; mret RT_EOK
  else mret (- RT_EINVAL).

(** ** Custom objects *)

Definition rt_custom_object_create (name data : Z) (data_destroy : option Z) (object : option Z) : RG (option Z) :=
  cobj ← rt_object_allocate RT_Object_Class_Custom name object;
  match cobj with
  | None => mret None
  | Some cobj => st_modify (fun r => r <| rg_custom ::= <[cobj := mkCustom data_destroy data]> |>);; mret (Some cobj)
  end.

(** [call f d]: what the callback [f] returns for [d]. *)
Definition rt_custom_object_destroy (call : Z -> Z -> Z) (obj : Z) : RG Z :=
  if obj =? 0 then mret (-1) else
  type ← in_mem (ld (ob_type obj));
  if type =? RT_Object_Class_Custom then
    r ← st_get;
    cobj ← st_opt (rg_custom r !! obj);
    let ret := match cu_destroy cobj with Some f => call f (cu_data cobj) | None => -1 end in
    rt_object_delete obj;;
    mret ret
  else mret (-1).
End Heap.
