(* ===== verification/Device.v ===== *)
(** * Devices: src/components/drivers/core/device.c

    Registering, finding, opening and closing devices.  The [struct rt_object] of a
    device is in the registry of Object.v, its other fields are a record.  A function
    pointer is an integer; what the functions of the drivers do is a parameter here, and
    Serial.v has those of the serial driver. *)

From stdpp Require Import gmap.
From S2P Require Import Prelude Kernel Bytes KString Object.
Open Scope rt_scope.

(** ** Data *)

Definition RT_Object_Class_Device : Z := 9.
Definition RT_ENOSYS : Z := 6.

Definition RT_DEVICE_FLAG_STANDALONE : Z := 8.
Definition RT_DEVICE_FLAG_ACTIVATED : Z := 16.
Definition RT_DEVICE_OFLAG_CLOSE : Z := 0.
Definition RT_DEVICE_OFLAG_OPEN : Z := 8.
Definition RT_DEVICE_OFLAG_MASK : Z := 3855.   (* 0xf0f *)

Record rt_device := mkDevice {
  dv_type : Z; dv_flag : Z; dv_open_flag : Z; dv_ref_count : Z; dv_device_id : Z;
  dv_rx_indicate : option Z; dv_tx_complete : option Z;
  dv_init : option Z; dv_open : option Z; dv_close : option Z; dv_read : option Z; dv_write : option Z; dv_control : option Z;
  dv_readlink : option Z; dv_user_data : Z;
}.
#[export] Instance rt_device_eta : EtaRec rt_device :=
  fun d => mkDevice (dv_type d) (dv_flag d) (dv_open_flag d) (dv_ref_count d) (dv_device_id d) (dv_rx_indicate d) (dv_tx_complete d)
    (dv_init d) (dv_open d) (dv_close d) (dv_read d) (dv_write d) (dv_control d) (dv_readlink d) (dv_user_data d).

(** What [struct rt_serial_device] has behind its [struct rt_device].  A buffer belongs to
    the one device that points to it, so [serial_rx] and [serial_tx] hold the buffers
    themselves; [None] is RT_NULL. *)
Record rt_serial_rx_fifo := mkRxFifo { rf_buffer : list Z; rf_put_index : Z; rf_get_index : Z; rf_is_full : bool }.
Inductive serial_rx_buffer := RxFifo (f : rt_serial_rx_fifo) | RxDma (activated : bool).
Inductive serial_tx_buffer := TxFifo | TxDma (activated : bool).
Record rt_serial_device := mkSerial {
  config_bufsz : Z;
  serial_rx : option serial_rx_buffer;
  serial_tx : option serial_tx_buffer;
  rx_notify : option Z;
}.
#[export] Instance rt_serial_rx_fifo_eta : EtaRec rt_serial_rx_fifo := fun f => mkRxFifo (rf_buffer f) (rf_put_index f) (rf_get_index f) (rf_is_full f).
#[export] Instance rt_serial_device_eta : EtaRec rt_serial_device :=
  fun x => mkSerial (config_bufsz x) (serial_rx x) (serial_tx x) (rx_notify x).

Record devices := mkDevices {
  ds_reg : registry;
  ds_dev : gmap Z rt_device;
  ds_errno : Z;   (* what rt_set_errno sets for the caller *)
  ds_serial : gmap Z rt_serial_device;   (* the serial devices among them *)
  ds_hw : list Z;   (* the state of the hardware below the drivers *)
}.
#[export] Instance devices_eta : EtaRec devices := fun s => mkDevices (ds_reg s) (ds_dev s) (ds_errno s) (ds_serial s) (ds_hw s).

Abbreviation DV := (st devices).

Definition in_reg {A} (c : RG A) : DV A :=
  fun s => match c (ds_reg s) with Some (x, r) => Some (x, s <| ds_reg := r |>) | None => None end.
Definition get_dev (dev : Z) : DV rt_device := s ← st_get; st_opt (ds_dev s !! dev).
Definition upd_dev (dev : Z) (f : rt_device -> rt_device) : DV unit :=
  d ← get_dev dev; st_modify (fun s => s <| ds_dev ::= <[dev := f d]> |>).
Definition rt_set_errno (error : Z) : DV unit := st_modify (fun s => s <| ds_errno := error |>).

(** The functions of the drivers; the first argument is the pointer that is called. *)
Record drivers := mkDrivers {
  call_init : Z -> Z -> DV Z;
  call_open : Z -> Z -> Z -> DV Z;
  call_close : Z -> Z -> DV Z;
  call_read : Z -> Z -> Z -> Z -> Z -> DV Z;
  call_write : Z -> Z -> Z -> Z -> Z -> DV Z;
  call_control : Z -> Z -> Z -> Z -> DV Z;
}.

Definition assert_device (dev : Z) : DV unit :=
  rt_assert (negb (dev =? 0));;
  type ← in_reg (rt_object_get_type dev);
  rt_assert (type =? RT_Object_Class_Device).

(** ** Registering *)

Definition rt_device_find (name : Z) : DV (option Z) := in_reg (rt_object_find name RT_Object_Class_Device).

Definition rt_device_register (dev name flags : Z) : DV Z :=
  if dev =? 0 then mret (- RT_ERROR) else
  found ← rt_device_find name;
  match found with
  | Some _ => mret (- RT_ERROR)
  | None =>
      in_reg (rt_object_init dev RT_Object_Class_Device name);;
      upd_dev dev (fun d => d <| dv_flag := flags |> <| dv_ref_count := 0 |> <| dv_open_flag := 0 |>);;
      mret RT_EOK
  end.

Definition rt_device_unregister (dev : Z) : DV Z :=
  assert_device dev;;
  system ← in_reg (rt_object_is_systemobject dev);
  rt_assert system;;
  in_reg (rt_object_detach dev);;
  mret RT_EOK.

(** [malloc]: rt_malloc.  [sizeof]: of [struct rt_device]. *)
Definition rt_device_create (sizeof : Z) (malloc : Z -> option Z) (type attach_size : Z) : DV (option Z) :=
  let size := s32 (RT_ALIGN sizeof RT_ALIGN_SIZE) in
  let attach_size := s32 (RT_ALIGN (u32 attach_size) RT_ALIGN_SIZE) in
  (* use the total size *)
  let size := s32 (size + attach_size) in
  match malloc (u32 size) with
  | None => mret None
  | Some device =>
      in_reg (in_mem (rt_memset device 0 sizeof));;
      st_modify (fun s => s <| ds_dev ::= <[device := mkDevice type 0 0 0 0 None None None None None None None None None 0]> |>);;
      mret (Some device)
  end.

(** The memory goes back to the heap. *)
Definition rt_device_destroy (dev : Z) : DV unit :=
  assert_device dev;;
  system ← in_reg (rt_object_is_systemobject dev);
  rt_assert (negb system);;
  in_reg (rt_object_detach dev);;
  st_modify (fun s => s <| ds_dev ::= delete dev |>).

Section Drivers.
Context (drv : drivers).

(** ** Opening and closing *)

Definition flag_set (x flag : Z) : bool := negb (Z.land x flag =? 0).
Definition activate (dev : Z) : DV unit := upd_dev dev (fun d => d <| dv_flag ::= (fun x => Z.lor x RT_DEVICE_FLAG_ACTIVATED) |>).

Definition rt_device_init (dev : Z) : DV Z :=
  rt_assert (negb (dev =? 0));;
  (* get device_init handler *)
  d ← get_dev dev;
  match dv_init d with
  | Some f =>
      if negb (flag_set (dv_flag d) RT_DEVICE_FLAG_ACTIVATED) then
        result ← call_init drv f dev;
        if negb (result =? RT_EOK) then mret result
        else activate dev;; mret result
      else mret RT_EOK
  | None => mret RT_EOK
  end.

(** The end of [rt_device_open]. *)
Definition open_result (dev result : Z) : DV Z :=
  (* set open flag *)
  when ((result =? RT_EOK) || (result =? - RT_ENOSYS)) (
    upd_dev dev (fun d => d <| dv_open_flag ::= (fun x => Z.lor x RT_DEVICE_OFLAG_OPEN) |>);;
    upd_dev dev (fun d => d <| dv_ref_count ::= (fun x => u8 (x + 1)) |>);;
    (* don't let bad things happen silently. If you are bitten by this assert, please set the ref_count to a bigger type. *)
    d ← get_dev dev;
    rt_assert (negb (dv_ref_count d =? 0)));;
  mret result.

(** The part of [rt_device_open] behind the activation. *)
Definition open_active (dev oflag : Z) : DV Z :=
  d ← get_dev dev;
  (* device is a standalone device and already opened *)
  if flag_set (dv_flag d) RT_DEVICE_FLAG_STANDALONE && flag_set (dv_open_flag d) RT_DEVICE_OFLAG_OPEN then mret (- RT_EBUSY) else
  (* device is not opened or opened by other oflag, call device_open interface *)
  result ←
    (if negb (flag_set (dv_open_flag d) RT_DEVICE_OFLAG_OPEN) ||
        negb (Z.land (dv_open_flag d) RT_DEVICE_OFLAG_MASK =? Z.land oflag RT_DEVICE_OFLAG_MASK) then
       match dv_open d with
       | Some f => call_open drv f dev oflag
       | None =>
           (* set open flag *)
           upd_dev dev (fun d => d <| dv_open_flag := Z.land oflag RT_DEVICE_OFLAG_MASK |>);; mret RT_EOK
       end
     else mret RT_EOK);
  open_result dev result.

Definition rt_device_open (dev oflag : Z) : DV Z :=
  assert_device dev;;
  (* if device is not initialized, initialize it. *)
  d ← get_dev dev;
  if negb (flag_set (dv_flag d) RT_DEVICE_FLAG_ACTIVATED) then
    result ← match dv_init d with Some f => call_init drv f dev | None => mret RT_EOK end;
    if negb (result =? RT_EOK) then mret result
    else activate dev;; open_active dev oflag
  else open_active dev oflag.

Definition rt_device_close (dev : Z) : DV Z :=
  assert_device dev;;
  d ← get_dev dev;
  if dv_ref_count d =? 0 then mret (- RT_ERROR) else
  upd_dev dev (fun d => d <| dv_ref_count ::= (fun x => u8 (x - 1)) |>);;
  d ← get_dev dev;
  if negb (dv_ref_count d =? 0) then mret RT_EOK else
  (* call device_close interface *)
  result ← match dv_close d with Some f => call_close drv f dev | None => mret RT_EOK end;
  (* set open flag *)
  when ((result =? RT_EOK) || (result =? - RT_ENOSYS)) (upd_dev dev (fun d => d <| dv_open_flag := RT_DEVICE_OFLAG_CLOSE |>));;
  mret result.

(** ** Using *)

Definition rt_device_read (dev pos buffer size : Z) : DV Z :=
  assert_device dev;;
  d ← get_dev dev;
  if dv_ref_count d =? 0 then rt_set_errno (- RT_ERROR);; mret 0 else
  (* call device_read interface *)
  match dv_read d with
  | Some f => call_read drv f dev pos buffer size
  | None => (* set error code *) rt_set_errno (- RT_ENOSYS);; mret 0
  end.

Definition rt_device_write (dev pos buffer size : Z) : DV Z :=
  assert_device dev;;
  d ← get_dev dev;
  if dv_ref_count d =? 0 then rt_set_errno (- RT_ERROR);; mret 0 else
  (* call device_write interface *)
  match dv_write d with
  | Some f => call_write drv f dev pos buffer size
  | None => (* set error code *) rt_set_errno (- RT_ENOSYS);; mret 0
  end.

Definition rt_device_control (dev cmd arg : Z) : DV Z :=
  assert_device dev;;
  d ← get_dev dev;
  (* call device_control interface *)
  match dv_control d with
  | Some f => call_control drv f dev cmd arg
  | None => mret (- RT_ENOSYS)
  end.

Definition rt_device_set_rx_indicate (dev : Z) (rx_ind : option Z) : DV Z :=
  assert_device dev;; upd_dev dev (fun d => d <| dv_rx_indicate := rx_ind |>);; mret RT_EOK.

Definition rt_device_set_tx_complete (dev : Z) (tx_done : option Z) : DV Z :=
  assert_device dev;; upd_dev dev (fun d => d <| dv_tx_complete := tx_done |>);; mret RT_EOK.
End Drivers.
