(* ===== verification/Serial.v ===== *)
(** * The serial driver: src/components/drivers/serial/serial.c

    The functions that [rt_hw_serial_register] installs, as the board configures them
    (RT_USING_SERIAL_V1 and RT_SERIAL_USING_DMA, neither the POSIX layer nor pin control).
    The operations of the UART and the heap are parameters. *)

From stdpp Require Import gmap.
From S2P Require Import Prelude Kernel Bytes KString Object Device.
Open Scope rt_scope.

Definition RT_EIO : Z := 8.
Definition RT_DEVICE_FLAG_STREAM : Z := 64.
Definition RT_DEVICE_FLAG_INT_RX : Z := 256.
Definition RT_DEVICE_FLAG_DMA_RX : Z := 512.
Definition RT_DEVICE_FLAG_INT_TX : Z := 1024.
Definition RT_DEVICE_FLAG_DMA_TX : Z := 2048.
Definition RT_DEVICE_CTRL_CONFIG : Z := 3.
Definition RT_DEVICE_CTRL_CLOSE : Z := 4.
Definition RT_DEVICE_CTRL_SET_INT : Z := 6.
Definition RT_DEVICE_CTRL_CLR_INT : Z := 7.
Definition RT_SERIAL_DMA_RX : Z := 1.

(** [struct rt_uart_ops]; the first argument is the serial device. *)
Record rt_uart_ops := mkUartOps {
  op_configure : option (Z -> DV Z);
  op_control : Z -> Z -> Z -> DV Z;
  op_putc : Z -> Z -> DV Z;
  op_getc : Z -> DV Z;
  op_dma_transmit : Z -> Z -> Z -> Z -> DV Z;
}.

(** What the interrupt calls at its end: the function of [rx_notify] or [rx_indicate] with
    the number of characters. *)
Inductive indication := Notify (f : Z) | RxIndicate (f rx_length : Z).

(** What [rt_malloc] is asked for. *)
Inductive serial_block := rx_fifo_block | rx_dma_block | tx_fifo_block | tx_dma_block.

Definition not_null {A} (p : option A) : bool := match p with Some _ => true | None => false end.
Definition get_serial (dev : Z) : DV rt_serial_device := s ← st_get; st_opt (ds_serial s !! dev).
Definition upd_serial (dev : Z) (f : rt_serial_device -> rt_serial_device) : DV unit :=
  x ← get_serial dev; st_modify (fun s => s <| ds_serial ::= <[dev := f x]> |>).
Definition or_open_flag (dev flag : Z) : DV unit := upd_dev dev (fun d => d <| dv_open_flag ::= (fun x => Z.lor x flag) |>).
Definition clear_open_flag (dev flag : Z) : DV unit := upd_dev dev (fun d => d <| dv_open_flag ::= (fun x => Z.ldiff x flag) |>).

Section Serial.
Context (ops : rt_uart_ops) (malloc : Z -> option Z) (sizeof : serial_block -> Z).

Definition rt_serial_init (dev : Z) : DV Z :=
  rt_assert (negb (dev =? 0));;
  (* initialize rx/tx *)
  upd_serial dev (fun x => x <| serial_rx := None |>);;
  upd_serial dev (fun x => x <| serial_tx := None |>);;
  upd_serial dev (fun x => x <| rx_notify := None |>);;
  (* apply configuration *)
  match op_configure ops with Some configure => configure dev | None => mret RT_EOK end.

(** A block of the heap; its address is not used. *)
Definition alloc_block (size : Z) : DV unit := rt_assert (not_null (malloc (u32 size))).

Definition new_rx_fifo (dev : Z) : DV unit :=
  x ← get_serial dev;
  alloc_block (sizeof rx_fifo_block + config_bufsz x);;
  upd_serial dev (fun x => x <| serial_rx := Some (RxFifo (mkRxFifo (replicate (Z.to_nat (config_bufsz x)) 0) 0 0 false)) |>).

(** Initialize the Rx structure according to the open flag *)
Definition open_rx (dev oflag : Z) : DV unit :=
  x ← get_serial dev;
  match serial_rx x with
  | None =>
      if flag_set oflag RT_DEVICE_FLAG_INT_RX then
        new_rx_fifo dev;;
        or_open_flag dev RT_DEVICE_FLAG_INT_RX;;
        (* configure low level device *)
        op_control ops dev RT_DEVICE_CTRL_SET_INT RT_DEVICE_FLAG_INT_RX;;
        mret tt
      else if flag_set oflag RT_DEVICE_FLAG_DMA_RX then
        (if config_bufsz x =? 0 then
           alloc_block (sizeof rx_dma_block);;
           upd_serial dev (fun x => x <| serial_rx := Some (RxDma false) |>)
         else
           new_rx_fifo dev;;
           (* configure fifo address and length to low level device *)
           op_control ops dev RT_DEVICE_CTRL_CONFIG RT_DEVICE_FLAG_DMA_RX;;
           mret tt);;
        or_open_flag dev RT_DEVICE_FLAG_DMA_RX
      else upd_serial dev (fun x => x <| serial_rx := None |>)
  | Some _ =>
      if flag_set oflag RT_DEVICE_FLAG_INT_RX then or_open_flag dev RT_DEVICE_FLAG_INT_RX
      else when (flag_set oflag RT_DEVICE_FLAG_DMA_RX) (or_open_flag dev RT_DEVICE_FLAG_DMA_RX)
  end.

(** The completion and the data queue in the blocks are not part of the model. *)
Definition open_tx (dev oflag : Z) : DV unit :=
  x ← get_serial dev;
  match serial_tx x with
  | None =>
      if flag_set oflag RT_DEVICE_FLAG_INT_TX then
        alloc_block (sizeof tx_fifo_block);;
        upd_serial dev (fun x => x <| serial_tx := Some TxFifo |>);;
        or_open_flag dev RT_DEVICE_FLAG_INT_TX;;
        (* configure low level device *)
        op_control ops dev RT_DEVICE_CTRL_SET_INT RT_DEVICE_FLAG_INT_TX;;
        mret tt
      else if flag_set oflag RT_DEVICE_FLAG_DMA_TX then
        alloc_block (sizeof tx_dma_block);;
        upd_serial dev (fun x => x <| serial_tx := Some (TxDma false) |>);;
        or_open_flag dev RT_DEVICE_FLAG_DMA_TX;;
        (* configure low level device *)
        op_control ops dev RT_DEVICE_CTRL_CONFIG RT_DEVICE_FLAG_DMA_TX;;
        mret tt
      else upd_serial dev (fun x => x <| serial_tx := None |>)
  | Some _ =>
      if flag_set oflag RT_DEVICE_FLAG_INT_TX then or_open_flag dev RT_DEVICE_FLAG_INT_TX
      else when (flag_set oflag RT_DEVICE_FLAG_DMA_TX) (or_open_flag dev RT_DEVICE_FLAG_DMA_TX)
  end.

Definition rt_serial_open (dev oflag : Z) : DV Z :=
  rt_assert (negb (dev =? 0));;
  (* check device flag with the open flag *)
  d ← get_dev dev;
  let lacks flag := flag_set oflag flag && negb (flag_set (dv_flag d) flag) in
  if lacks RT_DEVICE_FLAG_DMA_RX then mret (- RT_EIO) else
  if lacks RT_DEVICE_FLAG_DMA_TX then mret (- RT_EIO) else
  if lacks RT_DEVICE_FLAG_INT_RX then mret (- RT_EIO) else
  if lacks RT_DEVICE_FLAG_INT_TX then mret (- RT_EIO) else
  (* keep steam flag *)
  let stream_flag :=
    if flag_set oflag RT_DEVICE_FLAG_STREAM || flag_set (dv_open_flag d) RT_DEVICE_FLAG_STREAM then RT_DEVICE_FLAG_STREAM else 0 in
  (* get open flags *)
  upd_dev dev (fun d => d <| dv_open_flag := Z.land oflag 255 |>);;
  open_rx dev oflag;;
  open_tx dev oflag;;
  (* set stream flag *)
  or_open_flag dev stream_flag;;
  mret RT_EOK.

(** [rt_free] of the buffer that [serial_rx] points to. *)
Definition free_rx (dev : Z) : DV unit :=
  x ← get_serial dev;
  rt_assert (not_null (serial_rx x));;
  upd_serial dev (fun x => x <| serial_rx := None |>).
Definition free_tx (dev : Z) : DV unit :=
  x ← get_serial dev;
  rt_assert (not_null (serial_tx x));;
  upd_serial dev (fun x => x <| serial_tx := None |>).

(** One of the four branches of [rt_serial_close]. *)
Definition close_mode (dev flag : Z) (free : DV unit) : DV unit :=
  op_control ops dev RT_DEVICE_CTRL_CLR_INT flag;;
  clear_open_flag dev flag;;
  free.

Definition rt_serial_close (dev : Z) : DV Z :=
  rt_assert (negb (dev =? 0));;
  (* this device has more reference count *)
  d ← get_dev dev;
  if 1 <? dv_ref_count d then mret RT_EOK else
  (if flag_set (dv_open_flag d) RT_DEVICE_FLAG_INT_RX then close_mode dev RT_DEVICE_FLAG_INT_RX (free_rx dev)
   else when (flag_set (dv_open_flag d) RT_DEVICE_FLAG_DMA_RX) (close_mode dev RT_DEVICE_FLAG_DMA_RX (free_rx dev)));;
  d ← get_dev dev;
  (if flag_set (dv_open_flag d) RT_DEVICE_FLAG_INT_TX then close_mode dev RT_DEVICE_FLAG_INT_TX (free_tx dev)
   else when (flag_set (dv_open_flag d) RT_DEVICE_FLAG_DMA_TX) (close_mode dev RT_DEVICE_FLAG_DMA_TX (free_tx dev)));;
  op_control ops dev RT_DEVICE_CTRL_CLOSE 0;;
  upd_dev dev (fun d => d <| dv_flag ::= (fun x => Z.ldiff x RT_DEVICE_FLAG_ACTIVATED) |>);;
  mret RT_EOK.

(** ** Reading *)

Definition store (a x : Z) : DV unit := in_reg (in_mem (sb a (u8 x))).
Definition load (a : Z) : DV Z := in_reg (in_mem (ld a)).

(** The number of characters read; [n] is [length]. *)
Fixpoint _serial_poll_rx (n : nat) (dev data : Z) : DV Z :=
  match n with
  | O => mret 0
  | S n =>
      ch ← op_getc ops dev;
      if ch =? -1 then mret 0 else
      store data ch;;
      d ← get_dev dev;
      if flag_set (dv_open_flag d) RT_DEVICE_FLAG_STREAM && (ch =? 10) then mret 1 else
      k ← _serial_poll_rx n dev (data + 1); mret (k + 1)
  end.

Definition get_fifo (dev : Z) : DV rt_serial_rx_fifo :=
  x ← get_serial dev; match serial_rx x with Some (RxFifo f) => mret f | _ => st_fail end.
Definition set_fifo (dev : Z) (f : rt_serial_rx_fifo) : DV unit := upd_serial dev (fun x => x <| serial_rx := Some (RxFifo f) |>).

(** The index behind [i] in a buffer of [bufsz] bytes. *)
Definition rx_next_index (bufsz i : Z) : Z := let i := u16 (i + 1) in if bufsz <=? i then 0 else i.

Fixpoint _serial_int_rx (n : nat) (dev data : Z) : DV Z :=
  match n with
  | O => mret 0
  | S n =>
      x ← get_serial dev;
      f ← get_fifo dev;
      (* there's no data: *)
      if (rf_get_index f =? rf_put_index f) && negb (rf_is_full f) then mret 0 else
      (* otherwise there's the data: *)
      ch ← st_opt (rf_buffer f !! Z.to_nat (rf_get_index f));
      set_fifo dev (f <| rf_get_index := rx_next_index (config_bufsz x) (rf_get_index f) |> <| rf_is_full := false |>);;
      store data ch;;
      k ← _serial_int_rx n dev (data + 1); mret (k + 1)
  end.

Definition _serial_fifo_calc_recved_len (bufsz : Z) (f : rt_serial_rx_fifo) : Z :=
  if rf_put_index f =? rf_get_index f then (if rf_is_full f then bufsz else 0)
  else if rf_get_index f <? rf_put_index f then rf_put_index f - rf_get_index f
  else bufsz - (rf_get_index f - rf_put_index f).

Definition rt_dma_recv_update_get_index (dev len : Z) : DV unit :=
  x ← get_serial dev;
  f ← get_fifo dev;
  rt_assert (len <=? _serial_fifo_calc_recved_len (config_bufsz x) f);;
  let full := if rf_is_full f && negb (len =? 0) then false else rf_is_full f in
  let get := u16 (rf_get_index f + u16 len) in
  let get := if config_bufsz x <=? get then get mod config_bufsz x else get in
  set_fifo dev (f <| rf_is_full := full |> <| rf_get_index := get |>).

(** [rt_memcpy] of [n] bytes of the buffer, from the index [i] on, to [data]. *)
Definition copy_out (f : rt_serial_rx_fifo) (data i n : Z) : DV unit :=
  rt_assert (i + n <=? Z.of_nat (length (rf_buffer f)));;
  in_reg (in_mem (stores data (take (Z.to_nat n) (drop (Z.to_nat i) (rf_buffer f))))).

Definition _serial_dma_rx (dev data size : Z) : DV Z :=
  rt_assert (negb (dev =? 0) && negb (data =? 0));;
  x ← get_serial dev;
  if config_bufsz x =? 0 then
    activated ← match serial_rx x with Some (RxDma a) => mret a | _ => st_fail end;
    if negb activated then
      upd_serial dev (fun x => x <| serial_rx := Some (RxDma true) |>);;
      op_dma_transmit ops dev data size RT_SERIAL_DMA_RX;;
      mret size
    else rt_set_errno (- RT_EBUSY);; mret 0
  else
    f ← get_fifo dev;
    let recved := _serial_fifo_calc_recved_len (config_bufsz x) f in
    let recv_len := if size <? recved then size else recved in
    let room := config_bufsz x - rf_get_index f in
    (if rf_get_index f + recv_len <? config_bufsz x then copy_out f data (rf_get_index f) recv_len
     else copy_out f data (rf_get_index f) room;; copy_out f (data + room) 0 (recv_len - room));;
    rt_dma_recv_update_get_index dev recv_len;;
    mret recv_len.

Definition rt_serial_read (dev pos buffer size : Z) : DV Z :=
  rt_assert (negb (dev =? 0));;
  if size =? 0 then mret 0 else
  d ← get_dev dev;
  if flag_set (dv_open_flag d) RT_DEVICE_FLAG_INT_RX then
    rt_assert (negb (dev =? 0));;
    x ← get_serial dev;
    rt_assert (not_null (serial_rx x));;
    n ← _serial_int_rx (Z.to_nat (u32 size)) dev buffer; mret (s32 n)
  else if flag_set (dv_open_flag d) RT_DEVICE_FLAG_DMA_RX then _serial_dma_rx dev buffer (s32 size)
  else n ← _serial_poll_rx (Z.to_nat (u32 size)) dev buffer; mret (s32 n).

(** ** Writing *)

Fixpoint _serial_poll_tx (n : nat) (dev data : Z) : DV unit :=
  match n with
  | O => mret tt
  | S n =>
      c ← load data;
      d ← get_dev dev;
      (* to be polite with serial console add a line feed to the carriage return character *)
      when ((c =? 10) && flag_set (dv_open_flag d) RT_DEVICE_FLAG_STREAM) (op_putc ops dev 13;; mret tt);;
      op_putc ops dev c;;
      _serial_poll_tx n dev (data + 1)
  end.

(** [putc] returns -1: the thread waits for the completion, which is not part of the model. *)
Definition put_now (dev c : Z) : DV unit := r ← op_putc ops dev c; rt_assert (negb (r =? -1)).

Fixpoint _serial_int_tx (n : nat) (dev data : Z) : DV unit :=
  match n with
  | O => mret tt
  | S n =>
      c ← load data;
      d ← get_dev dev;
      when ((c =? 10) && flag_set (dv_open_flag d) RT_DEVICE_FLAG_STREAM) (put_now dev 13);;
      put_now dev c;;
      _serial_int_tx n dev (data + 1)
  end.

(** Writing by DMA pushes the buffer to a data queue and may sleep there; it is not part of
    the model. *)
Definition rt_serial_write (dev pos buffer size : Z) : DV Z :=
  rt_assert (negb (dev =? 0));;
  if size =? 0 then mret 0 else
  d ← get_dev dev;
  if flag_set (dv_open_flag d) RT_DEVICE_FLAG_INT_TX then
    x ← get_serial dev;
    rt_assert (not_null (serial_tx x));;
    _serial_int_tx (Z.to_nat (u32 size)) dev buffer;; mret (s32 (u32 size))
  else if flag_set (dv_open_flag d) RT_DEVICE_FLAG_DMA_TX then st_fail
  else _serial_poll_tx (Z.to_nat (u32 size)) dev buffer;; mret (s32 (u32 size)).

(** ** Receiving *)

(** One character of the interrupt: the part under the lock. *)
Definition isr_put (dev ch : Z) : DV unit :=
  x ← get_serial dev;
  f ← get_fifo dev;
  rt_assert (rf_put_index f <? Z.of_nat (length (rf_buffer f)));;
  let f := f <| rf_buffer ::= <[Z.to_nat (rf_put_index f) := u8 ch]> |>
             <| rf_put_index := rx_next_index (config_bufsz x) (rf_put_index f) |> in
  (* if the next position is read index, discard this 'read char' *)
  set_fifo dev
    (if rf_put_index f =? rf_get_index f then
       f <| rf_is_full := true |> <| rf_get_index := rx_next_index (config_bufsz x) (rf_get_index f) |>
     else f).

Fixpoint isr_rx (fuel : nat) (dev : Z) : DV unit :=
  match fuel with
  | O => st_fail
  | S fuel => ch ← op_getc ops dev; if ch =? -1 then mret tt else isr_put dev ch;; isr_rx fuel dev
  end.

(** RT_SERIAL_EVENT_RX_IND, up to the call of the function that is told. *)
Definition rt_hw_serial_isr_rx (fuel : nat) (dev : Z) : DV (option indication) :=
  x ← get_serial dev;
  rt_assert (not_null (serial_rx x));;
  isr_rx fuel dev;;
  x ← get_serial dev;
  d ← get_dev dev;
  match rx_notify x, dv_rx_indicate d with
  | Some notify, _ => mret (Some (Notify notify))
  | None, Some indicate =>
      f ← get_fifo dev;
      (* get rx length *)
      let rx_length := if rf_get_index f <=? rf_put_index f then rf_put_index f - rf_get_index f
                       else config_bufsz x - (rf_get_index f - rf_put_index f) in
      mret (if negb (rx_length =? 0) then Some (RxIndicate indicate rx_length) else None)
  | None, None => mret None
  end.

(** ** Registering *)

(** The places of the driver's functions. *)
Definition fn_init : Z := 1.
Definition fn_open : Z := 2.
Definition fn_close : Z := 3.
Definition fn_read : Z := 4.
Definition fn_write : Z := 5.
Definition fn_control : Z := 6.

(** Calls through the function pointers; the commands of [rt_serial_control] are not part
    of the model. *)
Definition serial_drivers (control : Z -> Z -> Z -> DV Z) : drivers := mkDrivers
  (fun f dev => if f =? fn_init then rt_serial_init dev else st_fail)
  (fun f dev oflag => if f =? fn_open then rt_serial_open dev oflag else st_fail)
  (fun f dev => if f =? fn_close then rt_serial_close dev else st_fail)
  (fun f dev pos buffer size => if f =? fn_read then rt_serial_read dev pos buffer size else st_fail)
  (fun f dev pos buffer size => if f =? fn_write then rt_serial_write dev pos buffer size else st_fail)
  (fun f dev cmd arg => if f =? fn_control then control dev cmd arg else st_fail).
End Serial.

Definition RT_Device_Class_Char : Z := 0.

Definition rt_hw_serial_register (dev name flag data : Z) : DV Z :=
  rt_assert (negb (dev =? 0));;
  upd_dev dev (fun d => d <| dv_type := RT_Device_Class_Char |> <| dv_rx_indicate := None |> <| dv_tx_complete := None |>
    <| dv_init := Some fn_init |> <| dv_open := Some fn_open |> <| dv_close := Some fn_close |>
    <| dv_read := Some fn_read |> <| dv_write := Some fn_write |> <| dv_control := Some fn_control |> <| dv_user_data := data |>);;
  (* register a character device *)
  rt_device_register dev name flag.
