(* ===== verification/Msh.v ===== *)
(** * The command interpreter: src/components/finsh/msh.c

    Splitting a command line, finding and running the command, completing names and
    options.  Strings are bytes of a memory; what is printed is appended to [sh_out].
    The table of commands is a parameter, and so is what the commands do; the parts
    for file systems and modules are not configured. *)

From stdpp Require Import gmap.
From S2P Require Import Prelude Bytes KString KStdio.
Open Scope rt_scope.

(** ** Data *)

(** [struct finsh_shell]: the bytes of [line] and [cmd_history] are in [sh_mem]. *)
Inductive input_stat := WAIT_NORMAL | WAIT_SPEC_KEY | WAIT_FUNC_KEY.
#[export] Instance input_stat_eq_dec : EqDecision input_stat.
Proof. solve_decision. Defined.

Record finsh_shell := mkShell {
  sh_mem : bytes;
  sh_out : list Z;              (* what was printed *)
  sh_stat : input_stat;
  sh_echo : Z;                  (* echo_mode, one bit *)
  sh_prompt_mode : Z;           (* one bit *)
  sh_prompt : option (list Z);  (* finsh_prompt_custom *)
  sh_current : Z;               (* current_history *)
  sh_count : Z;                 (* history_count *)
  sh_position : Z;              (* line_position *)
  sh_curpos : Z;                (* line_curpos *)
}.
#[export] Instance finsh_shell_eta : EtaRec finsh_shell :=
  fun s => mkShell (sh_mem s) (sh_out s) (sh_stat s) (sh_echo s) (sh_prompt_mode s) (sh_prompt s) (sh_current s) (sh_count s) (sh_position s) (sh_curpos s).

Abbreviation SH := (st finsh_shell).

(** The names and texts are addresses of strings; an array of options is the list of
    its elements up to the one with [id] 0. *)
Record msh_cmd_opt := mkOpt { opt_id : Z; opt_name : Z; opt_des : Z }.
Record finsh_syscall := mkSyscall { sc_name : Z; sc_desc : Z; sc_opt : list msh_cmd_opt; sc_func : Z }.

Definition FINSH_ARG_MAX : Z := 10.

Definition mem {A} (c : BM A) : SH A :=
  fun s => match c (sh_mem s) with Some (x, m) => Some (x, s <| sh_mem := m |>) | None => None end.
Definition emit (l : list Z) : SH unit := st_modify (fun s => s <| sh_out ::= (fun o => o ++ l) |>).

(** One call of [rt_kprintf] with the text of its format. *)
Definition puts (l : list Z) : SH unit := emit (console_text l).

(** ** The C library *)

Fixpoint string_loop (fuel : nat) (a : Z) : BM (list Z) :=
  match fuel with
  | O => st_fail
  | S fuel => c ← ld a; if c =? 0 then mret [] else l ← string_loop fuel (a + 1); mret (c :: l)
  end.
(** The text that %s prints. *)
Definition string_at (a : Z) : BM (list Z) := m ← st_get; string_loop (str_fuel m) a.
Definition put_string (a : Z) : SH unit := l ← mem (string_at a); puts l.

Fixpoint strncmp (n : nat) (a b : Z) : BM Z :=
  match n with
  | O => mret 0
  | S n =>
      x ← ld a; y ← ld b;
      if negb (x =? y) then mret (x - y) else if x =? 0 then mret 0 else strncmp n (a + 1) (b + 1)
  end.

Fixpoint strchr_loop (fuel : nat) (a c : Z) : BM (option Z) :=
  match fuel with
  | O => st_fail
  | S fuel => x ← ld a; if x =? c then mret (Some a) else if x =? 0 then mret None else strchr_loop fuel (a + 1) c
  end.
Definition strchr (a c : Z) : BM (option Z) := m ← st_get; strchr_loop (str_fuel m) a c.

Definition is_space (c : Z) : bool := (c =? 32) || (c =? 9).
Definition quote : Z := 34.
Definition backslash : Z := 92.
Definition newline : list Z := [10].

(** ** Splitting *)

(** Strip spaces and tabs. *)
Fixpoint split_spaces (fuel : nat) (ptr position length : Z) : BM (Z * Z) :=
  match fuel with
  | O => st_fail
  | S fuel =>
      c ← ld ptr;
      if is_space c && (position <? length) then sb ptr 0;; split_spaces fuel (ptr + 1) (position + 1) length
      else mret (ptr, position)
  end.

Fixpoint split_string (fuel : nat) (ptr position length : Z) : BM (Z * Z) :=
  match fuel with
  | O => st_fail
  | S fuel =>
      c ← ld ptr;
      if negb (c =? quote) && (position <? length) then
        if c =? backslash then
          d ← ld (ptr + 1);
          if d =? quote then split_string fuel (ptr + 2) (position + 2) length
          else split_string fuel (ptr + 1) (position + 1) length
        else split_string fuel (ptr + 1) (position + 1) length
      else mret (ptr, position)
  end.

Fixpoint split_word (fuel : nat) (ptr position length : Z) : BM (Z * Z) :=
  match fuel with
  | O => st_fail
  | S fuel =>
      c ← ld ptr;
      if negb (is_space c) && (position <? length) then split_word fuel (ptr + 1) (position + 1) length
      else mret (ptr, position)
  end.

(** "Too many args ! We only Use:" *)
Definition too_many : list Z :=
  [84; 111; 111; 32; 109; 97; 110; 121; 32; 97; 114; 103; 115; 32; 33; 32; 87; 101; 32; 111; 110; 108; 121; 32; 85; 115; 101; 58; 10].
Fixpoint put_args (argv : list Z) : SH unit :=
  match argv with [] => mret tt | a :: argv => l ← mem (string_at a); puts (l ++ [32]);; put_args argv end.

(** The argument at [ptr], which is not blank; [next] goes on behind it. *)
Definition split_arg (next : Z -> Z -> list Z -> SH (list Z)) (ptr position length : Z) (argv : list Z) : SH (list Z) :=
  if FINSH_ARG_MAX <=? Z.of_nat (List.length argv) then
    puts too_many;; put_args argv;; puts newline;; mret argv
  else if length <=? position then mret argv else
  let inner := S (Z.to_nat length) in
  c ← mem (ld ptr);
  (* handle string *)
  if c =? quote then
    let argv := argv ++ [ptr + 1] in
    '(ptr, position) ← mem (split_string inner (ptr + 1) (position + 1) length);
    if length <=? position then mret argv
    else (* skip this quote *) mem (sb ptr 0);; next (ptr + 1) (position + 1) argv
  else
    let argv := argv ++ [ptr] in
    '(ptr, position) ← mem (split_word inner ptr position length);
    if length <=? position then mret argv
    else next ptr position argv.

(** The loop of [msh_split]; the result is [argv] up to [argc]. *)
Fixpoint split_loop (fuel : nat) (ptr position length : Z) (argv : list Z) : SH (list Z) :=
  if negb (position <? length) then mret argv else
  match fuel with
  | O => st_fail
  | S fuel =>
      (* strip blank and tab *)
      '(ptr, position) ← mem (split_spaces (S (Z.to_nat length)) ptr position length);
      split_arg (fun ptr position argv => split_loop fuel ptr position length argv) ptr position length argv
  end.
Definition msh_split (cmd length : Z) : SH (list Z) := split_loop (S (Z.to_nat length)) cmd 0 length [].

Section Commands.
(** The symbol table, and what the function [sc_func] does with its arguments. *)
Context (syscall_table : list finsh_syscall) (call : Z -> list Z -> SH Z).

(** ** Running *)

Fixpoint get_cmd_loop (table : list finsh_syscall) (cmd size : Z) : BM (option finsh_syscall) :=
  match table with
  | [] => mret None
  | index :: table =>
      c ← strncmp (Z.to_nat size) (sc_name index) cmd;
      if c =? 0 then
        e ← ld (sc_name index + size);
        if e =? 0 then mret (Some index) else get_cmd_loop table cmd size
      else get_cmd_loop table cmd size
  end.
Definition msh_get_cmd (cmd size : Z) : BM (option finsh_syscall) := get_cmd_loop syscall_table cmd size.

Fixpoint cmd0_loop (fuel : nat) (cmd cmd0_size length : Z) : BM Z :=
  if cmd0_size <? length then
    match fuel with
    | O => st_fail
    | S fuel => c ← ld (cmd + cmd0_size); if is_space c then mret cmd0_size else cmd0_loop fuel cmd (cmd0_size + 1) length
    end
  else mret cmd0_size.

(** The result is [Some] of what the command returned, [None] for -RT_ERROR. *)
Definition _msh_exec_cmd (cmd length : Z) : SH (option Z) :=
  (* find the size of first command *)
  cmd0_size ← mem (cmd0_loop (S (Z.to_nat length)) cmd 0 length);
  if cmd0_size =? 0 then mret None else
  cmd_func ← mem (msh_get_cmd cmd cmd0_size);
  match cmd_func with
  | None => mret None
  | Some f =>
      (* split arguments *)
      argv ← msh_split cmd length;
      if bool_decide (argv = []) then mret None
      else (* exec this command *) ret ← call (sc_func f) argv; mret (Some ret)
  end.

Fixpoint trim_loop (fuel : nat) (cmd length : Z) : BM (Z * Z) :=
  if 0 <? length then
    match fuel with
    | O => st_fail
    | S fuel => c ← ld cmd; if is_space c then trim_loop fuel (cmd + 1) (length - 1) else mret (cmd, length)
    end
  else mret (cmd, length).

(** truncate the cmd at the first space. *)
Fixpoint truncate_loop (fuel : nat) (tcmd : Z) : BM unit :=
  match fuel with
  | O => st_fail
  | S fuel => c ← ld tcmd; if negb (c =? 32) && negb (c =? 0) then truncate_loop fuel (tcmd + 1) else sb tcmd 0
  end.

(** ": command not found." *)
Definition not_found : list Z := [58; 32; 99; 111; 109; 109; 97; 110; 100; 32; 110; 111; 116; 32; 102; 111; 117; 110; 100; 46; 10].

Definition msh_exec (cmd length : Z) : SH Z :=
  '(cmd, length) ← mem (trim_loop (S (Z.to_nat length)) cmd length);
  if length =? 0 then mret 0 else
  ret ← _msh_exec_cmd cmd length;
  match ret with
  | Some cmd_ret => mret cmd_ret
  | None =>
      mem (m ← st_get; truncate_loop (str_fuel m) cmd);;
      l ← mem (string_at cmd); puts (l ++ not_found);;
      mret (-1)
  end.

(** ** Completing names *)

(** "RT-Thread shell commands:" *)
Definition help_title : list Z :=
  [82; 84; 45; 84; 104; 114; 101; 97; 100; 32; 115; 104; 101; 108; 108; 32; 99; 111; 109; 109; 97; 110; 100; 115; 58; 10].
(** "%-16s - %s\n", behind [indent]; the width also limits the length of the name. *)
Definition put_described (indent : list Z) (name desc : Z) : SH unit :=
  l ← mem (string_at name); d ← mem (string_at desc);
  puts (indent ++ take 16 l ++ replicate (16 - length l) 32 ++ [32; 45; 32] ++ d ++ newline).
Fixpoint help_loop (table : list finsh_syscall) : SH unit :=
  match table with [] => mret tt | index :: table => put_described [] (sc_name index) (sc_desc index);; help_loop table end.
Definition msh_help : SH Z := puts help_title;; help_loop syscall_table;; puts newline;; mret 0.

Fixpoint str_common_loop (fuel : nat) (str str1 str2 : Z) : BM Z :=
  match fuel with
  | O => st_fail
  | S fuel =>
      x ← ld str; y ← ld str2;
      if negb (x =? 0) && negb (y =? 0) && (x =? y) then str_common_loop fuel (str + 1) str1 (str2 + 1)
      else mret (str - str1)
  end.
Definition str_common (str1 str2 : Z) : BM Z := m ← st_get; str_common_loop (str_fuel m) str1 str1 str2.

(** The loop over the names of commands or options, with [name_ptr] and [min_length]. *)
Fixpoint common_loop (names : list Z) (prefix len : Z) (name_ptr : option Z) (min_length : Z) : SH (option Z * Z) :=
  match names with
  | [] => mret (name_ptr, min_length)
  | cmd_name :: names =>
      c ← mem (strncmp (Z.to_nat len) prefix cmd_name);
      if c =? 0 then
        '(name_ptr, min_length) ←
          (if min_length =? 0 then l ← mem (rt_strlen cmd_name); mret (cmd_name, l)
           else p ← st_opt name_ptr; mret (p, min_length));
        (* find common length *)
        length ← mem (str_common name_ptr cmd_name);
        let min_length := if length <? min_length then length else min_length in
        l ← mem (string_at cmd_name); puts (l ++ newline);;
        common_loop names prefix len (Some name_ptr) min_length
      else common_loop names prefix len name_ptr min_length
  end.

Definition msh_auto_complete (prefix : Z) : SH unit :=
  c ← mem (ld prefix);
  if c =? 0 then msh_help;; mret tt else
  (* checks in internal command *)
  len ← mem (rt_strlen prefix);
  '(name_ptr, min_length) ← common_loop (sc_name <$> syscall_table) prefix len None 0;
  (* auto complete string *)
  match name_ptr with
  | Some name_ptr => mem (rt_strncpy prefix name_ptr min_length);; mret tt
  | None => mret tt
  end.

(** ** Completing options *)

Definition msh_get_cmd_opt (opt_str : Z) : BM (list msh_cmd_opt) :=
  ptr ← strchr opt_str 32;
  len ← match ptr with Some ptr => mret (ptr - opt_str) | None => rt_strlen opt_str end;
  f ← msh_get_cmd opt_str len;
  mret match f with Some f => sc_opt f | None => [] end.

Fixpoint get_argc_loop (fuel : nat) (ch argc : Z) (last_argv : option Z) : BM (Z * option Z) :=
  match fuel with
  | O => st_fail
  | S fuel =>
      c ← ld ch;
      if c =? 0 then mret (argc, last_argv) else
      d ← (if c =? 32 then ld (ch + 1) else mret 0);
      if (c =? 32) && negb (d =? 0) && negb (d =? 32) then get_argc_loop fuel (ch + 1) (argc + 1) (Some (ch + 1))
      else get_argc_loop fuel (ch + 1) argc last_argv
  end.
Definition msh_get_argc (prefix : Z) : BM (Z * option Z) := m ← st_get; get_argc_loop (str_fuel m) prefix 0 None.

Definition msh_opt_complete (opts_str : Z) (cmd_opt : list msh_cmd_opt) : SH unit :=
  opts_str_len ← mem (rt_strlen opts_str);
  '(name_ptr, min_length) ← common_loop (opt_name <$> cmd_opt) opts_str opts_str_len None 0;
  puts newline;;
  match name_ptr with
  | Some name_ptr => mem (rt_strncpy opts_str name_ptr min_length);; mret tt
  | None => mret tt
  end.

Fixpoint opt_help_loop (cmd_opt : list msh_cmd_opt) : SH unit :=
  match cmd_opt with [] => mret tt | opt :: cmd_opt => put_described [] (opt_name opt) (opt_des opt);; opt_help_loop cmd_opt end.
Definition msh_opt_help (cmd_opt : list msh_cmd_opt) : SH unit := opt_help_loop cmd_opt;; puts newline.

Definition msh_opt_auto_complete (prefix : Z) : SH unit :=
  '(argc, opt_str) ← mem (msh_get_argc prefix);
  opt ←
    (if negb (argc =? 0) then mem (msh_get_cmd_opt prefix)
     else
       len ← mem (rt_strlen prefix);
       f ← mem (msh_get_cmd prefix len);
       match f with
       | Some _ => mret []
       | None => c ← mem (ld (prefix + len - 1)); if c =? 32 then mem (msh_get_cmd_opt prefix) else mret []
       end);
  if bool_decide (opt = []) then mret tt else
  if argc =? 0 then msh_opt_help opt
  else if argc =? 1 then opt_str ← st_opt opt_str; msh_opt_complete opt_str opt
  else mret tt.
End Commands.

(** [options]: the array, empty for RT_NULL. *)
Fixpoint opt_id_loop (options : list msh_cmd_opt) (arg : Z) : BM Z :=
  match options with
  | [] => mret 0
  | opt :: options => c ← rt_strcmp (opt_name opt) arg; if c =? 0 then mret (opt_id opt) else opt_id_loop options arg
  end.
Definition msh_cmd_opt_id_get (argv : list Z) (options : list msh_cmd_opt) : BM Z :=
  match argv with
  | _ :: arg :: _ => opt_id_loop options arg
  | _ => mret 0
  end.

Fixpoint opt_dump_loop (options : list msh_cmd_opt) : SH unit :=
  match options with
  | [] => mret tt
  | opt :: options => put_described (replicate 4 32) (opt_name opt) (opt_des opt);; opt_dump_loop options
  end.
Definition msh_opt_list_dump (options : list msh_cmd_opt) : SH unit := opt_dump_loop options.

(** ** Numbers: src/components/finsh/msh_parse.c *)

Definition isdigit (c : Z) : bool := (48 <=? c) && (c <=? 57).
Definition isxdigit (c : Z) : bool := isdigit c || (65 <=? c) && (c <=? 70) || (97 <=? c) && (c <=? 102).
Definition tolower (c : Z) : Z := if (65 <=? c) && (c <=? 90) then c + 32 else c.

(** All characters up to the end of the string satisfy [f]. *)
Fixpoint all_chars (fuel : nat) (f : Z -> bool) (str : Z) : BM bool :=
  match fuel with
  | O => st_fail
  | S fuel => c ← ld str; if c =? 0 then mret true else if f c then all_chars fuel f (str + 1) else mret false
  end.

Definition msh_isint (strvalue : Z) : BM bool :=
  if strvalue =? 0 then mret false else
  m ← st_get;
  c ← ld strvalue;
  if c =? 0 then mret false
  else all_chars (str_fuel m) isdigit (if (c =? 43) || (c =? 45) then strvalue + 1 else strvalue).

Definition msh_ishex (strvalue : Z) : BM bool :=
  if strvalue =? 0 then mret false else
  m ← st_get;
  c ← ld strvalue;
  if c =? 0 then mret false
  else if negb (c =? 48) then mret false
  else
    x ← ld (strvalue + 1);
    if negb (x =? 120) then mret false
    else all_chars (str_fuel m) (fun c => isxdigit (tolower c)) (strvalue + 2).

(** [int] arithmetic wraps around here; the C standard leaves an overflow open. *)
Fixpoint strtohex_loop (fuel : nat) (strvalue value : Z) : BM Z :=
  match fuel with
  | O => st_fail
  | S fuel =>
      c ← ld strvalue;
      if c =? 0 then mret value else
      let c := tolower c in
      strtohex_loop fuel (strvalue + 1) (s32 (s32 (value * 16) + (if isdigit c then c - 48 else c - 97 + 10)))
  end.
Definition msh_strtohex (strvalue : Z) : BM Z := m ← st_get; strtohex_loop (str_fuel m) (strvalue + 2) 0.
