(* ===== verification/Shell.v ===== *)
(** * The shell's line editor: src/components/finsh/shell.c

    What the shell thread does with each character it reads: editing the line, the
    history, completion, running a command.  The characters are those that
    [finsh_getchar] returns (ShellDevice.v); the password is not configured.  The prompt is
    printed as it is: it is the format string of [rt_kprintf], so it has no % here. *)

From S2P Require Import Prelude Bytes KString KStdio Msh.
Open Scope rt_scope.

Definition FINSH_CMD_SIZE : Z := 80.
Definition FINSH_HISTORY_LINES : Z := 5.

(** ** The prompt *)

(** [copy]: whether rt_malloc has memory for the copy. *)
Definition finsh_set_prompt (prompt : option (list Z)) (copy : bool) : SH Z :=
  st_modify (fun s => s <| sh_prompt := if copy then prompt else None |>);; mret 0.

(** "msh " *)
Definition _MSH_PROMPT : list Z := [109; 115; 104; 32].
Definition finsh_get_prompt (s : finsh_shell) : list Z :=
  if sh_prompt_mode s =? 0 then [] else
  let finsh_prompt := match sh_prompt s with Some p => take (Z.to_nat RT_CONSOLEBUF_SIZE) p | None => _MSH_PROMPT end in
  if Z.of_nat (length finsh_prompt) + 2 <? RT_CONSOLEBUF_SIZE then finsh_prompt ++ [62] else finsh_prompt.
Definition put_prompt : SH unit := s ← st_get; puts (finsh_get_prompt s).
(** "%s%s" *)
Definition put_prompted (a : Z) : SH unit := s ← st_get; l ← mem (string_at a); puts (finsh_get_prompt s ++ l).

Definition finsh_get_prompt_mode : SH Z := st_gets sh_prompt_mode.
Definition finsh_set_prompt_mode (prompt_mode : Z) : SH unit := st_modify (fun s => s <| sh_prompt_mode := Z.land prompt_mode 1 |>).
(** [echo] is converted to [rt_uint8_t] and to the bit field. *)
Definition finsh_set_echo (echo : Z) : SH unit := st_modify (fun s => s <| sh_echo := Z.land (u8 echo) 1 |>).
Definition finsh_get_echo : SH Z := st_gets sh_echo.

(** ** The shell *)

Definition backspaces (n : Z) : list Z := replicate (Z.to_nat n) 8.
Definition set_position (x : Z) : SH unit := st_modify (fun s => s <| sh_position := u16 x |>).
Definition set_curpos (x : Z) : SH unit := st_modify (fun s => s <| sh_curpos := u16 x |>).
Definition set_current (x : Z) : SH unit := st_modify (fun s => s <| sh_current := u16 x |>).

Section Shell.
(** The arrays of [*shell], the commands and what they do. *)
Context (shell_at : Z) (syscall_table : list finsh_syscall) (call : Z -> list Z -> SH Z).

Definition cmd_history (i : Z) : Z := shell_at + FINSH_CMD_SIZE * i.
Definition line : Z := shell_at + FINSH_CMD_SIZE * FINSH_HISTORY_LINES.

Definition shell_auto_complete (prefix : Z) : SH unit :=
  puts newline;;
  msh_auto_complete syscall_table prefix;;
  msh_opt_auto_complete syscall_table prefix;;
  put_prompted prefix.

(** "\033[2K\r" *)
Definition shell_handle_history : SH unit := puts [27; 91; 50; 75; 13];; put_prompted line.

Fixpoint shift_history (n : nat) (index : Z) : BM unit :=
  match n with
  | O => mret tt
  | S n => rt_memcpy (cmd_history index) (cmd_history (index + 1)) FINSH_CMD_SIZE;; shift_history n (index + 1)
  end.

Definition shell_push_history : SH unit :=
  s ← st_get;
  when (negb (sh_position s =? 0)) (
    (* push history *)
    if FINSH_HISTORY_LINES <=? sh_count s then
      (* if current cmd is same as last cmd, don't push *)
      c ← mem (rt_memcmp (cmd_history (FINSH_HISTORY_LINES - 1)) line FINSH_CMD_SIZE);
      when (negb (c =? 0)) (
        (* move history *)
        mem (shift_history (Z.to_nat (FINSH_HISTORY_LINES - 1)) 0;;
             rt_memset (cmd_history (FINSH_HISTORY_LINES - 1)) 0 FINSH_CMD_SIZE;;
             rt_memcpy (cmd_history (FINSH_HISTORY_LINES - 1)) line (sh_position s));;
        (* it's the maximum history *)
        st_modify (fun s => s <| sh_count := FINSH_HISTORY_LINES |>))
    else
      (* if current cmd is same as last cmd, don't push *)
      c ← (if sh_count s =? 0 then mret 1 else mem (rt_memcmp (cmd_history (sh_count s - 1)) line FINSH_CMD_SIZE));
      when (negb (c =? 0)) (
        set_current (sh_count s);;
        mem (rt_memset (cmd_history (sh_count s)) 0 FINSH_CMD_SIZE;;
             rt_memcpy (cmd_history (sh_count s)) line (sh_position s));;
        (* increase count and set current history position *)
        st_modify (fun s => s <| sh_count := u16 (sh_count s + 1) |>)));;
  s ← st_get; set_current (sh_count s).

(** ** Keys *)

(** The line becomes that of the current history position. *)
Definition show_history : SH unit :=
  s ← st_get;
  (* copy the history command *)
  mem (rt_memcpy line (cmd_history (sh_current s)) FINSH_CMD_SIZE);;
  n ← mem (rt_strlen line);
  set_position n;; set_curpos n;;
  shell_handle_history.

Definition up_key : SH unit :=
  s ← st_get;
  if 0 <? sh_current s then set_current (sh_current s - 1);; show_history
  else set_current 0.

Definition down_key : SH unit :=
  s ← st_get;
  if sh_current s <? sh_count s - 1 then set_current (sh_current s + 1);; show_history
  else if negb (sh_count s =? 0) then set_current (sh_count s - 1);; show_history (* set to the end of history *)
  else mret tt.

Definition left_key : SH unit :=
  s ← st_get;
  when (negb (sh_curpos s =? 0)) (puts [8];; set_curpos (sh_curpos s - 1)).

Definition right_key : SH unit :=
  s ← st_get;
  when (sh_curpos s <? sh_position s) (c ← mem (ld (line + sh_curpos s)); puts [c];; set_curpos (sh_curpos s + 1)).

Definition tab_key : SH unit :=
  s ← st_get;
  (* move the cursor to the beginning of line *)
  emit (backspaces (sh_curpos s));;
  shell_auto_complete line;;
  n ← mem (rt_strlen line);
  set_position n;; set_curpos n.

Definition backspace_key : SH unit :=
  s ← st_get;
  (* note that shell->line_curpos >= 0 *)
  when (negb (sh_curpos s =? 0)) (
    set_position (sh_position s - 1);; set_curpos (sh_curpos s - 1);;
    s ← st_get;
    if sh_curpos s <? sh_position s then
      mem (rt_memmove (line + sh_curpos s) (line + sh_curpos s + 1) (sh_position s - sh_curpos s));;
      mem (sb (line + sh_position s) 0);;
      l ← mem (string_at (line + sh_curpos s)); puts ([8] ++ l ++ [32; 32; 8]);;
      (* move the cursor to the origin position *)
      emit (backspaces (sh_position s - sh_curpos s + 1))
    else puts [8; 32; 8];; mem (sb (line + sh_position s) 0)).

Definition enter_key : SH unit :=
  shell_push_history;;
  s ← st_get;
  when (negb (sh_echo s =? 0)) (puts newline);;
  msh_exec syscall_table call line (sh_position s);;
  put_prompt;;
  mem (rt_memset line 0 (FINSH_CMD_SIZE + 1));;
  set_position 0;; set_curpos 0.

Definition normal_char (ch : Z) : SH unit :=
  (* it's a large line, discard it *)
  s ← st_get; when (FINSH_CMD_SIZE <=? sh_position s) (set_position 0);;
  s ← st_get;
  (if sh_curpos s <? sh_position s then
     mem (rt_memmove (line + sh_curpos s + 1) (line + sh_curpos s) (sh_position s - sh_curpos s));;
     mem (sb (line + sh_curpos s) ch);;
     when (negb (sh_echo s =? 0)) (put_string (line + sh_curpos s));;
     (* move the cursor to new position *)
     emit (backspaces (sh_position s - sh_curpos s))
   else
     mem (sb (line + sh_position s) ch);;
     when (negb (sh_echo s =? 0)) (puts [ch]));;
  set_position (sh_position s + 1);; set_curpos (sh_curpos s + 1);;
  (* clear command line *)
  s ← st_get; when (FINSH_CMD_SIZE <=? sh_position s) (set_position 0;; set_curpos 0).

Definition handle_char (ch : Z) : SH unit :=
  (* received null or error *)
  if (ch =? 0) || (ch =? 255) then mret tt
  else if ch =? 9 then tab_key
  else if (ch =? 127) || (ch =? 8) then backspace_key
  else if (ch =? 13) || (ch =? 10) then enter_key
  else normal_char ch.

(** One round of the loop of [finsh_thread_entry]. *)
Definition finsh_char (ch : Z) : SH unit :=
  let set_stat x := st_modify (fun s => s <| sh_stat := x |>) in
  s ← st_get;
  if ch =? 27 then set_stat WAIT_SPEC_KEY else
  match sh_stat s with
  | WAIT_SPEC_KEY => if ch =? 91 then set_stat WAIT_FUNC_KEY else set_stat WAIT_NORMAL;; handle_char ch
  | WAIT_FUNC_KEY =>
      set_stat WAIT_NORMAL;;
      if ch =? 65 then up_key
      else if ch =? 66 then down_key
      else if ch =? 68 then left_key
      else if ch =? 67 then right_key
      else handle_char ch
  | WAIT_NORMAL => handle_char ch
  end.

Fixpoint finsh_chars (l : list Z) : SH unit := match l with [] => mret tt | ch :: l => finsh_char ch;; finsh_chars l end.

(** [shell]: what rt_calloc returns; the thread is created outside. *)
Definition finsh_system_init (shell : option Z) : SH Z :=
  match shell with
  | None => mret (-1)
  | Some _ =>
      mem (rt_memset (cmd_history 0) 0 (FINSH_CMD_SIZE * FINSH_HISTORY_LINES + FINSH_CMD_SIZE + 1));;
      st_modify (fun s => s <| sh_stat := WAIT_NORMAL |> <| sh_echo := 0 |> <| sh_current := 0 |> <| sh_count := 0 |>
        <| sh_position := 0 |> <| sh_curpos := 0 |>);;
      finsh_set_prompt_mode 1;; mret 0
  end.

(** The start of [finsh_thread_entry]. *)
Definition finsh_thread_start : SH unit := finsh_set_echo 1;; put_prompt.
End Shell.
