(* ===== verification/ShellDevice.v ===== *)
(** * The console device of the shell: src/components/finsh/shell.c

    Reading characters from the device of the shell and changing the device.  The shell
    and the devices are those of Shell.v and Device.v; [shell->rx_sem] is its count, which
    only the shell's thread takes. *)

From stdpp Require Import gmap.
From S2P Require Import Prelude Kernel Bytes KString Object Device Msh Shell.
Open Scope rt_scope.

Record console := mkConsole {
  cn_shell : finsh_shell;
  cn_devices : devices;
  cn_device : Z;   (* shell->device, 0 is RT_NULL *)
  cn_rx : Z;       (* the value of shell->rx_sem *)
}.
#[export] Instance console_eta : EtaRec console := fun c => mkConsole (cn_shell c) (cn_devices c) (cn_device c) (cn_rx c).

Abbreviation CN := (st console).

Definition on_shell {A} (m : SH A) : CN A :=
  fun c => match m (cn_shell c) with Some (x, s) => Some (x, c <| cn_shell := s |>) | None => None end.
Definition on_devices {A} (m : DV A) : CN A :=
  fun c => match m (cn_devices c) with Some (x, d) => Some (x, c <| cn_devices := d |>) | None => None end.

(** RT_DEVICE_OFLAG_RDWR | RT_DEVICE_FLAG_INT_RX | RT_DEVICE_FLAG_STREAM *)
Definition console_oflag : Z := Z.lor (Z.lor 3 256) 64.

(** "finsh: can not find device: " *)
Definition no_such_device : list Z :=
  [102; 105; 110; 115; 104; 58; 32; 99; 97; 110; 32; 110; 111; 116; 32; 102; 105; 110; 100; 32; 100; 101; 118; 105; 99; 101; 58; 32].

(** [finsh_getchar] returns a character or -1, or its thread sleeps in [rt_sem_take]. *)
Inductive getchar_result := GotChar (ch : Z) | Sleeps (device : Z).

Section Console.
(** The address of the shell, of the function [finsh_rx_ind] and of the variable [ch]. *)
Context (drv : drivers) (shell_at rx_ind ch : Z).

(** A release while nobody sleeps. *)
Definition finsh_rx_ind : CN Z := st_modify (fun c => c <| cn_rx ::= (fun n => n + 1) |>);; mret RT_EOK.

Fixpoint getchar_loop (fuel : nat) (device : Z) : CN getchar_result :=
  match fuel with
  | O => st_fail
  | S fuel =>
      n ← on_devices (rt_device_read drv device (-1) ch 1);
      if n =? 1 then x ← on_devices (in_reg (in_mem (ld ch))); mret (GotChar x) else
      c ← st_get;
      if 0 <? cn_rx c then
        st_modify (fun c => c <| cn_rx ::= (fun n => n - 1) |>);;
        if negb (cn_device c =? device) then
          if cn_device c =? 0 then mret (GotChar (-1)) else getchar_loop fuel (cn_device c)
        else getchar_loop fuel device
      else mret (Sleeps device)
  end.

Definition finsh_getchar : CN getchar_result :=
  on_devices (in_reg (in_mem (sb ch 0)));;
  c ← st_get;
  if cn_device c =? 0 then mret (GotChar (-1)) else getchar_loop (S (Z.to_nat (cn_rx c))) (cn_device c).

(** A release woke the thread. *)
Definition finsh_getchar_resume (device : Z) : CN getchar_result :=
  c ← st_get;
  if negb (cn_device c =? device) then
    if cn_device c =? 0 then mret (GotChar (-1)) else getchar_loop (S (Z.to_nat (cn_rx c))) (cn_device c)
  else getchar_loop (S (Z.to_nat (cn_rx c))) device.

Definition finsh_set_device (device_name : Z) : CN unit :=
  dev ← on_devices (rt_device_find device_name);
  match dev with
  | None =>
      l ← on_devices (in_reg (in_mem (string_at device_name)));
      on_shell (puts (no_such_device ++ l ++ newline))
  | Some dev =>
      c ← st_get;
      let device := cn_device c in
      (* check whether it's a same device *)
      if dev =? device then mret tt else
      (* open this device and set the new device in finsh shell *)
      r ← on_devices (rt_device_open drv dev console_oflag);
      when (r =? RT_EOK) (
        (* close old finsh device *)
        when (negb (device =? 0)) (
          on_devices (rt_device_close drv device);;
          on_devices (rt_device_set_rx_indicate device None);;
          mret tt);;
        (* clear line buffer before switch to new device *)
        on_shell (mem (rt_memset (line shell_at) 0 (FINSH_CMD_SIZE + 1)));;
        on_shell (set_position 0;; set_curpos 0);;
        st_modify (fun c => c <| cn_device := dev |>);;
        on_devices (rt_device_set_rx_indicate dev (Some rx_ind));;
        mret tt)
  end.

Definition finsh_get_device : CN Z := c ← st_get; mret (ob_name (cn_device c)).
End Console.
