(* ===== verification/System.v ===== *)
(** * The running system: ticks, interrupts, boot and the steps of threads

    src/irq.c, the tick of src/clock.c, the start of src/components.c and
    src/idle.c, and the transition system of the whole kernel: every thread
    calls the kernel's functions in any order, interrupts arrive between the
    calls.  [rt_interrupt_get_nest] is in Kernel.v. *)

From S2P Require Import Prelude Kernel Timer Sched IpcList Thread Sem Mutex Event Mailbox Mqueue.
From S2P Require Import Mempool ThreadExit DataQueue Completion.
Open Scope rt_scope.

(** ** irq.c *)

Definition rt_interrupt_enter : K unit := st_modify (fun k => k <| k_irq_nest ::= (fun n => u32 (n + 1)) |>).
Definition rt_interrupt_leave : K unit := st_modify (fun k => k <| k_irq_nest ::= (fun n => u32 (n - 1)) |>).

Section System.
(** The callbacks of timer objects, of [thread->cleanup] and of data queues, bounds
    on the chains of mutex owners and on the timers that expire in one tick. *)
Context (user_timeout : Z -> K unit) (cleanup : Z -> K unit) (evt_notify : Z -> Z -> Z -> K unit) (fuel : nat).

(** The [timeout_func] of a timer; [_thread_timeout] for a thread's own timer. *)
Definition timeout_func (i : tmid) : K unit :=
  match i with TThread t => _thread_timeout t | TUser u => user_timeout u end.

Definition rt_tick_increase : K unit :=
  n ← rt_interrupt_get_nest;
  rt_assert (0 <? n);;
  st_modify (fun k => k <| k_tick ::= (fun n => u32 (n + 1)) |>);;
  rt_sched_tick_increase;;
  rt_timer_check timeout_func fuel.

(** The board's tick interrupt. *)
Definition SysTick_Handler : K unit :=
  rt_interrupt_enter;;
  rt_tick_increase;;
  rt_interrupt_leave.

(** ** Boot *)

Definition rt_thread_idle_init (idle_thread : Z) : K unit :=
  rt_thread_init idle_thread (RT_THREAD_PRIORITY_MAX - 1) 32;;
  rt_thread_startup idle_thread;;
  mret tt.

Definition RT_MAIN_THREAD_PRIORITY := 10.

Definition rt_application_init (mem stack : option Z) : K unit :=
  tid ← rt_thread_create mem stack RT_MAIN_THREAD_PRIORITY 20;
  tid ← st_opt tid; (* RT_ASSERT(tid != RT_NULL) *)
  rt_thread_startup tid;;
  mret tt.

Definition rt_system_timer_init : K unit := st_modify (fun k => k <| k_timer_list := [] |>).

Definition rtthread_startup (mem stack : option Z) (idle_thread : Z) : K unit :=
  rt_system_timer_init;;
  rt_system_scheduler_init;;
  rt_application_init mem stack;;
  rt_thread_idle_init idle_thread;;
  rt_system_scheduler_start.

(** ** Calls of the kernel *)

(** The kernel's entry points with their arguments. *)
Inductive call :=
  | ThreadInit (t priority tick : Z) | ThreadCreate (mem stack : option Z) (priority tick : Z)
  | ThreadStartup (t : Z) | ThreadDetach (t : Z) | ThreadDelete (t : Z) | ThreadExit
  | ThreadYield | ThreadDelay (tick : Z) | ThreadMdelay (ms : Z) | ThreadDelayUntil (tick inc : Z)
  | ThreadSuspend (t : Z) (f : suspend_flag) | ThreadResume (t : Z)
  | ThreadControl (t : Z) (cmd : thread_cmd) | DefunctExecute
  | EnterCritical | ExitCritical | TickGet
  | TimerInit (u func parm time flag : Z) | TimerCreate (mem : option Z) (func parm time flag : Z)
  | TimerDetach (u : Z) | TimerDelete (u : Z) | TimerStart (u : Z) | TimerStop (u : Z)
  | TimerControl (u : Z) (cmd : timer_cmd)
  | SemInit (s value flag : Z) | SemCreate (mem : option Z) (value flag : Z) | SemDetach (s : Z)
  | SemDelete (s : Z) | SemTake (s timeout : Z) (f : suspend_flag) | SemRelease (s : Z)
  | SemControl (s cmd arg : Z)
  | MutexInit (m : Z) | MutexCreate (mem : option Z) | MutexDetach (m : Z) | MutexDelete (m : Z)
  | MutexTake (m timeout : Z) (f : suspend_flag) | MutexRelease (m : Z)
  | MutexSetCeiling (m : option Z) (priority : Z) | MutexGetCeiling (m : Z)
  | EventInit (e flag : Z) | EventCreate (mem : option Z) (flag : Z) | EventDetach (e : Z)
  | EventDelete (e : Z) | EventSend (e set : Z)
  | EventRecv (e set option timeout : Z) (f : suspend_flag) | EventControl (e cmd : Z)
  | MbInit (m : Z) (pool : list Z) (size flag : Z)
  | MbCreate (mem : option Z) (pool : option (list Z)) (size flag : Z) | MbDetach (m : Z)
  | MbDelete (m : Z) | MbSend (m value timeout : Z) (f : suspend_flag) | MbUrgent (m value : Z)
  | MbRecv (m timeout : Z) (f : suspend_flag) | MbControl (m cmd : Z)
  | MqInit (q pool msg_size pool_size flag : Z)
  | MqCreate (mem pool : option Z) (msg_size max_msgs flag : Z) | MqDetach (q : Z) | MqDelete (q : Z)
  | MqSend (q : Z) (buf : list Z) (timeout : Z) (f : suspend_flag) | MqUrgent (q : Z) (buf : list Z)
  | MqRecv (q size timeout : Z) (f : suspend_flag) | MqControl (q cmd : Z)
  | MpInit (p start size block_size : Z) | MpCreate (mem start : option Z) (count block_size : Z)
  | MpDetach (p : Z) | MpDelete (p : Z) | MpAlloc (p time : Z) | MpFree (home block : Z)
  | DqInit (q : Z) (items : option (list data_item)) (size lwm notify : Z)
  | DqPush (q data_ptr data_size timeout : Z) | DqPop (q timeout : Z) | DqPeek (q : Z) | DqReset (q : Z)
  | DqDeinit (q : Z) | DqLen (q : Z)
  | CompInit (c : Z) | CompWait (c timeout : Z) | CompDone (c : Z) | CompWakeup (c : Z).

(** A call that returns a number, a pointer or nothing. *)
Definition returns (m : K Z) : K outcome := r ← m; mret (Done r []).
Definition returns_ptr (m : K (option Z)) : K outcome := r ← m; mret (Done (default 0 r) []).
Definition returns_void (m : K unit) : K outcome := m;; mret (Done 0 []).

Definition exec (c : call) : K outcome :=
  match c with
  | ThreadInit t priority tick => returns (rt_thread_init t priority tick)
  | ThreadCreate mem stack priority tick => returns_ptr (rt_thread_create mem stack priority tick)
  | ThreadStartup t => returns (rt_thread_startup t)
  | ThreadDetach t => rt_thread_detach fuel t
  | ThreadDelete t => rt_thread_delete fuel t
  | ThreadExit => _thread_exit
  | ThreadYield => returns rt_thread_yield
  | ThreadDelay tick => rt_thread_delay tick
  | ThreadMdelay ms => rt_thread_mdelay ms
  | ThreadDelayUntil tick inc => rt_thread_delay_until tick inc
  | ThreadSuspend t f => returns (rt_thread_suspend_with_flag t f)
  | ThreadResume t => returns (rt_thread_resume t)
  | ThreadControl t cmd => rt_thread_control fuel t cmd
  | DefunctExecute => returns_void (rt_defunct_execute cleanup)
  | EnterCritical => returns rt_enter_critical
  | ExitCritical => returns_void rt_exit_critical
  | TickGet => returns rt_tick_get
  | TimerInit u func parm time flag => returns_void (rt_timer_init (TUser u) func parm time flag)
  | TimerCreate mem func parm time flag => returns_ptr (rt_timer_create mem func parm time flag)
  | TimerDetach u => returns (rt_timer_detach (TUser u))
  | TimerDelete u => returns (rt_timer_delete u)
  | TimerStart u => returns (rt_timer_start (TUser u))
  | TimerStop u => returns (rt_timer_stop (TUser u))
  | TimerControl u cmd => out ← rt_timer_control (TUser u) cmd; mret (Done RT_EOK out)
  | SemInit s value flag => returns (rt_sem_init s value flag)
  | SemCreate mem value flag => returns_ptr (rt_sem_create mem value flag)
  | SemDetach s => returns (rt_sem_detach s)
  | SemDelete s => returns (rt_sem_delete s)
  | SemTake s timeout f => _rt_sem_take s timeout f
  | SemRelease s => returns (rt_sem_release s)
  | SemControl s cmd arg => returns (rt_sem_control s cmd arg)
  | MutexInit m => returns (rt_mutex_init m)
  | MutexCreate mem => returns_ptr (rt_mutex_create mem)
  | MutexDetach m => rt_mutex_detach m
  | MutexDelete m => rt_mutex_delete m
  | MutexTake m timeout f => _rt_mutex_take fuel m timeout f
  | MutexRelease m => rt_mutex_release m
  | MutexSetCeiling m priority => returns (rt_mutex_setprioceiling fuel m priority)
  | MutexGetCeiling m => returns (rt_mutex_getprioceiling m)
  | EventInit e flag => returns (rt_event_init e flag)
  | EventCreate mem flag => returns_ptr (rt_event_create mem flag)
  | EventDetach e => returns (rt_event_detach e)
  | EventDelete e => rt_event_delete e
  | EventSend e set => returns (rt_event_send e set)
  | EventRecv e set option timeout f => _rt_event_recv e set option timeout f
  | EventControl e cmd => returns (rt_event_control e cmd)
  | MbInit m pool size flag => returns (rt_mb_init m pool size flag)
  | MbCreate mem pool size flag => returns_ptr (rt_mb_create mem pool size flag)
  | MbDetach m => returns (rt_mb_detach m)
  | MbDelete m => rt_mb_delete m
  | MbSend m value timeout f => _rt_mb_send_wait m value timeout f
  | MbUrgent m value => returns (rt_mb_urgent m value)
  | MbRecv m timeout f => _rt_mb_recv m timeout f
  | MbControl m cmd => returns (rt_mb_control m cmd)
  | MqInit q pool msg_size pool_size flag => returns (rt_mq_init q pool msg_size pool_size flag)
  | MqCreate mem pool msg_size max_msgs flag => returns_ptr (rt_mq_create mem pool msg_size max_msgs flag)
  | MqDetach q => returns (rt_mq_detach q)
  | MqDelete q => rt_mq_delete q
  | MqSend q buf timeout f => _rt_mq_send_wait q buf timeout f
  | MqUrgent q buf => returns (rt_mq_urgent q buf)
  | MqRecv q size timeout f => _rt_mq_recv q size timeout f
  | MqControl q cmd => returns (rt_mq_control q cmd)
  | MpInit p start size block_size => returns (rt_mp_init p start size block_size)
  | MpCreate mem start count block_size => returns_ptr (rt_mp_create mem start count block_size)
  | MpDetach p => returns (rt_mp_detach p)
  | MpDelete p => returns (rt_mp_delete p)
  | MpAlloc p time => rt_mp_alloc p time
  | MpFree home block => returns_void (rt_mp_free home block)
  | DqInit q items size lwm notify => returns (rt_data_queue_init q items size lwm notify)
  | DqPush q data_ptr data_size timeout => rt_data_queue_push evt_notify q data_ptr data_size timeout
  | DqPop q timeout => rt_data_queue_pop evt_notify q timeout
  | DqPeek q => rt_data_queue_peek q
  | DqReset q => rt_data_queue_reset q
  | DqDeinit q => rt_data_queue_deinit q
  | DqLen q => returns (rt_data_queue_len q)
  | CompInit c => returns_void (rt_completion_init c)
  | CompWait c timeout => rt_completion_wait c timeout
  | CompDone c => returns_void (rt_completion_done c)
  | CompWakeup c => returns (rt_completion_wakeup c)
  end.

(** The code of a call after the point where its thread gave up the processor. *)
Definition resume (c : pc) : K outcome :=
  match c with
  | PcSchedRet again r => sched_ret again r
  | PcSemTake s => _rt_sem_take_resume s
  | PcMutexTake m => _rt_mutex_take_resume fuel m
  | PcMutexTake2 m => _rt_mutex_take_resume2 fuel m
  | PcMutexFail ret => _rt_mutex_take_failed ret
  | PcMutexDetach m del => rt_mutex_detach_resume m del
  | PcEventRecv e => _rt_event_recv_resume e
  | PcEventDelete e => rt_event_delete_resume e
  | PcMbDelete m => rt_mb_delete_resume m
  | PcMqDelete q => rt_mq_delete_resume q
  | PcMbSend m value timeout tick f => _rt_mb_send_wait_resume m value timeout tick f
  | PcMbRecv m timeout tick f => _rt_mb_recv_resume m timeout tick f
  | PcMqSend q buf timeout tick f => _rt_mq_send_wait_resume q buf timeout tick f
  | PcMqRecv q size timeout tick f => _rt_mq_recv_resume q size timeout tick f
  | PcMpAlloc p time tick => rt_mp_alloc_resume p time tick
  | PcDqPush q data size timeout => rt_data_queue_push_resume evt_notify q data size timeout
  | PcDqPop q timeout => rt_data_queue_pop_resume evt_notify q timeout
  | PcDqPopEnd q data size => dq_pop_end evt_notify q data size
  | PcDqDeinit q again => rt_data_queue_deinit_resume q again
  | PcCompWait c => rt_completion_wait_resume c
  | PcSleep => _thread_sleep_resume
  | PcDelayUntil tick => rt_thread_delay_until_resume tick
  | PcDelayUntil2 tick => rt_thread_delay_until_resume2 tick
  | PcExit => sched_ret true RT_EOK
  end.

(** The ranges of the unsigned arguments the proofs rely on. *)
Definition call_ok (c : call) : Prop :=
  match c with
  | ThreadInit _ priority _ | ThreadCreate _ _ priority _ | MutexSetCeiling _ priority => 0 <= priority
  | ThreadControl _ (CHANGE_PRIORITY priority) => 0 <= priority
  | _ => True
  end.

(** The calls an interrupt handler may make: those that return to it; the
    objects of threads are set up and released by threads. *)
Definition isr_call (c : call) : Prop :=
  match c with ThreadInit _ _ _ | DefunctExecute => False | _ => True end.

(** ** The transition system *)

(** The store, and the threads that stand inside a call. *)
Record sys := mkSys { s_kernel : kernel; s_pcs : gmap Z pc }.

(** A new thread object starts at its entry function. *)
Definition reset_pcs (c : call) (pcs : gmap Z pc) : gmap Z pc :=
  match c with
  | ThreadInit t _ _ => delete t pcs
  | ThreadCreate (Some t) _ _ _ => delete t pcs
  | _ => pcs
  end.

Definition leave_at (o : outcome) (t : Z) (pcs : gmap Z pc) : gmap Z pc :=
  match o with Waiting c => <[t := c]> pcs | Done _ _ => delete t pcs end.

(** The current thread has not been closed. *)
Definition may_call (k : kernel) (t : Z) : Prop :=
  k_current k = Some t /\ k_irq_nest k = 0 /\
  forall th, k_threads k !! t = Some th -> stat_of th <> RT_THREAD_CLOSE.

Inductive step : sys -> sys -> Prop :=
  | step_call k pcs t c o k' :
      may_call k t -> pcs !! t = None -> call_ok c -> exec c k = Some (o, k') ->
      step (mkSys k pcs) (mkSys k' (leave_at o t (reset_pcs c pcs)))
  | step_resume k pcs t p o k' :
      k_current k = Some t -> k_irq_nest k = 0 -> pcs !! t = Some p -> resume p k = Some (o, k') ->
      step (mkSys k pcs) (mkSys k' (leave_at o t pcs))
  | step_tick k pcs k' :
      k_irq_nest k = 0 -> SysTick_Handler k = Some (tt, k') -> step (mkSys k pcs) (mkSys k' pcs)
  | step_isr k pcs c r out k' :
      k_irq_nest k = 0 -> k_current k <> None -> call_ok c -> isr_call c ->
      (rt_interrupt_enter;; o ← exec c; rt_interrupt_leave;; mret o) k = Some (Done r out, k') ->
      step (mkSys k pcs) (mkSys k' (reset_pcs c pcs)).

(** The memory at reset: no thread, no object, timer memory zeroed. *)
Record reset_state (k : kernel) : Prop := {
  rs_threads : k_threads k = ∅;
  rs_lists : forall l, k_lists k l = [];
  rs_group : k_group k = 0;
  rs_current : k_current k = None;
  rs_timers : k_timer_list k = [];
  rs_exec : k_timer_exec k = [];
  rs_utimers : forall u tm, k_utimers k !! u = Some tm -> tm = mkTimer false false 0 0 0 0 0;
  rs_mutexes : k_mutexes k = ∅;
}.

(** The systems that the boot and any run of steps lead to. *)
Inductive reachable : sys -> Prop :=
  | reach_boot k0 mem stack idle k :
      reset_state k0 -> rtthread_startup mem stack idle k0 = Some (tt, k) -> reachable (mkSys k ∅)
  | reach_step s s' : reachable s -> step s s' -> reachable s'.
End System.
