(* ===== verification/KernelInv.v ===== *)
(** * The invariant of the kernel store

    What holds of threads, ready queues, the group word, suspend lists and
    thread timers between any two kernel operations, and the rules with which
    the operations are shown to keep it.  [inv_ex E] is the invariant while the
    threads of [E] are in transition between two states. *)

From S2P Require Import Prelude Bitmap Kernel Timer Sched.
Open Scope rt_scope.

(** ** Definition *)

(** The list heads on which threads wait for an object. *)
Definition susp_list (l : lid) : bool :=
  match l with LReady _ | LDefunct => false | _ => true end.

Definition ready_list (l : lid) : bool := match l with LReady _ => true | _ => false end.

Definition timer_active (th : thread) : bool :=
  has_flag (tm_flag (th_timer th)) RT_TIMER_FLAG_ACTIVATED.

(** The state of one thread against the lists it is in: [ls] are the thread
    lists, [tl] the timer list, [cur] the current thread. *)
Record stat_ok (ls : lid -> list Z) (tl : list tmid) (cur : option Z) (t : Z) (th : thread) : Prop := {
  so_ready : stat_of th = RT_THREAD_READY <-> exists p, t ∈ ls (LReady p);
  so_running : stat_of th = RT_THREAD_RUNNING -> cur = Some t;
  so_valid : stat_of th <> RT_THREAD_CLOSE -> th_valid th = true;
  so_current : cur = Some t ->
    stat_of th <> RT_THREAD_READY /\ stat_of th <> RT_THREAD_INIT;
  so_waiting : forall l, susp_list l = true -> t ∈ ls l ->
    is_suspended th = true /\ (th_ttmr th = true -> TThread t ∈ tl);
  so_defunct : t ∈ ls LDefunct -> stat_of th = RT_THREAD_CLOSE;
  so_timer : TThread t ∈ tl -> is_suspended th = true /\ th_ttmr th = true;
  so_pending : th_pending th <> None ->
    stat_of th <> RT_THREAD_INIT /\
    (is_suspended th = true -> th_ttmr th = true -> TThread t ∈ tl);
  so_tvalid : tm_valid (th_timer th) = negb (stat_of th =? RT_THREAD_CLOSE);
}.

(** What holds of a thread in transition as well. *)
Record thread_wf (ls : lid -> list Z) (tl : list tmid) (t : Z) (th : thread) : Prop := {
  tw_listed : forall l, t ∈ ls l -> th_valid th = true;
  tw_ready : forall p, t ∈ ls (LReady p) ->
    th_cur_prio th = p /\ th_mask th = 2 ^ p;
  tw_prio : 0 <= th_cur_prio th < RT_THREAD_PRIORITY_MAX /\
            0 <= th_init_prio th < RT_THREAD_PRIORITY_MAX;
  tw_mask : th_mask th = 0 /\ (stat_of th = RT_THREAD_INIT \/ stat_of th = RT_THREAD_CLOSE) \/
            th_mask th = 2 ^ th_cur_prio th;
  tw_active : TThread t ∈ tl <-> timer_active th = true;
  tw_tvalid : TThread t ∈ tl -> tm_valid (th_timer th) = true;
  tw_oneshot : has_flag (tm_flag (th_timer th)) RT_TIMER_FLAG_PERIODIC = false;
  tw_thread_timer : tm_valid (th_timer th) = true ->
    has_flag (tm_flag (th_timer th)) RT_TIMER_FLAG_THREAD_TIMER = true;
}.

(** An active timer object is a live timer. *)
Definition utimer_ok (tm : timer) : Prop :=
  has_flag (tm_flag tm) RT_TIMER_FLAG_ACTIVATED = true -> tm_valid tm = true.

Record inv_ex (E : Z -> Prop) (k : kernel) : Prop := {
  i_nodup : forall l, NoDup (k_lists k l);
  i_uniq : forall l1 l2 t, t ∈ k_lists k l1 -> t ∈ k_lists k l2 -> l1 = l2;
  i_exists : forall l t, t ∈ k_lists k l -> is_Some (k_threads k !! t);
  i_group : 0 <= k_group k < 2 ^ 32;
  i_bits : forall p, 0 <= p < RT_THREAD_PRIORITY_MAX ->
    Z.testbit (k_group k) p = negb (bool_decide (k_lists k (LReady p) = []));
  i_threads : forall t th, k_threads k !! t = Some th ->
    thread_wf (k_lists k) (k_timer_list k) t th;
  i_stat : forall t th, k_threads k !! t = Some th -> ~ E t ->
    stat_ok (k_lists k) (k_timer_list k) (k_current k) t th;
  i_cur : forall t, k_current k = Some t -> is_Some (k_threads k !! t);
  i_tnodup : NoDup (k_timer_list k);
  i_texists : forall t, TThread t ∈ k_timer_list k -> is_Some (k_threads k !! t);
  i_utimer : forall u, TUser u ∈ k_timer_list k -> exists tm, k_utimers k !! u = Some tm /\
    has_flag (tm_flag tm) RT_TIMER_FLAG_ACTIVATED = true;
  i_uvalid : forall u tm, k_utimers k !! u = Some tm -> utimer_ok tm;
  i_mutex : forall m x, k_mutexes k !! m = Some x -> 0 <= mx_priority x /\ 0 <= mx_ceiling x;
}.

(** The invariant between operations. *)
Definition inv : kernel -> Prop := inv_ex (fun _ => False).

(** ** Status arithmetic *)

Lemma land_lor_stat s old : 0 <= s < 8 ->
  Z.land (with_stat s old) RT_THREAD_STAT_MASK = s.
Proof.
  intros Hs. unfold with_stat, RT_THREAD_STAT_MASK. apply Z.bits_inj'. intros n Hn.
  rewrite Z.land_spec, Z.lor_spec, Z.ldiff_spec.
  assert (7 = Z.ones 3) as -> by reflexivity.
  destruct (Z.ltb_spec n 3).
  - rewrite Z.ones_spec_low by lia. simpl. rewrite andb_false_r, orb_false_r, andb_true_r. reflexivity.
  - rewrite Z.ones_spec_high by lia. rewrite andb_false_r.
    symmetry. apply (bits_above s 3); lia.
Qed.

Lemma is_suspended_stat th :
  is_suspended th = (Z.land (stat_of th) RT_THREAD_SUSPEND_MASK =? RT_THREAD_SUSPEND_MASK).
Proof. unfold is_suspended, stat_of. rewrite <- Z.land_assoc. reflexivity. Qed.

(** ** What the invariant reads of a thread *)

(** Updates of other fields keep it. *)
Definition same_sched (th th' : thread) : Prop :=
  th_valid th' = th_valid th /\ stat_of th' = stat_of th /\ th_ttmr th' = th_ttmr th /\
  th_cur_prio th' = th_cur_prio th /\ th_init_prio th' = th_init_prio th /\
  th_mask th' = th_mask th /\ th_pending th' = th_pending th /\
  timer_active th' = timer_active th /\
  has_flag (tm_flag (th_timer th')) RT_TIMER_FLAG_PERIODIC =
    has_flag (tm_flag (th_timer th)) RT_TIMER_FLAG_PERIODIC /\
  has_flag (tm_flag (th_timer th')) RT_TIMER_FLAG_THREAD_TIMER =
    has_flag (tm_flag (th_timer th)) RT_TIMER_FLAG_THREAD_TIMER /\
  tm_valid (th_timer th') = tm_valid (th_timer th).

(** [k'] differs from [k] in what concerns thread [t] only. *)
Record frame (t : Z) (k k' : kernel) : Prop := {
  f_threads : forall x, x <> t -> k_threads k' !! x = k_threads k !! x;
  f_lists : forall l x, x <> t -> x ∈ k_lists k' l <-> x ∈ k_lists k l;
  f_current : forall x, x <> t -> k_current k' = Some x <-> k_current k = Some x;
  f_timers : forall x, x <> TThread t -> x ∈ k_timer_list k' <-> x ∈ k_timer_list k;
  f_utimers : k_utimers k' = k_utimers k;
}.

Section Ext.
Context (ls ls' : lid -> list Z) (tl tl' : list tmid) (cur cur' : option Z) (t : Z).
Hypothesis Hls : forall l, t ∈ ls' l <-> t ∈ ls l.
Hypothesis Htl : TThread t ∈ tl' <-> TThread t ∈ tl.
Hypothesis Hcur : cur' = Some t <-> cur = Some t.

Lemma thread_wf_ext th : thread_wf ls tl t th -> thread_wf ls' tl' t th.
Proof.
  intros []. split; rewrite ?Htl; try assumption; intros l Hl; rewrite Hls in Hl; eauto.
Qed.

Lemma stat_ok_ext th : stat_ok ls tl cur t th -> stat_ok ls' tl' cur' t th.
Proof.
  intros []. split; rewrite ?Htl, ?Hcur, ?Hls; try assumption.
  - rewrite so_ready0. split; intros [p Hp]; exists p; apply Hls; assumption.
  - intros l. rewrite Hls, Htl. eauto.
Qed.
End Ext.

(** The rule for every step that touches a single thread [t]. *)
Lemma inv_frame (E E' : Z -> Prop) t k k' :
  inv_ex E k -> frame t k k' ->
  (forall x, x <> t -> E x -> E' x) ->
  (forall l, NoDup (k_lists k' l)) ->
  (forall l1 l2, t ∈ k_lists k' l1 -> t ∈ k_lists k' l2 -> l1 = l2) ->
  (forall l, t ∈ k_lists k' l -> is_Some (k_threads k' !! t)) ->
  0 <= k_group k' < 2 ^ 32 ->
  (forall p, 0 <= p < RT_THREAD_PRIORITY_MAX ->
    Z.testbit (k_group k') p = negb (bool_decide (k_lists k' (LReady p) = []))) ->
  (forall th, k_threads k' !! t = Some th -> thread_wf (k_lists k') (k_timer_list k') t th) ->
  (forall th, k_threads k' !! t = Some th -> ~ E' t ->
    stat_ok (k_lists k') (k_timer_list k') (k_current k') t th) ->
  (k_current k' = Some t -> is_Some (k_threads k' !! t)) ->
  NoDup (k_timer_list k') ->
  (TThread t ∈ k_timer_list k' -> is_Some (k_threads k' !! t)) ->
  (forall m x, k_mutexes k' !! m = Some x -> 0 <= mx_priority x /\ 0 <= mx_ceiling x) ->
  inv_ex E' k'.
Proof.
  intros I F HE Hnd Hun Hex Hg Hb Hwf Hso Hcur Htn Hte Hm.
  destruct F as [Ft Fl Fc Ftm Fu]. destruct I. split; try assumption.
  - intros l1 l2 x H1 H2. destruct (decide (x = t)) as [->|Hx]; [eauto|].
    apply (Fl _ x Hx) in H1. apply (Fl _ x Hx) in H2. eauto.
  - intros l x H. destruct (decide (x = t)) as [->|Hx]; [eauto|].
    rewrite Ft by assumption. apply (Fl _ x Hx) in H. eauto.
  - intros x th H. destruct (decide (x = t)) as [->|Hx]; [auto|].
    rewrite Ft in H by assumption. eapply thread_wf_ext; [| |eauto]; [auto|apply Ftm; congruence].
  - intros x th H HnE. destruct (decide (x = t)) as [->|Hx]; [auto|].
    rewrite Ft in H by assumption.
    eapply stat_ok_ext; [| | |eauto]; [auto|apply Ftm; congruence|auto].
  - intros x H. destruct (decide (x = t)) as [->|Hx]; [auto|].
    rewrite Ft by assumption. apply i_cur0, Fc; assumption.
  - intros x H. destruct (decide (x = t)) as [->|Hx]; [auto|].
    rewrite Ft by assumption. apply i_texists0, Ftm; [congruence|assumption].
  - intros u H. rewrite Fu. apply i_utimer0, Ftm; [congruence|assumption].
  - rewrite Fu. assumption.
Qed.

(** A weaker exception set. *)
Lemma inv_weaken (E E' : Z -> Prop) k :
  inv_ex E k -> (forall t, E t -> E' t) -> inv_ex E' k.
Proof. intros [] H. split; try assumption. intros t th Ht HE. apply i_stat0; auto. Qed.

(** A thread whose state fits again leaves the exceptions. *)
Lemma inv_close (E E' : Z -> Prop) t k :
  inv_ex E k -> (forall x, E x -> x = t \/ E' x) ->
  (forall th, k_threads k !! t = Some th ->
    stat_ok (k_lists k) (k_timer_list k) (k_current k) t th) -> inv_ex E' k.
Proof.
  intros [] H Ht. split; try assumption. intros x th Hx HE.
  destruct (decide (x = t)) as [->|]; [auto|]. apply i_stat0; [assumption|].
  intros Hn. destruct (H _ Hn); auto.
Qed.

(** ** Primitive steps *)

Lemma get_thread_Some t k th k' :
  get_thread t k = Some (th, k') -> k_threads k !! t = Some th /\ k' = k.
Proof. unfold get_thread. destruct (k_threads k !! t); [intros [= -> ->]; auto|discriminate]. Qed.

Lemma upd_thread_Some t f k u k' :
  upd_thread t f k = Some (u, k') ->
  exists th, k_threads k !! t = Some th /\ k' = k <| k_threads ::= insert t (f th) |>.
Proof.
  intros H. unfold upd_thread in H. inv_bind H. apply get_thread_Some in Hs as [Ht ->].
  injection H as _ <-. eauto.
Qed.

(** A new record for thread [t]. *)
Lemma inv_set_thread (E E' : Z -> Prop) t th' k :
  inv_ex E k -> (forall x, x <> t -> E x -> E' x) ->
  thread_wf (k_lists k) (k_timer_list k) t th' ->
  (~ E' t -> stat_ok (k_lists k) (k_timer_list k) (k_current k) t th') ->
  inv_ex E' (k <| k_threads ::= insert t th' |>).
Proof.
  intros I HE Hwf Hso. pose proof I as [].
  assert (is_Some (<[t:=th']> (k_threads k) !! t)) as Hs by (rewrite lookup_insert_eq; eauto).
  eapply (inv_frame E E' t k); cbv [set_field]; cbn; eauto.
  - split; cbn; intros; rewrite ?lookup_insert_ne by congruence; reflexivity.
  - intros th. rewrite lookup_insert_eq. intros [= <-]. assumption.
  - intros th. rewrite lookup_insert_eq. intros [= <-]. assumption.
Qed.

Lemma thread_wf_same ls tl t th th' :
  same_sched th th' -> thread_wf ls tl t th -> thread_wf ls tl t th'.
Proof.
  intros (Hv & Hs & Ht & Hc & Hi & Hm & Hp & Ha & Hper & Hth & Htv) [].
  split; rewrite ?Hv, ?Hs, ?Ht, ?Hc, ?Hi, ?Hm, ?Ha, ?Hper, ?Hth, ?Htv; assumption.
Qed.

Lemma is_suspended_same th th' : stat_of th' = stat_of th -> is_suspended th' = is_suspended th.
Proof. intros H. rewrite !is_suspended_stat, H. reflexivity. Qed.

Lemma stat_ok_same ls tl cur t th th' :
  same_sched th th' -> stat_ok ls tl cur t th -> stat_ok ls tl cur t th'.
Proof.
  intros (Hv & Hs & Ht & Hc & Hi & Hm & Hp & Ha & Hper & Hth & Htv) [].
  pose proof (is_suspended_same _ _ Hs) as Hss.
  split; rewrite ?Hv, ?Hs, ?Hss, ?Ht, ?Hp, ?Htv; assumption.
Qed.

Lemma upd_thread_same E t f :
  (forall th, same_sched th (f th)) -> preserves (inv_ex E) (upd_thread t f).
Proof.
  intros Hf k u k' I (th & Ht & ->)%upd_thread_Some.
  eapply inv_set_thread; eauto.
  - eapply thread_wf_same; [apply Hf|]. eapply i_threads; eauto.
  - intros HE. eapply stat_ok_same; [apply Hf|]. eapply i_stat; eauto.
Qed.

(** Steps on the rest of the store. *)
Lemma inv_same E k k' :
  inv_ex E k -> k_threads k' = k_threads k -> k_lists k' = k_lists k ->
  k_group k' = k_group k -> k_current k' = k_current k ->
  k_timer_list k' = k_timer_list k -> k_utimers k' = k_utimers k ->
  (forall m x, k_mutexes k' !! m = Some x -> 0 <= mx_priority x /\ 0 <= mx_ceiling x) ->
  inv_ex E k'.
Proof.
  intros [] Ht Hl Hg Hc Htl Hu Hm.
  split; rewrite ?Ht, ?Hl, ?Hg, ?Hc, ?Htl, ?Hu; assumption.
Qed.

Lemma preserves_same E (f : kernel -> kernel) :
  (forall k, k_threads (f k) = k_threads k) -> (forall k, k_lists (f k) = k_lists k) ->
  (forall k, k_group (f k) = k_group k) -> (forall k, k_current (f k) = k_current k) ->
  (forall k, k_timer_list (f k) = k_timer_list k) -> (forall k, k_utimers (f k) = k_utimers k) ->
  (forall k, k_mutexes (f k) = k_mutexes k) ->
  preserves (inv_ex E) (st_modify f).
Proof.
  intros. apply preserves_modify. intros k I. eapply inv_same; eauto.
  rewrite H5. apply (i_mutex _ _ I).
Qed.

Lemma get_thread_preserves I t : preserves I (get_thread t).
Proof. intros k th k' H [_ ->]%get_thread_Some. assumption. Qed.

Lemma get_obj_preserves {O} (proj : kernel -> gmap Z O) I i : preserves I (get_obj proj i).
Proof. intros k o k' H. unfold get_obj. destruct (proj k !! i); [intros [= _ <-]; assumption|discriminate]. Qed.

(** [preserve_same]: the step writes none of the fields of the invariant. *)
Ltac preserve_same := apply preserves_same; intros; reflexivity.

Lemma upd_mutex_preserves E m f :
  (forall x, 0 <= mx_priority x /\ 0 <= mx_ceiling x ->
             0 <= mx_priority (f x) /\ 0 <= mx_ceiling (f x)) ->
  preserves (inv_ex E) (upd_obj k_mutexes m f).
Proof.
  intros Hf k u k' I H. unfold upd_obj in H. inv_bind H.
  unfold get_obj in Hs. destruct (k_mutexes k !! m) eqn:Hm; [|discriminate].
  injection Hs as <- <-. injection H as _ <-.
  eapply inv_same; [eassumption|reflexivity..|].
  cbn. intros i x. destruct (decide (i = m)) as [->|Hi].
  - rewrite lookup_insert_eq. intros [= <-]. eapply Hf, i_mutex; eauto.
  - rewrite lookup_insert_ne by congruence. apply (i_mutex _ _ I).
Qed.

Lemma inv_stat k t th :
  inv k -> k_threads k !! t = Some th ->
  stat_ok (k_lists k) (k_timer_list k) (k_current k) t th.
Proof. intros I Ht. apply (i_stat _ _ I _ _ Ht). exact (fun H => H). Qed.

(** Steps on the timer list and the timer objects. *)
Lemma inv_utimers E k k' :
  inv_ex E k -> k_threads k' = k_threads k -> k_lists k' = k_lists k ->
  k_group k' = k_group k -> k_current k' = k_current k -> k_mutexes k' = k_mutexes k ->
  NoDup (k_timer_list k') ->
  (forall t, TThread t ∈ k_timer_list k' <-> TThread t ∈ k_timer_list k) ->
  (forall u, TUser u ∈ k_timer_list k' -> exists tm, k_utimers k' !! u = Some tm /\
    has_flag (tm_flag tm) RT_TIMER_FLAG_ACTIVATED = true) ->
  (forall u tm, k_utimers k' !! u = Some tm -> utimer_ok tm) ->
  inv_ex E k'.
Proof.
  intros I Ht Hl Hg Hc Hm Hnd Htl Hu Huv.
  split; rewrite ?Ht, ?Hl, ?Hg, ?Hc, ?Hm; try assumption; try apply I.
  - intros t th Hth. eapply thread_wf_ext; [reflexivity|apply Htl|]. apply (i_threads _ _ I _ _ Hth).
  - intros t th Hth HE. eapply stat_ok_ext; [reflexivity|apply Htl|reflexivity|].
    apply (i_stat _ _ I _ _ Hth HE).
  - intros t. rewrite Htl. apply I.
Qed.
