(* ===== verification/TimerInv.v ===== *)
(** * The timer operations keep the kernel invariant *)

From S2P Require Import Prelude Kernel Timer Sched KernelInv.
Open Scope rt_scope.

(** ** The timer list *)

Lemma elem_of_timer_insert due i at_tick l x :
  x ∈ timer_insert due i at_tick l <-> x = i \/ x ∈ l.
Proof.
  induction l as [|t l IH]; cbn; [rewrite list_elem_of_singleton, elem_of_nil; tauto|].
  destruct (_ =? 0); [rewrite !elem_of_cons, IH; tauto|].
  destruct (_ <? _); rewrite !elem_of_cons; [|rewrite IH]; tauto.
Qed.

Lemma NoDup_timer_insert due i at_tick l :
  NoDup l -> i ∉ l -> NoDup (timer_insert due i at_tick l).
Proof.
  induction l as [|t l IH]; cbn; intros Hnd Hi; [apply NoDup_singleton|].
  apply NoDup_cons in Hnd as [Ht Hnd]. apply not_elem_of_cons in Hi as [Hne Hi].
  assert (t ∉ timer_insert due i at_tick l) as Ht'
    by (rewrite elem_of_timer_insert; intros [->|]; contradiction).
  destruct (_ =? 0); [apply NoDup_cons; auto|].
  destruct (_ <? _); apply NoDup_cons; split; auto.
  - apply not_elem_of_cons. auto.
  - apply NoDup_cons. auto.
Qed.

(** ** Flags *)

Lemma has_flag_clear_same f m : has_flag (Z.ldiff f m) m = false.
Proof.
  unfold has_flag. apply negb_false_iff, Z.eqb_eq, Z.bits_inj'. intros n Hn.
  rewrite Z.land_spec, Z.ldiff_spec, Z.bits_0. destruct (Z.testbit m n); rewrite ?andb_false_r; reflexivity.
Qed.

Lemma has_flag_clear_other f m m' : Z.land m m' = 0 -> has_flag (Z.ldiff f m) m' = has_flag f m'.
Proof.
  intros Hd. unfold has_flag. do 2 f_equal. apply Z.bits_inj'. intros n Hn.
  rewrite !Z.land_spec, Z.ldiff_spec.
  assert (Z.testbit m n && Z.testbit m' n = false) by (rewrite <- Z.land_spec, Hd; apply Z.bits_0).
  destruct (Z.testbit m n), (Z.testbit m' n); try discriminate; cbn; rewrite ?andb_true_r, ?andb_false_r; reflexivity.
Qed.

Lemma has_flag_set_same f n : 0 <= n -> has_flag (Z.lor f (2 ^ n)) (2 ^ n) = true.
Proof.
  intros Hn. unfold has_flag. apply negb_true_iff, Z.eqb_neq. intros H.
  assert (Z.testbit (Z.land (Z.lor f (2 ^ n)) (2 ^ n)) n = true) as Hb
    by (rewrite Z.land_spec, Z.lor_spec, Z.pow2_bits_true by lia; apply andb_true_iff; split; [apply orb_true_r|reflexivity]).
  rewrite H, Z.bits_0 in Hb. discriminate.
Qed.

Lemma has_flag_set_other f m m' : Z.land m m' = 0 -> has_flag (Z.lor f m) m' = has_flag f m'.
Proof.
  intros Hd. unfold has_flag. rewrite Z.land_lor_distr_l, Hd, Z.lor_0_r. reflexivity.
Qed.

(** ** Thread timers *)

(** Every write to the flag, the callback and the ticks of a thread's timer that
    leaves the ACTIVATED and PERIODIC bits alone. *)
Lemma upd_timer_same E t f :
  (forall tm, has_flag (tm_flag (f tm)) RT_TIMER_FLAG_ACTIVATED = has_flag (tm_flag tm) RT_TIMER_FLAG_ACTIVATED) ->
  (forall tm, has_flag (tm_flag (f tm)) RT_TIMER_FLAG_PERIODIC = has_flag (tm_flag tm) RT_TIMER_FLAG_PERIODIC) ->
  (forall tm, has_flag (tm_flag (f tm)) RT_TIMER_FLAG_THREAD_TIMER = has_flag (tm_flag tm) RT_TIMER_FLAG_THREAD_TIMER) ->
  (forall tm, tm_valid (f tm) = tm_valid tm) ->
  preserves (inv_ex E) (upd_timer (TThread t) f).
Proof.
  intros Ha Hp Ht Hv. apply upd_thread_same. intros th. unfold same_sched, timer_active.
  cbv [set_field]. cbn. rewrite Ha, Hp, Ht, Hv. repeat split.
Qed.

Lemma get_timer_Some t k tm k' :
  get_timer (TThread t) k = Some (tm, k') ->
  exists th, k_threads k !! t = Some th /\ tm = th_timer th /\ k' = k.
Proof.
  intros H. cbn in H. inv_bind H. apply get_thread_Some in Hs as [Ht ->]. injection H as <- <-. eauto.
Qed.

Lemma get_timer_eq t k th :
  k_threads k !! t = Some th -> get_timer (TThread t) k = Some (th_timer th, k).
Proof. intros Ht. cbn. erewrite bind_eq by (unfold get_thread; rewrite Ht; reflexivity). reflexivity. Qed.

(** The pair of steps that stops a timer. *)
Definition timer_off (i : tmid) : K unit :=
  _timer_remove i;;
  upd_timer i (fun tm => tm <| tm_flag ::= (fun f => Z.ldiff f RT_TIMER_FLAG_ACTIVATED) |>).

Definition deactivated (th : thread) : thread :=
  th <| th_timer ::= (fun tm => tm <| tm_flag ::= (fun f => Z.ldiff f RT_TIMER_FLAG_ACTIVATED) |>) |>.

Definition timer_off_state (t : Z) (th : thread) (k : kernel) : kernel :=
  k <| k_timer_list ::= filter (fun j => j <> TThread t) |>
    <| k_timer_exec ::= filter (fun j => j <> TThread t) |>
    <| k_threads ::= insert t (deactivated th) |>.

Lemma timer_off_eq t th k :
  k_threads k !! t = Some th -> timer_off (TThread t) k = Some (tt, timer_off_state t th k).
Proof.
  intros Ht. unfold timer_off. erewrite bind_eq by reflexivity. cbv beta.
  unfold upd_timer, upd_thread. erewrite bind_eq; [reflexivity|].
  unfold get_thread. cbv [set_field]. cbn. rewrite Ht. reflexivity.
Qed.

Lemma timer_active_deactivated th : timer_active (deactivated th) = false.
Proof. unfold timer_active, deactivated. cbv [set_field]. cbn. apply has_flag_clear_same. Qed.

Lemma timer_off_inv (E : Z -> Prop) t th k :
  inv_ex E k -> k_threads k !! t = Some th ->
  inv_ex (fun x => x = t \/ E x) (timer_off_state t th k).
Proof.
  intros I Ht. pose proof (i_threads _ _ I _ _ Ht) as W.
  assert (is_Some (<[t:=deactivated th]> (k_threads k) !! t)) as Hs by (rewrite lookup_insert_eq; eauto).
  apply (inv_frame E _ t k); try assumption; unfold timer_off_state; cbv [set_field]; cbn;
    intros; try assumption; try apply I; try tauto; eauto.
  - split; cbn; intros; rewrite ?lookup_insert_ne by congruence; try reflexivity.
    rewrite elem_of_filter_ne. tauto.
  - eapply (i_uniq _ _ I); eauto.
  - rewrite lookup_insert_eq in H. injection H as <-. destruct W. split; try assumption.
    + rewrite elem_of_filter_ne. split; [tauto|]. intros Hf.
      change (timer_active (deactivated th) = true) in Hf. rewrite timer_active_deactivated in Hf. discriminate.
    + rewrite elem_of_filter_ne. tauto.
    + cbn. rewrite has_flag_clear_other; [assumption|reflexivity].
    + cbn. rewrite has_flag_clear_other; [assumption|reflexivity].
  - apply NoDup_filter_ne, (i_tnodup _ _ I).
  - eapply (i_mutex _ _ I); eauto.
Qed.

Lemma timer_off_fold {A} i (m : K A) k :
  (_timer_remove i;;
   upd_timer i (fun tm => tm <| tm_flag ::= (fun f => Z.ldiff f RT_TIMER_FLAG_ACTIVATED) |>);;
   m) k = (timer_off i;; m) k.
Proof.
  unfold timer_off, mbind, st_bind. destruct (_timer_remove i k) as [[? ?]|]; reflexivity.
Qed.

Lemma timer_stop_eq t th k :
  thread_wf (k_lists k) (k_timer_list k) t th ->
  k_threads k !! t = Some th -> tm_valid (th_timer th) = true ->
  rt_timer_stop (TThread t) k =
    if bool_decide (TThread t ∈ k_timer_list k) then Some (RT_EOK, timer_off_state t th k)
    else Some (- RT_ERROR, k).
Proof.
  intros W Ht Hv. unfold rt_timer_stop.
  erewrite bind_eq by (apply get_timer_eq; exact Ht).
  erewrite bind_eq by (apply assert_eq; exact Hv).
  pose proof (tw_active _ _ _ _ W) as Ha. unfold timer_active in Ha.
  destruct (has_flag _ _); cbn [negb].
  - rewrite bool_decide_true by tauto. rewrite timer_off_fold.
    erewrite bind_eq by (apply timer_off_eq; exact Ht). reflexivity.
  - rewrite bool_decide_false; [reflexivity|]. rewrite Ha. discriminate.
Qed.

(** ** Timer objects *)

Lemma obj_eq {O} (proj : kernel -> gmap Z O) i o k :
  proj k !! i = Some o -> get_obj proj i k = Some (o, k).
Proof. intros H. unfold get_obj. rewrite H. reflexivity. Qed.

Lemma upd_utimer_Some u f k x k' :
  upd_timer (TUser u) f k = Some (x, k') ->
  exists tm, k_utimers k !! u = Some tm /\ k' = k <| k_utimers ::= insert u (f tm) |>.
Proof.
  intros H. cbn in H. unfold upd_obj in H. inv_bind H. unfold get_obj in Hs.
  destruct (k_utimers k !! u) eqn:Hu; [|discriminate]. injection Hs as <- <-. injection H as _ <-. eauto.
Qed.

(** A new record for a timer object. *)
Lemma inv_set_utimer E u tm k :
  inv_ex E k -> utimer_ok tm ->
  (TUser u ∈ k_timer_list k -> has_flag (tm_flag tm) RT_TIMER_FLAG_ACTIVATED = true) ->
  inv_ex E (k <| k_utimers ::= insert u tm |>).
Proof.
  intros I Hok Ha. eapply inv_utimers; [exact I|reflexivity..| | | |]; cbv [set_field]; cbn; try apply I; try reflexivity.
  - intros v Hv. destruct (decide (v = u)) as [->|Hne].
    + rewrite lookup_insert_eq. eauto.
    + rewrite lookup_insert_ne by congruence. apply I, Hv.
  - intros v tm'. destruct (decide (v = u)) as [->|Hne].
    + rewrite lookup_insert_eq. intros [= <-]. assumption.
    + rewrite lookup_insert_ne by congruence. apply I.
Qed.

(** A write that keeps the ACTIVATED bit and the object type. *)
Lemma upd_utimer_same E u f :
  (forall tm, has_flag (tm_flag (f tm)) RT_TIMER_FLAG_ACTIVATED = has_flag (tm_flag tm) RT_TIMER_FLAG_ACTIVATED) ->
  (forall tm, tm_valid (f tm) = tm_valid tm) ->
  preserves (inv_ex E) (upd_timer (TUser u) f).
Proof.
  intros Ha Hv k x k' I (tm & Hu & ->)%upd_utimer_Some. apply inv_set_utimer; [exact I|..].
  - unfold utimer_ok. rewrite Ha, Hv. apply (i_uvalid _ _ I _ _ Hu).
  - rewrite Ha. intros Hin. apply (i_utimer _ _ I) in Hin as (tm' & Hu' & H). congruence.
Qed.

(** A step on a timer object that is not in the timer list. *)
Definition unlisted (E : Z -> Prop) (u : Z) (k : kernel) : Prop :=
  inv_ex E k /\ TUser u ∉ k_timer_list k.

Lemma upd_utimer_unlisted E u f :
  (forall tm, utimer_ok tm -> utimer_ok (f tm)) ->
  preserves (unlisted E u) (upd_timer (TUser u) f).
Proof.
  intros Hf k x k' [I Hn] (tm & Hu & ->)%upd_utimer_Some. split; [|exact Hn].
  apply inv_set_utimer; [exact I|..]; [|intros; contradiction]. apply Hf, (i_uvalid _ _ I _ _ Hu).
Qed.

Lemma timer_remove_unlisted E u :
  triple (inv_ex E) (_timer_remove (TUser u)) (fun _ => unlisted E u).
Proof.
  intros k x k' I [= _ <-]. split; cbv [set_field]; cbn; [|apply notin_filter_ne].
  eapply inv_utimers; [exact I|reflexivity..| | | |]; cbv [set_field]; cbn; try apply I.
  - apply NoDup_filter_ne, I.
  - intros t. rewrite elem_of_filter_ne. split; [tauto|]. split; [discriminate|assumption].
  - intros v Hv. rewrite elem_of_filter_ne in Hv. apply I, Hv.
Qed.

Lemma triple_unlisted {A} P E u (m : K A) :
  triple P m (fun _ => unlisted E u) -> triple P m (fun _ => inv_ex E).
Proof. intros H. eapply triple_conseq; [exact H|auto|]. intros a k [Hk _]. exact Hk. Qed.

Lemma timer_insert_listed E u at_tick k tm :
  unlisted E u k -> k_utimers k !! u = Some tm -> tm_valid tm = true ->
  inv_ex E (k <| k_timer_list ::= timer_insert (timeout_of k) (TUser u) at_tick |>
              <| k_utimers ::= insert u (tm <| tm_flag ::= (fun f => Z.lor f RT_TIMER_FLAG_ACTIVATED) |>) |>).
Proof.
  intros [I Hn] Hu Hv.
  assert (has_flag (Z.lor (tm_flag tm) RT_TIMER_FLAG_ACTIVATED) RT_TIMER_FLAG_ACTIVATED = true) as Ha
    by exact (has_flag_set_same _ 0 ltac:(lia)).
  eapply inv_utimers; [exact I|reflexivity..| | | |]; cbv [set_field]; cbn.
  - apply NoDup_timer_insert; [apply I|assumption].
  - intros t. rewrite elem_of_timer_insert. split; [intros [?|?]; [discriminate|assumption]|tauto].
  - intros v Hv'. apply elem_of_timer_insert in Hv'.
    destruct (decide (v = u)) as [->|Hne].
    + rewrite lookup_insert_eq. eauto.
    + rewrite lookup_insert_ne by congruence. destruct Hv' as [[= ->]|Hv']; [contradiction|].
      apply I, Hv'.
  - intros v tm'. destruct (decide (v = u)) as [->|Hne].
    + rewrite lookup_insert_eq. intros [= <-] _. assumption.
    + rewrite lookup_insert_ne by congruence. apply I.
Qed.

(** ** The operations on timer objects *)

Lemma st_gets_triple {A} I (f : kernel -> A) : triple I (st_gets f) (fun a k => I k /\ a = f k).
Proof. intros k a k' H [= <- <-]. auto. Qed.

Lemma get_utimer_triple (I : kernel -> Prop) u :
  triple I (get_timer (TUser u)) (fun tm k => I k /\ k_utimers k !! u = Some tm).
Proof.
  intros k tm k' H Hg. cbn in Hg. unfold get_obj in Hg.
  destruct (k_utimers k !! u) eqn:Hu; [injection Hg as <- <-; auto|discriminate].
Qed.

(** [_timer_start] of a valid timer object. *)
Lemma timer_start_user E u :
  triple (fun k => inv_ex E k /\ exists tm, k_utimers k !! u = Some tm /\ tm_valid tm = true)
    (_timer_start (TUser u)) (fun _ => inv_ex E).
Proof.
  intros k r k' [I (tm & Hu & Hv)] H. unfold _timer_start in H.
  erewrite bind_eq in H by (apply (obj_eq k_utimers); exact Hu).
  destruct (has_flag _ _); [injection H as _ <-; assumption|].
  apply bind_Some in H as ([] & k1 & H1 & H).
  pose proof (timer_remove_unlisted E u _ _ _ I H1) as [I1 Hn1]. injection H1 as <-.
  apply bind_Some in H as ([] & k2 & H2 & H).
  assert (unlisted E u k2) as U2.
  { eapply upd_utimer_unlisted; [|split; eassumption|exact H2].
    intros t _ Hf. cbv [set_field] in Hf. cbn in Hf. rewrite has_flag_clear_same in Hf. discriminate. }
  apply upd_utimer_Some in H2 as (tm2 & Hu2 & ->). cbv [set_field] in Hu2. cbn in Hu2.
  rewrite Hu in Hu2. injection Hu2 as <-.
  erewrite bind_eq in H by reflexivity. cbv beta zeta in H.
  apply bind_Some in H as ([] & k3 & H3 & H).
  assert (unlisted E u k3) as U3.
  { eapply upd_utimer_unlisted; [|exact U2|exact H3]. intros t Ht. exact Ht. }
  apply upd_utimer_Some in H3 as (tm3 & Hu3 & ->). cbv [set_field] in Hu3. cbn in Hu3.
  rewrite lookup_insert_eq in Hu3. injection Hu3 as <-.
  erewrite bind_eq in H by reflexivity.
  apply bind_Some in H as ([] & k4 & H4 & H). injection H as _ <-.
  apply upd_utimer_Some in H4 as (tm4 & Hu4 & ->). cbv [set_field] in Hu4. cbn in Hu4.
  eapply timer_insert_listed; [exact U3| |].
  - cbv [set_field]. cbn. rewrite lookup_insert_eq in Hu4 |- *. exact Hu4.
  - rewrite lookup_insert_eq in Hu4. injection Hu4 as <-. exact Hv.
Qed.

Section UserTimers.
Context (E : Z -> Prop) (u : Z).

Lemma timer_off_unlisted : triple (inv_ex E) (timer_off (TUser u)) (fun _ => unlisted E u).
Proof.
  eapply triple_bind; [apply timer_remove_unlisted|]. intros a. apply upd_utimer_unlisted.
  intros tm _ Hf. cbv [set_field] in Hf. cbn in Hf. rewrite has_flag_clear_same in Hf. discriminate.
Qed.

(** The code after [timer_off] in a function that stops the timer. *)
Lemma timer_off_then {A} (m : K A) :
  preserves (unlisted E u) m ->
  preserves (inv_ex E)
    (_timer_remove (TUser u);;
     upd_timer (TUser u) (fun tm => tm <| tm_flag ::= (fun f => Z.ldiff f RT_TIMER_FLAG_ACTIVATED) |>);; m).
Proof.
  intros Hm k a k' I H. rewrite (timer_off_fold (TUser u) m k) in H.
  apply (triple_unlisted (inv_ex E) E u (timer_off (TUser u);; m)) in H; [assumption| |assumption].
  eapply triple_bind; [apply timer_off_unlisted|]. intros []. exact Hm.
Qed.

Lemma timer_start_preserves : preserves (inv_ex E) (rt_timer_start (TUser u)).
Proof.
  intros k r k' I H. unfold rt_timer_start in H.
  apply bind_Some in H as (tm & k1 & H1 & H). apply get_utimer_triple with (I := inv_ex E) in H1 as [I1 Hu]; [|assumption].
  apply bind_Some in H as ([] & k2 & H2 & H). unfold rt_assert in H2.
  destruct (tm_valid tm) eqn:Hv; [injection H2 as <-|discriminate].
  apply bind_Some in H as ([] & k3 & H3 & H). unfold when in H3.
  destruct (has_flag _ _) in H3; [discriminate|]. injection H3 as <-.
  eapply timer_start_user; [|exact H]. eauto.
Qed.

Lemma timer_stop_preserves : preserves (inv_ex E) (rt_timer_stop (TUser u)).
Proof.
  unfold rt_timer_stop. apply preserves_bind; [apply get_obj_preserves|intros tm].
  apply preserves_bind; [apply preserves_assert|intros _].
  apply preserves_if; [apply preserves_ret|]. apply timer_off_then. apply preserves_ret.
Qed.

Lemma timer_detach_preserves : preserves (inv_ex E) (rt_timer_detach (TUser u)).
Proof.
  unfold rt_timer_detach. apply preserves_bind; [apply get_obj_preserves|intros tm].
  apply preserves_bind; [apply preserves_assert|intros _].
  apply preserves_bind; [apply preserves_assert|intros _]. intros k r k' I H.
  rewrite (timer_off_fold (TUser u)) in H. apply bind_Some in H as ([] & k1 & H1 & H).
  pose proof (timer_off_unlisted _ _ _ I H1) as U1.
  apply bind_Some in H as ([] & k2 & H2 & H). injection H as _ <-.
  apply upd_utimer_Some in H2 as (tm2 & Hu2 & ->).
  (* the ACTIVATED bit is clear *)
  apply bind_Some in H1 as ([] & k0 & H0 & H1). apply upd_utimer_Some in H1 as (tm1 & Hu1 & ->).
  cbv [set_field] in Hu2. cbn in Hu2. rewrite lookup_insert_eq in Hu2. injection Hu2 as <-.
  destruct U1 as [I1 Hn]. apply inv_set_utimer; [exact I1| |intros; contradiction].
  intros Hf. cbv [set_field] in Hf. cbn in Hf. rewrite has_flag_clear_same in Hf. discriminate.
Qed.

Lemma timer_init_preserves func parm time flag :
  preserves (inv_ex E) (rt_timer_init (TUser u) func parm time flag).
Proof.
  intros k r k' I H. unfold rt_timer_init in H.
  apply bind_Some in H as ([] & k0 & H0 & H). apply preserves_assert with (P := inv_ex E) in H0; [|assumption].
  apply bind_Some in H as ([] & k1 & H1 & H). apply preserves_assert with (P := inv_ex E) in H1; [|assumption].
  apply bind_Some in H as (tm & k2 & H2 & H). apply get_utimer_triple with (I := inv_ex E) in H2 as [I2 Hu]; [|assumption].
  apply bind_Some in H as ([] & k3 & H3 & H). unfold rt_assert in H3.
  destruct (tm_valid tm) eqn:Hv; cbn in H3; [discriminate|injection H3 as <-].
  apply upd_utimer_Some in H as (tm' & Hu' & ->). rewrite Hu in Hu'. injection Hu' as <-.
  assert (TUser u ∉ k_timer_list k2) as Hn.
  { intros Hin. apply (i_utimer _ _ I2) in Hin as (tm' & Hu' & Ha). rewrite Hu in Hu'. injection Hu' as <-.
    apply (i_uvalid _ _ I2 _ _ Hu) in Ha. congruence. }
  apply inv_set_utimer; [exact I2| |intros; contradiction]. intros _. reflexivity.
Qed.

Lemma timer_delete_preserves : preserves (inv_ex E) (rt_timer_delete u).
Proof.
  unfold rt_timer_delete. apply preserves_bind; [apply get_obj_preserves|intros tm].
  apply preserves_bind; [apply preserves_assert|intros _]. apply preserves_bind; [apply preserves_assert|intros _]. apply timer_off_then.
  apply preserves_bind; [|intros; apply preserves_ret]. intros k [] k' [I Hn] [= <-].
  split; [|exact Hn]. eapply inv_utimers; [exact I|reflexivity..| | | |]; cbv [set_field]; cbn; try apply I; try reflexivity.
  - intros v Hv. destruct (decide (v = u)) as [->|Hne]; [contradiction|].
    rewrite lookup_delete_ne by congruence. apply I, Hv.
  - intros v tm' Hv. apply lookup_delete_Some in Hv as [_ Hv]. apply (i_uvalid _ _ I _ _ Hv).
Qed.

Lemma timer_control_preserves cmd : preserves (inv_ex E) (rt_timer_control (TUser u) cmd).
Proof.
  unfold rt_timer_control. apply preserves_bind; [apply get_obj_preserves|intros tm].
  apply preserves_bind; [apply preserves_assert|intros _].
  assert (forall f x, (forall tm, has_flag (tm_flag (f tm)) RT_TIMER_FLAG_ACTIVATED = has_flag (tm_flag tm) RT_TIMER_FLAG_ACTIVATED) ->
    (forall tm, tm_valid (f tm) = tm_valid tm) ->
    preserves (inv_ex E) (upd_timer (TUser u) f;; mret (x : list Z))) as Hupd.
  { intros f x H1 H2. apply preserves_bind; [apply upd_utimer_same; assumption|intros; apply preserves_ret]. }
  destruct cmd; try apply preserves_ret; try (apply Hupd; intros; reflexivity).
  - (* SET_TIME *)
    apply preserves_bind; [apply preserves_assert|intros _].
    apply preserves_bind; [|intros _; apply Hupd; intros; reflexivity].
    apply preserves_when. intros k a k' I H.
    destruct (timer_off_unlisted _ _ _ I H). assumption.
  - apply Hupd; [|reflexivity]. intros t. apply has_flag_clear_other. reflexivity.
  - apply Hupd; [|reflexivity]. intros t. apply has_flag_set_other. reflexivity.
Qed.
End UserTimers.

Lemma timer_create_preserves E mem func parm time flag :
  preserves (inv_ex E) (rt_timer_create mem func parm time flag).
Proof.
  intros k r k' I H. unfold rt_timer_create in H.
  apply bind_Some in H as ([] & k0 & H0 & H). apply preserves_assert with (P := inv_ex E) in H0; [|assumption].
  apply bind_Some in H as ([] & k1 & H1 & H). apply preserves_assert with (P := inv_ex E) in H1; [|assumption].
  destruct mem as [u|]; [|injection H as _ <-; assumption].
  apply bind_Some in H as (old & k2 & H2 & H). injection H2 as <- <-.
  apply bind_Some in H as ([] & k3 & H3 & H). unfold rt_assert in H3.
  destruct (bool_decide _) eqn:Hn; [injection H3 as <-; bool_to_prop|discriminate].
  apply bind_Some in H as ([] & k4 & H4 & H). injection H4 as <-. injection H as _ <-.
  apply inv_set_utimer; [assumption|intros _; reflexivity|].
  intros Hin. apply (i_utimer _ _ H1) in Hin as (tm & Hu & _). congruence.
Qed.

(** ** Starting the timer of a suspended thread *)

Lemma has_flag_activate f :
  has_flag (Z.lor f RT_TIMER_FLAG_ACTIVATED) RT_TIMER_FLAG_ACTIVATED = true.
Proof. exact (has_flag_set_same f 0 ltac:(lia)). Qed.

(** The state after the timer of [t] was started; [th] has its new ticks. *)
Lemma timer_start_thread_inv (E : Z -> Prop) t th tl k k' :
  inv_ex E k -> k_threads k !! t = Some th -> tm_valid (th_timer th) = true ->
  (forall x, x ∈ tl <-> x = TThread t \/ x ∈ k_timer_list k) -> NoDup tl ->
  k_timer_list k' = tl ->
  k_threads k' = <[t := th <| th_timer ::= (fun tm => tm <| tm_flag ::= (fun f => Z.lor f RT_TIMER_FLAG_ACTIVATED) |>) |>]>
                   (k_threads k) ->
  k_lists k' = k_lists k -> k_group k' = k_group k -> k_current k' = k_current k ->
  k_utimers k' = k_utimers k -> k_mutexes k' = k_mutexes k ->
  is_suspended th = true -> th_ttmr th = true ->
  inv_ex E k'.
Proof.
  intros I Ht Hv Htl Hnd Hk1 Hk2 Hk3 Hk4 Hk5 Hk6 Hk7 Hs Htt.
  pose proof (i_threads _ _ I _ _ Ht) as W.
  set (th' := th <| th_timer ::= (fun tm => tm <| tm_flag ::= (fun f => Z.lor f RT_TIMER_FLAG_ACTIVATED) |>) |>) in *.
  assert (is_Some (k_threads k' !! t)) as Hs' by (rewrite Hk2, lookup_insert_eq; eauto).
  apply (inv_frame E E t k k'); try assumption; rewrite ?Hk1, ?Hk2, ?Hk3, ?Hk4, ?Hk5, ?Hk7; try apply I.
  - split; intros; rewrite ?Hk1, ?Hk2, ?Hk3, ?Hk5; try reflexivity; try assumption.
    + apply lookup_insert_ne. congruence.
    + rewrite Htl. tauto.
  - intros. assumption.
  - intros l1 l2. apply (i_uniq _ _ I).
  - intros. rewrite <- Hk2. assumption.
  - intros th1. rewrite lookup_insert_eq. intros [= <-]. destruct W. split; try assumption.
    + rewrite Htl. split; [intros _|tauto]. apply has_flag_activate.
    + intros _. exact Hv.
    + cbn. rewrite has_flag_set_other; [assumption|reflexivity].
    + cbn. rewrite has_flag_set_other; [assumption|reflexivity].
  - intros th1. rewrite lookup_insert_eq. intros [= <-] HE.
    destruct (i_stat _ _ I _ _ Ht HE). split; try assumption.
    + intros l Hl Hin. split; [assumption|]. intros _. apply Htl. auto.
    + intros _. auto.
    + intros Hp. destruct (so_pending Hp). split; [assumption|]. intros. apply Htl. auto.
  - intros. rewrite <- Hk2. assumption.
  - assumption.
  - intros. rewrite <- Hk2. assumption.
Qed.

(** [thread_wf] of the store after [timer_off]. *)
Lemma timer_off_threads t th k :
  k_threads (timer_off_state t th k) !! t = Some (deactivated th).
Proof. unfold timer_off_state. cbv [set_field]. cbn. apply lookup_insert_eq. Qed.
