(* ===== verification/SchedInv.v ===== *)
(** * The scheduler keeps the kernel invariant

    What [rt_sched_remove_thread], [rt_sched_insert_thread], [rt_schedule] and
    the other operations of scheduler_up.c and scheduler_comm.c do to a store
    with the invariant, and that they return. *)

From S2P Require Import Prelude Bitmap Kernel Timer Sched KernelInv TimerInv.
Open Scope rt_scope.

(** ** The scheduler *)

Definition off_lists (t : Z) (k : kernel) : Prop := forall l, t ∉ k_lists k l.

(** [k'] is [k] up to the thread lists and the group word. *)
Record lists_only (k k' : kernel) : Prop := {
  lo_threads : k_threads k' = k_threads k;
  lo_current : k_current k' = k_current k;
  lo_timers : k_timer_list k' = k_timer_list k;
  lo_utimers : k_utimers k' = k_utimers k;
  lo_mutexes : k_mutexes k' = k_mutexes k;
  lo_taken : k_taken k' = k_taken k;
}.

(** The rule for a step that moves [t] to other lists. *)
Lemma inv_move (E : Z -> Prop) t th k k' :
  inv_ex E k -> lists_only k k' -> k_threads k !! t = Some th ->
  (forall l x, x <> t -> x ∈ k_lists k' l <-> x ∈ k_lists k l) ->
  (forall l, NoDup (k_lists k' l)) ->
  (forall l1 l2, t ∈ k_lists k' l1 -> t ∈ k_lists k' l2 -> l1 = l2) ->
  0 <= k_group k' < 2 ^ 32 ->
  (forall p, 0 <= p < RT_THREAD_PRIORITY_MAX ->
    Z.testbit (k_group k') p = negb (bool_decide (k_lists k' (LReady p) = []))) ->
  (forall l, t ∈ k_lists k' l -> th_valid th = true) ->
  (forall p, t ∈ k_lists k' (LReady p) -> th_cur_prio th = p /\ th_mask th = 2 ^ p) ->
  inv_ex (fun x => x = t \/ E x) k'.
Proof.
  intros I [Ht Hc Htl Hu Hm _] Hth Hl Hnd Hun Hg Hb Hv Hr.
  assert (is_Some (k_threads k' !! t)) as Hs by (rewrite Ht, Hth; eauto).
  apply (inv_frame E _ t k k'); try assumption; intros; try assumption; auto.
  - split; intros; rewrite ?Ht, ?Hc, ?Htl; auto.
  - rewrite Ht, Hth in H. injection H as <-. rewrite Htl.
    destruct (i_threads _ _ I _ _ Hth). split; eauto.
  - tauto.
  - rewrite Htl. apply (i_tnodup _ _ I).
  - rewrite Hm in H. eapply i_mutex; eauto.
Qed.

Lemma not_in_ready_other E k t th p :
  inv_ex E k -> k_threads k !! t = Some th -> p <> th_cur_prio th -> t ∉ k_lists k (LReady p).
Proof. intros I Ht Hp H. apply (tw_ready _ _ _ _ (i_threads _ _ I _ _ Ht)) in H. lia. Qed.

Lemma remove_thread_spec E t k u k' :
  inv_ex E k -> rt_sched_remove_thread t k = Some (u, k') ->
  inv_ex (fun x => x = t \/ E x) k' /\ off_lists t k' /\ lists_only k k'
  /\ k_lists k' = (fun l => filter (fun x => x <> t) (k_lists k l))
  /\ exists th, k_threads k !! t = Some th.
Proof.
  intros I H. unfold rt_sched_remove_thread in H.
  apply bind_Some in H as ([] & k1 & H1 & H). injection H1 as <-.
  apply bind_Some in H as (th & k2 & H2 & H). apply get_thread_Some in H2 as [Ht ->]. cbn in Ht.
  apply bind_Some in H as (em & k3 & H3 & H). injection H3 as <- <-.
  set (ls' := fun l => filter (fun x => x <> t) (k_lists k l)) in *.
  assert (k_lists k' = ls' /\ lists_only k k' /\
    k_group k' = if bool_decide (ls' (LReady (th_cur_prio th)) = [])
                 then Z.ldiff (k_group k) (th_mask th) else k_group k) as (Hl & Hlo & Hg).
  { cbv [set_field] in H. cbn in H. subst ls'.
    destruct (bool_decide _); cbn in H; injection H as _ <-; repeat split. }
  assert (forall l, t ∉ ls' l) as Hoff by (intros l; apply notin_filter_ne).
  split; [|split; [|split; [assumption|split; [assumption|eauto]]]].
  2: { intros l. rewrite Hl. apply Hoff. }
  pose proof (i_threads _ _ I _ _ Ht) as W.
  eapply (inv_move E t th k k'); eauto; rewrite ?Hl.
  - intros l x Hx. unfold ls'. rewrite elem_of_filter_ne. tauto.
  - intros l. apply NoDup_filter_ne, (i_nodup _ _ I).
  - intros l1 l2 Hin. destruct (Hoff _ Hin).
  - rewrite Hg. destruct (bool_decide _); [apply ldiff_range; [lia|]|]; apply (i_group _ _ I).
  - intros p Hp. pose proof Hp as Hp'. unfold RT_THREAD_PRIORITY_MAX in Hp'.
    rewrite Hg. destruct (decide (p = th_cur_prio th)) as [->|Hne].
    + destruct (bool_decide _) eqn:Heq; cbn.
      * destruct (tw_mask _ _ _ _ W) as [[Hm0 Hi]| ->].
        -- rewrite Hm0, Z.ldiff_0_r, (i_bits _ _ I) by assumption.
           assert (t ∉ k_lists k (LReady (th_cur_prio th))) as Hn.
           { intros Hin. apply (tw_ready _ _ _ _ W) in Hin as [_ Hm].
             assert (0 < 2 ^ th_cur_prio th) by (apply Z.pow_pos_nonneg; lia). lia. }
           apply bool_decide_eq_true in Heq. unfold ls' in *. rewrite filter_ne_notin in * by assumption.
           rewrite bool_decide_true by assumption. reflexivity.
        -- rewrite testbit_clear by lia. rewrite Z.eqb_refl. apply andb_false_r.
      * rewrite (i_bits _ _ I) by assumption. apply bool_decide_eq_false in Heq.
        rewrite bool_decide_false; [reflexivity|]. intros Hn. apply Heq. unfold ls'. rewrite Hn. reflexivity.
    + assert (ls' (LReady p) = k_lists k (LReady p)) as ->
        by (apply filter_ne_notin; eapply not_in_ready_other; eauto).
      rewrite <- (i_bits _ _ I) by assumption.
      destruct (bool_decide _); [|reflexivity].
      destruct (tw_mask _ _ _ _ W) as [[-> Hi]| ->]; [rewrite Z.ldiff_0_r; reflexivity|].
      rewrite testbit_clear by (destruct (tw_prio _ _ _ _ W); lia).
      destruct (Z.eqb_spec (th_cur_prio th) p); [lia|]. apply andb_true_r.
  - intros l Hin. destruct (Hoff _ Hin).
  - intros p Hin. destruct (Hoff _ Hin).
Qed.

Lemma stat_of_with s th : 0 <= s < 8 -> stat_of (th <| th_stat ::= with_stat s |>) = s.
Proof. intros. unfold stat_of. cbv [set_field]. cbn. apply land_lor_stat. assumption. Qed.

(** A thread that is in no list, does not wait for its timer and has one of the
    states RUNNING, CLOSE and INIT. *)
Lemma stat_ok_off ls tl cur t th :
  (forall l, t ∉ ls l) -> TThread t ∉ tl ->
  stat_of th <> RT_THREAD_READY ->
  (stat_of th = RT_THREAD_RUNNING -> cur = Some t) ->
  (stat_of th <> RT_THREAD_CLOSE -> th_valid th = true) ->
  (cur = Some t -> stat_of th <> RT_THREAD_INIT) ->
  (th_pending th <> None -> stat_of th <> RT_THREAD_INIT /\
     (is_suspended th = true -> th_ttmr th = true -> False)) ->
  tm_valid (th_timer th) = negb (stat_of th =? RT_THREAD_CLOSE) ->
  stat_ok ls tl cur t th.
Proof.
  intros Hoff Htl Hr Hrun Hvld Hcur Hp Htv. split.
  - split; [contradiction|]. intros [p Hin]. destruct (Hoff _ Hin).
  - assumption.
  - assumption.
  - auto.
  - intros l _ Hin. destruct (Hoff _ Hin).
  - intros Hin. destruct (Hoff _ Hin).
  - contradiction.
  - intros H. destruct (Hp H) as [H1 H2]. split; [assumption|]. intros H3 H4. destruct (H2 H3 H4).
  - assumption.
Qed.

(** The thread lists after [rt_sched_insert_thread]. *)
Definition inserted (t : Z) (th : thread) (ls : lid -> list Z) : lid -> list Z :=
  if has_flag (th_stat th) RT_THREAD_STAT_YIELD
  then <[LReady (th_cur_prio th) := ls (LReady (th_cur_prio th)) ++ [t]]> ls
  else <[LReady (th_cur_prio th) := t :: ls (LReady (th_cur_prio th))]> ls.

Lemma has_flag_yield_with s x :
  0 <= s < 8 ->
  has_flag (with_stat s x) RT_THREAD_STAT_YIELD = has_flag x RT_THREAD_STAT_YIELD.
Proof.
  intros Hs. unfold has_flag, with_stat, RT_THREAD_STAT_YIELD, RT_THREAD_STAT_MASK.
  do 2 f_equal. apply Z.bits_inj'. intros n Hn. rewrite !Z.land_spec, Z.lor_spec, Z.ldiff_spec.
  destruct (Z.eq_dec n 3) as [->|Hne].
  - rewrite (bits_above s 3 3) by lia. cbn. rewrite !andb_true_r. reflexivity.
  - replace 8 with (2 ^ 3) by reflexivity. rewrite Z.pow2_bits_eqb by lia.
    destruct (Z.eqb_spec 3 n); [congruence|]. rewrite !andb_false_r. reflexivity.
Qed.

Lemma elem_of_inserted t th ls l x :
  x ∈ inserted t th ls l <-> x ∈ ls l \/ (x = t /\ l = LReady (th_cur_prio th)).
Proof.
  unfold inserted. destruct (decide (l = LReady (th_cur_prio th))) as [->|Hl].
  - destruct (has_flag _ _); rewrite fn_lookup_insert;
      [rewrite elem_of_app, list_elem_of_singleton|rewrite elem_of_cons]; tauto.
  - destruct (has_flag _ _); rewrite fn_lookup_insert_ne by congruence; tauto.
Qed.

Lemma NoDup_inserted t th ls l :
  (forall l, NoDup (ls l)) -> (forall l, t ∉ ls l) -> NoDup (inserted t th ls l).
Proof.
  intros Hnd Hoff. unfold inserted. destruct (decide (l = LReady (th_cur_prio th))) as [->|Hl].
  - destruct (has_flag _ _); rewrite fn_lookup_insert.
    + apply NoDup_app. repeat split; [apply Hnd| |apply NoDup_singleton].
      intros x Hx ->%list_elem_of_singleton. destruct (Hoff _ Hx).
    + apply NoDup_cons. split; [apply Hoff|apply Hnd].
  - destruct (has_flag _ _); rewrite fn_lookup_insert_ne by congruence; apply Hnd.
Qed.

Lemma bits_inserted E k t th p :
  inv_ex E k -> k_threads k !! t = Some th -> th_mask th = 2 ^ th_cur_prio th ->
  0 <= p < RT_THREAD_PRIORITY_MAX ->
  Z.testbit (Z.lor (k_group k) (th_mask th)) p =
  negb (bool_decide (inserted t th (k_lists k) (LReady p) = [])).
Proof.
  intros I Ht -> Hp. destruct (tw_prio _ _ _ _ (i_threads _ _ I _ _ Ht)) as [Hc _].
  unfold RT_THREAD_PRIORITY_MAX in *.
  rewrite testbit_set, (i_bits _ _ I) by (unfold RT_THREAD_PRIORITY_MAX; lia). unfold inserted.
  destruct (Z.eqb_spec (th_cur_prio th) p) as [<-|Hne].
  - rewrite orb_true_r. symmetry. apply negb_true_iff, bool_decide_eq_false.
    destruct (has_flag _ _); rewrite fn_lookup_insert; [|discriminate].
    intros H. apply app_eq_nil in H as [_ H]. discriminate.
  - rewrite orb_false_r.
    destruct (has_flag _ _); rewrite fn_lookup_insert_ne by congruence; reflexivity.
Qed.

(** What [rt_sched_insert_thread] does, and that it returns. *)
Definition insert_state (t : Z) (th : thread) (k : kernel) : kernel :=
  if bool_decide (k_current k = Some t)
  then k <| k_threads ::= insert t (th <| th_stat ::= with_stat RT_THREAD_RUNNING |>) |>
  else k <| k_threads ::= insert t (th <| th_stat ::= with_stat RT_THREAD_READY |>) |>
         <| k_lists ::= inserted t th |> <| k_group ::= (fun g => Z.lor g (th_mask th)) |>.

Lemma insert_thread_eq t th k :
  k_threads k !! t = Some th -> rt_sched_insert_thread t k = Some (tt, insert_state t th k).
Proof.
  intros Ht. unfold rt_sched_insert_thread, insert_state, rt_thread_self, set_stat.
  erewrite bind_eq by reflexivity. cbv beta.
  assert (forall f, upd_thread t f k = Some (tt, k <| k_threads ::= insert t (f th) |>)) as Hu.
  { intros f. unfold upd_thread. erewrite bind_eq; [reflexivity|]. unfold get_thread. rewrite Ht. reflexivity. }
  destruct (bool_decide _); [apply Hu|].
  erewrite bind_eq by apply Hu.
  erewrite bind_eq.
  2: { unfold get_thread. cbv [set_field]. cbn. rewrite lookup_insert_eq. reflexivity. }
  unfold inserted. cbn. rewrite has_flag_yield_with by (unfold RT_THREAD_READY; lia).
  destruct (has_flag _ _); reflexivity.
Qed.

Lemma insert_inv (E E' : Z -> Prop) t th k :
  inv_ex E k -> k_threads k !! t = Some th -> off_lists t k ->
  th_valid th = true -> tm_valid (th_timer th) = true -> th_mask th = 2 ^ th_cur_prio th ->
  TThread t ∉ k_timer_list k -> (forall x, E x -> x = t \/ E' x) ->
  inv_ex E' (insert_state t th k).
Proof.
  intros I Ht Hoff Hv Htv Hm Htl HE. pose proof (i_threads _ _ I _ _ Ht) as W.
  unfold insert_state. destruct (bool_decide _) eqn:Hc; bool_to_prop.
  - eapply inv_set_thread; eauto.
    + intros x Hx Hin. destruct (HE _ Hin); [contradiction|assumption].
    + destruct W. split; try assumption.
      right. assumption.
    + intros _. apply stat_ok_off; auto; rewrite ?stat_of_with by (unfold RT_THREAD_RUNNING; lia); try easy.
      intros _. split; [easy|]. rewrite is_suspended_stat, stat_of_with by (unfold RT_THREAD_RUNNING; lia). easy.
  - assert (stat_of (th <| th_stat ::= with_stat RT_THREAD_READY |>) = RT_THREAD_READY) as Hst
      by (apply stat_of_with; unfold RT_THREAD_READY; lia).
    apply (inv_frame E E' t k); cbv [set_field]; cbn; try assumption; try apply I.
    + split; cbn; intros; rewrite ?lookup_insert_ne by congruence; try reflexivity.
      rewrite elem_of_inserted. tauto.
    + intros x Hx Hin. destruct (HE _ Hin); [contradiction|assumption].
    + intros l. apply NoDup_inserted; [apply I|assumption].
    + intros l1 l2 H1 H2. apply elem_of_inserted in H1 as [H1|[_ ->]]; [destruct (Hoff _ H1)|].
      apply elem_of_inserted in H2 as [H2|[_ ->]]; [destruct (Hoff _ H2)|reflexivity].
    + intros. rewrite lookup_insert_eq. eauto.
    + destruct (tw_prio _ _ _ _ W). unfold RT_THREAD_PRIORITY_MAX in *. rewrite Hm.
      apply lor_range; [lia|apply I|]. split; [apply Z.pow_nonneg; lia|apply Z.pow_lt_mono_r; lia].
    + intros. eapply bits_inserted; eauto.
    + intros th'. rewrite lookup_insert_eq. intros [= <-].
      destruct W. split; try assumption.
      * intros; assumption.
      * intros p Hp. apply elem_of_inserted in Hp as [Hp|[_ [= ->]]]; [destruct (Hoff _ Hp)|].
        split; [reflexivity|assumption].
      * right. assumption.
    + intros th'. rewrite lookup_insert_eq. intros [= <-] _. cbv [set_field] in Hst. cbn in Hst. split; rewrite ?Hst.
      * split; [intros _|reflexivity]. exists (th_cur_prio th). apply elem_of_inserted. auto.
      * discriminate.
      * intros _. exact Hv.
      * intros H. congruence.
      * intros l Hl Hin. apply elem_of_inserted in Hin as [Hin|[_ ->]]; [destruct (Hoff _ Hin)|discriminate].
      * intros Hin. apply elem_of_inserted in Hin as [Hin|[_ ?]]; [destruct (Hoff _ Hin)|discriminate].
      * contradiction.
      * intros _. split; [discriminate|]. rewrite is_suspended_stat, Hst. discriminate.
      * exact Htv.
    + intros H. congruence.
    + contradiction.
Qed.

(** ** rt_schedule *)

Lemma upd_thread_eq t f k th :
  k_threads k !! t = Some th -> upd_thread t f k = Some (tt, k <| k_threads ::= insert t (f th) |>).
Proof.
  intros Ht. unfold upd_thread. erewrite bind_eq; [reflexivity|].
  unfold get_thread. rewrite Ht. reflexivity.
Qed.

Lemma get_thread_eq t k th : k_threads k !! t = Some th -> get_thread t k = Some (th, k).
Proof. intros Ht. unfold get_thread. rewrite Ht. reflexivity. Qed.

Lemma remove_thread_total t th k :
  k_threads k !! t = Some th -> exists k', rt_sched_remove_thread t k = Some (tt, k').
Proof.
  intros Ht. unfold rt_sched_remove_thread. erewrite bind_eq by reflexivity.
  erewrite bind_eq by (apply get_thread_eq; exact Ht).
  erewrite bind_eq by reflexivity. unfold when. destruct (bool_decide _); eexists; reflexivity.
Qed.

(** The queue that [_scheduler_get_highest_priority_thread] looks at. *)
Lemma highest_ready E k :
  inv_ex E k -> k_group k <> 0 ->
  exists t p q, _scheduler_get_highest_priority_thread k = Some ((t, p), k) /\
    0 <= p < RT_THREAD_PRIORITY_MAX /\ k_lists k (LReady p) = t :: q /\
    forall p', 0 <= p' < p -> k_lists k (LReady p') = [].
Proof.
  intros I Hg. pose proof (i_group _ _ I) as Hr. assert (0 < k_group k < 2 ^ 32) as Hg' by lia.
  destruct (__rt_ffs_lowest _ Hg') as (_ & Hbit & Hlow).
  pose proof (__rt_ffs_range _ Hg') as Hrange.
  set (p := __rt_ffs (k_group k) - 1) in *.
  assert (0 <= p < RT_THREAD_PRIORITY_MAX) as Hp by (unfold RT_THREAD_PRIORITY_MAX; lia).
  rewrite (i_bits _ _ I) in Hbit by assumption.
  apply negb_true_iff, bool_decide_eq_false in Hbit.
  destruct (k_lists k (LReady p)) as [|t q] eqn:Hl; [contradiction|].
  exists t, p, q. split; [|split; [assumption|split; [assumption|]]].
  - unfold _scheduler_get_highest_priority_thread, list_first.
    erewrite bind_eq by reflexivity. erewrite bind_eq; [reflexivity|].
    erewrite bind_eq by reflexivity. fold p. rewrite Hl. reflexivity.
  - intros p' Hp'. specialize (Hlow p' Hp').
    rewrite (i_bits _ _ I) in Hlow by (unfold RT_THREAD_PRIORITY_MAX in *; lia).
    apply negb_false_iff, bool_decide_eq_true in Hlow. assumption.
Qed.

Lemma inv_set_current (E : Z -> Prop) k to :
  inv_ex E k -> is_Some (k_threads k !! to) ->
  inv_ex (fun x => x = to \/ k_current k = Some x \/ E x) (k <| k_current := Some to |>).
Proof.
  intros I Hto. split; cbv [set_field]; cbn; try apply I.
  - intros t th Ht HE. apply stat_ok_ext with (ls := k_lists k) (tl := k_timer_list k) (cur := k_current k);
      try reflexivity; [|apply (i_stat _ _ I); tauto].
    split; [intros [= ->]; tauto|tauto].
  - intros t [= <-]. assumption.
Qed.

Lemma stat_ok_not_current ls tl cur cur' t th :
  stat_ok ls tl cur t th -> stat_of th <> RT_THREAD_RUNNING -> cur' <> Some t ->
  stat_ok ls tl cur' t th.
Proof. intros [] Hr Hc. split; auto; contradiction. Qed.

Lemma stat_of_clear_yield th :
  stat_of (th <| th_stat ::= (fun s => Z.ldiff s RT_THREAD_STAT_YIELD) |>) = stat_of th.
Proof.
  unfold stat_of. cbv [set_field]. cbn. apply Z.bits_inj'. intros n Hn.
  rewrite !Z.land_spec, Z.ldiff_spec. unfold RT_THREAD_STAT_YIELD, RT_THREAD_STAT_MASK.
  replace 8 with (2 ^ 3) by reflexivity. rewrite Z.pow2_bits_eqb by lia.
  destruct (Z.eqb_spec 3 n) as [<-|]; cbn; rewrite ?andb_false_r, ?andb_true_r; reflexivity.
Qed.

(** A running thread is in no list. *)
Lemma running_off E k t th :
  inv_ex E k -> ~ E t -> k_threads k !! t = Some th -> stat_of th = RT_THREAD_RUNNING ->
  off_lists t k /\ TThread t ∉ k_timer_list k.
Proof.
  intros I HE Ht Hr. pose proof (i_stat _ _ I _ _ Ht HE) as [].
  assert (is_suspended th = false) as Hs by (rewrite is_suspended_stat, Hr; reflexivity).
  split.
  - intros l Hl. destruct (susp_list l) eqn:Hsl.
    + apply so_waiting in Hl; [|assumption]. destruct Hl. congruence.
    + destruct l; try discriminate.
      * assert (stat_of th = RT_THREAD_READY) by (apply so_ready; eauto).
        rewrite Hr in *. discriminate.
      * apply so_defunct in Hl. rewrite Hr in Hl. discriminate.
  - intros H. apply so_timer in H as [H _]. congruence.
Qed.

(** What a reschedule leaves alone: everything but the ready queues, the group
    word, the current thread and the states of threads. *)
Definition awake (th : thread) : Prop :=
  stat_of th = RT_THREAD_READY \/ stat_of th = RT_THREAD_RUNNING.

Definition restat (o o' : option thread) : Prop :=
  match o with
  | Some th => exists s, o' = Some (th <| th_stat := s |>) /\
      (stat_of (th <| th_stat := s |>) = stat_of th \/
       awake th /\ awake (th <| th_stat := s |>))
  | None => o' = None
  end.

Record sched_frame (k k' : kernel) : Prop := {
  sf_lists : forall l, ready_list l = false -> k_lists k' l = k_lists k l;
  sf_threads : forall t, restat (k_threads k !! t) (k_threads k' !! t);
  sf_taken : k_taken k' = k_taken k;
  sf_nest : k_lock_nest k' = k_lock_nest k;
  sf_irq : k_irq_nest k' = k_irq_nest k;
  sf_tick : k_tick k' = k_tick k;
  sf_timers : k_timer_list k' = k_timer_list k;
  sf_exec : k_timer_exec k' = k_timer_exec k;
  sf_utimers : k_utimers k' = k_utimers k;
  sf_sems : k_sems k' = k_sems k;
  sf_mutexes : k_mutexes k' = k_mutexes k;
  sf_events : k_events k' = k_events k;
  sf_mbs : k_mbs k' = k_mbs k;
  sf_mqs : k_mqs k' = k_mqs k;
  sf_mps : k_mps k' = k_mps k;
  sf_dqs : k_dqs k' = k_dqs k;
  sf_comps : k_comps k' = k_comps k;
}.

Lemma restat_refl o : restat o o.
Proof. destruct o as [[]|]; [|reflexivity]. eexists. split; [reflexivity|left; reflexivity]. Qed.

Lemma restat_trans o1 o2 o3 : restat o1 o2 -> restat o2 o3 -> restat o1 o3.
Proof.
  destruct o1 as [th|]; cbn; [intros (s & -> & H1)|intros ->]; cbn; [intros (s' & -> & H2)|auto].
  exists s'. split; [reflexivity|].
  change (th <| th_stat := s |> <| th_stat := s' |>) with (th <| th_stat := s' |>) in H2.
  unfold awake in *. destruct H1 as [H1|H1], H2 as [H2|H2]; try rewrite H1 in H2; try tauto;
    right; rewrite H2; tauto.
Qed.

Lemma sched_frame_refl k : sched_frame k k.
Proof. split; try reflexivity. intros. apply restat_refl. Qed.

Lemma sched_frame_trans k1 k2 k3 : sched_frame k1 k2 -> sched_frame k2 k3 -> sched_frame k1 k3.
Proof.
  intros [] []. split; try congruence.
  - intros l Hl. rewrite sf_lists1, sf_lists0; auto.
  - intros t. eapply restat_trans; eauto.
Qed.

#[export] Instance sched_frame_preorder : PreOrder sched_frame.
Proof. split; [exact sched_frame_refl|exact sched_frame_trans]. Qed.

Lemma sched_frame_set_stat t th s k :
  k_threads k !! t = Some th ->
  stat_of (th <| th_stat := s |>) = stat_of th \/ awake th /\ awake (th <| th_stat := s |>) ->
  sched_frame k (k <| k_threads ::= insert t (th <| th_stat := s |>) |>).
Proof.
  intros Ht Hs. split; try reflexivity. intros x. cbv [set_field]. cbn.
  destruct (decide (x = t)) as [->|Hx].
  - rewrite lookup_insert_eq, Ht. eexists. split; [reflexivity|exact Hs].
  - rewrite lookup_insert_ne by congruence. apply restat_refl.
Qed.

Lemma awake_with s th : s = RT_THREAD_READY \/ s = RT_THREAD_RUNNING ->
  awake (th <| th_stat ::= with_stat s |>).
Proof.
  intros Hs. unfold awake. rewrite stat_of_with; [assumption|].
  unfold RT_THREAD_READY, RT_THREAD_RUNNING in Hs. lia.
Qed.

Lemma sched_frame_insert t th k :
  k_threads k !! t = Some th -> awake th -> sched_frame k (insert_state t th k).
Proof.
  intros Ht Ha. unfold insert_state. destruct (bool_decide _).
  - eapply sched_frame_trans; [exact (sched_frame_set_stat t th (with_stat RT_THREAD_RUNNING (th_stat th)) k Ht
      (or_intror (conj Ha (awake_with RT_THREAD_RUNNING th ltac:(auto)))))|].
    apply sched_frame_refl.
  - eapply sched_frame_trans; [exact (sched_frame_set_stat t th (with_stat RT_THREAD_READY (th_stat th)) k Ht
      (or_intror (conj Ha (awake_with RT_THREAD_READY th ltac:(auto)))))|].
    split; try reflexivity; [|intros; apply restat_refl].
    intros l Hl. cbv [set_field]. cbn. unfold inserted.
    destruct (has_flag _ _); rewrite fn_lookup_insert_ne; try reflexivity; intros <-; discriminate.
Qed.

Lemma sched_frame_remove E t k u k' :
  inv_ex E k -> rt_sched_remove_thread t k = Some (u, k') ->
  (forall l, ready_list l = false -> t ∉ k_lists k l) -> sched_frame k k'.
Proof.
  intros I H Hoff. pose proof (remove_thread_spec _ _ _ _ _ I H) as (_ & _ & _ & Hl & th & Ht).
  assert (forall l, ready_list l = false -> k_lists k' l = k_lists k l) as Hl'.
  { intros l Hr. rewrite Hl. apply filter_ne_notin. auto. }
  clear Hl. unfold rt_sched_remove_thread in H.
  erewrite bind_eq in H by reflexivity.
  erewrite bind_eq in H by (apply get_thread_eq; exact Ht).
  erewrite bind_eq in H by reflexivity. unfold when in H.
  destruct (bool_decide _); injection H as _ <-; split; try reflexivity; try assumption;
    intros; apply restat_refl.
Qed.

(** The thread lists after a switch to [to]. *)
Definition switched (k : kernel) (cur : Z) (cth : thread) (to : Z) (ins : bool) : lid -> list Z :=
  fun l => filter (fun x => x <> to)
    ((if ins then inserted cur cth (k_lists k) else k_lists k) l).

(** [t] becomes the running thread: it leaves its queue and is RUNNING. *)
Lemma run_thread (E : Z -> Prop) t th k :
  inv_ex E k -> k_current k = Some t -> (forall x, E x -> x = t) ->
  k_threads k !! t = Some th -> awake th -> th_valid th = true ->
  tm_valid (th_timer th) = true -> TThread t ∉ k_timer_list k ->
  (forall l, ready_list l = false -> t ∉ k_lists k l) ->
  exists k', (rt_sched_remove_thread t;; set_stat t (with_stat RT_THREAD_RUNNING)) k = Some (tt, k') /\
    inv k' /\ sched_frame k k' /\ k_current k' = Some t /\
    k_lists k' = (fun l => filter (fun x => x <> t) (k_lists k l)) /\
    exists th, k_threads k' !! t = Some th /\ stat_of th = RT_THREAD_RUNNING.
Proof.
  intros I Hc HE Ht Hni Hv Htv Htl Hoff. destruct (remove_thread_total t th k Ht) as [k1 H1].
  assert (stat_of th <> RT_THREAD_INIT) as Hni' by (destruct Hni as [-> | ->]; discriminate).
  pose proof (remove_thread_spec _ _ _ _ _ I H1) as (I1 & Hoff1 & Hlo & Hl1 & _).
  assert (k_threads k1 !! t = Some th) as Ht1 by (rewrite (lo_threads _ _ Hlo); assumption).
  assert (sched_frame k k1) as F1 by (eapply sched_frame_remove; eauto).
  set (th' := th <| th_stat ::= with_stat RT_THREAD_RUNNING |>).
  assert (stat_of th' = RT_THREAD_RUNNING) as Hst by (apply stat_of_with; unfold RT_THREAD_RUNNING; lia).
  exists (k1 <| k_threads ::= insert t th' |>). split; [|split; [|split; [|split; [|split]]]].
  - erewrite bind_eq by exact H1. apply upd_thread_eq. assumption.
  - eapply inv_set_thread; [exact I1| | |].
    + intros x Hx [->|Hin]; [contradiction|]. apply HE in Hin. contradiction.
    + destruct (i_threads _ _ I1 _ _ Ht1). split; try assumption.
      right. destruct tw_mask as [[_ Hi]|]; [|assumption].
      destruct Hni as [Hni|Hni]; rewrite Hni in Hi; destruct Hi; discriminate.
    + intros _. apply stat_ok_off; rewrite ?Hst; try easy.
      * rewrite (lo_timers _ _ Hlo). assumption.
      * intros _. rewrite (lo_current _ _ Hlo). auto.
      * intros _. split; [easy|]. rewrite is_suspended_stat, Hst. easy.
  - etransitivity; [exact F1|]. apply (sched_frame_set_stat t th _ k1 Ht1). right. split; [assumption|].
    apply (awake_with RT_THREAD_RUNNING). auto.
  - cbv [set_field]. cbn. rewrite (lo_current _ _ Hlo). assumption.
  - exact Hl1.
  - exists th'. cbv [set_field]. cbn. rewrite lookup_insert_eq. split; [reflexivity|exact Hst].
Qed.

Lemma ready_off E k t th p :
  inv_ex E k -> ~ E t -> k_threads k !! t = Some th -> t ∈ k_lists k (LReady p) ->
  stat_of th = RT_THREAD_READY /\ (TThread t ∉ k_timer_list k) /\
  forall l, ready_list l = false -> t ∉ k_lists k l.
Proof.
  intros I HE Ht Hp. pose proof (i_stat _ _ I _ _ Ht HE) as [].
  assert (stat_of th = RT_THREAD_READY) as Hr by (apply so_ready; eauto).
  split; [assumption|]. split.
  - intros H. apply so_timer in H as [H _]. rewrite is_suspended_stat, Hr in H. discriminate.
  - intros l Hl Hin. rewrite (i_uniq _ _ I _ _ _ Hin Hp) in Hl. discriminate.
Qed.

(** A switch from [c] to the thread [to] of a ready queue. *)
Lemma switch_thread k c cth to p (ins : bool) :
  inv k -> k_current k = Some c -> k_threads k !! c = Some cth -> c <> to ->
  to ∈ k_lists k (LReady p) ->
  (stat_of cth = RT_THREAD_RUNNING <-> ins = true) ->
  let body :=
    (when ins (rt_sched_insert_thread c);;
     from ← get_thread c;
     when (has_flag (th_stat from) RT_THREAD_STAT_YIELD)
       (set_stat c (fun s => Z.ldiff s RT_THREAD_STAT_YIELD));;
     rt_sched_remove_thread to;;
     set_stat to (with_stat RT_THREAD_RUNNING)) in
  exists k', body (k <| k_current_prio := u8 p |> <| k_current := Some to |>) = Some (tt, k') /\
    inv k' /\ sched_frame k k' /\ k_current k' = Some to /\
    k_lists k' = switched k c cth to ins /\
    exists th, k_threads k' !! to = Some th /\ stat_of th = RT_THREAD_RUNNING.
Proof.
  intros I Hc Hct Hne Hto Hins body.
  destruct (i_exists _ _ I _ _ Hto) as [tth Htt].
  pose proof (ready_off _ _ _ _ _ I (fun H => H) Htt Hto) as (Hready & Htl & Hoff).
  set (k1 := k <| k_current_prio := u8 p |> <| k_current := Some to |>).
  assert (inv_ex (fun x => x = to \/ x = c) k1) as I1.
  { eapply inv_weaken; [apply (inv_same _ (k <| k_current := Some to |>)); try reflexivity|].
    - apply (inv_set_current (fun _ => False) k to I). eauto.
    - apply (i_mutex _ _ I).
    - intros x [->|[H|[]]]; [auto|]. right. congruence. }
  assert (sched_frame k k1) as F1 by (split; reflexivity || (intros; apply restat_refl)).
  (* the old thread goes to its queue *)
  assert (exists k2 cth2, when ins (rt_sched_insert_thread c) k1 = Some (tt, k2) /\
    inv_ex (fun x => x = to) k2 /\ sched_frame k k2 /\ k_current k2 = Some to /\
    k_lists k2 = (if ins then inserted c cth (k_lists k) else k_lists k) /\
    k_threads k2 !! to = Some tth /\ k_threads k2 !! c = Some cth2 /\
    k_timer_list k2 = k_timer_list k) as (k2 & cth2 & H2 & I2 & F2 & Hc2 & Hl2 & Ht2 & Hct2 & Htl2).
  { destruct ins; cbn.
    - assert (stat_of cth = RT_THREAD_RUNNING) as Hrun by tauto.
      destruct (running_off _ _ _ _ I (fun H => H) Hct Hrun) as [Hcoff Hctl].
      pose proof (i_threads _ _ I _ _ Hct) as W.
      assert (k_threads k1 !! c = Some cth) as Hct1 by exact Hct.
      exists (insert_state c cth k1), (cth <| th_stat ::= with_stat RT_THREAD_READY |>).
      assert (insert_state c cth k1 =
        (k1 <| k_threads ::= insert c (cth <| th_stat ::= with_stat RT_THREAD_READY |>) |>
         <| k_lists ::= inserted c cth |> <| k_group ::= (fun g => Z.lor g (th_mask cth)) |>)) as Heq.
      { unfold insert_state. rewrite bool_decide_false; [reflexivity|]. intros [= ?]. congruence. }
      split; [apply insert_thread_eq; exact Hct|]. split.
      { eapply insert_inv; [exact I1|exact Hct|exact Hcoff| | | |exact Hctl|].
        - apply (so_valid _ _ _ _ _ (inv_stat _ _ _ I Hct)). rewrite Hrun. discriminate.
        - rewrite (so_tvalid _ _ _ _ _ (inv_stat _ _ _ I Hct)), Hrun. reflexivity.
        - destruct (tw_mask _ _ _ _ W) as [[_ Hi]|]; [|assumption]. rewrite Hrun in Hi. destruct Hi; discriminate.
        - intros x [->| ->]; auto. }
      split; [etransitivity; [exact F1|apply sched_frame_insert; [exact Hct|right; exact Hrun]]|].
      rewrite Heq. cbv [set_field]. cbn. rewrite lookup_insert_ne, lookup_insert_eq by congruence. auto.
    - exists k1, cth. split; [reflexivity|]. split; [|auto 10].
      eapply inv_close; [exact I1| |].
      + intros x [->| ->]; auto.
      + intros th Hth. change (k_threads k !! c = Some th) in Hth.
        rewrite Hct in Hth. injection Hth as <-.
        eapply stat_ok_not_current; [exact (inv_stat _ _ _ I Hct)| |].
        * intros H. apply Hins in H. discriminate.
        * intros [= ?]. congruence. }
  (* the YIELD flag is cleared *)
  assert (exists k3, when (has_flag (th_stat cth2) RT_THREAD_STAT_YIELD)
       (set_stat c (fun s => Z.ldiff s RT_THREAD_STAT_YIELD)) k2 = Some (tt, k3) /\
    inv_ex (fun x => x = to) k3 /\ sched_frame k k3 /\ k_current k3 = Some to /\
    k_lists k3 = k_lists k2 /\ k_threads k3 !! to = Some tth /\
    k_timer_list k3 = k_timer_list k) as (k3 & H3 & I3 & F3 & Hc3 & Hl3 & Ht3 & Htl3).
  { unfold when. destruct (has_flag _ _); [|exists k2; auto 10].
    assert (set_stat c (fun s => Z.ldiff s RT_THREAD_STAT_YIELD) k2 = Some (tt,
      k2 <| k_threads ::= insert c (cth2 <| th_stat ::= (fun s => Z.ldiff s RT_THREAD_STAT_YIELD) |>) |>))
      as H3 by (apply upd_thread_eq; assumption).
    eexists. split; [exact H3|]. split; [|split; [|split; [|split; [|split]]]]; try assumption; try reflexivity.
    - eapply (upd_thread_same _ c); [|exact I2|exact H3].
      intros th. unfold same_sched. rewrite stat_of_clear_yield. repeat split.
    - etransitivity; [exact F2|]. apply sched_frame_set_stat; [assumption|]. left. apply (stat_of_clear_yield cth2).
    - cbv [set_field]. cbn. rewrite lookup_insert_ne by congruence. assumption. }
  destruct (run_thread _ to tth k3 I3 Hc3) as (k4 & H4 & I4 & F4 & Hc4 & Hl4 & Hr4); auto.
  - left. exact Hready.
  - apply (tw_listed _ _ _ _ (i_threads _ _ I _ _ Htt) _ Hto).
  - rewrite (so_tvalid _ _ _ _ _ (inv_stat _ _ _ I Htt)), Hready. reflexivity.
  - rewrite Htl3. assumption.
  - intros l Hl. rewrite (sf_lists _ _ F3) by assumption. apply Hoff. assumption.
  - exists k4. split; [|split; [assumption|split; [etransitivity; eassumption|]]].
    + unfold body. erewrite bind_eq by exact H2.
      erewrite bind_eq by (apply get_thread_eq; exact Hct2).
      erewrite bind_eq by exact H3. exact H4.
    + split; [assumption|]. split; [|assumption].
      rewrite Hl4, Hl3, Hl2. reflexivity.
Qed.

(** [rt_schedule] with a current thread: it returns, it keeps the invariant,
    and it runs [sched_pick]'s choice between the current thread and the head
    of the most urgent ready queue. *)
Lemma schedule_total k c cth :
  inv k -> k_current k = Some c -> k_threads k !! c = Some cth ->
  exists k', rt_schedule k = Some (tt, k') /\ inv k' /\ sched_frame k k' /\
    ((k_lock_nest k <> 0 \/ k_group k = 0) /\ k' = k \/
     k_lock_nest k = 0 /\ exists cand hp q ins to,
       k_lists k (LReady hp) = cand :: q /\ 0 <= hp < RT_THREAD_PRIORITY_MAX /\
       (forall p, 0 <= p < hp -> k_lists k (LReady p) = []) /\
       sched_pick c cth cand hp = (to, ins) /\ k_current k' = Some to /\
       k_lists k' = switched k c cth to ins /\
       exists th, k_threads k' !! to = Some th /\ stat_of th = RT_THREAD_RUNNING).
Proof.
  intros I Hc Hct. unfold rt_schedule.
  erewrite bind_eq by reflexivity. cbv beta.
  destruct (k_lock_nest k =? 0) eqn:Hn; bool_to_prop; cbn [negb].
  2: { exists k. split; [reflexivity|]. split; [assumption|]. split; [reflexivity|]. auto. }
  erewrite bind_eq by reflexivity. cbv beta.
  destruct (k_group k =? 0) eqn:Hg; bool_to_prop.
  { exists k. split; [reflexivity|]. split; [assumption|]. split; [reflexivity|]. auto. }
  destruct (highest_ready _ _ I Hg) as (cand & hp & q & Hh & Hhp & Hl & Hlow).
  erewrite bind_eq by exact Hh. cbv beta iota.
  erewrite bind_eq.
  2: { unfold the_self. erewrite bind_eq by reflexivity. rewrite Hc. reflexivity. }
  erewrite bind_eq by (apply get_thread_eq; exact Hct). cbv beta.
  assert (cand ∈ k_lists k (LReady hp)) as Hcand by (rewrite Hl; apply list_elem_of_here).
  assert (cand <> c) as Hne.
  { intros ->. pose proof (inv_stat _ _ _ I Hct) as [].
    destruct (so_current Hc) as [Hx _]. apply Hx, so_ready. eauto. }
  destruct (sched_pick c cth cand hp) as [to ins] eqn:Hpick.
  assert ((to = c /\ ins = false /\ stat_of cth = RT_THREAD_RUNNING) \/
          (to = cand /\ (stat_of cth = RT_THREAD_RUNNING <-> ins = true))) as Hcase.
  { unfold sched_pick in Hpick. destruct (stat_of cth =? RT_THREAD_RUNNING) eqn:Hr; bool_to_prop.
    - destruct (_ <? _); [injection Hpick as <- <-; auto|].
      destruct (_ && _); injection Hpick as <- <-; [auto|]. right. tauto.
    - injection Hpick as <- <-. right. split; [reflexivity|]. split; [contradiction|discriminate]. }
  destruct Hcase as [(-> & -> & Hrun)|(-> & Hins)].
  - rewrite Z.eqb_refl.
    destruct (running_off _ _ _ _ I (fun H => H) Hct Hrun) as [Hoff Htl].
    destruct (run_thread _ c cth k I Hc) as (k' & H' & I' & F' & Hc' & Hl' & Hr'); auto.
    + intros x [].
    + right. exact Hrun.
    + apply (so_valid _ _ _ _ _ (inv_stat _ _ _ I Hct)). rewrite Hrun. discriminate.
    + rewrite (so_tvalid _ _ _ _ _ (inv_stat _ _ _ I Hct)), Hrun. reflexivity.
    + exists k'. split; [exact H'|]. split; [assumption|]. split; [assumption|]. right.
      split; [assumption|]. exists cand, hp, q, false, c. auto 10.
  - destruct (cand =? c) eqn:Heq; bool_to_prop; [contradiction|].
    destruct (switch_thread k c cth cand hp ins I Hc Hct) as (k' & H' & I' & F' & Hc' & Hl' & Hr'); auto.
    exists k'. split; [exact H'|]. split; [assumption|]. split; [assumption|]. right.
    split; [assumption|]. exists cand, hp, q, ins, cand. auto 10.
Qed.

(** ** Operations of the scheduler as invariant-preserving steps *)

(** Without a current thread it returns only when there is nothing to choose. *)
Lemma schedule_no_current k u k' :
  inv k -> k_current k = None -> rt_schedule k = Some (u, k') -> k' = k.
Proof.
  intros I Hc H. unfold rt_schedule in H. erewrite bind_eq in H by reflexivity. cbv beta in H.
  destruct (negb _); [injection H as _ <-; reflexivity|].
  erewrite bind_eq in H by reflexivity. cbv beta in H.
  destruct (k_group k =? 0) eqn:Hg; [injection H as _ <-; reflexivity|]. bool_to_prop.
  destruct (highest_ready _ _ I Hg) as (cand & hp & q & Hh & _).
  erewrite bind_eq in H by exact Hh. cbv beta iota in H.
  apply bind_Some in H as (c & k1 & H1 & _). unfold the_self in H1.
  erewrite bind_eq in H1 by reflexivity. cbv beta in H1. rewrite Hc in H1. discriminate.
Qed.

Lemma schedule_spec k u k' :
  inv k -> rt_schedule k = Some (u, k') -> inv k' /\ sched_frame k k'.
Proof.
  intros I H. destruct (k_current k) as [c|] eqn:Hc.
  - destruct (i_cur _ _ I _ Hc) as [cth Hct].
    destruct (schedule_total k c cth I Hc Hct) as (k2 & H2 & I2 & F & _).
    rewrite H in H2. injection H2 as _ <-. auto.
  - rewrite (schedule_no_current _ _ _ I Hc H). split; [assumption|reflexivity].
Qed.

Lemma schedule_preserves : preserves inv rt_schedule.
Proof. intros k u k' I H. eapply schedule_spec; eauto. Qed.

(** A step that changes the lock nest only. *)
Lemma nest_preserves E f : preserves (inv_ex E) (st_modify (fun k => k <| k_lock_nest ::= f |>)).
Proof. preserve_same. Qed.

Lemma enter_critical_preserves E : preserves (inv_ex E) rt_enter_critical.
Proof. apply preserves_bind; [apply nest_preserves|intros _; apply preserves_gets]. Qed.

Lemma exit_critical_preserves : preserves inv rt_exit_critical.
Proof.
  apply preserves_bind; [apply nest_preserves|intros _].
  apply preserves_bind; [apply preserves_gets|intros n].
  apply preserves_if; [|apply preserves_ret].
  apply preserves_bind; [apply nest_preserves|intros _].
  apply preserves_bind; [apply preserves_gets|intros c].
  apply preserves_when, schedule_preserves.
Qed.

Lemma exit_critical_safe_preserves n : preserves inv (rt_exit_critical_safe n).
Proof.
  apply preserves_bind; [apply preserves_gets|intros m].
  apply preserves_bind; [apply preserves_assert|intros _]. apply exit_critical_preserves.
Qed.

Lemma spin_lock_preserves E : preserves (inv_ex E) rt_spin_lock.
Proof. apply preserves_bind; [apply enter_critical_preserves|intros; apply preserves_ret]. Qed.

Lemma unlock_n_resched_preserves : preserves inv rt_sched_unlock_n_resched.
Proof.
  apply preserves_bind; [apply preserves_gets|intros c]. apply preserves_when, schedule_preserves.
Qed.

#[export] Hint Resolve schedule_preserves enter_critical_preserves exit_critical_preserves
  exit_critical_safe_preserves spin_lock_preserves unlock_n_resched_preserves
  get_thread_preserves get_obj_preserves : rt_pres.
#[export] Hint Extern 1 (preserves inv rt_spin_unlock) => exact exit_critical_preserves : rt_pres.
#[export] Hint Extern 1 (preserves inv rt_spin_lock) => exact (spin_lock_preserves _) : rt_pres.
#[export] Hint Extern 1 (preserves inv rt_enter_critical) => exact (enter_critical_preserves _) : rt_pres.

(** The fields that carry no scheduling state. *)
Lemma stat_of_set_yield th :
  stat_of (th <| th_stat ::= (fun s => Z.lor s RT_THREAD_STAT_YIELD) |>) = stat_of th.
Proof.
  unfold stat_of. cbv [set_field]. cbn. rewrite Z.land_lor_distr_l.
  unfold RT_THREAD_STAT_YIELD, RT_THREAD_STAT_MASK. rewrite Z.lor_0_r. reflexivity.
Qed.

Lemma yield_flag_preserves E t : preserves (inv_ex E) (rt_sched_thread_yield t).
Proof.
  apply preserves_bind; [apply upd_thread_same; intros; repeat split|intros _].
  apply upd_thread_same. intros th. unfold same_sched. rewrite stat_of_set_yield. repeat split.
Qed.

Lemma tick_slice_preserves : preserves inv rt_sched_tick_increase.
Proof.
  unfold rt_sched_tick_increase, the_self, rt_thread_self.
  apply preserves_bind; [preserve|intros t].
  apply preserves_bind; [apply upd_thread_same; intros; repeat split|intros _].
  apply preserves_bind; [preserve|intros th].
  apply preserves_bind; [|intros _; apply preserves_ret].
  apply preserves_if; [apply preserves_ret|].
  apply preserves_bind; [apply yield_flag_preserves|intros _; apply unlock_n_resched_preserves].
Qed.

(** ** rt_sched_thread_ready *)

(** The thread and the store after [rt_sched_thread_timer_stop]. *)
Definition unarmed (in_list : bool) (th : thread) : thread :=
  if th_ttmr th
  then (if in_list then deactivated th else th) <| th_ttmr := false |>
  else th.

Definition unarm_state (t : Z) (th : thread) (k : kernel) : kernel :=
  if th_ttmr th
  then (if bool_decide (TThread t ∈ k_timer_list k) then timer_off_state t th k else k)
         <| k_threads ::= insert t (unarmed (bool_decide (TThread t ∈ k_timer_list k)) th) |>
  else k.

Lemma thread_timer_stop_eq t th k :
  thread_wf (k_lists k) (k_timer_list k) t th ->
  k_threads k !! t = Some th -> tm_valid (th_timer th) = true ->
  rt_sched_thread_timer_stop t k =
    Some (if th_ttmr th && negb (bool_decide (TThread t ∈ k_timer_list k)) then - RT_ERROR else RT_EOK,
          unarm_state t th k).
Proof.
  intros W Ht Hv. unfold rt_sched_thread_timer_stop, unarm_state, unarmed.
  erewrite bind_eq by (apply get_thread_eq; exact Ht).
  destruct (th_ttmr th); [|reflexivity].
  pose proof (timer_stop_eq t th k W Ht Hv) as Hstop.
  destruct (bool_decide _); cbn [andb negb]; erewrite bind_eq by exact Hstop; cbv beta.
  - erewrite bind_eq by (apply upd_thread_eq, timer_off_threads). reflexivity.
  - erewrite bind_eq by (apply upd_thread_eq; exact Ht). reflexivity.
Qed.

Lemma unarm_inv (E : Z -> Prop) t th k :
  inv_ex E k -> k_threads k !! t = Some th ->
  (th_ttmr th = false -> TThread t ∉ k_timer_list k) ->
  let k' := unarm_state t th k in
  let th' := unarmed (bool_decide (TThread t ∈ k_timer_list k)) th in
  inv_ex (fun x => x = t \/ E x) k' /\ k_threads k' !! t = Some th' /\
  (TThread t ∉ k_timer_list k') /\ k_lists k' = k_lists k /\ k_current k' = k_current k.
Proof.
  intros I Ht Htl. cbv zeta. unfold unarm_state.
  destruct (th_ttmr th) eqn:Htt.
  2: { split; [eapply inv_weaken; [exact I|tauto]|].
       assert (unarmed (bool_decide (TThread t ∈ k_timer_list k)) th = th) as ->
         by (unfold unarmed; rewrite Htt; reflexivity). auto. }
  unfold unarmed. rewrite Htt. destruct (bool_decide _) eqn:Hin; bool_to_prop.
  - pose proof (timer_off_inv E t th k I Ht) as I1. pose proof (timer_off_threads t th k) as Ht1.
    split; [|split; [apply lookup_insert_eq|split; [apply notin_filter_ne|split; reflexivity]]].
    eapply inv_set_thread; [exact I1|tauto| |tauto].
    destruct (i_threads _ _ I1 _ _ Ht1). split; assumption.
  - split; [|split; [apply lookup_insert_eq|split; [exact Hin|split; reflexivity]]].
    eapply inv_set_thread; [exact I|tauto| |tauto].
    destruct (i_threads _ _ I _ _ Ht). split; assumption.
Qed.

Definition remove_lists (t : Z) (k : kernel) : kernel :=
  k <| k_lists ::= (fun ls l => filter (fun x => x <> t) (ls l)) |>.

(** [rt_list_remove] of a thread that is in no ready queue. *)
Lemma list_remove_inv (E : Z -> Prop) t th k :
  inv_ex E k -> k_threads k !! t = Some th -> (forall p, t ∉ k_lists k (LReady p)) ->
  inv_ex (fun x => x = t \/ E x) (remove_lists t k).
Proof.
  intros I Ht Hnr. apply (inv_move E t th k); try assumption; unfold remove_lists; cbv [set_field]; cbn.
  - split; reflexivity.
  - intros l x Hx. rewrite elem_of_filter_ne. tauto.
  - intros l. apply NoDup_filter_ne, (i_nodup _ _ I).
  - intros l1 l2 H. destruct (notin_filter_ne _ _ H).
  - apply I.
  - intros p Hp. rewrite filter_ne_notin by apply Hnr. apply (i_bits _ _ I _ Hp).
  - intros l H. destruct (notin_filter_ne _ _ H).
  - intros p H. destruct (notin_filter_ne _ _ H).
Qed.

Definition ready_state (t : Z) (th : thread) (k : kernel) : kernel :=
  insert_state t (unarmed (bool_decide (TThread t ∈ k_timer_list k)) th)
    (remove_lists t (unarm_state t th k)).

Lemma suspended_not_init th : is_suspended th = true -> stat_of th <> RT_THREAD_INIT.
Proof. rewrite is_suspended_stat. intros H1 H2. rewrite H2 in H1. discriminate. Qed.

Lemma suspended_not_close th : is_suspended th = true -> stat_of th <> RT_THREAD_CLOSE.
Proof. rewrite is_suspended_stat. intros H1 H2. rewrite H2 in H1. discriminate. Qed.

Lemma suspended_tvalid ls tl cur t th :
  stat_ok ls tl cur t th -> is_suspended th = true -> tm_valid (th_timer th) = true.
Proof.
  intros [] Hs. rewrite so_tvalid. destruct (Z.eqb_spec (stat_of th) RT_THREAD_CLOSE); [|reflexivity].
  destruct (suspended_not_close _ Hs). assumption.
Qed.

Lemma suspended_not_ready k t th :
  inv k -> k_threads k !! t = Some th -> is_suspended th = true ->
  forall p, t ∉ k_lists k (LReady p).
Proof.
  intros I Ht Hs p Hin. destruct (inv_stat _ _ _ I Ht).
  assert (stat_of th = RT_THREAD_READY) as Hr by (apply so_ready; eauto).
  rewrite is_suspended_stat, Hr in Hs. discriminate.
Qed.

Lemma not_armed k t th :
  inv k -> k_threads k !! t = Some th -> th_ttmr th = false -> TThread t ∉ k_timer_list k.
Proof.
  intros I Ht Htt Hin. apply (so_timer _ _ _ _ _ (inv_stat _ _ _ I Ht)) in Hin as [_ H]. congruence.
Qed.

Lemma unarmed_same b th :
  th_valid (unarmed b th) = th_valid th /\ th_mask (unarmed b th) = th_mask th /\
  th_cur_prio (unarmed b th) = th_cur_prio th /\ tm_valid (th_timer (unarmed b th)) = tm_valid (th_timer th) /\
  th_stat (unarmed b th) = th_stat th.
Proof. unfold unarmed. destruct (th_ttmr th), b; repeat split. Qed.

Lemma mask_started ls tl t th :
  thread_wf ls tl t th -> is_suspended th = true -> th_mask th = 2 ^ th_cur_prio th.
Proof.
  intros [] H. destruct tw_mask as [[_ Hi]|]; [|assumption]. rewrite is_suspended_stat in H.
  destruct Hi as [Hi|Hi]; rewrite Hi in H; discriminate.
Qed.

(** A suspended thread whose timer is as its flag says becomes ready. *)
Lemma ready_state_inv k t th :
  inv k -> k_threads k !! t = Some th -> is_suspended th = true -> inv (ready_state t th k).
Proof.
  intros I Ht Hs. pose proof (inv_stat _ _ _ I Ht) as SO.
  pose proof (unarmed_same (bool_decide (TThread t ∈ k_timer_list k)) th) as (U1 & U2 & U3 & U4 & U5).
  destruct (unarm_inv _ t th k I Ht (not_armed _ _ _ I Ht)) as (I1 & Ht1 & Htl & Hl & Hc).
  assert (forall p, t ∉ k_lists (unarm_state t th k) (LReady p)) as Hnr.
  { intros p. rewrite Hl. eapply suspended_not_ready; eauto. }
  pose proof (list_remove_inv _ _ _ _ I1 Ht1 Hnr) as I2.
  unfold ready_state. eapply insert_inv; [exact I2|exact Ht1| | | | |exact Htl|].
  - intros l. apply notin_filter_ne.
  - rewrite U1. apply (so_valid _ _ _ _ _ SO), suspended_not_close, Hs.
  - rewrite U4. eapply suspended_tvalid; eauto.
  - rewrite U2, U3. eapply mask_started; [apply (i_threads _ _ I _ _ Ht)|exact Hs].
  - intros x [H|[H|H]]; tauto.
Qed.

Definition ready_error (t : Z) (th : thread) (k : kernel) : Z :=
  if th_ttmr th && negb (bool_decide (TThread t ∈ k_timer_list k)) then - RT_ERROR else RT_EOK.

(** [rt_sched_thread_ready] on every branch: a thread that is not suspended, a
    thread whose timer cannot be stopped, and the others. *)
Lemma thread_ready_eq k t th :
  inv k -> k_threads k !! t = Some th ->
  rt_sched_thread_ready t k =
    Some (if negb (is_suspended th) then (- RT_EINVAL, k)
          else if ready_error t th k =? 0 then (RT_EOK, ready_state t th k)
          else (ready_error t th k, unarm_state t th k)).
Proof.
  intros I Ht. unfold rt_sched_thread_ready, rt_sched_thread_is_suspended.
  erewrite bind_eq by (erewrite bind_eq by (apply get_thread_eq; exact Ht); reflexivity).
  destruct (is_suspended th) eqn:Hs; cbn [negb]; [|reflexivity].
  erewrite bind_eq by (apply get_thread_eq; exact Ht).
  assert ((if th_ttmr th then rt_sched_thread_timer_stop t else mret RT_EOK) k =
          Some (ready_error t th k, unarm_state t th k)) as Hstop.
  { pose proof (thread_timer_stop_eq t th k (i_threads _ _ I _ _ Ht) Ht
      (suspended_tvalid _ _ _ _ _ (inv_stat _ _ _ I Ht) Hs)) as H.
    unfold ready_error, unarm_state in *. destruct (th_ttmr th); [exact H|reflexivity]. }
  erewrite bind_eq by exact Hstop. cbv beta.
  pose proof (unarm_inv _ t th k I Ht (not_armed _ _ _ I Ht)) as U. cbv zeta in U.
  destruct U as (_ & Ht1 & _).
  unfold ready_error. destruct (_ && _); cbn [Z.eqb]; [reflexivity|].
  erewrite bind_eq; [reflexivity|]. cbn.
  unfold when. cbn. erewrite bind_eq by reflexivity. unfold ready_state.
  apply insert_thread_eq. exact Ht1.
Qed.

Lemma unarm_state_inv k t th :
  inv k -> k_threads k !! t = Some th -> TThread t ∉ k_timer_list k -> inv (unarm_state t th k).
Proof.
  intros I Ht Hn. unfold unarm_state. destruct (th_ttmr th) eqn:Htt; [|assumption].
  rewrite bool_decide_false by assumption. eapply inv_set_thread; [exact I|tauto|..].
  - destruct (i_threads _ _ I _ _ Ht). unfold unarmed. rewrite Htt. split; assumption.
  - intros _. destruct (inv_stat _ _ _ I Ht). unfold unarmed. rewrite Htt. split; try assumption; cbn.
    + intros l Hl Hin. destruct (so_waiting l Hl Hin). split; [assumption|discriminate].
    + contradiction.
    + intros Hp. destruct (so_pending Hp). split; [assumption|discriminate].
Qed.

Lemma thread_ready_preserves t : preserves inv (rt_sched_thread_ready t).
Proof.
  intros k r k' I H. destruct (k_threads k !! t) as [th|] eqn:Ht.
  - rewrite (thread_ready_eq k t th I Ht) in H.
    destruct (is_suspended th) eqn:Hs; cbn in H; [|injection H as _ <-; assumption].
    unfold ready_error in H. destruct (th_ttmr th && _) eqn:Hb; cbn in H; injection H as _ <-.
    + apply unarm_state_inv; [assumption..|]. bool_to_prop. assumption.
    + apply ready_state_inv; assumption.
  - unfold rt_sched_thread_ready, rt_sched_thread_is_suspended, get_thread, mbind, st_bind in H.
    rewrite Ht in H. discriminate.
Qed.
#[export] Hint Resolve thread_ready_preserves yield_flag_preserves tick_slice_preserves : rt_pres.

(** ** Changing a priority *)

Definition with_prio (p : Z) (th : thread) : thread :=
  th <| th_cur_prio := p |> <| th_mask := u32 (Z.shiftl 1 p) |>.

Lemma prio_mask p : 0 <= p < RT_THREAD_PRIORITY_MAX -> u32 (Z.shiftl 1 p) = 2 ^ p.
Proof.
  unfold RT_THREAD_PRIORITY_MAX. intros. rewrite Z.shiftl_1_l. apply u32_small.
  split; [apply Z.pow_nonneg; lia|]. change 4294967296 with (2 ^ 32). apply Z.pow_lt_mono_r; lia.
Qed.

(** [x] is a suspended thread. *)
Definition waits (x : Z) (k : kernel) : Prop :=
  exists th, k_threads k !! x = Some th /\ is_suspended th = true.

Lemma restat_waits_other x t th' k k' :
  waits x k -> x <> t -> k_threads k' = <[t := th']> (k_threads k) -> waits x k'.
Proof.
  intros (th & Hx & Hs) Hne Hk. exists th. rewrite Hk, lookup_insert_ne by congruence. auto.
Qed.

Lemma change_priority_spec t p k r k' :
  inv k -> 0 <= p -> rt_sched_thread_change_priority t p k = Some (r, k') ->
  inv k' /\ r = RT_EOK /\ exists th th', k_threads k !! t = Some th /\
    k_threads k' = <[t := th']> (k_threads k) /\ th_cur_prio th' = p /\
    stat_of th' = stat_of th /\ k_current k' = k_current k /\ k_mutexes k' = k_mutexes k /\
    (forall l, ready_list l = false -> k_lists k' l = k_lists k l) /\ th_valid th' = th_valid th /\
    th_pending th' = th_pending th /\ th_init_prio th' = th_init_prio th /\ k_taken k' = k_taken k.
Proof.
  intros I Hp H. unfold rt_sched_thread_change_priority in H.
  apply bind_Some in H as ([] & k0 & H0 & H). unfold rt_assert in H0.
  destruct (p <? RT_THREAD_PRIORITY_MAX) eqn:Hlt; [injection H0 as <-; bool_to_prop|discriminate].
  unfold rt_sched_thread_get_stat in H.
  apply bind_Some in H as (st & k1 & H1 & H). inv_bind H1.
  apply get_thread_Some in Hs as [Ht ->]. injection H1 as <- <-.
  pose proof (i_threads _ _ I _ _ Ht) as W. pose proof (inv_stat _ _ _ I Ht) as SO.
  pose proof (prio_mask p ltac:(lia)) as Hpm.
  destruct (stat_of a =? RT_THREAD_READY) eqn:Hr; bool_to_prop.
  - inv_bind H. pose proof (remove_thread_spec _ _ _ _ _ I Hs) as (I1 & Hoff & Hlo & Hl1 & _).
    assert (k_threads s !! t = Some a) as Ht1 by (rewrite (lo_threads _ _ Hlo); assumption).
    erewrite bind_eq in H by (apply upd_thread_eq; exact Ht1).
    pose (k2 := s <| k_threads ::= insert t (with_prio p a) |>).
    assert (k_threads k2 !! t = Some (with_prio p a)) as Ht2 by apply lookup_insert_eq.
    erewrite bind_eq in H by (apply (upd_thread_eq t _ k2); exact Ht2).
    set (a' := with_prio p a <| th_stat := RT_THREAD_INIT |>).
    pose (k3 := k2 <| k_threads ::= insert t a' |>).
    assert (k_threads k3 !! t = Some a') as Ht3 by apply lookup_insert_eq.
    erewrite bind_eq in H by (apply (insert_thread_eq t a' k3); exact Ht3).
    injection H as <- <-.
    assert (inv_ex (fun x => x = t \/ False) k3) as I3.
    { assert (forall th', th_valid th' = th_valid a -> th_timer th' = th_timer a ->
          th_cur_prio th' = p -> th_init_prio th' = th_init_prio a -> th_mask th' = 2 ^ p ->
          thread_wf (k_lists s) (k_timer_list s) t th') as Hwf.
      { intros th' E1 E2 E3 E4 E5. destruct (i_threads _ _ I1 _ _ Ht1).
        split; unfold timer_active; rewrite ?E1, ?E2, ?E3, ?E4, ?E5; try assumption.
        - intros q Hq. destruct (Hoff _ Hq).
        - lia.
        - right. reflexivity. }
      apply (inv_set_thread (fun x => x = t \/ False) _ t a' k2); [|tauto| |tauto].
      - apply (inv_set_thread (fun x => x = t \/ False) _ t _ s); [exact I1|tauto| |tauto].
        apply Hwf; try reflexivity. exact Hpm.
      - apply Hwf; try reflexivity. exact Hpm. }
    assert (k_current k3 <> Some t) as Hnc.
    { change (k_current k3) with (k_current s). rewrite (lo_current _ _ Hlo). intros Hc.
      destruct (so_current _ _ _ _ _ SO Hc). contradiction. }
    split; [|split; [reflexivity|]].
    { eapply (insert_inv _ _ t a' k3); [exact I3|exact Ht3|exact Hoff| | | | |].
      - apply (so_valid _ _ _ _ _ SO). rewrite Hr. discriminate.
      - cbn. rewrite (so_tvalid _ _ _ _ _ SO), Hr. reflexivity.
      - exact Hpm.
      - change (TThread t ∉ k_timer_list s). rewrite (lo_timers _ _ Hlo). intros Hin.
        apply (so_timer _ _ _ _ _ SO) in Hin as [Hin _]. rewrite is_suspended_stat, Hr in Hin. discriminate.
      - tauto. }
    unfold insert_state. rewrite bool_decide_false by assumption.
    exists a, (a' <| th_stat ::= with_stat RT_THREAD_READY |>). split; [assumption|].
    split; [|split; [reflexivity|split; [|split; [exact (lo_current _ _ Hlo)|split; [exact (lo_mutexes _ _ Hlo)|split; [|split; [reflexivity|split; [reflexivity|split; [reflexivity|exact (lo_taken _ _ Hlo)]]]]]]]]].
    + cbv [set_field]. cbn. rewrite !insert_insert_eq, (lo_threads _ _ Hlo). reflexivity.
    + rewrite Hr. apply stat_of_with. unfold RT_THREAD_READY. lia.
    + intros l Hsl. cbv [set_field]. cbn.
      assert (inserted t a' (k_lists s) l = k_lists s l) as ->.
      { unfold inserted. destruct (has_flag _ _); rewrite fn_lookup_insert_ne; try reflexivity; intros <-; discriminate. }
      rewrite Hl1. apply filter_ne_notin.
      destruct (proj1 (so_ready _ _ _ _ _ SO) Hr) as [q Hq].
      destruct (ready_off _ _ _ _ _ I (fun H => H) Ht Hq) as (_ & _ & Hoffl). apply Hoffl, Hsl.
  - erewrite bind_eq in H by (apply upd_thread_eq; exact Ht). injection H as <- <-.
    split; [|split; [reflexivity|]].
    { eapply inv_set_thread; [exact I|tauto|..].
      - destruct W. split; try assumption; cbn.
        + intros q Hq. destruct Hr. apply (so_ready _ _ _ _ _ SO). eauto.
        + lia.
        + right. exact Hpm.
      - intros _. destruct SO. split; assumption. }
    exists a, (with_prio p a). split; [assumption|]. repeat split.
Qed.

Lemma change_priority_preserves t p :
  0 <= p -> preserves inv (rt_sched_thread_change_priority t p).
Proof. intros Hp k r k' I H. eapply change_priority_spec; eauto. Qed.

Lemma change_priority_waits t p x :
  0 <= p -> preserves (fun k => inv k /\ waits x k) (rt_sched_thread_change_priority t p).
Proof.
  intros Hp k r k' [I (th & Hx & Hs)] H.
  destruct (change_priority_spec _ _ _ _ _ I Hp H) as (I' & _ & a & a' & Ha & Hk & _ & Hst & _).
  split; [assumption|]. unfold waits. rewrite Hk. destruct (decide (x = t)) as [->|Hne].
  - exists a'. rewrite lookup_insert_eq. split; [reflexivity|].
    rewrite is_suspended_stat, Hst, <- is_suspended_stat. congruence.
  - exists th. rewrite lookup_insert_ne by congruence. auto.
Qed.
