(* ===== verification/ThreadInv.v ===== *)
(** * Suspension and resumption keep the kernel invariant

    The suspend lists of ipc.c and the operations of thread.c: what they do to a
    store with the invariant, on every branch. *)

From S2P Require Import Prelude Bitmap Kernel Timer Sched IpcList Thread KernelInv TimerInv.
From S2P Require Import SchedInv.
Open Scope rt_scope.

(** The objects and counters that waking and suspending leave alone. *)
Record obj_frame (k k' : kernel) : Prop := {
  of_taken : k_taken k' = k_taken k;
  of_nest : k_lock_nest k' = k_lock_nest k;
  of_irq : k_irq_nest k' = k_irq_nest k;
  of_tick : k_tick k' = k_tick k;
  of_utimers : k_utimers k' = k_utimers k;
  of_sems : k_sems k' = k_sems k;
  of_mutexes : k_mutexes k' = k_mutexes k;
  of_events : k_events k' = k_events k;
  of_mbs : k_mbs k' = k_mbs k;
  of_mqs : k_mqs k' = k_mqs k;
  of_mps : k_mps k' = k_mps k;
  of_dqs : k_dqs k' = k_dqs k;
  of_comps : k_comps k' = k_comps k;
}.

#[export] Instance obj_frame_preorder : PreOrder obj_frame.
Proof.
  split; [intros k; split; reflexivity|].
  intros k1 k2 k3 [] []. split; congruence.
Qed.

Lemma sched_obj_frame k k' : sched_frame k k' -> obj_frame k k'.
Proof. intros []. split; assumption. Qed.

(** ** Waking a thread *)

Lemma insert_state_frame t th k : obj_frame k (insert_state t th k).
Proof. unfold insert_state. destruct (bool_decide _); split; reflexivity. Qed.

Lemma unarm_state_frame t th k : obj_frame k (unarm_state t th k).
Proof. unfold unarm_state. destruct (bool_decide (TThread t ∈ k_timer_list k)), (th_ttmr th); split; reflexivity. Qed.

Lemma unarm_state_lists t th k : k_lists (unarm_state t th k) = k_lists k.
Proof. unfold unarm_state. destruct (bool_decide (TThread t ∈ k_timer_list k)), (th_ttmr th); reflexivity. Qed.

Lemma unarm_state_current t th k : k_current (unarm_state t th k) = k_current k.
Proof. unfold unarm_state. destruct (bool_decide (TThread t ∈ k_timer_list k)), (th_ttmr th); reflexivity. Qed.

Lemma ready_state_frame t th k : obj_frame k (ready_state t th k).
Proof.
  unfold ready_state. etransitivity; [|apply insert_state_frame].
  etransitivity; [apply unarm_state_frame|]. split; reflexivity.
Qed.

Lemma ready_state_lists t th k l :
  ready_list l = false ->
  k_lists (ready_state t th k) l = filter (fun x => x <> t) (k_lists k l).
Proof.
  intros Hl. unfold ready_state, insert_state. rewrite <- (unarm_state_lists t th k).
  destruct (bool_decide _); [reflexivity|]. cbv [set_field]. cbn. unfold inserted.
  destruct (has_flag _ _); rewrite fn_lookup_insert_ne; try reflexivity; intros <-; discriminate.
Qed.

(** The threads other than [t] are the same after [t] was woken. *)
Lemma ready_state_other t th k x :
  x <> t -> k_threads (ready_state t th k) !! x = k_threads k !! x.
Proof.
  intros Hx. unfold ready_state, insert_state, unarm_state.
  destruct (bool_decide (TThread t ∈ k_timer_list k)), (th_ttmr th), (bool_decide (k_current _ = _)); cbv [set_field]; cbn;
    rewrite ?lookup_insert_ne by congruence; reflexivity.
Qed.

(** What waking keeps of a thread: all but its state and its timer. *)
Record woken (th th' : thread) : Prop := {
  wk_valid : th_valid th' = th_valid th;
  wk_static : th_static th' = th_static th;
  wk_prio : th_cur_prio th' = th_cur_prio th;
  wk_init : th_init_prio th' = th_init_prio th;
  wk_error : th_error th' = th_error th;
  wk_evset : th_evset th' = th_evset th;
  wk_evinfo : th_evinfo th' = th_evinfo th;
  wk_pending : th_pending th' = th_pending th;
  wk_stat : stat_of th' = RT_THREAD_RUNNING \/ stat_of th' = RT_THREAD_READY;
}.

Lemma suspended_with s th : 0 <= s < 8 ->
  is_suspended (th <| th_stat ::= with_stat s |>) =
  (Z.land s RT_THREAD_SUSPEND_MASK =? RT_THREAD_SUSPEND_MASK).
Proof. intros. rewrite is_suspended_stat, stat_of_with by lia. reflexivity. Qed.

Lemma ready_state_thread t th k :
  exists th', k_threads (ready_state t th k) !! t = Some th' /\ woken th th'.
Proof.
  unfold ready_state, insert_state. pose proof (unarmed_same (bool_decide (TThread t ∈ k_timer_list k)) th).
  set (u := unarmed _ th) in *.
  assert (th_static u = th_static th /\ th_init_prio u = th_init_prio th /\ th_error u = th_error th /\
    th_evset u = th_evset th /\ th_evinfo u = th_evinfo th /\ th_pending u = th_pending th) as Hu.
  { unfold u, unarmed. destruct (bool_decide (TThread t ∈ k_timer_list k)), (th_ttmr th); repeat split. }
  destruct H as (H1 & H2 & H3 & H4 & H5), Hu as (H6 & H7 & H8 & H9 & H10 & H11).
  destruct (bool_decide (k_current _ = _)); cbv [set_field]; cbn; rewrite lookup_insert_eq;
    eexists; (split; [reflexivity|]); split; cbn; try assumption;
    [left; apply (stat_of_with RT_THREAD_RUNNING u)|right; apply (stat_of_with RT_THREAD_READY u)];
    unfold RT_THREAD_RUNNING, RT_THREAD_READY; lia.
Qed.

Lemma woken_error th th' e : woken th th' -> woken (th <| th_error := e |>) (th' <| th_error := e |>).
Proof. intros []. split; try assumption. reflexivity. Qed.

(** ** rt_susp_list_dequeue and rt_susp_list_resume_all *)

(** [k'] is [k] after thread [t] was woken with [thread_error] and taken off its
    list. *)
Record dequeued (t e : Z) (k k' : kernel) : Prop := {
  dq_frame : obj_frame k k';
  dq_current : k_current k' = k_current k;
  dq_lists : forall l, ready_list l = false ->
    k_lists k' l = filter (fun x => x <> t) (k_lists k l);
  dq_other : forall x, x <> t -> k_threads k' !! x = k_threads k !! x;
  dq_thread : exists th th', k_threads k !! t = Some th /\ k_threads k' !! t = Some th' /\
    woken (if 0 <=? e then th <| th_error := e |> else th) th';
}.

Lemma waiting_ready k t th l :
  inv k -> k_threads k !! t = Some th -> susp_list l = true -> t ∈ k_lists k l ->
  is_suspended th = true /\ ready_error t th k = RT_EOK.
Proof.
  intros I Ht Hl Hin. destruct (so_waiting _ _ _ _ _ (inv_stat _ _ _ I Ht) l Hl Hin) as [Hs Htt].
  split; [assumption|]. unfold ready_error. destruct (th_ttmr th); [|reflexivity].
  rewrite bool_decide_true by auto. reflexivity.
Qed.

Lemma error_same_sched e th : same_sched th (th <| th_error := e |>).
Proof. repeat split. Qed.

Lemma ready_state_current t th k : k_current (ready_state t th k) = k_current k.
Proof.
  unfold ready_state, insert_state. destruct (bool_decide (k_current _ = _)); apply unarm_state_current.
Qed.

Lemma dequeue_empty l e k : k_lists k l = [] -> rt_susp_list_dequeue l e k = Some (None, k).
Proof.
  intros Hl. unfold rt_susp_list_dequeue. erewrite bind_eq by reflexivity. cbv beta.
  rewrite bool_decide_true by assumption. reflexivity.
Qed.

Lemma dequeue_cons l e k t q :
  inv k -> susp_list l = true -> k_lists k l = t :: q ->
  exists k', rt_susp_list_dequeue l e k = Some (Some t, k') /\ inv k' /\ dequeued t e k k'.
Proof.
  intros I Hl Hk. assert (t ∈ k_lists k l) as Hin by (rewrite Hk; apply list_elem_of_here).
  destruct (i_exists _ _ I _ _ Hin) as [th Ht].
  destruct (waiting_ready _ _ _ _ I Ht Hl Hin) as [Hs He].
  pose proof (ready_state_inv _ _ _ I Ht Hs) as I1.
  destruct (ready_state_thread t th k) as (th' & Ht' & Hw).
  assert (rt_sched_thread_ready t k = Some (RT_EOK, ready_state t th k)) as Hr.
  { rewrite (thread_ready_eq _ _ _ I Ht), Hs, He. reflexivity. }
  unfold rt_susp_list_dequeue. erewrite bind_eq by reflexivity. cbv beta.
  rewrite bool_decide_false by (rewrite Hk; discriminate).
  erewrite bind_eq.
  2: { unfold list_first. erewrite bind_eq by reflexivity. rewrite Hk. reflexivity. }
  erewrite bind_eq by exact Hr. cbn [Z.eqb negb RT_EOK].
  destruct (0 <=? e) eqn:Hpos; unfold when.
  - erewrite bind_eq by (apply upd_thread_eq; exact Ht'). eexists. split; [reflexivity|].
    split; [|split].
    + eapply (upd_thread_same _ t _ (error_same_sched e)); [exact I1|]. apply upd_thread_eq. exact Ht'.
    + etransitivity; [apply ready_state_frame|]. split; reflexivity.
    + apply ready_state_current.
    + intros l' Hl'. apply (ready_state_lists t th k l' Hl').
    + intros x Hx. cbv [set_field]. cbn. rewrite lookup_insert_ne by congruence. apply ready_state_other, Hx.
    + exists th, (th' <| th_error := e |>). split; [assumption|]. rewrite Hpos.
      split; [apply lookup_insert_eq|apply woken_error, Hw].
  - erewrite bind_eq by reflexivity. eexists. split; [reflexivity|]. split; [exact I1|]. split.
    + apply ready_state_frame.
    + apply ready_state_current.
    + intros l' Hl'. apply ready_state_lists, Hl'.
    + intros x Hx. apply ready_state_other, Hx.
    + exists th, th'. rewrite Hpos. auto.
Qed.

Lemma dequeued_tail t e k k' l q :
  inv k -> ready_list l = false -> k_lists k l = t :: q -> dequeued t e k k' -> k_lists k' l = q.
Proof.
  intros I Hr Hl D. rewrite (dq_lists _ _ _ _ D l Hr), Hl.
  pose proof (i_nodup _ _ I l) as Hnd. rewrite Hl in Hnd. apply NoDup_cons in Hnd as [Hn _].
  rewrite filter_cons_False by (intros H; apply H; reflexivity). apply filter_ne_notin, Hn.
Qed.

Lemma dequeued_other t e k k' l l' :
  inv k -> ready_list l' = false -> t ∈ k_lists k l -> l' <> l -> dequeued t e k k' ->
  k_lists k' l' = k_lists k l'.
Proof.
  intros I Hr Hl Hne D. rewrite (dq_lists _ _ _ _ D l' Hr). apply filter_ne_notin.
  intros Hin. apply Hne, (i_uniq _ _ I _ _ _ Hin Hl).
Qed.

Lemma susp_not_ready l : susp_list l = true -> ready_list l = false.
Proof. destruct l; (discriminate || reflexivity). Qed.

(** [k'] is [k] after all the threads of [ts] were woken with error [e] and
    list [l] was emptied. *)
Record all_woken (l : lid) (ts : list Z) (e : Z) (k k' : kernel) : Prop := {
  aw_frame : obj_frame k k';
  aw_current : k_current k' = k_current k;
  aw_empty : k_lists k' l = [];
  aw_lists : forall l', ready_list l' = false -> l' <> l -> k_lists k' l' = k_lists k l';
  aw_other : forall x, x ∉ ts -> k_threads k' !! x = k_threads k !! x;
  aw_thread : forall t, t ∈ ts -> exists th th', k_threads k !! t = Some th /\
    k_threads k' !! t = Some th' /\ woken (if 0 <=? e then th <| th_error := e |> else th) th';
}.

Lemma resume_all_loop_total ts l e k n :
  inv k -> susp_list l = true -> k_lists k l = ts -> (length ts < n)%nat ->
  exists k', resume_all_loop n l e k = Some (tt, k') /\ inv k' /\ all_woken l ts e k k'.
Proof.
  revert k n. induction ts as [|t q IH]; intros k n I Hl Hk Hn; destruct n as [|n]; cbn in Hn; try lia; cbn.
  - erewrite bind_eq by (apply dequeue_empty; assumption). exists k. split; [reflexivity|].
    split; [assumption|]. split; try reflexivity; try assumption.
    intros t H. apply elem_of_nil in H. destruct H.
  - destruct (dequeue_cons l e k t q I Hl Hk) as (k1 & H1 & I1 & D).
    assert (t ∈ k_lists k l) as Hin by (rewrite Hk; apply list_elem_of_here).
    pose proof (dequeued_tail _ _ _ _ _ _ I (susp_not_ready _ Hl) Hk D) as Hk1.
    destruct (IH k1 n I1 Hl Hk1 ltac:(lia)) as (k2 & H2 & I2 & W).
    erewrite bind_eq by exact H1. exists k2. split; [exact H2|]. split; [assumption|].
    assert (t ∉ q) as Htq.
    { pose proof (i_nodup _ _ I l) as Hnd. rewrite Hk in Hnd. apply NoDup_cons in Hnd as [Hnd _]. exact Hnd. }
    destruct W, D. split.
    + etransitivity; eassumption.
    + congruence.
    + assumption.
    + intros l' Hr Hne. rewrite aw_lists0 by assumption. rewrite dq_lists0 by assumption.
      apply filter_ne_notin. intros Hx. apply Hne, (i_uniq _ _ I _ _ _ Hx Hin).
    + intros x Hx. apply not_elem_of_cons in Hx as [Hx1 Hx2]. rewrite aw_other0 by assumption. auto.
    + intros x Hx. apply elem_of_cons in Hx as [->|Hx].
      * destruct dq_thread0 as (th & th' & E1 & E2 & E3). exists th, th'. rewrite aw_other0 by assumption. auto.
      * destruct (aw_thread0 x Hx) as (th & th' & E1 & E2 & E3). exists th, th'.
        rewrite <- dq_other0; [auto|]. intros ->. contradiction.
Qed.

Lemma resume_all_total l e k :
  inv k -> susp_list l = true ->
  exists k', rt_susp_list_resume_all l e k = Some (RT_EOK, k') /\ inv k' /\
    all_woken l (k_lists k l) e k k'.
Proof.
  intros I Hl. destruct (resume_all_loop_total _ l e k (S (length (k_lists k l))) I Hl eq_refl ltac:(lia))
    as (k' & H & I' & W).
  exists k'. split; [|auto]. unfold rt_susp_list_resume_all. erewrite bind_eq by reflexivity. cbv beta.
  erewrite bind_eq by exact H. reflexivity.
Qed.

Lemma dequeue_preserves l e : susp_list l = true -> preserves inv (rt_susp_list_dequeue l e).
Proof.
  intros Hl k r k' I H. destruct (k_lists k l) as [|t q] eqn:Hk.
  - rewrite dequeue_empty in H by assumption. injection H as _ <-. assumption.
  - destruct (dequeue_cons l e k t q I Hl Hk) as (k2 & H2 & I2 & _). rewrite H in H2.
    injection H2 as _ <-. assumption.
Qed.

Lemma resume_all_preserves l e : susp_list l = true -> preserves inv (rt_susp_list_resume_all l e).
Proof.
  intros Hl k r k' I H. destruct (resume_all_total l e k I Hl) as (k2 & H2 & I2 & _).
  rewrite H in H2. injection H2 as _ <-. assumption.
Qed.
#[export] Hint Extern 1 (preserves inv (rt_susp_list_dequeue _ _)) => apply dequeue_preserves; reflexivity : rt_pres.
#[export] Hint Extern 1 (preserves inv (rt_susp_list_resume_all _ _)) => apply resume_all_preserves; reflexivity : rt_pres.

(** ** rt_susp_list_enqueue *)

Lemma elem_of_prio_insert prio t l x : x ∈ prio_insert prio t l <-> x = t \/ x ∈ l.
Proof.
  induction l as [|s l IH]; cbn; [rewrite list_elem_of_singleton, elem_of_nil; tauto|].
  destruct (_ <? _); rewrite !elem_of_cons; [|rewrite IH]; tauto.
Qed.

Lemma NoDup_prio_insert prio t l : NoDup l -> t ∉ l -> NoDup (prio_insert prio t l).
Proof.
  induction l as [|s l IH]; cbn; intros Hnd Ht; [apply NoDup_singleton|].
  apply NoDup_cons in Hnd as [Hs Hnd]. apply not_elem_of_cons in Ht as [Hne Ht].
  destruct (_ <? _); apply NoDup_cons; split; auto.
  - apply not_elem_of_cons. auto.
  - apply NoDup_cons. auto.
  - rewrite elem_of_prio_insert. intros [->|]; contradiction.
Qed.

(** The list [q] after [t] was queued by the discipline of [flag]. *)
Definition enqueued (flag : Z) (prio : Z -> Z) (t : Z) (q : list Z) : list Z :=
  if flag =? RT_IPC_FLAG_FIFO then q ++ [t] else prio_insert prio t q.

Lemma elem_of_enqueued flag prio t q x : x ∈ enqueued flag prio t q <-> x = t \/ x ∈ q.
Proof.
  unfold enqueued. destruct (_ =? _); [|apply elem_of_prio_insert].
  rewrite elem_of_app, list_elem_of_singleton. tauto.
Qed.

Lemma NoDup_enqueued flag prio t q : NoDup q -> t ∉ q -> NoDup (enqueued flag prio t q).
Proof.
  intros Hnd Ht. unfold enqueued. destruct (_ =? _); [|apply NoDup_prio_insert; assumption].
  apply NoDup_app. repeat split; [assumption| |apply NoDup_singleton].
  intros x Hx ->%list_elem_of_singleton. contradiction.
Qed.

Definition flag_ok (flag : Z) : Prop := flag = RT_IPC_FLAG_FIFO \/ flag = RT_IPC_FLAG_PRIO.

Definition enqueue_state (l : lid) (t flag : Z) (k : kernel) : kernel :=
  k <| k_lists ::= (fun ls => <[l := enqueued flag (prio_of k) t (ls l)]> ls) |>.

Lemma enqueue_eq l t flag k :
  flag_ok flag -> rt_susp_list_enqueue l t flag k = Some (RT_EOK, enqueue_state l t flag k).
Proof. intros [-> | ->]; reflexivity. Qed.

Lemma enqueue_bad l t flag k : ~ flag_ok flag -> rt_susp_list_enqueue l t flag k = None.
Proof.
  unfold flag_ok, rt_susp_list_enqueue. intros H.
  destruct (flag =? RT_IPC_FLAG_FIFO) eqn:H1; bool_to_prop; [tauto|].
  destruct (flag =? RT_IPC_FLAG_PRIO) eqn:H2; bool_to_prop; [tauto|]. reflexivity.
Qed.

Lemma enqueue_inv (E : Z -> Prop) l t th flag k :
  inv_ex E k -> k_threads k !! t = Some th -> th_valid th = true -> off_lists t k ->
  susp_list l = true -> inv_ex (fun x => x = t \/ E x) (enqueue_state l t flag k).
Proof.
  intros I Ht Hv Hoff Hl. pose proof (susp_not_ready _ Hl) as Hr.
  assert (forall l' x, x ∈ k_lists (enqueue_state l t flag k) l' <->
            x ∈ k_lists k l' \/ x = t /\ l' = l) as Hel.
  { intros l' x. unfold enqueue_state. cbv [set_field]. cbn. destruct (decide (l' = l)) as [->|Hne].
    - rewrite fn_lookup_insert, elem_of_enqueued. tauto.
    - rewrite fn_lookup_insert_ne by congruence. tauto. }
  apply (inv_move E t th k); try assumption.
  - split; reflexivity.
  - intros l' x Hx. rewrite Hel. tauto.
  - intros l'. unfold enqueue_state. cbv [set_field]. cbn. destruct (decide (l' = l)) as [->|Hne].
    + rewrite fn_lookup_insert. apply NoDup_enqueued; [apply I|apply Hoff].
    + rewrite fn_lookup_insert_ne by congruence. apply I.
  - intros l1 l2 H1 H2. apply Hel in H1 as [H1|[_ ->]]; [destruct (Hoff _ H1)|].
    apply Hel in H2 as [H2|[_ ->]]; [destruct (Hoff _ H2)|reflexivity].
  - apply I.
  - intros p Hp. unfold enqueue_state. cbv [set_field]. cbn.
    rewrite fn_lookup_insert_ne by (intros Hx; subst l; discriminate). apply (i_bits _ _ I _ Hp).
  - intros l' H. assumption.
  - intros p H. apply Hel in H as [H|[_ <-]]; [destruct (Hoff _ H)|discriminate].
Qed.

(** ** rt_thread_suspend_to_list *)

Lemma suspend_stat_range f : 0 <= suspend_stat f < 8.
Proof. destruct f; cbn; unfold RT_THREAD_SUSPEND_INTERRUPTIBLE, RT_THREAD_SUSPEND_KILLABLE,
  RT_THREAD_SUSPEND_UNINTERRUPTIBLE; lia. Qed.

Lemma suspend_stat_susp f :
  (Z.land (suspend_stat f) RT_THREAD_SUSPEND_MASK =? RT_THREAD_SUSPEND_MASK) = true.
Proof. destruct f; reflexivity. Qed.

Definition with_list (ls : lid -> list Z) (o : option lid) (flag : Z) (prio : Z -> Z) (t : Z) : lid -> list Z :=
  match o with Some l => <[l := enqueued flag prio t (ls l)]> ls | None => ls end.

(** [k'] is [k] after the running thread [t] went to sleep in list [o]. *)
Record suspended (t : Z) (th : thread) (o : option lid) (flag : Z) (k k' : kernel) : Prop := {
  sp_frame : obj_frame k k';
  sp_current : k_current k' = k_current k;
  sp_lists : forall l,
    k_lists k' l = with_list (k_lists k) o flag (prio_of k) t l;
  sp_other : forall x, x <> t -> k_threads k' !! x = k_threads k !! x;
  sp_timers : k_timer_list k' = k_timer_list k;
  sp_thread : exists s, (Z.land s RT_THREAD_SUSPEND_MASK =? RT_THREAD_SUSPEND_MASK) = true /\
    0 <= s < 8 /\
    k_threads k' !! t = Some (th <| th_stat ::= with_stat s |> <| th_ttmr := false |>);
}.

Lemma remove_running_lists E k t u k' th :
  inv_ex E k -> ~ E t -> k_threads k !! t = Some th -> stat_of th = RT_THREAD_RUNNING ->
  rt_sched_remove_thread t k = Some (u, k') ->
  sched_frame k k' /\ (forall l, k_lists k' l = k_lists k l).
Proof.
  intros I HE Ht Hr H. destruct (running_off _ _ _ _ I HE Ht Hr) as [Hoff _].
  assert (sched_frame k k') as F by (eapply sched_frame_remove; eauto).
  split; [exact F|]. destruct (remove_thread_spec _ _ _ _ _ I H) as (_ & _ & _ & Hl & _).
  intros l. rewrite Hl. apply filter_ne_notin, Hoff.
Qed.

Definition flag_ok_for (o : option lid) (flag : Z) : Prop :=
  match o with Some l => susp_list l = true /\ flag_ok flag | None => True end.

Definition suspended_thread (f : suspend_flag) (th : thread) : thread :=
  th <| th_stat ::= with_stat (suspend_stat f) |> <| th_ttmr := false |>.

(** The state just before [rt_sched_thread_timer_stop]: the running thread is out
    of the ready queues, suspended and queued. *)
Lemma suspend_queue k t th o flag f :
  inv k -> k_current k = Some t -> k_threads k !! t = Some th ->
  stat_of th = RT_THREAD_RUNNING -> flag_ok_for o flag ->
  exists k1 k2 k3,
    rt_sched_remove_thread t k = Some (tt, k1) /\
    _thread_set_suspend_state t f k1 = Some (tt, k2) /\
    match o with Some l => rt_susp_list_enqueue l t flag;; mret tt | None => mret tt end k2 = Some (tt, k3) /\
    inv_ex (fun x => x = t) k3 /\ obj_frame k k3 /\ k_current k3 = Some t /\
    (forall l, k_lists k3 l = with_list (k_lists k) o flag (prio_of k2) t l) /\
    k_timer_list k3 = k_timer_list k /\ (forall x, x <> t -> k_threads k3 !! x = k_threads k !! x) /\
    k_threads k3 !! t = Some (th <| th_stat ::= with_stat (suspend_stat f) |>) /\
    (forall x, prio_of k2 x = prio_of k x).
Proof.
  intros I Hc Ht Hr Ho. pose proof (suspend_stat_range f) as Hsr.
  destruct (remove_thread_total t th k Ht) as [k1 H1].
  destruct (remove_thread_spec _ _ _ _ _ I H1) as (I1 & Hoff1 & Hlo & _ & _).
  destruct (remove_running_lists _ _ _ _ _ _ I (fun H => H) Ht Hr H1) as [F1 Hl1].
  assert (k_threads k1 !! t = Some th) as Ht1 by (rewrite (lo_threads _ _ Hlo); assumption).
  set (th2 := th <| th_stat ::= with_stat (suspend_stat f) |>).
  set (k2 := k1 <| k_threads ::= insert t th2 |>).
  assert (_thread_set_suspend_state t f k1 = Some (tt, k2)) as H2 by (apply upd_thread_eq; exact Ht1).
  assert (k_threads k2 !! t = Some th2) as Ht2 by apply lookup_insert_eq.
  assert (inv_ex (fun x => x = t \/ False) k2) as I2.
  { eapply inv_set_thread; [exact I1|tauto| |tauto]. destruct (i_threads _ _ I1 _ _ Ht1).
    split; try assumption. right. destruct tw_mask as [[_ Hx]|]; [|assumption].
    rewrite Hr in Hx. destruct Hx; discriminate. }
  assert (forall x, x <> t -> k_threads k2 !! x = k_threads k !! x) as Hx2.
  { intros x Hx. cbv [k2 set_field]. cbn. rewrite lookup_insert_ne by congruence.
    rewrite (lo_threads _ _ Hlo). reflexivity. }
  assert (forall x, prio_of k2 x = prio_of k x) as Hprio.
  { intros x. unfold prio_of. destruct (decide (x = t)) as [->|Hx].
    - rewrite Ht2, Ht. reflexivity.
    - rewrite Hx2 by assumption. reflexivity. }
  exists k1, k2, (match o with Some l => enqueue_state l t flag k2 | None => k2 end).
  split; [exact H1|]. split; [exact H2|].
  destruct o as [l|]; cbn in Ho; cbn [with_list].
  - destruct Ho as [Hl Hf]. split; [erewrite bind_eq by (apply enqueue_eq; exact Hf); reflexivity|].
    split; [|split; [|split; [|split; [|split; [|split; [|split]]]]]]; try assumption.
    + eapply inv_weaken; [eapply enqueue_inv; [exact I2|exact Ht2| |exact Hoff1|exact Hl]|tauto].
      apply (so_valid _ _ _ _ _ (inv_stat _ _ _ I Ht)). rewrite Hr. discriminate.
    + etransitivity; [apply sched_obj_frame; exact F1|]. split; reflexivity.
    + change (k_current k1 = Some t). rewrite (lo_current _ _ Hlo). assumption.
    + intros l'. unfold enqueue_state. cbv [set_field]. cbn.
      change (k_lists k2) with (k_lists k1). destruct (decide (l' = l)) as [->|Hne].
      * rewrite !fn_lookup_insert, Hl1. reflexivity.
      * rewrite !fn_lookup_insert_ne by congruence. apply Hl1.
    + apply (lo_timers _ _ Hlo).
  - split; [reflexivity|].
    split; [|split; [|split; [|split; [|split; [|split; [|split]]]]]]; try assumption.
    + eapply inv_weaken; [exact I2|tauto].
    + etransitivity; [apply sched_obj_frame; exact F1|]. split; reflexivity.
    + change (k_current k1 = Some t). rewrite (lo_current _ _ Hlo). assumption.
    + apply (lo_timers _ _ Hlo).
Qed.

Lemma with_list_elem ls o flag prio t l x :
  (forall l', o = Some l' -> susp_list l' = true) ->
  x ∈ with_list ls o flag prio t l <-> x ∈ ls l \/ x = t /\ o = Some l.
Proof.
  intros Ho. destruct o as [l'|]; cbn [with_list].
  - destruct (decide (l = l')) as [->|Hne].
    + rewrite fn_lookup_insert, elem_of_enqueued. tauto.
    + rewrite fn_lookup_insert_ne by congruence. split; [tauto|]. intros [H|[_ [= ->]]]; [assumption|congruence].
  - split; [tauto|]. intros [H|[_ H]]; [assumption|discriminate].
Qed.

Lemma prio_insert_ext p1 p2 t q :
  (forall x, p1 x = p2 x) -> prio_insert p1 t q = prio_insert p2 t q.
Proof.
  intros H. induction q as [|s q IH]; cbn; [reflexivity|]. rewrite !H, IH. reflexivity.
Qed.

Lemma with_list_ext ls o flag p1 p2 t l :
  (forall x, p1 x = p2 x) -> with_list ls o flag p1 t l = with_list ls o flag p2 t l.
Proof.
  intros H. destruct o as [l'|]; [|reflexivity]. cbn. destruct (decide (l = l')) as [->|Hne].
  - rewrite !fn_lookup_insert. unfold enqueued. destruct (_ =? _); [reflexivity|apply prio_insert_ext, H].
  - rewrite !fn_lookup_insert_ne by congruence. reflexivity.
Qed.

Lemma suspend_total k t th o flag f :
  inv k -> k_current k = Some t -> k_threads k !! t = Some th ->
  stat_of th = RT_THREAD_RUNNING -> flag_ok_for o flag ->
  exists k', rt_thread_suspend_to_list t o flag f k = Some (RT_EOK, k') /\ inv k' /\
    suspended t th o flag k k'.
Proof.
  intros I Hc Ht Hr Ho. pose proof (inv_stat _ _ _ I Ht) as SO.
  destruct (running_off _ _ _ _ I (fun H => H) Ht Hr) as [Hoff Htl].
  destruct (suspend_queue k t th o flag f I Hc Ht Hr Ho)
    as (k1 & k2 & k3 & H1 & H2 & H3 & I3 & F3 & Hc3 & Hl3 & Htl3 & Hx3 & Ht3 & Hp3).
  set (th3 := th <| th_stat ::= with_stat (suspend_stat f) |>) in *.
  assert (TThread t ∉ k_timer_list k3) as Hn3 by (rewrite Htl3; assumption).
  assert (tm_valid (th_timer th) = true) as Hv by (rewrite (so_tvalid _ _ _ _ _ SO), Hr; reflexivity).
  pose proof (thread_timer_stop_eq t th3 k3 (i_threads _ _ I3 _ _ Ht3) Ht3 Hv) as H4.
  assert (is_suspended th3 = true) as Hs3.
  { unfold th3. rewrite suspended_with by apply suspend_stat_range. apply suspend_stat_susp. }
  assert (exists k4, rt_sched_thread_timer_stop t k3 = Some (if th_ttmr th3 then - RT_ERROR else RT_EOK, k4) /\
    inv k4 /\ suspended t th o flag k k4) as (k4 & H4' & I4 & S4).
  2: { exists k4. split; [|auto]. unfold rt_thread_suspend_to_list.
       erewrite bind_eq by (apply get_thread_eq; exact Ht).
       erewrite bind_eq by (apply assert_eq; apply (so_valid _ _ _ _ _ SO); rewrite Hr; discriminate).
       erewrite bind_eq by reflexivity.
       erewrite bind_eq by (apply assert_eq, bool_decide_eq_true; exact Hc).
       cbv zeta. replace (negb _ && negb _) with false by (rewrite Hr; reflexivity).
       erewrite bind_eq by exact H1. erewrite bind_eq by exact H2. erewrite bind_eq by exact H3.
       erewrite bind_eq by exact H4'. reflexivity. }
  rewrite bool_decide_false in H4 by assumption.
  exists (unarm_state t th3 k3). split; [destruct (th_ttmr th3); exact H4|].
  set (th4 := th3 <| th_ttmr := false |>).
  assert (k_threads (unarm_state t th3 k3) !! t = Some th4) as Ht4.
  { unfold unarm_state, unarmed, th4. destruct (th_ttmr th3) eqn:E.
    - rewrite bool_decide_false by assumption. apply lookup_insert_eq.
    - rewrite Ht3. f_equal. destruct th3. cbn in E. subst. reflexivity. }
  assert (k_timer_list (unarm_state t th3 k3) = k_timer_list k3) as Htl4.
  { unfold unarm_state. destruct (th_ttmr th3); [|reflexivity]. rewrite bool_decide_false by assumption. reflexivity. }
  assert (forall l' : lid, o = Some l' -> susp_list l' = true) as Hol.
  { intros l' ->. destruct Ho. assumption. }
  split.
  - eapply inv_close with (t := t) (E := fun x => x = t).
    + eapply inv_weaken; [apply (unarm_inv _ t th3 k3 I3 Ht3)|]; [auto|]. cbn. tauto.
    + intros x ->. auto.
    + intros th' Ht'. rewrite Ht4 in Ht'. injection Ht' as <-.
      rewrite unarm_state_lists, unarm_state_current, Htl4, Hc3.
      assert (stat_of th4 = suspend_stat f) as Hst4 by (apply (stat_of_with (suspend_stat f) th), suspend_stat_range).
      assert (is_suspended th4 = true) as Hs4 by (rewrite is_suspended_stat, Hst4; apply suspend_stat_susp).
      split; rewrite ?Hst4.
      * split; [destruct f; discriminate|]. intros [p Hin]. rewrite Hl3, with_list_elem in Hin by assumption.
        destruct Hin as [Hin|[_ Hin]]; [destruct (Hoff _ Hin)|]. apply Hol in Hin. discriminate.
      * destruct f; discriminate.
      * intros _. apply (so_valid _ _ _ _ _ SO). rewrite Hr. discriminate.
      * destruct f; split; discriminate.
      * intros l Hl Hin. split; [assumption|discriminate].
      * intros Hin. rewrite Hl3, with_list_elem in Hin by assumption.
        destruct Hin as [Hin|[_ Hin]]; [destruct (Hoff _ Hin)|]. apply Hol in Hin. discriminate.
      * contradiction.
      * intros _. split; [destruct f; discriminate|discriminate].
      * change (tm_valid (th_timer th) = negb (suspend_stat f =? RT_THREAD_CLOSE)). rewrite Hv. destruct f; reflexivity.
  - split.
    + etransitivity; [exact F3|apply unarm_state_frame].
    + rewrite unarm_state_current. congruence.
    + intros l. rewrite unarm_state_lists, Hl3. apply with_list_ext, Hp3.
    + intros x Hx. rewrite <- Hx3 by assumption. unfold unarm_state.
      destruct (th_ttmr th3); [|reflexivity]. rewrite bool_decide_false by assumption.
      cbv [set_field]. cbn. rewrite lookup_insert_ne by congruence. reflexivity.
    + congruence.
    + exists (suspend_stat f). split; [apply suspend_stat_susp|]. split; [apply suspend_stat_range|exact Ht4].
Qed.

(** ** Starting the timer of a suspended thread *)

Lemma inv_upd_E t th' k :
  inv_ex (fun x => x = t) k -> thread_wf (k_lists k) (k_timer_list k) t th' ->
  inv_ex (fun x => x = t) (k <| k_threads ::= insert t th' |>).
Proof. intros I W. eapply inv_set_thread; [exact I|tauto|exact W|tauto]. Qed.

(** [th'] is [th] with its timer running. *)
Record armed (th th' : thread) : Prop := {
  ar_valid : th_valid th' = th_valid th;
  ar_static : th_static th' = th_static th;
  ar_stat : th_stat th' = th_stat th;
  ar_prio : th_cur_prio th' = th_cur_prio th;
  ar_init : th_init_prio th' = th_init_prio th;
  ar_mask : th_mask th' = th_mask th;
  ar_error : th_error th' = th_error th;
  ar_evset : th_evset th' = th_evset th;
  ar_evinfo : th_evinfo th' = th_evinfo th;
  ar_pending : th_pending th' = th_pending th;
  ar_ttmr : th_ttmr th' = true;
  ar_tvalid : tm_valid (th_timer th') = tm_valid (th_timer th);
}.

(** [k'] is [k] after the timer of [t] was started. *)
Record timer_started (t : Z) (k k' : kernel) : Prop := {
  ts_frame : obj_frame k k';
  ts_current : k_current k' = k_current k;
  ts_lists : k_lists k' = k_lists k;
  ts_other : forall x, x <> t -> k_threads k' !! x = k_threads k !! x;
  ts_thread : exists th th', k_threads k !! t = Some th /\ k_threads k' !! t = Some th' /\ armed th th';
  ts_listed : TThread t ∈ k_timer_list k';
  ts_timers : forall i, i <> TThread t -> i ∈ k_timer_list k' <-> i ∈ k_timer_list k;
}.

Definition timer_idle (t : Z) (k : kernel) : Prop :=
  forall th, k_threads k !! t = Some th ->
    has_flag (tm_flag (th_timer th)) RT_TIMER_FLAG_PROCESSING = false.

(** The first half, [rt_timer_control] with SET_TIME. *)
Lemma set_time_eq t th k timeout :
  inv k -> k_threads k !! t = Some th -> tm_valid (th_timer th) = true ->
  u32 timeout < HALF_TICK ->
  let th1 := if timer_active th then deactivated th else th in
  let k1 := if timer_active th then timer_off_state t th k else k in
  rt_timer_control (TThread t) (SET_TIME timeout) k =
    Some ([], k1 <| k_threads ::= insert t (th1 <| th_timer ::= (fun tm => tm <| tm_init_tick := u32 timeout |>) |>) |>)
  /\ inv_ex (fun x => x = t) k1 /\ k_threads k1 !! t = Some th1 /\ TThread t ∉ k_timer_list k1.
Proof.
  intros I Ht Hv Hlt. pose proof (i_threads _ _ I _ _ Ht) as W.
  unfold rt_timer_control. erewrite bind_eq by (apply get_timer_eq; exact Ht).
  erewrite bind_eq by (apply assert_eq; exact Hv). cbv beta iota.
  erewrite bind_eq by (apply assert_eq, Z.ltb_lt; exact Hlt).
  pose proof (tw_active _ _ _ _ W) as Ha. unfold timer_active in *.
  destruct (has_flag (tm_flag (th_timer th)) RT_TIMER_FLAG_ACTIVATED) eqn:Hact; cbn [when].
  - erewrite bind_eq by (apply (timer_off_eq t th k); exact Ht).
    erewrite bind_eq by (apply upd_thread_eq, timer_off_threads).
    split; [reflexivity|]. split; [|split; [apply timer_off_threads|apply notin_filter_ne]].
    eapply inv_weaken; [apply (timer_off_inv _ _ _ _ I Ht)|tauto].
  - erewrite bind_eq by reflexivity. erewrite bind_eq by (apply upd_thread_eq; exact Ht).
    split; [reflexivity|]. split; [eapply inv_weaken; [exact I|tauto]|].
    split; [assumption|]. rewrite Ha. discriminate.
Qed.

Lemma upd_timer_eq t f k th :
  k_threads k !! t = Some th ->
  upd_timer (TThread t) f k = Some (tt, k <| k_threads ::= insert t (th <| th_timer ::= f |>) |>).
Proof. intros Ht. exact (upd_thread_eq t (fun th => th <| th_timer ::= f |>) k th Ht). Qed.

Lemma thread_timer_armed t th k :
  inv_ex (fun x => x = t) k -> k_threads k !! t = Some th -> TThread t ∉ k_timer_list k ->
  tm_valid (th_timer th) = true -> is_suspended th = true ->
  has_flag (tm_flag (th_timer th)) RT_TIMER_FLAG_PROCESSING = false ->
  exists k', rt_timer_start (TThread t) k = Some (RT_EOK, k') /\
    inv_ex (fun x => x = t) k' /\ timer_started t k k' /\
    timeout_of k' (TThread t) = u32 (k_tick k + tm_init_tick (th_timer th)).
Proof.
  intros I Ht Hn Hv Hs Hp. pose proof (i_threads _ _ I _ _ Ht) as W.
  set (th3 := th <| th_ttmr := true |>).
  set (k3 := k <| k_threads ::= insert t th3 |>).
  assert (k_threads k3 !! t = Some th3) as Ht3 by apply lookup_insert_eq.
  assert (inv_ex (fun x => x = t) k3) as I3 by (apply inv_upd_E; [exact I|]; destruct W; split; assumption).
  set (k4 := timer_off_state t th3 k3).
  assert (inv_ex (fun x => x = t) k4) as I4.
  { eapply inv_weaken; [apply (timer_off_inv _ _ _ _ I3 Ht3)|cbn; tauto]. }
  assert (k_threads k4 !! t = Some (deactivated th3)) as Ht4 by apply timer_off_threads.
  set (at_tick := u32 (k_tick k4 + tm_init_tick (th_timer th3))).
  set (th5 := deactivated th3 <| th_timer ::= (fun tm => tm <| tm_timeout_tick := at_tick |>) |>).
  set (k5 := k4 <| k_threads ::= insert t th5 |>).
  assert (inv_ex (fun x => x = t) k5) as I5.
  { apply inv_upd_E; [exact I4|]. destruct (i_threads _ _ I4 _ _ Ht4). split; assumption. }
  assert (k_threads k5 !! t = Some th5) as Ht5 by apply lookup_insert_eq.
  set (tl6 := timer_insert (timeout_of k5) (TThread t) at_tick (k_timer_list k5)).
  set (k6 := k5 <| k_timer_list := tl6 |>).
  set (th7 := th5 <| th_timer ::= (fun tm => tm <| tm_flag ::= (fun f => Z.lor f RT_TIMER_FLAG_ACTIVATED) |>) |>).
  set (k7 := k6 <| k_threads ::= insert t th7 |>).
  assert (TThread t ∉ k_timer_list k5) as Hn5 by apply notin_filter_ne.
  exists k7. split; [|split; [|split]].
  - assert (upd_timer (TThread t) (fun tm => tm <| tm_timeout_tick := at_tick |>) k4 = Some (tt, k5)) as E5
      by exact (upd_timer_eq t _ k4 _ Ht4).
    assert (k_threads k6 !! t = Some th5) as Ht6 by exact Ht5.
    assert (upd_timer (TThread t) (fun tm => tm <| tm_flag ::= (fun f => Z.lor f RT_TIMER_FLAG_ACTIVATED) |>) k6
            = Some (tt, k7)) as E7 by exact (upd_timer_eq t _ k6 _ Ht6).
    unfold rt_timer_start. run (get_timer_eq t k th Ht). run (assert_eq (tm_valid (th_timer th)) k Hv).
    rewrite (tw_thread_timer _ _ _ _ W Hv). cbn [when].
    run (upd_thread_eq t (fun th => th <| th_ttmr := true |>) k th Ht).
    unfold _timer_start. run (get_timer_eq t k3 th3 Ht3).
    change (tm_flag (th_timer th3)) with (tm_flag (th_timer th)). rewrite Hp.
    rewrite timer_off_fold. run (timer_off_eq t th3 k3 Ht3). fold k4.
    eapply bind_eval; [reflexivity|]. cbv beta zeta. fold at_tick.
    run E5. eapply (bind_eval _ _ _ tt k6); [reflexivity|]. cbv beta. run E7. reflexivity.
  - eapply (timer_start_thread_inv _ t th5 tl6 k5 k7 I5 Ht5); try reflexivity; try assumption.
    + intros x. apply elem_of_timer_insert.
    + apply NoDup_timer_insert; [apply I5|exact Hn5].
  - split; try reflexivity.
    + split; reflexivity.
    + intros x Hx.
      change (k_threads k7) with (<[t:=th7]> (<[t:=th5]> (<[t:=deactivated th3]> (<[t:=th3]> (k_threads k))))).
      rewrite !lookup_insert_ne by congruence. reflexivity.
    + exists th, th7. split; [assumption|]. split; [apply lookup_insert_eq|]. split; reflexivity.
    + apply elem_of_timer_insert. auto.
    + intros i Hi. change (k_timer_list k7) with tl6. unfold tl6. rewrite elem_of_timer_insert.
      change (k_timer_list k5) with (filter (fun j => j <> TThread t) (k_timer_list k)).
      rewrite elem_of_filter_ne. tauto.
  - assert (k_threads k7 !! t = Some th7) as Ht7 by apply lookup_insert_eq.
    cbn [timeout_of]. rewrite Ht7. reflexivity.
Qed.

Lemma armed_trans th1 th2 th3 :
  th_valid th2 = th_valid th1 -> th_static th2 = th_static th1 -> th_stat th2 = th_stat th1 ->
  th_cur_prio th2 = th_cur_prio th1 -> th_init_prio th2 = th_init_prio th1 ->
  th_mask th2 = th_mask th1 -> th_error th2 = th_error th1 -> th_evset th2 = th_evset th1 ->
  th_evinfo th2 = th_evinfo th1 -> th_pending th2 = th_pending th1 ->
  tm_valid (th_timer th2) = tm_valid (th_timer th1) ->
  armed th2 th3 -> armed th1 th3.
Proof. intros ? ? ? ? ? ? ? ? ? ? ? []. split; congruence. Qed.

Lemma stat_ok_armed ls tl cur t th th' tl' :
  stat_ok ls tl cur t th -> armed th th' -> is_suspended th = true -> TThread t ∈ tl' ->
  stat_ok ls tl' cur t th'.
Proof.
  intros [] [] Hs Hin.
  assert (stat_of th' = stat_of th) as Hst by (unfold stat_of; rewrite ar_stat0; reflexivity).
  assert (is_suspended th' = true) as Hs' by (unfold is_suspended in *; rewrite ar_stat0; assumption).
  split; rewrite ?Hst, ?ar_valid0, ?ar_pending0, ?ar_tvalid0; auto.
  intros Hp. destruct (so_pending Hp). auto.
Qed.

(** The tail of the waiting calls: the suspended thread arms its timer. *)
Lemma start_thread_timer_total t th k timeout :
  inv k -> k_threads k !! t = Some th -> is_suspended th = true ->
  has_flag (tm_flag (th_timer th)) RT_TIMER_FLAG_PROCESSING = false -> u32 timeout < HALF_TICK ->
  exists k', start_thread_timer t timeout k = Some (tt, k') /\ inv k' /\ timer_started t k k' /\
    timeout_of k' (TThread t) = u32 (k_tick k + u32 timeout).
Proof.
  intros I Ht Hs Hp Hlt. pose proof (inv_stat _ _ _ I Ht) as SO.
  pose proof (suspended_tvalid _ _ _ _ _ SO Hs) as Hv.
  destruct (set_time_eq t th k timeout I Ht Hv Hlt) as (H1 & I1 & Ht1 & Hn1).
  set (th1 := if timer_active th then deactivated th else th) in *.
  set (k1 := if timer_active th then timer_off_state t th k else k) in *.
  set (th2 := th1 <| th_timer ::= (fun tm => tm <| tm_init_tick := u32 timeout |>) |>) in *.
  set (k2 := k1 <| k_threads ::= insert t th2 |>) in *.
  assert (inv_ex (fun x => x = t) k2) as I2.
  { apply inv_upd_E; [exact I1|]. destruct (i_threads _ _ I1 _ _ Ht1). split; assumption. }
  assert (k_threads k2 !! t = Some th2) as Ht2 by apply lookup_insert_eq.
  assert (th_stat th2 = th_stat th) as Hst by (unfold th2, th1; destruct (timer_active th); reflexivity).
  destruct (thread_timer_armed t th2 k2 I2 Ht2 Hn1) as (k3 & H3 & I3 & T3 & D3).
  - unfold th2, th1. destruct (timer_active th); exact Hv.
  - unfold is_suspended. rewrite Hst. exact Hs.
  - unfold th2, th1. destruct (timer_active th); [|exact Hp]. cbn. rewrite has_flag_clear_other; [exact Hp|reflexivity].
  - assert (timer_started t k k3) as T.
    { destruct T3 as [F C L O (tha & thb & Ea & Eb & Ar) Li Ti]. split; try assumption.
      - etransitivity; [|exact F]. unfold k2, k1. destruct (timer_active th); split; reflexivity.
      - rewrite C. unfold k2, k1. destruct (timer_active th); reflexivity.
      - rewrite L. unfold k2, k1. destruct (timer_active th); reflexivity.
      - intros x Hx. rewrite O by assumption. unfold k2, k1. destruct (timer_active th);
          cbv [timer_off_state set_field]; cbn; rewrite ?lookup_insert_ne by congruence; reflexivity.
      - exists th, thb. split; [assumption|]. split; [assumption|].
        rewrite Ht2 in Ea. injection Ea as <-. eapply armed_trans; [..|exact Ar];
          unfold th2, th1; destruct (timer_active th); reflexivity.
      - intros i Hi. rewrite Ti by assumption. unfold k2, k1. destruct (timer_active th); [|reflexivity].
        cbv [timer_off_state set_field]. cbn. rewrite elem_of_filter_ne. tauto. }
    exists k3. split; [|split; [|split; [exact T|]]].
    + unfold start_thread_timer. erewrite bind_eq by exact H1. erewrite bind_eq by exact H3. reflexivity.
    + eapply inv_close with (t := t) (E := fun x => x = t); [exact I3|auto|].
      intros th' Ht'. destruct T as [_ C L _ (tha & thb & Ea & Eb & Ar) Li _].
      rewrite Ht in Ea. injection Ea as <-. rewrite Ht' in Eb. injection Eb as <-.
      rewrite L, C. eapply stat_ok_armed; eauto.
    + rewrite D3. unfold k2, th2, k1. destruct (timer_active th); reflexivity.
Qed.
