(* ===== verification/TimerIdle.v ===== *)
(** * Between timer callbacks no timer is being processed

    [_timer_start] refuses a timer whose PROCESSING flag is set; only
    [rt_timer_check] sets it, around a callback.  Every kernel operation leaves
    the flag of the thread timers outside [X] clear, and no timer is both in the
    timer list and in the list of the one that is being processed. *)

From S2P Require Import Prelude Bitmap Kernel Timer Sched IpcList Thread KernelInv TimerInv.
Open Scope rt_scope.

Definition th_processing (th : thread) : bool :=
  has_flag (tm_flag (th_timer th)) RT_TIMER_FLAG_PROCESSING.

Record quiet (X : Z -> Prop) (k : kernel) : Prop := {
  q_flag : forall t th, k_threads k !! t = Some th -> ~ X t -> th_processing th = false;
  q_exec : forall i, i ∈ k_timer_exec k -> i ∉ k_timer_list k;
}.

Lemma idle_modify X f :
  (forall k, k_threads (f k) = k_threads k) -> (forall k, k_timer_exec (f k) = k_timer_exec k) ->
  (forall k, k_timer_list (f k) = k_timer_list k) -> preserves (quiet X) (st_modify f).
Proof.
  intros H1 H2 H3. apply preserves_modify. intros k []. split; rewrite ?H1, ?H2, ?H3; assumption.
Qed.

Lemma upd_thread_idle X t f :
  (forall th, th_processing th = false -> th_processing (f th) = false) ->
  preserves (quiet X) (upd_thread t f).
Proof.
  intros Hf k u k' [N Ne] (th & Ht & ->)%upd_thread_Some. split; [|exact Ne].
  intros x thx. cbv [set_field]. cbn.
  destruct (decide (x = t)) as [->|Hx].
  - rewrite lookup_insert_eq. intros [= <-] HX. eapply Hf, N; eauto.
  - rewrite lookup_insert_ne by congruence. apply N.
Qed.

Lemma insert_thread_idle X t th :
  (~ X t -> th_processing th = false) ->
  preserves (quiet X) (st_modify (fun k => k <| k_threads ::= insert t th |>)).
Proof.
  intros Hth. apply preserves_modify. intros k [N Ne]. split; [|exact Ne].
  intros x thx. cbv [set_field]. cbn.
  destruct (decide (x = t)) as [->|Hx].
  - rewrite lookup_insert_eq. intros [= <-]. exact Hth.
  - rewrite lookup_insert_ne by congruence. apply N.
Qed.

Ltac idle_flag :=
  intros; unfold th_processing in *; cbv [set_field] in *; cbn in *; try assumption;
  rewrite ?has_flag_clear_other, ?has_flag_set_other by reflexivity; try assumption; reflexivity.

#[export] Hint Extern 1 (preserves (quiet _) (upd_thread _ _)) =>
  apply upd_thread_idle; idle_flag : rt_pres.
#[export] Hint Extern 1 (preserves (quiet _) (set_stat _ _)) =>
  apply upd_thread_idle; idle_flag : rt_pres.
#[export] Hint Extern 1 (preserves (quiet _) (st_modify _)) =>
  apply idle_modify; intros; reflexivity : rt_pres.
#[export] Hint Resolve get_thread_preserves get_obj_preserves : rt_pres.

Section Ops.
Context (X : Z -> Prop).
Abbreviation idle_op m := (preserves (quiet X) m).

Lemma the_self_idle : idle_op the_self.
Proof. unfold the_self, rt_thread_self. preserve. Qed.

Lemma list_first_idle l : idle_op (list_first l).
Proof. unfold list_first. preserve. Qed.

Lemma get_timer_idle i : idle_op (get_timer i).
Proof. unfold get_timer. preserve. Qed.

Lemma upd_obj_idle {O} (proj : kernel -> gmap Z O) `{!Setter proj} i f :
  (forall g k, let k' := set_field proj g k in k_threads k' = k_threads k /\
     k_timer_exec k' = k_timer_exec k /\ k_timer_list k' = k_timer_list k) -> idle_op (upd_obj proj i f).
Proof.
  intros H. unfold upd_obj. apply preserves_bind; [apply get_obj_preserves|intros o].
  apply idle_modify; intros k; destruct (H (insert i (f o)) k) as (H1 & H2 & H3); assumption.
Qed.

Lemma upd_timer_idle i f :
  (forall tm, has_flag (tm_flag tm) RT_TIMER_FLAG_PROCESSING = false ->
     has_flag (tm_flag (f tm)) RT_TIMER_FLAG_PROCESSING = false) -> idle_op (upd_timer i f).
Proof.
  intros Hf. destruct i; cbn [upd_timer].
  - apply upd_thread_idle. intros th. unfold th_processing. cbv [set_field]. cbn. apply Hf.
  - apply upd_obj_idle. repeat split; reflexivity.
Qed.
End Ops.
#[export] Hint Resolve the_self_idle list_first_idle get_timer_idle : rt_pres.
#[export] Hint Extern 1 (preserves (quiet _) (upd_obj _ _ _)) =>
  apply upd_obj_idle; intros; solve [repeat split; reflexivity] : rt_pres.

Ltac idle_timer_flag :=
  intros; cbv [set_field] in *; cbn in *; try assumption;
  rewrite ?has_flag_clear_other, ?has_flag_set_other by reflexivity; try assumption; reflexivity.
#[export] Hint Extern 1 (preserves (quiet _) (upd_timer _ _)) =>
  apply upd_timer_idle; idle_timer_flag : rt_pres.

(** ** timer.c *)
Section TimerOps.
Context (X : Z -> Prop).
Abbreviation idle_op m := (preserves (quiet X) m).

Lemma timer_remove_idle i : idle_op (_timer_remove i).
Proof.
  apply preserves_modify. intros k []. split; [assumption|]. cbv [set_field]. cbn.
  intros j. rewrite !elem_of_filter_ne. intros [Hj H] [_ Hl]. exact (q_exec0 j H Hl).
Qed.
#[local] Hint Resolve timer_remove_idle : rt_pres.

(** The timer that is put into the list has left the other one. *)
Lemma timer_start0_idle i : idle_op (_timer_start i).
Proof.
  unfold _timer_start, rt_tick_get. apply preserves_bind; [preserve|intros tm].
  apply preserves_if; [preserve|].
  pose (P := fun k => quiet X k /\ i ∉ k_timer_exec k).
  assert (forall f, (forall tm, has_flag (tm_flag tm) RT_TIMER_FLAG_PROCESSING = false ->
    has_flag (tm_flag (f tm)) RT_TIMER_FLAG_PROCESSING = false) -> preserves P (upd_timer i f)) as HP.
  { intros f Hf k u k' [Q Hi] H. split; [eapply upd_timer_idle; eauto|]. revert H. generalize Hi. clear.
    intros Hi H. destruct i as [t|v]; cbn [upd_timer] in H.
    - apply upd_thread_Some in H as (th & _ & ->). exact Hi.
    - apply upd_utimer_Some in H as (tm & _ & ->). exact Hi. }
  eapply triple_bind with (R := fun _ => P).
  { intros k u k' Q H. split; [eapply timer_remove_idle; eauto|]. injection H as _ <-. apply notin_filter_ne. }
  intros _. eapply triple_bind with (R := fun _ => P); [apply HP; idle_timer_flag|intros _].
  eapply triple_bind with (R := fun _ => P); [apply preserves_gets|intros now].
  eapply triple_bind with (R := fun _ => P); [apply HP; idle_timer_flag|intros _].
  eapply triple_bind with (R := fun _ => quiet X); [|intros _; change (idle_op (upd_timer i
    (fun tm => tm <| tm_flag ::= (fun f => Z.lor f RT_TIMER_FLAG_ACTIVATED) |>);; mret RT_EOK)); preserve].
  intros k u k' [[Q1 Q2] Hi] [= _ <-]. split; [exact Q1|]. cbv [set_field]. cbn.
  intros j Hj. rewrite elem_of_timer_insert. intros [->|Hl]; [contradiction|exact (Q2 j Hj Hl)].
Qed.
#[local] Hint Resolve timer_start0_idle : rt_pres.
Lemma timer_start_idle i : idle_op (rt_timer_start i).
Proof. unfold rt_timer_start, rt_sched_thread_timer_start. preserve. Qed.
Lemma timer_stop_idle i : idle_op (rt_timer_stop i).
Proof. unfold rt_timer_stop. preserve. Qed.
Lemma timer_detach_idle i : idle_op (rt_timer_detach i).
Proof. unfold rt_timer_detach. preserve. Qed.
Lemma timer_delete_idle u : idle_op (rt_timer_delete u).
Proof. unfold rt_timer_delete, obj_delete. preserve. Qed.
Lemma timer_create_idle mem func parm time flag : idle_op (rt_timer_create mem func parm time flag).
Proof. unfold rt_timer_create. preserve. Qed.
Lemma timer_init_user_idle u func parm time flag : idle_op (rt_timer_init (TUser u) func parm time flag).
Proof.
  unfold rt_timer_init. preserve.
Qed.
Lemma timer_init_thread_idle t func parm time :
  idle_op (rt_timer_init (TThread t) func parm time RT_TIMER_FLAG_THREAD_TIMER).
Proof. unfold rt_timer_init. preserve. Qed.
Lemma timer_control_idle i cmd : idle_op (rt_timer_control i cmd).
Proof. unfold rt_timer_control. preserve. Qed.
End TimerOps.
#[export] Hint Resolve timer_remove_idle timer_start0_idle timer_start_idle timer_stop_idle timer_detach_idle
  timer_delete_idle timer_create_idle timer_init_user_idle timer_init_thread_idle timer_control_idle : rt_pres.

(** ** scheduler_up.c, scheduler_comm.c *)
Section SchedOps.
Context (X : Z -> Prop).
Abbreviation idle_op m := (preserves (quiet X) m).

Lemma remove_thread_idle t : idle_op (rt_sched_remove_thread t).
Proof. unfold rt_sched_remove_thread, rt_list_remove, rt_list_isempty. preserve. Qed.
Lemma insert_idle t : idle_op (rt_sched_insert_thread t).
Proof. unfold rt_sched_insert_thread, rt_thread_self, rt_list_insert_before, rt_list_insert_after. preserve. Qed.
#[local] Hint Resolve remove_thread_idle insert_idle : rt_pres.
Lemma highest_idle : idle_op _scheduler_get_highest_priority_thread.
Proof. unfold _scheduler_get_highest_priority_thread. preserve. Qed.
#[local] Hint Resolve highest_idle : rt_pres.
Lemma schedule_idle : idle_op rt_schedule.
Proof. unfold rt_schedule. preserve. Qed.
#[local] Hint Resolve schedule_idle : rt_pres.
Lemma enter_critical_idle : idle_op rt_enter_critical.
Proof. unfold rt_enter_critical. preserve. Qed.
Lemma exit_critical_idle : idle_op rt_exit_critical.
Proof. unfold rt_exit_critical, rt_thread_self. preserve. Qed.
#[local] Hint Resolve enter_critical_idle exit_critical_idle : rt_pres.
Lemma exit_critical_safe_idle n : idle_op (rt_exit_critical_safe n).
Proof. unfold rt_exit_critical_safe. preserve. Qed.
Lemma spin_lock_idle : idle_op rt_spin_lock.
Proof. unfold rt_spin_lock. preserve. Qed.
Lemma spin_unlock_idle : idle_op rt_spin_unlock.
Proof. exact exit_critical_idle. Qed.
Lemma resched_idle : idle_op rt_sched_unlock_n_resched.
Proof. unfold rt_sched_unlock_n_resched, rt_thread_self. preserve. Qed.
#[local] Hint Resolve resched_idle : rt_pres.
Lemma init_ctx_idle t tick priority : idle_op (rt_sched_thread_init_ctx t tick priority).
Proof. unfold rt_sched_thread_init_ctx, rt_sched_thread_init_priv. preserve. Qed.
Lemma thread_startup_idle t : idle_op (rt_sched_thread_startup t).
Proof. unfold rt_sched_thread_startup. preserve. Qed.
Lemma thread_timer_stop_idle t : idle_op (rt_sched_thread_timer_stop t).
Proof. unfold rt_sched_thread_timer_stop. preserve. Qed.
#[local] Hint Resolve thread_timer_stop_idle : rt_pres.
Lemma get_stat_idle t : idle_op (rt_sched_thread_get_stat t).
Proof. unfold rt_sched_thread_get_stat. preserve. Qed.
Lemma get_curr_prio_idle t : idle_op (rt_sched_thread_get_curr_prio t).
Proof. unfold rt_sched_thread_get_curr_prio. preserve. Qed.
Lemma get_init_prio_idle t : idle_op (rt_sched_thread_get_init_prio t).
Proof. unfold rt_sched_thread_get_init_prio. preserve. Qed.
Lemma get_suspended_idle t : idle_op (rt_sched_thread_is_suspended t).
Proof. unfold rt_sched_thread_is_suspended. preserve. Qed.
#[local] Hint Resolve get_stat_idle get_suspended_idle : rt_pres.
Lemma thread_close_idle t : idle_op (rt_sched_thread_close t).
Proof. unfold rt_sched_thread_close. preserve. Qed.
Lemma thread_yield_idle t : idle_op (rt_sched_thread_yield t).
Proof. unfold rt_sched_thread_yield. preserve. Qed.
#[local] Hint Resolve thread_yield_idle : rt_pres.
Lemma thread_ready_idle t : idle_op (rt_sched_thread_ready t).
Proof. unfold rt_sched_thread_ready, rt_list_remove. preserve. Qed.
Lemma tick_slice_idle : idle_op rt_sched_tick_increase.
Proof. unfold rt_sched_tick_increase. preserve. Qed.
Lemma change_priority_idle t p : idle_op (rt_sched_thread_change_priority t p).
Proof. unfold rt_sched_thread_change_priority. preserve. Qed.
End SchedOps.
#[export] Hint Resolve remove_thread_idle insert_idle highest_idle schedule_idle enter_critical_idle
  exit_critical_idle exit_critical_safe_idle spin_lock_idle spin_unlock_idle resched_idle init_ctx_idle
  thread_startup_idle thread_timer_stop_idle get_stat_idle get_curr_prio_idle get_init_prio_idle
  get_suspended_idle thread_close_idle thread_yield_idle thread_ready_idle tick_slice_idle
  change_priority_idle : rt_pres.

(** ** The suspend lists and thread.c *)
Section ThreadOps.
Context (X : Z -> Prop).
Abbreviation idle_op m := (preserves (quiet X) m).

Lemma dequeue_idle l e : idle_op (rt_susp_list_dequeue l e).
Proof. unfold rt_susp_list_dequeue, rt_list_isempty. preserve. Qed.
#[local] Hint Resolve dequeue_idle : rt_pres.
Lemma resume_all_loop_idle n l e : idle_op (resume_all_loop n l e).
Proof. induction n; cbn [resume_all_loop]; preserve. Qed.
#[local] Hint Resolve resume_all_loop_idle : rt_pres.
Lemma resume_all_idle l e : idle_op (rt_susp_list_resume_all l e).
Proof. unfold rt_susp_list_resume_all. preserve. Qed.
Lemma enqueue_idle l t flag : idle_op (rt_susp_list_enqueue l t flag).
Proof. unfold rt_susp_list_enqueue, rt_list_insert_before. preserve. Qed.
#[local] Hint Resolve enqueue_idle : rt_pres.
Lemma thread_timeout_idle t : idle_op (_thread_timeout t).
Proof. unfold _thread_timeout, rt_list_remove. preserve. Qed.
Lemma set_errno_idle e : idle_op (rt_set_errno e).
Proof. unfold rt_set_errno, rt_interrupt_get_nest, rt_thread_self. preserve. Qed.
Lemma if_still_running_idle self c rest : idle_op rest -> idle_op (if_still_running self c rest).
Proof. intros H. unfold if_still_running, rt_thread_self. preserve. Qed.
#[local] Hint Resolve if_still_running_idle : rt_pres.
Lemma after_schedule_idle c rest : idle_op rest -> idle_op (after_schedule c rest).
Proof. intros H. unfold after_schedule, rt_thread_self. preserve. Qed.
#[local] Hint Resolve after_schedule_idle : rt_pres.
Lemma sched_ret_idle again r : idle_op (sched_ret again r).
Proof. unfold sched_ret. preserve. Qed.
Lemma thread_init0_idle t priority tick : idle_op (_thread_init t priority tick).
Proof. unfold _thread_init. preserve. Qed.
#[local] Hint Resolve thread_init0_idle : rt_pres.
Lemma thread_create_idle mem stack priority tick : idle_op (rt_thread_create mem stack priority tick).
Proof.
  unfold rt_thread_create. preserve. apply insert_thread_idle. intros _. reflexivity.
Qed.
Lemma thread_init_idle t priority tick : idle_op (rt_thread_init t priority tick).
Proof.
  unfold rt_thread_init. apply preserves_bind; [preserve|intros _]. intros k r k' N H.
  inv_bind H. injection Hs as <- <-. inv_bind H. unfold rt_assert in Hs.
  destruct (match _ with Some _ => _ | None => _ end); [injection Hs as <- <-|discriminate].
  inv_bind H. apply (thread_init0_idle t priority tick) in H; [exact H|].
  refine (insert_thread_idle X t _ _ _ _ _ N Hs).
  destruct (k_threads k !! t) as [th|] eqn:Ht; [exact (q_flag _ _ N t th Ht)|reflexivity].
Qed.
Lemma suspend_to_list_idle t o flag f : idle_op (rt_thread_suspend_to_list t o flag f).
Proof. unfold rt_thread_suspend_to_list, rt_thread_self, _thread_set_suspend_state. preserve. Qed.
#[local] Hint Resolve suspend_to_list_idle : rt_pres.
Lemma thread_suspend_flag_idle t f : idle_op (rt_thread_suspend_with_flag t f).
Proof. unfold rt_thread_suspend_with_flag. preserve. Qed.
Lemma thread_resume_idle t : idle_op (rt_thread_resume t).
Proof. unfold rt_thread_resume. preserve. Qed.
#[local] Hint Resolve thread_resume_idle thread_suspend_flag_idle : rt_pres.
Lemma thread_suspend_idle t : idle_op (rt_thread_suspend t).
Proof. unfold rt_thread_suspend. preserve. Qed.
Lemma startup_idle t : idle_op (rt_thread_startup t).
Proof. unfold rt_thread_startup. preserve. Qed.
Lemma rt_thread_yield_idle : idle_op rt_thread_yield.
Proof. unfold rt_thread_yield. preserve. Qed.
Lemma start_thread_timer_idle t v : idle_op (start_thread_timer t v).
Proof. unfold start_thread_timer. preserve. Qed.
#[local] Hint Resolve start_thread_timer_idle : rt_pres.
Lemma thread_sleep_idle tick : idle_op (_thread_sleep tick).
Proof.
  unfold _thread_sleep, RT_DEBUG_SCHEDULER_AVAILABLE, RT_DEBUG_IN_THREAD_CONTEXT,
    RT_DEBUG_NOT_IN_INTERRUPT, rt_interrupt_get_nest, rt_thread_self. preserve.
Qed.
Lemma thread_sleep_resume_idle : idle_op _thread_sleep_resume.
Proof. unfold _thread_sleep_resume. preserve. Qed.
Lemma delay_until_idle tick inc : idle_op (rt_thread_delay_until tick inc).
Proof. unfold rt_thread_delay_until, rt_tick_get. preserve. Qed.
Lemma delay_until_resume2_idle tick : idle_op (rt_thread_delay_until_resume2 tick).
Proof. unfold rt_thread_delay_until_resume2. preserve. Qed.
#[local] Hint Resolve delay_until_resume2_idle : rt_pres.
Lemma delay_until_resume_idle tick : idle_op (rt_thread_delay_until_resume tick).
Proof. unfold rt_thread_delay_until_resume. preserve. Qed.
End ThreadOps.
#[export] Hint Resolve dequeue_idle resume_all_idle enqueue_idle thread_timeout_idle set_errno_idle
  if_still_running_idle after_schedule_idle sched_ret_idle thread_create_idle thread_init_idle
  suspend_to_list_idle thread_suspend_flag_idle thread_resume_idle thread_suspend_idle startup_idle
  rt_thread_yield_idle start_thread_timer_idle thread_sleep_idle thread_sleep_resume_idle
  delay_until_idle delay_until_resume2_idle delay_until_resume_idle : rt_pres.
