(* ===== verification/ThreadOps.v ===== *)
(** * thread.c and idle.c keep the kernel invariant *)

From S2P Require Import Prelude Bitmap Kernel Timer Sched IpcList Thread KernelInv TimerInv.
From S2P Require Import SchedInv ThreadInv TimerIdle.
Open Scope rt_scope.

(** The invariant between operations, outside of [rt_timer_check]. *)
Definition kinv (k : kernel) : Prop := inv k /\ quiet (fun _ => False) k.

Lemma kinv_and {A} (m : K A) :
  preserves inv m -> preserves (quiet (fun _ => False)) m -> preserves kinv m.
Proof. intros H1 H2 k a k' [I N] H. split; [eapply H1|eapply H2]; eauto. Qed.

Create HintDb rt_kinv discriminated.
#[export] Hint Extern 2 (preserves kinv _) =>
  apply kinv_and; [solve [eauto with rt_pres nocore]|solve [eauto with rt_pres nocore]] : rt_pres.

(** Updates of a thread's fields that the invariant does not read. *)
#[export] Hint Extern 1 (preserves inv (upd_thread _ _)) =>
  apply upd_thread_same; intros; repeat split : rt_pres.
#[export] Hint Extern 1 (preserves inv (st_modify _)) => preserve_same : rt_pres.

Lemma the_self_inv I : preserves I the_self.
Proof. unfold the_self, rt_thread_self. apply preserves_bind; [apply preserves_gets|intros; apply preserves_opt]. Qed.
#[export] Hint Resolve the_self_inv : rt_pres.

(** ** Suspending *)

(** After a call of [rt_thread_suspend_to_list]: either the thread sleeps, or
    nothing happened. *)
Definition slept (t r : Z) (o : option lid) (flag : Z) (k k' : kernel) : Prop :=
  (r = RT_EOK /\ exists th, k_threads k !! t = Some th /\ suspended t th o flag k k') \/
  (r <> RT_EOK /\ k' = k /\ exists th, k_threads k !! t = Some th /\
     stat_of th <> RT_THREAD_READY /\ stat_of th <> RT_THREAD_RUNNING).

Lemma suspend_spec t o flag f k r k' :
  inv k -> (forall l, o = Some l -> susp_list l = true) ->
  rt_thread_suspend_to_list t o flag f k = Some (r, k') ->
  k_current k = Some t /\ inv k' /\ slept t r o flag k k'.
Proof.
  intros I Ho H. pose proof H as H'. unfold rt_thread_suspend_to_list in H.
  apply bind_Some in H as (th & k1 & H1 & H). apply get_thread_Some in H1 as [Ht ->].
  apply bind_Some in H as ([] & k2 & H2 & H). unfold rt_assert in H2.
  destruct (th_valid th) eqn:Hv; [injection H2 as <-|discriminate].
  apply bind_Some in H as (cur & k3 & H3 & H). injection H3 as <- <-.
  apply bind_Some in H as ([] & k4 & H4 & H). unfold rt_assert in H4.
  destruct (bool_decide _) eqn:Hc; [injection H4 as <-; bool_to_prop|discriminate].
  split; [assumption|]. cbv zeta in H.
  destruct (negb (stat_of th =? RT_THREAD_READY) && negb (stat_of th =? RT_THREAD_RUNNING)) eqn:Hst.
  { injection H as <- <-. bool_to_prop. split; [assumption|]. right. split; [discriminate|]. eauto. }
  assert (stat_of th = RT_THREAD_RUNNING) as Hr.
  { destruct (so_current _ _ _ _ _ (inv_stat _ _ _ I Ht) Hc) as [Hn _].
    apply andb_false_iff in Hst as [Hst|Hst]; bool_to_prop; [contradiction|assumption]. }
  assert (flag_ok_for o flag) as Hf.
  { destruct o as [l|]; cbn; [|exact Logic.I]. split; [auto|].
    destruct (decide (flag = RT_IPC_FLAG_FIFO \/ flag = RT_IPC_FLAG_PRIO)) as [Hf|Hf]; [exact Hf|exfalso].
    apply bind_Some in H as ([] & k5 & H5 & H). apply bind_Some in H as ([] & k6 & H6 & H).
    apply bind_Some in H as ([] & k7 & H7 & H). apply bind_Some in H7 as (x & k8 & H8 & _).
    rewrite enqueue_bad in H8 by exact Hf. discriminate. }
  destruct (suspend_total k t th o flag f I Hc Ht Hr Hf) as (k9 & H9 & I9 & S9).
  rewrite H' in H9. injection H9 as -> ->. split; [assumption|]. left. eauto.
Qed.

Lemma suspended_waits t th o flag k k' : suspended t th o flag k k' -> waits t k'.
Proof.
  intros S. destruct (sp_thread _ _ _ _ _ _ S) as (s & Hs & Hs' & Ht). eexists. split; [exact Ht|].
  change (is_suspended (th <| th_stat ::= with_stat s |>) = true).
  rewrite suspended_with by lia. exact Hs.
Qed.

(** It waits in the list it was put into. *)
Lemma suspended_listed t th l flag k k' :
  susp_list l = true -> suspended t th (Some l) flag k k' -> t ∈ k_lists k' l.
Proof.
  intros Hl S. rewrite (sp_lists _ _ _ _ _ _ S).
  apply with_list_elem; [intros ? [= <-]; assumption|auto].
Qed.

Lemma suspend_preserves t o flag f :
  (forall l, o = Some l -> susp_list l = true) ->
  preserves kinv (rt_thread_suspend_to_list t o flag f).
Proof.
  intros Ho. apply kinv_and; [|apply suspend_to_list_idle].
  intros k r k' I H. eapply suspend_spec; eauto.
Qed.

(** ** Arming the timer *)

Lemma start_thread_timer_spec t v k u k' :
  inv k -> waits t k -> timer_idle t k -> start_thread_timer t v k = Some (u, k') ->
  inv k' /\ timer_started t k k'.
Proof.
  intros I (th & Ht & Hs) Hid H. pose proof (inv_stat _ _ _ I Ht) as SO.
  assert (u32 v < HALF_TICK) as Hlt.
  { unfold start_thread_timer, rt_timer_control in H.
    apply bind_Some in H as (x & k1 & H1 & _). erewrite bind_eq in H1 by (apply get_timer_eq; exact Ht).
    erewrite bind_eq in H1 by (apply assert_eq; eapply suspended_tvalid; eauto). cbv beta iota in H1.
    apply bind_Some in H1 as ([] & k2 & H2 & _). unfold rt_assert in H2.
    destruct (u32 v <? HALF_TICK) eqn:E; [bool_to_prop; assumption|discriminate]. }
  destruct (start_thread_timer_total t th k v I Ht Hs (Hid _ Ht) Hlt) as (k2 & H2 & I2 & T2 & _).
  rewrite H in H2. injection H2 as _ <-. auto.
Qed.

Lemma timer_started_waits t k k' : timer_started t k k' -> waits t k -> waits t k'.
Proof.
  intros [_ _ _ _ (th & th' & Ht & Ht' & Ar) _ _] (th1 & Ht1 & Hs). rewrite Ht in Ht1. injection Ht1 as <-.
  exists th'. split; [assumption|]. unfold is_suspended. rewrite (ar_stat _ _ Ar). exact Hs.
Qed.

Lemma quiet_idle t k : quiet (fun _ => False) k -> timer_idle t k.
Proof. intros N th Ht. apply (q_flag _ _ N t th Ht). exact (fun H => H). Qed.

(** [t] waits, in a store with the invariant. *)
Definition kinv_waits (t : Z) (k : kernel) : Prop := kinv k /\ waits t k.

Lemma start_thread_timer_preserves t v : preserves (kinv_waits t) (start_thread_timer t v).
Proof.
  intros k u k' [[I N] Hw] H.
  destruct (start_thread_timer_spec t v k u k' I Hw (quiet_idle _ _ N) H) as [I' T].
  split; [split|]; [assumption| |eapply timer_started_waits; eauto].
  eapply start_thread_timer_idle; eauto.
Qed.

(** The shape of the waiting calls: suspend, return on error, otherwise go on
    with the thread asleep. *)
Lemma suspend_then t o flag f (m : Z -> K outcome) :
  (forall l, o = Some l -> susp_list l = true) ->
  (forall r, r <> RT_EOK -> preserves kinv (m r)) ->
  triple (kinv_waits t) (m RT_EOK) (fun _ => kinv) ->
  preserves kinv (r ← rt_thread_suspend_to_list t o flag f; m r).
Proof.
  intros Ho Hm Hok k a k' [I N] H. apply bind_Some in H as (r & k1 & H1 & H).
  pose proof (suspend_to_list_idle _ _ _ _ _ _ _ _ N H1) as N1.
  destruct (suspend_spec _ _ _ _ _ _ _ I Ho H1) as (_ & I1 & [[-> (th & _ & Hw%suspended_waits)]|(Hr & -> & _)]).
  - eapply Hok; [|exact H]. split; [split; assumption|assumption].
  - eapply Hm; eauto. split; assumption.
Qed.

Lemma waits_drop {A} t (m : K A) : preserves kinv m -> triple (kinv_waits t) m (fun _ => kinv).
Proof. intros H k a k' [K _] E. eapply H; eauto. Qed.

(** [if (timeout > 0) start the timer;] and the rest of the call. *)
Lemma arm_then {A} t timeout (m : K A) :
  preserves kinv m ->
  triple (kinv_waits t) (when (0 <? timeout) (start_thread_timer t timeout);; m) (fun _ => kinv).
Proof.
  intros Hm. eapply triple_bind with (R := fun _ => kinv_waits t); [|intros; apply waits_drop, Hm].
  apply preserves_when, start_thread_timer_preserves.
Qed.

(** ** Delays, resumption, yielding *)

Lemma waits_same_stat t f k u k' :
  waits t k -> (forall th, th_stat (f th) = th_stat th) -> upd_thread t f k = Some (u, k') -> waits t k'.
Proof.
  intros (th & Ht & Hs) Hf (th' & Ht' & ->)%upd_thread_Some. rewrite Ht in Ht'. injection Ht' as <-.
  exists (f th). split; [apply lookup_insert_eq|]. unfold is_suspended. rewrite Hf. exact Hs.
Qed.

Lemma debug_sched_preserves I b : preserves I (RT_DEBUG_SCHEDULER_AVAILABLE b).
Proof.
  unfold RT_DEBUG_SCHEDULER_AVAILABLE, RT_DEBUG_IN_THREAD_CONTEXT, RT_DEBUG_NOT_IN_INTERRUPT, rt_interrupt_get_nest, rt_thread_self.
  apply preserves_when. repeat (apply preserves_bind; [|intros]); auto with rt_pres.
Qed.
Lemma debug_interrupt_preserves I : preserves I RT_DEBUG_NOT_IN_INTERRUPT.
Proof. unfold RT_DEBUG_NOT_IN_INTERRUPT, rt_interrupt_get_nest. apply preserves_bind; auto with rt_pres. Qed.
Lemma debug_thread_preserves I : preserves I RT_DEBUG_IN_THREAD_CONTEXT.
Proof.
  unfold RT_DEBUG_IN_THREAD_CONTEXT, RT_DEBUG_NOT_IN_INTERRUPT, rt_interrupt_get_nest, rt_thread_self.
  repeat (apply preserves_bind; [|intros]); auto with rt_pres.
Qed.
#[export] Hint Resolve debug_sched_preserves debug_interrupt_preserves debug_thread_preserves : rt_pres.

Lemma if_still_running_preserves I self c rest :
  preserves I rest -> preserves I (if_still_running self c rest).
Proof. intros H. unfold if_still_running, rt_thread_self. preserve. Qed.
Lemma set_errno_preserves e : preserves inv (rt_set_errno e).
Proof. unfold rt_set_errno, rt_interrupt_get_nest, rt_thread_self. preserve. Qed.
Lemma sched_ret_preserves again r : preserves inv (sched_ret again r).
Proof. unfold sched_ret. preserve. Qed.
#[export] Hint Resolve if_still_running_preserves set_errno_preserves sched_ret_preserves suspend_preserves : rt_pres.

Lemma after_schedule_preserves c rest : preserves kinv rest -> preserves kinv (after_schedule c rest).
Proof. intros H. unfold after_schedule, rt_thread_self. preserve. Qed.

Lemma rt_tick_get_preserves I : preserves I rt_tick_get.
Proof. apply preserves_gets. Qed.
#[export] Hint Resolve rt_tick_get_preserves after_schedule_preserves : rt_pres.

Lemma thread_sleep_preserves tick : preserves kinv (_thread_sleep tick).
Proof.
  unfold _thread_sleep. apply preserves_if; [preserve|].
  apply preserves_bind; [preserve|intros t]. apply preserves_bind; [preserve|intros _].
  apply preserves_bind; [preserve|intros _]. apply preserves_bind; [preserve|intros level].
  unfold rt_thread_suspend_with_flag. apply suspend_then.
  - discriminate.
  - intros r Hr. destruct (r =? RT_EOK) eqn:E; bool_to_prop; [contradiction|]. preserve.
  - change (RT_EOK =? RT_EOK) with true. cbv iota.
    eapply triple_bind with (R := fun _ => kinv_waits t); [apply start_thread_timer_preserves|intros _].
    apply waits_drop. preserve.
Qed.

Lemma thread_sleep_resume_preserves : preserves kinv _thread_sleep_resume.
Proof. unfold _thread_sleep_resume. preserve. Qed.

Lemma thread_resume_preserves t : preserves inv (rt_thread_resume t).
Proof. unfold rt_thread_resume. preserve. Qed.

Lemma yield_preserves : preserves inv rt_thread_yield.
Proof. unfold rt_thread_yield. preserve. Qed.
#[export] Hint Resolve thread_sleep_preserves thread_sleep_resume_preserves thread_resume_preserves
  yield_preserves : rt_pres.

(** [rt_thread_delay_until] ignores the result of the suspension; a thread that
    was suspended already arms its timer again, a closed one has no timer. *)
Lemma arm_not_running t v k u k' :
  kinv k -> k_current k = Some t ->
  (exists th, k_threads k !! t = Some th /\ stat_of th <> RT_THREAD_READY /\ stat_of th <> RT_THREAD_RUNNING) ->
  start_thread_timer t v k = Some (u, k') -> kinv k' /\ waits t k'.
Proof.
  intros [I N] Hc (th & Ht & H1 & H2) H. pose proof (inv_stat _ _ _ I Ht) as SO.
  assert (waits t k) as Hw.
  { exists th. split; [assumption|]. rewrite is_suspended_stat.
    destruct (so_current _ _ _ _ _ SO Hc) as [_ H3].
    destruct (Z.eq_dec (stat_of th) RT_THREAD_CLOSE) as [H4|H4].
    - exfalso. unfold start_thread_timer, rt_timer_control in H. apply bind_Some in H as (x & k1 & E & _).
      erewrite bind_eq in E by (apply get_timer_eq; exact Ht).
      apply bind_Some in E as ([] & k2 & E & _). unfold rt_assert in E.
      rewrite (so_tvalid _ _ _ _ _ SO), H4 in E. discriminate.
    - assert (0 <= stat_of th <= 7) as Hr.
      { unfold stat_of, RT_THREAD_STAT_MASK. pose proof (Z.land_ones (th_stat th) 3 ltac:(lia)) as E.
        change (Z.ones 3) with 7 in E. rewrite E. pose proof (Z.mod_pos_bound (th_stat th) (2 ^ 3)). lia. }
      revert H1 H2 H3 H4 Hr. unfold RT_THREAD_READY, RT_THREAD_RUNNING, RT_THREAD_INIT, RT_THREAD_CLOSE.
      intros. assert (stat_of th = 4 \/ stat_of th = 5 \/ stat_of th = 6 \/ stat_of th = 7) as Hx by lia.
      destruct Hx as [-> |[-> |[-> | ->]]]; reflexivity. }
  destruct (start_thread_timer_spec t v k u k' I Hw (quiet_idle _ _ N) H) as [I' T].
  split; [split; [assumption|eapply start_thread_timer_idle; eauto]|eapply timer_started_waits; eauto].
Qed.

(** Suspension whose result is ignored, then the timer. *)
Lemma suspend_arm_triple {A} t o flag f (b : bool) v (m : K A) :
  (forall l, o = Some l -> susp_list l = true) -> preserves kinv m ->
  preserves kinv (rt_thread_suspend_to_list t o flag f;; when b (start_thread_timer t v);; m).
Proof.
  intros Ho Hm k a k' [I N] H. apply bind_Some in H as (r & k1 & H1 & H).
  pose proof (suspend_to_list_idle _ _ _ _ _ _ _ _ N H1) as N1.
  destruct (suspend_spec _ _ _ _ _ _ _ I Ho H1) as (Hc & I1 & S1).
  apply bind_Some in H as ([] & k2 & H2 & H). eapply Hm; [|exact H].
  destruct b; [|injection H2 as <-; split; assumption]. cbn [when] in H2.
  destruct S1 as [[_ (th & _ & Hw%suspended_waits)]|(_ & -> & Hth)].
  - eapply start_thread_timer_preserves; [|exact H2]. split; [split; assumption|assumption].
  - eapply arm_not_running; [split; eassumption|eassumption..].
Qed.

Lemma delay_until_preserves tick inc : preserves kinv (rt_thread_delay_until tick inc).
Proof.
  unfold rt_thread_delay_until, rt_thread_suspend_with_flag.
  apply preserves_bind; [preserve|intros t]. apply preserves_bind; [preserve|intros th].
  apply preserves_bind; [preserve|intros _]. apply preserves_bind; [preserve|intros _].
  apply preserves_bind; [preserve|intros level]. apply preserves_bind; [preserve|intros now].
  apply preserves_if; [|preserve].
  apply (suspend_arm_triple t None 0 RT_UNINTERRUPTIBLE true); [discriminate|]. preserve.
Qed.

Lemma delay_until_resume_preserves tick : preserves kinv (rt_thread_delay_until_resume tick).
Proof.
  unfold rt_thread_delay_until_resume, rt_thread_delay_until_resume2. apply after_schedule_preserves. preserve.
Qed.
#[export] Hint Resolve delay_until_preserves delay_until_resume_preserves : rt_pres.

(** ** Starting a thread *)

Lemma startup_preserves t : preserves inv (rt_thread_startup t).
Proof.
  intros k r k' I H. unfold rt_thread_startup in H.
  apply bind_Some in H as (th & k1 & H1 & H). apply get_thread_Some in H1 as [Ht ->].
  apply bind_Some in H as ([] & k2 & H2 & H). unfold rt_assert in H2.
  destruct (stat_of th =? RT_THREAD_INIT) eqn:Hst; [injection H2 as <-; bool_to_prop|discriminate].
  apply bind_Some in H as ([] & k3 & H3 & H). unfold rt_assert in H3.
  destruct (th_valid th) eqn:Hv; [injection H3 as <-|discriminate].
  apply bind_Some in H as ([] & k4 & H4 & H).
  assert (inv k4) as I4.
  2: { apply bind_Some in H as (e & k5 & H5 & H). injection H as _ <-. eapply thread_resume_preserves; eauto. }
  unfold rt_sched_thread_startup in H4.
  erewrite bind_eq in H4 by (apply upd_thread_eq; exact Ht).
  set (th1 := th <| th_mask := u32 (Z.shiftl 1 (th_cur_prio th)) |>) in *.
  pose (k5 := k <| k_threads ::= insert t th1 |>).
  assert (k_threads k5 !! t = Some th1) as Ht5 by apply lookup_insert_eq.
  pose proof (upd_thread_eq t (fun th => th <| th_stat ::= (fun _ => RT_THREAD_SUSPEND) |>) k5 _ Ht5) as E.
  change (set_stat t (fun _ => RT_THREAD_SUSPEND) k5 = Some ((), k4)) in H4.
  unfold set_stat in H4. rewrite E in H4. injection H4 as <-.
  pose proof (i_threads _ _ I _ _ Ht) as W. pose proof (inv_stat _ _ _ I Ht) as SO.
  pose proof (prio_mask (th_cur_prio th) (proj1 (tw_prio _ _ _ _ W))) as Hpm.
  assert (forall l, t ∉ k_lists k l) as Hoff.
  { intros l Hl. destruct (susp_list l) eqn:Hsl.
    - apply (so_waiting _ _ _ _ _ SO) in Hl as [Hl _]; [|assumption].
      rewrite is_suspended_stat, Hst in Hl. discriminate.
    - destruct l; try discriminate.
      + assert (stat_of th = RT_THREAD_READY) as Hr by (apply (so_ready _ _ _ _ _ SO); eauto).
        rewrite Hst in Hr. discriminate.
      + apply (so_defunct _ _ _ _ _ SO) in Hl. rewrite Hst in Hl. discriminate. }
  assert (TThread t ∉ k_timer_list k) as Htl.
  { intros Hl. apply (so_timer _ _ _ _ _ SO) in Hl as [Hl _]. rewrite is_suspended_stat, Hst in Hl. discriminate. }
  apply (inv_set_thread (fun x => x = t) _ t _ k5).
  - apply (inv_set_thread (fun _ => False) _ t th1 k I); [tauto| |tauto].
    destruct W. split; try assumption; cbn.
    + intros p Hp. destruct (Hoff _ Hp).
    + right. exact Hpm.
  - tauto.
  - destruct W. split; try assumption; cbn.
    + intros p Hp. destruct (Hoff _ Hp).
    + right. exact Hpm.
  - intros _. split; cbn.
    + split; [discriminate|]. intros [p Hp]. destruct (Hoff _ Hp).
    + discriminate.
    + intros _. exact Hv.
    + intros _. split; discriminate.
    + intros l _ Hl. destruct (Hoff _ Hl).
    + intros Hl. destruct (Hoff _ Hl).
    + contradiction.
    + intros Hp. destruct (so_pending _ _ _ _ _ SO Hp). contradiction.
    + rewrite (so_tvalid _ _ _ _ _ SO), Hst. reflexivity.
Qed.
#[export] Hint Resolve startup_preserves : rt_pres.

(** ** Creating a thread *)

(** The caller of an operation: it has not been closed. *)
Definition caller_ok (k : kernel) : Prop :=
  forall c th, k_current k = Some c -> k_threads k !! c = Some th -> stat_of th <> RT_THREAD_CLOSE.

(** A thread object as [_thread_init] leaves it. *)
Record fresh_thread (priority tick : Z) (th : thread) : Prop := {
  fr_valid : th_valid th = true;
  fr_stat : th_stat th = RT_THREAD_INIT;
  fr_prio : th_cur_prio th = priority /\ th_init_prio th = priority;
  fr_mask : th_mask th = 0;
  fr_tick : th_init_tick th = tick /\ th_remaining th = tick;
  fr_pending : th_pending th = None;
  fr_error : th_error th = RT_EOK;
  fr_timer : tm_valid (th_timer th) = true /\ tm_flag (th_timer th) = RT_TIMER_FLAG_THREAD_TIMER;
}.

(** [k'] is [k] up to the threads. *)
Record threads_only (k k' : kernel) : Prop := {
  to_lists : k_lists k' = k_lists k;
  to_group : k_group k' = k_group k;
  to_current : k_current k' = k_current k;
  to_timers : k_timer_list k' = k_timer_list k;
  to_utimers : k_utimers k' = k_utimers k;
  to_mutexes : k_mutexes k' = k_mutexes k;
}.

#[export] Instance threads_only_preorder : PreOrder threads_only.
Proof. split; [intros k; split; reflexivity|]. intros k1 k2 k3 [] []. split; congruence. Qed.

(** A write to thread [t], as an equation on the thread table. *)
Lemma upd_thread_map t f k u k' th :
  k_threads k !! t = Some th -> upd_thread t f k = Some (u, k') ->
  k_threads k' = <[t := f th]> (k_threads k) /\ k_threads k' !! t = Some (f th) /\ threads_only k k'.
Proof.
  intros Ht H. rewrite (upd_thread_eq _ _ _ _ Ht) in H. injection H as _ <-.
  split; [reflexivity|]. split; [apply lookup_insert_eq|split; reflexivity].
Qed.

Lemma thread_init0_spec t priority tick k th r k' :
  k_threads k !! t = Some th -> th_valid th = true -> _thread_init t priority tick k = Some (r, k') ->
  priority < RT_THREAD_PRIORITY_MAX /\
  exists th', k_threads k' = <[t := th']> (k_threads k) /\ fresh_thread priority tick th' /\
    th_ttmr th' = th_ttmr th /\ threads_only k k'.
Proof.
  intros Ht Hv H. unfold _thread_init, rt_sched_thread_init_ctx, rt_sched_thread_init_priv in H.
  apply bind_Some in H as ([] & k1 & H1 & H). apply bind_Some in H1 as ([] & k2 & H2 & H1).
  apply (upd_thread_map t _ k _ k2 th Ht) in H2 as (M2 & Ht2 & T2).
  apply bind_Some in H1 as ([] & k3 & H3 & H1). unfold rt_assert in H3.
  destruct (priority <? RT_THREAD_PRIORITY_MAX) eqn:Hp; [injection H3 as <-; bool_to_prop|discriminate].
  apply (upd_thread_map t _ k2 _ k1 _ Ht2) in H1 as (M1 & Ht1 & T1).
  apply bind_Some in H as ([] & k4 & H4 & H).
  assert (k_threads k4 = k_threads k1 /\ threads_only k1 k4) as [M4 T4]
    by (injection H4 as <-; split; [reflexivity|split; reflexivity]). clear H4.
  rewrite <- M4 in Ht1. apply bind_Some in H as ([] & k5 & H5 & H).
  apply (upd_thread_map t _ k4 _ k5 _ Ht1) in H5 as (M5 & Ht5 & T5).
  apply bind_Some in H as ([] & k6 & H6 & H). injection H as _ <-.
  unfold rt_timer_init in H6. apply bind_Some in H6 as ([] & k7' & H7' & H6). injection H7' as <-.
  apply bind_Some in H6 as ([] & k7 & H7 & H6). injection H7 as <-.
  apply bind_Some in H6 as (tm & k8 & H8 & H6). apply get_timer_Some in H8 as (th8 & _ & _ & ->).
  apply bind_Some in H6 as ([] & k9 & H9 & H6). unfold rt_assert in H9.
  destruct (negb _); [injection H9 as <-|discriminate].
  apply (upd_thread_map t _ k5 _ k6 _ Ht5) in H6 as (M6 & Ht6 & T6).
  split; [assumption|]. eexists. split; [|split; [|split]].
  - rewrite M6, M5, M4, M1, M2, !insert_insert_eq. reflexivity.
  - split; cbn; auto.
  - reflexivity.
  - do 4 (etransitivity; [eassumption|]). exact T6.
Qed.

(** The store with a fresh thread in place of nothing or of a detached object. *)
Lemma fresh_inv t priority tick th' k k' :
  inv k -> 0 <= priority < RT_THREAD_PRIORITY_MAX -> k_current k <> Some t ->
  (forall l, t ∉ k_lists k l) -> TThread t ∉ k_timer_list k ->
  k_threads k' = <[t := th']> (k_threads k) -> fresh_thread priority tick th' ->
  threads_only k k' -> inv k'.
Proof.
  intros I Hp Hc Hoff Htl Ht F [Hl Hg Hcu Ht' Hu Hm].
  assert (inv (k <| k_threads ::= insert t th' |>)) as I'.
  { destruct F as [F1 F2 [F3 F4] F5 [F6 F6'] F7 F8 [F9 F10]].
    assert (stat_of th' = RT_THREAD_INIT) as Hst by (unfold stat_of; rewrite F2; reflexivity).
    eapply inv_set_thread; [exact I|tauto| |intros _].
    - split; unfold timer_active; rewrite ?F1, ?F3, ?F4, ?F5, ?F9, ?F10, ?Hst; auto.
      + intros p Hin. destruct (Hoff _ Hin).
      + split; [contradiction|discriminate].
    - apply stat_ok_off; rewrite ?Hst, ?F1, ?F7, ?F9; auto; try discriminate; try contradiction. }
  eapply inv_same; [exact I'|..]; try assumption. rewrite Hm. apply (i_mutex _ _ I).
Qed.

Lemma invalid_off t th k :
  inv k -> k_threads k !! t = Some th -> th_valid th = false ->
  stat_of th = RT_THREAD_CLOSE /\ (forall l, t ∉ k_lists k l) /\ TThread t ∉ k_timer_list k.
Proof.
  intros I Ht Hv. pose proof (inv_stat _ _ _ I Ht) as SO.
  assert (stat_of th = RT_THREAD_CLOSE) as Hst.
  { destruct (Z.eq_dec (stat_of th) RT_THREAD_CLOSE) as [|Hn]; [assumption|].
    apply (so_valid _ _ _ _ _ SO) in Hn. congruence. }
  split; [assumption|]. split.
  - intros l Hl. apply (tw_listed _ _ _ _ (i_threads _ _ I _ _ Ht)) in Hl. congruence.
  - intros Hl. apply (so_timer _ _ _ _ _ SO) in Hl as [Hl _]. rewrite is_suspended_stat, Hst in Hl. discriminate.
Qed.

Lemma absent_off t k :
  inv k -> k_threads k !! t = None ->
  (forall l, t ∉ k_lists k l) /\ (TThread t ∉ k_timer_list k) /\ k_current k <> Some t.
Proof.
  intros I Ht. split; [|split].
  - intros l Hl. apply (i_exists _ _ I) in Hl as [x Hx]. congruence.
  - intros Hl. apply (i_texists _ _ I) in Hl as [x Hx]. congruence.
  - intros Hc. apply (i_cur _ _ I) in Hc as [x Hx]. congruence.
Qed.

Lemma thread_init_inv t priority tick k r k' :
  inv k -> caller_ok k -> 0 <= priority -> rt_thread_init t priority tick k = Some (r, k') -> inv k'.
Proof.
  intros I Hok Hp H. unfold rt_thread_init in H.
  apply bind_Some in H as ([] & k1 & H1 & H). unfold rt_assert in H1.
  destruct (negb (tick =? 0)); [injection H1 as <-|discriminate].
  apply bind_Some in H as (old & k2 & H2 & H). injection H2 as <- <-.
  apply bind_Some in H as ([] & k3 & H3 & H). unfold rt_assert in H3.
  destruct (match _ with Some _ => _ | None => _ end) eqn:Hold; [injection H3 as <-|discriminate].
  apply bind_Some in H as ([] & k4 & H4 & H). injection H4 as <-.
  assert ((forall l, t ∉ k_lists k l) /\ (TThread t ∉ k_timer_list k) /\ k_current k <> Some t) as (Hoff & Htl & Hc).
  { destruct (k_threads k !! t) as [th|] eqn:Ht; [|apply absent_off; assumption].
    apply negb_true_iff in Hold. destruct (invalid_off _ _ _ I Ht Hold) as (Hst & Hoff & Htl).
    split; [assumption|]. split; [assumption|]. intros Hc. destruct (Hok _ _ Hc Ht). assumption. }
  set (th0 := match k_threads k !! t with Some th => _ | None => _ end) in H.
  assert (th_valid th0 = true) as Hv by (unfold th0; destruct (k_threads k !! t); reflexivity).
  clearbody th0. set (k0 := k <| k_threads ::= insert t th0 |>) in H.
  assert (k_threads k0 = <[t := th0]> (k_threads k) /\ threads_only k k0) as [M0 T0]
    by (split; [reflexivity|split; reflexivity]). clearbody k0.
  assert (k_threads k0 !! t = Some th0) as Ht0 by (rewrite M0; apply lookup_insert_eq).
  destruct (thread_init0_spec t priority tick _ _ _ _ Ht0 Hv H) as (Hlt & th' & E1 & F & _ & T).
  eapply (fresh_inv t priority tick th' k k'); try eassumption; [lia| |etransitivity; eassumption].
  rewrite E1, M0. apply insert_insert_eq.
Qed.

Lemma thread_create_inv mem stack priority tick k r k' :
  inv k -> 0 <= priority -> rt_thread_create mem stack priority tick k = Some (r, k') -> inv k'.
Proof.
  intros I Hp H. unfold rt_thread_create in H.
  apply bind_Some in H as ([] & k1 & H1 & H). unfold rt_assert in H1.
  destruct (negb (tick =? 0)); [injection H1 as <-|discriminate].
  destruct mem as [t|]; [|injection H as _ <-; assumption].
  apply bind_Some in H as (old & k2 & H2 & H). injection H2 as <- <-.
  apply bind_Some in H as ([] & k3 & H3 & H). unfold rt_assert in H3.
  destruct (bool_decide _) eqn:Hold; [injection H3 as <-; bool_to_prop|discriminate].
  destruct stack; [|injection H as _ <-; assumption].
  destruct (absent_off _ _ I Hold) as (Hoff & Htl & Hc).
  apply bind_Some in H as ([] & k0 & H4 & H).
  assert (k_threads k0 = <[t := new_thread false]> (k_threads k) /\ threads_only k k0) as [M0 T0]
    by (injection H4 as <-; split; [reflexivity|split; reflexivity]). clear H4.
  apply bind_Some in H as (e & k5 & H5 & H). injection H as _ <-.
  assert (k_threads k0 !! t = Some (new_thread false)) as Ht0 by (rewrite M0; apply lookup_insert_eq).
  destruct (thread_init0_spec t priority tick _ _ _ _ Ht0 eq_refl H5) as (Hlt & th' & E1 & F & _ & T).
  eapply (fresh_inv t priority tick th' k k5); try eassumption; [lia| |etransitivity; eassumption].
  rewrite E1, M0. apply insert_insert_eq.
Qed.
