(* ===== verification/IpcOps.v ===== *)
(** * Semaphores, events, mailboxes, message queues, pools, data queues and completions keep the invariant *)

From S2P Require Import Prelude Bitmap Kernel Timer Sched IpcList Thread Sem Event Mailbox Mqueue.
From S2P Require Import Mempool DataQueue Completion KernelInv TimerInv SchedInv ThreadInv TimerIdle ThreadOps.
Open Scope rt_scope.

(** ** The object tables *)

(** A new suspend list: who waited in it waits in no list. *)
Lemma list_init_preserves l : susp_list l = true -> preserves inv (list_init l).
Proof.
  intros Hl. unfold list_init. apply preserves_modify. intros k I.
  assert (forall l' t, t ∈ (<[l := []]> (k_lists k)) l' -> t ∈ k_lists k l') as Hin.
  { intros l' t. destruct (decide (l' = l)) as [->|Hne].
    - rewrite fn_lookup_insert. intros H%elem_of_nil. destruct H.
    - rewrite fn_lookup_insert_ne by congruence. auto. }
  assert (forall p, (<[l := []]> (k_lists k)) (LReady p) = k_lists k (LReady p)) as Hr
    by (intros p; apply fn_lookup_insert_ne; intros ->; discriminate).
  destruct I. split; cbv [set_field]; cbn; try assumption; eauto.
  - intros l'. destruct (decide (l' = l)) as [->|Hne].
    + rewrite fn_lookup_insert. constructor.
    + rewrite fn_lookup_insert_ne by congruence. auto.
  - intros p Hp. rewrite Hr. auto.
  - intros t th Ht. destruct (i_threads t th Ht). split; eauto.
  - intros t th Ht HE. destruct (i_stat t th Ht HE). split; eauto.
    rewrite so_ready. split; intros [p Hp]; exists p; [rewrite Hr|rewrite Hr in Hp]; assumption.
Qed.
#[export] Hint Extern 1 (preserves inv (list_init _)) => apply list_init_preserves; reflexivity : rt_pres.

Lemma list_init_idle X l : preserves (quiet X) (list_init l).
Proof. unfold list_init. preserve. Qed.
#[export] Hint Resolve list_init_idle : rt_pres.

Section Tables.
Context {O : Type} (proj : kernel -> gmap Z O) `{!Setter proj}.
Hypothesis Hproj : forall g k, let k' := set_field proj g k in
  k_threads k' = k_threads k /\ k_lists k' = k_lists k /\ k_group k' = k_group k /\
  k_current k' = k_current k /\ k_timer_list k' = k_timer_list k /\
  k_utimers k' = k_utimers k /\ k_mutexes k' = k_mutexes k.

Lemma set_table_preserves g : preserves inv (st_modify (set_field proj g)).
Proof. apply preserves_same; intros k; destruct (Hproj g k) as (H1 & H2 & H3 & H4 & H5 & H6 & H7); assumption. Qed.

Lemma upd_obj_preserves i f : preserves inv (upd_obj proj i f).
Proof.
  unfold upd_obj. apply preserves_bind; [apply get_obj_preserves|intros; apply set_table_preserves].
Qed.
Lemma obj_init_preserves valid i o : preserves inv (obj_init proj valid i o).
Proof.
  unfold obj_init. apply preserves_bind; [apply preserves_gets|intros].
  apply preserves_bind; [apply preserves_assert|intros; apply set_table_preserves].
Qed.
Lemma obj_delete_preserves i : preserves inv (obj_delete proj i).
Proof. apply set_table_preserves. Qed.

End Tables.

Section IdleTables.
Context {O : Type} (proj : kernel -> gmap Z O) `{!Setter proj} (X : Z -> Prop).
Hypothesis Hproj : forall g k, let k' := set_field proj g k in
  k_threads k' = k_threads k /\ k_timer_exec k' = k_timer_exec k /\ k_timer_list k' = k_timer_list k.

Lemma obj_init_idle valid i o : preserves (quiet X) (obj_init proj valid i o).
Proof.
  unfold obj_init. apply preserves_bind; [apply preserves_gets|intros].
  apply preserves_bind; [apply preserves_assert|intros; apply idle_modify; intros; apply Hproj].
Qed.
Lemma obj_delete_idle i : preserves (quiet X) (obj_delete proj i).
Proof. apply idle_modify; intros; apply Hproj. Qed.
End IdleTables.

Ltac table_frame := intros; repeat split; reflexivity.
#[export] Hint Extern 1 (preserves inv (upd_obj _ _ _)) => apply upd_obj_preserves; solve [table_frame] : rt_pres.
#[export] Hint Extern 1 (preserves inv (obj_init _ _ _ _)) => apply obj_init_preserves; solve [table_frame] : rt_pres.
#[export] Hint Extern 1 (preserves inv (obj_delete _ _)) => apply obj_delete_preserves; solve [table_frame] : rt_pres.
#[export] Hint Extern 1 (preserves (quiet _) (obj_init _ _ _ _)) => apply obj_init_idle; table_frame : rt_pres.
#[export] Hint Extern 1 (preserves (quiet _) (obj_delete _ _)) => apply obj_delete_idle; table_frame : rt_pres.

(** Unfolds the accessors, then decomposes. *)
Ltac ipc_unfold :=
  unfold check_sem, get_sem, upd_sem, check_event, get_event, upd_event, check_mb, get_mb, upd_mb,
    check_mq, get_mq, upd_mq, upd_mq_opt, check_mp, get_mp, upd_mp, pool_store, rt_list_isempty, rt_thread_self, rt_tick_get.
Ltac ipc := ipc_unfold; preserve.

(** The same up to the call that suspends. *)
Ltac ipc_wait :=
  ipc_unfold;
  repeat lazymatch goal with
    | |- preserves _ (rt_thread_suspend_to_list _ _ _ _ ≫= _) => fail
    | |- _ => preserve_step
    end.

(** [preserves kinv] of an operation that does not suspend. *)
Ltac ipc_kinv := apply kinv_and; ipc.

(** ** Waiting *)

(** [now = rt_tick_get(); if (timeout > 0) start the timer;] and the rest. *)
Lemma tick_arm_then {A} t timeout (m : Z -> K A) :
  (forall now, preserves kinv (m now)) ->
  triple (kinv_waits t)
    (now ← rt_tick_get; when (0 <? timeout) (start_thread_timer t timeout);; m now) (fun _ => kinv).
Proof.
  intros Hm. eapply triple_bind with (R := fun _ => kinv_waits t); [apply preserves_gets|intros now].
  apply arm_then, Hm.
Qed.

(** The tail of a waiting call, from [rt_thread_suspend_to_list] on. *)
Ltac wait_tail :=
  apply suspend_then;
  [ intros ? [= <-]; reflexivity
  | intros r Hr; let E := fresh in destruct (r =? RT_EOK) eqn:E; bool_to_prop; [contradiction|]; cbn [negb]; preserve
  | change (RT_EOK =? RT_EOK) with true; cbn [negb]; cbv iota;
    first [apply arm_then | apply tick_arm_then; intros]; preserve ].

(** ** Semaphores *)

Lemma sem_init_preserves s value flag : preserves kinv (rt_sem_init s value flag).
Proof. unfold rt_sem_init, _sem_object_init. ipc_kinv. Qed.
Lemma sem_detach_preserves s : preserves kinv (rt_sem_detach s).
Proof. unfold rt_sem_detach. ipc_kinv. Qed.
Lemma sem_create_preserves mem value flag : preserves kinv (rt_sem_create mem value flag).
Proof. unfold rt_sem_create, _sem_object_init. ipc_kinv. Qed.
Lemma sem_delete_preserves s : preserves kinv (rt_sem_delete s).
Proof. unfold rt_sem_delete. ipc_kinv. Qed.
Lemma sem_release_preserves s : preserves kinv (rt_sem_release s).
Proof. unfold rt_sem_release. ipc_kinv. Qed.
Lemma sem_control_preserves s cmd arg : preserves kinv (rt_sem_control s cmd arg).
Proof. unfold rt_sem_control. ipc_kinv. Qed.
Lemma sem_take_preserves s timeout f : preserves kinv (_rt_sem_take s timeout f).
Proof. unfold _rt_sem_take. ipc_wait. wait_tail. Qed.
Lemma sem_take_resume_preserves s : preserves kinv (_rt_sem_take_resume s).
Proof. unfold _rt_sem_take_resume. ipc_kinv. Qed.

(** ** Events *)

Lemma event_init_preserves e flag : preserves kinv (rt_event_init e flag).
Proof. unfold rt_event_init. ipc_kinv. Qed.
Lemma event_detach_preserves e : preserves kinv (rt_event_detach e).
Proof. unfold rt_event_detach. ipc_kinv. Qed.
Lemma event_create_preserves mem flag : preserves kinv (rt_event_create mem flag).
Proof. unfold rt_event_create. ipc_kinv. Qed.
Lemma event_delete_resume_preserves e : preserves kinv (rt_event_delete_resume e).
Proof. unfold rt_event_delete_resume. ipc_kinv. Qed.
#[export] Hint Resolve event_delete_resume_preserves : rt_pres.
Lemma event_delete_preserves e : preserves kinv (rt_event_delete e).
Proof. unfold rt_event_delete. ipc. Qed.
Lemma event_send_loop_preserves ts have clear sched : preserves kinv (event_send_loop ts have clear sched).
Proof.
  revert clear sched. induction ts as [|t ts IH]; intros clear sched; cbn [event_send_loop]; [preserve|].
  ipc_unfold. preserve; apply IH.
Qed.
#[export] Hint Resolve event_send_loop_preserves : rt_pres.
Lemma event_send_preserves e set : preserves kinv (rt_event_send e set).
Proof. unfold rt_event_send. ipc. Qed.
Lemma event_recv_preserves e set option timeout f : preserves kinv (_rt_event_recv e set option timeout f).
Proof. unfold _rt_event_recv. ipc_wait; wait_tail. Qed.
Lemma event_recv_resume_preserves e : preserves kinv (_rt_event_recv_resume e).
Proof. unfold _rt_event_recv_resume. ipc_kinv. Qed.
Lemma event_control_preserves e cmd : preserves kinv (rt_event_control e cmd).
Proof. unfold rt_event_control. ipc_kinv. Qed.

(** ** Mailboxes *)

Lemma mb_init_preserves m pool size flag : preserves kinv (rt_mb_init m pool size flag).
Proof. unfold rt_mb_init. ipc_kinv. Qed.
Lemma mb_create_preserves mem pool size flag : preserves kinv (rt_mb_create mem pool size flag).
Proof. unfold rt_mb_create. ipc_kinv. Qed.
Lemma mb_detach_preserves m : preserves kinv (rt_mb_detach m).
Proof. unfold rt_mb_detach. ipc_kinv. Qed.
Lemma mb_delete_resume_preserves m : preserves kinv (rt_mb_delete_resume m).
Proof. unfold rt_mb_delete_resume. ipc_kinv. Qed.
#[export] Hint Resolve mb_delete_resume_preserves : rt_pres.
Lemma mb_delete_preserves m : preserves kinv (rt_mb_delete m).
Proof. unfold rt_mb_delete. ipc. Qed.
Lemma mb_put_preserves m value : preserves kinv (mb_put m value).
Proof. unfold mb_put. ipc. Qed.
#[export] Hint Resolve mb_put_preserves : rt_pres.
Lemma mb_send_round_preserves m value timeout f : preserves kinv (mb_send_round m value timeout f).
Proof. unfold mb_send_round. ipc_wait; wait_tail. Qed.
#[export] Hint Resolve mb_send_round_preserves : rt_pres.
Lemma mb_send_wait_preserves m value timeout f : preserves kinv (_rt_mb_send_wait m value timeout f).
Proof. unfold _rt_mb_send_wait. ipc. Qed.
Lemma mb_send_resume_preserves m value timeout tick f :
  preserves kinv (_rt_mb_send_wait_resume m value timeout tick f).
Proof. unfold _rt_mb_send_wait_resume. ipc. Qed.
Lemma mb_urgent_preserves m value : preserves kinv (rt_mb_urgent m value).
Proof. unfold rt_mb_urgent. ipc. Qed.
Lemma mb_take_preserves m : preserves kinv (mb_take m).
Proof. unfold mb_take. ipc. Qed.
#[export] Hint Resolve mb_take_preserves : rt_pres.
Lemma mb_recv_round_preserves m timeout f : preserves kinv (mb_recv_round m timeout f).
Proof. unfold mb_recv_round. ipc_wait; wait_tail. Qed.
#[export] Hint Resolve mb_recv_round_preserves : rt_pres.
Lemma mb_recv_preserves m timeout f : preserves kinv (_rt_mb_recv m timeout f).
Proof. unfold _rt_mb_recv. ipc. Qed.
Lemma mb_recv_resume_preserves m timeout tick f : preserves kinv (_rt_mb_recv_resume m timeout tick f).
Proof. unfold _rt_mb_recv_resume. ipc. Qed.
Lemma mb_control_preserves m cmd : preserves kinv (rt_mb_control m cmd).
Proof. unfold rt_mb_control. ipc_kinv. Qed.

(** ** Message queues *)

Lemma mq_init_preserves q pool msg_size pool_size flag :
  preserves kinv (rt_mq_init q pool msg_size pool_size flag).
Proof. unfold rt_mq_init. ipc_kinv. Qed.
Lemma mq_create_preserves mem pool msg_size max_msgs flag :
  preserves kinv (rt_mq_create mem pool msg_size max_msgs flag).
Proof. unfold rt_mq_create. ipc_kinv. Qed.
Lemma mq_detach_preserves q : preserves kinv (rt_mq_detach q).
Proof. unfold rt_mq_detach. ipc_kinv. Qed.
Lemma mq_delete_resume_preserves q : preserves kinv (rt_mq_delete_resume q).
Proof. unfold rt_mq_delete_resume. ipc_kinv. Qed.
#[export] Hint Resolve mq_delete_resume_preserves : rt_pres.
Lemma mq_delete_preserves q : preserves kinv (rt_mq_delete q).
Proof. unfold rt_mq_delete. ipc. Qed.
Lemma mq_notify_preserves q : preserves kinv (mq_notify q).
Proof. unfold mq_notify. ipc. Qed.
#[export] Hint Resolve mq_notify_preserves : rt_pres.
Lemma mq_send_round_preserves q buf timeout f : preserves kinv (mq_send_round q buf timeout f).
Proof. unfold mq_send_round. ipc_wait; wait_tail. Qed.
#[export] Hint Resolve mq_send_round_preserves : rt_pres.
Lemma mq_send_wait_preserves q buf timeout f : preserves kinv (_rt_mq_send_wait q buf timeout f).
Proof. unfold _rt_mq_send_wait. ipc. Qed.
Lemma mq_send_resume_preserves q buf timeout tick f :
  preserves kinv (_rt_mq_send_wait_resume q buf timeout tick f).
Proof. unfold _rt_mq_send_wait_resume. ipc. Qed.
Lemma mq_urgent_preserves q buf : preserves kinv (rt_mq_urgent q buf).
Proof. unfold rt_mq_urgent. ipc. Qed.
Lemma mq_take_preserves q size : preserves kinv (mq_take q size).
Proof. unfold mq_take. ipc. Qed.
#[export] Hint Resolve mq_take_preserves : rt_pres.
Lemma mq_recv_round_preserves q size timeout f : preserves kinv (mq_recv_round q size timeout f).
Proof. unfold mq_recv_round. ipc_wait; wait_tail. Qed.
#[export] Hint Resolve mq_recv_round_preserves : rt_pres.
Lemma mq_recv_preserves q size timeout f : preserves kinv (_rt_mq_recv q size timeout f).
Proof. unfold _rt_mq_recv. ipc. Qed.
Lemma mq_recv_resume_preserves q size timeout tick f :
  preserves kinv (_rt_mq_recv_resume q size timeout tick f).
Proof. unfold _rt_mq_recv_resume. ipc. Qed.
Lemma mq_control_preserves q cmd : preserves kinv (rt_mq_control q cmd).
Proof. unfold rt_mq_control. ipc. Qed.

(** ** Memory pools *)

Lemma mp_init_preserves p start size block_size : preserves kinv (rt_mp_init p start size block_size).
Proof. unfold rt_mp_init. ipc_kinv. Qed.
Lemma mp_detach_preserves p : preserves kinv (rt_mp_detach p).
Proof. unfold rt_mp_detach. ipc_kinv. Qed.
Lemma mp_create_preserves mem start count size : preserves kinv (rt_mp_create mem start count size).
Proof. unfold rt_mp_create. ipc_kinv. Qed.
Lemma mp_delete_preserves p : preserves kinv (rt_mp_delete p).
Proof. unfold rt_mp_delete. ipc_kinv. Qed.
Lemma mp_take_preserves p : preserves kinv (mp_take p).
Proof. unfold mp_take. ipc. Qed.
#[export] Hint Resolve mp_take_preserves : rt_pres.

Lemma tick_between {A} (m1 : K A) t v (b : bool) (m2 : Z -> K outcome) :
  (forall now, preserves kinv (m1;; when b (start_thread_timer t v);; m2 now)) ->
  preserves kinv (m1;; now ← rt_tick_get; when b (start_thread_timer t v);; m2 now).
Proof.
  intros H k a k' I E. apply bind_Some in E as (r & k1 & E1 & E2).
  apply bind_Some in E2 as (now & k2 & E2 & E3). injection E2 as <- <-.
  apply (H (k_tick k1) k a k' I). erewrite bind_eq by exact E1. exact E3.
Qed.

Lemma mp_alloc_preserves p time : preserves kinv (mp_alloc_round p time).
Proof.
  unfold mp_alloc_round. ipc_wait. apply (tick_between _ _ _ _ (fun now =>
    rt_schedule;; mret (Waiting (PcMpAlloc p time now)))). intros now.
  apply suspend_arm_triple; [intros l [= <-]; reflexivity|preserve].
Qed.
#[export] Hint Resolve mp_alloc_preserves : rt_pres.
Lemma mp_alloc_resume_preserves p time before : preserves kinv (rt_mp_alloc_resume p time before).
Proof. unfold rt_mp_alloc_resume. ipc. Qed.
Lemma mp_free_preserves home block : preserves kinv (rt_mp_free home block).
Proof. unfold rt_mp_free. ipc. Qed.

(** ** Data queues and completions *)

Ltac dev_unfold := unfold check_dq, get_dq, upd_dq, get_comp, set_comp, rt_list_isempty, rt_thread_self in *.
Ltac dev := dev_unfold; preserve.
Ltac dev_kinv := apply kinv_and; dev.
Ltac dev_wait :=
  dev_unfold;
  repeat lazymatch goal with
    | |- preserves _ (rt_thread_suspend_to_list _ _ _ _ ≫= _) => fail
    | |- _ => preserve_step
    end.

(** ** Data queues *)

Lemma dq_init_preserves q items size lwm n : preserves kinv (rt_data_queue_init q items size lwm n).
Proof. unfold rt_data_queue_init. dev_kinv. Qed.
Lemma dq_len_preserves q : preserves kinv (rt_data_queue_len q).
Proof. unfold rt_data_queue_len. dev_kinv. Qed.
#[export] Hint Resolve dq_len_preserves : rt_pres.
Lemma dq_peek_preserves q : preserves kinv (rt_data_queue_peek q).
Proof. unfold rt_data_queue_peek. dev. Qed.
Lemma dq_clear_preserves q : preserves kinv (dq_clear q).
Proof. unfold dq_clear. dev. Qed.
#[export] Hint Resolve dq_clear_preserves : rt_pres.
Lemma dq_reset_preserves q : preserves kinv (rt_data_queue_reset q).
Proof. unfold rt_data_queue_reset. dev. Qed.
Lemma dq_release_preserves q : preserves kinv (dq_release q).
Proof. unfold dq_release. dev. Qed.
#[export] Hint Resolve dq_release_preserves : rt_pres.
Lemma dq_deinit_resume_preserves q again : preserves kinv (rt_data_queue_deinit_resume q again).
Proof. unfold rt_data_queue_deinit_resume. dev. Qed.
#[export] Hint Resolve dq_deinit_resume_preserves : rt_pres.
Lemma dq_deinit_preserves q : preserves kinv (rt_data_queue_deinit q).
Proof. unfold rt_data_queue_deinit. dev. Qed.

Section Notify.
Context (evt_notify : Z -> Z -> Z -> K unit).
Hypothesis Hnotify : forall f q e, preserves kinv (evt_notify f q e).
#[local] Hint Resolve Hnotify : rt_pres.

Lemma notify_preserves q e : preserves kinv (notify evt_notify q e).
Proof. unfold notify. dev. Qed.
#[local] Hint Resolve notify_preserves : rt_pres.
Lemma dq_put_item_preserves q d s : preserves kinv (dq_put_item evt_notify q d s).
Proof. unfold dq_put_item. dev. Qed.
#[local] Hint Resolve dq_put_item_preserves : rt_pres.
Lemma dq_push_round_preserves q d s timeout : preserves kinv (dq_push_round evt_notify q d s timeout).
Proof. unfold dq_push_round. dev_wait. wait_tail. Qed.
#[local] Hint Resolve dq_push_round_preserves : rt_pres.
Lemma dq_push_preserves q d s timeout : preserves kinv (rt_data_queue_push evt_notify q d s timeout).
Proof. unfold rt_data_queue_push. dev. Qed.
Lemma dq_push_resume_preserves q d s timeout : preserves kinv (rt_data_queue_push_resume evt_notify q d s timeout).
Proof. unfold rt_data_queue_push_resume. dev. Qed.
Lemma dq_pop_end_preserves q d s : preserves kinv (dq_pop_end evt_notify q d s).
Proof. unfold dq_pop_end. dev. Qed.
#[local] Hint Resolve dq_pop_end_preserves : rt_pres.
Lemma dq_take_item_preserves q : preserves kinv (dq_take_item evt_notify q).
Proof. unfold dq_take_item. dev. Qed.
#[local] Hint Resolve dq_take_item_preserves : rt_pres.
Lemma dq_pop_round_preserves q timeout : preserves kinv (dq_pop_round evt_notify q timeout).
Proof. unfold dq_pop_round. dev_wait. wait_tail. Qed.
#[local] Hint Resolve dq_pop_round_preserves : rt_pres.
Lemma dq_pop_preserves q timeout : preserves kinv (rt_data_queue_pop evt_notify q timeout).
Proof. unfold rt_data_queue_pop. dev. Qed.
Lemma dq_pop_resume_preserves q timeout : preserves kinv (rt_data_queue_pop_resume evt_notify q timeout).
Proof. unfold rt_data_queue_pop_resume. dev. Qed.
End Notify.

(** ** Completions *)

Lemma comp_init_preserves c : preserves kinv (rt_completion_init c).
Proof. unfold rt_completion_init. dev_kinv. Qed.
Lemma comp_done_preserves c : preserves kinv (_completion_done c).
Proof. unfold _completion_done. dev_kinv. Qed.
#[export] Hint Resolve comp_done_preserves : rt_pres.

Lemma comp_done_void_preserves c : preserves kinv (rt_completion_done c).
Proof. unfold rt_completion_done. apply preserves_bind; [apply comp_done_preserves|intros; apply preserves_ret]. Qed.

(** The word changes while the thread sleeps. *)
Lemma set_comp_waits c w t : preserves (kinv_waits t) (set_comp c w).
Proof.
  intros k u k' [HK Hw] H. assert (preserves kinv (set_comp c w)) as P by dev_kinv.
  split; [exact (P _ _ _ HK H)|]. injection H as _ <-. exact Hw.
Qed.

Lemma comp_wait_preserves c timeout : preserves kinv (rt_completion_wait c timeout).
Proof.
  unfold rt_completion_wait, rt_thread_suspend_with_flag, get_comp, rt_thread_self.
  repeat lazymatch goal with
    | |- preserves _ (rt_thread_suspend_to_list _ _ _ _ ≫= _) => fail
    | |- _ => preserve_step
    end; try solve [dev_kinv].
  apply suspend_then; [discriminate| |].
  - intros r Hr. destruct (r =? RT_EOK) eqn:E; bool_to_prop; [contradiction|]. dev_kinv.
  - change (RT_EOK =? RT_EOK) with true. cbv iota.
    lazymatch goal with |- triple (kinv_waits ?t) _ _ =>
      apply triple_bind with (R := fun _ => kinv_waits t); [apply set_comp_waits|intros _];
      apply triple_bind with (R := fun _ => kinv_waits t); [|intros _; apply arm_then; dev] end.
    unfold RT_DEBUG_NOT_IN_INTERRUPT, rt_interrupt_get_nest. apply preserves_bind; [apply preserves_gets|intros; apply preserves_assert].
Qed.
Lemma comp_wait_resume_preserves c : preserves kinv (rt_completion_wait_resume c).
Proof. unfold rt_completion_wait_resume. dev_kinv. Qed.
