(* ===== verification/MutexOps.v ===== *)
(** * The mutexes keep the invariant

    The operations of ipc.c on mutexes, with the priorities they pass on along
    chains of owners. *)

From S2P Require Import Prelude Bitmap Kernel Timer Sched IpcList Thread Sem Mutex KernelInv.
From S2P Require Import TimerInv SchedInv ThreadInv TimerIdle ThreadOps IpcOps.
Open Scope rt_scope.

(** ** Facts about a thread that the operations keep *)

(** [t] was closed and is in no list. *)
Definition closed (t : Z) (k : kernel) : Prop :=
  exists th, k_threads k !! t = Some th /\ stat_of th = RT_THREAD_CLOSE /\ th_valid th = true /\
    off_lists t k.

Definition also (Q : kernel -> Prop) (k : kernel) : Prop := inv k /\ Q k.

(** The facts that survive changes of priority and moves between suspend
    lists. *)
Record stable (Q : kernel -> Prop) : Prop := {
  st_ext : forall k k', k_threads k' = k_threads k -> k_lists k' = k_lists k -> Q k -> Q k';
  st_upd : forall t f, (forall th, stat_of (f th) = stat_of th /\ th_valid (f th) = th_valid th) ->
    preserves Q (upd_thread t f);
  st_remove : forall k t, inv k -> Q k -> (forall p, t ∉ k_lists k (LReady p)) -> Q (remove_lists t k);
  st_requeue : forall k t l flag, inv k -> Q k -> waits t k ->
    Q (enqueue_state l t flag (remove_lists t k));
  st_change : forall t p, 0 <= p -> preserves (also Q) (rt_sched_thread_change_priority t p);
}.

(** Those that wake-ups and reschedules keep as well. *)
Record lasting (Q : kernel -> Prop) : Prop := {
  ls_stable : stable Q;
  ls_ready : forall t, preserves (also Q) (rt_sched_thread_ready t);
  ls_sched : preserves (also Q) rt_schedule;
}.

Lemma waits_upd x t f :
  (forall th, stat_of (f th) = stat_of th) -> preserves (waits x) (upd_thread t f).
Proof.
  intros Hf k u k' (th & Hx & Hs) (th' & Ht & ->)%upd_thread_Some. unfold waits. cbv [set_field]. cbn.
  destruct (decide (x = t)) as [->|Hne].
  - rewrite lookup_insert_eq. eexists. split; [reflexivity|].
    rewrite is_suspended_stat, Hf, <- is_suspended_stat. congruence.
  - rewrite lookup_insert_ne by congruence. eauto.
Qed.

Lemma waits_stable x : stable (waits x).
Proof.
  split.
  - intros k k' Ht _ (th & Hx & Hs). exists th. rewrite Ht. auto.
  - intros t f Hf. apply waits_upd. intros th. apply Hf.
  - intros k t _ H _. exact H.
  - intros k t l flag _ H _. exact H.
  - intros t p Hp. apply change_priority_waits, Hp.
Qed.

Lemma closed_not_ready x k : inv k -> closed x k -> forall l, x ∉ k_lists k l.
Proof. intros _ (_ & _ & _ & _ & H). exact H. Qed.

(** [closed] from the lists that are not ready queues. *)
Lemma closed_intro x k th :
  inv k -> k_threads k !! x = Some th -> stat_of th = RT_THREAD_CLOSE -> th_valid th = true ->
  (forall l, ready_list l = false -> x ∉ k_lists k l) -> closed x k.
Proof.
  intros I Hx Hs Hv Hoff. exists th. split; [assumption|]. split; [assumption|]. split; [assumption|].
  intros l. destruct (ready_list l) eqn:Hl; [|auto]. destruct l; try discriminate. intros Hin.
  assert (stat_of th = RT_THREAD_READY) as Hr by (apply (so_ready _ _ _ _ _ (inv_stat _ _ _ I Hx)); eauto).
  rewrite Hs in Hr. discriminate.
Qed.

Lemma closed_upd x t f :
  (forall th, stat_of (f th) = stat_of th /\ th_valid (f th) = th_valid th) ->
  preserves (closed x) (upd_thread t f).
Proof.
  intros Hf k u k' (th & Hx & Hs & Hv & Hoff) (th' & Ht & ->)%upd_thread_Some.
  destruct (decide (x = t)) as [->|Hne].
  - exists (f th'). rewrite Hx in Ht. injection Ht as <-. destruct (Hf th) as [H1 H2].
    split; [apply lookup_insert_eq|]. rewrite H1, H2. auto.
  - exists th. split; [cbv [set_field]; cbn; rewrite lookup_insert_ne by congruence; assumption|auto].
Qed.

Lemma closed_stable x : stable (closed x).
Proof.
  split.
  - intros k k' Ht Hl (th & Hx & Hs & Hv & Hoff). exists th. rewrite Ht. unfold off_lists. rewrite Hl. auto.
  - intros t f Hf. apply closed_upd, Hf.
  - intros k t _ (th & Hx & Hs & Hv & Hoff) _. exists th. split; [exact Hx|]. split; [exact Hs|]. split; [exact Hv|].
    intros l. unfold remove_lists. cbv [set_field]. cbn. rewrite elem_of_filter_ne. intros [_ H]. exact (Hoff l H).
  - intros k t l flag _ (th & Hx & Hs & Hv & Hoff) (tht & Ht & Hst).
    exists th. split; [exact Hx|]. split; [exact Hs|]. split; [exact Hv|].
    intros l'. unfold enqueue_state, remove_lists. cbv [set_field]. cbn. destruct (decide (l' = l)) as [->|Hne].
    + rewrite fn_lookup_insert, elem_of_enqueued, elem_of_filter_ne. intros [->|[_ H]]; [|exact (Hoff l H)].
      rewrite Hx in Ht. injection Ht as <-. rewrite is_suspended_stat, Hs in Hst. discriminate.
    + rewrite fn_lookup_insert_ne by congruence. rewrite elem_of_filter_ne. intros [_ H]. exact (Hoff l' H).
  - intros t p Hp k r k' [I (th & Hx & Hs & Hv & Hoff)] H.
    destruct (change_priority_spec _ _ _ _ _ I Hp H)
      as (I' & _ & a & a' & Ha & Hk & _ & Hst & _ & _ & Hl & Hval & _).
    split; [assumption|]. destruct (decide (x = t)) as [->|Hne].
    + rewrite Hx in Ha. injection Ha as <-. eapply closed_intro; [exact I'| | | |].
      * rewrite Hk. apply lookup_insert_eq.
      * congruence.
      * congruence.
      * intros l Hr. rewrite Hl by assumption. apply Hoff.
    + eapply closed_intro; [exact I'| |exact Hs|exact Hv|].
      * rewrite Hk, lookup_insert_ne by congruence. exact Hx.
      * intros l Hr. rewrite Hl by assumption. apply Hoff.
Qed.

Lemma closed_lasting x : lasting (closed x).
Proof.
  split; [apply closed_stable| |].
  - intros t k r k' [I C] H. pose proof (thread_ready_preserves t _ _ _ I H) as I'. split; [assumption|].
    destruct C as (th & Hx & Hs & Hv & Hoff).
    destruct (k_threads k !! t) as [tht|] eqn:Ht.
    2: { unfold rt_sched_thread_ready, rt_sched_thread_is_suspended, get_thread, mbind, st_bind in H.
         rewrite Ht in H. discriminate. }
    rewrite (thread_ready_eq k t tht I Ht) in H.
    destruct (is_suspended tht) eqn:Hst; cbn in H.
    2: { injection H as _ <-. exists th. auto. }
    assert (x <> t) as Hne.
    { intros ->. rewrite Hx in Ht. injection Ht as <-. rewrite is_suspended_stat, Hs in Hst. discriminate. }
    destruct (ready_error t tht k =? 0); injection H as _ <-.
    + eapply closed_intro; [exact I'| |exact Hs|exact Hv|].
      * rewrite ready_state_other by assumption. exact Hx.
      * intros l Hl. rewrite ready_state_lists, elem_of_filter_ne by assumption. intros [_ H]. exact (Hoff l H).
    + eapply closed_intro; [exact I'| |exact Hs|exact Hv|].
      * unfold unarm_state. destruct (bool_decide (TThread t ∈ k_timer_list k)), (th_ttmr tht); cbv [set_field]; cbn;
          rewrite ?lookup_insert_ne by congruence; exact Hx.
      * intros l _. rewrite unarm_state_lists. apply Hoff.
  - intros k u k' [I (th & Hx & Hs & Hv & Hoff)] H.
    destruct (schedule_spec _ _ _ I H) as [I' F]. split; [assumption|].
    pose proof (sf_threads _ _ F x) as R. rewrite Hx in R.
    destruct R as (s & Hx' & [Hs'|[[A|A] _]]); [|rewrite Hs in A; discriminate..].
    eapply closed_intro; [exact I'|exact Hx'|congruence|exact Hv|].
    intros l Hl. rewrite (sf_lists _ _ F) by assumption. apply Hoff.
Qed.

Lemma true_stable : stable (fun _ => True).
Proof.
  split; try (intros; exact Logic.I).
  - intros t f Hf k u k' _ _. exact Logic.I.
  - intros t p Hp k r k' [I _] H. split; [|exact Logic.I]. eapply change_priority_preserves; eauto.
Qed.

Lemma true_lasting : lasting (fun _ => True).
Proof.
  split; [apply true_stable| |].
  - intros t k r k' [I _] H. split; [|exact Logic.I]. eapply thread_ready_preserves; eauto.
  - intros k r k' [I _] H. split; [|exact Logic.I]. eapply schedule_preserves; eauto.
Qed.

(** ** Priorities *)

Lemma prio_of_range k t : inv k -> 0 <= prio_of k t < RT_THREAD_PRIORITY_MAX.
Proof.
  intros I. unfold prio_of. destruct (k_threads k !! t) as [th|] eqn:Ht; [|unfold RT_THREAD_PRIORITY_MAX; lia].
  apply (tw_prio _ _ _ _ (i_threads _ _ I _ _ Ht)).
Qed.

Lemma get_curr_prio_Some t k p k' :
  rt_sched_thread_get_curr_prio t k = Some (p, k') ->
  k' = k /\ p = prio_of k t /\ is_Some (k_threads k !! t).
Proof.
  intros H. unfold rt_sched_thread_get_curr_prio in H. inv_bind H. apply get_thread_Some in Hs as [Ht ->].
  injection H as <- <-. unfold prio_of. rewrite Ht. eauto.
Qed.

(** The priority of the most urgent waiter, 0xff without waiters. *)
Definition waiter_prio (k : kernel) (m : Z) : Z :=
  match k_lists k (LMutex m) with [] => 0xff | t :: _ => prio_of k t end.

Lemma waiter_prio_nonneg k m : inv k -> 0 <= waiter_prio k m.
Proof.
  intros I. unfold waiter_prio. destruct (k_lists k (LMutex m)) as [|t q]; [lia|]. apply prio_of_range, I.
Qed.

Lemma first_waiter_prio_eq k m :
  inv k -> first_waiter_prio m k = Some (waiter_prio k m, k).
Proof.
  intros I. unfold first_waiter_prio, waiter_prio, rt_list_isempty, list_first.
  erewrite bind_eq by reflexivity. cbv beta.
  destruct (k_lists k (LMutex m)) as [|t q] eqn:Hl; [reflexivity|]. cbn [bool_decide].
  rewrite bool_decide_false by discriminate.
  erewrite bind_eq; [|erewrite bind_eq by reflexivity; rewrite Hl; reflexivity].
  destruct (i_exists _ _ I (LMutex m) t) as [th Ht]; [rewrite Hl; apply list_elem_of_here|].
  unfold rt_sched_thread_get_curr_prio, prio_of. erewrite bind_eq by (apply get_thread_eq; exact Ht).
  rewrite Ht. reflexivity.
Qed.

(** The smaller of the priority of a mutex's waiters and its ceiling. *)
Definition mutex_prio (x : mutex) : Z :=
  if mx_priority x <? mx_ceiling x then mx_priority x else mx_ceiling x.

Definition mutex_prio_at (k : kernel) (m : Z) : option Z := mutex_prio <$> k_mutexes k !! m.

(** The most urgent of [p] and the priorities of the mutexes [ms]. *)
Definition taken_min (k : kernel) (ms : list Z) (p : Z) : Z :=
  foldl (fun p m => match mutex_prio_at k m with
                    | Some q => if q <? p then q else p | None => p end) p ms.

Lemma taken_priority_Some ms p k r k' :
  taken_priority ms p k = Some (r, k') -> k' = k /\ r = taken_min k ms p.
Proof.
  revert p. induction ms as [|m ms IH]; intros p H; cbn in H.
  - injection H as <- <-. auto.
  - inv_bind H. unfold get_mutex, get_obj in Hs. destruct (k_mutexes k !! m) as [x|] eqn:Hm; [|discriminate].
    injection Hs as <- <-. apply IH in H as [-> ->]. split; [reflexivity|].
    cbn. unfold mutex_prio_at at 2. rewrite Hm. reflexivity.
Qed.

Lemma taken_min_nonneg k ms p : inv k -> 0 <= p -> 0 <= taken_min k ms p.
Proof.
  intros I. revert p. induction ms as [|m ms IH]; intros p Hp; cbn; [assumption|]. apply IH.
  unfold mutex_prio_at. destruct (k_mutexes k !! m) as [x|] eqn:Hm; cbn; [|assumption].
  destruct (i_mutex _ _ I _ _ Hm). unfold mutex_prio. case_bool; lia.
Qed.

(** [_thread_get_mutex_priority]: the inherited priority of [t]. *)
Definition inherited (k : kernel) (t : Z) (th : thread) : Z := taken_min k (k_taken k t) (th_init_prio th).

Lemma get_mutex_priority_Some t k p k' :
  _thread_get_mutex_priority t k = Some (p, k') ->
  k' = k /\ exists th, k_threads k !! t = Some th /\ p = inherited k t th.
Proof.
  intros H. unfold _thread_get_mutex_priority, rt_sched_thread_get_init_prio in H.
  apply bind_Some in H as (q & k1 & H1 & H). inv_bind H1. apply get_thread_Some in Hs as [Ht ->].
  injection H1 as <- <-. apply bind_Some in H as (ms & k2 & H2 & H). injection H2 as <- <-.
  apply taken_priority_Some in H as [-> ->]. eauto.
Qed.

Lemma get_mutex_priority_spec t k p k' :
  inv k -> _thread_get_mutex_priority t k = Some (p, k') -> k' = k /\ 0 <= p.
Proof.
  intros I H. apply get_mutex_priority_Some in H as (-> & th & Ht & ->). split; [reflexivity|].
  apply taken_min_nonneg; [assumption|]. apply (tw_prio _ _ _ _ (i_threads _ _ I _ _ Ht)).
Qed.

(** ** Moves between lists *)

(** A waiter that is taken off its list, or any thread that is in no ready
    queue. *)
Lemma remove_lists_inv k t th :
  inv k -> k_threads k !! t = Some th -> (forall p, t ∉ k_lists k (LReady p)) -> inv (remove_lists t k).
Proof.
  intros I Ht Hnr. eapply inv_close with (t := t); [eapply list_remove_inv; eauto|cbn; tauto|].
  intros th' Ht'. change (k_threads k !! t = Some th') in Ht'. rewrite Ht in Ht'. injection Ht' as <-.
  destruct (inv_stat _ _ _ I Ht). unfold remove_lists. cbv [set_field]. cbn. split; try assumption.
  - rewrite so_ready. split; intros [p Hp]; [destruct (Hnr p Hp)|]. apply elem_of_filter_ne in Hp as [[] _]. reflexivity.
  - intros l _ Hl. destruct (notin_filter_ne _ _ Hl).
  - intros Hl. destruct (notin_filter_ne _ _ Hl).
Qed.

Lemma waits_not_ready k t : inv k -> waits t k -> forall p, t ∉ k_lists k (LReady p).
Proof. intros I (th & Ht & Hs). eapply suspended_not_ready; eauto. Qed.

(** A thread that waits for a mutex is queued again. *)
Lemma requeue_inv k t th l flag :
  inv k -> k_threads k !! t = Some th -> is_suspended th = true -> th_pending th <> None ->
  susp_list l = true -> inv (enqueue_state l t flag (remove_lists t k)).
Proof.
  intros I Ht Hs Hp Hl. pose proof (inv_stat _ _ _ I Ht) as SO.
  pose proof (suspended_not_ready _ _ _ I Ht Hs) as Hnr.
  pose proof (remove_lists_inv _ _ _ I Ht Hnr) as I1.
  eapply inv_close with (t := t).
  - eapply enqueue_inv; [exact I1|exact Ht| |intros l'; apply notin_filter_ne|exact Hl].
    apply (so_valid _ _ _ _ _ SO), suspended_not_close, Hs.
  - cbn. tauto.
  - intros th' Ht'. change (k_threads k !! t = Some th') in Ht'. rewrite Ht in Ht'. injection Ht' as <-.
    assert (forall l', t ∈ k_lists (enqueue_state l t flag (remove_lists t k)) l' -> l' = l) as Hin.
    { intros l'. unfold enqueue_state, remove_lists. cbv [set_field]. cbn. destruct (decide (l' = l)) as [->|Hne]; [auto|].
      rewrite fn_lookup_insert_ne by congruence. intros H. destruct (notin_filter_ne _ _ H). }
    destruct SO. split; try assumption.
    + rewrite so_ready. split; intros [p Hx]; [destruct (Hnr p Hx)|]. apply Hin in Hx. subst l. discriminate.
    + intros l' _ _. split; [assumption|]. intros Htt. apply so_pending; assumption.
    + intros Hx. apply Hin in Hx. subst l. discriminate.
Qed.

(** [th_pending] is cleared, or names an object a waiter waits for. *)
Lemma clear_pending_preserves E t : preserves (inv_ex E) (upd_thread t (fun th => th <| th_pending := None |>)).
Proof.
  intros k u k' I (th & Ht & ->)%upd_thread_Some. eapply inv_set_thread; [exact I|tauto|..].
  - destruct (i_threads _ _ I _ _ Ht). split; assumption.
  - intros HE. destruct (i_stat _ _ I _ _ Ht HE). split; try assumption. intros []. reflexivity.
Qed.

Lemma set_pending_inv k t l m u k' :
  inv k -> susp_list l = true -> t ∈ k_lists k l ->
  upd_thread t (fun th => th <| th_pending := Some m |>) k = Some (u, k') -> inv k'.
Proof.
  intros I Hl Hin (th & Ht & ->)%upd_thread_Some. eapply inv_set_thread; [exact I|tauto|..].
  - destruct (i_threads _ _ I _ _ Ht). split; assumption.
  - intros _. pose proof (inv_stat _ _ _ I Ht) as SO.
    destruct (so_waiting _ _ _ _ _ SO _ Hl Hin) as [Hs Htt]. destruct SO. split; try assumption.
    intros _. split; [exact (suspended_not_init _ Hs)|]. intros _. exact Htt.
Qed.
#[export] Hint Resolve clear_pending_preserves : rt_pres.

(** ** The operations, with a fact that survives them *)

Lemma also_ext Q : stable Q -> forall k k', also Q k -> k_threads k' = k_threads k ->
  k_lists k' = k_lists k -> inv k' -> also Q k'.
Proof. intros S k k' [I HQ] Ht Hl I'. split; [assumption|]. eapply (st_ext _ S); eauto. Qed.

Lemma also_reader {A} Q (m : K A) :
  (forall k a k', m k = Some (a, k') -> k' = k) -> preserves (also Q) m.
Proof. intros H k a k' HI E. rewrite (H _ _ _ E). assumption. Qed.

Section Stable.
Context (Q : kernel -> Prop) (S : stable Q).

Lemma also_upd_thread t f :
  (forall th, same_sched th (f th)) -> preserves (also Q) (upd_thread t f).
Proof.
  intros Hf k u k' [I HQ] H. split; [eapply upd_thread_same; eauto|].
  eapply (st_upd _ S); [|exact HQ|exact H]. intros th. destruct (Hf th) as (H1 & H2 & _). auto.
Qed.

Lemma also_clear_pending t : preserves (also Q) (upd_thread t (fun th => th <| th_pending := None |>)).
Proof.
  intros k u k' [I HQ] H. split; [eapply clear_pending_preserves; eauto|].
  eapply (st_upd _ S); [|exact HQ|exact H]. auto.
Qed.

Lemma also_modify f :
  (forall k, k_threads (f k) = k_threads k) -> (forall k, k_lists (f k) = k_lists k) ->
  preserves inv (st_modify f) -> preserves (also Q) (st_modify f).
Proof.
  intros Ht Hl Hp k u k' HI H. pose proof (Hp _ _ _ (proj1 HI) H) as I'. injection H as _ <-.
  eapply also_ext; eauto.
Qed.

Lemma upd_mutex_Some m f k u k' :
  upd_mutex m f k = Some (u, k') ->
  exists x, k_mutexes k !! m = Some x /\ k' = k <| k_mutexes ::= insert m (f x) |>.
Proof.
  intros H. unfold upd_mutex, upd_obj in H. inv_bind H. unfold get_obj in Hs.
  destruct (k_mutexes k !! m) as [x|] eqn:Hm; [|discriminate]. injection Hs as <- <-.
  injection H as _ <-. eauto.
Qed.

Lemma also_upd_mutex m f :
  (forall x, 0 <= mx_priority x /\ 0 <= mx_ceiling x ->
             0 <= mx_priority (f x) /\ 0 <= mx_ceiling (f x)) ->
  preserves (also Q) (upd_mutex m f).
Proof.
  intros Hf k u k' HI H. pose proof (upd_mutex_preserves _ m f Hf _ _ _ (proj1 HI) H) as I'.
  apply upd_mutex_Some in H as (x & _ & ->). eapply also_ext; [assumption|exact HI|reflexivity..|exact I'].
Qed.

Lemma first_waiter_also m : triple (also Q) (first_waiter_prio m) (fun p k => also Q k /\ 0 <= p).
Proof.
  intros k p k' HI H. rewrite first_waiter_prio_eq in H by apply HI. injection H as <- <-.
  split; [assumption|]. apply waiter_prio_nonneg, HI.
Qed.

Lemma mutex_update_priority_also m : preserves (also Q) (_mutex_update_priority m).
Proof.
  eapply triple_bind; [apply first_waiter_also|]. intros p.
  intros k r k' [HI Hp] H. apply bind_Some in H as ([] & k1 & H1 & H). injection H as <- <-.
  eapply also_upd_mutex; [|exact HI|exact H1]. cbn. lia.
Qed.

Lemma get_mutex_priority_also t : triple (also Q) (_thread_get_mutex_priority t) (fun p k => also Q k /\ 0 <= p).
Proof.
  intros k p k' HI H. destruct (get_mutex_priority_spec _ _ _ _ (proj1 HI) H) as [-> Hp]. auto.
Qed.

Lemma change_priority_also t p : 0 <= p -> preserves (also Q) (rt_sched_thread_change_priority t p).
Proof. apply (st_change _ S). Qed.

(** One round of the loop of [_thread_update_priority]. *)
Lemma requeue_also t m flag k u k' th :
  also Q k -> k_threads k !! t = Some th -> is_suspended th = true -> th_pending th <> None ->
  (rt_list_remove t;; rt_susp_list_enqueue (LMutex m) t flag) k = Some (u, k') -> also Q k'.
Proof.
  intros [I HQ] Ht Hs Hp H. erewrite bind_eq in H by reflexivity.
  change (rt_susp_list_enqueue (LMutex m) t flag (remove_lists t k) = Some (u, k')) in H.
  destruct (decide (flag = RT_IPC_FLAG_FIFO \/ flag = RT_IPC_FLAG_PRIO)) as [Hf|Hf].
  2: { rewrite enqueue_bad in H by exact Hf. discriminate. }
  rewrite enqueue_eq in H by exact Hf. injection H as _ <-. split.
  - eapply requeue_inv; eauto.
  - apply (st_requeue _ S); [assumption..|]. exists th. auto.
Qed.

Lemma update_priority_loop_also fuel t : preserves (also Q) (update_priority_loop fuel t).
Proof.
  revert t. induction fuel as [|fuel IH]; intros t; cbn [update_priority_loop]; [apply preserves_fail|].
  intros k u k' HI H. unfold rt_sched_thread_is_suspended in H.
  apply bind_Some in H as (su & k1 & H1 & H). inv_bind H1. apply get_thread_Some in Hs as [Ht ->].
  injection H1 as <- <-. destruct (is_suspended a) eqn:Hs; cbn [negb] in H; [|injection H as _ <-; assumption].
  erewrite bind_eq in H by (apply get_thread_eq; exact Ht).
  destruct (th_pending a) as [pm|] eqn:Hp; [|injection H as _ <-; assumption].
  apply bind_Some in H as (px & k2 & H2 & H). apply get_obj_preserves with (I := fun x => x = k) in H2 as ->; [|reflexivity].
  destruct (mutex_valid px); cbn [negb] in H; [|injection H as _ <-; assumption].
  apply bind_Some in H as ([] & k3 & H3 & H). apply bind_Some in H as (r & k4 & H4 & H).
  assert (also Q k4) as HI4.
  { eapply (requeue_also t pm); eauto; [congruence|]. erewrite bind_eq by exact H3. exact H4. }
  apply bind_Some in H as (p & k5 & H5 & H). pose proof (mutex_update_priority_also _ _ _ _ HI4 H5) as HI5.
  apply bind_Some in H as (owner & k6 & H6 & H). apply preserves_opt with (P := also Q) in H6; [|assumption].
  apply bind_Some in H as (mp & k7 & H7 & H). apply get_mutex_priority_also in H7 as [HI7 Hmp]; [|assumption].
  apply bind_Some in H as (cur & k8 & H8 & H). apply get_curr_prio_Some in H8 as (-> & _ & _).
  destruct (negb (mp =? cur)); [|injection H as _ <-; assumption].
  apply bind_Some in H as (e & k9 & H9 & H). eapply IH; [|exact H]. exact (change_priority_also owner mp Hmp _ _ _ HI7 H9).
Qed.

Lemma thread_update_priority_also fuel t p :
  0 <= p -> preserves (also Q) (_thread_update_priority fuel t p).
Proof.
  intros Hp. apply preserves_bind; [apply change_priority_also, Hp|intros; apply update_priority_loop_also].
Qed.

Lemma check_and_update_also t x : preserves (also Q) (_check_and_update_prio t x).
Proof.
  unfold _check_and_update_prio. apply preserves_bind.
  { apply also_reader. intros k a k' H. apply get_curr_prio_Some in H. apply H. }
  intros cur. apply preserves_if; [|apply preserves_ret].
  eapply triple_bind; [apply get_mutex_priority_also|]. intros p k r k' [HI Hp].
  apply preserves_bind; [apply change_priority_also, Hp|intros; apply preserves_ret|exact HI].
Qed.

Lemma get_prio_also t : preserves (also Q) (rt_sched_thread_get_curr_prio t).
Proof. apply also_reader. intros k a k' H. apply get_curr_prio_Some in H. apply H. Qed.

Lemma waiter_left_also fuel m t : preserves (also Q) (waiter_left fuel m t).
Proof.
  unfold waiter_left, get_mutex. apply preserves_bind; [apply get_obj_preserves|intros x].
  apply preserves_bind.
  { destruct (mx_owner x); [|apply preserves_ret].
    repeat (apply preserves_bind; [apply get_prio_also|intros]). apply preserves_ret. }
  intros need. apply preserves_bind; [apply mutex_update_priority_also|intros _].
  destruct (mx_owner x) as [owner|]; [|apply preserves_ret]. apply preserves_when.
  eapply triple_bind; [apply get_mutex_priority_also|]. intros p k r k' [HI Hp].
  apply preserves_bind; [apply get_prio_also|intros po|exact HI].
  apply preserves_when, thread_update_priority_also, Hp.
Qed.
End Stable.

Section Lasting.
Context (Q : kernel -> Prop) (L : lasting Q).
#[local] Abbreviation S := (ls_stable Q L).

Lemma spin_lock_also : preserves (also Q) rt_spin_lock.
Proof.
  unfold rt_spin_lock, rt_enter_critical.
  apply preserves_bind; [apply preserves_bind; [|intros; apply preserves_gets]|intros; apply preserves_ret].
  apply also_modify; [exact S|reflexivity..|apply nest_preserves].
Qed.

Lemma spin_unlock_also : preserves (also Q) rt_spin_unlock.
Proof.
  unfold rt_spin_unlock, rt_exit_critical, rt_thread_self.
  apply preserves_bind; [apply also_modify; [exact S|reflexivity..|apply nest_preserves]|intros _].
  apply preserves_bind; [apply preserves_gets|intros n]. apply preserves_if; [|apply preserves_ret].
  apply preserves_bind; [apply also_modify; [exact S|reflexivity..|]|intros _].
  { exact (nest_preserves _ (fun _ => 0)). }
  apply preserves_bind; [apply preserves_gets|intros c]. apply preserves_when, (ls_sched _ L).
Qed.

(** Taking a waiter off its list and waking it. *)
Lemma remove_ready_also t k u k' r k'' :
  also Q k -> (forall p, t ∉ k_lists k (LReady p)) ->
  rt_list_remove t k = Some (u, k') -> rt_sched_thread_ready t k' = Some (r, k'') -> also Q k''.
Proof.
  intros [I HQ] Hnr H1 H2. injection H1 as _ <-. fold (remove_lists t k) in H2.
  destruct (k_threads k !! t) as [th|] eqn:Ht.
  - eapply (ls_ready _ L t); [|exact H2]. split; [eapply remove_lists_inv; eauto|]. apply (st_remove _ S); assumption.
  - unfold rt_sched_thread_ready, rt_sched_thread_is_suspended, get_thread, mbind, st_bind in H2.
    change (k_threads (remove_lists t k)) with (k_threads k) in H2. rewrite Ht in H2. discriminate.
Qed.

Lemma release_next_also n m : preserves (also Q) (release_next n m).
Proof.
  induction n as [|n IH]; cbn [release_next]; [apply preserves_fail|].
  intros k o k' HI H. apply bind_Some in H as (t & k1 & H1 & H).
  assert (k1 = k) as ->.
  { unfold list_first in H1. erewrite bind_eq in H1 by reflexivity. unfold st_opt in H1.
    destruct (head _); [injection H1 as _ <-; reflexivity|discriminate]. }
  unfold rt_sched_thread_is_suspended in H. apply bind_Some in H as (su & k2 & H2 & H).
  inv_bind H2. apply get_thread_Some in Hs as [Ht ->]. injection H2 as <- <-.
  apply bind_Some in H as ([] & k3 & H3 & H). unfold rt_assert in H3.
  destruct (is_suspended a) eqn:Hs; [injection H3 as <-|discriminate].
  apply bind_Some in H as ([] & k4 & H4 & H). apply bind_Some in H as (r & k5 & H5 & H).
  assert (also Q k5) as HI5.
  { eapply (remove_ready_also t k); eauto. eapply suspended_not_ready; eauto. apply HI. }
  destruct (r =? RT_EOK); [injection H as _ <-; assumption|].
  apply bind_Some in H as (em & k6 & H6 & H). injection H6 as <- <-.
  destruct (bool_decide _); [injection H as _ <-; assumption|]. eapply IH; eauto.
Qed.

Lemma taken_remove_also m : preserves (also Q) (taken_remove m).
Proof. apply also_modify; [exact S|reflexivity..|preserve_same]. Qed.
Lemma taken_insert_also t m : preserves (also Q) (taken_insert_after t m).
Proof. apply also_modify; [exact S|reflexivity..|preserve_same]. Qed.

Lemma release_last_also m t : preserves (also Q) (release_last m t).
Proof.
  unfold release_last, get_mutex.
  apply preserves_bind; [apply taken_remove_also|intros _]. apply preserves_bind; [apply get_obj_preserves|intros x].
  apply preserves_bind; [apply check_and_update_also, S|intros need].
  apply preserves_bind; [apply preserves_gets|intros ws].
  assert (preserves (also Q) (upd_mutex m (fun x => x <| mx_owner := None |> <| mx_priority := 0xff |>))) as Hfree
    by (apply also_upd_mutex; [exact S|cbn; lia]).
  destruct ws as [|w ws]; [apply preserves_bind; [exact Hfree|intros; apply preserves_ret]|].
  apply preserves_bind; [apply release_next_also|intros [next|]].
  2: { apply preserves_bind; [exact Hfree|intros; apply preserves_ret]. }
  apply preserves_bind; [apply also_upd_mutex; [exact S|cbn; auto]|intros _].
  apply preserves_bind; [apply taken_insert_also|intros _].
  apply preserves_bind; [apply also_clear_pending, S|intros _].
  apply preserves_bind; [apply mutex_update_priority_also, S|intros _]. apply preserves_ret.
Qed.

Lemma error_also t e : preserves (also Q) (upd_thread t (fun th => th <| th_error := e |>)).
Proof. apply also_upd_thread; [exact S|]. intros th. repeat split. Qed.

Lemma if_still_running_also self c rest :
  preserves (also Q) rest -> preserves (also Q) (if_still_running self c rest).
Proof. apply if_still_running_preserves. Qed.

Lemma sched_ret_also again r : preserves (also Q) (sched_ret again r).
Proof.
  unfold sched_ret. apply preserves_bind; [apply preserves_when, (ls_sched _ L)|intros; apply preserves_ret].
Qed.

Lemma mutex_release_also m : preserves (also Q) (rt_mutex_release m).
Proof.
  unfold rt_mutex_release, check_mutex, get_mutex.
  apply preserves_bind; [apply preserves_bind; [apply get_obj_preserves|intros; preserve]|intros _].
  apply preserves_bind; [apply debug_thread_preserves|intros _].
  apply preserves_bind; [apply the_self_inv|intros t]. apply preserves_bind; [apply spin_lock_also|intros _].
  apply preserves_bind; [apply get_obj_preserves|intros x]. apply preserves_if.
  - apply preserves_bind; [apply error_also|intros _].
    apply preserves_bind; [apply spin_unlock_also|intros; apply preserves_ret].
  - apply preserves_bind; [apply also_upd_mutex; [exact S|cbn; auto]|intros _].
    apply preserves_bind; [apply get_obj_preserves|intros x'].
    apply preserves_bind; [apply preserves_if; [apply release_last_also|apply preserves_ret]|intros need].
    apply preserves_bind; [apply spin_unlock_also|intros _]. apply if_still_running_also, sched_ret_also.
Qed.

(** [rt_mutex_drop_thread] of a thread that is in no ready queue. *)
Lemma mutex_drop_also fuel m t :
  triple (fun k => also Q k /\ forall p, t ∉ k_lists k (LReady p))
    (rt_mutex_drop_thread fuel m t) (fun _ => also Q).
Proof.
  intros k u k' [HI Hnr] H. unfold rt_mutex_drop_thread in H.
  apply bind_Some in H as ([] & k1 & H1 & H). apply (debug_thread_preserves (fun x => x = k)) in H1 as ->; [|reflexivity].
  apply bind_Some in H as ([] & k2 & H2 & H). pose proof (spin_lock_also _ _ _ HI H2) as HI2.
  assert (k_lists k2 = k_lists k) as Hl2.
  { unfold rt_spin_lock, rt_enter_critical in H2. apply bind_Some in H2 as (n & k3 & H3 & H2). injection H2 as <-.
    apply bind_Some in H3 as ([] & k4 & H4 & H3). injection H3 as _ <-. injection H4 as <-. reflexivity. }
  apply bind_Some in H as (th & k3 & H3 & H). apply get_thread_Some in H3 as [Ht ->].
  apply bind_Some in H as ([] & k4 & H4 & H). unfold rt_assert in H4.
  destruct (bool_decide _); [injection H4 as <-|discriminate].
  apply bind_Some in H as ([] & k5 & H5 & H). injection H5 as <-. fold (remove_lists t k2) in H.
  assert (also Q (remove_lists t k2)) as HI5.
  { destruct HI2 as [I2 Q2]. split; [eapply remove_lists_inv; eauto; rewrite Hl2; assumption|].
    apply (st_remove _ S); [assumption..|rewrite Hl2; assumption]. }
  apply bind_Some in H as ([] & k6 & H6 & H). eapply spin_unlock_also; [|exact H].
  eapply waiter_left_also; [exact S|exact HI5|exact H6].
Qed.
End Lasting.

(** ** Timer flags *)

Ltac mutex_idle :=
  unfold check_mutex, get_mutex, upd_mutex, rt_list_isempty, rt_thread_self, rt_list_remove, taken_remove,
    taken_insert_after, rt_sched_thread_is_suspended; preserve.

Section Idle.
Context (X : Z -> Prop) (fuel : nat).
Abbreviation idle_op m := (preserves (quiet X) m).

Lemma first_waiter_idle m : idle_op (first_waiter_prio m).
Proof. unfold first_waiter_prio. mutex_idle. Qed.
#[local] Hint Resolve first_waiter_idle : rt_pres.
Lemma mutex_update_priority_idle m : idle_op (_mutex_update_priority m).
Proof. unfold _mutex_update_priority. mutex_idle. Qed.
#[local] Hint Resolve mutex_update_priority_idle : rt_pres.
Lemma taken_priority_idle ms p : idle_op (taken_priority ms p).
Proof. revert p. induction ms; intros p; cbn [taken_priority]; mutex_idle. Qed.
#[local] Hint Resolve taken_priority_idle : rt_pres.
Lemma get_mutex_priority_idle t : idle_op (_thread_get_mutex_priority t).
Proof. unfold _thread_get_mutex_priority. mutex_idle. Qed.
#[local] Hint Resolve get_mutex_priority_idle : rt_pres.
Lemma update_priority_loop_idle n t : idle_op (update_priority_loop n t).
Proof. revert t. induction n; intros t; cbn [update_priority_loop]; mutex_idle. Qed.
#[local] Hint Resolve update_priority_loop_idle : rt_pres.
Lemma thread_update_priority_idle t p : idle_op (_thread_update_priority fuel t p).
Proof. unfold _thread_update_priority. mutex_idle. Qed.
#[local] Hint Resolve thread_update_priority_idle : rt_pres.
Lemma check_and_update_idle t x : idle_op (_check_and_update_prio t x).
Proof. unfold _check_and_update_prio. mutex_idle. Qed.
#[local] Hint Resolve check_and_update_idle : rt_pres.
Lemma waiter_left_idle m t : idle_op (waiter_left fuel m t).
Proof. unfold waiter_left. mutex_idle. Qed.
#[local] Hint Resolve waiter_left_idle : rt_pres.
Lemma mutex_drop_idle m t : idle_op (rt_mutex_drop_thread fuel m t).
Proof. unfold rt_mutex_drop_thread. mutex_idle. Qed.
Lemma mutex_init_idle m : idle_op (rt_mutex_init m).
Proof. unfold rt_mutex_init. mutex_idle. Qed.
Lemma mutex_create_idle mem : idle_op (rt_mutex_create mem).
Proof. unfold rt_mutex_create. mutex_idle. Qed.
Lemma mutex_detach_resume_idle m del : idle_op (rt_mutex_detach_resume m del).
Proof. unfold rt_mutex_detach_resume, mutex_object_gone. mutex_idle. Qed.
#[local] Hint Resolve mutex_detach_resume_idle : rt_pres.
Lemma before_delete_idle m : idle_op (_mutex_before_delete_detach m).
Proof. unfold _mutex_before_delete_detach. mutex_idle. Qed.
#[local] Hint Resolve before_delete_idle : rt_pres.
Lemma mutex_detach_idle m : idle_op (rt_mutex_detach m).
Proof. unfold rt_mutex_detach, unlock_then_gone. mutex_idle. Qed.
Lemma mutex_delete_idle m : idle_op (rt_mutex_delete m).
Proof. unfold rt_mutex_delete, unlock_then_gone. mutex_idle. Qed.
Lemma set_ceiling_idle m priority : idle_op (rt_mutex_setprioceiling fuel m priority).
Proof. unfold rt_mutex_setprioceiling. mutex_idle. Qed.
Lemma get_ceiling_idle m : idle_op (rt_mutex_getprioceiling m).
Proof. unfold rt_mutex_getprioceiling. mutex_idle. Qed.
Lemma mutex_take_idle m timeout f : idle_op (_rt_mutex_take fuel m timeout f).
Proof. unfold _rt_mutex_take. mutex_idle. Qed.
Lemma mutex_take_failed_idle ret : idle_op (_rt_mutex_take_failed ret).
Proof. unfold _rt_mutex_take_failed. mutex_idle. Qed.
#[local] Hint Resolve mutex_take_failed_idle : rt_pres.
Lemma mutex_take_resume2_idle m : idle_op (_rt_mutex_take_resume2 fuel m).
Proof. unfold _rt_mutex_take_resume2. mutex_idle. Qed.
#[local] Hint Resolve mutex_take_resume2_idle : rt_pres.
Lemma mutex_take_resume_idle m : idle_op (_rt_mutex_take_resume fuel m).
Proof. unfold _rt_mutex_take_resume. mutex_idle. Qed.
Lemma release_next_idle n m : idle_op (release_next n m).
Proof. induction n; cbn [release_next]; mutex_idle. Qed.
#[local] Hint Resolve release_next_idle : rt_pres.
Lemma release_last_idle m t : idle_op (release_last m t).
Proof. unfold release_last. mutex_idle. Qed.
#[local] Hint Resolve release_last_idle : rt_pres.
Lemma mutex_release_idle m : idle_op (rt_mutex_release m).
Proof. unfold rt_mutex_release. mutex_idle. Qed.
End Idle.
#[export] Hint Resolve thread_update_priority_idle get_mutex_priority_idle waiter_left_idle mutex_drop_idle
  mutex_init_idle mutex_create_idle mutex_detach_resume_idle before_delete_idle mutex_detach_idle
  mutex_delete_idle set_ceiling_idle get_ceiling_idle mutex_take_idle mutex_take_failed_idle
  mutex_take_resume2_idle mutex_take_resume_idle mutex_release_idle : rt_pres.

(** ** The operations keep [kinv] *)

Lemma inv_of_also {A} (m : K A) : preserves (also (fun _ => True)) m -> preserves inv m.
Proof. intros H k a k' I E. apply (H k a k' (conj I Logic.I) E). Qed.

Lemma table_mutex_preserves g :
  (forall ms, (forall m x, ms !! m = Some x -> 0 <= mx_priority x /\ 0 <= mx_ceiling x) ->
     forall m x, g ms !! m = Some x -> 0 <= mx_priority x /\ 0 <= mx_ceiling x) ->
  preserves inv (st_modify (set_field k_mutexes g)).
Proof.
  intros Hg. apply preserves_modify. intros k I. eapply inv_same; [exact I|reflexivity..|].
  exact (Hg _ (i_mutex _ _ I)).
Qed.

Lemma mutex_insert_preserves m x :
  0 <= mx_priority x -> 0 <= mx_ceiling x -> preserves inv (st_modify (set_field k_mutexes (insert m x))).
Proof.
  intros H1 H2. apply table_mutex_preserves. intros ms H i y. destruct (decide (i = m)) as [->|Hi].
  - rewrite lookup_insert_eq. intros [= <-]. auto.
  - rewrite lookup_insert_ne by congruence. apply H.
Qed.

Lemma mutex_delete_table m : preserves inv (st_modify (set_field k_mutexes (delete m))).
Proof.
  apply table_mutex_preserves. intros ms H i y Hd. apply lookup_delete_Some in Hd as [_ Hd]. eauto.
Qed.

Lemma mutex_obj_init valid m static : preserves inv (obj_init k_mutexes valid m (fresh_mutex static)).
Proof.
  unfold obj_init. apply preserves_bind; [apply preserves_gets|intros].
  apply preserves_bind; [apply preserves_assert|intros]. apply mutex_insert_preserves; cbn; lia.
Qed.

#[export] Hint Resolve mutex_obj_init mutex_delete_table : rt_pres.
#[export] Hint Extern 1 (preserves inv (upd_obj k_mutexes _ _)) =>
  apply upd_mutex_preserves; cbn; lia : rt_pres.
#[export] Hint Extern 1 (preserves inv (upd_mutex _ _)) =>
  apply upd_mutex_preserves; cbn; lia : rt_pres.
#[export] Hint Extern 1 (preserves inv (obj_delete k_mutexes _)) => apply mutex_delete_table : rt_pres.

Lemma check_and_update_preserves t x : preserves inv (_check_and_update_prio t x).
Proof. apply inv_of_also, check_and_update_also, true_stable. Qed.
Lemma waiter_left_preserves fuel m t : preserves inv (waiter_left fuel m t).
Proof. apply inv_of_also, waiter_left_also, true_stable. Qed.
#[export] Hint Resolve check_and_update_preserves waiter_left_preserves : rt_pres.

Lemma taken_remove_preserves m : preserves inv (taken_remove m).
Proof. unfold taken_remove. preserve_same. Qed.
Lemma taken_insert_preserves t m : preserves inv (taken_insert_after t m).
Proof. unfold taken_insert_after. preserve_same. Qed.
Lemma get_prio_preserves I t : preserves I (rt_sched_thread_get_curr_prio t).
Proof. intros k p k' HI H. apply get_curr_prio_Some in H as (-> & _). exact HI. Qed.
#[export] Hint Resolve taken_remove_preserves taken_insert_preserves get_prio_preserves : rt_pres.

Lemma mutex_init_preserves m : preserves kinv (rt_mutex_init m).
Proof. unfold rt_mutex_init. ipc_kinv. Qed.
Lemma mutex_create_preserves mem : preserves kinv (rt_mutex_create mem).
Proof. unfold rt_mutex_create. ipc_kinv. Qed.
Lemma mutex_detach_resume_preserves m del : preserves kinv (rt_mutex_detach_resume m del).
Proof.
  apply kinv_and; [|apply mutex_detach_resume_idle].
  unfold rt_mutex_detach_resume, mutex_object_gone. preserve.
Qed.
#[export] Hint Resolve mutex_detach_resume_preserves : rt_pres.

Lemma unlock_then_gone_preserves m del : preserves kinv (unlock_then_gone m del).
Proof.
  unfold unlock_then_gone, rt_thread_self. apply preserves_bind; [preserve|intros self].
  apply preserves_bind; [|intros; preserve].
  apply kinv_and; [|apply before_delete_idle]. unfold _mutex_before_delete_detach, get_mutex. preserve.
Qed.
#[export] Hint Resolve unlock_then_gone_preserves : rt_pres.
Lemma mutex_detach_preserves m : preserves kinv (rt_mutex_detach m).
Proof. unfold rt_mutex_detach, check_mutex, get_mutex. preserve. Qed.
Lemma mutex_delete_preserves m : preserves kinv (rt_mutex_delete m).
Proof. unfold rt_mutex_delete, check_mutex, get_mutex. preserve. Qed.

(** A computed priority is handed on. *)
Lemma with_mutex_priority {A} t (f : Z -> K A) :
  (forall p, 0 <= p -> preserves inv (f p)) ->
  preserves inv (p ← _thread_get_mutex_priority t; f p).
Proof.
  intros Hf k a k' I H. apply bind_Some in H as (p & k1 & H1 & H).
  destruct (get_mutex_priority_spec _ _ _ _ I H1) as [-> Hp]. eapply Hf; eauto.
Qed.

Lemma thread_update_priority_preserves fuel t p : 0 <= p -> preserves inv (_thread_update_priority fuel t p).
Proof. intros Hp. apply inv_of_also, thread_update_priority_also; [apply true_stable|exact Hp]. Qed.

Lemma set_ceiling_preserves fuel m priority : 0 <= priority -> preserves kinv (rt_mutex_setprioceiling fuel m priority).
Proof.
  intros Hp. apply kinv_and; [|apply set_ceiling_idle]. unfold rt_mutex_setprioceiling, get_mutex.
  apply preserves_bind; [preserve|intros _]. destruct m as [m|]; [|preserve].
  apply preserves_if; [|preserve]. apply preserves_bind; [preserve|intros _].
  apply preserves_bind; [preserve|intros x]. apply preserves_bind; [apply upd_mutex_preserves; cbn; lia|intros _].
  apply preserves_bind; [|intros; preserve]. destruct (mx_owner x) as [owner|]; [|preserve].
  apply with_mutex_priority. intros p Hp'. apply preserves_bind; [preserve|intros cur].
  apply preserves_when, thread_update_priority_preserves, Hp'.
Qed.

Lemma get_ceiling_preserves m : preserves kinv (rt_mutex_getprioceiling m).
Proof. apply kinv_and; [|apply get_ceiling_idle]. unfold rt_mutex_getprioceiling, get_mutex. preserve. Qed.

Lemma mutex_release_preserves m : preserves kinv (rt_mutex_release m).
Proof. apply kinv_and; [|apply mutex_release_idle]. apply inv_of_also, mutex_release_also, true_lasting. Qed.

(** ** Take *)

(** The owner is given the priority of the thread that begins to wait. *)
Lemma raise_owner_waits fuel m owner t p (b : bool) :
  0 <= p ->
  preserves (kinv_waits t)
    (when b (upd_mutex m (fun x => x <| mx_priority := p |>);;
             po ← rt_sched_thread_get_curr_prio owner;
             when (p <? po) (_thread_update_priority fuel owner p))).
Proof.
  intros Hp k u k' [[I N] W] H.
  assert (also (waits t) k') as [I' W'].
  2: { split; [split; [assumption|]|assumption]. revert N H. apply preserves_when. mutex_idle. }
  revert H. apply preserves_when; [|split; assumption].
  apply preserves_bind; [apply also_upd_mutex; [apply waits_stable|cbn; lia]|intros _].
  apply preserves_bind; [apply get_prio_preserves|intros po].
  apply preserves_when, thread_update_priority_also; [apply waits_stable|exact Hp].
Qed.

Lemma mutex_take_wait fuel m t owner (x : mutex) timeout f :
  preserves kinv
   (ret ← rt_thread_suspend_to_list t (Some (LMutex m)) (ob_flag (mx_ob x)) f;
    if negb (ret =? RT_EOK) then rt_spin_unlock;; mret (Done ret []) else
    upd_thread t (fun th => th <| th_pending := Some m |>);;
    priority ← rt_sched_thread_get_curr_prio t;
    when (priority <? mx_priority x)
      (upd_mutex m (fun x => x <| mx_priority := priority |>);;
       po ← rt_sched_thread_get_curr_prio owner;
       when (priority <? po) (_thread_update_priority fuel owner priority));;
    when (0 <? timeout) (start_thread_timer t timeout);;
    rt_spin_unlock;;
    mret (Waiting (PcMutexTake m))).
Proof.
  intros k a k' [I N] H. apply bind_Some in H as (r & k1 & H1 & H).
  pose proof (suspend_to_list_idle _ _ _ _ _ _ _ _ N H1) as N1.
  assert (forall l, Some (LMutex m) = Some l -> susp_list l = true) as Ho by (intros l [= <-]; reflexivity).
  destruct (suspend_spec _ _ _ _ _ _ _ I Ho H1)
    as (_ & I1 & [[-> (th & _ & S)]|(Hr & -> & _)]).
  2: { destruct (r =? RT_EOK) eqn:E; bool_to_prop; [contradiction|]. cbn [negb] in H.
       assert (preserves kinv (rt_spin_unlock;; mret (Done r []))) as Hp by preserve.
       exact (Hp _ _ _ (conj I N) H). }
  change (RT_EOK =? RT_EOK) with true in H. cbn [negb] in H. cbv iota in H.
  pose proof (suspended_listed _ _ (LMutex m) _ _ _ eq_refl S) as Hin.
  apply bind_Some in H as ([] & k2 & H2 & H).
  pose proof (set_pending_inv _ _ (LMutex m) _ _ _ I1 eq_refl Hin H2) as I2.
  assert (quiet (fun _ => False) k2) as N2.
  { revert N1 H2. apply upd_thread_idle. intros; assumption. }
  assert (waits t k2) as W2.
  { revert H2. apply waits_upd; [reflexivity|]. eapply suspended_waits; eauto. }
  apply bind_Some in H as (p & k3 & H3 & H). apply get_curr_prio_Some in H3 as (-> & -> & _).
  apply bind_Some in H as ([] & k4 & H4 & H).
  assert (kinv_waits t k4) as W4.
  { revert H4. apply raise_owner_waits; [apply prio_of_range; assumption|]. split; [split|]; assumption. }
  revert H. apply arm_then; [|exact W4]. preserve.
Qed.

(** A mutex that was read has priorities of 8 bits. *)
Lemma get_mutex_then {A} m (f : mutex -> K A) :
  (forall x, 0 <= mx_priority x -> 0 <= mx_ceiling x -> preserves kinv (f x)) ->
  preserves kinv (x ← get_obj k_mutexes m; f x).
Proof.
  intros Hf k a k' HK H. apply bind_Some in H as (x & k1 & H1 & H). unfold get_obj in H1.
  destruct (k_mutexes k !! m) as [y|] eqn:Hm; [|discriminate]. injection H1 as <- <-.
  destruct (i_mutex _ _ (proj1 HK) _ _ Hm). eapply Hf; eauto.
Qed.

Lemma mutex_take_preserves fuel m timeout f : preserves kinv (_rt_mutex_take fuel m timeout f).
Proof.
  unfold _rt_mutex_take, check_mutex, get_mutex.
  apply preserves_bind; [preserve|intros _]. apply preserves_bind; [preserve|intros _].
  apply preserves_bind; [preserve|intros t]. apply preserves_bind; [preserve|intros _].
  apply preserves_bind; [preserve|intros _]. apply get_mutex_then. intros x Hx1 Hx2.
  destruct (mx_owner x) as [owner|].
  - apply preserves_if; [apply kinv_and; [preserve|mutex_idle]|].
    apply preserves_if; [preserve|]. apply mutex_take_wait.
  - apply kinv_and; [|mutex_idle].
    apply preserves_bind; [apply upd_mutex_preserves; cbn; lia|intros _].
    apply preserves_bind; [|intros; preserve]. apply preserves_when.
    apply preserves_bind; [preserve|intros cur].
    apply preserves_when, thread_update_priority_preserves, Hx2.
Qed.

Lemma mutex_take_failed_preserves ret : preserves kinv (_rt_mutex_take_failed ret).
Proof.
  apply kinv_and; [|apply mutex_take_failed_idle]. unfold _rt_mutex_take_failed.
  apply preserves_bind; [preserve|intros t]. apply preserves_bind; [apply clear_pending_preserves|intros _]. preserve.
Qed.
#[export] Hint Resolve mutex_take_failed_preserves : rt_pres.

Lemma mutex_take_resume2_preserves fuel m : preserves kinv (_rt_mutex_take_resume2 fuel m).
Proof. unfold _rt_mutex_take_resume2, get_mutex. preserve. Qed.
#[export] Hint Resolve mutex_take_resume2_preserves : rt_pres.
Lemma mutex_take_resume_preserves fuel m : preserves kinv (_rt_mutex_take_resume fuel m).
Proof. unfold _rt_mutex_take_resume. preserve. Qed.
