(* ===== verification/ExitOps.v ===== *)
(** * Timeouts and the end of threads keep the invariant *)

From S2P Require Import Prelude Bitmap Kernel Timer Sched IpcList Thread Sem Mutex ThreadExit.
From S2P Require Import KernelInv TimerInv SchedInv ThreadInv TimerIdle ThreadOps IpcOps MutexOps.
Open Scope rt_scope.

(** ** _thread_timeout *)

(** A waiting thread whose timer just expired: its timer is out of the timer
    list. *)
Record expired (t : Z) (k : kernel) : Prop := {
  ex_inv : inv_ex (fun x => x = t) k;
  ex_timer : TThread t ∉ k_timer_list k;
  ex_thread : exists th, k_threads k !! t = Some th /\ is_suspended th = true /\
    th_valid th = true /\ tm_valid (th_timer th) = true;
  ex_ready : forall p, t ∉ k_lists k (LReady p);
}.

(** The state before [_thread_timeout] looks for another thread to run. *)
Definition timeout_state (t : Z) (th : thread) (k : kernel) : kernel :=
  insert_state t (th <| th_error := - RT_ETIMEOUT |>)
    (remove_lists t (k <| k_threads ::= insert t (th <| th_error := - RT_ETIMEOUT |>) |>)).

Lemma thread_timeout_eq t th k :
  k_threads k !! t = Some th -> is_suspended th = true -> th_valid th = true ->
  _thread_timeout t k = rt_sched_unlock_n_resched (timeout_state t th k).
Proof.
  intros Ht Hs Hv. unfold _thread_timeout, rt_sched_thread_is_suspended.
  erewrite bind_eq by (apply get_thread_eq; exact Ht). erewrite bind_eq by (apply assert_eq; exact Hv).
  erewrite bind_eq by (erewrite bind_eq by (apply get_thread_eq; exact Ht); reflexivity).
  erewrite bind_eq by (apply assert_eq; exact Hs).
  erewrite bind_eq by (apply upd_thread_eq; exact Ht).
  erewrite bind_eq by reflexivity. cbv beta.
  erewrite bind_eq; [reflexivity|]. apply insert_thread_eq. apply lookup_insert_eq.
Qed.

Lemma timeout_state_inv t th k :
  expired t k -> k_threads k !! t = Some th -> inv (timeout_state t th k).
Proof.
  intros [I Htl (th0 & Ht0 & Hs & Hv & Htv) Hnr] Ht. rewrite Ht in Ht0. injection Ht0 as <-.
  set (th1 := th <| th_error := - RT_ETIMEOUT |>).
  set (k1 := k <| k_threads ::= insert t th1 |>).
  assert (inv_ex (fun x => x = t) k1) as I1.
  { eapply inv_set_thread; [exact I|tauto| |tauto]. eapply thread_wf_same; [apply (error_same_sched (- RT_ETIMEOUT))|].
    apply (i_threads _ _ I _ _ Ht). }
  assert (k_threads k1 !! t = Some th1) as Ht1 by apply lookup_insert_eq.
  pose proof (list_remove_inv _ t th1 k1 I1 Ht1 Hnr) as I2.
  eapply (insert_inv _ _ t th1 (remove_lists t k1)); [exact I2|exact Ht1| |exact Hv|exact Htv| |exact Htl|].
  - intros l. apply notin_filter_ne.
  - eapply (mask_started _ _ _ th1); [apply (i_threads _ _ I1 _ _ Ht1)|exact Hs].
  - intros x [H|H]; auto.
Qed.

Lemma thread_timeout_spec t : triple (expired t) (_thread_timeout t) (fun _ => inv).
Proof.
  intros k u k' E H. destruct (ex_thread _ _ E) as (th & Ht & Hs & Hv & _).
  rewrite (thread_timeout_eq t th k Ht Hs Hv) in H. eapply unlock_n_resched_preserves; [|exact H].
  apply timeout_state_inv; assumption.
Qed.

(** ** Closing a thread *)

(** Removal from the ready queues and the timer list, then CLOSE. *)
Definition close_thread (t : Z) (started : bool) : K unit :=
  when started (rt_sched_remove_thread t);;
  rt_timer_detach (TThread t);;
  rt_sched_thread_close t.

Lemma timer_detach_eq t th k :
  k_threads k !! t = Some th -> tm_valid (th_timer th) = true -> tm_static (th_timer th) = true ->
  rt_timer_detach (TThread t) k = Some (RT_EOK,
    (timer_off_state t th k) <| k_threads ::= insert t
      ((deactivated th) <| th_timer ::= (fun tm => tm <| tm_valid := false |> <| tm_static := false |>) |>) |>).
Proof.
  intros Ht Hv Hst. unfold rt_timer_detach. erewrite bind_eq by (apply get_timer_eq; exact Ht).
  erewrite bind_eq by (apply assert_eq; exact Hv). erewrite bind_eq by (apply assert_eq; exact Hst). rewrite timer_off_fold.
  erewrite bind_eq by (apply timer_off_eq; exact Ht).
  erewrite bind_eq by (apply upd_timer_eq, lookup_insert_eq). reflexivity.
Qed.

(** A thread that is in no list any more becomes CLOSE. *)
Lemma detach_close_inv t th k u k' :
  inv_ex (fun x => x = t) k -> k_threads k !! t = Some th -> th_valid th = true -> off_lists t k ->
  (rt_timer_detach (TThread t);; rt_sched_thread_close t) k = Some (u, k') ->
  inv k' /\ closed t k' /\ k_current k' = k_current k.
Proof.
  intros I Ht Hv Hoff H. apply bind_Some in H as (r & k1 & H1 & H).
  assert (tm_valid (th_timer th) = true /\ tm_static (th_timer th) = true) as [Htv Htst].
  { unfold rt_timer_detach in H1. erewrite bind_eq in H1 by (apply get_timer_eq; exact Ht).
    apply bind_Some in H1 as ([] & k2 & H2 & H1). unfold rt_assert in H2. destruct (tm_valid _); [|discriminate]. injection H2 as <-.
    apply bind_Some in H1 as ([] & k3 & H3 & _). unfold rt_assert in H3. destruct (tm_static _); [auto|discriminate]. }
  rewrite (timer_detach_eq t th k Ht Htv Htst) in H1. injection H1 as <- <-.
  pose proof (timer_off_inv _ t th k I Ht) as I1.
  set (k2 := timer_off_state t th k) in *.
  set (th2 := (deactivated th) <| th_timer ::= (fun tm => tm <| tm_valid := false |> <| tm_static := false |>) |>) in *.
  assert (k_threads k2 !! t = Some (deactivated th)) as Ht2 by apply lookup_insert_eq.
  assert (TThread t ∉ k_timer_list k2) as Htl by apply notin_filter_ne.
  set (k3 := k2 <| k_threads ::= insert t th2 |>) in *.
  assert (k_threads k3 !! t = Some th2) as Ht3 by apply lookup_insert_eq.
  pose proof (i_threads _ _ I1 _ _ Ht2) as W2.
  assert (inv_ex (fun x => x = t) k3) as I3.
  { eapply inv_set_thread; [exact I1|cbn; tauto| |tauto]. destruct W2. split; try assumption.
    - intros H'. contradiction.
    - discriminate. }
  unfold rt_sched_thread_close, set_stat in H. rewrite (upd_thread_eq _ _ _ _ Ht3) in H. injection H as _ <-.
  set (th4 := th2 <| th_stat ::= (fun _ => RT_THREAD_CLOSE) |>).
  assert (stat_of th4 = RT_THREAD_CLOSE) as Hst by reflexivity.
  split; [|split; [|reflexivity]].
  - eapply inv_set_thread; [exact I3|tauto| |intros _].
    + destruct (i_threads _ _ I3 _ _ Ht3). split; try assumption.
      destruct tw_mask as [[Hm _]|Hm]; [left; split; [exact Hm|right; exact Hst]|right; exact Hm].
    + apply stat_ok_off; rewrite ?Hst; try discriminate.
      * exact Hoff.
      * exact Htl.
      * intros []. reflexivity.
      * intros _. split; [discriminate|]. discriminate.
      * reflexivity.
  - exists th4. split; [apply lookup_insert_eq|]. split; [reflexivity|]. split; [exact Hv|exact Hoff].
Qed.

Lemma init_off k t th :
  inv k -> k_threads k !! t = Some th -> stat_of th = RT_THREAD_INIT -> off_lists t k.
Proof.
  intros I Ht Hst l Hl. pose proof (inv_stat _ _ _ I Ht) as SO.
  destruct (susp_list l) eqn:Hsl.
  - apply (so_waiting _ _ _ _ _ SO) in Hl as [Hl _]; [|assumption]. rewrite is_suspended_stat, Hst in Hl. discriminate.
  - destruct l; try discriminate.
    + assert (stat_of th = RT_THREAD_READY) as Hr by (apply (so_ready _ _ _ _ _ SO); eauto).
      rewrite Hst in Hr. discriminate.
    + apply (so_defunct _ _ _ _ _ SO) in Hl. rewrite Hst in Hl. discriminate.
Qed.

Lemma close_thread_spec t th (started : bool) k u k' :
  inv k -> k_threads k !! t = Some th -> th_valid th = true ->
  (started = false -> stat_of th = RT_THREAD_INIT) ->
  close_thread t started k = Some (u, k') -> inv k' /\ closed t k' /\ k_current k' = k_current k.
Proof.
  intros I Ht Hv Hst H. unfold close_thread in H. apply bind_Some in H as ([] & k1 & H1 & H).
  destruct started; cbn [when] in H1.
  - destruct (remove_thread_spec _ _ _ _ _ I H1) as (I1 & Hoff & Hlo & _ & _).
    assert (k_threads k1 !! t = Some th) as Ht1 by (rewrite (lo_threads _ _ Hlo); assumption).
    rewrite <- (lo_current _ _ Hlo).
    eapply detach_close_inv; [|exact Ht1|exact Hv|exact Hoff|exact H].
    eapply inv_weaken; [exact I1|cbn; tauto].
  - injection H1 as <-. eapply detach_close_inv; [|exact Ht|exact Hv| |exact H].
    + eapply inv_weaken; [exact I|cbn; tauto].
    + eapply init_off; eauto.
Qed.

(** A closed thread waits for the idle thread. *)
Lemma defunct_enqueue_inv t k u k' :
  inv k -> closed t k -> rt_thread_defunct_enqueue t k = Some (u, k') -> inv k'.
Proof.
  intros I (th & Ht & Hst & Hv & Hoff) H. injection H as _ <-.
  assert (forall l x, x ∈ (<[LDefunct := t :: k_lists k LDefunct]> (k_lists k)) l <->
            x ∈ k_lists k l \/ x = t /\ l = LDefunct) as Hel.
  { intros l x. destruct (decide (l = LDefunct)) as [->|Hne].
    - rewrite fn_lookup_insert, elem_of_cons. tauto.
    - rewrite fn_lookup_insert_ne by congruence. tauto. }
  eapply inv_close with (t := t) (E := fun x => x = t \/ False); [|cbn; tauto|].
  - apply (inv_move _ t th k); try assumption; cbv [set_field]; cbn.
    + split; reflexivity.
    + intros l x Hx. rewrite Hel. tauto.
    + intros l. destruct (decide (l = LDefunct)) as [->|Hne].
      * rewrite fn_lookup_insert. apply NoDup_cons. split; [apply Hoff|apply I].
      * rewrite fn_lookup_insert_ne by congruence. apply I.
    + intros l1 l2 H1 H2. apply Hel in H1 as [H1|[_ ->]]; [destruct (Hoff _ H1)|].
      apply Hel in H2 as [H2|[_ ->]]; [destruct (Hoff _ H2)|reflexivity].
    + apply I.
    + intros p Hp. rewrite fn_lookup_insert_ne by discriminate. apply (i_bits _ _ I _ Hp).
    + intros l _. exact Hv.
    + intros p H. apply Hel in H as [H|[_ H]]; [destruct (Hoff _ H)|discriminate].
  - intros th' Ht'. change (k_threads k !! t = Some th') in Ht'. rewrite Ht in Ht'. injection Ht' as <-.
    destruct (inv_stat _ _ _ I Ht). split; try assumption;
      cbv [set_field]; cbn [k_lists k_timer_list k_current].
    + intros l Hl Hin. apply Hel in Hin as [Hin|[_ ->]]; [exact (so_waiting l Hl Hin)|discriminate].
    + intros _. exact Hst.
Qed.

(** ** Exit, detach, delete *)

Lemma thread_exit_idle X : preserves (quiet X) _thread_exit.
Proof. unfold _thread_exit, rt_thread_defunct_enqueue, rt_list_insert_after. preserve. Qed.

Lemma thread_exit_preserves : preserves kinv _thread_exit.
Proof.
  apply kinv_and; [|apply thread_exit_idle]. intros k o k' I H. unfold _thread_exit in H.
  apply bind_Some in H as (t & k1 & H1 & H).
  assert (k1 = k /\ k_current k = Some t) as [-> Hc].
  { unfold the_self in H1. erewrite bind_eq in H1 by reflexivity. unfold st_opt in H1.
    destruct (k_current k); [injection H1 as -> ->; auto|discriminate]. }
  apply bind_Some in H as (n & k2 & H2 & H). pose proof (enter_critical_preserves _ _ _ _ I H2) as I2.
  assert (k_current k2 = k_current k) as Hc2.
  { unfold rt_enter_critical in H2. apply bind_Some in H2 as ([] & k3 & H3 & H2). injection H3 as <-.
    injection H2 as _ <-. reflexivity. }
  apply bind_Some in H as ([] & k3 & H3 & H). apply bind_Some in H as (r & k4 & H4 & H).
  apply bind_Some in H as ([] & k5 & H5 & H).
  destruct (i_cur _ _ I2 t) as [th Ht]; [congruence|].
  assert (close_thread t true k2 = Some (tt, k5)) as Hcl.
  { unfold close_thread. erewrite bind_eq by exact H3. erewrite bind_eq by exact H4. exact H5. }
  assert (th_valid th = true) as Hv.
  { destruct (Z.eq_dec (stat_of th) RT_THREAD_CLOSE) as [Hst|Hst]; [exfalso|].
    - pose proof (so_tvalid _ _ _ _ _ (inv_stat _ _ _ I2 Ht)) as Htv. rewrite Hst in Htv.
      destruct (remove_thread_spec _ _ _ _ _ I2 H3) as (_ & _ & Hlo & _).
      assert (k_threads k3 !! t = Some th) as Ht3 by (rewrite (lo_threads _ _ Hlo); assumption).
      unfold rt_timer_detach in H4. erewrite bind_eq in H4 by (apply get_timer_eq; exact Ht3).
      rewrite Htv in H4. discriminate.
    - apply (so_valid _ _ _ _ _ (inv_stat _ _ _ I2 Ht) Hst). }
  destruct (close_thread_spec t th true _ _ _ I2 Ht Hv ltac:(discriminate) Hcl) as (I5 & C5 & _).
  apply bind_Some in H as ([] & k6 & H6 & H). pose proof (defunct_enqueue_inv _ _ _ _ I5 C5 H6) as I6.
  apply bind_Some in H as ([] & k7 & H7 & H). pose proof (exit_critical_safe_preserves _ _ _ _ I6 H7) as I7.
  eapply (if_still_running_preserves inv); [|exact I7|exact H]. preserve.
Qed.

Section Fuel.
Context (fuel : nat).

Lemma release_all_also Q : lasting Q -> forall ms, preserves (also Q) (release_all ms).
Proof.
  intros L ms. induction ms as [|m ms IH]; cbn [release_all]; [apply preserves_ret|].
  apply preserves_bind; [apply mutex_release_also, L|intros; exact IH].
Qed.

Lemma detach_from_mutex_also t : preserves (also (closed t)) (_thread_detach_from_mutex fuel t).
Proof.
  unfold _thread_detach_from_mutex. apply preserves_bind; [apply get_thread_preserves|intros th].
  apply preserves_bind; [|intros _; apply preserves_bind;
    [apply preserves_gets|intros; apply release_all_also, closed_lasting]].
  destruct (th_pending th) as [pm|]; [|apply preserves_ret].
  apply preserves_bind; [apply get_obj_preserves|intros px]. apply preserves_when.
  apply preserves_bind; [|intros _; apply also_clear_pending, closed_stable].
  intros k u k' HI H. eapply mutex_drop_also; [apply closed_lasting| |exact H].
  split; [exact HI|]. intros p. apply (closed_not_ready t k (proj1 HI) (proj2 HI)).
Qed.

Lemma release_all_idle X ms : preserves (quiet X) (release_all ms).
Proof. induction ms; cbn [release_all]; preserve. Qed.

Lemma detach_from_mutex_idle X t : preserves (quiet X) (_thread_detach_from_mutex fuel t).
Proof. unfold _thread_detach_from_mutex, get_mutex. preserve. apply release_all_idle. Qed.

Lemma detach_idle X t again : preserves (quiet X) (_thread_detach fuel t again).
Proof.
  pose proof (detach_from_mutex_idle X).
  unfold _thread_detach, rt_thread_self, rt_thread_defunct_enqueue, rt_list_insert_after. preserve.
Qed.

(** The work of [_thread_detach] on a thread that is not closed yet. *)
Lemma detach_body_inv t th k u k' :
  inv k -> k_threads k !! t = Some th -> th_valid th = true ->
  (when (negb (stat_of th =? RT_THREAD_INIT)) (rt_sched_remove_thread t);;
   rt_timer_detach (TThread t);;
   rt_sched_thread_close t;;
   _thread_detach_from_mutex fuel t;;
   rt_thread_defunct_enqueue t) k = Some (u, k') -> inv k'.
Proof.
  intros I Ht Hv H. apply bind_Some in H as ([] & k1 & H1 & H).
  apply bind_Some in H as (r & k2 & H2 & H). apply bind_Some in H as ([] & k3 & H3 & H).
  assert (close_thread t (negb (stat_of th =? RT_THREAD_INIT)) k = Some (tt, k3)) as Hcl.
  { unfold close_thread. erewrite bind_eq by exact H1. erewrite bind_eq by exact H2. exact H3. }
  assert (negb (stat_of th =? RT_THREAD_INIT) = false -> stat_of th = RT_THREAD_INIT) as Hst
    by (intros Hn; bool_to_prop; assumption).
  destruct (close_thread_spec t th _ _ _ _ I Ht Hv Hst Hcl) as (I3 & C3 & _).
  apply bind_Some in H as ([] & k4 & H4 & H).
  destruct (detach_from_mutex_also t _ _ _ (conj I3 C3) H4) as [I4 C4].
  eapply defunct_enqueue_inv; eauto.
Qed.

Lemma detach_inv t th again k o k' :
  inv k -> k_threads k !! t = Some th -> th_valid th = true ->
  _thread_detach fuel t again k = Some (o, k') -> inv k'.
Proof.
  intros I Ht Hv H. unfold _thread_detach in H.
  apply bind_Some in H as (self & k0 & H0 & H). injection H0 as <- <-.
  apply bind_Some in H as (n & k2 & H2 & H). pose proof (enter_critical_preserves _ _ _ _ I H2) as I2.
  assert (k_threads k2 !! t = Some th) as Ht2.
  { unfold rt_enter_critical in H2. apply bind_Some in H2 as ([] & k3 & H3 & H2). injection H3 as <-.
    injection H2 as _ <-. exact Ht. }
  unfold rt_sched_thread_get_stat in H. apply bind_Some in H as (st & k3 & H3 & H).
  erewrite bind_eq in H3 by (apply get_thread_eq; exact Ht2). injection H3 as <- <-.
  apply bind_Some in H as ([] & k4 & H4 & H).
  assert (inv k4) as I4.
  { destruct (negb (stat_of th =? RT_THREAD_CLOSE)); cbn [when] in H4; [|injection H4 as <-; assumption].
    eapply detach_body_inv; eauto. }
  apply bind_Some in H as ([] & k5 & H5 & H). pose proof (exit_critical_safe_preserves _ _ _ _ I4 H5) as I5.
  eapply (if_still_running_preserves inv); [|exact I5|exact H]. preserve.
Qed.

Lemma detach_thread_preserves t again : preserves kinv (detach_thread fuel t again).
Proof.
  pose proof (detach_idle (fun _ => False) t again). apply kinv_and; [|unfold detach_thread; preserve].
  intros k o k' I H'. unfold detach_thread in H'.
  apply bind_Some in H' as (th & k1 & H1 & H'). apply get_thread_Some in H1 as [Ht ->].
  apply bind_Some in H' as ([] & k2 & H2 & H'). unfold rt_assert in H2.
  destruct (th_valid th) eqn:Hv; [injection H2 as <-|discriminate].
  apply bind_Some in H' as ([] & k3 & H3 & H'). unfold rt_assert in H3.
  destruct (th_static th); [injection H3 as <-|discriminate]. eapply detach_inv; eauto.
Qed.

Lemma delete_thread_preserves t again : preserves kinv (delete_thread fuel t again).
Proof.
  pose proof (detach_idle (fun _ => False) t again). apply kinv_and; [|unfold delete_thread; preserve].
  intros k o k' I H'. unfold delete_thread in H'.
  apply bind_Some in H' as (th & k1 & H1 & H'). apply get_thread_Some in H1 as [Ht ->].
  apply bind_Some in H' as ([] & k2 & H2 & H'). unfold rt_assert in H2.
  destruct (th_valid th) eqn:Hv; [injection H2 as <-|discriminate].
  apply bind_Some in H' as ([] & k3 & H3 & H'). unfold rt_assert in H3.
  destruct (negb _); [injection H3 as <-|discriminate]. eapply detach_inv; eauto.
Qed.

Definition cmd_ok (cmd : thread_cmd) : Prop :=
  match cmd with CHANGE_PRIORITY p => 0 <= p | _ => True end.

Lemma change_priority_kinv t p : 0 <= p -> preserves kinv (rt_sched_thread_change_priority t p).
Proof. intros Hp. apply kinv_and; [apply change_priority_preserves, Hp|apply change_priority_idle]. Qed.

Lemma thread_control_preserves t cmd : cmd_ok cmd -> preserves kinv (rt_thread_control fuel t cmd).
Proof.
  intros Hc. unfold rt_thread_control. apply preserves_bind; [apply get_thread_preserves|intros th].
  apply preserves_bind; [apply preserves_assert|intros _]. destruct cmd; cbn in Hc.
  - apply preserves_bind; [apply change_priority_kinv, Hc|intros; apply preserves_ret].
  - preserve.
  - apply preserves_if; [apply detach_thread_preserves|apply delete_thread_preserves].
  - preserve.
  - preserve.
Qed.
End Fuel.

(** ** The idle thread releases the dead *)

Definition kinv_caller (k : kernel) : Prop := kinv k /\ caller_ok k.

Lemma drop_valid_inv k t th :
  inv k -> k_threads k !! t = Some th -> stat_of th = RT_THREAD_CLOSE -> off_lists t k ->
  inv (k <| k_threads ::= insert t (th <| th_valid := false |>) |>).
Proof.
  intros I Ht Hst Hoff. eapply inv_set_thread; [exact I|tauto|..].
  - destruct (i_threads _ _ I _ _ Ht). split; try assumption. intros l Hl. destruct (Hoff _ Hl).
  - intros _. destruct (inv_stat _ _ _ I Ht). split; try assumption. intros []. exact Hst.
Qed.

Lemma drop_thread_inv k t :
  inv k -> off_lists t k -> TThread t ∉ k_timer_list k -> k_current k <> Some t ->
  inv (k <| k_threads ::= delete t |>).
Proof.
  intros I Hoff Htl Hc.
  assert (forall x, x <> t -> (delete t (k_threads k)) !! x = k_threads k !! x) as Hd
    by (intros; apply lookup_delete_ne; congruence).
  assert (delete t (k_threads k) !! t = None) as Hn by apply lookup_delete_eq.
  apply (inv_frame (fun _ => False) _ t k); cbv [set_field]; cbn; try apply I; auto.
  - split; cbn; intros; try reflexivity. apply Hd. assumption.
  - intros l1 l2 H. destruct (Hoff _ H).
  - intros l H. destruct (Hoff _ H).
  - intros th H. rewrite Hn in H. discriminate.
  - intros th H. rewrite Hn in H. discriminate.
  - intros H. contradiction.
  - intros H. contradiction.
Qed.

(** A dead thread, out of the defunct queue. *)
Definition dead (t : Z) (k : kernel) : Prop :=
  exists th, k_threads k !! t = Some th /\ stat_of th = RT_THREAD_CLOSE /\ off_lists t k.

Lemma quiet_insert X t th k :
  quiet X k -> th_processing th = false -> quiet X (k <| k_threads ::= insert t th |>).
Proof.
  intros [N Ne] Hp. split; [|exact Ne]. intros x thx. cbv [set_field]. cbn.
  destruct (decide (x = t)) as [->|Hx].
  - rewrite lookup_insert_eq. intros [= <-] _. exact Hp.
  - rewrite lookup_insert_ne by congruence. apply N.
Qed.

Lemma dead_not_current k t : kinv_caller k -> dead t k -> k_current k <> Some t.
Proof. intros [_ Hok] (th & Ht & Hst & _) Hc. exact (Hok t th Hc Ht Hst). Qed.

Lemma dead_no_timer k t : inv k -> dead t k -> TThread t ∉ k_timer_list k.
Proof.
  intros I (th & Ht & Hst & _) Hl. apply (so_timer _ _ _ _ _ (inv_stat _ _ _ I Ht)) in Hl as [Hl _].
  rewrite is_suspended_stat, Hst in Hl. discriminate.
Qed.

(** [rt_object_detach] of a static thread. *)
Lemma drop_valid_kinv k t :
  kinv_caller k -> dead t k -> exists th, k_threads k !! t = Some th /\
    let k' := k <| k_threads ::= insert t (th <| th_valid := false |>) |> in kinv_caller k' /\ dead t k'.
Proof.
  intros HK HD. pose proof (dead_not_current _ _ HK HD) as Hc.
  destruct HK as [[I N] Hok]. destruct HD as (th & Ht & Hst & Hoff). exists th. split; [assumption|].
  cbv zeta. split; [split; [split|]|].
  - apply drop_valid_inv; assumption.
  - apply quiet_insert; [exact N|exact (q_flag _ _ N t th Ht (fun H => H))].
  - intros c thc Hcc. change (k_current k = Some c) in Hcc. cbv [set_field]. cbn.
    rewrite lookup_insert_ne by congruence. apply Hok, Hcc.
  - eexists. split; [apply lookup_insert_eq|]. split; [exact Hst|exact Hoff].
Qed.

(** [rt_object_delete] of the others. *)
Lemma drop_thread_kinv k t : kinv_caller k -> dead t k -> kinv_caller (k <| k_threads ::= delete t |>).
Proof.
  intros HK HD. pose proof (dead_not_current _ _ HK HD) as Hc. destruct HK as [[I N] Hok].
  pose proof (dead_no_timer _ _ I HD) as Htl. destruct HD as (th & Ht & Hst & Hoff).
  split; [split; [apply drop_thread_inv; assumption|]|].
  - split; [|exact (q_exec _ _ N)]. intros x thx. cbv [set_field]. cbn. intros Hx.
    apply lookup_delete_Some in Hx as [_ Hx]. exact (q_flag _ _ N x thx Hx).
  - intros c thc Hcc. cbv [set_field]. cbn. intros Hx. apply lookup_delete_Some in Hx as [_ Hx]. exact (Hok c thc Hcc Hx).
Qed.

(** The first thread of the defunct queue is taken out. *)
Lemma defunct_dequeue_spec k o k' :
  kinv_caller k -> rt_thread_defunct_dequeue k = Some (o, k') ->
  kinv_caller k' /\ match o with
    | Some t => dead t k' /\ k_lists k LDefunct = t :: k_lists k' LDefunct
    | None => k' = k /\ k_lists k LDefunct = []
    end.
Proof.
  intros HK H. unfold rt_thread_defunct_dequeue in H. erewrite bind_eq in H by reflexivity. cbv beta in H.
  destruct (k_lists k LDefunct) as [|t q] eqn:Hl.
  { rewrite bool_decide_true in H by reflexivity. injection H as <- <-. auto. }
  rewrite bool_decide_false in H by discriminate.
  unfold list_first in H. erewrite bind_eq in H by (erewrite bind_eq by reflexivity; rewrite Hl; reflexivity).
  erewrite bind_eq in H by reflexivity. injection H as <- <-. fold (remove_lists t k).
  destruct HK as [[I N] Hok].
  assert (t ∈ k_lists k LDefunct) as Hin by (rewrite Hl; apply list_elem_of_here).
  destruct (i_exists _ _ I _ _ Hin) as [th Ht].
  pose proof (so_defunct _ _ _ _ _ (inv_stat _ _ _ I Ht) Hin) as Hst.
  split; [split; [split; [|destruct N; split; assumption]|exact Hok]|split].
  - eapply remove_lists_inv; eauto. intros p Hp.
    assert (LReady p = LDefunct) as E by (eapply (i_uniq _ _ I); eauto). discriminate.
  - exists th. split; [exact Ht|]. split; [exact Hst|]. intros l. apply notin_filter_ne.
  - unfold remove_lists. cbv [set_field]. cbn. rewrite Hl, filter_cons_False by (intros E; apply E; reflexivity).
    rewrite filter_ne_notin; [reflexivity|]. pose proof (i_nodup _ _ I LDefunct) as Hnd. rewrite Hl in Hnd.
    apply NoDup_cons in Hnd. apply Hnd.
Qed.

Section Cleanup.
Context (cleanup : Z -> K unit).
(** The callback leaves the dead thread alone. *)
Hypothesis Hcleanup : forall t, preserves (fun k => kinv_caller k /\ dead t k) (cleanup t).

Lemma defunct_loop_preserves n : preserves kinv_caller (defunct_loop cleanup n).
Proof.
  induction n as [|n IH]; cbn [defunct_loop]; [apply preserves_fail|].
  intros k u k' HK H. apply bind_Some in H as (o & k1 & H1 & H).
  apply defunct_dequeue_spec in H1 as [HK1 HD]; [|assumption].
  destruct o as [t|]; [|injection H as _ <-; assumption]. destruct HD as [HD _].
  apply bind_Some in H as (th & k2 & H2 & H). apply get_thread_Some in H2 as [Ht ->]. cbv zeta in H.
  apply bind_Some in H as ([] & k3 & H3 & H). apply bind_Some in H as ([] & k4 & H4 & H).
  apply bind_Some in H as ([] & k5 & H5 & H). eapply IH; [|exact H].
  assert (kinv_caller k3 /\ dead t k3) as HK3.
  { destruct (th_static th); cbn [when] in H3; [|injection H3 as <-; auto].
    destruct (drop_valid_kinv _ _ HK1 HD) as (th' & Ht' & HK').
    rewrite (upd_thread_eq _ _ _ _ Ht) in H3. injection H3 as <-. rewrite Ht in Ht'. injection Ht' as <-. exact HK'. }
  destruct (Hcleanup t _ _ _ HK3 H4) as [HK4 HD4].
  destruct (negb (th_static th)); cbn [when] in H5; [|injection H5 as <-; assumption].
  injection H5 as <-. apply drop_thread_kinv; assumption.
Qed.

Lemma defunct_execute_preserves : preserves kinv_caller (rt_defunct_execute cleanup).
Proof.
  unfold rt_defunct_execute. apply preserves_bind; [apply preserves_gets|intros n; apply defunct_loop_preserves].
Qed.
End Cleanup.
