(* ===== verification/SystemInv.v ===== *)
(** * Every reachable system has the kernel invariant

    The calls, the tick with its timer callbacks, interrupts and the boot. *)

From S2P Require Import Prelude Bitmap Kernel Timer Sched IpcList Thread Sem Mutex Event Mailbox.
From S2P Require Import Mqueue Mempool ThreadExit DataQueue Completion System KernelInv TimerInv SchedInv ThreadInv.
From S2P Require Import TimerIdle ThreadOps IpcOps MutexOps ExitOps.
Open Scope rt_scope.

(** ** rt_timer_check *)

Section TimerCheck.
Context (user_timeout : Z -> K unit).
(** While the callback of timer [i] runs, [i] is the only timer in the local
    list of [rt_timer_check]. *)
Definition ticking (i : tmid) (k : kernel) : Prop := kinv k /\ forall j, j ∈ k_timer_exec k -> j = i.
Hypothesis Huser : forall u, preserves (ticking (TUser u)) (user_timeout u).

(** The expired timer is taken out of the list and marked. *)
Definition fire (i : tmid) : K unit :=
  _timer_remove i;;
  tm ← get_timer i;
  when (negb (has_flag (tm_flag tm) RT_TIMER_FLAG_PERIODIC))
    (upd_timer i (fun tm => tm <| tm_flag ::= (fun f => Z.ldiff f RT_TIMER_FLAG_ACTIVATED) |>));;
  upd_timer i (fun tm => tm <| tm_flag ::= (fun f => Z.lor f RT_TIMER_FLAG_PROCESSING) |>);;
  st_modify (fun k => k <| k_timer_exec ::= cons i |>).

Lemma bind_ext {A B} (m : K A) (f g : A -> K B) k :
  (forall a k, f a k = g a k) -> (m ≫= f) k = (m ≫= g) k.
Proof. intros H. unfold mbind, st_bind. destruct (m k) as [[a k1]|]; [apply H|reflexivity]. Qed.

(** A one-shot timer is stopped before it is marked. *)
Lemma fire_oneshot t th k :
  k_threads k !! t = Some th -> has_flag (tm_flag (th_timer th)) RT_TIMER_FLAG_PERIODIC = false ->
  fire (TThread t) k =
    (timer_off (TThread t);;
     upd_timer (TThread t) (fun tm => tm <| tm_flag ::= (fun f => Z.lor f RT_TIMER_FLAG_PROCESSING) |>);;
     st_modify (fun k => k <| k_timer_exec ::= cons (TThread t) |>)) k.
Proof.
  intros Ht Hp. unfold fire, timer_off.
  assert (exists k1, _timer_remove (TThread t) k = Some (tt, k1) /\ k_threads k1 !! t = Some th) as (k1 & H1 & Ht1)
    by (eexists; split; [reflexivity|exact Ht]).
  rewrite bind_assoc. erewrite bind_eq by exact H1. symmetry. erewrite bind_eq by exact H1. symmetry.
  erewrite bind_eq by (apply get_timer_eq; exact Ht1). rewrite Hp. reflexivity.
Qed.

(** What the step leaves alone. *)
Record fired (t : Z) (k k' : kernel) : Prop := {
  fd_taken : k_taken k' = k_taken k;
  fd_nest : k_lock_nest k' = k_lock_nest k;
  fd_irq : k_irq_nest k' = k_irq_nest k;
  fd_tick : k_tick k' = k_tick k;
  fd_utimers : k_utimers k' = k_utimers k;
  fd_objs : k_sems k' = k_sems k /\ k_mutexes k' = k_mutexes k /\ k_events k' = k_events k /\
    k_mbs k' = k_mbs k /\ k_mqs k' = k_mqs k /\ k_mps k' = k_mps k /\
    k_dqs k' = k_dqs k /\ k_comps k' = k_comps k;
  fd_lists : k_lists k' = k_lists k;
  fd_current : k_current k' = k_current k;
  fd_timers : k_timer_list k' = filter (fun i => i <> TThread t) (k_timer_list k);
  fd_exec : k_timer_exec k' = TThread t :: filter (fun i => i <> TThread t) (k_timer_exec k);
  fd_other : forall x, x <> t -> k_threads k' !! x = k_threads k !! x;
  fd_thread : exists th th', k_threads k !! t = Some th /\ k_threads k' !! t = Some th' /\
    th_stat th' = th_stat th /\ th_valid th' = th_valid th /\ tm_valid (th_timer th') = tm_valid (th_timer th) /\
    th_cur_prio th' = th_cur_prio th;
}.

Lemma fire_total t k th :
  k_threads k !! t = Some th -> has_flag (tm_flag (th_timer th)) RT_TIMER_FLAG_PERIODIC = false ->
  exists k', fire (TThread t) k = Some (tt, k') /\ fired t k k'.
Proof.
  intros Ht Hp. rewrite (fire_oneshot t th k Ht Hp).
  destruct (k) as [ts ls tk g n c cp irq tick tl te us ss ms es mbs mqs mps dqs cps]. cbn in Ht.
  eexists. split.
  - erewrite bind_eq by (apply timer_off_eq; exact Ht).
    erewrite bind_eq by (apply upd_timer_eq, lookup_insert_eq). reflexivity.
  - split; try reflexivity.
    + repeat split.
    + intros x Hx. cbn. rewrite !lookup_insert_ne by congruence. reflexivity.
    + exists th. eexists. split; [exact Ht|]. split; [apply lookup_insert_eq|]. repeat split.
Qed.

(** A thread's timer expires. *)
Lemma fire_thread t k :
  kinv k -> TThread t ∈ k_timer_list k ->
  exists k', fire (TThread t) k = Some (tt, k') /\ fired t k k' /\ expired t k' /\ quiet (fun x => x = t) k'.
Proof.
  intros [I N] Hin. destruct (i_texists _ _ I _ Hin) as [th Ht].
  pose proof (inv_stat _ _ _ I Ht) as SO. pose proof (i_threads _ _ I _ _ Ht) as W.
  destruct (so_timer _ _ _ _ _ SO Hin) as [Hs Htt].
  destruct (fire_total t k th Ht (tw_oneshot _ _ _ _ W)) as (k' & H & F). exists k'.
  split; [exact H|]. split; [exact F|].
  destruct (fd_thread _ _ _ F) as (th0 & th' & Ht0 & Ht' & Hst & Hv & Htv & _).
  rewrite Ht in Ht0. injection Ht0 as <-.
  assert (inv_ex (fun x => x = t) k') as I'.
  { rewrite (fire_oneshot t th k Ht (tw_oneshot _ _ _ _ W)) in H.
    erewrite bind_eq in H by (apply timer_off_eq; exact Ht).
    pose proof (timer_off_inv _ t th k I Ht) as I2. set (k2 := timer_off_state t th k) in *. clearbody k2.
    apply bind_Some in H as ([] & k3 & H3 & H).
    assert (inv_ex (fun x => x = t) k3) as I3.
    { eapply inv_weaken; [eapply upd_timer_same; [..|exact I2|exact H3]|cbn; tauto]; intros tm;
        cbv [set_field]; cbn; rewrite ?has_flag_set_other by reflexivity; reflexivity. }
    injection H as <-. eapply inv_same; [exact I3|reflexivity..|apply (i_mutex _ _ I3)]. }
  split; [split; [exact I'|..]|split].
  - rewrite (fd_timers _ _ _ F). apply notin_filter_ne.
  - exists th'. split; [exact Ht'|]. unfold is_suspended in *. rewrite Hst, Hv, Htv. split; [exact Hs|].
    split; [apply (so_valid _ _ _ _ _ SO), suspended_not_close, Hs|apply (tw_tvalid _ _ _ _ W Hin)].
  - rewrite (fd_lists _ _ _ F). exact (suspended_not_ready _ _ _ I Ht Hs).
  - intros x thx Hx Hne. rewrite (fd_other _ _ _ F x Hne) in Hx. exact (q_flag _ _ N x thx Hx (fun H => H)).
  - rewrite (fd_timers _ _ _ F), (fd_exec _ _ _ F). intros i. rewrite elem_of_cons, !elem_of_filter_ne.
    intros [->|[Hi Hx]] [Hi' Hl]; [contradiction|]. exact (q_exec _ _ N i Hx Hl).
Qed.

(** What follows the callback, for a timer [i] that is still in the local
    list. *)
Definition refire (i : tmid) : K unit :=
  st_modify (fun k => k <| k_timer_exec ::= filter (fun j => j <> i) |>);;
  tm ← get_timer i;
  when (has_flag (tm_flag tm) RT_TIMER_FLAG_PERIODIC &&
        has_flag (tm_flag tm) RT_TIMER_FLAG_ACTIVATED)
    (upd_timer i (fun tm => tm <| tm_flag ::= (fun f => Z.ldiff f RT_TIMER_FLAG_ACTIVATED) |>);;
     _timer_start i;; mret tt).

Definition unmark (i : tmid) : K unit :=
  upd_timer i (fun tm => tm <| tm_flag ::= (fun f => Z.ldiff f RT_TIMER_FLAG_PROCESSING) |>).

(** One round of the loop. *)
Lemma check_loop_round n now k i q :
  k_timer_list k = i :: q -> (u32 (now - timeout_of k i) <? HALF_TICK) = true ->
  timer_check_loop (timeout_func user_timeout) (S n) now k =
  (fire i;; timeout_func user_timeout i;; now' ← rt_tick_get; unmark i;;
   e ← st_gets k_timer_exec;
   (if bool_decide (e = []) then mret tt else refire i);;
   timer_check_loop (timeout_func user_timeout) n now') k.
Proof.
  intros Hl Hdue. cbn [timer_check_loop]. erewrite bind_eq by reflexivity. cbv beta. rewrite Hl.
  erewrite bind_eq by reflexivity. cbv beta. rewrite Hdue. cbn [negb].
  unfold fire, refire, unmark. rewrite !bind_assoc.
  repeat (apply bind_ext; intros; rewrite ?bind_assoc).
  destruct (bool_decide _); [reflexivity|]. rewrite !bind_assoc.
  repeat (apply bind_ext; intros; rewrite ?bind_assoc). reflexivity.
Qed.

Lemma unmark_thread t k u k' :
  inv k -> quiet (fun x => x = t) k -> unmark (TThread t) k = Some (u, k') -> kinv k'.
Proof.
  intros I Q H. split.
  - revert I H. apply upd_timer_same; intros tm; cbv [set_field]; cbn;
      rewrite ?has_flag_clear_other by reflexivity; reflexivity.
  - unfold unmark in H. cbn [upd_timer] in H. apply upd_thread_Some in H as (th & Ht & ->).
    split; [|exact (q_exec _ _ Q)]. intros x thx. cbv [set_field]. cbn.
    destruct (decide (x = t)) as [->|Hx].
    + rewrite lookup_insert_eq. intros [= <-] _. unfold th_processing. cbn. apply has_flag_clear_same.
    + rewrite lookup_insert_ne by congruence. intros Hth _. exact (q_flag _ _ Q x thx Hth Hx).
Qed.

Lemma unmark_user v : preserves kinv (unmark (TUser v)).
Proof.
  apply kinv_and.
  - apply upd_utimer_same; intros tm; cbv [set_field]; cbn;
      rewrite ?has_flag_clear_other by reflexivity; reflexivity.
  - unfold unmark. preserve.
Qed.

Lemma exec_filter_kinv i : preserves kinv (st_modify (fun k => k <| k_timer_exec ::= filter (fun j => j <> i) |>)).
Proof.
  apply kinv_and; [preserve_same|]. apply preserves_modify. intros k [Q1 Q2]. split; [exact Q1|].
  cbv [set_field]. cbn. intros j. rewrite elem_of_filter_ne. intros [_ Hj]. apply Q2, Hj.
Qed.

Lemma refire_thread t : preserves kinv (refire (TThread t)).
Proof.
  unfold refire. apply preserves_bind; [apply exec_filter_kinv|intros _].
  intros k u k' HK H. apply bind_Some in H as (tm & k1 & H1 & H).
  apply get_timer_Some in H1 as (th & Ht & -> & ->).
  rewrite (tw_oneshot _ _ _ _ (i_threads _ _ (proj1 HK) _ _ Ht)) in H. injection H as _ <-. assumption.
Qed.

Lemma get_utimer_Some v k tm k' :
  get_timer (TUser v) k = Some (tm, k') -> k_utimers k !! v = Some tm /\ k' = k.
Proof.
  cbn. unfold get_obj. destruct (k_utimers k !! v); [intros [= <- <-]; auto|discriminate].
Qed.

Lemma refire_user v : triple (fun k => kinv k /\ TUser v ∉ k_timer_list k) (refire (TUser v)) (fun _ => kinv).
Proof.
  unfold refire. intros k u k' [HK Hn] H. apply bind_Some in H as ([] & k1 & H1 & H).
  pose proof (exec_filter_kinv _ _ _ _ HK H1) as HK1.
  assert (TUser v ∉ k_timer_list k1) as Hn1 by (injection H1 as <-; exact Hn).
  apply bind_Some in H as (tm & k2 & H2 & H). apply get_utimer_Some in H2 as [Hu ->].
  destruct (has_flag (tm_flag tm) RT_TIMER_FLAG_PERIODIC); [|injection H as _ <-; assumption].
  destruct (has_flag (tm_flag tm) RT_TIMER_FLAG_ACTIVATED) eqn:Ha; [|injection H as _ <-; assumption].
  cbn [andb when] in H. destruct HK1 as [I1 Q1]. apply bind_Some in H as ([] & k3 & H3 & H).
  apply bind_Some in H as (r & k4 & H4 & H). injection H as _ <-. split.
  - assert (unlisted (fun _ => False) v k3) as [I3 _].
    { eapply upd_utimer_unlisted; [|split; eassumption|exact H3].
      intros t _ Hf. cbv [set_field] in Hf. cbn in Hf. rewrite has_flag_clear_same in Hf. discriminate. }
    eapply timer_start_user; [|exact H4]. split; [exact I3|].
    apply upd_utimer_Some in H3 as (tm3 & Hu3 & ->). rewrite Hu in Hu3. injection Hu3 as <-.
    eexists. split; [apply lookup_insert_eq|]. apply (i_uvalid _ _ I1 _ _ Hu Ha).
  - eapply timer_start0_idle; [|exact H4]. revert Q1 H3. unfold preserves. apply upd_timer_idle. idle_timer_flag.
Qed.

(** A timer object expires. *)
Lemma fire_user v : triple (fun k => kinv k /\ k_timer_exec k = []) (fire (TUser v)) (fun _ => ticking (TUser v)).
Proof.
  intros k u k' [HK He] H. unfold fire in H. apply bind_Some in H as ([] & k1 & H1 & H).
  assert (kinv k1) as HK1.
  { destruct HK as [I Q]. split; [apply (timer_remove_unlisted _ v _ _ _ I H1)|eapply timer_remove_idle; eauto]. }
  assert (k_timer_exec k1 = [] /\ TUser v ∉ k_timer_list k1) as [He1 Hn1].
  { injection H1 as <-. cbv [set_field]. cbn. rewrite He. split; [reflexivity|apply notin_filter_ne]. }
  apply bind_Some in H as (tm & k2 & H2 & H). apply get_utimer_Some in H2 as [Hu ->].
  apply bind_Some in H as ([] & k3 & H3 & H). apply bind_Some in H as ([] & k4 & H4 & H). injection H as _ <-.
  assert (forall f k u k', upd_timer (TUser v) f k = Some (u, k') ->
    k_timer_exec k' = k_timer_exec k /\ k_timer_list k' = k_timer_list k) as Hsame.
  { intros f x y z E. apply upd_utimer_Some in E as (? & _ & ->). split; reflexivity. }
  assert (kinv k3 /\ k_timer_exec k3 = [] /\ TUser v ∉ k_timer_list k3) as (HK3 & He3 & Hn3).
  { destruct (negb _); cbn [when] in H3; [|injection H3 as <-; auto].
    destruct (Hsame _ _ _ _ H3) as [-> ->]. split; [|auto]. destruct HK1 as [I1 Q1]. split.
    - eapply upd_utimer_unlisted; [|split; eassumption|exact H3].
      intros t _ Hf. cbv [set_field] in Hf. cbn in Hf. rewrite has_flag_clear_same in Hf. discriminate.
    - revert Q1 H3. apply upd_timer_idle. idle_timer_flag. }
  destruct (Hsame _ _ _ _ H4) as [He4 Hl4].
  assert (kinv k4) as [I4 Q4].
  { revert HK3 H4. apply kinv_and; [|preserve].
    apply upd_utimer_same; intros t; cbv [set_field]; cbn; rewrite ?has_flag_set_other by reflexivity; reflexivity. }
  split; [split|]; cbv [set_field]; cbn.
  - eapply inv_same; [exact I4|reflexivity..|apply (i_mutex _ _ I4)].
  - destruct Q4 as [Q1 Q2]. split; [exact Q1|]. cbv [set_field]. cbn. rewrite He4, He3, Hl4.
    intros j Hj. apply list_elem_of_singleton in Hj as ->. exact Hn3.
  - rewrite He4, He3. intros j Hj. apply list_elem_of_singleton in Hj. exact Hj.
Qed.

(** The local list outside the callbacks. *)
Lemma timeout_exec t k u k' :
  expired t k -> _thread_timeout t k = Some (u, k') -> k_timer_exec k' = k_timer_exec k.
Proof.
  intros E H. destruct (ex_thread _ _ E) as (th & Ht & Hs & Hv & _).
  rewrite (thread_timeout_eq t th k Ht Hs Hv) in H. pose proof (timeout_state_inv t th k E Ht) as I.
  assert (k_timer_exec (timeout_state t th k) = k_timer_exec k) as <-.
  { unfold timeout_state, insert_state. destruct (bool_decide _); reflexivity. }
  unfold rt_sched_unlock_n_resched in H. erewrite bind_eq in H by reflexivity. cbv beta in H.
  destruct (bool_decide _); cbn [when] in H; [|injection H as _ <-; reflexivity].
  destruct (schedule_spec _ _ _ I H) as [_ F]. apply (sf_exec _ _ F).
Qed.

(** Restarting a timer leaves the local list empty. *)
Definition no_exec (k : kernel) : Prop := k_timer_exec k = [].

Lemma no_exec_timer i f : preserves no_exec (upd_timer i f).
Proof.
  intros k u k' He H. unfold no_exec in *. destruct i; cbn [upd_timer] in H.
  - apply upd_thread_Some in H as (? & _ & ->). exact He.
  - apply upd_utimer_Some in H as (? & _ & ->). exact He.
Qed.

Lemma no_exec_start i : preserves no_exec (_timer_start i).
Proof.
  unfold _timer_start, rt_tick_get. pose proof (no_exec_timer i).
  apply preserves_bind; [destruct i; cbn [get_timer]; preserve|intros tm]. apply preserves_if; [preserve|].
  apply preserves_bind.
  { unfold _timer_remove. apply preserves_modify. intros k He. unfold no_exec in *. cbv [set_field]. cbn.
    rewrite He. reflexivity. }
  intros _. apply preserves_bind; [auto|intros _]. apply preserves_bind; [preserve|intros now].
  apply preserves_bind; [auto|intros _].
  apply preserves_bind; [apply preserves_modify; intros k He; exact He|intros _].
  apply preserves_bind; [auto|intros _]. preserve.
Qed.

Lemma refire_exec i k u k' :
  (forall j, j ∈ k_timer_exec k -> j = i) -> refire i k = Some (u, k') -> no_exec k'.
Proof.
  intros He H. unfold refire in H. apply bind_Some in H as ([] & k1 & H1 & H). injection H1 as <-.
  set (k1 := k <| k_timer_exec ::= filter (fun j => j <> i) |>) in *.
  assert (no_exec k1) as He1.
  { unfold no_exec, k1. cbv [set_field]. cbn. destruct (filter (fun j => j <> i) (k_timer_exec k)) as [|j l] eqn:E; [reflexivity|].
    assert (j ∈ filter (fun j => j <> i) (k_timer_exec k)) as Hj by (rewrite E; apply list_elem_of_here).
    apply elem_of_filter_ne in Hj as [Hj Hk]. destruct (Hj (He j Hk)). }
  clearbody k1. revert He1 H.
  refine (preserves_bind no_exec _ _ _ _ k1 u k').
  - destruct i; cbn [get_timer]; preserve.
  - intros tm. apply preserves_when. apply preserves_bind; [apply no_exec_timer|intros _].
    apply preserves_bind; [apply no_exec_start|intros; preserve].
Qed.

(** ** The loop *)

Definition settled (k : kernel) : Prop := kinv k /\ no_exec k.

Lemma callback_spec i :
  triple (fun k => settled k /\ i ∈ k_timer_list k)
    (fire i;; timeout_func user_timeout i;; now ← rt_tick_get; unmark i;; mret now) (fun _ => ticking i).
Proof.
  intros k r k' [[HK He] Hin] H. apply bind_Some in H as ([] & k1 & H1 & H).
  apply bind_Some in H as ([] & k2 & H2 & H). apply bind_Some in H as (now & k3 & H3 & H). injection H3 as <- <-.
  apply bind_Some in H as ([] & k4 & H4 & H). injection H as _ <-. destruct i as [t|v]; cbn [timeout_func] in H2.
  - destruct (fire_thread t k HK Hin) as (k1' & H1' & F1 & E1 & Q1).
    rewrite H1 in H1'. injection H1' as <-.
    assert (k_timer_exec k1 = [TThread t]) as He1 by (rewrite (fd_exec _ _ _ F1), He; reflexivity). pose proof (timeout_exec _ _ _ _ E1 H2) as He2.
    pose proof (thread_timeout_spec t _ _ _ E1 H2) as I2. pose proof (thread_timeout_idle _ t _ _ _ Q1 H2) as Q2.
    split; [exact (unmark_thread t k2 _ k4 I2 Q2 H4)|]. unfold unmark in H4. cbn [upd_timer] in H4.
    apply upd_thread_Some in H4 as (? & _ & ->). cbv [set_field]. cbn. rewrite He2, He1.
    intros j Hj. apply list_elem_of_singleton in Hj. exact Hj.
  - pose proof (fire_user v _ _ _ (conj HK He) H1) as T1. pose proof (Huser v _ _ _ T1 H2) as [HK2 He2].
    split; [eapply unmark_user; eauto|]. unfold unmark in H4. apply upd_utimer_Some in H4 as (? & _ & ->). exact He2.
Qed.

Lemma refire_spec i k u k' :
  ticking i k -> k_timer_exec k <> [] -> refire i k = Some (u, k') -> settled k'.
Proof.
  intros [HK He] Hne H. split; [|eapply refire_exec; eauto]. destruct i as [t|v].
  - eapply refire_thread; eauto.
  - eapply refire_user; [|exact H]. split; [assumption|]. apply (q_exec _ _ (proj2 HK)).
    destruct (k_timer_exec k) as [|j l]; [contradiction|]. rewrite <- (He j) by apply list_elem_of_here.
    apply list_elem_of_here.
Qed.

Lemma check_loop_preserves n now : preserves settled (timer_check_loop (timeout_func user_timeout) n now).
Proof.
  revert now. induction n as [|n IH]; intros now k u k' HS H; [discriminate|].
  destruct (k_timer_list k) as [|i q] eqn:Hl.
  { cbn [timer_check_loop] in H. erewrite bind_eq in H by reflexivity. cbv beta in H. rewrite Hl in H.
    injection H as _ <-. assumption. }
  destruct (u32 (now - timeout_of k i) <? HALF_TICK) eqn:Hdue.
  2: { cbn [timer_check_loop] in H. erewrite bind_eq in H by reflexivity. cbv beta in H. rewrite Hl in H.
       erewrite bind_eq in H by reflexivity. cbv beta in H. rewrite Hdue in H. injection H as _ <-. assumption. }
  rewrite (check_loop_round n now k i q Hl Hdue) in H.
  apply bind_Some in H as ([] & k1 & H1 & H). apply bind_Some in H as ([] & k2 & H2 & H).
  apply bind_Some in H as (now' & k3 & H3 & H). apply bind_Some in H as ([] & k4 & H4 & H).
  assert (ticking i k4) as T4.
  { eapply (callback_spec i k now'); [split; [exact HS|rewrite Hl; apply list_elem_of_here]|].
    erewrite bind_eq by exact H1. erewrite bind_eq by exact H2. erewrite bind_eq by exact H3.
    erewrite bind_eq by exact H4. reflexivity. }
  apply bind_Some in H as (e & k5 & H5 & H). injection H5 as <- <-.
  apply bind_Some in H as ([] & k6 & H6 & H). eapply IH; [|exact H].
  destruct (bool_decide _) eqn:He; bool_to_prop.
  - injection H6 as <-. split; [apply T4|exact He].
  - eapply refire_spec; eauto.
Qed.

Lemma timer_check_preserves n : preserves kinv (rt_timer_check (timeout_func user_timeout) n).
Proof.
  unfold rt_timer_check, rt_interrupt_get_nest. apply preserves_bind; [preserve|intros nest]. apply preserves_bind; [preserve|intros _].
  apply preserves_bind; [preserve|intros now]. intros k u k' [I Q] H. apply bind_Some in H as ([] & k1 & H1 & H).
  injection H1 as <-. eapply check_loop_preserves; [|exact H]. split; [split|reflexivity].
  - eapply inv_same; [exact I|reflexivity..|apply (i_mutex _ _ I)].
  - split; [exact (q_flag _ _ Q)|]. intros i Hi. apply elem_of_nil in Hi. destruct Hi.
Qed.

Lemma irq_preserves f : preserves kinv (st_modify (fun k => k <| k_irq_nest ::= f |>)).
Proof. apply kinv_and; [preserve_same|preserve]. Qed.

Lemma tick_increase_preserves n : preserves kinv (rt_tick_increase user_timeout n).
Proof.
  unfold rt_tick_increase, rt_interrupt_get_nest. apply preserves_bind; [preserve|intros nest].
  apply preserves_bind; [preserve|intros _].
  apply preserves_bind; [apply kinv_and; [preserve_same|preserve]|intros _].
  apply preserves_bind; [preserve|intros r]. apply timer_check_preserves.
Qed.

Lemma SysTick_preserves n : preserves kinv (SysTick_Handler user_timeout n).
Proof.
  unfold SysTick_Handler. apply preserves_bind; [apply irq_preserves|intros _].
  apply preserves_bind; [apply tick_increase_preserves|intros _]. apply irq_preserves.
Qed.
End TimerCheck.

(** ** Calls *)

Create HintDb rt_calls discriminated.
#[local] Hint Resolve sem_init_preserves sem_detach_preserves sem_create_preserves sem_delete_preserves
  sem_release_preserves sem_control_preserves sem_take_preserves sem_take_resume_preserves
  event_init_preserves event_detach_preserves event_create_preserves event_delete_preserves
  event_send_preserves event_recv_preserves event_recv_resume_preserves event_control_preserves
  mb_init_preserves mb_create_preserves mb_detach_preserves mb_delete_preserves mb_send_wait_preserves
  mb_send_resume_preserves mb_urgent_preserves mb_recv_preserves mb_recv_resume_preserves mb_control_preserves
  mq_init_preserves mq_create_preserves mq_detach_preserves mq_delete_preserves mq_send_wait_preserves
  mq_send_resume_preserves mq_urgent_preserves mq_recv_preserves mq_recv_resume_preserves mq_control_preserves
  mp_init_preserves mp_detach_preserves mp_create_preserves mp_delete_preserves mp_alloc_preserves
  mp_alloc_resume_preserves mp_free_preserves
  dq_init_preserves dq_len_preserves dq_peek_preserves dq_reset_preserves dq_deinit_preserves
  dq_deinit_resume_preserves dq_push_preserves dq_push_resume_preserves dq_pop_preserves dq_pop_resume_preserves
  dq_pop_end_preserves comp_init_preserves comp_wait_preserves comp_wait_resume_preserves comp_done_preserves
  comp_done_void_preserves
  mutex_init_preserves mutex_create_preserves mutex_detach_preserves mutex_delete_preserves
  mutex_take_preserves mutex_take_resume_preserves mutex_take_resume2_preserves mutex_take_failed_preserves
  mutex_release_preserves get_ceiling_preserves mutex_detach_resume_preserves
  thread_exit_preserves thread_resume_preserves : rt_calls.

Lemma returns_preserves I (m : K Z) : preserves I m -> preserves I (returns m).
Proof. intros H. unfold returns. apply preserves_bind; [exact H|intros; apply preserves_ret]. Qed.
Lemma returns_ptr_preserves I (m : K (option Z)) : preserves I m -> preserves I (returns_ptr m).
Proof. intros H. unfold returns_ptr. apply preserves_bind; [exact H|intros; apply preserves_ret]. Qed.
Lemma returns_void_preserves I (m : K unit) : preserves I m -> preserves I (returns_void m).
Proof. intros H. unfold returns_void. apply preserves_bind; [exact H|intros; apply preserves_ret]. Qed.

Lemma thread_init_kinv t priority tick :
  0 <= priority -> triple kinv_caller (rt_thread_init t priority tick) (fun _ => kinv).
Proof.
  intros Hp k r k' [[I Q] Hok] H. split; [eapply thread_init_inv; eauto|eapply thread_init_idle; eauto].
Qed.

Lemma thread_create_kinv mem stack priority tick :
  0 <= priority -> preserves kinv (rt_thread_create mem stack priority tick).
Proof.
  intros Hp. apply kinv_and; [|apply thread_create_idle].
  intros k r k' I H. eapply thread_create_inv; eauto.
Qed.

Section Calls.
Context (cleanup : Z -> K unit) (evt_notify : Z -> Z -> Z -> K unit) (fuel : nat).
Hypothesis Hcleanup : forall t, preserves (fun k => kinv_caller k /\ dead t k) (cleanup t).
Hypothesis Hnotify : forall f q e, preserves kinv (evt_notify f q e).

Lemma call_cmd_ok t cmd : call_ok (ThreadControl t cmd) -> cmd_ok cmd.
Proof. destruct cmd; exact (fun H => H). Qed.

Lemma thread_suspend_kinv t f : preserves kinv (rt_thread_suspend_with_flag t f).
Proof. apply suspend_preserves. discriminate. Qed.

(** The calls that need no more than [kinv]. *)
Lemma exec_kinv c : call_ok c -> isr_call c -> preserves kinv (exec cleanup evt_notify fuel c).
Proof.
  intros Hok Hisr. destruct c; cbn [exec isr_call] in *; try contradiction;
    try (first [apply returns_preserves|apply returns_ptr_preserves|apply returns_void_preserves]);
    try solve [auto 2 with rt_calls nocore]; try solve [apply kinv_and; auto 2 with rt_pres nocore];
    try solve [auto 2 with rt_pres nocore].
  - apply thread_create_kinv, Hok.
  - apply detach_thread_preserves.
  - apply delete_thread_preserves.
  - apply thread_sleep_preserves.
  - apply thread_suspend_kinv.
  - apply thread_control_preserves, (call_cmd_ok t), Hok.
  - apply kinv_and; [apply timer_init_preserves|apply timer_init_user_idle].
  - apply kinv_and; [apply timer_create_preserves|apply timer_create_idle].
  - apply kinv_and; [apply timer_detach_preserves|apply timer_detach_idle].
  - apply kinv_and; [apply timer_delete_preserves|apply timer_delete_idle].
  - apply kinv_and; [apply timer_start_preserves|apply timer_start_idle].
  - apply kinv_and; [apply timer_stop_preserves|apply timer_stop_idle].
  - apply preserves_bind; [|intros; apply preserves_ret].
    apply kinv_and; [apply timer_control_preserves|apply timer_control_idle].
  - apply set_ceiling_preserves, Hok.
Qed.

(** Every call of a thread that has not been closed. *)
Lemma exec_preserves c : call_ok c -> triple kinv_caller (exec cleanup evt_notify fuel c) (fun _ => kinv).
Proof.
  intros Hok k o k' HK H. destruct c; try (eapply (exec_kinv _ Hok Logic.I); [apply HK|exact H]).
  - cbn [exec] in H. unfold returns in H. apply bind_Some in H as (r & k1 & H1 & H). injection H as _ <-.
    eapply thread_init_kinv; [exact Hok|exact HK|exact H1].
  - cbn [exec] in H. unfold returns_void in H. apply bind_Some in H as ([] & k1 & H1 & H). injection H as _ <-.
    eapply (defunct_execute_preserves cleanup Hcleanup); eauto.
Qed.

Lemma resume_preserves c : preserves kinv (resume evt_notify fuel c).
Proof. destruct c; cbn [resume]; first [solve [auto 2 with rt_calls nocore]|eauto with rt_pres nocore]. Qed.
End Calls.

(** ** Boot *)

Lemma reset_kinv k : reset_state k -> kinv k.
Proof.
  intros [Ht Hl Hg Hc Htl He Hu Hm].
  assert (forall l t, t ∉ k_lists k l) as Hoff by (intros l t; rewrite Hl; apply not_elem_of_nil).
  split; split.
  - intros l. rewrite Hl. constructor.
  - intros l1 l2 t H. destruct (Hoff _ _ H).
  - intros l t H. destruct (Hoff _ _ H).
  - rewrite Hg. lia.
  - intros p Hp. rewrite Hg, Hl, Z.bits_0. reflexivity.
  - intros t th. rewrite Ht. discriminate.
  - intros t th. rewrite Ht. discriminate.
  - rewrite Hc. discriminate.
  - rewrite Htl. constructor.
  - intros t. rewrite Htl. intros []%elem_of_nil.
  - intros u. rewrite Htl. intros []%elem_of_nil.
  - intros u tm Htm. rewrite (Hu _ _ Htm). discriminate.
  - intros m x. rewrite Hm. discriminate.
  - intros t th. rewrite Ht. discriminate.
  - intros i. rewrite He. intros []%elem_of_nil.
Qed.

(** Without a current thread nothing is scheduled. *)
Definition no_current (k : kernel) : Prop := k_current k = None.

Lemma cur_upd_thread t f : preserves no_current (upd_thread t f).
Proof. intros k u k' H E. apply upd_thread_Some in E as (th & _ & ->). exact H. Qed.
Lemma cur_modify f : (forall k, k_current (f k) = k_current k) -> preserves no_current (st_modify f).
Proof. intros Hf. apply preserves_modify. intros k H. unfold no_current. rewrite Hf. exact H. Qed.
#[local] Hint Extern 1 (preserves no_current (upd_thread _ _)) => apply cur_upd_thread : rt_pres.
#[local] Hint Extern 1 (preserves no_current (set_stat _ _)) => apply cur_upd_thread : rt_pres.
#[local] Hint Extern 1 (preserves no_current (upd_timer (TThread _) _)) => apply cur_upd_thread : rt_pres.
#[local] Hint Extern 1 (preserves no_current (st_modify _)) => apply cur_modify; reflexivity : rt_pres.

Lemma cur_resched : preserves no_current rt_sched_unlock_n_resched.
Proof.
  intros k u k' H E. unfold rt_sched_unlock_n_resched in E. erewrite bind_eq in E by reflexivity. cbv beta in E.
  rewrite H in E. injection E as _ <-. exact H.
Qed.
#[local] Hint Resolve cur_resched : rt_pres.

Lemma cur_get_timer t : preserves no_current (get_timer (TThread t)).
Proof. cbn [get_timer]. preserve. Qed.
#[local] Hint Resolve cur_get_timer : rt_pres.

Lemma cur_startup t : preserves no_current (rt_thread_startup t).
Proof.
  unfold rt_thread_startup, rt_sched_thread_startup, rt_thread_resume, rt_sched_thread_ready,
    rt_sched_thread_is_suspended, rt_sched_thread_timer_stop, rt_timer_stop, _timer_remove, rt_sched_insert_thread,
    rt_list_remove, rt_list_insert_before, rt_list_insert_after, rt_thread_self. preserve.
Qed.
Lemma cur_thread_init0 t priority tick : preserves no_current (_thread_init t priority tick).
Proof.
  unfold _thread_init, rt_sched_thread_init_ctx, rt_sched_thread_init_priv, rt_timer_init. preserve.
Qed.
#[local] Hint Resolve cur_startup cur_thread_init0 : rt_pres.

Lemma no_current_caller k : kinv k -> no_current k -> kinv_caller k.
Proof. intros HK Hc. split; [assumption|]. intros c th H. unfold no_current in Hc. congruence. Qed.

(** [rt_system_scheduler_start] runs the most urgent ready thread. *)
Lemma scheduler_start_spec k u k' :
  inv k -> no_current k -> rt_system_scheduler_start k = Some (u, k') ->
  inv k' /\ exists t p q, k_current k' = Some t /\ k_lists k (LReady p) = t :: q /\
    forall p', 0 <= p' < p -> k_lists k (LReady p') = [].
Proof.
  intros I Hc H. unfold rt_system_scheduler_start in H.
  destruct (Z.eq_dec (k_group k) 0) as [Hg|Hg].
  { exfalso. unfold _scheduler_get_highest_priority_thread, list_first in H.
    apply bind_Some in H as ([t p] & k1 & H1 & _). erewrite bind_eq in H1 by reflexivity. cbv beta zeta in H1.
    rewrite Hg in H1. change (__rt_ffs 0 - 1) with (-1) in H1.
    apply bind_Some in H1 as (t' & k2 & H2 & _). erewrite bind_eq in H2 by reflexivity. cbv beta in H2.
    destruct (k_lists k (LReady (-1))) as [|x q] eqn:Hl; [discriminate|].
    assert (x ∈ k_lists k (LReady (-1))) as Hx by (rewrite Hl; apply list_elem_of_here).
    destruct (i_exists _ _ I _ _ Hx) as [th Ht]. pose proof (i_threads _ _ I _ _ Ht) as W.
    destruct (tw_ready _ _ _ _ W _ Hx) as [Hp _]. destruct (tw_prio _ _ _ _ W). lia. }
  destruct (highest_ready _ _ I Hg) as (to & p & q & Hh & Hp & Hl & Hlow).
  erewrite bind_eq in H by exact Hh. cbv beta iota in H. erewrite bind_eq in H by reflexivity. cbv beta in H.
  assert (to ∈ k_lists k (LReady p)) as Hto by (rewrite Hl; apply list_elem_of_here).
  destruct (i_exists _ _ I _ _ Hto) as [th Ht].
  destruct (ready_off _ _ _ _ _ I (fun H => H) Ht Hto) as (Hr & Htl & Hoff).
  set (k1 := k <| k_current := Some to |>) in *.
  assert (inv_ex (fun x => x = to) k1) as I1.
  { eapply inv_weaken; [apply (inv_set_current _ _ _ I); eauto|]. unfold no_current in Hc. rewrite Hc.
    intros x [->|[Hx|[]]]; [reflexivity|discriminate]. }
  apply bind_Some in H as ([] & k2 & H2 & H).
  destruct (remove_thread_spec _ _ _ _ _ I1 H2) as (I2 & Hoff2 & Hlo & _ & _).
  assert (k_threads k2 !! to = Some th) as Ht2 by (rewrite (lo_threads _ _ Hlo); exact Ht).
  unfold set_stat in H. rewrite (upd_thread_eq _ _ _ _ Ht2) in H. injection H as _ <-.
  split; [|exists to, p, q; split; [exact (lo_current _ _ Hlo)|auto]].
  pose proof (inv_stat _ _ _ I Ht) as SO.
  eapply inv_set_thread; [exact I2|cbn; tauto| |intros _].
  - destruct (i_threads _ _ I2 _ _ Ht2). split; try assumption.
    destruct tw_mask as [[_ [Hi|Hi]]|Hm]; [rewrite Hr in Hi; discriminate..|right; exact Hm].
  - apply stat_ok_off; try discriminate.
    + exact Hoff2.
    + rewrite (lo_timers _ _ Hlo). exact Htl.
    + intros _. exact (lo_current _ _ Hlo).
    + intros _. apply (so_valid _ _ _ _ _ SO). rewrite Hr. discriminate.
    + split; discriminate.
    + cbn. rewrite (so_tvalid _ _ _ _ _ SO), Hr. reflexivity.
Qed.

Lemma startup_spec mem stack idle k0 u k :
  reset_state k0 -> rtthread_startup mem stack idle k0 = Some (u, k) -> kinv k /\ k_current k <> None.
Proof.
  intros R H. unfold rtthread_startup in H.
  apply bind_Some in H as ([] & k1 & H1 & H). injection H1 as <-.
  apply bind_Some in H as ([] & k2 & H2 & H). injection H2 as <-.
  set (k2 := k0 <| k_timer_list := [] |> <| k_lock_nest := 0 |> <| k_lists ::= _ |> <| k_group := 0 |>) in H.
  assert (reset_state k2) as R2.
  { destruct R. split; try assumption; try reflexivity. intros l. unfold k2. cbv [set_field]. cbn.
    destruct l; try apply rs_lists. rewrite rs_lists. destruct (_ && _); reflexivity. }
  clearbody k2. pose proof (reset_kinv _ R2) as HK2. pose proof (rs_current _ R2) as Hc2.
  apply bind_Some in H as ([] & k3 & H3 & H).
  assert (preserves no_current (rt_application_init mem stack)) as Pc.
  { unfold rt_application_init, rt_thread_create. preserve. }
  assert (kinv k3 /\ no_current k3) as [HK3 Hc3].
  { split; [|exact (Pc _ _ _ Hc2 H3)]. revert HK2 H3. unfold rt_application_init.
    apply preserves_bind; [apply thread_create_kinv; unfold RT_MAIN_THREAD_PRIORITY; lia|intros o]. preserve. }
  apply bind_Some in H as ([] & k4 & H4 & H). unfold rt_thread_idle_init in H4.
  apply bind_Some in H4 as (r & k5 & H5 & H4). apply bind_Some in H4 as (r' & k6 & H6 & H4). injection H4 as <-.
  assert (kinv k5 /\ no_current k5) as [HK5 Hc5].
  { split.
    - eapply (thread_init_kinv idle (RT_THREAD_PRIORITY_MAX - 1)); [unfold RT_THREAD_PRIORITY_MAX; lia| |exact H5].
      apply no_current_caller; assumption.
    - assert (preserves no_current (rt_thread_init idle (RT_THREAD_PRIORITY_MAX - 1) 32)) as P5
        by (unfold rt_thread_init; preserve). exact (P5 _ _ _ Hc3 H5). }
  assert (kinv k6 /\ no_current k6) as [[I6 Q6] Hc6].
  { split; [|exact (cur_startup _ _ _ _ Hc5 H6)].
    assert (preserves kinv (rt_thread_startup idle)) as P6 by preserve. exact (P6 _ _ _ HK5 H6). }
  destruct (scheduler_start_spec _ _ _ I6 Hc6 H) as (I & t & p & q & Hc & _).
  split; [split; [assumption|]|rewrite Hc; discriminate].
  assert (preserves (quiet (fun _ => False)) rt_system_scheduler_start) as P7
    by (unfold rt_system_scheduler_start; preserve). exact (P7 _ _ _ Q6 H).
Qed.

(** ** Reachable systems *)

Section Reach.
Context (user_timeout : Z -> K unit) (cleanup : Z -> K unit) (evt_notify : Z -> Z -> Z -> K unit) (fuel : nat).
Hypothesis Huser : forall u, preserves (ticking (TUser u)) (user_timeout u).
Hypothesis Hcleanup : forall t, preserves (fun k => kinv_caller k /\ dead t k) (cleanup t).
Hypothesis Hnotify : forall f q e, preserves kinv (evt_notify f q e).

Lemma step_kinv s s' : step user_timeout cleanup evt_notify fuel s s' -> kinv (s_kernel s) -> kinv (s_kernel s').
Proof.
  intros H HK. destruct H as [k pcs t c o k' (Hc & Hi & Hcl) Hp Hok H|k pcs t p o k' Hc Hi Hp H
    |k pcs k' Hi H|k pcs c r out k' Hi Hc Hok Hisr H]; cbn [s_kernel] in *.
  - eapply (exec_preserves cleanup evt_notify fuel Hcleanup Hnotify c Hok); [|exact H]. split; [assumption|].
    intros x th Hx Ht. rewrite Hc in Hx. injection Hx as <-. eauto.
  - eapply resume_preserves; eauto.
  - eapply SysTick_preserves; eauto.
  - apply bind_Some in H as ([] & k1 & H1 & H). pose proof (irq_preserves _ _ _ _ HK H1) as HK1.
    apply bind_Some in H as (o & k2 & H2 & H). pose proof (exec_kinv cleanup evt_notify fuel Hnotify c Hok Hisr _ _ _ HK1 H2) as HK2.
    apply bind_Some in H as ([] & k3 & H3 & H). injection H as _ <-. exact (irq_preserves _ _ _ _ HK2 H3).
Qed.

Lemma reachable_kinv s : reachable user_timeout cleanup evt_notify fuel s -> kinv (s_kernel s).
Proof.
  induction 1 as [k0 mem stack idle k R H|s s' _ IH H].
  - apply (startup_spec _ _ _ _ _ _ R H).
  - eapply step_kinv; eauto.
Qed.
End Reach.
