(* ===== verification/Demo.v ===== *)
(** * Concrete systems

    Stores that the kernel itself builds from a reset, for the examples that
    instantiate the properties. *)

From S2P Require Import Prelude Kernel Timer Sched IpcList Thread Sem Mutex ThreadExit System.
From S2P Require Import KernelInv TimerInv SchedInv ThreadInv TimerIdle ThreadOps IpcOps MutexOps.
From S2P Require Import ExitOps SystemInv.
Open Scope rt_scope.

(** The store after an operation, the store itself when it fails. *)
Definition run {A} (m : K A) (k : kernel) : kernel :=
  match m k with Some (_, k') => k' | None => k end.

Lemma run_kinv {A} (m : K A) k : preserves kinv m -> kinv k -> kinv (run m k).
Proof. intros Hm HK. unfold run. destruct (m k) as [[a k']|] eqn:E; [eapply Hm; eauto|assumption]. Qed.

Lemma run_Some {A} (m : K A) k : is_Some (m k) -> exists a, m k = Some (a, run m k).
Proof. unfold run. destruct (m k) as [[a k']|]; [eauto|intros []; discriminate]. Qed.

Definition k_reset : kernel :=
  mkKernel ∅ (fun _ => []) (fun _ => []) 0 0 None 31 0 0 [] [] ∅ ∅ ∅ ∅ ∅ ∅ ∅ ∅ ∅.

Lemma k_reset_state : reset_state k_reset.
Proof. split; try reflexivity. intros u tm H. discriminate H. Qed.

(** After the boot: the main thread 100 runs at priority 10, the idle thread 200
    is ready at priority 31. *)
Definition k_boot : kernel := run (rtthread_startup (Some 100) (Some 0) 200) k_reset.

Lemma k_boot_eq : rtthread_startup (Some 100) (Some 0) 200 k_reset = Some (tt, k_boot).
Proof.
  destruct (run_Some (rtthread_startup (Some 100) (Some 0) 200) k_reset) as [[] H]; [|exact H].
  destruct (rtthread_startup _ _ _ _) eqn:E; [eauto|].
  assert (match rtthread_startup (Some 100) (Some 0) 200 k_reset with Some _ => true | None => false end = true) as Hs
    by (vm_compute; reflexivity). rewrite E in Hs. discriminate.
Qed.

Lemma k_boot_kinv : kinv k_boot.
Proof. eapply (startup_spec _ _ _ _ _ _ k_reset_state k_boot_eq). Qed.

(** A second thread, 300, at priority [p]. *)
Definition k_two (p : Z) : kernel :=
  run (rt_thread_startup 300) (run (rt_thread_create (Some 300) (Some 0) p 20) k_boot).

Lemma k_two_kinv p : 0 <= p -> kinv (k_two p).
Proof.
  intros Hp. unfold k_two. apply run_kinv; [preserve|]. apply run_kinv; [apply thread_create_kinv, Hp|].
  apply k_boot_kinv.
Qed.

Example k_boot_current : k_current k_boot = Some 100 /\ k_lists k_boot (LReady 31) = [200].
Proof. vm_compute. split; reflexivity. Qed.

Example k_two_queue : k_lists (k_two 10) (LReady 10) = [300] /\ k_current (k_two 5) = Some 300.
Proof. vm_compute. split; reflexivity. Qed.

(** A decision procedure for the empty queues above a priority. *)
Definition queues_empty (k : kernel) (n : Z) : bool :=
  forallb (fun p => bool_decide (k_lists k (LReady p) = [])) (seqZ 0 n).

Lemma queues_empty_spec k n : queues_empty k n = true -> forall p, 0 <= p < n -> k_lists k (LReady p) = [].
Proof.
  unfold queues_empty. rewrite forallb_forall. intros H p Hp.
  assert (In p (seqZ 0 n)) as Hin by (apply list_elem_of_In, elem_of_seqZ; lia).
  apply H in Hin. bool_to_prop. exact Hin.
Qed.

Lemma iter_kinv {A} (m : K A) n k : preserves kinv m -> kinv k -> kinv (Nat.iter n (run m) k).
Proof. intros Hm HK. induction n as [|n IH]; [exact HK|]. apply run_kinv; [exact Hm|exact IH]. Qed.

(** The record of a thread of a concrete store. *)
Definition thread_of (k : kernel) (t : Z) : thread := default (new_thread false) (k_threads k !! t).
