(* ===== verification/RtListProps.v ===== *)
(** * The linked lists refine lists

    The list operations of the model in Kernel.v are on lists of threads; here the
    pointer code of rtservice.h is shown to do the same on circular lists. *)

From S2P Require Import Prelude Kernel Demo.
From S2P Require RtList.
Import RtList (mkListNode, next, prev).
Open Scope rt_scope.

Section Path.
Context {C : Type} `{EqDecision C}.
Implicit Types (h : C -> RtList.rt_list_node C) (l x y p q n t : C) (ns a b : list C).

(** From [x] through the cells [ns] to [y], in both directions. *)
Fixpoint path h x ns y : Prop :=
  match ns with
  | [] => next (h x) = y /\ prev (h y) = x
  | n :: ns => next (h x) = n /\ prev (h n) = x /\ path h n ns y
  end.

Lemma path_app h x a t b y : path h x (a ++ t :: b) y <-> path h x a t /\ path h t b y.
Proof. revert x. induction a as [|z a IH]; intros x; cbn; [tauto|]. rewrite IH. tauto. Qed.

(** A path does not see what happens to other cells. *)
Lemma path_frame h h' x ns y :
  path h x ns y -> (forall z, z ∈ x :: ns -> next (h' z) = next (h z)) ->
  (forall z, z ∈ ns ++ [y] -> prev (h' z) = prev (h z)) -> path h' x ns y.
Proof.
  revert x. induction ns as [|n ns IH]; intros x; cbn.
  - intros [Hn Hp] F G. rewrite F, G by left. auto.
  - intros (Hn & Hp & Hl) F G. rewrite F, G by left. split; [exact Hn|]. split; [exact Hp|].
    apply IH; [exact Hl| |]; intros z Hz; [apply F|apply G]; right; exact Hz.
Qed.

Lemma set_next_next l x h y : next (RtList.set_next l x h y) = if decide (y = l) then x else next (h y).
Proof. unfold RtList.set_next. destruct (decide (y = l)) as [->|]; [rewrite fn_lookup_insert|rewrite fn_lookup_insert_ne]; auto. Qed.
Lemma set_next_prev l x h y : prev (RtList.set_next l x h y) = prev (h y).
Proof. unfold RtList.set_next. destruct (decide (y = l)) as [->|]; [rewrite fn_lookup_insert|rewrite fn_lookup_insert_ne]; auto. Qed.
Lemma set_prev_next l x h y : next (RtList.set_prev l x h y) = next (h y).
Proof. unfold RtList.set_prev. destruct (decide (y = l)) as [->|]; [rewrite fn_lookup_insert|rewrite fn_lookup_insert_ne]; auto. Qed.
Lemma set_prev_prev l x h y : prev (RtList.set_prev l x h y) = if decide (y = l) then x else prev (h y).
Proof. unfold RtList.set_prev. destruct (decide (y = l)) as [->|]; [rewrite fn_lookup_insert|rewrite fn_lookup_insert_ne]; auto. Qed.
End Path.

Create Rewrite HintDb rt_links.
#[export] Hint Rewrite @set_next_next @set_next_prev @set_prev_next @set_prev_prev : rt_links.

(** Case analysis on the cells that an operation writes. *)
Ltac cells :=
  autorewrite with rt_links;
  repeat (case_decide; subst; autorewrite with rt_links; try congruence); try congruence.

Section Splice.
Context {C : Type} `{EqDecision C}.
Implicit Types (h : C -> RtList.rt_list_node C) (l x y z p q n t : C) (ns a b : list C).

(** What an insertion of [n] between [p] and [q], and the removal of [t] from
    between them, make of the cells. *)
Definition spliced h h' p n q : Prop :=
  (forall x, next (h' x) = if decide (x = p) then n else if decide (x = n) then q else next (h x)) /\
  (forall x, prev (h' x) = if decide (x = n) then p else if decide (x = q) then n else prev (h x)).
Definition cut h h' p t q : Prop :=
  (forall x, next (h' x) = if decide (x = t) then t else if decide (x = p) then q else next (h x)) /\
  (forall x, prev (h' x) = if decide (x = t) then t else if decide (x = q) then p else prev (h x)).

Lemma insert_after_spliced h p n : n <> p -> n <> next (h p) -> spliced h (RtList.rt_list_insert_after p n h) p n (next (h p)).
Proof. intros H1 H2. unfold RtList.rt_list_insert_after. split; intros x; cells. Qed.

Lemma insert_before_spliced h n q : n <> prev (h q) -> n <> q -> spliced h (RtList.rt_list_insert_before q n h) (prev (h q)) n q.
Proof. intros H1 H2. unfold RtList.rt_list_insert_before. split; intros x; cells. Qed.

Lemma remove_cut h t : prev (h t) <> t -> next (h t) <> t -> cut h (RtList.rt_list_remove t h) (prev (h t)) t (next (h t)).
Proof. intros H1 H2. unfold RtList.rt_list_remove. split; intros x; cells. Qed.

(** The cells around the place between [a] and [b]. *)
Definition before x a : C := default x (last a).
Definition behind b y : C := default y (head b).

Lemma before_cons x z a : before x (z :: a) = before z a.
Proof. unfold before. rewrite last_cons. destruct (last a); reflexivity. Qed.
Lemma before_in x a : before x a ∈ x :: a.
Proof.
  revert x. induction a as [|z a IH]; intros x; [left|]. rewrite before_cons. right. apply IH.
Qed.
Lemma behind_in b y : behind b y ∈ b ++ [y].
Proof. destruct b; left. Qed.

Lemma splice_path h h' n b y : forall a x,
  spliced h h' (before x a) n (behind b y) -> path h x (a ++ b) y ->
  n ∉ x :: (a ++ b) ++ [y] -> NoDup (x :: a ++ b) -> NoDup ((a ++ b) ++ [y]) -> path h' x (a ++ n :: b) y.
Proof.
  induction a as [|z a IH]; intros x Hs Hl Hf N1 N2.
  - destruct Hs as [Hn Hp]. unfold before in *. cbn [last default app] in *.
    apply NoDup_cons in N1 as [N1 _].
    assert (n <> behind b y) as Hnb by (intros ->; apply Hf; right; apply behind_in).
    assert (n <> x) as Hnx by (intros ->; apply Hf; left).
    cbn [path]. split; [rewrite Hn, decide_True by reflexivity; reflexivity|].
    split; [rewrite Hp, decide_True by reflexivity; reflexivity|]. destruct b as [|q b]; cbn in *.
    + split; [rewrite Hn, decide_False, decide_True by congruence; reflexivity|].
      rewrite Hp, decide_False, decide_True by congruence. reflexivity.
    + split; [rewrite Hn, decide_False, decide_True by congruence; reflexivity|].
      split; [rewrite Hp, decide_False, decide_True by congruence; reflexivity|]. apply NoDup_cons in N2 as [N2 _].
      eapply path_frame; [apply Hl| |]; intros w Hw.
      * rewrite Hn, !decide_False; [reflexivity|intros ->; apply Hf|intros ->; contradiction].
        right. apply (elem_of_app (q :: b)). left. exact Hw.
      * rewrite Hp, !decide_False; [reflexivity|intros ->; contradiction|intros ->; apply Hf]. do 2 right. exact Hw.
  - rewrite before_cons in Hs. cbn [app path] in *. destruct Hl as (L1 & L2 & Hl).
    apply NoDup_cons in N1 as [X1 N1]. apply NoDup_cons in N2 as [X2 N2]. pose proof Hs as [Hn Hp].
    split; [|split; [|apply IH; try assumption; intros Hw; apply Hf; right; exact Hw]].
    + rewrite Hn, !decide_False; [exact L1|intros ->; apply Hf; left|]. intros E. apply X1. rewrite E.
      pose proof (before_in z a) as Hb. rewrite elem_of_cons in Hb. destruct Hb as [->|Hb]; [left|right; apply elem_of_app; auto].
    + rewrite Hp, !decide_False; [exact L2| |intros ->; apply Hf; right; left]. intros E. apply X2. rewrite E, <- app_assoc.
      apply elem_of_app. right. apply behind_in.
Qed.

Lemma cut_path h h' t b y : forall a x,
  cut h h' (before x a) t (behind b y) -> path h x (a ++ t :: b) y ->
  NoDup (x :: a ++ t :: b) -> NoDup ((a ++ t :: b) ++ [y]) -> path h' x (a ++ b) y.
Proof.
  induction a as [|z a IH]; intros x Hs Hl N1 N2.
  - destruct Hs as [Hn Hp]. unfold before in *. cbn [last default app path] in *. destruct Hl as (_ & _ & Hl).
    apply NoDup_cons in N1 as [X1 N1]. apply NoDup_cons in N1 as [T1 N1]. apply NoDup_cons in N2 as [T2 N2].
    assert (x <> t) as Hxt by (intros ->; apply X1; left).
    assert (t <> behind b y) as Htb by (intros E; apply T2; rewrite E; apply behind_in).
    destruct b as [|q b]; cbn in *.
    + split; [rewrite Hn, decide_False, decide_True by congruence; reflexivity|].
      rewrite Hp, decide_False, decide_True by congruence. reflexivity.
    + split; [rewrite Hn, decide_False, decide_True by congruence; reflexivity|].
      split; [rewrite Hp, decide_False, decide_True by congruence; reflexivity|]. apply NoDup_cons in N2 as [Q2 N2].
      eapply path_frame; [apply Hl| |]; intros w Hw.
      * rewrite Hn, !decide_False; [reflexivity|intros ->; apply X1; right; exact Hw|intros ->; contradiction].
      * rewrite Hp, !decide_False; [reflexivity|intros ->; contradiction|intros ->; apply T2; right; exact Hw].
  - rewrite before_cons in Hs. cbn [app path] in *. destruct Hl as (L1 & L2 & Hl).
    apply NoDup_cons in N1 as [X1 N1]. apply NoDup_cons in N2 as [X2 N2]. pose proof Hs as [Hn Hp].
    split; [|split; [|apply IH; assumption]].
    + rewrite Hn, !decide_False; [exact L1| |intros ->; apply X1; right; apply elem_of_app; right; left].
      intros E. apply X1. rewrite E.
      pose proof (before_in z a) as Hb. rewrite elem_of_cons in Hb. destruct Hb as [->|Hb]; [left|right; apply elem_of_app; auto].
    + rewrite Hp, !decide_False; [exact L2| |intros ->; apply X2; rewrite <- app_assoc; apply elem_of_app; right; left].
      intros E. apply X2. rewrite E, <- app_assoc. apply elem_of_app. right. right. apply behind_in.
Qed.

(** ** Circular lists *)

Definition circ h l ns : Prop := path h l ns l /\ NoDup (l :: ns).

Lemma circ_ends l ns : NoDup (l :: ns) -> NoDup (ns ++ [l]).
Proof. intros [H1 H2]%NoDup_cons. apply NoDup_app. split; [exact H2|]. split; [|apply NoDup_singleton].
  intros x Hx ->%list_elem_of_singleton. contradiction. Qed.

(** The neighbours of a place are what the pointers there say. *)
Lemma path_next h x a b y : path h x (a ++ b) y -> next (h (before x a)) = behind b y.
Proof.
  revert x. induction a as [|z a IH]; intros x; [|rewrite before_cons; intros (_ & _ & H); apply IH, H].
  destruct b; cbn; intros H; apply H.
Qed.
Lemma path_prev h x a b y : path h x (a ++ b) y -> prev (h (behind b y)) = before x a.
Proof.
  revert x. induction a as [|z a IH]; intros x; [|rewrite before_cons; intros (_ & _ & H); apply IH, H].
  destruct b; cbn; intros H; apply H.
Qed.

Lemma circ_spliced h h' l n a b :
  spliced h h' (before l a) n (behind b l) -> circ h l (a ++ b) -> n ∉ l :: a ++ b -> circ h' l (a ++ n :: b).
Proof.
  intros Hs [Hp Hn] Hf. split.
  - eapply splice_path; [exact Hs|exact Hp| |exact Hn|apply circ_ends, Hn].
    intros Hin. apply Hf. rewrite elem_of_cons, elem_of_app, list_elem_of_singleton in Hin. rewrite elem_of_cons. tauto.
  - assert (Permutation (l :: a ++ n :: b) (n :: l :: a ++ b)) as ->
      by (rewrite <- Permutation_middle; apply perm_swap).
    apply NoDup_cons. auto.
Qed.

Lemma circ_cut h h' l t a b :
  cut h h' (before l a) t (behind b l) -> circ h l (a ++ t :: b) -> circ h' l (a ++ b).
Proof.
  intros Hs [Hp Hn]. split; [eapply cut_path; [exact Hs|exact Hp|exact Hn|apply circ_ends, Hn]|].
  assert (Permutation (l :: a ++ t :: b) (t :: l :: a ++ b)) as Hperm by (rewrite <- Permutation_middle; apply perm_swap).
  rewrite Hperm in Hn. apply NoDup_cons in Hn as [_ Hn]. exact Hn.
Qed.

(** Other cells keep a circular list. *)
Lemma circ_frame h h' l ns : circ h l ns -> (forall z, z ∈ l :: ns -> h' z = h z) -> circ h' l ns.
Proof.
  intros [Hp Hn] F. split; [|exact Hn]. eapply path_frame; [exact Hp| |]; intros z Hz; rewrite F; try reflexivity; [exact Hz|].
  apply elem_of_app in Hz as [Hz| ->%list_elem_of_singleton]; [right; exact Hz|left].
Qed.

Lemma node_eta h h' z : next (h' z) = next (h z) -> prev (h' z) = prev (h z) -> h' z = h z.
Proof. destruct (h z), (h' z). cbn. congruence. Qed.

Lemma spliced_other h h' p n q z : spliced h h' p n q -> z <> p -> z <> n -> z <> q -> h' z = h z.
Proof. intros [Hn Hp] ? ? ?. apply node_eta; [rewrite Hn|rewrite Hp]; rewrite !decide_False by assumption; reflexivity. Qed.
Lemma cut_other h h' p t q z : cut h h' p t q -> z <> p -> z <> t -> z <> q -> h' z = h z.
Proof. intros [Hn Hp] ? ? ?. apply node_eta; [rewrite Hn|rewrite Hp]; rewrite !decide_False by assumption; reflexivity. Qed.
End Splice.

(** ** The lists of the kernel

    [list_rep h ls]: on the heap [h] every list head [l] heads the circular list
    of the nodes [ls l]; no node is in two lists, and a node that is in none points
    at itself, as after rt_list_init and rt_list_remove. *)

Section Lists.
Context {L T : Type} `{EqDecision L, EqDecision T}.
Abbreviation cell := (L + T)%type.
Implicit Types (h : cell -> RtList.rt_list_node cell) (ls : L -> list T) (l : L) (t : T).

Record list_rep h ls : Prop := {
  lr_circ : forall l, circ h (inl l) (inr <$> ls l);
  lr_disjoint : forall l l' t, t ∈ ls l -> t ∈ ls l' -> l = l';
  lr_free : forall t, (forall l, t ∉ ls l) -> h (inr t) = mkListNode (inr t) (inr t);
}.

Lemma before_cell l (a : list T) : before (inl l : cell) (inr <$> a) = inl l \/ exists t, t ∈ a /\ before (inl l : cell) (inr <$> a) = inr t.
Proof.
  unfold before. rewrite fmap_last. destruct (last a) as [t|] eqn:E; [right; exists t|left; reflexivity].
  split; [apply last_Some in E as (a' & ->); apply elem_of_app; right; left|reflexivity].
Qed.
Lemma behind_cell l (b : list T) : behind (inr <$> b) (inl l : cell) = inl l \/ exists t, t ∈ b /\ behind (inr <$> b) (inl l : cell) = inr t.
Proof. destruct b as [|t b]; [left; reflexivity|right; exists t; split; [left|reflexivity]]. Qed.

(** The cells of another list are not those around a place of [l]. *)
Lemma other_cells ls l l' a b (z : cell) :
  (forall l l' t, t ∈ ls l -> t ∈ ls l' -> l = l') -> l' <> l -> (forall t, t ∈ a \/ t ∈ b -> t ∈ ls l) ->
  z ∈ inl l' :: (inr <$> ls l') ->
  z <> before (inl l : cell) (inr <$> a) /\ z <> behind (inr <$> b) (inl l : cell).
Proof.
  intros Hd Hne Hab Hz. assert (forall t, t ∈ ls l -> z <> inr t) as Ht.
  { intros t Ht ->. rewrite elem_of_cons, list_elem_of_fmap in Hz. destruct Hz as [Hz|(t' & [= <-] & Ht')]; [discriminate|].
    apply Hne. eapply Hd; eassumption. }
  assert (z <> inl l) as Hl.
  { intros ->. rewrite elem_of_cons, list_elem_of_fmap in Hz. destruct Hz as [[= ->]|(t' & Hz & _)]; [contradiction|discriminate]. }
  split.
  - destruct (before_cell l a) as [-> |(t & Hin & ->)]; auto.
  - destruct (behind_cell l b) as [-> |(t & Hin & ->)]; auto.
Qed.

Lemma splice_rep h h' ls l a b t :
  list_rep h ls -> ls l = a ++ b -> (forall l, t ∉ ls l) ->
  spliced h h' (before (inl l) (inr <$> a)) (inr t) (behind (inr <$> b) (inl l)) ->
  list_rep h' (<[l := a ++ t :: b]> ls).
Proof.
  intros [Hc Hd Hf] El Ht Hs. split.
  - intros l'. destruct (decide (l' = l)) as [->|Hne].
    + rewrite fn_lookup_insert, fmap_app, fmap_cons. eapply circ_spliced; [exact Hs| |].
      * rewrite <- fmap_app, <- El. apply Hc.
      * rewrite <- fmap_app, <- El, elem_of_cons, list_elem_of_fmap. intros [?|(t' & [= <-] & Hin)]; [discriminate|exact (Ht l Hin)].
    + rewrite fn_lookup_insert_ne by congruence. eapply circ_frame; [apply Hc|]. intros z Hz.
      destruct (other_cells ls l l' a b z Hd Hne) as [H1 H2]; [intros t'; rewrite El, elem_of_app; tauto|exact Hz|].
      eapply spliced_other; [exact Hs|exact H1| |exact H2]. intros ->.
      rewrite elem_of_cons, list_elem_of_fmap in Hz. destruct Hz as [?|(t' & [= <-] & Hin)]; [discriminate|exact (Ht l' Hin)].
  - assert (forall l' t', t' ∈ (<[l := a ++ t :: b]> ls) l' -> t' = t /\ l' = l \/ t' ∈ ls l') as Hin.
    { intros l' t' H. destruct (decide (l' = l)) as [->|Hne]; [rewrite fn_lookup_insert in H|rewrite fn_lookup_insert_ne in H by congruence; auto].
      rewrite El. rewrite elem_of_app, elem_of_cons in *. tauto. }
    intros l1 l2 t' H1%Hin H2%Hin. destruct H1 as [[-> ->]|H1], H2 as [[E2 ->]|H2]; try reflexivity.
    + destruct (Ht _ H2).
    + rewrite E2 in H1. destruct (Ht _ H1).
    + eapply Hd; eassumption.
  - intros t' Hn. assert (t' <> t) as Hne.
    { intros ->. apply (Hn l). rewrite fn_lookup_insert. apply elem_of_app. right. left. }
    assert (forall l', t' ∉ ls l') as Hn'.
    { intros l' H. apply (Hn l'). destruct (decide (l' = l)) as [->|]; [|rewrite fn_lookup_insert_ne; congruence].
      rewrite fn_lookup_insert. rewrite El in H. rewrite elem_of_app, elem_of_cons in *. tauto. }
    rewrite <- (Hf t' Hn'). eapply spliced_other; [exact Hs| |congruence|].
    + destruct (before_cell l a) as [-> |(t1 & Hin & ->)]; [discriminate|]. intros [= <-]. apply (Hn' l). rewrite El. apply elem_of_app. auto.
    + destruct (behind_cell l b) as [-> |(t1 & Hin & ->)]; [discriminate|]. intros [= <-]. apply (Hn' l). rewrite El. apply elem_of_app. auto.
Qed.

Lemma list_rep_ext h ls ls' : list_rep h ls -> (forall l, ls' l = ls l) -> list_rep h ls'.
Proof.
  intros [Hc Hd Hf] E. split.
  - intros l. rewrite E. apply Hc.
  - intros l l' t. rewrite !E. apply Hd.
  - intros t H. apply Hf. intros l. rewrite <- E. apply H.
Qed.

(** The place of an element, and what the pointers there say. *)
Lemma place_in h ls l t : list_rep h ls -> t ∈ ls l -> exists a b, ls l = a ++ t :: b /\ (t ∉ a) /\ (t ∉ b) /\
  prev (h (inr t)) = before (inl l) (inr <$> a) /\ next (h (inr t)) = behind (inr <$> b) (inl l).
Proof.
  intros R Hin. destruct (list_elem_of_split _ _ Hin) as (a & b & E). exists a, b. split; [exact E|].
  pose proof (lr_circ _ _ R l) as [Hp Hn]. rewrite E, fmap_app, fmap_cons in *.
  apply NoDup_cons in Hn as [_ Hn]. rewrite <- fmap_cons, <- fmap_app in Hn. apply NoDup_fmap_1 in Hn.
  apply NoDup_app in Hn as (_ & Hab & Hb). apply NoDup_cons in Hb as [Hb _].
  split; [intros H; apply (Hab t H); left|]. split; [exact Hb|]. split.
  - exact (path_prev _ _ _ (inr t :: (inr <$> b)) _ Hp).
  - apply path_app in Hp as [_ Hp]. exact (path_next _ _ [] (inr <$> b) _ Hp).
Qed.

Lemma cut_rep h h' ls l a b t :
  list_rep h ls -> ls l = a ++ t :: b -> t ∉ a -> t ∉ b ->
  cut h h' (before (inl l) (inr <$> a)) (inr t) (behind (inr <$> b) (inl l)) ->
  list_rep h' (<[l := a ++ b]> ls).
Proof.
  intros [Hc Hd Hf] El Ha Hb Hs.
  assert (forall l', l' <> l -> t ∉ ls l') as Ht.
  { intros l' Hne H. apply Hne. eapply Hd; [exact H|]. rewrite El. apply elem_of_app. right. left. }
  assert (forall l' t', t' ∈ (<[l := a ++ b]> ls) l' -> t' <> t /\ t' ∈ ls l') as Hin.
  { intros l' t' H. destruct (decide (l' = l)) as [->|Hne].
    - rewrite fn_lookup_insert in H. split; [intros ->; apply elem_of_app in H as [?|?]; contradiction|].
      rewrite El. rewrite elem_of_app, elem_of_cons in *. tauto.
    - rewrite fn_lookup_insert_ne in H by congruence. split; [intros ->; exact (Ht l' Hne H)|exact H]. }
  split.
  - intros l'. destruct (decide (l' = l)) as [->|Hne].
    + rewrite fn_lookup_insert, fmap_app. eapply circ_cut; [exact Hs|]. rewrite <- fmap_cons, <- fmap_app, <- El. apply Hc.
    + rewrite fn_lookup_insert_ne by congruence. eapply circ_frame; [apply Hc|]. intros z Hz.
      destruct (other_cells ls l l' a b z Hd Hne) as [H1 H2]; [intros t'; rewrite El, elem_of_app, elem_of_cons; tauto|exact Hz|].
      eapply cut_other; [exact Hs|exact H1| |exact H2]. intros ->.
      rewrite elem_of_cons, list_elem_of_fmap in Hz. destruct Hz as [?|(t' & [= <-] & H)]; [discriminate|exact (Ht l' Hne H)].
  - intros l1 l2 t' [_ H1]%Hin [_ H2]%Hin. eapply Hd; eassumption.
  - intros t' Hn. destruct (decide (t' = t)) as [->|Hne].
    { destruct Hs as [Hnx Hpv]. destruct (h' (inr t)) as [x y] eqn:E.
      pose proof (Hnx (inr t)) as Ex. pose proof (Hpv (inr t)) as Ey. rewrite E, decide_True in Ex, Ey by reflexivity. cbn in *. congruence. }
    assert (forall l', t' ∉ ls l') as Hn'.
    { intros l' H. apply (Hn l'). destruct (decide (l' = l)) as [->|]; [|rewrite fn_lookup_insert_ne; congruence].
      rewrite fn_lookup_insert. rewrite El in H. rewrite elem_of_app, elem_of_cons in *. tauto. }
    rewrite <- (Hf t' Hn'). eapply cut_other; [exact Hs| |congruence|].
    + destruct (before_cell l a) as [-> |(t1 & H & ->)]; [discriminate|]. intros [= <-]. apply (Hn' l). rewrite El. apply elem_of_app. auto.
    + destruct (behind_cell l b) as [-> |(t1 & H & ->)]; [discriminate|]. intros [= <-]. apply (Hn' l). rewrite El. apply elem_of_app. right. right. exact H.
Qed.

Lemma remove_free_rep h ls t : list_rep h ls -> (forall l, t ∉ ls l) -> list_rep (RtList.rt_list_remove (inr t) h) ls.
Proof.
  intros R Hn. pose proof (lr_free _ _ R t Hn) as Hfree.
  assert (forall z, RtList.rt_list_remove (inr t) h z = h z) as Eh.
  { assert (forall h', (forall z, h' z = h z) -> forall z, RtList.set_prev (inr t) (inr t) h' z = h z /\
      RtList.set_next (inr t) (inr t) h' z = h z) as Hself.
    { intros h' E z. pose proof (E (inr t)) as Et. rewrite Hfree in Et.
      split; (rewrite <- (E z); apply node_eta; autorewrite with rt_links; try case_decide; subst; rewrite ?Et; reflexivity). }
    assert (RtList.rt_list_remove (inr t) h =
      RtList.set_next (inr t) (inr t) (RtList.set_prev (inr t) (inr t)
        (RtList.set_next (inr t) (inr t) (RtList.set_prev (inr t) (inr t) h)))) as ->.
    { unfold RtList.rt_list_remove. rewrite !set_prev_next, !set_prev_prev. rewrite Hfree. cbn [next prev]. cells. }
    intros z. apply Hself. intros z1. apply Hself. intros z2. apply Hself. intros z3. apply Hself. reflexivity. }
  split.
  - intros l. eapply circ_frame; [apply R|]. intros z _. apply Eh.
  - apply R.
  - intros t' H. rewrite Eh. apply R, H.
Qed.

Lemma remove_in_rep h ls l t : list_rep h ls -> t ∈ ls l ->
  list_rep (RtList.rt_list_remove (inr t) h) (fun l => filter (fun x => x <> t) (ls l)).
Proof.
  intros R Hin. destruct (place_in h ls l t R Hin) as (a & b & El & Ha & Hb & Ep & En).
  apply (list_rep_ext _ (<[l := a ++ b]> ls)).
  - eapply cut_rep; [exact R|exact El|exact Ha|exact Hb|]. rewrite <- Ep, <- En. apply remove_cut.
    + rewrite Ep. destruct (before_cell l a) as [-> |(t' & H & ->)]; [discriminate|]. intros [= ->]. contradiction.
    + rewrite En. destruct (behind_cell l b) as [-> |(t' & H & ->)]; [discriminate|]. intros [= ->]. contradiction.
  - intros l'. destruct (decide (l' = l)) as [->|Hne].
    + rewrite fn_lookup_insert, El, filter_app, filter_cons_False by (intros H; apply H; reflexivity).
      rewrite !filter_ne_notin by assumption. reflexivity.
    + rewrite fn_lookup_insert_ne by congruence. apply filter_ne_notin. intros H. apply Hne. eapply (lr_disjoint _ _ R); eassumption.
Qed.

(** Insertion at the two ends and before an element. *)
Lemma insert_head_rep h ls l t : list_rep h ls -> (forall l, t ∉ ls l) ->
  list_rep (RtList.rt_list_insert_after (inl l) (inr t) h) (<[l := t :: ls l]> ls).
Proof.
  intros R Ht. apply (splice_rep h _ ls l [] (ls l) t R eq_refl Ht).
  pose proof (lr_circ _ _ R l) as [Hp _]. pose proof (path_next _ _ [] (inr <$> ls l) _ Hp) as En. cbn in En.
  rewrite <- En. apply insert_after_spliced; [discriminate|]. rewrite En.
  destruct (behind_cell l (ls l)) as [-> |(t' & H & ->)]; [discriminate|]. intros [= ->]. exact (Ht l H).
Qed.

Lemma insert_before_rep h ls l a b t : list_rep h ls -> ls l = a ++ b -> (forall l, t ∉ ls l) ->
  list_rep (RtList.rt_list_insert_before (behind (inr <$> b) (inl l)) (inr t) h) (<[l := a ++ t :: b]> ls).
Proof.
  intros R El Ht. apply (splice_rep h _ ls l a b t R El Ht).
  pose proof (lr_circ _ _ R l) as [Hp _]. rewrite El, fmap_app in Hp. rewrite <- (path_prev _ _ _ _ _ Hp).
  apply insert_before_spliced.
  - rewrite (path_prev _ _ _ _ _ Hp). destruct (before_cell l a) as [-> |(t' & H & ->)]; [discriminate|].
    intros [= ->]. apply (Ht l). rewrite El. apply elem_of_app. auto.
  - destruct (behind_cell l b) as [-> |(t' & H & ->)]; [discriminate|].
    intros [= ->]. apply (Ht l). rewrite El. apply elem_of_app. auto.
Qed.

Lemma isempty_rep h ls l : list_rep h ls -> RtList.rt_list_isempty (inl l) h = bool_decide (ls l = []).
Proof.
  intros R. pose proof (lr_circ _ _ R l) as [Hp _]. unfold RtList.rt_list_isempty. apply bool_decide_ext.
  destruct (ls l) as [|t ts]; cbn in Hp; destruct Hp as [-> _]; split; (discriminate || reflexivity).
Qed.

(** The walk of rt_list_len ends and counts. *)
Lemma len_loop h (c : cell) (b : list cell) : forall p len fuel, path h p b c -> c ∉ b -> (length b < fuel)%nat ->
  RtList.list_len_loop fuel c p len h = Some (match b with [] => len | _ => u32 (len + Z.of_nat (length b)) end).
Proof.
  induction b as [|n b IH]; intros p len [|fuel] Hp Hn Hf; cbn in *; try lia.
  - destruct Hp as [-> _]. rewrite bool_decide_eq_true_2 by reflexivity. reflexivity.
  - destruct Hp as (-> & _ & Hp). apply not_elem_of_cons in Hn as [Hl Hn].
    rewrite bool_decide_eq_false_2 by congruence. rewrite (IH n _ fuel Hp Hn) by lia. f_equal.
    destruct b; [reflexivity|]. unfold u32. rewrite Zplus_mod_idemp_l. f_equal. cbn [length]. lia.
Qed.

Lemma list_len_rep h ls l fuel : list_rep h ls -> (length (ls l) < fuel)%nat ->
  RtList.rt_list_len fuel (inl l) h = Some (u32 (Z.of_nat (length (ls l)))).
Proof.
  intros R Hf. pose proof (lr_circ _ _ R l) as [Hp Hn]. apply NoDup_cons in Hn as [Hn _].
  unfold RtList.rt_list_len. rewrite (len_loop h (inl l) (inr <$> ls l) (inl l) 0 fuel Hp Hn) by (rewrite length_fmap; exact Hf).
  rewrite length_fmap. destruct (ls l); reflexivity.
Qed.
End Lists.

(** ** The theorem for the kernel *)

(** C24: The pointer code of rt_list_t implements the lists of the model.  When
    the heap represents the thread lists of the kernel, rt_list_remove takes the
    thread out of whatever list it is in and leaves its node pointing at itself,
    rt_list_insert_before and rt_list_insert_after put a free node at the end and
    at the front, before a thread of a list they put it there, and isempty and len
    answer for that list; len ends after one round for each element.  *)
Theorem list_ops_refine h k l t :
  list_rep h (k_lists k) ->
  ((exists l, t ∈ k_lists k l) \/ (forall l, t ∉ k_lists k l) ->
   exists k', rt_list_remove t k = Some (tt, k') /\ list_rep (RtList.rt_list_remove (inr t) h) (k_lists k')) /\
  ((forall l, t ∉ k_lists k l) ->
   (exists k', rt_list_insert_before l t k = Some (tt, k') /\ list_rep (RtList.rt_list_insert_before (inl l) (inr t) h) (k_lists k')) /\
   (exists k', rt_list_insert_after l t k = Some (tt, k') /\ list_rep (RtList.rt_list_insert_after (inl l) (inr t) h) (k_lists k')) /\
   (forall a t' b, k_lists k l = a ++ t' :: b ->
      list_rep (RtList.rt_list_insert_before (inr t') (inr t) h) (<[l := a ++ t :: t' :: b]> (k_lists k)))) /\
  rt_list_isempty l k = Some (RtList.rt_list_isempty (inl l) h, k) /\
  (forall fuel, (length (k_lists k l) < fuel)%nat ->
     RtList.rt_list_len fuel (inl l) h = Some (u32 (Z.of_nat (length (k_lists k l))))).
Proof.
  intros R. split; [|split; [|split; [|intros fuel; apply list_len_rep, R]]].
  - intros Ht. eexists. split; [reflexivity|]. destruct Ht as [(l' & Hin)|Hn]; [exact (remove_in_rep h _ l' t R Hin)|].
    eapply list_rep_ext; [apply remove_free_rep; eassumption|]. intros l'. apply filter_ne_notin, Hn.
  - intros Hn. split; [|split].
    + eexists. split; [reflexivity|]. exact (insert_before_rep h _ l (k_lists k l) [] t R (eq_sym (app_nil_r _)) Hn).
    + eexists. split; [reflexivity|]. exact (insert_head_rep h _ l t R Hn).
    + intros a t' b El. exact (insert_before_rep h _ l a (t' :: b) t R El Hn).
  - unfold rt_list_isempty, st_gets. rewrite (isempty_rep h _ l R). reflexivity.
Qed.

(** ** Singly linked lists *)

Section Slist.
Context {C : Type} `{EqDecision C}.
Implicit Types (h : C -> option C) (l x n : C) (ns : list C).

Fixpoint schain h x ns : Prop :=
  match ns with [] => h x = None | n :: ns => h x = Some n /\ schain h n ns end.
(** [l] heads the list of the nodes [ns]. *)
Definition slist h l ns : Prop := schain h l ns /\ NoDup (l :: ns).

Lemma schain_frame h h' x ns : schain h x ns -> (forall z, z ∈ x :: ns -> h' z = h z) -> schain h' x ns.
Proof.
  revert x. induction ns as [|n ns IH]; intros x; cbn; [intros H F; rewrite F by left; exact H|].
  intros [H1 H2] F. rewrite F by left. split; [exact H1|]. apply IH; [exact H2|]. intros z Hz. apply F. right. exact Hz.
Qed.

Lemma slist_end_eq h ns : forall x fuel, schain h x ns -> (length ns < fuel)%nat -> RtList.slist_end fuel x h = Some (before x ns).
Proof.
  induction ns as [|n ns IH]; intros x [|fuel] H Hf; cbn in *; try lia.
  - rewrite H. reflexivity.
  - destruct H as [-> H]. rewrite (IH n fuel H) by lia. f_equal. symmetry. apply before_cons.
Qed.

Lemma schain_append h n ns : forall x, schain h x ns -> NoDup (x :: ns) -> n ∉ x :: ns ->
  schain (<[n := None]> (<[before x ns := Some n]> h)) x (ns ++ [n]).
Proof.
  induction ns as [|z ns IH]; intros x H Hd Hn.
  - apply not_elem_of_cons in Hn as [Hn _]. unfold before. cbn. rewrite fn_lookup_insert_ne, !fn_lookup_insert by congruence. auto.
  - rewrite before_cons. destruct H as [H1 H2]. apply NoDup_cons in Hd as [Hx Hd]. apply not_elem_of_cons in Hn as [Hn1 Hn].
    cbn [app schain]. split; [|apply IH; assumption]. pose proof (before_in z ns) as Hb.
    rewrite !fn_lookup_insert_ne; [exact H1|intros E; apply Hx; rewrite <- E; exact Hb|congruence].
Qed.

Lemma slist_find_in h n b : forall a x fuel, schain h x (a ++ n :: b) -> n ∉ a -> (length a < fuel)%nat ->
  RtList.slist_find fuel x n h = Some (before x a).
Proof.
  induction a as [|z a IH]; intros x [|fuel] H Hn Hf; cbn in *; try lia.
  - destruct H as [-> _]. rewrite bool_decide_eq_true_2 by reflexivity. reflexivity.
  - destruct H as [-> H]. apply not_elem_of_cons in Hn as [Hz Hn]. rewrite bool_decide_eq_false_2 by congruence.
    rewrite (IH z fuel H Hn) by lia. f_equal. symmetry. apply before_cons.
Qed.

Lemma slist_find_notin h n ns : forall x fuel, schain h x ns -> n ∉ ns -> (length ns < fuel)%nat ->
  RtList.slist_find fuel x n h = Some (before x ns) /\ h (before x ns) = None.
Proof.
  induction ns as [|z ns IH]; intros x [|fuel] H Hn Hf; cbn in *; try lia.
  - rewrite H. auto.
  - destruct H as [-> H]. apply not_elem_of_cons in Hn as [Hz Hn]. rewrite bool_decide_eq_false_2 by congruence.
    rewrite before_cons. apply IH; [assumption..|lia].
Qed.

Lemma schain_remove h n b : forall a x, schain h x (a ++ n :: b) -> NoDup (x :: a ++ n :: b) ->
  h (before x a) = Some n /\ schain (<[before x a := h n]> h) x (a ++ b).
Proof.
  induction a as [|z a IH]; intros x H Hd.
  - unfold before. cbn in *. destruct H as [H1 H2]. split; [exact H1|]. apply NoDup_cons in Hd as [Hx Hd].
    destruct b as [|y b]; cbn in *; rewrite fn_lookup_insert; [exact H2|]. split; [apply H2|].
    eapply schain_frame; [apply H2|]. intros w Hw. apply fn_lookup_insert_ne. intros ->. apply Hx. right. exact Hw.
  - rewrite before_cons. destruct H as [H1 H2]. apply NoDup_cons in Hd as [Hx Hd]. destruct (IH z H2 Hd) as [H3 H4].
    split; [exact H3|]. cbn [app schain]. split; [|exact H4]. rewrite fn_lookup_insert_ne; [exact H1|].
    intros E. apply Hx. rewrite <- E. pose proof (before_in z a) as Hb. rewrite elem_of_cons in Hb. destruct Hb as [->|Hb]; [left|].
    right. apply elem_of_app. auto.
Qed.

Lemma slist_len_eq h ns : forall x len fuel, schain h x ns -> (length ns < fuel)%nat ->
  RtList.slist_len_loop fuel (h x) len h = Some (match ns with [] => len | _ => u32 (len + Z.of_nat (length ns)) end).
Proof.
  induction ns as [|n ns IH]; intros x len [|fuel] H Hf; cbn [length] in *; try lia.
  - cbn in H. rewrite H. reflexivity.
  - destruct H as [-> H]. cbn [RtList.slist_len_loop]. rewrite (IH n _ fuel H) by lia. f_equal. destruct ns; [reflexivity|].
    unfold u32. rewrite Zplus_mod_idemp_l. f_equal. cbn [length]. lia.
Qed.
End Slist.

(** The operations on singly linked lists: append and insert put a new node at
    the end and behind the head, remove takes a node out if it is there, len
    counts, first and tail find the ends; the walks end after one round for each
    node. *)
Theorem slist_ops_refine {C} `{EqDecision C} (h : C -> option C) (l n : C) (ns : list C) (fuel : nat) :
  slist h l ns -> (length ns < fuel)%nat ->
  (n ∉ l :: ns -> (exists h', RtList.rt_slist_append fuel l n h = Some h' /\ slist h' l (ns ++ [n])) /\
     slist (RtList.rt_slist_insert l n h) l (n :: ns)) /\
  (n <> l -> exists h', RtList.rt_slist_remove fuel l n h = Some h' /\ slist h' l (filter (fun x => x <> n) ns)) /\
  RtList.rt_slist_len fuel l h = Some (u32 (Z.of_nat (length ns))) /\
  RtList.rt_slist_first l h = head ns /\ RtList.rt_slist_tail fuel l h = Some (before l ns) /\
  RtList.rt_slist_isempty l h = bool_decide (ns = []).
Proof.
  intros [Hc Hd] Hf.
  assert (h l = head ns) as Hh by (destruct ns; [exact Hc|apply Hc]).
  split; [|split; [|split; [|split; [exact Hh|split; [apply slist_end_eq; assumption|]]]]].
  - intros Hn. split.
    + eexists. split; [unfold RtList.rt_slist_append; rewrite (slist_end_eq h ns l fuel Hc Hf); reflexivity|].
      split; [apply schain_append; assumption|]. rewrite <- (Permutation_cons_append ns n).
      apply not_elem_of_cons in Hn as [Hn1 Hn]. apply NoDup_cons in Hd as [Hl Hd].
      apply NoDup_cons. split; [apply not_elem_of_cons; auto|]. apply NoDup_cons. auto.
    + apply not_elem_of_cons in Hn as [Hn1 Hn]. pose proof Hd as [Hl Hd']%NoDup_cons. split.
      * unfold RtList.rt_slist_insert. cbn [schain]. rewrite fn_lookup_insert. split; [reflexivity|].
        destruct ns as [|z ns]; cbn in *; rewrite fn_lookup_insert_ne, fn_lookup_insert by congruence; [exact Hc|].
        split; [apply Hc|]. eapply schain_frame; [apply Hc|]. intros w Hw.
        rewrite !fn_lookup_insert_ne; [reflexivity|intros ->; contradiction..].
      * apply NoDup_cons. split; [apply not_elem_of_cons; auto|]. apply NoDup_cons. auto.
  - intros Hne. unfold RtList.rt_slist_remove. destruct (decide (n ∈ ns)) as [Hin|Hn].
    + destruct (list_elem_of_split _ _ Hin) as (a & b & ->). pose proof Hd as [Hl Hd']%NoDup_cons.
      apply NoDup_app in Hd' as (_ & Hab & Hb). apply NoDup_cons in Hb as [Hb _].
      assert (n ∉ a) as Ha by (intros H; apply (Hab n H); left).
      destruct (schain_remove h n b a l Hc Hd) as [H1 H2].
      rewrite (slist_find_in h n b a l fuel Hc Ha) by (rewrite length_app in Hf; lia). cbn [mbind option_bind]. rewrite H1.
      eexists. split; [reflexivity|]. rewrite filter_app, filter_cons_False by (intros H; apply H; reflexivity).
      rewrite !filter_ne_notin by assumption. split; [exact H2|].
      assert (Permutation (l :: a ++ n :: b) (n :: l :: a ++ b)) as Hperm by (rewrite <- Permutation_middle; apply perm_swap).
      rewrite Hperm in Hd. apply NoDup_cons in Hd. apply Hd.
    + destruct (slist_find_notin h n ns l fuel Hc Hn Hf) as [-> E]. cbn [mbind option_bind]. rewrite E.
      eexists. split; [reflexivity|]. rewrite filter_ne_notin by exact Hn. split; assumption.
  - unfold RtList.rt_slist_len. rewrite (slist_len_eq h ns l 0 fuel Hc Hf). destruct ns; reflexivity.
  - unfold RtList.rt_slist_isempty. apply bool_decide_ext. rewrite Hh. destruct ns; split; (discriminate || reflexivity).
Qed.

(** ** Examples *)

(** All nodes initialised, all lists of the kernel empty. *)
Definition cells0 : lid + Z -> RtList.rt_list_node (lid + Z) := fun c => mkListNode c c.

Lemma cells0_rep : list_rep cells0 (k_lists k_reset).
Proof.
  split.
  - intros l. split; [split; reflexivity|apply NoDup_singleton].
  - intros l l' t H. destruct (not_elem_of_nil _ H).
  - reflexivity.
Qed.

Lemma list_ops_refine_witness :
  list_rep cells0 (k_lists k_reset) /\
  exists k', rt_list_insert_before (LSem 7) 100 k_reset = Some (tt, k') /\ k_lists k' (LSem 7) = [100] /\
    list_rep (RtList.rt_list_insert_before (inl (LSem 7)) (inr 100) cells0) (k_lists k').
Proof.
  split; [exact cells0_rep|]. destruct (list_ops_refine cells0 k_reset (LSem 7) 100 cells0_rep) as (_ & H & _).
  destruct H as ((k' & H1 & H2) & _); [intros l H; destruct (not_elem_of_nil _ H)|].
  exists k'. split; [exact H1|]. split; [injection H1 as <-; reflexivity|exact H2].
Defined.
