(* ===== verification/RingBlkProps.v ===== *)
(** * Properties of ring block buffers

    The two lists of descriptors with the tail pointer ([links]), the layout of the blocks
    in the buffer ([packed]) and what the list operations do to them; where a block is
    allocated, the order in which blocks are taken, and what a failed allocation leaves
    behind. *)

From S2P Require Import Prelude RtList RtListProps RingBlk.
Open Scope rt_scope.

(** ** Links *)

(** [L] are the descriptors in use, oldest first, [F] the free ones. *)
Record links (L F : list Z) (r : rt_rbb) : Prop := {
  lk_list : schain (rbb_next r) BlkList (Blk <$> L);
  lk_free : schain (rbb_next r) FreeList (Blk <$> F);
  lk_nodup : NoDup (L ++ F);
  lk_max : (length (L ++ F) <= Z.to_nat (rbb_max r))%nat;
  lk_tail : rbb_tail r = before BlkList (Blk <$> L);
}.

#[export] Instance Blk_inj : Inj (=) (=) Blk.
Proof. intros i j [= ->]. reflexivity. Qed.

Lemma blk_in i (L : list Z) : Blk i ∈ Blk <$> L <-> i ∈ L.
Proof. rewrite list_elem_of_fmap. split; [intros (j & [= ->] & H); exact H|eauto]. Qed.
Lemma head_not_in n (L : list Z) : (forall i, n <> Blk i) -> n ∉ Blk <$> L.
Proof. intros H (i & -> & _)%list_elem_of_fmap. exact (H i eq_refl). Qed.
Lemma chain_nodup n (L : list Z) : (forall i, n <> Blk i) -> NoDup L -> NoDup (n :: (Blk <$> L)).
Proof. intros H HL. apply NoDup_cons. split; [apply head_not_in, H|apply (NoDup_fmap_2 Blk), HL]. Qed.

(** The nodes of the two lists are apart. *)
Lemma nodes_apart (L F : list Z) z : NoDup (L ++ F) -> z ∈ BlkList :: (Blk <$> L) -> z ∉ FreeList :: (Blk <$> F).
Proof.
  intros [_ [H _]]%NoDup_app Hz. rewrite elem_of_cons in Hz. apply not_elem_of_cons. destruct Hz as [->|(i & -> & Hi)%list_elem_of_fmap].
  - split; [discriminate|apply head_not_in; discriminate].
  - split; [discriminate|]. rewrite blk_in. apply H, Hi.
Qed.

Lemma links_take L f F r : links L (f :: F) r ->
  (exists s, rbb_set r !! f = Some s /\ bk_status s = RT_RBB_BLK_UNUSED) ->
  exists r', find_empty_blk_in_set r = Some (Some f, r') /\ links L F r' /\ (f ∉ L ++ F) /\
    rbb_set r' = rbb_set r /\ rbb_buf r' = rbb_buf r /\ rbb_size r' = rbb_size r /\ rbb_max r' = rbb_max r /\ rbb_tail r' = rbb_tail r /\
    S (length (L ++ F)) = length (L ++ f :: F).
Proof.
  intros [Hl Hf Hd Hm Ht] (s & Hs & Hu). pose proof Hf as [Hf1 Hf2]. fold (fmap Blk F) in *.
  exists (r <| rbb_next := <[FreeList := rbb_next r (Blk f)]> (rbb_next r) |>).
  assert (NoDup (FreeList :: (Blk <$> f :: F))) as Hnf
    by (apply chain_nodup; [discriminate|apply NoDup_app in Hd as (_ & _ & Hd); exact Hd]).
  split.
  { unfold find_empty_blk_in_set. erewrite bind_eq by reflexivity. unfold rt_slist_isempty, rt_slist_first. rewrite Hf1.
    rewrite bool_decide_eq_false_2 by discriminate. erewrite bind_eq by reflexivity. erewrite bind_eq by reflexivity.
    unfold rt_slist_remove, rbb_fuel. cbn [slist_find]. rewrite Hf1, bool_decide_eq_true_2 by reflexivity. cbn [mbind option_bind].
    rewrite Hf1. erewrite bind_eq by reflexivity. erewrite bind_eq by reflexivity.
    unfold get_blk. erewrite bind_eq.
    2: { erewrite bind_eq by reflexivity. change (rbb_set (r <| rbb_next := _ |>)) with (rbb_set r). rewrite Hs. reflexivity. }
    rewrite Hu, bool_decide_eq_true_2 by reflexivity. reflexivity. }
  split; [|split; [|repeat (split; [reflexivity|]); rewrite !length_app; cbn; lia]].
  - split; try assumption.
    + eapply schain_frame; [exact Hl|]. intros z Hz. apply fn_lookup_insert_ne. intros <-.
      exact (nodes_apart _ _ _ Hd Hz (list_elem_of_here _ _)).
    + exact (proj2 (schain_remove (rbb_next r) (Blk f) (Blk <$> F) [] FreeList Hf Hnf)).
    + apply NoDup_app in Hd as (H1 & H2 & H3). apply NoDup_cons in H3 as [_ H3]. apply NoDup_app. split; [exact H1|].
      split; [|exact H3]. intros z Hz Hzf. exact (H2 z Hz (list_elem_of_further _ _ _ Hzf)).
    + change (rbb_max (r <| rbb_next := _ |>)) with (rbb_max r). rewrite length_app in *. cbn in Hm. lia.
  - apply NoDup_app in Hd as (_ & H2 & H3). apply NoDup_cons in H3 as [H3 _]. rewrite elem_of_app. intros [H|H]; [|contradiction].
    exact (H2 f H (list_elem_of_here _ _)).
Qed.

Lemma links_append L F f r : links L F r -> f ∉ L ++ F -> (length (L ++ F) < Z.to_nat (rbb_max r))%nat ->
  exists r', list_append (Blk f) r = Some (tt, r') /\ links (L ++ [f]) F r' /\
    rbb_set r' = rbb_set r /\ rbb_buf r' = rbb_buf r /\ rbb_size r' = rbb_size r /\ rbb_max r' = rbb_max r.
Proof.
  intros [Hl Hf Hd Hm Ht] Hn Hlen. rewrite elem_of_app in Hn.
  exists (r <| rbb_next := <[Blk f := None]> (<[before BlkList (Blk <$> L) := Some (Blk f)]> (rbb_next r)) |> <| rbb_tail := Blk f |>).
  split; [unfold list_append; erewrite bind_eq by reflexivity; rewrite Ht; reflexivity|]. split; [|repeat split].
  assert (Blk f ∉ BlkList :: (Blk <$> L)) as Hfl by (apply not_elem_of_cons; split; [discriminate|rewrite blk_in; tauto]).
  assert (before BlkList (Blk <$> L) ∈ BlkList :: (Blk <$> L)) as Hb by apply before_in.
  split.
  - rewrite fmap_app. cbn. apply schain_append; [exact Hl| |exact Hfl]. apply chain_nodup; [discriminate|apply NoDup_app in Hd; apply Hd].
  - eapply schain_frame; [exact Hf|]. intros z Hz. cbn. rewrite !fn_lookup_insert_ne; [reflexivity| |].
    + intros <-. exact (nodes_apart _ _ _ Hd Hb Hz).
    + intros <-. rewrite elem_of_cons, blk_in in Hz. destruct Hz as [[=]|Hz]. tauto.
  - rewrite <- app_assoc. cbn. rewrite NoDup_app in Hd. destruct Hd as (H1 & H2 & H3). apply NoDup_app. split; [exact H1|]. split.
    + intros z Hz. apply not_elem_of_cons. split; [intros ->; tauto|apply H2, Hz].
    + apply NoDup_cons. split; [tauto|exact H3].
  - change (length ((L ++ [f]) ++ F) <= Z.to_nat (rbb_max r))%nat. rewrite !length_app in *. cbn. lia.
  - rewrite fmap_app. cbn. unfold before. rewrite last_snoc. reflexivity.
Qed.

Lemma links_insert L F i r : links L F r -> i ∉ L ++ F -> (length (L ++ F) < Z.to_nat (rbb_max r))%nat ->
  links L (i :: F) (r <| rbb_next ::= rt_slist_insert FreeList (Blk i) |>).
Proof.
  intros [Hl Hf Hd Hm Ht] Hn Hlen. rewrite elem_of_app in Hn.
  assert (rbb_next (r <| rbb_next ::= rt_slist_insert FreeList (Blk i) |>) =
    <[FreeList := Some (Blk i)]> (<[Blk i := rbb_next r FreeList]> (rbb_next r))) as E by reflexivity.
  split; rewrite ?E; try assumption.
  - eapply schain_frame; [exact Hl|]. intros z Hz. rewrite !fn_lookup_insert_ne; [reflexivity| |].
    + intros <-. rewrite elem_of_cons, blk_in in Hz. destruct Hz as [[=]|Hz]. tauto.
    + intros <-. exact (nodes_apart _ _ _ Hd Hz (list_elem_of_here _ _)).
  - cbn [fmap list_fmap schain]. rewrite fn_lookup_insert. split; [reflexivity|].
    assert (forall x, (<[FreeList := Some (Blk i)]> (<[Blk i := x]> (rbb_next r))) (Blk i) = x) as E1
      by (intros x; rewrite fn_lookup_insert_ne by discriminate; apply fn_lookup_insert).
    destruct F as [|g F]; cbn [fmap list_fmap schain] in *; rewrite E1; [exact Hf|]. destruct Hf as [Hf1 Hf]. split; [exact Hf1|].
    eapply schain_frame; [exact Hf|]. intros z Hz. rewrite !fn_lookup_insert_ne; [reflexivity| |]; intros <-.
    + change (Blk i ∈ Blk <$> g :: F) in Hz. rewrite blk_in in Hz. tauto.
    + change (FreeList ∈ Blk <$> g :: F) in Hz. apply list_elem_of_fmap in Hz as (? & [=] & _).
  - rewrite NoDup_app in Hd |- *. destruct Hd as (H1 & H2 & H3). split; [exact H1|]. split.
    + intros z Hz. apply not_elem_of_cons. split; [intros ->; tauto|apply H2, Hz].
    + apply NoDup_cons. split; [tauto|exact H3].
  - change (length (L ++ i :: F) <= Z.to_nat (rbb_max r))%nat. rewrite !length_app in *. cbn. lia.
Qed.

Lemma links_remove a i b F r : links (a ++ i :: b) F r ->
  exists r', list_remove (Blk i) r = Some (tt, r') /\ links (a ++ b) F r' /\ (i ∉ (a ++ b) ++ F) /\
    rbb_set r' = rbb_set r /\ rbb_buf r' = rbb_buf r /\ rbb_size r' = rbb_size r /\ rbb_max r' = rbb_max r.
Proof.
  intros [Hl Hf Hd Hm Ht]. rewrite fmap_app, fmap_cons in Hl, Ht.
  assert (NoDup (BlkList :: (Blk <$> a) ++ Blk i :: (Blk <$> b))) as Hnd.
  { change (Blk i :: (Blk <$> b)) with (Blk <$> i :: b). rewrite <- fmap_app. apply chain_nodup; [discriminate|apply NoDup_app in Hd; apply Hd]. }
  destruct (schain_remove (rbb_next r) (Blk i) (Blk <$> b) (Blk <$> a) BlkList Hl Hnd) as [H1 H2].
  set (p := before BlkList (Blk <$> a)) in *.
  assert (Blk i ∉ BlkList :: (Blk <$> a) ++ (Blk <$> b)) as Hi.
  { apply NoDup_cons in Hnd as [_ Hnd]. apply not_elem_of_cons. split; [discriminate|]. rewrite elem_of_app.
    apply NoDup_app in Hnd as (_ & N2 & N3). apply NoDup_cons in N3 as [N3 _]. intros [H|H]; [|contradiction].
    exact (N2 _ H (list_elem_of_here _ _)). }
  assert (p ∈ BlkList :: (Blk <$> a) ++ (Blk <$> b)) as Hp.
  { pose proof (before_in BlkList (Blk <$> a)) as Hb. rewrite elem_of_cons in *. rewrite elem_of_app. tauto. }
  set (h' := <[Blk i := None]> (<[p := rbb_next r (Blk i)]> (rbb_next r))).
  set (t' := if bool_decide (rbb_tail r = Blk i) then p else rbb_tail r).
  exists (r <| rbb_next := h' |> <| rbb_tail := t' |>). split; [|split; [|split; [|repeat split]]].
  - unfold list_remove. erewrite bind_eq by reflexivity. unfold rbb_fuel.
    rewrite (slist_find_in (rbb_next r) (Blk i) (Blk <$> b) (Blk <$> a) BlkList).
    2: { exact Hl. } 2: { intros H. apply Hi. rewrite elem_of_cons, elem_of_app. auto. }
    2: { rewrite length_fmap. rewrite !length_app in Hm. cbn in Hm. lia. }
    fold p. erewrite bind_eq by reflexivity. unfold next_of. erewrite bind_eq by reflexivity. rewrite H1.
    erewrite bind_eq by reflexivity. erewrite bind_eq by reflexivity. erewrite bind_eq by reflexivity.
    unfold t'. destruct (bool_decide (rbb_tail r = Blk i)); [reflexivity|]. destruct r; reflexivity.
  - split.
    + rewrite fmap_app. eapply schain_frame; [exact H2|]. intros z Hz. cbn. unfold h'. rewrite fn_lookup_insert_ne; [reflexivity|].
      intros <-. contradiction.
    + eapply schain_frame; [exact Hf|]. intros z Hz. change (h' z = rbb_next r z). unfold h'.
      assert (z <> Blk i /\ z <> p) as [N1 N2].
      { assert (forall w, w ∈ BlkList :: (Blk <$> a ++ i :: b) -> z <> w) as Hne
          by (intros w Hw ->; exact (nodes_apart _ _ _ Hd Hw Hz)).
        split; apply Hne; rewrite fmap_app, elem_of_cons, elem_of_app, fmap_cons, elem_of_cons.
        - auto.
        - rewrite elem_of_cons, elem_of_app in Hp. tauto. }
      rewrite !fn_lookup_insert_ne by congruence. reflexivity.
    + rewrite <- app_assoc in *. cbn in Hd. apply NoDup_app in Hd as (D1 & D2 & D3). apply NoDup_cons in D3 as [_ D3].
      apply NoDup_app. split; [exact D1|]. split; [|exact D3]. intros z Hz Hz'. exact (D2 z Hz (list_elem_of_further _ _ _ Hz')).
    + change (length ((a ++ b) ++ F) <= Z.to_nat (rbb_max r))%nat. rewrite !length_app in *. cbn in Hm. lia.
    + change (t' = before BlkList (Blk <$> a ++ b)). unfold t'. rewrite Ht, fmap_app. unfold p, before. rewrite !last_app, last_cons.
      destruct (last (Blk <$> b)) as [z|] eqn:El; cbn.
      * rewrite bool_decide_eq_false_2; [reflexivity|]. intros ->. apply last_Some_elem_of in El. apply Hi.
        rewrite elem_of_cons, elem_of_app. auto.
      * rewrite bool_decide_eq_true_2 by reflexivity. destruct (last (Blk <$> a)); reflexivity.
  - rewrite <- app_assoc in *. cbn in Hd. apply NoDup_app in Hd as (D1 & D2 & D3). apply NoDup_cons in D3 as [D3 D4].
    rewrite elem_of_app. intros [H|H]; [|contradiction]. exact (D2 _ H (list_elem_of_here _ _)).
Qed.

(** ** The layout *)

(** The blocks of the descriptors lie one behind the other between [a] and [e]. *)
Fixpoint packed (set : gmap Z rt_rbb_blk) (a e : Z) (l : list Z) : Prop :=
  match l with
  | [] => a <= e
  | i :: l => exists b, set !! i = Some b /\ a <= bk_buf b /\ 0 < bk_size b < 2 ^ 24 /\ packed set (bk_buf b + bk_size b) e l
  end.

Definition blk_of (set : gmap Z rt_rbb_blk) (i : Z) : rt_rbb_blk := default (mkBlk RT_RBB_BLK_UNUSED 0 0) (set !! i).
Definition blk_end (b : rt_rbb_blk) : Z := bk_buf b + bk_size b.

Lemma packed_le set e l : forall a, packed set a e l -> a <= e.
Proof. induction l as [|i l IH]; cbn; [auto|]. intros a (b & _ & H1 & H2 & H3). apply IH in H3. lia. Qed.

Lemma packed_ext set set' e l : forall a, packed set a e l ->
  (forall i b, i ∈ l -> set !! i = Some b -> exists b', set' !! i = Some b' /\ bk_buf b' = bk_buf b /\ bk_size b' = bk_size b) ->
  packed set' a e l.
Proof.
  induction l as [|i l IH]; cbn; [auto|]. intros a (b & Hb & H1 & H2 & H3) E.
  destruct (E i b (list_elem_of_here _ _) Hb) as (b' & Hb' & Eb & Es). exists b'. rewrite Eb, Es. split; [exact Hb'|]. split; [exact H1|]. split; [exact H2|].
  apply IH; [exact H3|]. intros j c Hj. apply E. right. exact Hj.
Qed.

Lemma packed_weaken set a a' e l : a' <= a -> packed set a e l -> packed set a' e l.
Proof. destruct l; cbn; [lia|]. intros H (b & Hb & H1 & H2 & H3). exists b. repeat split; try assumption; lia. Qed.

(** Two packed parts that meet at [m]. *)
Lemma packed_app set e l2 : forall l1 a, packed set a e (l1 ++ l2) <-> exists m, packed set a m l1 /\ packed set m e l2.
Proof.
  induction l1 as [|i l1 IH]; intros a; cbn [app packed].
  - split; [intros H; exists a; split; [lia|exact H]|intros (m & H1 & H2); exact (packed_weaken _ _ _ _ _ H1 H2)].
  - split.
    + intros (b & Hb & H1 & H2 & H3). apply IH in H3 as (m & H3 & H4). exists m. split; [|exact H4]. exists b. auto.
    + intros (m & (b & Hb & H1 & H2 & H3) & H4). exists b. split; [exact Hb|]. split; [exact H1|]. split; [exact H2|]. apply IH. eauto.
Qed.

(** What lies between the blocks: the first one and the last one. *)
Lemma packed_last set a e l i : packed set a e (l ++ [i]) <->
  exists b, set !! i = Some b /\ 0 < bk_size b < 2 ^ 24 /\ packed set a (bk_buf b) l /\ blk_end b <= e.
Proof.
  rewrite packed_app. cbn. split.
  - intros (m & H1 & b & Hb & H2 & H3 & H4). exists b. split; [exact Hb|]. split; [exact H3|]. split; [|exact H4].
    revert H1 H2. clear. revert a. induction l as [|j l IH]; cbn; [lia|]. intros a (c & Hc & H1 & H2 & H3) Hm. exists c. eauto.
  - intros (b & Hb & H1 & H2 & H3). exists (bk_buf b). split; [exact H2|]. exists b. repeat split; try assumption; unfold blk_end in H3; lia.
Qed.

Lemma packed_drop set e i l2 : forall l1 a, packed set a e (l1 ++ i :: l2) -> packed set a e (l1 ++ l2).
Proof.
  induction l1 as [|j l1 IH]; intros a; cbn [app packed].
  - intros (b & Hb & H1 & H2 & H3). eapply packed_weaken; [|exact H3]. lia.
  - intros (b & Hb & H1 & H2 & H3). exists b. auto.
Qed.

Lemma packed_in set a e l i : packed set a e l -> i ∈ l -> exists b, set !! i = Some b /\ a <= bk_buf b /\ 0 < bk_size b < 2 ^ 24 /\ blk_end b <= e.
Proof.
  revert a. induction l as [|j l IH]; intros a; [intros _ []%elem_of_nil|]. cbn. intros (b & Hb & H1 & H2 & H3) Hi.
  apply elem_of_cons in Hi as [->|Hi].
  - exists b. unfold blk_end. apply packed_le in H3. auto.
  - destruct (IH _ H3 Hi) as (c & Hc & C1 & C2 & C3). exists c. repeat split; try assumption; lia.
Qed.

(** Two different blocks do not overlap. *)
Lemma packed_apart set e l i j bi bj : forall a, packed set a e l -> i ∈ l -> j ∈ l -> i <> j -> set !! i = Some bi -> set !! j = Some bj ->
  blk_end bi <= bk_buf bj \/ blk_end bj <= bk_buf bi.
Proof.
  induction l as [|k l IH]; intros a P Hi Hj Hne Ei Ej; [destruct (proj1 (elem_of_nil _) Hi)|].
  cbn [packed] in P. destruct P as (b & Hb & H1 & H2 & P). apply elem_of_cons in Hi, Hj.
  destruct Hi as [->|Hi], Hj as [->|Hj]; [contradiction| | |exact (IH _ P Hi Hj Hne Ei Ej)].
  - destruct (packed_in _ _ _ _ _ P Hj) as (c & Hc & H3 & _). left. unfold blk_end. congruence || (rewrite Ei in Hb; rewrite Ej in Hc; injection Hb as ->; injection Hc as ->; lia).
  - destruct (packed_in _ _ _ _ _ P Hi) as (c & Hc & H3 & _). right. unfold blk_end. congruence || (rewrite Ej in Hb; rewrite Ei in Hc; injection Hb as ->; injection Hc as ->; lia).
Qed.

(** ** Parts of the buffer *)

(** The blocks in use are [hi] and then [lo], oldest first: [hi] lies in the upper part
    of the buffer, [lo] below it, since allocation has wrapped. *)
Record rbb_rep (B N : Z) (hi lo F : list Z) (r : rt_rbb) : Prop := {
  rr_buf : rbb_buf r = B;
  rr_size : rbb_size r = N;
  rr_range : 0 < B /\ 0 <= N /\ B + N < 2 ^ 32;
  rr_links : links (hi ++ lo) F r;
  rr_norm : hi = [] -> lo = [];
  rr_used : forall i, i ∈ hi ++ lo -> bk_status (blk_of (rbb_set r) i) <> RT_RBB_BLK_UNUSED;
  rr_unused : forall i, i ∈ F -> exists s, rbb_set r !! i = Some s /\ bk_status s = RT_RBB_BLK_UNUSED;
  rr_packed : packed (rbb_set r) B (B + N) (lo ++ hi);
}.

(** ** Allocation *)

(** The place of a new block of [n] bytes. *)
Definition place (B N : Z) (set : gmap Z rt_rbb_blk) (hi lo : list Z) (n : Z) : option Z :=
  match hi, last lo, last hi with
  | h :: _, Some t, _ =>       (* between [lo] and [hi] *)
      let p := blk_end (blk_of set t) in if n <=? bk_buf (blk_of set h) - p then Some p else None
  | h :: _, None, Some t =>    (* behind [hi], otherwise at the start of the buffer *)
      let p := blk_end (blk_of set t) in
      if n <=? B + N - p then Some p else if n <=? bk_buf (blk_of set h) - B then Some B else None
  | _, _, _ => Some B
  end.

Lemma place_cons B N set h hi hi' lo n : hi = h :: hi' -> place B N set hi lo n =
  match last lo, last hi with
  | Some t, _ => let p := blk_end (blk_of set t) in if n <=? bk_buf (blk_of set h) - p then Some p else None
  | None, Some t =>
      let p := blk_end (blk_of set t) in
      if n <=? B + N - p then Some p else if n <=? bk_buf (blk_of set h) - B then Some B else None
  | None, None => Some B
  end.
Proof. intros ->. reflexivity. Qed.

Lemma upd_blk_eq i f b r : rbb_set r !! i = Some b -> upd_blk i f r = Some (tt, r <| rbb_set ::= insert i (f b) |>).
Proof. intros H. unfold upd_blk, get_blk. rewrite bind_assoc. erewrite bind_eq by reflexivity. unfold st_opt. rewrite H. reflexivity. Qed.

Lemma get_blk_eq i b r : rbb_set r !! i = Some b -> get_blk i r = Some (b, r).
Proof. intros H. unfold get_blk. erewrite bind_eq by reflexivity. rewrite H. reflexivity. Qed.

Lemma blk_of_eq set i b : set !! i = Some b -> blk_of set i = b.
Proof. unfold blk_of. intros ->. reflexivity. Qed.

Lemma take_blk_eq L F f p n r s : links L F r -> f ∉ L ++ F -> (length (L ++ F) < Z.to_nat (rbb_max r))%nat ->
  rbb_set r !! f = Some s -> 0 < n < 2 ^ 24 ->
  exists r', take_blk f p n r = Some (Some f, r') /\ links (L ++ [f]) F r' /\
    rbb_set r' = <[f := mkBlk RT_RBB_BLK_INITED n p]> (rbb_set r) /\ rbb_buf r' = rbb_buf r /\ rbb_size r' = rbb_size r.
Proof.
  intros K Hf Hm Hs Hn. destruct (links_append L F f r K Hf Hm) as (r1 & H1 & K1 & E1 & E2 & E3 & E4).
  exists (r1 <| rbb_set := <[f := mkBlk RT_RBB_BLK_INITED n p]> (rbb_set r) |>).
  split; [|split; [destruct K1; split; assumption|auto]].
  unfold take_blk. erewrite bind_eq by exact H1. rewrite <- E1 in Hs.
  erewrite bind_eq by (apply upd_blk_eq; exact Hs). erewrite bind_eq by (apply upd_blk_eq, lookup_insert_eq).
  erewrite bind_eq by (apply upd_blk_eq, lookup_insert_eq). cbv [mret st_ret]. do 2 f_equal. destruct r1 as [b1 s1 m1 set1 n1 t1]. cbn in *.
  unfold set_field. cbn. f_equal. rewrite !insert_insert_eq, E1. f_equal. destruct s. cbn. f_equal. unfold u24. apply Z.mod_small. lia.
Qed.

(** Adding a descriptor that was free keeps the layout of the others. *)
Lemma packed_fresh set f b a e l : packed set a e l -> f ∉ l -> packed (<[f := b]> set) a e l.
Proof.
  intros P Hf. eapply packed_ext; [exact P|]. intros i c Hi Hc. exists c.
  rewrite lookup_insert_ne by (intros ->; contradiction). auto.
Qed.

Lemma used_fresh set f n p L : f ∉ L -> (forall i, i ∈ L -> bk_status (blk_of set i) <> RT_RBB_BLK_UNUSED) ->
  forall i, i ∈ L ++ [f] -> bk_status (blk_of (<[f := mkBlk RT_RBB_BLK_INITED n p]> set) i) <> RT_RBB_BLK_UNUSED.
Proof.
  intros Hf H i [Hi| ->%list_elem_of_singleton]%elem_of_app.
  - unfold blk_of. rewrite lookup_insert_ne by (intros ->; contradiction). apply H, Hi.
  - unfold blk_of. rewrite lookup_insert_eq. discriminate.
Qed.

Section Alloc.
Context (B N : Z) (hi lo : list Z) (f : Z) (F : list Z) (r : rt_rbb) (n : Z).
Hypothesis R : rbb_rep B N hi lo (f :: F) r.
Hypothesis Hn : 0 < n < 2 ^ 24.

(** The new block at [p], with the lists [hi'] and [lo']. *)
Lemma alloc_at r1 p hi' lo' : links (hi ++ lo) F r1 -> rbb_set r1 = rbb_set r -> rbb_buf r1 = rbb_buf r -> rbb_size r1 = rbb_size r ->
  rbb_max r1 = rbb_max r -> hi' ++ lo' = hi ++ lo ++ [f] -> (hi' = [] -> lo' = []) ->
  (forall set, set !! f = Some (mkBlk RT_RBB_BLK_INITED n p) -> (forall a e l, packed (rbb_set r) a e l -> f ∉ l -> packed set a e l) ->
     packed set B (B + N) (lo' ++ hi')) ->
  exists r', take_blk f p n r1 = Some (Some f, r') /\ rbb_rep B N hi' lo' F r' /\
    rbb_set r' = <[f := mkBlk RT_RBB_BLK_INITED n p]> (rbb_set r).
Proof.
  intros K E1 E2 E3 E4 EL Hnorm HP. destruct (rr_unused _ _ _ _ _ _ R f (list_elem_of_here _ _)) as (s & Hs & _).
  pose proof (lk_nodup _ _ _ (rr_links _ _ _ _ _ _ R)) as Hd. pose proof (lk_max _ _ _ (rr_links _ _ _ _ _ _ R)) as Hm.
  assert (f ∉ (hi ++ lo) ++ F) as Hf.
  { apply NoDup_app in Hd as (_ & D2 & D3). apply NoDup_cons in D3 as [D3 _]. rewrite elem_of_app. intros [H|H]; [|contradiction].
    exact (D2 _ H (list_elem_of_here _ _)). }
  destruct (take_blk_eq (hi ++ lo) F f p n r1 s K Hf) as (r' & H & K' & Es & Eb & Ez); [rewrite E4, length_app in *; cbn in Hm; lia|congruence|exact Hn|].
  rewrite E1 in Es. exists r'. split; [exact H|]. split; [|exact Es]. rewrite elem_of_app in Hf.
  split; rewrite ?Es; [rewrite Eb, E2; apply R|rewrite Ez, E3; apply R|apply R| |exact Hnorm| | |].
  - rewrite EL, app_assoc. exact K'.
  - rewrite EL, app_assoc. apply used_fresh; [tauto|apply R].
  - intros i Hi. rewrite lookup_insert_ne by (intros ->; tauto). apply R. right. exact Hi.
  - apply HP; [apply lookup_insert_eq|]. intros a e l. apply packed_fresh.
Qed.
End Alloc.

Lemma no_free_blk L r : links L [] r -> find_empty_blk_in_set r = Some (None, r).
Proof.
  intros K. unfold find_empty_blk_in_set. erewrite bind_eq by reflexivity. unfold rt_slist_isempty.
  pose proof (lk_free _ _ _ K) as H. cbn in H. rewrite H, bool_decide_eq_true_2 by reflexivity. reflexivity.
Qed.

Lemma before_last n (L : list Z) t : last L = Some t -> before n (Blk <$> L) = Blk t.
Proof. intros H. unfold before. rewrite fmap_last, H. reflexivity. Qed.

(** The comparison that finds out whether the blocks have wrapped. *)
Lemma wrapped_test B N hi lo F r h hi' t : rbb_rep B N hi lo F r -> hi = h :: hi' -> last (hi ++ lo) = Some t ->
  exists hb tb, rbb_set r !! h = Some hb /\ rbb_set r !! t = Some tb /\ B <= bk_buf hb /\ blk_end hb <= B + N /\
    B <= bk_buf tb /\ blk_end tb <= B + N /\ 0 < bk_size tb < 2 ^ 24 /\ 0 < bk_size hb /\
    (bk_buf hb <=? bk_buf tb) = bool_decide (lo = []) /\ (lo <> [] -> blk_end tb <= bk_buf hb).
Proof.
  intros R -> Ht. pose proof (rr_packed _ _ _ _ _ _ R) as P.
  destruct (packed_in _ _ _ _ h P) as (hb & Hh & B1 & B2 & B3); [apply elem_of_app; right; left|].
  destruct (packed_in _ _ _ _ t P) as (tb & Htb & C1 & C2 & C3).
  { apply last_Some_elem_of in Ht. rewrite elem_of_app in *. tauto. }
  exists hb, tb. repeat (split; [first [assumption|lia]|]). destruct lo as [|x lo0 _] using rev_ind.
  - rewrite bool_decide_eq_true_2 by reflexivity. split; [|contradiction]. apply Z.leb_le. rewrite app_nil_r in Ht. cbn [app] in P.
    destruct hi' as [|x l0 _] using rev_ind.
    + injection Ht as ->. rewrite Hh in Htb. injection Htb as ->. lia.
    + rewrite app_comm_cons, last_snoc in Ht. injection Ht as ->. rewrite app_comm_cons in P. apply packed_last in P as (tb' & E & _ & P & _).
      rewrite Htb in E. injection E as <-. destruct P as (hb' & E & _ & _ & P). rewrite Hh in E. injection E as <-.
      apply packed_le in P. lia.
  - rewrite app_assoc, last_snoc in Ht. injection Ht as ->. rewrite bool_decide_eq_false_2 by (destruct lo0; discriminate).
    apply packed_app in P as (m & P1 & P2). apply packed_last in P1 as (tb' & E & _ & _ & P1). rewrite Htb in E. injection E as <-.
    destruct P2 as (hb' & E & P2 & _). rewrite Hh in E. injection E as <-. unfold blk_end in *. split; [apply Z.leb_gt; lia|lia].
Qed.

Lemma blk_list_first L F r : links L F r -> rbb_next r BlkList = (Blk <$> head L).
Proof. intros K. pose proof (lk_list _ _ _ K) as H. destruct L; [exact H|apply H]. Qed.

(** The place that [place] finds, as the code finds it. *)
Lemma place_packed B N hi lo F r n p f : rbb_rep B N hi lo F r -> 0 < n < 2 ^ 24 -> (hi = [] -> n <= N) -> f ∉ hi ++ lo ->
  place B N (rbb_set r) hi lo n = Some p ->
  exists hi' lo', hi' ++ lo' = hi ++ lo ++ [f] /\ (hi' = [] -> lo' = []) /\
    forall set, set !! f = Some (mkBlk RT_RBB_BLK_INITED n p) -> (forall a e l, packed (rbb_set r) a e l -> f ∉ l -> packed set a e l) ->
      packed set B (B + N) (lo' ++ hi').
Proof.
  intros R Hn HN Hf Hp. rewrite elem_of_app in Hf. pose proof (rr_packed _ _ _ _ _ _ R) as P.
  destruct hi as [|h hi'] eqn:Ehi.
  { rewrite (rr_norm _ _ _ _ _ _ R eq_refl) in *. injection Hp as <-. exists [f], []. split; [reflexivity|]. split; [discriminate|].
    intros set Hs _. cbn. specialize (HN eq_refl). exists (mkBlk RT_RBB_BLK_INITED n B). cbn. split; [exact Hs|]. lia. }
  rewrite <- Ehi in *. rewrite (place_cons _ _ _ _ _ _ _ _ Ehi) in Hp.
  destruct lo as [|t lo0 _] using rev_ind.
  - assert (exists hi0 t, hi = hi0 ++ [t]) as (hi0 & t & E).
    { clear -Ehi. destruct hi as [|t hi0 _] using rev_ind; [discriminate|eauto]. }
    rewrite E, last_snoc in Hp. cbn [last] in Hp.
    destruct (wrapped_test _ _ _ _ _ _ h hi' t R Ehi) as (hb & tb & Hh & Ht & B1 & B2 & C1 & C2 & C3 & _ & _);
      [rewrite app_nil_r, E; apply last_snoc|].
    rewrite (blk_of_eq _ _ _ Ht), (blk_of_eq _ _ _ Hh) in Hp. cbn [app] in P.
    destruct (Z.leb_spec n (B + N - blk_end tb)) as [H1|H1]; [|destruct (Z.leb_spec n (bk_buf hb - B)) as [H2|]; [|discriminate]]; injection Hp as <-.
    + exists (hi ++ [f]), []. split; [rewrite app_nil_r; reflexivity|]. split; [destruct hi; discriminate|].
      intros set Hs HP. cbn [app]. apply packed_last. exists (mkBlk RT_RBB_BLK_INITED n (blk_end tb)). cbn. split; [exact Hs|]. split; [exact Hn|].
      split; [|unfold blk_end at 1; cbn; lia]. apply HP; [|tauto]. rewrite E in P |- *. apply packed_last in P as (tb' & Et & P1 & P2 & _).
      rewrite Ht in Et. injection Et as <-. apply packed_last. exists tb. repeat (split; [assumption|]). reflexivity.
    + exists hi, [f]. split; [reflexivity|]. split; [rewrite Ehi; discriminate|]. intros set Hs HP. cbn [app packed].
      exists (mkBlk RT_RBB_BLK_INITED n B). cbn. split; [exact Hs|]. split; [lia|]. split; [exact Hn|]. apply HP; [|tauto].
      rewrite Ehi in P |- *. destruct P as (hb' & Eh & P1 & P2 & P3). rewrite Hh in Eh. injection Eh as <-. exists hb. repeat (split; [first [assumption|lia]|]). exact P3.
  - rewrite last_snoc in Hp.
    destruct (wrapped_test _ _ _ _ _ _ h hi' t R Ehi) as (hb & tb & Hh & Ht & B1 & B2 & C1 & C2 & C3 & _ & _ & C4);
      [rewrite app_assoc; apply last_snoc|].
    rewrite (blk_of_eq _ _ _ Ht), (blk_of_eq _ _ _ Hh) in Hp. cbv zeta in Hp.
    destruct (Z.leb_spec n (bk_buf hb - blk_end tb)) as [H1|]; [|discriminate]. injection Hp as <-.
    exists hi, ((lo0 ++ [t]) ++ [f]). split; [rewrite app_assoc; reflexivity|]. split; [rewrite Ehi; discriminate|].
    intros set Hs HP. apply packed_app in P as (m & P1 & P2). apply packed_app. exists (blk_end tb + n). split.
    + apply packed_last. exists (mkBlk RT_RBB_BLK_INITED n (blk_end tb)). cbn. split; [exact Hs|]. split; [exact Hn|].
      split; [|unfold blk_end at 1; cbn; lia]. apply HP; [|tauto]. apply packed_last in P1 as (tb' & Et & Q1 & Q2 & _).
      rewrite Ht in Et. injection Et as <-. apply packed_last. exists tb. repeat (split; [assumption|]). reflexivity.
    + apply HP; [|tauto]. rewrite Ehi in P2 |- *. destruct P2 as (hb' & Eh & Q1 & Q2 & Q3). rewrite Hh in Eh. injection Eh as <-.
      exists hb. repeat (split; [first [assumption|lia]|]). exact Q3.
Qed.

(** The code's choice is [place]. *)
Lemma alloc_choice B N hi lo F r1 r n f : rbb_rep B N hi lo F r -> links (hi ++ lo) F r1 ->
  rbb_set r1 = rbb_set r -> rbb_buf r1 = B -> rbb_size r1 = N -> rbb_tail r1 = rbb_tail r ->
  alloc_in f n r1 =
  match place B N (rbb_set r) hi lo n with Some p => take_blk f p n r1 | None => Some (None, r1) end.
Proof.
  intros R K E1 E2 E3 E4. unfold alloc_in. erewrite bind_eq by reflexivity. unfold rt_slist_isempty, rt_slist_first. rewrite (blk_list_first _ _ _ K).
  destruct hi as [|h hi'] eqn:Ehi.
  { rewrite (rr_norm _ _ _ _ _ _ R eq_refl). cbn [app head fmap option_fmap option_map place]. rewrite bool_decide_eq_true_2 by reflexivity.
    cbn [negb]. rewrite E2. reflexivity. }
  cbn [app head fmap option_fmap option_map]. rewrite bool_decide_eq_false_2 by discriminate. cbn [negb]. rewrite <- Ehi in *.
  assert (exists t, last (hi ++ lo) = Some t) as [t Ht].
  { rewrite last_app. destruct (last lo); [eauto|]. rewrite Ehi. apply last_is_Some. discriminate. }
  destruct (wrapped_test _ _ _ _ _ _ h hi' t R Ehi Ht) as (hb & tb & Hh & Htb & B1 & B2 & C1 & C2 & C3 & C0 & C4 & C5).
  pose proof (rr_range _ _ _ _ _ _ R) as HR. unfold blk_end in *.
  erewrite bind_eq by reflexivity. erewrite bind_eq by reflexivity. erewrite bind_eq by (apply get_blk_eq; rewrite E1; exact Hh).
  rewrite E4, (lk_tail _ _ _ (rr_links _ _ _ _ _ _ R)), (before_last _ _ _ Ht). erewrite bind_eq by reflexivity.
  erewrite bind_eq by (apply get_blk_eq; rewrite E1; exact Htb). cbv zeta. rewrite C4, E2, E3.
  rewrite (place_cons _ _ _ _ _ _ _ _ Ehi). rewrite last_app in Ht. destruct (last lo) as [x|] eqn:El.
  - injection Ht as ->. rewrite bool_decide_eq_false_2 by (intros ->; discriminate). rewrite (blk_of_eq _ _ _ Htb), (blk_of_eq _ _ _ Hh).
    cbv zeta. unfold blk_end. assert (lo <> []) as Hlo by (intros ->; discriminate). specialize (C5 Hlo). rewrite u32_small by lia.
    destruct (n <=? bk_buf hb - (bk_buf tb + bk_size tb)); reflexivity.
  - apply last_None in El. rewrite bool_decide_eq_true_2 by exact El. rewrite Ht, (blk_of_eq _ _ _ Htb), (blk_of_eq _ _ _ Hh). cbv zeta.
    unfold blk_end. rewrite !u32_small by lia. destruct (n <=? B + N - (bk_buf tb + bk_size tb)); [reflexivity|].
    destruct (n <=? bk_buf hb - B); reflexivity.
Qed.

(** C31: [rt_rbb_blk_alloc] of at least 1 and less than 2^24 bytes, in an empty list no more
    than the buffer has, places the new block behind the newest one, at the start of the
    buffer when there is no room up to its end, or between the two parts once it has
    wrapped; the block lies in the buffer and overlaps no block of the list.  When there
    is no room the free descriptor that was taken for the block is in neither list any
    more. *)
Theorem rbb_alloc_places B N hi lo F r n : rbb_rep B N hi lo F r -> 0 < n < 2 ^ 24 -> (hi = [] -> n <= N) ->
  match F with
  | [] => rt_rbb_blk_alloc n r = Some (None, r)
  | f :: F' =>
      match place B N (rbb_set r) hi lo n with
      | Some p => exists r' hi' lo', rt_rbb_blk_alloc n r = Some (Some f, r') /\ rbb_rep B N hi' lo' F' r' /\
          hi' ++ lo' = hi ++ lo ++ [f] /\ rbb_set r' = <[f := mkBlk RT_RBB_BLK_INITED n p]> (rbb_set r) /\
          B <= p /\ p + n <= B + N /\
          forall i b, i ∈ hi ++ lo -> rbb_set r !! i = Some b -> p + n <= bk_buf b \/ blk_end b <= p
      | None => exists r', rt_rbb_blk_alloc n r = Some (None, r') /\ rbb_rep B N hi lo F' r' /\ rbb_set r' = rbb_set r
      end
  end.
Proof.
  intros R Hn HN. unfold rt_rbb_blk_alloc. erewrite bind_eq by (apply assert_eq, Z.ltb_lt; lia). destruct F as [|f F].
  { erewrite bind_eq by (eapply no_free_blk; apply R). reflexivity. }
  destruct (links_take _ _ _ _ (rr_links _ _ _ _ _ _ R)) as (r1 & H1 & K1 & Hf & E1 & E2 & E3 & E4 & E5 & _);
    [apply (rr_unused _ _ _ _ _ _ R), list_elem_of_here|].
  erewrite bind_eq by exact H1. cbv beta iota.
  assert (rbb_rep B N hi lo F r1) as R1.
  { destruct R. split; rewrite ?E1, ?E2, ?E3; try assumption. intros i Hi. apply rr_unused0. right. exact Hi. }
  rewrite (alloc_choice B N hi lo F r1 r1 n f R1 K1 eq_refl (rr_buf _ _ _ _ _ _ R1) (rr_size _ _ _ _ _ _ R1) eq_refl), E1.
  destruct (place B N (rbb_set r) hi lo n) as [p|] eqn:Ep; [|exists r1; auto].
  assert (f ∉ hi ++ lo) as Hf' by (intros H; apply Hf, elem_of_app; auto).
  destruct (place_packed B N hi lo (f :: F) r n p f R Hn HN Hf' Ep) as (hi' & lo' & EL & Hnorm & HP).
  destruct (alloc_at B N hi lo f F r n R Hn r1 p hi' lo' K1 E1 E2 E3 E4 EL Hnorm HP) as (r' & H & R' & Es).
  exists r', hi', lo'. split; [exact H|]. split; [exact R'|]. split; [exact EL|]. split; [exact Es|].
  assert (forall i, i ∈ hi ++ lo ++ [f] -> i ∈ lo' ++ hi') as Hin by (intros i; rewrite <- EL, !elem_of_app; tauto).
  assert (f ∈ hi ++ lo ++ [f]) as Hff by (rewrite !elem_of_app, list_elem_of_singleton; auto).
  assert (forall i, i ∈ hi ++ lo -> i ∈ hi ++ lo ++ [f]) as Hold by (intros i; rewrite !elem_of_app; tauto).
  pose proof (rr_packed _ _ _ _ _ _ R') as P. rewrite Es in P.
  destruct (packed_in _ _ _ _ f P (Hin f Hff)) as (b & Hb & L1 & _ & L2). rewrite lookup_insert_eq in Hb. injection Hb as <-.
  split; [exact L1|]. split; [exact L2|]. intros i b Hi Hb.
  assert (i <> f) as Hne by (intros ->; apply Hf', Hi).
  destruct (packed_apart _ _ _ f i (mkBlk RT_RBB_BLK_INITED n p) b _ P) as [A|A]; auto.
  - apply lookup_insert_eq.
  - rewrite lookup_insert_ne by congruence. exact Hb.
Qed.

(** ** Releasing *)

Lemma packed_status set i b s a e l : set !! i = Some b -> packed set a e l -> packed (<[i := b <| bk_status := s |>]> set) a e l.
Proof.
  intros Hb P. eapply packed_ext; [exact P|]. intros j c Hj Hc. destruct (decide (j = i)) as [->|Hne].
  - rewrite Hb in Hc. injection Hc as <-. eexists. rewrite lookup_insert_eq. auto.
  - rewrite lookup_insert_ne by congruence. eauto.
Qed.

(** Without [i] the parts are still one above the other. *)
Lemma parts_without B e set hi lo a i b : hi ++ lo = a ++ i :: b -> packed set B e (lo ++ hi) -> (hi = [] -> lo = []) ->
  exists hi' lo', hi' ++ lo' = a ++ b /\ packed set B e (lo' ++ hi') /\ (hi' = [] -> lo' = []).
Proof.
  intros E P Hn. assert (i ∈ hi ++ lo) as Hi by (rewrite E; apply elem_of_app; right; left).
  destruct (app_eq_inv _ _ _ _ E) as [(k & -> & E2)|(k & -> & E2)]; [destruct k as [|x k]|].
  - (* the split is between the parts *)
    rewrite app_nil_r in *. cbn in E2. subst lo. exists a, b. split; [reflexivity|]. split; [exact (packed_drop set e i (b ++ a) [] B P)|].
    intros ->. discriminate (Hn eq_refl).
  - injection E2 as <- ->. destruct (a ++ k) as [|y hi'] eqn:Ek.
    + apply app_eq_nil in Ek as [-> ->]. exists lo, []. cbn [app]. split; [apply app_nil_r|]. split; [|reflexivity].
      rewrite <- (app_nil_r lo). exact (packed_drop set e i [] lo B P).
    + exists (y :: hi'), lo. split; [rewrite <- Ek, app_assoc; reflexivity|]. split; [|discriminate]. rewrite <- Ek, app_assoc.
      apply packed_drop with (i := i). rewrite <- app_assoc. exact P.
  - exists hi, (k ++ b). split; [rewrite app_assoc; reflexivity|]. split; [|intros ->; rewrite E2 in Hn; destruct k; discriminate (Hn eq_refl)].
    rewrite E2, <- app_assoc in P. rewrite <- app_assoc. exact (packed_drop set e i (b ++ hi) k B P).
Qed.

Lemma used_blk B N hi lo F r i : rbb_rep B N hi lo F r -> i ∈ hi ++ lo ->
  exists b, rbb_set r !! i = Some b /\ bk_status b <> RT_RBB_BLK_UNUSED.
Proof.
  intros R Hi. destruct (packed_in _ _ _ _ i (rr_packed _ _ _ _ _ _ R)) as (b & Hb & _); [rewrite elem_of_app in *; tauto|].
  exists b. split; [exact Hb|]. rewrite <- (blk_of_eq _ _ _ Hb). apply (rr_used _ _ _ _ _ _ R), Hi.
Qed.

(** Releasing a block takes it out of its place in the list, wherever that is, and
    gives its descriptor back; the other blocks keep their bytes and their order. *)
Theorem rbb_free_returns B N hi lo F r a i b : rbb_rep B N hi lo F r -> hi ++ lo = a ++ i :: b ->
  exists r' hi' lo', rt_rbb_blk_free i r = Some (tt, r') /\ rbb_rep B N hi' lo' (i :: F) r' /\ hi' ++ lo' = a ++ b /\
    forall j, j <> i -> rbb_set r' !! j = rbb_set r !! j.
Proof.
  intros R E. assert (i ∈ hi ++ lo) as Hi by (rewrite E; apply elem_of_app; right; left).
  destruct (used_blk _ _ _ _ _ _ _ R Hi) as (c & Hc & Hs).
  pose proof (rr_links _ _ _ _ _ _ R) as K. pose proof (lk_max _ _ _ K) as Hm. rewrite E in K, Hm.
  destruct (links_remove _ _ _ _ _ K) as (r1 & H1 & K1 & Hni & E1 & E2 & E3 & E4).
  destruct (parts_without _ _ _ _ _ _ _ _ E (rr_packed _ _ _ _ _ _ R) (rr_norm _ _ _ _ _ _ R)) as (hi' & lo' & EL & P & Hn).
  set (set' := <[i := c <| bk_status := RT_RBB_BLK_UNUSED |>]> (rbb_set r)).
  exists (r1 <| rbb_set := set' |> <| rbb_next ::= rt_slist_insert FreeList (Blk i) |>), hi', lo'. split; [|split; [|split; [exact EL|]]].
  - unfold rt_rbb_blk_free. erewrite bind_eq by (apply get_blk_eq; exact Hc).
    erewrite bind_eq by (apply assert_eq; rewrite bool_decide_eq_false_2 by exact Hs; reflexivity).
    erewrite bind_eq by exact H1. erewrite bind_eq by (apply upd_blk_eq; rewrite E1; exact Hc).
    unfold slist_insert, st_modify, set'. do 2 f_equal. rewrite <- E1. destruct r1; reflexivity.
  - assert (links (a ++ b) F (r1 <| rbb_set := set' |>)) as K2 by (destruct K1; split; assumption).
    pose proof (links_insert _ _ i _ K2 Hni) as K3.
    assert (length ((a ++ b) ++ F) < Z.to_nat (rbb_max (r1 <| rbb_set := set' |>)))%nat as Hlt.
    { change (rbb_max (r1 <| rbb_set := set' |>)) with (rbb_max r1). rewrite E4. rewrite !length_app in *. cbn in Hm. lia. }
    specialize (K3 Hlt). assert (forall j, j ∈ hi' ++ lo' -> j <> i) as Hne.
    { rewrite EL. intros j Hj ->. apply Hni, elem_of_app. auto. }
    split; cbn [rbb_buf rbb_size].
    + rewrite <- (rr_buf _ _ _ _ _ _ R), <- E2. reflexivity.
    + rewrite <- (rr_size _ _ _ _ _ _ R), <- E3. reflexivity.
    + apply R.
    + rewrite EL. exact K3.
    + exact Hn.
    + intros j Hj. change (bk_status (blk_of set' j) <> RT_RBB_BLK_UNUSED). unfold blk_of, set'.
      rewrite lookup_insert_ne by (apply not_eq_sym, Hne, Hj). apply (rr_used _ _ _ _ _ _ R). rewrite E, elem_of_app, elem_of_cons.
      rewrite EL, elem_of_app in Hj. tauto.
    + intros j Hj. change (exists s, set' !! j = Some s /\ bk_status s = RT_RBB_BLK_UNUSED). apply elem_of_cons in Hj as [->|Hj].
      * eexists. split; [apply lookup_insert_eq|reflexivity].
      * unfold set'. rewrite lookup_insert_ne; [apply (rr_unused _ _ _ _ _ _ R), Hj|].
        intros ->. apply Hni, elem_of_app. auto.
    + exact (packed_status _ _ _ _ _ _ _ Hc P).
  - intros j Hj. change (set' !! j = rbb_set r !! j). apply lookup_insert_ne. congruence.
Qed.

(** ** Taking *)

Definition is_put (set : gmap Z rt_rbb_blk) (i : Z) : bool := bool_decide (bk_status (blk_of set i) = RT_RBB_BLK_PUT).
Definition set_status (i : Z) (s : rt_rbb_status) (r : rt_rbb) : rt_rbb :=
  r <| rbb_set ::= insert i ((blk_of (rbb_set r) i) <| bk_status := s |>) |>.

Lemma get_loop_eq r L : forall x fuel, schain (rbb_next r) x (Blk <$> L) -> (forall i, i ∈ L -> is_Some (rbb_set r !! i)) ->
  (length L < fuel)%nat ->
  blk_get_loop fuel (rbb_next r x) r =
  match List.find (is_put (rbb_set r)) L with
  | Some i => Some (Some i, set_status i RT_RBB_BLK_GET r)
  | None => Some (None, r)
  end.
Proof.
  induction L as [|i L IH]; intros x [|fuel] C Hs Hf; cbn in Hf; try lia.
  - cbn in C. rewrite C. reflexivity.
  - destruct C as [E C]. fold (fmap Blk L) in C. rewrite E. cbn [blk_get_loop List.find].
    destruct (Hs i (list_elem_of_here _ _)) as [b Hb].
    erewrite bind_eq by reflexivity. erewrite bind_eq by (apply get_blk_eq; exact Hb). unfold is_put at 1. rewrite (blk_of_eq _ _ _ Hb).
    destruct (bool_decide (bk_status b = RT_RBB_BLK_PUT)).
    + erewrite bind_eq by (apply upd_blk_eq; exact Hb). unfold set_status. rewrite (blk_of_eq _ _ _ Hb). reflexivity.
    + unfold next_of. erewrite bind_eq by reflexivity. apply IH; [exact C|intros j Hj; apply Hs; right; exact Hj|lia].
Qed.

Lemma set_status_rep B N hi lo F r i s : rbb_rep B N hi lo F r -> i ∈ hi ++ lo -> s <> RT_RBB_BLK_UNUSED ->
  rbb_rep B N hi lo F (set_status i s r).
Proof.
  intros R Hi Hs. destruct (used_blk _ _ _ _ _ _ _ R Hi) as (b & Hb & _). unfold set_status. rewrite (blk_of_eq _ _ _ Hb).
  pose proof (lk_nodup _ _ _ (rr_links _ _ _ _ _ _ R)) as Hd. destruct R. split; try assumption.
  - destruct rr_links0. split; assumption.
  - intros j Hj. cbn. unfold blk_of. destruct (decide (j = i)) as [->|Hne].
    + rewrite lookup_insert_eq. exact Hs.
    + rewrite lookup_insert_ne by congruence. apply rr_used0, Hj.
  - intros j Hj. cbn. rewrite lookup_insert_ne; [apply rr_unused0, Hj|]. intros ->.
    apply NoDup_app in Hd as (_ & D & _). exact (D j Hi Hj).
  - apply packed_status; assumption.
Qed.

(** [rt_rbb_blk_get] gives the oldest block that was put and not taken, in the order
    of allocation, also when older ones are still being filled, and RT_NULL when there
    is none; a block can be put only once. *)
Theorem rbb_get_oldest B N hi lo F r : rbb_rep B N hi lo F r ->
  (match List.find (is_put (rbb_set r)) (hi ++ lo) with
   | Some i => rt_rbb_blk_get r = Some (Some i, set_status i RT_RBB_BLK_GET r) /\ rbb_rep B N hi lo F (set_status i RT_RBB_BLK_GET r)
   | None => rt_rbb_blk_get r = Some (None, r)
   end) /\
  (forall i, i ∈ hi ++ lo ->
     if bool_decide (bk_status (blk_of (rbb_set r) i) = RT_RBB_BLK_INITED)
     then rt_rbb_blk_put i r = Some (tt, set_status i RT_RBB_BLK_PUT r) /\ rbb_rep B N hi lo F (set_status i RT_RBB_BLK_PUT r)
     else rt_rbb_blk_put i r = None).
Proof.
  intros R. pose proof (rr_links _ _ _ _ _ _ R) as K. split.
  - assert (rt_rbb_blk_get r = match List.find (is_put (rbb_set r)) (hi ++ lo) with
      | Some i => Some (Some i, set_status i RT_RBB_BLK_GET r) | None => Some (None, r) end) as E.
    { unfold rt_rbb_blk_get. erewrite bind_eq by reflexivity. unfold rt_slist_isempty, rt_slist_first.
      rewrite <- (get_loop_eq r (hi ++ lo) BlkList (rbb_fuel r) (lk_list _ _ _ K)).
      - destruct (rbb_next r BlkList); [rewrite bool_decide_eq_false_2 by discriminate|rewrite bool_decide_eq_true_2 by reflexivity]; reflexivity.
      - intros i Hi. destruct (used_blk _ _ _ _ _ _ _ R Hi) as (b & Hb & _). eauto.
      - pose proof (lk_max _ _ _ K) as Hm. unfold rbb_fuel. rewrite length_app in Hm. lia. }
    destruct (List.find _ _) as [i|] eqn:Ef; [|exact E]. split; [exact E|].
    apply find_some in Ef as [Hi _]. apply set_status_rep; [exact R|apply list_elem_of_In, Hi|discriminate].
  - intros i Hi. destruct (used_blk _ _ _ _ _ _ _ R Hi) as (b & Hb & _). unfold rt_rbb_blk_put.
    rewrite (blk_of_eq _ _ _ Hb). erewrite bind_eq by (apply get_blk_eq; exact Hb).
    destruct (bool_decide (bk_status b = RT_RBB_BLK_INITED)); [|reflexivity]. split; [|apply set_status_rep; [exact R|exact Hi|discriminate]].
    erewrite bind_eq by reflexivity. rewrite (upd_blk_eq _ _ _ _ Hb). unfold set_status. rewrite (blk_of_eq _ _ _ Hb). reflexivity.
Qed.

(** ** A run *)

(** Four descriptors and the 100 bytes at 1000. *)
Definition rbb_store : rt_rbb := mkRbb 0 0 0 ∅ (fun _ => None) BlkList.
Definition rbb_blks : gmap Z rt_rbb_blk :=
  list_to_map ((fun i => (Z.of_nat i, mkBlk RT_RBB_BLK_GET 0 0)) <$> seq 0 4).
Definition rbb_run {A} (m : RB A) : option (A * rt_rbb) :=
  (rt_rbb_init 1000 100 rbb_blks 4;; m) rbb_store.
Definition rbb_after {A} (m : RB A) : rt_rbb := default rbb_store (snd <$> rbb_run m).

(** Three blocks, of which the first is released and the two others are put: the
    fourth wraps. *)
Definition rbb_wrapped : RB (option Z) :=
  rt_rbb_blk_alloc 40;; rt_rbb_blk_alloc 30;; rt_rbb_blk_alloc 20;;
  rt_rbb_blk_free 3;; rt_rbb_blk_put 1;; rt_rbb_blk_put 2;; rt_rbb_blk_alloc 25.

Example rbb_wraps : fst <$> rbb_run (rbb_wrapped;; rt_rbb_blk_buf 3) = Some 1000.
Proof. vm_compute. reflexivity. Qed.

Lemma rbb_wrapped_rep : rbb_rep 1000 100 [2; 1] [3] [0] (rbb_after rbb_wrapped).
Proof.
  split.
  1, 2: vm_compute; reflexivity.
  - lia.
  - split.
    + cbn [app fmap list_fmap schain]. repeat split; vm_compute; reflexivity.
    + cbn [fmap list_fmap schain]. split; vm_compute; reflexivity.
    + apply (bool_decide_unpack _). vm_compute. exact I.
    + apply Nat.leb_le. vm_compute. reflexivity.
    + vm_compute. reflexivity.
  - discriminate.
  - intros i Hi. cbn in Hi. rewrite !elem_of_cons in Hi.
    destruct Hi as [->|[->|[->|[]%elem_of_nil]]]; vm_compute; discriminate.
  - intros i ->%list_elem_of_singleton. eexists. split; vm_compute; reflexivity.
  - cbn [app packed]. eexists. split; [vm_compute; reflexivity|]. cbn. split; [lia|]. split; [lia|].
    eexists. split; [vm_compute; reflexivity|]. cbn. split; [lia|]. split; [lia|].
    eexists. split; [vm_compute; reflexivity|]. cbn. lia.
Qed.

Lemma rbb_alloc_places_witness : exists r' hi' lo',
  rt_rbb_blk_alloc 15 (rbb_after rbb_wrapped) = Some (Some 0, r') /\ rbb_rep 1000 100 hi' lo' [] r' /\ hi' ++ lo' = [2; 1; 3; 0] /\
  rbb_set r' = <[0 := mkBlk RT_RBB_BLK_INITED 15 1025]> (rbb_set (rbb_after rbb_wrapped)).
Proof.
  pose proof (rbb_alloc_places 1000 100 [2; 1] [3] [0] _ 15 rbb_wrapped_rep ltac:(lia) ltac:(discriminate)) as H. cbv beta iota in H.
  replace (place _ _ _ _ _ _) with (Some 1025) in H by (vm_compute; reflexivity). destruct H as (r' & hi' & lo' & H1 & H2 & H3 & H4 & _).
  exists r', hi', lo'. auto.
Defined.

Lemma rbb_get_oldest_witness :
  rt_rbb_blk_get (rbb_after rbb_wrapped) = Some (Some 2, set_status 2 RT_RBB_BLK_GET (rbb_after rbb_wrapped)) /\
  rbb_rep 1000 100 [2; 1] [3] [0] (set_status 2 RT_RBB_BLK_GET (rbb_after rbb_wrapped)).
Proof. exact (proj1 (rbb_get_oldest 1000 100 [2; 1] [3] [0] _ rbb_wrapped_rep)). Defined.

(** ** What the code does besides *)

(** An empty buffer takes a block that is larger than it. *)
Lemma rbb_alloc_too_large : fst <$> rbb_run (rt_rbb_blk_alloc 200;; rt_rbb_blk_size 3) = Some 200.
Proof. vm_compute. reflexivity. Qed.

(** Each allocation that finds no room loses a descriptor: after three of them and the
    release of the only block, one of the four descriptors is left. *)
Lemma rbb_alloc_leaks :
  fst <$> rbb_run (
    rt_rbb_blk_alloc 90;; rt_rbb_blk_alloc 90;; rt_rbb_blk_alloc 90;; rt_rbb_blk_alloc 90;;
    rt_rbb_blk_free 3;; a ← rt_rbb_blk_alloc 10; b ← rt_rbb_blk_alloc 10; mret (a, b)) =
  Some (Some 3, None).
Proof. vm_compute. reflexivity. Qed.

(** A block of no bytes that ends where the oldest block starts hides that the blocks
    have wrapped: the next one is placed on the oldest block. *)
Lemma rbb_zero_block_overlaps :
  fst <$> rbb_run (
    rt_rbb_blk_alloc 60;; rt_rbb_blk_alloc 40;; rt_rbb_blk_free 3;; rt_rbb_blk_alloc 60;; rt_rbb_blk_alloc 0;; c ← rt_rbb_blk_alloc 10;
    old ← rt_rbb_blk_buf 2; new ← rt_rbb_blk_buf 0; mret (c, old, new)) =
  Some (Some 0, 1060, 1060).
Proof. vm_compute. reflexivity. Qed.

(** The queue gives the first block whatever its size. *)
Lemma rbb_queue_first_too_large :
  fst <$> rbb_run (rt_rbb_blk_alloc 40;; rt_rbb_blk_put 3;; rt_rbb_blk_queue_get 10 (mkQueue None 0)) =
  Some (40, mkQueue (Some 3) 1).
Proof. vm_compute. reflexivity. Qed.

(** The bytes of a queue need not be continuous: the middle one of three blocks was
    released. *)
Lemma rbb_queue_has_hole :
  fst <$> rbb_run (
    rt_rbb_blk_alloc 40;; rt_rbb_blk_alloc 30;; rt_rbb_blk_alloc 20;; rt_rbb_blk_put 3;; rt_rbb_blk_put 1;; rt_rbb_blk_free 2;;
    '(n, q) ← rt_rbb_blk_queue_get 100 (mkQueue None 0);
    len ← rt_rbb_blk_queue_len q; a ← rt_rbb_blk_buf 3; b ← rt_rbb_blk_buf 1; mret (n, q, len, a, b)) =
  Some (60, mkQueue (Some 3) 2, 60, 1000, 1070).
Proof. vm_compute. reflexivity. Qed.
