(* ===== verification/SchedProps.v ===== *)
(** * Properties of the scheduler

    The scheduling policy of [rt_schedule], round-robin at equal priority, the
    time slice, and what waking a thread does on every branch. *)

From S2P Require Import Prelude Bitmap Kernel Timer Sched IpcList Thread KernelInv TimerInv.
From S2P Require Import SchedInv ThreadInv TimerIdle ThreadOps SystemInv Demo.
Open Scope rt_scope.

(** ** The policy *)

(** [p] is the most urgent priority with a ready thread. *)
Definition most_urgent (k : kernel) (p : Z) : Prop :=
  0 <= p < RT_THREAD_PRIORITY_MAX /\ k_lists k (LReady p) <> [] /\
  forall q, 0 <= q < p -> k_lists k (LReady q) = [].

(** The current thread goes on: it can run, and no ready thread is more urgent,
    or as urgent while the current thread yields. *)
Definition keeps_cpu (cth : thread) (p : Z) : Prop :=
  stat_of cth = RT_THREAD_RUNNING /\
  (th_cur_prio cth < p \/
   th_cur_prio cth = p /\ has_flag (th_stat cth) RT_THREAD_STAT_YIELD = false).

Lemma sched_pick_spec c cth cand hp :
  (keeps_cpu cth hp /\ sched_pick c cth cand hp = (c, false)) \/
  (~ keeps_cpu cth hp /\ sched_pick c cth cand hp = (cand, stat_of cth =? RT_THREAD_RUNNING)).
Proof.
  unfold sched_pick, keeps_cpu. destruct (stat_of cth =? RT_THREAD_RUNNING) eqn:Hr; bool_to_prop.
  - destruct (th_cur_prio cth <? hp) eqn:H1; bool_to_prop; [left; tauto|].
    destruct (th_cur_prio cth =? hp) eqn:H2; bool_to_prop; cbn [andb].
    + destruct (has_flag _ _) eqn:Hy; cbn [negb]; [right; split; [|reflexivity]|left; auto].
      intros [_ [H|[_ H]]]; [lia|discriminate].
    + right. split; [|reflexivity]. intros [_ [H|[H _]]]; lia.
  - right. split; [tauto|reflexivity].
Qed.

(** The queues without the thread that is picked. *)
Lemma head_removed k hp cand q p :
  inv k -> k_lists k (LReady hp) = cand :: q ->
  filter (fun x => x <> cand) (k_lists k (LReady p)) = if p =? hp then q else k_lists k (LReady p).
Proof.
  intros I Hl. assert (cand ∈ k_lists k (LReady hp)) as Hin by (rewrite Hl; apply list_elem_of_here).
  destruct (Z.eqb_spec p hp) as [->|Hp].
  - rewrite Hl, filter_cons_False by (intros H; apply H; reflexivity). apply filter_ne_notin.
    pose proof (i_nodup _ _ I (LReady hp)) as Hnd. rewrite Hl in Hnd. apply NoDup_cons in Hnd. apply Hnd.
  - apply filter_ne_notin. intros Hx. pose proof (i_uniq _ _ I _ _ _ Hx Hin) as [= ?]. contradiction.
Qed.

(** The queues after a switch from a running thread, or from one that waits. *)
Lemma switched_lists k c cth cand ins hp q p :
  inv k -> k_lists k (LReady hp) = cand :: q -> c <> cand ->
  switched k c cth cand ins (LReady p) =
    let rest := if p =? hp then q else k_lists k (LReady p) in
    if ins && (p =? th_cur_prio cth)
    then if has_flag (th_stat cth) RT_THREAD_STAT_YIELD then rest ++ [c] else c :: rest
    else rest.
Proof.
  intros I Hl Hne. pose proof (head_removed k hp cand q p I Hl) as Hf. cbv zeta.
  unfold switched. destruct ins; cbn [andb]; [|exact Hf].
  unfold inserted. destruct (Z.eqb_spec p (th_cur_prio cth)) as [->|Hp].
  - destruct (has_flag _ _); rewrite fn_lookup_insert.
    + rewrite filter_app, Hf. f_equal. rewrite filter_cons_True by congruence. reflexivity.
    + rewrite filter_cons_True by congruence. rewrite Hf. reflexivity.
  - destruct (has_flag _ _); rewrite fn_lookup_insert_ne by congruence; exact Hf.
Qed.

(** The policy as one statement. *)
Lemma schedule_picks k c cth hp cand q :
  inv k -> k_lock_nest k = 0 -> k_current k = Some c -> k_threads k !! c = Some cth ->
  most_urgent k hp -> k_lists k (LReady hp) = cand :: q ->
  exists k' to tth, rt_schedule k = Some (tt, k') /\ inv k' /\ sched_frame k k' /\
    k_current k' = Some to /\ k_threads k' !! to = Some tth /\ stat_of tth = RT_THREAD_RUNNING /\
    (forall p, 0 <= p < th_cur_prio tth -> k_lists k' (LReady p) = []) /\
    ((keeps_cpu cth hp /\ to = c /\ forall p, k_lists k' (LReady p) = k_lists k (LReady p)) \/
     (~ keeps_cpu cth hp /\ to = cand /\ forall p, k_lists k' (LReady p) =
        let rest := if p =? hp then q else k_lists k (LReady p) in
        if (stat_of cth =? RT_THREAD_RUNNING) && (p =? th_cur_prio cth)
        then if has_flag (th_stat cth) RT_THREAD_STAT_YIELD then rest ++ [c] else c :: rest
        else rest)).
Proof.
  intros I Hn Hc Hct (Hhp & Hne & Hlow) Hl.
  destruct (schedule_total k c cth I Hc Hct) as (k' & H & I' & F & [[[?|Hg] _]|(_ & S)]); [contradiction| |].
  { exfalso. apply Hne. pose proof (i_bits _ _ I _ Hhp) as Hb. rewrite Hg, Z.bits_0 in Hb.
    symmetry in Hb. apply negb_false_iff, bool_decide_eq_true in Hb. exact Hb. }
  destruct S as (cand' & hp' & q' & ins & to & Hl' & Hhp' & Hlow' & Hpick & Hc' & Hls & tth & Htth & Hrun).
  assert (hp' = hp) as ->.
  { destruct (Z.lt_trichotomy hp hp') as [Hlt|[->|Hlt]]; [|reflexivity|].
    - rewrite Hlow' in Hl by lia. discriminate.
    - rewrite Hlow in Hl' by lia. discriminate. }
  rewrite Hl in Hl'. injection Hl' as <- <-.
  assert (cand ∈ k_lists k (LReady hp)) as Hin by (rewrite Hl; apply list_elem_of_here).
  assert (c <> cand) as Hcc.
  { intros ->. destruct (so_current _ _ _ _ _ (inv_stat _ _ _ I Hct) Hc) as [Hx _].
    apply Hx, (so_ready _ _ _ _ _ (inv_stat _ _ _ I Hct)). eauto. }
  exists k', to, tth. split; [assumption|]. split; [assumption|]. split; [assumption|]. split; [assumption|].
  split; [assumption|]. split; [assumption|].
  assert (exists th0, k_threads k !! to = Some th0 /\ th_cur_prio tth = th_cur_prio th0) as (th0 & Ht0 & Hp0).
  { pose proof (sf_threads _ _ F to) as R. destruct (k_threads k !! to) as [th0|]; cbn in R.
    - destruct R as (s & R & _). exists th0. split; [reflexivity|]. rewrite Htth in R. injection R as ->. reflexivity.
    - congruence. }
  rewrite Hp0. destruct (sched_pick_spec c cth cand hp) as [[Hk Hp]|[Hk Hp]]; rewrite Hp in Hpick;
    injection Hpick as <- <-.
  - rewrite Hct in Ht0. injection Ht0 as <-.
    destruct (running_off _ _ _ _ I (fun H => H) Hct (proj1 Hk)) as [Hoff _].
    assert (forall l, k_lists k' l = k_lists k l) as Hsame.
    { intros l. rewrite Hls. unfold switched. apply filter_ne_notin, Hoff. }
    split; [|left; auto]. intros p Hpp. rewrite Hsame. apply Hlow. destruct Hk as [_ [?|[? _]]]; lia.
  - pose proof (tw_ready _ _ _ _ (i_threads _ _ I _ _ Ht0) _ Hin) as [Hcp _].
    assert (forall p, k_lists k' (LReady p) = let rest := if p =? hp then q else k_lists k (LReady p) in
        if (stat_of cth =? RT_THREAD_RUNNING) && (p =? th_cur_prio cth)
        then if has_flag (th_stat cth) RT_THREAD_STAT_YIELD then rest ++ [c] else c :: rest
        else rest) as Hq.
    { intros p. rewrite Hls. apply switched_lists; assumption. }
    split; [|right; auto]. intros p Hpp. rewrite Hq. cbv zeta.
    destruct (p =? hp) eqn:E; bool_to_prop; [lia|]. rewrite Hlow by lia.
    destruct (stat_of cth =? RT_THREAD_RUNNING) eqn:Hr; bool_to_prop; [|reflexivity]. cbn [andb].
    destruct (Z.eqb_spec p (th_cur_prio cth)) as [->|]; [|reflexivity].
    exfalso. apply Hk. split; [assumption|]. left. lia.
Qed.

(** C2: With the scheduler unlocked and a thread ready, rt_schedule returns and
    lets run the current thread when it keeps the processor, otherwise the head
    of the most urgent ready queue, which leaves that queue while a running
    thread that is preempted goes to the head of the queue of its priority and
    one that yields to the tail; then no ready thread is more urgent than the
    one that runs.  *)
Theorem schedule_policy k c cth hp cand q :
  inv k -> k_lock_nest k = 0 -> k_current k = Some c -> k_threads k !! c = Some cth ->
  most_urgent k hp -> k_lists k (LReady hp) = cand :: q ->
  exists k' to tth, rt_schedule k = Some (tt, k') /\ inv k' /\
    k_current k' = Some to /\ k_threads k' !! to = Some tth /\ stat_of tth = RT_THREAD_RUNNING /\
    (forall p, 0 <= p < th_cur_prio tth -> k_lists k' (LReady p) = []) /\
    ((keeps_cpu cth hp /\ to = c /\ forall p, k_lists k' (LReady p) = k_lists k (LReady p)) \/
     (~ keeps_cpu cth hp /\ to = cand /\ forall p, k_lists k' (LReady p) =
        let rest := if p =? hp then q else k_lists k (LReady p) in
        if (stat_of cth =? RT_THREAD_RUNNING) && (p =? th_cur_prio cth)
        then if has_flag (th_stat cth) RT_THREAD_STAT_YIELD then rest ++ [c] else c :: rest
        else rest)).
Proof.
  intros I Hn Hc Hct Hm Hl.
  destruct (schedule_picks k c cth hp cand q I Hn Hc Hct Hm Hl) as (k' & to & tth & H & I' & _ & D). eauto 10.
Qed.

(** The main thread yields to thread 300 of the same priority. *)
Definition k_yielding : kernel := run (rt_sched_thread_yield 100) (k_two 10).

Lemma k_yielding_inv : inv k_yielding.
Proof. apply run_kinv; [preserve|]. apply k_two_kinv. lia. Qed.

Lemma schedule_policy_witness :
  inv k_yielding /\ most_urgent k_yielding 10 /\
  exists k', rt_schedule k_yielding = Some (tt, k') /\ k_current k' = Some 300 /\
    k_lists k' (LReady 10) = [100].
Proof.
  split; [exact k_yielding_inv|].
  assert (most_urgent k_yielding 10) as Hm.
  { split; [unfold RT_THREAD_PRIORITY_MAX; lia|]. split; [vm_compute; discriminate|].
    apply queues_empty_spec. vm_compute. reflexivity. }
  split; [exact Hm|].
  destruct (schedule_policy k_yielding 100 (thread_of k_yielding 100) 10 300 [] k_yielding_inv eq_refl)
    as (k' & to & tth & H & _ & Hc & _ & _ & _ & D); try (vm_compute; reflexivity); [exact Hm|].
  exists k'. split; [exact H|]. destruct D as [[[_ [Hk|[_ Hk]]] _]|(_ & -> & Hq)].
  - vm_compute in Hk. discriminate.
  - vm_compute in Hk. discriminate.
  - split; [exact Hc|]. rewrite Hq. vm_compute. reflexivity.
Defined.

(** ** Time slices *)

Lemma yield_thread_eq t k th :
  k_threads k !! t = Some th ->
  rt_sched_thread_yield t k = Some (tt, k <| k_threads ::= insert t
    (th <| th_remaining := th_init_tick th |> <| th_stat ::= (fun s => Z.lor s RT_THREAD_STAT_YIELD) |>) |>).
Proof.
  intros Ht. unfold rt_sched_thread_yield. erewrite bind_eq by (apply upd_thread_eq; exact Ht).
  unfold set_stat. erewrite upd_thread_eq by apply lookup_insert_eq.
  f_equal. f_equal. cbv [set_field]. cbn. rewrite insert_insert_eq. reflexivity.
Qed.

(** The current thread yields, with a ready thread of its priority and none that
    is more urgent. *)
Lemma yield_rotates k c cth t q :
  inv k -> k_lock_nest k = 0 -> k_current k = Some c -> k_threads k !! c = Some cth ->
  stat_of cth = RT_THREAD_RUNNING -> k_lists k (LReady (th_cur_prio cth)) = t :: q ->
  (forall p, 0 <= p < th_cur_prio cth -> k_lists k (LReady p) = []) ->
  exists k' cth', (rt_sched_thread_yield c;; rt_sched_unlock_n_resched) k = Some (tt, k') /\ inv k' /\
    k_current k' = Some t /\ k_lists k' (LReady (th_cur_prio cth)) = q ++ [c] /\
    k_threads k' !! c = Some cth' /\ th_remaining cth' = th_init_tick cth.
Proof.
  intros I Hn Hc Hct Hr Hl Hlow. pose proof (yield_thread_eq c k cth Hct) as Hy.
  pose proof (yield_flag_preserves _ c _ _ _ I Hy) as I1.
  set (cth1 := cth <| th_remaining := _ |> <| th_stat ::= _ |>) in *.
  set (k1 := k <| k_threads ::= insert c cth1 |>) in *.
  assert (k_threads k1 !! c = Some cth1) as Hct1 by apply lookup_insert_eq.
  assert (stat_of cth1 = RT_THREAD_RUNNING) as Hr1 by (rewrite <- Hr; apply (stat_of_set_yield cth)).
  assert (has_flag (th_stat cth1) RT_THREAD_STAT_YIELD = true) as Hf by (apply (has_flag_set_same (th_stat cth) 3); lia).
  assert (most_urgent k1 (th_cur_prio cth)) as Hm.
  { split; [apply (tw_prio _ _ _ _ (i_threads _ _ I _ _ Hct))|].
    split; [change (k_lists k (LReady (th_cur_prio cth)) <> []); rewrite Hl; discriminate|exact Hlow]. }
  destruct (schedule_picks k1 c cth1 _ t q I1 Hn Hc Hct1 Hm Hl)
    as (k' & to & tth & H & I' & F & Hc' & _ & _ & _ & [[[_ [Hk|[_ Hk]]] _]|(_ & -> & Hq)]).
  - cbn in Hk. lia.
  - rewrite Hk in Hf. discriminate.
  - pose proof (sf_threads _ _ F c) as R. rewrite Hct1 in R. destruct R as (s & Hc1 & _).
    exists k', (cth1 <| th_stat := s |>). split.
    { erewrite bind_eq by exact Hy. unfold rt_sched_unlock_n_resched. erewrite bind_eq by reflexivity.
      change (k_current k1) with (k_current k). rewrite Hc. exact H. }
    split; [assumption|]. split; [assumption|]. split; [|split; [exact Hc1|reflexivity]].
    rewrite Hq. cbv zeta. rewrite Z.eqb_refl, Hr1, Hf. cbn. rewrite Z.eqb_refl. reflexivity.
Qed.

(** C3: Every tick takes one from the time slice of the current thread; when
    the slice is used up, it is reloaded and the thread goes behind the ready
    threads of its priority, the first of which runs (round robin).  *)
Theorem time_slice_round_robin k c cth t q :
  inv k -> k_lock_nest k = 0 -> k_current k = Some c -> k_threads k !! c = Some cth ->
  stat_of cth = RT_THREAD_RUNNING -> k_lists k (LReady (th_cur_prio cth)) = t :: q ->
  (forall p, 0 <= p < th_cur_prio cth -> k_lists k (LReady p) = []) ->
  0 <= th_remaining cth < 2 ^ 32 ->
  exists k' cth', rt_sched_tick_increase k = Some (RT_EOK, k') /\ inv k' /\ k_threads k' !! c = Some cth' /\
    if th_remaining cth =? 1
    then k_current k' = Some t /\ th_remaining cth' = th_init_tick cth /\
         k_lists k' (LReady (th_cur_prio cth)) = q ++ [c]
    else k_current k' = Some c /\ th_remaining cth' = u32 (th_remaining cth - 1) /\
         k_lists k' = k_lists k.
Proof.
  intros I Hn Hc Hct Hr Hl Hlow Hrange.
  set (cth1 := cth <| th_remaining ::= (fun r => u32 (r - 1)) |>).
  set (k1 := k <| k_threads ::= insert c cth1 |>).
  assert (k_threads k1 !! c = Some cth1) as Hct1 by apply lookup_insert_eq.
  assert (inv k1) as I1.
  { eapply (upd_thread_same _ c (fun th => th <| th_remaining ::= (fun r => u32 (r - 1)) |>)); [|exact I|].
    - intros th. repeat split.
    - apply upd_thread_eq, Hct. }
  unfold rt_sched_tick_increase.
  erewrite bind_eq by (unfold the_self; erewrite bind_eq by reflexivity; rewrite Hc; reflexivity).
  erewrite bind_eq by (apply upd_thread_eq; exact Hct).
  change (k <| k_threads ::= insert c _ |>) with k1.
  erewrite bind_eq by (apply get_thread_eq; exact Hct1).
  change (th_remaining cth1) with (u32 (th_remaining cth - 1)).
  destruct (Z.eqb_spec (th_remaining cth) 1) as [H1|H1].
  - rewrite H1. change (u32 (1 - 1)) with 0. cbn [negb Z.eqb].
    destruct (yield_rotates k1 c cth1 t q I1 Hn Hc Hct1 Hr Hl Hlow) as (k' & cth' & H & I' & Hc' & Hq & Hct' & Hrem).
    exists k', cth'. split; [erewrite bind_eq by exact H; reflexivity|]. auto.
  - destruct (Z.eqb_spec (u32 (th_remaining cth - 1)) 0) as [H0|H0]; cbn [negb].
    + exfalso. unfold u32 in H0. apply Z.mod_divide in H0 as [z Hz]; [|lia]. lia.
    + exists k1, cth1. split; [reflexivity|]. split; [assumption|]. split; [assumption|]. auto.
Qed.

(** Nineteen of the main thread's twenty ticks have passed. *)
Definition k_last_tick : kernel := Nat.iter 19 (run rt_sched_tick_increase) (k_two 10).

Lemma k_last_tick_inv : inv k_last_tick.
Proof. apply iter_kinv; [preserve|]. apply k_two_kinv. lia. Qed.

Lemma time_slice_round_robin_witness :
  inv k_last_tick /\ exists k', rt_sched_tick_increase k_last_tick = Some (RT_EOK, k') /\
    k_current k' = Some 300 /\ k_lists k' (LReady 10) = [100].
Proof.
  split; [exact k_last_tick_inv|].
  assert (k_lock_nest k_last_tick = 0) as Hn by (vm_compute; reflexivity).
  destruct (time_slice_round_robin k_last_tick 100 (thread_of k_last_tick 100) 300 [] k_last_tick_inv Hn)
    as (k' & cth' & H & _ & _ & D); try (vm_compute; reflexivity).
  - apply queues_empty_spec. vm_compute. reflexivity.
  - vm_compute. split; [discriminate|reflexivity].
  - assert ((th_remaining (thread_of k_last_tick 100) =? 1) = true) as E by (vm_compute; reflexivity).
    assert (th_cur_prio (thread_of k_last_tick 100) = 10) as Ep by (vm_compute; reflexivity).
    rewrite E in D. destruct D as (H1 & _ & H3). rewrite Ep in H3. exists k'. auto.
Defined.
