(* ===== verification/Blocking.v ===== *)
(** * Blocking and waking, as total functions

    What the two halves of every blocking call do: the calling thread goes to
    sleep on an object and the processor is given to the next thread; a thread
    that waits is woken and preempts the caller if it is more urgent. *)

From S2P Require Import Prelude Bitmap Kernel Timer Sched IpcList Thread KernelInv TimerInv.
From S2P Require Import SchedInv ThreadInv TimerIdle ThreadOps SystemInv SchedProps.
Open Scope rt_scope.

(** ** The caller *)

(** Thread [t] runs, outside of interrupts and with the scheduler unlocked. *)
Record in_thread (t : Z) (th : thread) (k : kernel) : Prop := {
  it_kinv : kinv k;
  it_current : k_current k = Some t;
  it_thread : k_threads k !! t = Some th;
  it_running : stat_of th = RT_THREAD_RUNNING;
  it_nest : k_lock_nest k = 0;
  it_irq : k_irq_nest k = 0;
}.

Lemma not_in_interrupt_eq k : k_irq_nest k = 0 -> RT_DEBUG_NOT_IN_INTERRUPT k = Some (tt, k).
Proof. intros H. unfold RT_DEBUG_NOT_IN_INTERRUPT. erewrite bind_eq by reflexivity. rewrite H. reflexivity. Qed.

Lemma scheduler_available_eq t th k b : in_thread t th k -> RT_DEBUG_SCHEDULER_AVAILABLE b k = Some (tt, k).
Proof.
  intros []. destruct b; [|reflexivity]. unfold RT_DEBUG_SCHEDULER_AVAILABLE. cbn [when].
  erewrite bind_eq by reflexivity. erewrite bind_eq by (apply assert_eq, Z.eqb_eq, it_nest0).
  unfold RT_DEBUG_IN_THREAD_CONTEXT. erewrite bind_eq by reflexivity.
  erewrite bind_eq by (apply assert_eq; rewrite it_current0; reflexivity).
  apply not_in_interrupt_eq, it_irq0.
Qed.

Lemma the_self_eq t k : k_current k = Some t -> the_self k = Some (t, k).
Proof. intros H. unfold the_self, rt_thread_self. erewrite bind_eq by reflexivity. rewrite H. reflexivity. Qed.

Lemma get_obj_eq {O} (proj : kernel -> gmap Z O) i x k : proj k !! i = Some x -> get_obj proj i k = Some (x, k).
Proof. intros H. unfold get_obj. rewrite H. reflexivity. Qed.

(** The caller writes fields of its thread object that scheduling does not read. *)
Lemma in_thread_upd t th k f :
  in_thread t th k -> (forall th, same_sched th (f th)) ->
  (forall th, th_processing th = false -> th_processing (f th) = false) ->
  in_thread t (f th) (k <| k_threads ::= insert t (f th) |>).
Proof.
  intros [[I Q] Hc Ht Hr Hn Hi] Hs Hp. pose proof (upd_thread_eq t f k th Ht) as H.
  split; [split| | | | |]; try assumption.
  - exact (upd_thread_same _ t f Hs _ _ _ I H).
  - exact (upd_thread_idle _ t f Hp _ _ _ Q H).
  - apply lookup_insert_eq.
  - destruct (Hs th) as (_ & -> & _). exact Hr.
Qed.

(** ** Going to sleep *)

(** [k'] is [k] after the running thread [t] went to sleep on list [l], with a
    timeout when it is positive, and the processor was given away. *)
Record asleep (t : Z) (l : lid) (flag timeout : Z) (k k' : kernel) : Prop := {
  as_frame : obj_frame k k';
  as_list : k_lists k' l = enqueued flag (prio_of k) t (k_lists k l);
  as_lists : forall l', ready_list l' = false -> l' <> l -> k_lists k' l' = k_lists k l';
  as_thread : exists th th', k_threads k !! t = Some th /\ k_threads k' !! t = Some th' /\
    is_suspended th' = true /\ th_error th' = th_error th /\ th_cur_prio th' = th_cur_prio th /\
    th_evset th' = th_evset th /\ th_evinfo th' = th_evinfo th /\ th_pending th' = th_pending th;
  as_timer : if 0 <? timeout
             then TThread t ∈ k_timer_list k' /\ timeout_of k' (TThread t) = u32 (k_tick k + timeout)
             else TThread t ∉ k_timer_list k';
  as_others : forall x, x <> t -> restat (k_threads k !! x) (k_threads k' !! x);
  as_next : forall hp next q, most_urgent k hp -> k_lists k (LReady hp) = next :: q -> k_current k' = Some next;
}.

Lemma restat_suspended o o' th : restat o o' -> o = Some th -> is_suspended th = true ->
  exists s, o' = Some (th <| th_stat := s |>) /\ is_suspended (th <| th_stat := s |>) = true.
Proof.
  intros R -> Hs. destruct R as (s & -> & Hst). exists s. split; [reflexivity|].
  destruct Hst as [Hst|[[Ha|Ha] _]].
  - rewrite is_suspended_stat, Hst, <- is_suspended_stat. exact Hs.
  - rewrite is_suspended_stat, Ha in Hs. discriminate.
  - rewrite is_suspended_stat, Ha in Hs. discriminate.
Qed.

Lemma restat_timeout_of k k' i :
  sched_frame k k' -> timeout_of k' i = timeout_of k i.
Proof.
  intros F. destruct i as [x|u]; cbn [timeout_of]; [|rewrite (sf_utimers _ _ F); reflexivity].
  pose proof (sf_threads _ _ F x) as R. destruct (k_threads k !! x) as [th|]; cbn in R.
  - destruct R as (s & -> & _). reflexivity.
  - rewrite R. reflexivity.
Qed.

(** [rt_sched_thread_ready] can wake [t]: it is suspended and its timer can be stopped. *)
Definition wakeable (t : Z) (k : kernel) : Prop :=
  exists th, k_threads k !! t = Some th /\ is_suspended th = true /\ ready_error t th k = RT_EOK.

(** [rt_thread_suspend_to_list] of the caller. *)
Lemma suspend_step k t th o flag f :
  in_thread t th k -> flag_ok_for o flag ->
  exists k1 th1, rt_thread_suspend_to_list t o flag f k = Some (RT_EOK, k1) /\ kinv k1 /\ suspended t th o flag k k1 /\
    k_threads k1 !! t = Some th1 /\ is_suspended th1 = true /\ (TThread t ∉ k_timer_list k1) /\
    th_ttmr th1 = false /\ th_error th1 = th_error th /\ th_cur_prio th1 = th_cur_prio th /\ th_evset th1 = th_evset th /\
    th_evinfo th1 = th_evinfo th /\ th_pending th1 = th_pending th.
Proof.
  intros [[I Q] Hc Ht Hr Hn Hi] Ho.
  destruct (suspend_total k t th o flag f I Hc Ht Hr Ho) as (k1 & H1 & I1 & S).
  pose proof (suspend_to_list_idle _ t o flag f _ _ _ Q H1) as Q1.
  destruct (sp_thread _ _ _ _ _ _ S) as (s & Hs & Hs8 & Ht1).
  exists k1, (th <| th_stat ::= with_stat s |> <| th_ttmr := false |>). split; [exact H1|]. split; [split; assumption|].
  split; [exact S|]. split; [exact Ht1|]. split.
  { change (is_suspended (th <| th_stat ::= with_stat s |>) = true). rewrite suspended_with by lia. exact Hs. }
  split; [|repeat split; reflexivity]. rewrite (sp_timers _ _ _ _ _ _ S). apply (running_off _ _ _ _ I (fun H => H) Ht Hr).
Qed.

(** [if (timeout > 0)] set and start the timer of the sleeping thread. *)
Lemma arm_step k1 t th1 timeout :
  kinv k1 -> k_threads k1 !! t = Some th1 -> is_suspended th1 = true -> TThread t ∉ k_timer_list k1 -> timeout < HALF_TICK ->
  exists k2 th2, when (0 <? timeout) (start_thread_timer t timeout) k1 = Some (tt, k2) /\ kinv k2 /\ obj_frame k1 k2 /\
    k_current k2 = k_current k1 /\ k_lists k2 = k_lists k1 /\ (forall x, x <> t -> k_threads k2 !! x = k_threads k1 !! x) /\
    k_threads k2 !! t = Some th2 /\ is_suspended th2 = true /\ th_error th2 = th_error th1 /\ th_cur_prio th2 = th_cur_prio th1 /\
    th_evset th2 = th_evset th1 /\ th_evinfo th2 = th_evinfo th1 /\ th_pending th2 = th_pending th1 /\
    (th_ttmr th1 = false -> wakeable t k2) /\
    if 0 <? timeout then TThread t ∈ k_timer_list k2 /\ timeout_of k2 (TThread t) = u32 (k_tick k1 + timeout)
    else TThread t ∉ k_timer_list k2.
Proof.
  intros [I1 Q1] Ht1 Hs1 Hoff Hto. destruct (Z.ltb_spec 0 timeout) as [Hpos|Hneg]; cbn [when].
  - assert (u32 timeout = timeout) as Hu by (apply u32_small; change HALF_TICK with 2147483647 in Hto; lia).
    destruct (start_thread_timer_total t th1 k1 timeout I1 Ht1 Hs1 (q_flag _ _ Q1 t th1 Ht1 (fun H => H)))
      as (k2 & H2 & I2 & T & D); [lia|]. rewrite Hu in D.
    pose proof (start_thread_timer_idle _ t timeout _ _ _ Q1 H2) as Q2.
    destruct (ts_thread _ _ _ T) as (tha & th2 & Ea & Eb & A). rewrite Ht1 in Ea. injection Ea as <-.
    exists k2, th2. split; [exact H2|]. split; [split; assumption|]. split; [apply (ts_frame _ _ _ T)|].
    split; [apply (ts_current _ _ _ T)|]. split; [apply (ts_lists _ _ _ T)|]. split; [apply (ts_other _ _ _ T)|].
    split; [exact Eb|]. split; [unfold is_suspended in *; rewrite (ar_stat _ _ A); exact Hs1|].
    rewrite (ar_error _ _ A), (ar_prio _ _ A), (ar_evset _ _ A), (ar_evinfo _ _ A), (ar_pending _ _ A).
    repeat (split; [reflexivity|]). split; [|split; [apply (ts_listed _ _ _ T)|exact D]]. intros _.
    exists th2. split; [exact Eb|]. split; [unfold is_suspended in *; rewrite (ar_stat _ _ A); exact Hs1|].
    unfold ready_error. rewrite bool_decide_true by apply (ts_listed _ _ _ T). rewrite andb_false_r. reflexivity.
  - exists k1, th1. split; [reflexivity|]. split; [split; assumption|]. split; [reflexivity|].
    split; [reflexivity|]. split; [reflexivity|]. split; [reflexivity|]. split; [exact Ht1|]. split; [exact Hs1|].
    repeat (split; [reflexivity|]). split; [|exact Hoff]. intros Hf. exists th1. split; [exact Ht1|]. split; [exact Hs1|].
    unfold ready_error. rewrite Hf. reflexivity.
Qed.

(** The store between [rt_thread_suspend_to_list] and [rt_schedule]. *)
Lemma suspend_and_arm k t th l flag f timeout :
  in_thread t th k -> susp_list l = true -> flag_ok flag -> timeout < HALF_TICK ->
  exists k1 k2 th2, rt_thread_suspend_to_list t (Some l) flag f k = Some (RT_EOK, k1) /\
    when (0 <? timeout) (start_thread_timer t timeout) k1 = Some (tt, k2) /\ kinv k2 /\ k_tick k1 = k_tick k /\
    obj_frame k k2 /\ k_current k2 = Some t /\ (forall l', k_lists k2 l' = with_list (k_lists k) (Some l) flag (prio_of k) t l') /\
    (forall x, x <> t -> k_threads k2 !! x = k_threads k !! x) /\
    k_threads k2 !! t = Some th2 /\ is_suspended th2 = true /\ th_error th2 = th_error th /\
    th_cur_prio th2 = th_cur_prio th /\ th_evset th2 = th_evset th /\ th_evinfo th2 = th_evinfo th /\
    th_pending th2 = th_pending th /\
    if 0 <? timeout then TThread t ∈ k_timer_list k2 /\ timeout_of k2 (TThread t) = u32 (k_tick k + timeout)
    else TThread t ∉ k_timer_list k2.
Proof.
  intros C Hl Hf Hto.
  destruct (suspend_step k t th (Some l) flag f C (conj Hl Hf)) as (k1 & th1 & H1 & HK1 & S & Ht1 & Hs1 & Hoff & _ & E1 & E2 & E3 & E4 & E5).
  destruct (arm_step k1 t th1 timeout HK1 Ht1 Hs1 Hoff Hto)
    as (k2 & th2 & H2 & HK2 & F2 & Hc2 & L2 & O2 & Ht2 & Hs2 & G1 & G2 & G3 & G4 & G5 & _ & D).
  assert (k_tick k1 = k_tick k) as Htick by apply (of_tick _ _ (sp_frame _ _ _ _ _ _ S)). rewrite Htick in D.
  exists k1, k2, th2. split; [exact H1|]. split; [exact H2|]. split; [exact HK2|]. split; [exact Htick|].
  split; [etransitivity; [apply (sp_frame _ _ _ _ _ _ S)|exact F2]|].
  split; [rewrite Hc2, (sp_current _ _ _ _ _ _ S); apply C|].
  split; [intros l'; rewrite L2; apply (sp_lists _ _ _ _ _ _ S)|].
  split; [intros x Hx; rewrite (O2 x Hx); apply (sp_other _ _ _ _ _ _ S x Hx)|].
  split; [exact Ht2|]. split; [exact Hs2|]. rewrite G1, G2, G3, G4, G5. auto 6.
Qed.

(** [rt_schedule] after it. *)
Lemma sleep_total k t th l flag f timeout :
  in_thread t th k -> susp_list l = true -> flag_ok flag -> timeout < HALF_TICK ->
  exists k1 k2 k3, rt_thread_suspend_to_list t (Some l) flag f k = Some (RT_EOK, k1) /\ k_tick k1 = k_tick k /\
    when (0 <? timeout) (start_thread_timer t timeout) k1 = Some (tt, k2) /\
    rt_schedule k2 = Some (tt, k3) /\ kinv k3 /\ asleep t l flag timeout k k3.
Proof.
  intros C Hl Hf Hto.
  destruct (suspend_and_arm k t th l flag f timeout C Hl Hf Hto)
    as (k1 & k2 & th2 & H1 & H2 & [I2 Q2] & Htick & F2 & Hc2 & Ls2 & O2 & Ht2 & Hs2 & He & Hp & Hes & Hei & Hpo & Htm).
  destruct (schedule_total k2 t th2 I2 Hc2 Ht2) as (k3 & H3 & I3 & F3 & _).
  exists k1, k2, k3. do 4 (split; [assumption|]). split; [split; [exact I3|eapply schedule_idle; eauto]|].
  destruct (restat_suspended _ _ _ (sf_threads _ _ F3 t) Ht2 Hs2) as (s & Ht3 & Hs3). split.
  - etransitivity; [exact F2|apply sched_obj_frame, F3].
  - rewrite (sf_lists _ _ F3), Ls2 by (destruct l; (discriminate || reflexivity)). apply fn_lookup_insert.
  - intros l' Hl' Hne. rewrite (sf_lists _ _ F3), Ls2 by assumption. apply fn_lookup_insert_ne. congruence.
  - exists th, (th2 <| th_stat := s |>). split; [apply C|]. split; [exact Ht3|]. split; [exact Hs3|]. auto.
  - rewrite (sf_timers _ _ F3), (restat_timeout_of k2 k3 _ F3). exact Htm.
  - intros x Hx. rewrite <- (O2 x Hx). apply (sf_threads _ _ F3).
  - intros hp next q Hm Hq.
    assert (forall p, k_lists k2 (LReady p) = k_lists k (LReady p)) as Hready.
    { intros p. rewrite Ls2. apply fn_lookup_insert_ne. destruct l; discriminate. }
    assert (most_urgent k2 hp) as Hm2.
    { destruct Hm as (Hhp & Hne & Hlow). split; [exact Hhp|]. rewrite Hready. split; [exact Hne|].
      intros p Hpp. rewrite Hready. auto. }
    assert (k_lock_nest k2 = 0) as Hn2 by (rewrite (of_nest _ _ F2); apply C).
    destruct (schedule_picks k2 t th2 hp next q I2 Hn2 Hc2 Ht2 Hm2)
      as (k3' & to & tth & H3' & _ & _ & Hto' & _ & _ & _ & D); [rewrite Hready; exact Hq|].
    rewrite H3 in H3'. injection H3' as <-. rewrite Hto'. f_equal.
    destruct D as [[[Hrun _] _]|(_ & -> & _)]; [|reflexivity].
    rewrite is_suspended_stat, Hrun in Hs2. discriminate.
Qed.

(** ** Waking *)

(** No ready thread is more urgent than the one that runs. *)
Definition runs_most_urgent (k : kernel) : Prop :=
  exists c cth, k_current k = Some c /\ k_threads k !! c = Some cth /\
    forall p, 0 <= p < th_cur_prio cth -> k_lists k (LReady p) = [].

(** [k'] is [k] after thread [t], the first of list [l], was woken with error
    [e]. *)
Record woke (t : Z) (l : lid) (q : list Z) (e : Z) (k k' : kernel) : Prop := {
  wo_frame : obj_frame k k';
  wo_list : k_lists k' l = q;
  wo_lists : forall l', ready_list l' = false -> l' <> l -> k_lists k' l' = k_lists k l';
  wo_thread : exists th th', k_threads k !! t = Some th /\ k_threads k' !! t = Some th' /\
    awake th' /\ th_error th' = (if 0 <=? e then e else th_error th) /\ th_cur_prio th' = th_cur_prio th /\
    th_evset th' = th_evset th /\ th_evinfo th' = th_evinfo th /\ th_pending th' = th_pending th;
  wo_others : forall x, x <> t -> restat (k_threads k !! x) (k_threads k' !! x);
}.

Lemma no_group_empty k p : inv k -> k_group k = 0 -> 0 <= p < RT_THREAD_PRIORITY_MAX -> k_lists k (LReady p) = [].
Proof.
  intros I Hg Hp. pose proof (i_bits _ _ I p Hp) as Hb. rewrite Hg, Z.bits_0 in Hb.
  symmetry in Hb. apply negb_false_iff, bool_decide_eq_true in Hb. exact Hb.
Qed.

Lemma schedule_most_urgent k c cth :
  inv k -> k_current k = Some c -> k_threads k !! c = Some cth -> k_lock_nest k = 0 ->
  exists k', rt_schedule k = Some (tt, k') /\ inv k' /\ sched_frame k k' /\ runs_most_urgent k'.
Proof.
  intros I Hc Hct Hn.
  destruct (schedule_total k c cth I Hc Hct) as (k' & H & I' & F & [[[?|Hg] ->]|(_ & S)]); [contradiction| |].
  - exists k. split; [exact H|]. split; [exact I|]. split; [reflexivity|]. exists c, cth.
    split; [exact Hc|]. split; [exact Hct|]. intros p Hp. apply no_group_empty; [assumption..|].
    pose proof (tw_prio _ _ _ _ (i_threads _ _ I _ _ Hct)). lia.
  - destruct S as (cand & hp & q & ins & to & Hl & Hhp & Hlow & _).
    assert (most_urgent k hp) as Hm.
    { split; [exact Hhp|]. split; [rewrite Hl; discriminate|exact Hlow]. }
    destruct (schedule_picks k c cth hp cand q I Hn Hc Hct Hm Hl)
      as (k2 & to' & tth & H2 & _ & _ & Hto & Htth & _ & Hq & _).
    rewrite H in H2. injection H2 as <-. exists k'. split; [exact H|]. split; [exact I'|]. split; [exact F|].
    exists to', tth. auto.
Qed.

Lemma awake_restat th s : awake th ->
  stat_of (th <| th_stat := s |>) = stat_of th \/ awake th /\ awake (th <| th_stat := s |>) ->
  awake (th <| th_stat := s |>).
Proof. intros Ha [H|[_ H]]; [|exact H]. unfold awake in *. rewrite H. exact Ha. Qed.

(** Waking without the switch that may follow. *)
Lemma dequeued_woke t l q e k k1 k2 :
  inv k -> susp_list l = true -> k_lists k l = t :: q -> dequeued t e k k1 -> sched_frame k1 k2 -> woke t l q e k k2.
Proof.
  intros I Hl Hk D F. pose proof (susp_not_ready l Hl) as Hr.
  assert (t ∈ k_lists k l) as Hin by (rewrite Hk; apply list_elem_of_here). split.
  - etransitivity; [apply (dq_frame _ _ _ _ D)|apply sched_obj_frame, F].
  - rewrite (sf_lists _ _ F) by assumption. eapply dequeued_tail; eauto.
  - intros l' Hl' Hne. rewrite (sf_lists _ _ F) by assumption. eapply dequeued_other; eauto.
  - destruct (dq_thread _ _ _ _ D) as (th & th1 & Ht & Ht1 & W). pose proof (sf_threads _ _ F t) as R.
    rewrite Ht1 in R. destruct R as (s & Ht2 & Hst). exists th, (th1 <| th_stat := s |>).
    split; [exact Ht|]. split; [exact Ht2|]. split.
    { apply awake_restat; [|exact Hst]. destruct (wk_stat _ _ W); [right|left]; assumption. }
    destruct W. destruct (0 <=? e); cbn in *; repeat split; assumption.
  - intros x Hx. rewrite <- (dq_other _ _ _ _ D x Hx). apply (sf_threads _ _ F).
Qed.

Lemma wake_total k t l q e c :
  kinv k -> susp_list l = true -> k_lists k l = t :: q -> k_current k = Some c ->
  exists k1 k2, rt_susp_list_dequeue l e k = Some (Some t, k1) /\ rt_schedule k1 = Some (tt, k2) /\
    kinv k2 /\ woke t l q e k k2 /\ (k_lock_nest k = 0 -> runs_most_urgent k2).
Proof.
  intros [I Q] Hl Hk Hc. destruct (dequeue_cons l e k t q I Hl Hk) as (k1 & H1 & I1 & D).
  pose proof (dequeue_idle _ l e _ _ _ Q H1) as Q1.
  assert (k_current k1 = Some c) as Hc1 by (rewrite (dq_current _ _ _ _ D); exact Hc).
  destruct (i_cur _ _ I1 _ Hc1) as [cth Hct].
  destruct (schedule_total k1 c cth I1 Hc1 Hct) as (k2 & H2 & I2 & F & _).
  exists k1, k2. split; [exact H1|]. split; [exact H2|]. split; [split; [exact I2|exact (schedule_idle _ _ _ _ Q1 H2)]|].
  split; [eapply dequeued_woke; eauto|]. intros Hn.
  destruct (schedule_most_urgent k1 c cth I1 Hc1 Hct) as (k2' & H2' & _ & _ & M).
  - rewrite (of_nest _ _ (dq_frame _ _ _ _ D)). exact Hn.
  - rewrite H2 in H2'. injection H2' as <-. exact M.
Qed.

(** ** Waking a waiter, if there is one *)

(** The first thread of list [l] was woken with RT_EOK; without waiters nothing
    happened. *)
Definition notified (l : lid) (k k' : kernel) : Prop :=
  match k_lists k l with
  | [] => k' = k
  | t :: q => woke t l q RT_EOK k k' /\ (k_lock_nest k = 0 -> runs_most_urgent k')
  end.

Lemma notified_frame l k k' : notified l k k' -> obj_frame k k'.
Proof.
  unfold notified. destruct (k_lists k l); [intros ->; reflexivity|]. intros [W _]. apply (wo_frame _ _ _ _ _ _ W).
Qed.

Lemma notify_total l k c :
  kinv k -> susp_list l = true -> k_current k = Some c ->
  exists k', kinv k' /\ notified l k k' /\
    (forall A (r : A), (empty ← rt_list_isempty l;
      if negb empty then rt_susp_list_dequeue l RT_EOK;; rt_schedule;; mret r else mret r) k = Some (r, k')) /\
    (empty ← rt_list_isempty l; when (negb empty) (rt_susp_list_dequeue l RT_EOK;; rt_schedule)) k = Some (tt, k').
Proof.
  intros HK Hl Hc. unfold notified. destruct (k_lists k l) as [|t q] eqn:Hk.
  - exists k. split; [exact HK|]. split; [reflexivity|].
    assert (rt_list_isempty l k = Some (true, k)) as He.
    { unfold rt_list_isempty, st_gets. rewrite Hk. reflexivity. }
    split; intros; erewrite bind_eq by exact He; reflexivity.
  - destruct (wake_total k t l q RT_EOK c HK Hl Hk Hc) as (k1 & k2 & H1 & H2 & HK2 & W & M).
    exists k2. split; [exact HK2|]. split; [auto|].
    assert (rt_list_isempty l k = Some (false, k)) as He.
    { unfold rt_list_isempty, st_gets. rewrite Hk. reflexivity. }
    split; intros; erewrite bind_eq by exact He; cbn [negb when]; erewrite bind_eq by exact H1.
    + erewrite bind_eq by exact H2. reflexivity.
    + exact H2.
Qed.

(** ** Updates of the object tables *)

Lemma upd_obj_eq {O} (proj : kernel -> gmap Z O) `{!Setter proj} i f x k :
  proj k !! i = Some x -> upd_obj proj i f k = Some (tt, set_field proj (insert i (f x)) k).
Proof. intros H. unfold upd_obj. erewrite bind_eq by (apply get_obj_eq; exact H). reflexivity. Qed.

Lemma kinv_same k k' :
  kinv k -> k_threads k' = k_threads k -> k_lists k' = k_lists k -> k_timer_list k' = k_timer_list k ->
  k_timer_exec k' = k_timer_exec k -> k_current k' = k_current k -> k_group k' = k_group k ->
  k_utimers k' = k_utimers k -> k_mutexes k' = k_mutexes k -> kinv k'.
Proof.
  intros [I [Qf Qe]] Ht Hl Htl He Hc Hg Hu Hm. split; [|split; [rewrite Ht; exact Qf|rewrite He, Htl; exact Qe]].
  eapply inv_same; [exact I|congruence..|rewrite Hm; apply (i_mutex _ _ I)].
Qed.

Lemma in_thread_same t th k k' :
  in_thread t th k -> kinv k' -> k_threads k' = k_threads k -> k_current k' = k_current k ->
  k_lock_nest k' = k_lock_nest k -> k_irq_nest k' = k_irq_nest k -> in_thread t th k'.
Proof. intros [] HK H1 H2 H3 H4. split; congruence. Qed.

(** ** Waking all the waiters of an object with two lists *)

Record both_woken (l1 l2 : lid) (e : Z) (k k' : kernel) : Prop := {
  bw_frame : obj_frame k k';
  bw_current : k_current k' = k_current k;
  bw_empty : k_lists k' l1 = [] /\ k_lists k' l2 = [];
  bw_lists : forall l, ready_list l = false -> l <> l1 -> l <> l2 -> k_lists k' l = k_lists k l;
  bw_thread : forall t, t ∈ k_lists k l1 \/ t ∈ k_lists k l2 ->
    exists th', k_threads k' !! t = Some th' /\ awake th' /\ th_error th' = e;
}.

Lemma resume_both_total l1 l2 e k :
  kinv k -> susp_list l1 = true -> susp_list l2 = true -> l1 <> l2 -> 0 <= e ->
  exists k1 k2, rt_susp_list_resume_all l1 e k = Some (RT_EOK, k1) /\
    rt_susp_list_resume_all l2 e k1 = Some (RT_EOK, k2) /\ kinv k2 /\ both_woken l1 l2 e k k2.
Proof.
  intros [I Q] Hl1 Hl2 Hne He.
  destruct (resume_all_total l1 e k I Hl1) as (k1 & H1 & I1 & W1).
  destruct (resume_all_total l2 e k1 I1 Hl2) as (k2 & H2 & I2 & W2).
  pose proof (resume_all_idle _ _ _ _ _ _ (resume_all_idle _ _ _ _ _ _ Q H1) H2) as Q2.
  pose proof (susp_not_ready l1 Hl1) as R1. pose proof (susp_not_ready l2 Hl2) as R2.
  exists k1, k2. split; [exact H1|]. split; [exact H2|]. split; [split; assumption|]. split.
  - etransitivity; [apply (aw_frame _ _ _ _ _ W1)|apply (aw_frame _ _ _ _ _ W2)].
  - rewrite (aw_current _ _ _ _ _ W2). apply (aw_current _ _ _ _ _ W1).
  - split; [|apply (aw_empty _ _ _ _ _ W2)]. rewrite (aw_lists _ _ _ _ _ W2) by assumption. apply (aw_empty _ _ _ _ _ W1).
  - intros l Hl N1 N2. rewrite (aw_lists _ _ _ _ _ W2) by assumption. apply (aw_lists _ _ _ _ _ W1); assumption.
  - intros t Ht. rewrite <- (aw_lists _ _ _ _ _ W1 l2) in Ht by congruence.
    assert (forall th th', woken (if 0 <=? e then th <| th_error := e |> else th) th' -> awake th' /\ th_error th' = e) as Hw.
    { intros th th' W. rewrite (proj2 (Z.leb_le 0 e) He) in W.
      split; [destruct (wk_stat _ _ W); [right|left]; assumption|apply (wk_error _ _ W)]. }
    destruct (decide (t ∈ k_lists k1 l2)) as [Hin|Hin].
    + destruct (aw_thread _ _ _ _ _ W2 t Hin) as (th & th' & _ & H & W). eauto.
    + destruct Ht as [Ht|Ht]; [|contradiction].
      destruct (aw_thread _ _ _ _ _ W1 t Ht) as (th & th' & _ & H & W). exists th'.
      rewrite (aw_other _ _ _ _ _ W2 t Hin). eauto.
Qed.

(** A schedule keeps woken threads awake. *)
Lemma awake_after k k' t th : sched_frame k k' -> k_threads k !! t = Some th -> awake th ->
  exists th', k_threads k' !! t = Some th' /\ awake th' /\ th_error th' = th_error th.
Proof.
  intros F Ht Ha. pose proof (sf_threads _ _ F t) as R. rewrite Ht in R. destruct R as (s & Ht' & Hs).
  exists (th <| th_stat := s |>). split; [exact Ht'|]. split; [apply awake_restat; assumption|reflexivity].
Qed.

(** ** The scheduler lock around a call *)

Definition locked (k : kernel) : kernel := k <| k_lock_nest := 1 |>.
Definition unlocked (k : kernel) : kernel := k <| k_lock_nest := 0 |>.

Lemma spin_lock_eq k : k_lock_nest k = 0 -> rt_spin_lock k = Some (tt, locked k).
Proof.
  intros Hn. unfold rt_spin_lock, rt_enter_critical. destruct k. cbn in Hn. subst. reflexivity.
Qed.

Lemma inv_nest E n k : inv_ex E k -> inv_ex E (k <| k_lock_nest := n |>).
Proof. intros I. exact (nest_preserves E (fun _ => n) k tt _ I eq_refl). Qed.

Lemma spin_unlock_total k c :
  inv k -> k_current k = Some c -> k_lock_nest k = 1 ->
  exists k', rt_spin_unlock k = Some (tt, k') /\ inv k' /\ sched_frame (unlocked k) k' /\ runs_most_urgent k'.
Proof.
  intros I Hc Hn. destruct (i_cur _ _ I _ Hc) as [cth Hct].
  destruct (schedule_total (unlocked k) c cth (inv_nest _ _ _ I) Hc Hct) as (k' & H & I' & F & _).
  destruct (schedule_most_urgent (unlocked k) c cth (inv_nest _ _ _ I) Hc Hct eq_refl) as (k2 & H2 & _ & _ & M).
  rewrite H in H2. injection H2 as <-. exists k'. split; [|auto].
  unfold rt_spin_unlock, rt_exit_critical. erewrite bind_eq by reflexivity. erewrite bind_eq by reflexivity.
  cbv beta. change (k_lock_nest (k <| k_lock_nest ::= _ |>)) with (s16 (k_lock_nest k - 1)). rewrite Hn.
  change (s16 (1 - 1) <=? 0) with true. cbv beta iota. erewrite bind_eq by reflexivity.
  change (k <| k_lock_nest ::= _ |> <| k_lock_nest := 0 |>) with (unlocked k).
  erewrite bind_eq by reflexivity. rewrite bool_decide_true by (change (is_Some (k_current k)); rewrite Hc; eauto).
  exact H.
Qed.

(** ** Sleeping in no list *)

(** [k'] is [k] after the running thread [t] went to sleep, its timer set when the
    timeout is positive; only its timer and [rt_thread_resume] can wake it. *)
Record dozing (t timeout : Z) (k k' : kernel) : Prop := {
  dz_lists : forall l, ready_list l = false -> k_lists k' l = k_lists k l;
  dz_thread : exists th th', k_threads k !! t = Some th /\ k_threads k' !! t = Some th' /\ is_suspended th' = true /\ th_error th' = th_error th;
  dz_wakeable : wakeable t k';
  dz_timer : if 0 <? timeout then TThread t ∈ k_timer_list k' /\ timeout_of k' (TThread t) = u32 (k_tick k + timeout)
             else TThread t ∉ k_timer_list k';
  dz_others : forall x, x <> t -> restat (k_threads k !! x) (k_threads k' !! x);
}.

(** What the scheduler and the timers see of the store does not change. *)
Record same_sched_store (g : kernel -> kernel) : Prop := {
  ss_kinv : forall k, kinv k -> kinv (g k);
  ss_lists : forall k, k_lists (g k) = k_lists k;
  ss_threads : forall k, k_threads (g k) = k_threads k;
  ss_timers : forall k, k_timer_list (g k) = k_timer_list k;
  ss_tick : forall k, k_tick (g k) = k_tick k;
  ss_current : forall k, k_current (g k) = k_current k;
}.

Lemma restat_wakeable k1 k2 t : sched_frame k1 k2 -> wakeable t k1 -> wakeable t k2.
Proof.
  intros F (th & Ht & Hsu & He). destruct (restat_suspended _ _ _ (sf_threads _ _ F t) Ht Hsu) as (x & Ht' & Hs').
  exists (th <| th_stat := x |>). split; [exact Ht'|]. split; [exact Hs'|]. unfold ready_error in *. rewrite (sf_timers _ _ F). exact He.
Qed.

(** A thread that suspends itself, records it with [g], arms its timer and leaves. *)
Lemma doze_total k t th timeout f g : in_thread t th k -> timeout < HALF_TICK -> same_sched_store g ->
  exists k1 k2 k3, rt_thread_suspend_with_flag t f k = Some (RT_EOK, k1) /\ obj_frame k k1 /\
    when (0 <? timeout) (start_thread_timer t timeout) (g k1) = Some (tt, k2) /\
    rt_schedule k2 = Some (tt, k3) /\ kinv k3 /\ obj_frame (g k1) k3 /\ dozing t timeout k k3.
Proof.
  intros C Hto G.
  destruct (suspend_step _ _ _ None 0 f C Logic.I) as (k1 & th1 & H1 & HK1 & S & Ht1 & Hs1 & Hoff & Htt & E & _).
  rewrite <- (ss_threads g G) in Ht1. rewrite <- (ss_timers g G) in Hoff.
  destruct (arm_step (g k1) t th1 timeout (ss_kinv g G _ HK1) Ht1 Hs1 Hoff Hto)
    as (k2 & th2 & H2 & [I2 Q2] & F2 & Hc2 & L2 & O2 & Ht2 & Hs2 & He & _ & _ & _ & _ & W & D).
  assert (k_current k2 = Some t) as Hcur by (rewrite Hc2, (ss_current g G), (sp_current _ _ _ _ _ _ S); apply C).
  destruct (schedule_total k2 t th2 I2 Hcur Ht2) as (k3 & H3 & I3 & F3 & _).
  exists k1, k2, k3. split; [exact H1|]. split; [apply (sp_frame _ _ _ _ _ _ S)|]. split; [exact H2|]. split; [exact H3|].
  split; [split; [exact I3|exact (schedule_idle _ _ _ _ Q2 H3)]|]. split; [etransitivity; [exact F2|apply sched_obj_frame, F3]|].
  destruct (restat_suspended _ _ _ (sf_threads _ _ F3 t) Ht2 Hs2) as (x & Ht3 & Hs3). split.
  - intros l Hl. rewrite (sf_lists _ _ F3 l Hl), L2, (ss_lists g G). apply (sp_lists _ _ _ _ _ _ S l).
  - exists th, (th2 <| th_stat := x |>). split; [apply C|]. split; [exact Ht3|]. split; [exact Hs3|].
    change (th_error th2 = th_error th). rewrite He. exact E.
  - exact (restat_wakeable _ _ _ F3 (W Htt)).
  - rewrite (sf_timers _ _ F3), (restat_timeout_of k2 k3 _ F3).
    rewrite (ss_tick g G), (of_tick _ _ (sp_frame _ _ _ _ _ _ S)) in D. exact D.
  - intros y Hy. pose proof (sf_threads _ _ F3 y) as R.
    rewrite (O2 y Hy), (ss_threads g G), (sp_other _ _ _ _ _ _ S y Hy) in R. exact R.
Qed.

(** [rt_thread_resume] of a sleeping thread and the schedule after it. *)
Record resumed (t : Z) (k k' : kernel) : Prop := {
  rs_frame : obj_frame k k';
  rs_current : is_Some (k_current k');
  rs_next : k_lock_nest k = 0 -> runs_most_urgent k';
  rs_thread : exists th th', k_threads k !! t = Some th /\ k_threads k' !! t = Some th' /\ awake th' /\ th_error th' = th_error th;
  rs_others : forall y, y <> t -> restat (k_threads k !! y) (k_threads k' !! y);
  rs_timers : forall y, y <> t -> TThread y ∈ k_timer_list k' <-> TThread y ∈ k_timer_list k;
}.

Lemma ready_state_timers t th k y : y <> t -> TThread y ∈ k_timer_list (ready_state t th k) <-> TThread y ∈ k_timer_list k.
Proof.
  intros Hy.
  assert (TThread y ∈ k_timer_list (unarm_state t th k) <-> TThread y ∈ k_timer_list k) as H.
  { unfold unarm_state. destruct (th_ttmr th), (bool_decide (TThread t ∈ k_timer_list k)); try reflexivity.
    change (TThread y ∈ filter (fun i => i <> TThread t) (k_timer_list k) <-> TThread y ∈ k_timer_list k).
    rewrite list_elem_of_filter. split; [intros []; assumption|intros]. split; [congruence|assumption]. }
  rewrite <- H. unfold ready_state, insert_state. destruct (bool_decide _); reflexivity.
Qed.

Lemma schedule_resumed t k k1 x : kinv k1 -> k_current k1 = Some x -> obj_frame k k1 ->
  (exists th th1, k_threads k !! t = Some th /\ k_threads k1 !! t = Some th1 /\ awake th1 /\ th_error th1 = th_error th) ->
  (forall y, y <> t -> restat (k_threads k !! y) (k_threads k1 !! y)) ->
  (forall y, y <> t -> TThread y ∈ k_timer_list k1 <-> TThread y ∈ k_timer_list k) ->
  exists k', rt_schedule k1 = Some (tt, k') /\ kinv k' /\ resumed t k k'.
Proof.
  intros [I Q] Hx F0 (th & th1 & Ht & Ht1 & Ha & He) Ho Htm. destruct (i_cur _ _ I _ Hx) as [xth Hxth].
  destruct (schedule_total _ x xth I Hx Hxth) as (k2 & H2 & I2 & F & Hcase).
  exists k2. split; [exact H2|]. split; [split; [exact I2|exact (schedule_idle _ _ _ _ Q H2)]|]. split.
  - etransitivity; [exact F0|apply sched_obj_frame, F].
  - destruct Hcase as [[_ ->]|(_ & ? & ? & ? & ? & ? & _ & _ & _ & _ & Hto & _)]; eauto.
  - intros Hn. destruct (schedule_most_urgent k1 x xth I Hx Hxth) as (k2' & H2' & _ & _ & M).
    { rewrite (of_nest _ _ F0). exact Hn. }
    rewrite H2 in H2'. injection H2' as <-. exact M.
  - destruct (awake_after _ _ t th1 F Ht1 Ha) as (th2 & Ht2 & Ha2 & He2). exists th, th2.
    split; [exact Ht|]. split; [exact Ht2|]. split; [exact Ha2|]. congruence.
  - intros y Hy. exact (restat_trans _ _ _ (Ho y Hy) (sf_threads _ _ F y)).
  - intros y Hy. rewrite (sf_timers _ _ F). apply Htm, Hy.
Qed.

Lemma resume_total k t x : kinv k -> k_current k = Some x -> wakeable t k ->
  exists k', rt_thread_resume t k = Some (RT_EOK, k') /\ kinv k' /\ resumed t k k'.
Proof.
  intros [I Q] Hx (th & Ht & Hsu & He).
  pose proof (thread_ready_eq k t th I Ht) as H1. rewrite Hsu, He in H1. cbn [negb Z.eqb RT_EOK] in H1.
  assert (k_current (ready_state t th k) = Some x) as Hx1 by (rewrite ready_state_current; exact Hx).
  destruct (schedule_resumed t k (ready_state t th k) x) as (k2 & H2 & HK2 & R).
  - split; [exact (ready_state_inv _ _ _ I Ht Hsu)|exact (thread_ready_idle _ t _ _ _ Q H1)].
  - exact Hx1.
  - apply ready_state_frame.
  - destruct (ready_state_thread t th k) as (th1 & Ht1 & W). exists th, th1. split; [exact Ht|]. split; [exact Ht1|].
    split; [|apply (wk_error _ _ W)]. destruct (wk_stat _ _ W); [right|left]; assumption.
  - intros y Hy. rewrite ready_state_other by exact Hy. apply restat_refl.
  - intros y Hy. apply ready_state_timers, Hy.
  - exists k2. split; [|split; [exact HK2|exact R]].
    unfold rt_thread_resume. erewrite bind_eq by (apply get_thread_eq; exact Ht).
    erewrite bind_eq by (apply assert_eq, (so_valid _ _ _ _ _ (inv_stat _ _ _ I Ht)), suspended_not_close, Hsu).
    erewrite bind_eq by exact H1. cbn [Z.eqb RT_EOK].
    assert (rt_sched_unlock_n_resched (ready_state t th k) = Some (tt, k2)) as Hu.
    { unfold rt_sched_unlock_n_resched, rt_thread_self, st_gets. erewrite bind_eq by reflexivity. rewrite Hx1. exact H2. }
    erewrite bind_eq by exact Hu. reflexivity.
Qed.

(** The other sleeping threads can be woken as before. *)
Lemma resumed_wakeable t k k' y : resumed t k k' -> y <> t -> wakeable y k -> wakeable y k'.
Proof.
  intros R Hy (th & Ht & Hsu & He). destruct (restat_suspended _ _ _ (rs_others _ _ _ R y Hy) Ht Hsu) as (s & Ht' & Hs').
  exists (th <| th_stat := s |>). split; [exact Ht'|]. split; [exact Hs'|]. unfold ready_error in *.
  change (th_ttmr (th <| th_stat := s |>)) with (th_ttmr th).
  destruct (th_ttmr th); [|reflexivity]. cbn [andb] in *.
  destruct (decide (TThread y ∈ k_timer_list k)) as [Hin|Hin].
  - rewrite bool_decide_true by (apply (rs_timers _ _ _ R y Hy), Hin). reflexivity.
  - rewrite bool_decide_false in He by exact Hin. discriminate.
Qed.

(** A thread that does not sleep cannot be resumed. *)
Lemma resume_refused k t th : inv k -> k_threads k !! t = Some th -> th_valid th = true -> is_suspended th = false ->
  rt_thread_resume t k = Some (- RT_EINVAL, k).
Proof.
  intros I Ht Hv Hns. unfold rt_thread_resume. erewrite bind_eq by (apply get_thread_eq; exact Ht).
  erewrite bind_eq by (apply assert_eq; exact Hv).
  erewrite bind_eq by (rewrite (thread_ready_eq k t th I Ht), Hns; reflexivity). reflexivity.
Qed.
