(* ===== verification/WaitProps.v ===== *)
(** * Properties of waiting

    The order of the suspend lists, waking one thread and all threads, going to
    sleep, and the timeout of a waiting thread. *)

From Stdlib Require Import Sorted.
From S2P Require Import Prelude Bitmap Kernel Timer Sched IpcList Thread Sem KernelInv TimerInv.
From S2P Require Import SchedInv ThreadInv TimerIdle ThreadOps IpcOps MutexOps ExitOps System.
From S2P Require Import SystemInv Demo.
Open Scope rt_scope.

(** ** The order of the suspend lists *)

(** Where [prio_insert] puts a thread. *)
Lemma prio_insert_split prio t l :
  exists before after, l = before ++ after /\ prio_insert prio t l = before ++ t :: after /\
    Forall (fun s => prio s <= prio t) before /\
    match after with [] => True | s :: _ => prio t < prio s end.
Proof.
  induction l as [|s l (before & after & -> & IH & Hb & Ha)]; [exists [], []; auto|]. cbn.
  destruct (Z.ltb_spec (prio t) (prio s)).
  - exists [], (s :: before ++ after). auto.
  - exists (s :: before), after. rewrite IH. repeat split; auto.
Qed.

Definition by_prio (prio : Z -> Z) (a b : Z) : Prop := prio a <= prio b.

Lemma sorted_after prio l x y : StronglySorted (by_prio prio) (x :: l) -> y ∈ l -> prio x <= prio y.
Proof. intros H Hy. apply StronglySorted_inv in H as [_ H]. rewrite Forall_forall in H. apply H, Hy. Qed.

Lemma prio_insert_sorted prio t l :
  StronglySorted (by_prio prio) l -> StronglySorted (by_prio prio) (prio_insert prio t l).
Proof.
  induction l as [|s l IH]; intros Hs; [repeat constructor|]. cbn.
  destruct (Z.ltb_spec (prio t) (prio s)).
  - constructor; [exact Hs|]. apply Forall_forall. intros x Hx. unfold by_prio.
    apply elem_of_cons in Hx as [->|Hx]; [lia|]. pose proof (sorted_after _ _ _ _ Hs Hx). lia.
  - apply StronglySorted_inv in Hs as [Hs Hf]. constructor; [auto|].
    apply Forall_forall. intros x Hx. apply elem_of_prio_insert in Hx as [->|Hx]; [unfold by_prio; lia|].
    rewrite Forall_forall in Hf. apply Hf, Hx.
Qed.

(** A thread that begins to wait goes to the tail of a FIFO list; in a
    priority list it goes behind every waiter that is at least as urgent and
    before the others, so that the list stays sorted by priority and waiters of
    equal priority stay in the order they came; any other discipline is
    rejected.  *)
Theorem susp_enqueue_order l t flag k :
  let q := k_lists k l in
  match rt_susp_list_enqueue l t flag k with
  | None => flag <> RT_IPC_FLAG_FIFO /\ flag <> RT_IPC_FLAG_PRIO
  | Some (r, k') => r = RT_EOK /\ (forall l', l' <> l -> k_lists k' l' = k_lists k l') /\
      ((flag = RT_IPC_FLAG_FIFO /\ k_lists k' l = q ++ [t]) \/
       (flag = RT_IPC_FLAG_PRIO /\
        (exists before after, q = before ++ after /\ k_lists k' l = before ++ t :: after /\
          Forall (fun s => prio_of k s <= prio_of k t) before /\
          match after with [] => True | s :: _ => prio_of k t < prio_of k s end) /\
        (StronglySorted (by_prio (prio_of k)) q -> StronglySorted (by_prio (prio_of k)) (k_lists k' l))))
  end.
Proof.
  cbv zeta. destruct (decide (flag_ok flag)) as [Hf|Hf].
  - rewrite enqueue_eq by exact Hf. split; [reflexivity|].
    assert (k_lists (enqueue_state l t flag k) l = enqueued flag (prio_of k) t (k_lists k l)) as Hl
      by apply fn_lookup_insert.
    split; [intros l' Hne; apply fn_lookup_insert_ne; congruence|]. rewrite Hl.
    destruct Hf as [-> | ->]; [left; auto|right]. split; [reflexivity|].
    split; [apply prio_insert_split|apply prio_insert_sorted].
  - rewrite enqueue_bad by exact Hf. unfold flag_ok in Hf. tauto.
Qed.

(** ** Waking *)

(** C4: rt_susp_list_resume_all returns, empties the list and wakes exactly the
    threads that waited in it: each leaves the list and is ready (or runs, if it
    is the current thread), with the given error when that is not negative; no
    other suspend list, thread or object changes.  *)
Theorem resume_all_wakes l e k :
  inv k -> susp_list l = true ->
  exists k', rt_susp_list_resume_all l e k = Some (RT_EOK, k') /\ inv k' /\ obj_frame k k' /\
    k_lists k' l = [] /\
    (forall l', ready_list l' = false -> l' <> l -> k_lists k' l' = k_lists k l') /\
    (forall x, x ∉ k_lists k l -> k_threads k' !! x = k_threads k !! x) /\
    (forall t, t ∈ k_lists k l -> exists th th', k_threads k !! t = Some th /\ k_threads k' !! t = Some th' /\
       awake th' /\ th_error th' = (if 0 <=? e then e else th_error th) /\
       th_cur_prio th' = th_cur_prio th /\ (stat_of th' = RT_THREAD_READY -> t ∈ k_lists k' (LReady (th_cur_prio th)))).
Proof.
  intros I Hl. destruct (resume_all_total l e k I Hl) as (k' & H & I' & W). exists k'.
  split; [assumption|]. split; [assumption|]. split; [apply (aw_frame _ _ _ _ _ W)|].
  split; [apply (aw_empty _ _ _ _ _ W)|]. split; [apply (aw_lists _ _ _ _ _ W)|].
  split; [apply (aw_other _ _ _ _ _ W)|]. intros t Ht.
  destruct (aw_thread _ _ _ _ _ W t Ht) as (th & th' & H1 & H2 & Hw). exists th, th'.
  split; [assumption|]. split; [assumption|].
  assert (th_cur_prio th' = th_cur_prio th) as Hp by (rewrite (wk_prio _ _ Hw); destruct (0 <=? e); reflexivity).
  split; [destruct (wk_stat _ _ Hw); [right|left]; assumption|].
  split; [rewrite (wk_error _ _ Hw); destruct (0 <=? e); reflexivity|]. split; [assumption|].
  intros Hr. apply (so_ready _ _ _ _ _ (inv_stat _ _ _ I' H2)) in Hr as [p Hin].
  destruct (tw_ready _ _ _ _ (i_threads _ _ I' _ _ H2) _ Hin) as [Hp' _]. congruence.
Qed.

(** Thread 300 (priority 5) ran first and waits for semaphore 7; the main thread
    goes on. *)
Definition k_sem0 : kernel := run (rt_sem_init 7 0 RT_IPC_FLAG_PRIO) k_boot.
Definition k_wait : kernel :=
  run (_rt_sem_take 7 50 RT_UNINTERRUPTIBLE)
    (run (rt_thread_startup 300) (run (rt_thread_create (Some 300) (Some 0) 5 20) k_sem0)).

Lemma k_wait_kinv : kinv k_wait.
Proof.
  apply run_kinv; [apply sem_take_preserves|]. apply run_kinv; [preserve|].
  apply run_kinv; [apply thread_create_kinv; lia|]. apply run_kinv; [apply sem_init_preserves|]. apply k_boot_kinv.
Qed.

Example k_wait_lists : k_lists k_wait (LSem 7) = [300] /\ k_current k_wait = Some 100 /\
  k_timer_list k_wait = [TThread 300].
Proof. vm_compute. auto. Qed.

Lemma resume_all_wakes_witness :
  inv k_wait /\ 300 ∈ k_lists k_wait (LSem 7) /\
  exists k' th', rt_susp_list_resume_all (LSem 7) RT_ERROR k_wait = Some (RT_EOK, k') /\
    k_lists k' (LSem 7) = [] /\ k_threads k' !! 300 = Some th' /\ th_error th' = RT_ERROR.
Proof.
  assert (300 ∈ k_lists k_wait (LSem 7)) as Hin.
  { destruct k_wait_lists as [-> _]. apply list_elem_of_here. }
  split; [apply k_wait_kinv|]. split; [exact Hin|].
  destruct (resume_all_wakes (LSem 7) RT_ERROR k_wait (proj1 k_wait_kinv) eq_refl)
    as (k' & H & _ & _ & Hl & _ & _ & Hw).
  destruct (Hw 300 Hin) as (th & th' & _ & H2 & _ & He & _). exists k', th'. auto.
Defined.

(** ** Going to sleep *)

(** The running thread that suspends itself to a list returns with the
    thread in a suspended state that matches the flag, out of the ready queues,
    in that list by its discipline and with its timer stopped; the processor is
    not given up yet and nothing else changes.  *)
Theorem suspend_to_list_sleeps k t th l flag f :
  inv k -> k_current k = Some t -> k_threads k !! t = Some th -> stat_of th = RT_THREAD_RUNNING ->
  susp_list l = true -> flag = RT_IPC_FLAG_FIFO \/ flag = RT_IPC_FLAG_PRIO ->
  exists k' th', rt_thread_suspend_to_list t (Some l) flag f k = Some (RT_EOK, k') /\ inv k' /\ obj_frame k k' /\
    k_current k' = Some t /\ k_timer_list k' = k_timer_list k /\
    k_threads k' !! t = Some th' /\ is_suspended th' = true /\ th_ttmr th' = false /\ th_error th' = th_error th /\
    k_lists k' l = (if flag =? RT_IPC_FLAG_FIFO then k_lists k l ++ [t] else prio_insert (prio_of k) t (k_lists k l)) /\
    (forall l', l' <> l -> k_lists k' l' = k_lists k l') /\
    (forall x, x <> t -> k_threads k' !! x = k_threads k !! x).
Proof.
  intros I Hc Ht Hr Hl Hf. destruct (suspend_total k t th (Some l) flag f I Hc Ht Hr (conj Hl Hf)) as (k' & H & I' & S).
  destruct (sp_thread _ _ _ _ _ _ S) as (s & Hs & Hs8 & Ht'). eexists k', _.
  split; [exact H|]. split; [exact I'|]. split; [apply (sp_frame _ _ _ _ _ _ S)|].
  split; [rewrite (sp_current _ _ _ _ _ _ S); exact Hc|]. split; [apply (sp_timers _ _ _ _ _ _ S)|].
  split; [exact Ht'|]. split.
  { change (is_suspended (th <| th_stat ::= with_stat s |>) = true). rewrite suspended_with by lia. exact Hs. }
  split; [reflexivity|]. split; [reflexivity|]. split; [|split; [|apply (sp_other _ _ _ _ _ _ S)]].
  - rewrite (sp_lists _ _ _ _ _ _ S). apply fn_lookup_insert.
  - intros l' Hne. rewrite (sp_lists _ _ _ _ _ _ S). apply fn_lookup_insert_ne. congruence.
Qed.

Lemma suspend_to_list_sleeps_witness :
  inv k_sem0 /\ exists k', rt_thread_suspend_to_list 100 (Some (LSem 7)) RT_IPC_FLAG_FIFO RT_KILLABLE k_sem0
    = Some (RT_EOK, k') /\ k_lists k' (LSem 7) = [100].
Proof.
  assert (inv k_sem0) as I by (apply run_kinv; [apply sem_init_preserves|apply k_boot_kinv]).
  split; [exact I|].
  destruct (suspend_to_list_sleeps k_sem0 100 (thread_of k_sem0 100) (LSem 7) RT_IPC_FLAG_FIFO RT_KILLABLE I)
    as (k' & th' & H & _ & _ & _ & _ & _ & _ & _ & _ & Hl & _); try (vm_compute; reflexivity); [left; reflexivity|].
  exists k'. split; [exact H|]. rewrite Hl. vm_compute. reflexivity.
Defined.

(** ** Timeouts *)

Lemma resched_total k :
  inv k -> exists k', rt_sched_unlock_n_resched k = Some (tt, k') /\ inv k' /\ sched_frame k k'.
Proof.
  intros I. unfold rt_sched_unlock_n_resched. erewrite bind_eq by reflexivity. cbv beta.
  destruct (k_current k) as [c|] eqn:Hc.
  - destruct (i_cur _ _ I _ Hc) as [cth Hct].
    destruct (schedule_total k c cth I Hc Hct) as (k' & H & I' & F & _). exists k'.
    rewrite bool_decide_true by eauto. auto.
  - exists k. rewrite bool_decide_false by (intros []; discriminate). split; [reflexivity|]. split; [assumption|reflexivity].
Qed.
