(* ===== verification/SemProps.v ===== *)
(** * Properties of semaphores

    Taking, releasing and what the taker gets when it goes on. *)

From S2P Require Import Prelude Bitmap Kernel Timer Sched IpcList Thread Sem KernelInv TimerInv.
From S2P Require Import SchedInv ThreadInv TimerIdle ThreadOps IpcOps SystemInv Demo SchedProps Blocking WaitProps.
Open Scope rt_scope.

(** The caller stores [e] in its error field. *)
Definition with_error (t : Z) (th : thread) (e : Z) (k : kernel) : kernel :=
  k <| k_threads ::= insert t (th <| th_error := e |>) |>.

Lemma in_thread_error t th e k : in_thread t th k -> in_thread t (th <| th_error := e |>) (with_error t th e k).
Proof.
  intros C. apply (in_thread_upd t th k (fun th => th <| th_error := e |>) C); [intros; repeat split|auto].
Qed.

Lemma check_sem_eq s x k : k_sems k !! s = Some x -> sem_valid x = true -> check_sem s k = Some (x, k).
Proof.
  intros Hx Hv. unfold check_sem. erewrite bind_eq by (apply get_obj_eq; exact Hx).
  erewrite bind_eq by (apply assert_eq; exact Hv). reflexivity.
Qed.

Lemma upd_sem_eq s x f k :
  k_sems k !! s = Some x -> upd_sem s f k = Some (tt, k <| k_sems ::= insert s (f x) |>).
Proof. intros Hx. unfold upd_sem, upd_obj. erewrite bind_eq by (apply get_obj_eq; exact Hx). reflexivity. Qed.

(** C8: A thread that takes a semaphore gets one unit at once when the value is
    positive, and nothing else changes; when it is 0, it returns -RT_ETIMEOUT
    without waiting if the timeout is 0, and otherwise sleeps in the list of the
    semaphore by its discipline, with its timer set to now + timeout if that is
    positive, and the most urgent ready thread runs.  *)
Theorem sem_take_behaviour t th k s x timeout f :
  in_thread t th k -> k_sems k !! s = Some x -> sem_valid x = true -> flag_ok (ob_flag (sem_ob x)) ->
  0 <= sem_value x < 2 ^ 16 -> timeout < HALF_TICK ->
  if 0 <? sem_value x then
    _rt_sem_take s timeout f k = Some (Done RT_EOK [], k <| k_sems ::= insert s (x <| sem_value := sem_value x - 1 |>) |>)
  else if timeout =? 0 then _rt_sem_take s timeout f k = Some (Done (- RT_ETIMEOUT) [], k)
  else exists k', _rt_sem_take s timeout f k = Some (Waiting (PcSemTake s), k') /\ kinv k' /\
    asleep t (LSem s) (ob_flag (sem_ob x)) timeout (with_error t th RT_EINTR k) k'.
Proof.
  intros C Hx Hv Hf Hr Hto. unfold _rt_sem_take.
  erewrite bind_eq by (apply check_sem_eq; eassumption).
  erewrite bind_eq by (eapply scheduler_available_eq; exact C).
  erewrite bind_eq by (apply get_obj_eq; exact Hx).
  destruct (Z.ltb_spec 0 (sem_value x)).
  { erewrite bind_eq by (apply upd_sem_eq; exact Hx). cbn.
    assert (x <| sem_value ::= (fun v => u16 (v - 1)) |> = x <| sem_value := sem_value x - 1 |>) as ->; [|reflexivity].
    unfold set_field. cbn. rewrite u16_small by lia. reflexivity. }
  destruct (Z.eqb_spec timeout 0); [reflexivity|].
  erewrite bind_eq by (apply the_self_eq, C).
  erewrite bind_eq by (apply upd_thread_eq, C). change (k <| k_threads ::= _ |>) with (with_error t th RT_EINTR k).
  destruct (sleep_total _ _ _ (LSem s) (ob_flag (sem_ob x)) f timeout (in_thread_error t th RT_EINTR k C) eq_refl Hf Hto)
    as (k1 & k2 & k3 & H1 & _ & H2 & H3 & HK & A).
  exists k3. split; [|auto]. erewrite bind_eq by exact H1. cbn [negb Z.eqb RT_EOK].
  erewrite bind_eq by exact H2. erewrite bind_eq by exact H3. reflexivity.
Qed.

(** The main thread takes semaphore 7, whose value is 0, with a timeout. *)
Lemma k_sem0_in_thread : in_thread 100 (thread_of k_sem0 100) k_sem0.
Proof.
  split; try (vm_compute; reflexivity). apply run_kinv; [apply sem_init_preserves|apply k_boot_kinv].
Qed.

Definition sem_of (k : kernel) (s : Z) : sem := default (mkSem (mkIpc false false 0) 0 0) (k_sems k !! s).

Lemma sem_take_behaviour_witness :
  in_thread 100 (thread_of k_sem0 100) k_sem0 /\
  exists k', _rt_sem_take 7 50 RT_INTERRUPTIBLE k_sem0 = Some (Waiting (PcSemTake 7), k') /\
    k_lists k' (LSem 7) = [100] /\ timeout_of k' (TThread 100) = 50 /\ k_current k' = Some 200.
Proof.
  split; [exact k_sem0_in_thread|].
  assert (sem_value (sem_of k_sem0 7) = 0 /\ ob_flag (sem_ob (sem_of k_sem0 7)) = RT_IPC_FLAG_PRIO) as [Hv Hf]
    by (split; vm_compute; reflexivity).
  pose proof (sem_take_behaviour 100 (thread_of k_sem0 100) k_sem0 7 (sem_of k_sem0 7) 50 RT_INTERRUPTIBLE
    k_sem0_in_thread) as T.
  rewrite Hv, Hf in T. destruct T as (k' & H & _ & A).
  - vm_compute. reflexivity.
  - vm_compute. reflexivity.
  - right. reflexivity.
  - lia.
  - vm_compute. reflexivity.
  - exists k'. split; [exact H|]. split; [rewrite (as_list _ _ _ _ _ _ A); vm_compute; reflexivity|].
    split; [rewrite (proj2 (as_timer _ _ _ _ _ _ A)); vm_compute; reflexivity|].
    apply (as_next _ _ _ _ _ _ A 31 200 []); [|vm_compute; reflexivity].
    split; [unfold RT_THREAD_PRIORITY_MAX; lia|]. split; [vm_compute; discriminate|].
    apply queues_empty_spec. vm_compute. reflexivity.
Defined.

(** C9: Releasing a semaphore for which threads wait hands the unit to the first
    of them without touching the value: that thread leaves the list and is awake
    with error RT_EOK, the others go on waiting, and with the scheduler unlocked
    the most urgent thread runs afterwards.  Without waiters the value grows by
    one, and at the limit the call returns -RT_EFULL and changes nothing.  *)
Theorem sem_release_behaviour k s x c :
  kinv k -> k_current k = Some c -> k_sems k !! s = Some x -> sem_valid x = true ->
  0 <= sem_value x < 2 ^ 16 -> sem_max x < 2 ^ 16 ->
  match k_lists k (LSem s) with
  | t :: q => exists k', rt_sem_release s k = Some (RT_EOK, k') /\ kinv k' /\ k_sems k' = k_sems k /\
      woke t (LSem s) q RT_EOK k k' /\ (k_lock_nest k = 0 -> runs_most_urgent k')
  | [] => rt_sem_release s k =
      if sem_value x <? sem_max x
      then Some (RT_EOK, k <| k_sems ::= insert s (x <| sem_value := sem_value x + 1 |>) |>)
      else Some (- RT_EFULL, k)
  end.
Proof.
  intros HK Hc Hx Hv Hr Hm. unfold rt_sem_release.
  destruct (k_lists k (LSem s)) as [|t q] eqn:Hl.
  - erewrite bind_eq by (apply check_sem_eq; eassumption). erewrite bind_eq by reflexivity. cbv beta.
    rewrite Hl. cbn [bool_decide]. destruct (Z.ltb_spec (sem_value x) (sem_max x)); [|reflexivity].
    rewrite bool_decide_true by reflexivity. cbn [negb].
    erewrite bind_eq by (apply upd_sem_eq; exact Hx). cbv beta.
    assert (x <| sem_value ::= (fun v => u16 (v + 1)) |> = x <| sem_value := sem_value x + 1 |>) as ->; [|reflexivity].
    unfold set_field. cbn. rewrite u16_small by lia. reflexivity.
  - destruct (wake_total k t (LSem s) q RT_EOK c HK eq_refl Hl Hc) as (k1 & k2 & H1 & H2 & HK2 & W & M).
    exists k2. split; [|split; [exact HK2|split; [apply (of_sems _ _ (wo_frame _ _ _ _ _ _ W))|auto]]].
    erewrite bind_eq by (apply check_sem_eq; eassumption). erewrite bind_eq by reflexivity. cbv beta.
    rewrite Hl, bool_decide_false by discriminate. cbn [negb].
    erewrite bind_eq by exact H1. erewrite bind_eq by exact H2. reflexivity.
Qed.

(** The main thread releases semaphore 7, on which thread 300 waits. *)
Lemma sem_release_behaviour_witness :
  kinv k_wait /\ k_lists k_wait (LSem 7) = [300] /\
  exists k', rt_sem_release 7 k_wait = Some (RT_EOK, k') /\ k_lists k' (LSem 7) = [] /\ k_sems k' = k_sems k_wait.
Proof.
  assert (k_lists k_wait (LSem 7) = [300]) as Hl by (vm_compute; reflexivity).
  split; [apply k_wait_kinv|]. split; [exact Hl|].
  pose proof (sem_release_behaviour k_wait 7 (sem_of k_wait 7) 100 k_wait_kinv) as T. rewrite Hl in T.
  destruct T as (k' & H & _ & Hs & W & _); try (vm_compute; reflexivity).
  - vm_compute. split; [discriminate|reflexivity].
  - exists k'. split; [exact H|]. split; [apply (wo_list _ _ _ _ _ _ W)|exact Hs].
Defined.

(** When the taker goes on, it returns RT_EOK exactly when its error field
    is RT_EOK, which is what a release leaves there, and otherwise the negative
    of its error: -RT_ETIMEOUT after a timeout, -RT_ERROR after a reset or the end
    of the semaphore, -RT_EINTR when it was resumed by rt_thread_resume.  *)
Theorem sem_take_returns t th k s :
  k_current k = Some t -> k_threads k !! t = Some th ->
  exists r, _rt_sem_take_resume s k = Some (Done r [], k) /\ r <= 0 /\ (r = RT_EOK <-> th_error th = RT_EOK) /\
    (th_error th = - RT_ETIMEOUT -> r = - RT_ETIMEOUT) /\ (th_error th = RT_ERROR -> r = - RT_ERROR) /\
    (th_error th = RT_EINTR -> r = - RT_EINTR).
Proof.
  intros Hc Ht. unfold _rt_sem_take_resume. erewrite bind_eq by (apply the_self_eq, Hc).
  erewrite bind_eq by (apply get_thread_eq, Ht). cbv zeta.
  unfold RT_EOK, RT_ETIMEOUT, RT_ERROR, RT_EINTR.
  destruct (Z.eqb_spec (th_error th) 0) as [He|He]; cbn [negb].
  - exists 0. split; [reflexivity|]. lia.
  - exists (if 0 <? th_error th then - th_error th else th_error th). split; [reflexivity|].
    destruct (Z.ltb_spec 0 (th_error th)); lia.
Qed.

(** Thread 300 goes on after the release. *)
Lemma sem_take_returns_witness :
  exists r, _rt_sem_take_resume 7 (run (rt_sem_release 7) k_wait) = Some (Done r [], run (rt_sem_release 7) k_wait) /\
    r = RT_EOK.
Proof.
  destruct (sem_take_returns 300 (thread_of (run (rt_sem_release 7) k_wait) 300) (run (rt_sem_release 7) k_wait) 7)
    as (r & H & _ & Hr & _); [vm_compute; reflexivity|vm_compute; reflexivity|].
  exists r. split; [exact H|]. apply Hr. vm_compute. reflexivity.
Defined.
