(* ===== verification/MailboxProps.v ===== *)
(** * Properties of mailboxes

    A mailbox is a bounded queue of words: the ring of [mb_pool] refines the
    list of its mails, oldest first. *)

From S2P Require Import Prelude Bitmap Ring Kernel Timer Sched IpcList Thread Sem Mailbox.
From S2P Require Import KernelInv TimerInv SchedInv ThreadInv TimerIdle ThreadOps IpcOps SystemInv.
From S2P Require Import Demo SchedProps Blocking WaitProps SemProps.
Open Scope rt_scope.

(** ** The abstraction *)

(** The mailbox [x] has room for [cap] mails and holds [q]. *)
Record mb_rep (cap flag : Z) (q : list Z) (x : mailbox) : Prop := {
  br_valid : mb_valid x = true;
  br_flag : ob_flag (mb_ob x) = flag;
  br_size : mb_size x = cap;
  br_cap : 0 < cap < 2 ^ 16;
  br_pool : cap <= Z.of_nat (length (mb_pool x));
  br_out : 0 <= mb_out x < cap;
  br_entry : 0 <= mb_entry x <= cap;
  br_in : mb_in x = (mb_out x + mb_entry x) mod cap;
  br_mails : ring cap (mb_pool x) (mb_out x) (mb_entry x) = q;
}.

Lemma mb_rep_length cap flag q x : mb_rep cap flag q x -> Z.of_nat (length q) = mb_entry x.
Proof. intros []. subst q. apply ring_length. lia. Qed.

Lemma mb_full cap flag q x : mb_rep cap flag q x ->
  (mb_entry x =? mb_size x) = negb (Z.of_nat (length q) <? cap).
Proof.
  intros R. rewrite (mb_rep_length _ _ _ _ R). destruct R.
  destruct (Z.eqb_spec (mb_entry x) (mb_size x)), (Z.ltb_spec (mb_entry x) cap); try reflexivity; lia.
Qed.

(** The three updates of the ring. *)
Definition mb_pushed (v : Z) (x : mailbox) : mailbox :=
  x <| mb_pool ::= <[Z.to_nat (mb_in x) := v]> |>
    <| mb_in ::= (fun i => let i := u16 (i + 1) in if mb_size x <=? i then 0 else i) |>
    <| mb_entry ::= (fun n => u16 (n + 1)) |>.
Definition mb_unpopped (v : Z) (x : mailbox) : mailbox :=
  let out := if 0 <? mb_out x then mb_out x - 1 else u16 (mb_size x - 1) in
  x <| mb_out := out |> <| mb_pool ::= <[Z.to_nat out := v]> |> <| mb_entry ::= (fun n => u16 (n + 1)) |>.
Definition mb_popped (x : mailbox) : mailbox :=
  x <| mb_out ::= (fun o => let o := u16 (o + 1) in if mb_size x <=? o then 0 else o) |>
    <| mb_entry ::= (fun n => n - 1) |>.

Lemma mb_pushed_rep cap flag q v x :
  mb_rep cap flag q x -> Z.of_nat (length q) < cap -> mb_rep cap flag (q ++ [v]) (mb_pushed v x).
Proof.
  intros R Hq. rewrite (mb_rep_length _ _ _ _ R) in Hq. destruct R.
  split; cbn; rewrite ?length_insert; rewrite ?u16_small by lia; try assumption; try lia.
  - pose proof (slot_range cap (proj1 br_cap0) (mb_out x + mb_entry x)). rewrite br_in0, br_size0.
    rewrite u16_small, (next_slot cap) by lia. rewrite Zplus_mod_idemp_l.
    rewrite (u16_small (mb_entry x + 1)) by lia. f_equal. lia.
  - rewrite br_in0, (ring_push cap) by lia. rewrite br_mails0. reflexivity.
Qed.

Lemma mb_unpopped_rep cap flag q v x :
  mb_rep cap flag q x -> Z.of_nat (length q) < cap -> mb_rep cap flag (v :: q) (mb_unpopped v x).
Proof.
  intros R Hq. rewrite (mb_rep_length _ _ _ _ R) in Hq. destruct R.
  assert ((if 0 <? mb_out x then mb_out x - 1 else u16 (mb_size x - 1)) = (mb_out x - 1) mod cap) as E
    by (rewrite u16_small, br_size0 by lia; apply prev_slot; lia).
  pose proof (slot_range cap (proj1 br_cap0) (mb_out x - 1)).
  unfold mb_unpopped. cbv zeta. rewrite E. split; cbn; rewrite ?length_insert; rewrite ?u16_small by lia;
    try assumption; try lia.
  - rewrite br_in0, Zplus_mod_idemp_l, ?u16_small by lia. f_equal. lia.
  - rewrite (ring_unpop cap) by lia. rewrite br_mails0. reflexivity.
Qed.

Lemma mb_popped_rep cap flag q v x :
  mb_rep cap flag (v :: q) x ->
  mb_pool x !! Z.to_nat (mb_out x) = Some v /\ 0 < mb_entry x /\ mb_rep cap flag q (mb_popped x).
Proof.
  intros R. pose proof (mb_rep_length _ _ _ _ R) as Hl. cbn in Hl. destruct R.
  rewrite (ring_pop cap) in br_mails0 by lia. injection br_mails0 as Hv Hq.
  split; [|split; [lia|]].
  - rewrite list_lookup_lookup_total_lt by lia. congruence.
  - pose proof (slot_range cap (proj1 br_cap0) (mb_out x + 1)).
    assert ((if mb_size x <=? u16 (mb_out x + 1) then 0 else u16 (mb_out x + 1)) = (mb_out x + 1) mod cap) as E
      by (rewrite u16_small, br_size0 by lia; apply next_slot; lia).
    split; unfold mb_popped; cbn; rewrite ?E; try assumption; try lia.
    rewrite br_in0, Zplus_mod_idemp_l. f_equal. lia.
Qed.

(** ** The store *)

Definition with_mb (m : Z) (x : mailbox) (k : kernel) : kernel := k <| k_mbs ::= insert m x |>.

Lemma with_mb_lookup m x k : k_mbs (with_mb m x k) !! m = Some x.
Proof. apply lookup_insert_eq. Qed.

Lemma with_mb_twice m x y k : with_mb m y (with_mb m x k) = with_mb m y k.
Proof. destruct k. unfold with_mb, set_field. cbn. rewrite insert_insert_eq. reflexivity. Qed.

Lemma kinv_with_mb m x k : kinv k -> kinv (with_mb m x k).
Proof. intros HK. eapply kinv_same; [exact HK|reflexivity..]. Qed.

Lemma check_mb_eq m x k : k_mbs k !! m = Some x -> mb_valid x = true -> check_mb m k = Some (x, k).
Proof.
  intros Hx Hv. unfold check_mb. erewrite bind_eq by (apply get_obj_eq; exact Hx).
  erewrite bind_eq by (apply assert_eq; exact Hv). reflexivity.
Qed.

Lemma upd_mb_eq m x f k : k_mbs k !! m = Some x -> upd_mb m f k = Some (tt, with_mb m (f x) k).
Proof. intros Hx. unfold upd_mb. rewrite (upd_obj_eq k_mbs m f x k Hx). reflexivity. Qed.

Lemma upd_with_mb m x f k : upd_mb m f (with_mb m x k) = Some (tt, with_mb m (f x) k).
Proof. rewrite (upd_mb_eq m x) by apply with_mb_lookup. rewrite with_mb_twice. reflexivity. Qed.

Lemma pool_store_eq m x i v k :
  k_mbs k !! m = Some x -> 0 <= i < Z.of_nat (length (mb_pool x)) ->
  pool_store m i v k = Some (tt, with_mb m (x <| mb_pool ::= <[Z.to_nat i := v]> |>) k).
Proof.
  intros Hx Hi. unfold pool_store. erewrite bind_eq by (apply get_obj_eq; exact Hx).
  erewrite bind_eq by (apply assert_eq, andb_true_intro; split; [apply Z.leb_le|apply Z.ltb_lt]; lia).
  apply upd_mb_eq, Hx.
Qed.

Lemma mb_in_range cap flag q x : mb_rep cap flag q x -> 0 <= mb_in x < Z.of_nat (length (mb_pool x)).
Proof. intros []. pose proof (slot_range cap (proj1 br_cap0) (mb_out x + mb_entry x)). lia. Qed.

(** Storing a mail into a mailbox that is not full. *)
Lemma mb_put_total m v k x cap flag q c :
  kinv k -> k_current k = Some c -> k_mbs k !! m = Some x -> mb_rep cap flag q x -> Z.of_nat (length q) < cap ->
  exists k', mb_put m v k = Some (RT_EOK, k') /\ kinv k' /\ notified (LMbRecv m) (with_mb m (mb_pushed v x) k) k'.
Proof.
  intros HK Hc Hx R Hq. pose proof (mb_in_range _ _ _ _ R) as Hin.
  destruct (notify_total (LMbRecv m) (with_mb m (mb_pushed v x) k) c (kinv_with_mb _ _ _ HK) eq_refl Hc)
    as (k' & HK' & N & H & _). exists k'. split; [|auto].
  unfold mb_put. erewrite bind_eq by (apply get_obj_eq; exact Hx).
  erewrite bind_eq by (apply pool_store_eq; eassumption).
  erewrite bind_eq by apply upd_with_mb. rewrite (mb_rep_length _ _ _ _ R) in Hq. destruct R.
  assert ((mb_entry x <? RT_MB_ENTRY_MAX) = true) as -> by (apply Z.ltb_lt; unfold RT_MB_ENTRY_MAX; lia).
  erewrite bind_eq by apply upd_with_mb. apply H.
Qed.

(** C10: Sending refines the bounded queue.  A send into a mailbox that has room
    appends the mail and wakes the receiver that waits first, if there is one;
    into a full mailbox it returns -RT_EFULL without waiting when the timeout is
    0 and otherwise puts the sender to sleep, the mails unchanged.  *)
Theorem mb_send_refines t th k m x cap flag q v timeout f :
  in_thread t th k -> k_mbs k !! m = Some x -> mb_rep cap flag q x -> flag_ok flag -> timeout < HALF_TICK ->
  if Z.of_nat (length q) <? cap then
    exists x' k', _rt_mb_send_wait m v timeout f k = Some (Done RT_EOK [], k') /\ kinv k' /\
      mb_rep cap flag (q ++ [v]) x' /\ k_mbs k' !! m = Some x' /\ notified (LMbRecv m) (with_mb m x' k) k'
  else if timeout =? 0 then _rt_mb_send_wait m v timeout f k = Some (Done (- RT_EFULL) [], k)
  else exists k', _rt_mb_send_wait m v timeout f k = Some (Waiting (PcMbSend m v timeout (k_tick k) f), k') /\
    kinv k' /\ k_mbs k' = k_mbs k /\ asleep t (LMbSend m) flag timeout (with_error t th (- RT_EINTR) k) k'.
Proof.
  intros C Hx R Hf Hto. unfold _rt_mb_send_wait.
  erewrite bind_eq by (apply check_mb_eq; [exact Hx|apply R]).
  erewrite bind_eq by (eapply scheduler_available_eq; exact C).
  erewrite bind_eq by (apply get_obj_eq; exact Hx). unfold mb_send_round.
  rewrite (mb_full _ _ _ _ R). destruct (Z.ltb_spec (Z.of_nat (length q)) cap) as [Hq|Hq]; cbn [negb andb].
  - destruct (mb_put_total m v k x cap flag q t (it_kinv _ _ _ C) (it_current _ _ _ C) Hx R Hq)
      as (k' & H & HK & N).
    exists (mb_pushed v x), k'. split; [|split; [exact HK|split; [apply mb_pushed_rep; assumption|split; [|exact N]]]].
    + erewrite bind_eq by (apply get_obj_eq; exact Hx). rewrite (mb_full _ _ _ _ R).
      destruct (Z.ltb_spec (Z.of_nat (length q)) cap); [|lia]. cbn [negb].
      erewrite bind_eq by exact H. reflexivity.
    + rewrite (of_mbs _ _ (notified_frame _ _ _ N)). apply with_mb_lookup.
  - destruct (Z.eqb_spec timeout 0) as [|H0]; [reflexivity|].
    erewrite bind_eq by (apply get_obj_eq; exact Hx). rewrite (mb_full _ _ _ _ R).
    destruct (Z.ltb_spec (Z.of_nat (length q)) cap); [lia|]. cbn [negb].
    erewrite bind_eq by (apply the_self_eq, C). erewrite bind_eq by (apply upd_thread_eq, C).
    destruct (Z.eqb_spec timeout 0); [contradiction|]. rewrite (br_flag _ _ _ _ R).
    change (k <| k_threads ::= _ |>) with (with_error t th (- RT_EINTR) k).
    destruct (sleep_total _ _ _ (LMbSend m) flag f timeout (in_thread_error t th (- RT_EINTR) k C) eq_refl Hf Hto)
      as (k1 & k2 & k3 & H1 & Ht & H2 & H3 & HK & A).
    exists k3. split; [|split; [exact HK|split; [apply (of_mbs _ _ (as_frame _ _ _ _ _ _ A))|exact A]]].
    erewrite bind_eq by exact H1. cbn [negb Z.eqb RT_EOK]. erewrite bind_eq by reflexivity.
    erewrite bind_eq by exact H2. erewrite bind_eq by exact H3.
    change (k_tick (with_error t th (- RT_EINTR) k)) with (k_tick k) in Ht. cbv beta. rewrite Ht. reflexivity.
Qed.

Definition mb_of (k : kernel) (m : Z) : mailbox := default (mkMailbox (mkIpc false false 0) [] 0 0 0 0) (k_mbs k !! m).

(** A mailbox of two slots that holds one mail. *)
Definition k_mail : kernel := run (_rt_mb_send_wait 9 41 0 RT_UNINTERRUPTIBLE) (run (rt_mb_init 9 [0; 0] 2 0) k_boot).

Lemma k_mail_kinv : kinv k_mail.
Proof. apply run_kinv; [apply mb_send_wait_preserves|]. apply run_kinv; [apply mb_init_preserves|apply k_boot_kinv]. Qed.

Lemma k_mail_in_thread : in_thread 100 (thread_of k_mail 100) k_mail.
Proof. split; try (vm_compute; reflexivity). apply k_mail_kinv. Qed.

Lemma k_mail_rep : mb_rep 2 0 [41] (mb_of k_mail 9).
Proof. split; try (vm_compute; reflexivity); vm_compute; intuition discriminate. Qed.

Lemma mb_send_refines_witness :
  in_thread 100 (thread_of k_mail 100) k_mail /\ mb_rep 2 0 [41] (mb_of k_mail 9) /\
  exists x' k', _rt_mb_send_wait 9 42 0 RT_UNINTERRUPTIBLE k_mail = Some (Done RT_EOK [], k') /\
    mb_rep 2 0 [41; 42] x' /\ k_mbs k' !! 9 = Some x'.
Proof.
  split; [exact k_mail_in_thread|]. split; [exact k_mail_rep|].
  destruct (mb_send_refines 100 (thread_of k_mail 100) k_mail 9 (mb_of k_mail 9) 2 0 [41] 42 0 RT_UNINTERRUPTIBLE
    k_mail_in_thread) as (x' & k' & H & _ & R & Hx & _).
  - vm_compute. reflexivity.
  - exact k_mail_rep.
  - left. reflexivity.
  - vm_compute. reflexivity.
  - exists x', k'. auto.
Defined.

(** Taking a mail from a mailbox that is not empty. *)
Lemma mb_take_total m k x cap flag v q c :
  kinv k -> k_current k = Some c -> k_mbs k !! m = Some x -> mb_rep cap flag (v :: q) x ->
  exists k', mb_take m k = Some (Done RT_EOK [v], k') /\ kinv k' /\ notified (LMbSend m) (with_mb m (mb_popped x) k) k'.
Proof.
  intros HK Hc Hx R. destruct (mb_popped_rep _ _ _ _ _ R) as (Hv & He & R').
  destruct (notify_total (LMbSend m) (with_mb m (mb_popped x) k) c (kinv_with_mb _ _ _ HK) eq_refl Hc)
    as (k' & HK' & N & _ & H). exists k'. split; [|auto].
  unfold mb_take. erewrite bind_eq by (apply get_obj_eq; exact Hx).
  erewrite bind_eq by (rewrite Hv; reflexivity).
  erewrite bind_eq by (apply upd_mb_eq; exact Hx).
  assert ((0 <? mb_entry x) = true) as -> by (apply Z.ltb_lt; exact He). cbn [when].
  erewrite bind_eq by apply upd_with_mb.
  rewrite <- (bind_assoc (rt_list_isempty (LMbSend m)) (fun empty : bool =>
    when (negb empty) (rt_susp_list_dequeue (LMbSend m) RT_EOK;; rt_schedule))).
  erewrite bind_eq by exact H. reflexivity.
Qed.

(** C11: Receiving refines the bounded queue.  A receive from a mailbox that
    holds mails returns the oldest one, removes it and wakes the sender that
    waits first; from an empty mailbox it returns -RT_ETIMEOUT without waiting
    when the timeout is 0 and otherwise puts the receiver to sleep.  *)
Theorem mb_recv_refines t th k m x cap flag q timeout f :
  in_thread t th k -> k_mbs k !! m = Some x -> mb_rep cap flag q x -> flag_ok flag -> timeout < HALF_TICK ->
  match q with
  | v :: q' => exists x' k', _rt_mb_recv m timeout f k = Some (Done RT_EOK [v], k') /\ kinv k' /\
      mb_rep cap flag q' x' /\ k_mbs k' !! m = Some x' /\ notified (LMbSend m) (with_mb m x' k) k'
  | [] => if timeout =? 0 then _rt_mb_recv m timeout f k = Some (Done (- RT_ETIMEOUT) [], k)
      else exists k', _rt_mb_recv m timeout f k = Some (Waiting (PcMbRecv m timeout (k_tick k) f), k') /\
        kinv k' /\ k_mbs k' = k_mbs k /\ asleep t (LMbRecv m) flag timeout (with_error t th (- RT_EINTR) k) k'
  end.
Proof.
  intros C Hx R Hf Hto. unfold _rt_mb_recv, mb_recv_round. pose proof (mb_rep_length _ _ _ _ R) as Hl.
  erewrite bind_eq by (apply check_mb_eq; [exact Hx|apply R]).
  erewrite bind_eq by (eapply scheduler_available_eq; exact C).
  erewrite bind_eq by (apply get_obj_eq; exact Hx). destruct q as [|v q]; cbn [length] in Hl.
  - assert ((mb_entry x =? 0) = true) as He by (apply Z.eqb_eq; lia). rewrite He. cbn [andb].
    destruct (Z.eqb_spec timeout 0) as [|H0]; [reflexivity|].
    erewrite bind_eq by (apply get_obj_eq; exact Hx). rewrite He.
    erewrite bind_eq by (apply the_self_eq, C). erewrite bind_eq by (apply upd_thread_eq, C).
    destruct (Z.eqb_spec timeout 0); [contradiction|]. rewrite (br_flag _ _ _ _ R).
    change (k <| k_threads ::= _ |>) with (with_error t th (- RT_EINTR) k).
    destruct (sleep_total _ _ _ (LMbRecv m) flag f timeout (in_thread_error t th (- RT_EINTR) k C) eq_refl Hf Hto)
      as (k1 & k2 & k3 & H1 & Ht & H2 & H3 & HK & A).
    exists k3. split; [|split; [exact HK|split; [apply (of_mbs _ _ (as_frame _ _ _ _ _ _ A))|exact A]]].
    erewrite bind_eq by exact H1. cbn [negb Z.eqb RT_EOK]. erewrite bind_eq by reflexivity.
    erewrite bind_eq by exact H2. erewrite bind_eq by exact H3.
    change (k_tick (with_error t th (- RT_EINTR) k)) with (k_tick k) in Ht. cbv beta. rewrite Ht. reflexivity.
  - destruct (mb_take_total m k x cap flag v q t (it_kinv _ _ _ C) (it_current _ _ _ C) Hx R) as (k' & H & HK & N).
    assert ((mb_entry x =? 0) = false) as He by (apply Z.eqb_neq; lia).
    exists (mb_popped x), k'. rewrite He. cbn [andb].
    split; [erewrite bind_eq by (apply get_obj_eq; exact Hx); rewrite He; exact H|]. split; [exact HK|].
    split; [apply (mb_popped_rep _ _ _ _ _ R)|]. split; [|exact N].
    rewrite (of_mbs _ _ (notified_frame _ _ _ N)). apply with_mb_lookup.
Qed.

Lemma mb_recv_refines_witness :
  mb_rep 2 0 [41] (mb_of k_mail 9) /\
  exists x' k', _rt_mb_recv 9 (-1) RT_KILLABLE k_mail = Some (Done RT_EOK [41], k') /\ mb_rep 2 0 [] x' /\
    k_mbs k' !! 9 = Some x'.
Proof.
  split; [exact k_mail_rep|].
  destruct (mb_recv_refines 100 (thread_of k_mail 100) k_mail 9 (mb_of k_mail 9) 2 0 [41] (-1) RT_KILLABLE
    k_mail_in_thread) as (x' & k' & H & _ & R & Hx & _).
  - vm_compute. reflexivity.
  - exact k_mail_rep.
  - left. reflexivity.
  - vm_compute. reflexivity.
  - exists x', k'. auto.
Defined.

(** An urgent mail goes before all others, so that it is received next;
    when the mailbox is full, rt_mb_urgent returns -RT_EFULL and changes
    nothing.  *)
Theorem mb_urgent_refines k m x cap flag q v c :
  kinv k -> k_current k = Some c -> k_mbs k !! m = Some x -> mb_rep cap flag q x ->
  if Z.of_nat (length q) <? cap then
    exists x' k', rt_mb_urgent m v k = Some (RT_EOK, k') /\ kinv k' /\
      mb_rep cap flag (v :: q) x' /\ k_mbs k' !! m = Some x' /\ notified (LMbRecv m) (with_mb m x' k) k'
  else rt_mb_urgent m v k = Some (- RT_EFULL, k).
Proof.
  intros HK Hc Hx R. unfold rt_mb_urgent.
  erewrite bind_eq by (apply check_mb_eq; [exact Hx|apply R]). rewrite (mb_full _ _ _ _ R).
  destruct (Z.ltb_spec (Z.of_nat (length q)) cap) as [Hq|]; cbn [negb]; [|reflexivity].
  pose proof (mb_unpopped_rep _ _ _ v _ R Hq) as R'.
  destruct (notify_total (LMbRecv m) (with_mb m (mb_unpopped v x) k) c (kinv_with_mb _ _ _ HK) eq_refl Hc)
    as (k' & HK' & N & H & _).
  exists (mb_unpopped v x), k'. split; [|split; [exact HK'|split; [exact R'|split; [|exact N]]]].
  - erewrite bind_eq by (apply upd_mb_eq; exact Hx).
    erewrite bind_eq by (apply get_obj_eq, with_mb_lookup).
    erewrite bind_eq.
    2: { apply pool_store_eq; [apply with_mb_lookup|]. destruct R, R'. cbn in *. rewrite length_insert in *. lia. }
    rewrite with_mb_twice. erewrite bind_eq by apply upd_with_mb. apply H.
  - rewrite (of_mbs _ _ (notified_frame _ _ _ N)). apply with_mb_lookup.
Qed.

Lemma mb_urgent_refines_witness :
  mb_rep 2 0 [41] (mb_of k_mail 9) /\
  exists x' k', rt_mb_urgent 9 7 k_mail = Some (RT_EOK, k') /\ mb_rep 2 0 [7; 41] x' /\ k_mbs k' !! 9 = Some x'.
Proof.
  split; [exact k_mail_rep|].
  destruct (mb_urgent_refines k_mail 9 (mb_of k_mail 9) 2 0 [41] 7 100 k_mail_kinv)
    as (x' & k' & H & _ & R & Hx & _).
  - vm_compute. reflexivity.
  - vm_compute. reflexivity.
  - exact k_mail_rep.
  - exists x', k'. auto.
Defined.
