(* ===== verification/MqueueProps.v ===== *)
(** * Properties of message queues

    The nodes of the pool, linked in a queue and a free list, refine a bounded
    queue of byte strings. *)

From S2P Require Import Prelude Bitmap Kernel Timer Sched IpcList Thread Sem Mailbox Mqueue.
From S2P Require Import KernelInv TimerInv SchedInv ThreadInv TimerIdle ThreadOps IpcOps SystemInv.
From S2P Require Import Demo SchedProps Blocking WaitProps SemProps.
Open Scope rt_scope.

(** ** Chains: the singly linked lists that a queue keeps in its pool, as lists of node addresses *)

(** The nodes from pointer [p] on are [ids], the last one points to RT_NULL. *)
Fixpoint chain (nodes : gmap Z mqnode) (p : option Z) (ids : list Z) : Prop :=
  match ids with
  | [] => p = None
  | a :: ids => p = Some a /\ exists n, nodes !! a = Some n /\ chain nodes (mn_next n) ids
  end.

Lemma chain_head nodes p ids : chain nodes p ids -> p = head ids.
Proof. destruct ids; [intros ->; reflexivity|intros [-> _]; reflexivity]. Qed.

Lemma chain_lookup nodes p ids a : chain nodes p ids -> a ∈ ids -> is_Some (nodes !! a).
Proof.
  revert p. induction ids as [|b ids IH]; intros p; [intros _ []%elem_of_nil|].
  intros (-> & n & Hn & H) [->|Ha]%elem_of_cons; [rewrite Hn; eauto|exact (IH _ H Ha)].
Qed.

(** Only the links of the nodes of the chain matter. *)
Lemma chain_ext nodes nodes' p ids :
  (forall a n, a ∈ ids -> nodes !! a = Some n -> exists n', nodes' !! a = Some n' /\ mn_next n' = mn_next n) ->
  chain nodes p ids -> chain nodes' p ids.
Proof.
  revert p. induction ids as [|a ids IH]; intros p Hn; [auto|]. intros (-> & n & Ha & H). split; [reflexivity|].
  destruct (Hn a n (list_elem_of_here _ _) Ha) as (n' & Ha' & E). exists n'. split; [exact Ha'|]. rewrite E.
  apply IH; [|exact H]. intros b nb Hb. apply Hn, list_elem_of_further, Hb.
Qed.

Lemma chain_insert nodes p ids a n : a ∉ ids -> chain nodes p ids -> chain (<[a := n]> nodes) p ids.
Proof.
  intros Ha. apply chain_ext. intros b nb Hb Hnb. exists nb. split; [|reflexivity].
  rewrite lookup_insert_ne by (intros ->; contradiction). exact Hnb.
Qed.

(** A new node behind the last one. *)
Lemma chain_snoc nodes p ids b nb :
  NoDup (ids ++ [b]) -> chain nodes p ids -> mn_next nb = None ->
  chain (match last ids with
         | Some t => match nodes !! t with Some n => <[t := n <| mn_next := Some b |>]> (<[b := nb]> nodes) | None => nodes end
         | None => <[b := nb]> nodes
         end) (match p with None => Some b | Some _ => p end) (ids ++ [b]).
Proof.
  revert p. induction ids as [|a ids IH]; intros p Hnd.
  - intros -> Hb. split; [reflexivity|]. exists nb. split; [apply lookup_insert_eq|exact Hb].
  - intros (-> & n & Ha & H) Hb. cbn [app] in Hnd. apply NoDup_cons in Hnd as [Hna Hnd].
    assert (a <> b) as Hab by (intros ->; apply Hna, elem_of_app; right; apply list_elem_of_here).
    specialize (IH _ Hnd H Hb). destruct ids as [|c ids].
    + cbn in H. cbn [last]. rewrite Ha. split; [reflexivity|].
      eexists. split; [apply lookup_insert_eq|]. split; [reflexivity|]. exists nb.
      split; [rewrite lookup_insert_ne by congruence; apply lookup_insert_eq|exact Hb].
    + change (last (a :: c :: ids)) with (last (c :: ids)). split; [reflexivity|].
      destruct (last (c :: ids)) as [t|] eqn:Ht; [|apply last_None in Ht; discriminate].
      assert (t ∈ c :: ids) as Hin by (apply last_Some_elem_of; exact Ht).
      destruct (chain_lookup _ _ _ _ H Hin) as [nt Hnt]. rewrite Hnt in IH |- *.
      exists n. split.
      * rewrite !lookup_insert_ne; [exact Ha|congruence|]. intros ->. apply Hna, elem_of_app. left. exact Hin.
      * destruct H as (E & H). rewrite E in IH |- *. exact IH.
Qed.

(** ** The abstraction *)

(** Node [a] holds message [m]. *)
Definition holds (nodes : gmap Z mqnode) (a : Z) (m : list Z) : Prop :=
  exists n, nodes !! a = Some n /\ mn_length n = Z.of_nat (length m) /\ take (length m) (mn_data n) = m.

(** The queue [x] has [cap] nodes for messages of up to [size] bytes; the nodes
    [used] hold the messages [q], the nodes [free] are free. *)
Record mq_rep (cap size flag : Z) (q : list (list Z)) (used free : list Z) (x : msgqueue) : Prop := {
  qr_valid : mq_valid x = true;
  qr_flag : ob_flag (mq_ob x) = flag;
  qr_size : mq_msg_size x = size;
  qr_nodup : NoDup (used ++ free);
  qr_cap : Z.of_nat (length (used ++ free)) = cap;
  qr_bound : cap < 2 ^ 16;
  qr_head : chain (mq_nodes x) (mq_head x) used;
  qr_free : chain (mq_nodes x) (mq_free x) free;
  qr_tail : mq_tail x = last used;
  qr_entry : mq_entry x = Z.of_nat (length used);
  qr_msgs : Forall2 (holds (mq_nodes x)) used q;
  qr_room : forall a n, a ∈ used ++ free -> mq_nodes x !! a = Some n -> size <= Z.of_nat (length (mn_data n));
}.

Lemma mq_rep_length cap size flag q used free x :
  mq_rep cap size flag q used free x -> length used = length q.
Proof. intros R. apply (Forall2_length _ _ _ (qr_msgs _ _ _ _ _ _ _ R)). Qed.

(** There is a free node exactly when the queue is not full. *)
Lemma mq_free_full cap size flag q used free x :
  mq_rep cap size flag q used free x ->
  match mq_free x with Some _ => Z.of_nat (length q) < cap | None => Z.of_nat (length q) = cap end.
Proof.
  intros R. pose proof (mq_rep_length _ _ _ _ _ _ _ R) as Hl. pose proof (qr_cap _ _ _ _ _ _ _ R) as Hc.
  rewrite length_app in Hc. rewrite (chain_head _ _ _ (qr_free _ _ _ _ _ _ _ R)).
  destruct free; cbn in *; lia.
Qed.

Lemma holds_same nodes nodes' a m :
  (forall n, nodes !! a = Some n -> exists n', nodes' !! a = Some n' /\ mn_length n' = mn_length n /\ mn_data n' = mn_data n) ->
  holds nodes a m -> holds nodes' a m.
Proof. intros H (n & Hn & Hl & Hd). destruct (H n Hn) as (n' & Hn' & E1 & E2). exists n'. rewrite E1, E2. auto. Qed.

Lemma holds_all_same nodes nodes' used q :
  (forall a n, a ∈ used -> nodes !! a = Some n ->
    exists n', nodes' !! a = Some n' /\ mn_length n' = mn_length n /\ mn_data n' = mn_data n) ->
  Forall2 (holds nodes) used q -> Forall2 (holds nodes') used q.
Proof.
  intros H F. induction F as [|a m used q Ha F IH]; constructor.
  - eapply holds_same; [|exact Ha]. intros n Hn. apply H; [apply list_elem_of_here|exact Hn].
  - apply IH. intros b n Hb. apply H, list_elem_of_further, Hb.
Qed.

Lemma fill_holds nodes a m n :
  Z.of_nat (length m) <= Z.of_nat (length (mn_data n)) -> nodes !! a = Some (fill_node m n) -> holds nodes a m.
Proof.
  intros Hl Hn. exists (fill_node m n). split; [exact Hn|]. split; [reflexivity|]. cbn. apply take_app_length.
Qed.

Lemma fill_room m n : Z.of_nat (length m) <= Z.of_nat (length (mn_data n)) ->
  length (mn_data (fill_node m n)) = length (mn_data n).
Proof. intros Hl. cbn. rewrite length_app, length_drop. lia. Qed.

(** ** The updates of the object *)

(** What sending does: the first free node is filled and linked at the tail. *)
Definition mq_filled (a : Z) (m : list Z) (clear : bool) (x : msgqueue) : msgqueue :=
  upd_node a (fun n => fill_node m (if clear then (n <| mn_next := None |>) else n))
    (match node_at x a with Some n => x <| mq_free := mn_next n |> | None => x end).
Definition mq_pushed (a : Z) (m : list Z) (x : msgqueue) : msgqueue :=
  (mq_append a (mq_filled a m true x)) <| mq_entry ::= (fun n => u16 (n + 1)) |>.
Definition mq_unpopped (a : Z) (m : list Z) (x : msgqueue) : msgqueue :=
  (mq_prepend a (mq_filled a m false x)) <| mq_entry ::= (fun n => u16 (n + 1)) |>.

Lemma prepend_eq a nb y :
  node_at y a = Some nb ->
  mq_prepend a y = y <| mq_nodes ::= insert a (nb <| mn_next := mq_head y |>) |> <| mq_head := Some a |>
    <| mq_tail := (match mq_tail y with None => Some a | Some _ => mq_tail y end) |>.
Proof.
  intros H. unfold mq_prepend, upd_node. rewrite H. destruct y as [? ? ? ? ? ? tl ?]. cbn. destruct tl; reflexivity.
Qed.

Lemma elem_of_moved (b a : Z) used free : b ∈ (used ++ [a]) ++ free <-> b ∈ used ++ a :: free.
Proof. rewrite <- app_assoc. reflexivity. Qed.
Lemma elem_of_middle (a : Z) used free : a ∈ used ++ a :: free.
Proof. apply elem_of_app. right. apply list_elem_of_here. Qed.

Lemma elem_of_middle_cons (b a : Z) used free : b ∈ used ++ a :: free -> b ∈ (a :: used) ++ free.
Proof. rewrite !elem_of_app, !elem_of_cons. tauto. Qed.

Section Push.
Context (cap size flag : Z) (q : list (list Z)) (used free : list Z) (a : Z) (m : list Z) (x : msgqueue) (n : mqnode).
Hypothesis R : mq_rep cap size flag q used (a :: free) x.
Hypothesis Hm : Z.of_nat (length m) <= size.
Hypothesis Hn : mq_nodes x !! a = Some n.

Lemma push_fresh : (a ∉ used) /\ (a ∉ free) /\ NoDup ((used ++ [a]) ++ free).
Proof.
  pose proof (qr_nodup _ _ _ _ _ _ _ R) as Hnd. rewrite <- app_assoc. cbn [app]. split; [|split; [|exact Hnd]].
  - intros Ha. apply NoDup_app in Hnd as (_ & Hnd & _). apply (Hnd a Ha), list_elem_of_here.
  - apply NoDup_app in Hnd as (_ & _ & Hnd). apply NoDup_cons in Hnd. apply Hnd.
Qed.

Lemma push_room : Z.of_nat (length m) <= Z.of_nat (length (mn_data n)).
Proof.
  pose proof (qr_room _ _ _ _ _ _ _ R a n (elem_of_middle _ _ _) Hn). lia.
Qed.

Lemma push_length : Z.of_nat (length (used ++ [a])) < 2 ^ 16 /\ Z.of_nat (length ((used ++ [a]) ++ free)) = cap.
Proof.
  pose proof (qr_cap _ _ _ _ _ _ _ R). pose proof (qr_bound _ _ _ _ _ _ _ R).
  rewrite !length_app in *. cbn [length] in *. lia.
Qed.

(** The node is filled and out of the free list. *)
Lemma filled_eq clear : mq_filled a m clear x =
  x <| mq_free := mn_next n |> <| mq_nodes ::= insert a (fill_node m (if clear then (n <| mn_next := None |>) else n)) |>.
Proof. unfold mq_filled, node_at. rewrite Hn. unfold upd_node, node_at. cbn. rewrite Hn. reflexivity. Qed.

(** A store of nodes in which the links changed as a push or an unpop changes
    them. *)
Lemma push_msgs nodes n' :
  n' = fill_node m n \/ n' = fill_node m (n <| mn_next := None |>) ->
  (forall b, b <> a -> forall nb, mq_nodes x !! b = Some nb ->
     exists nb', nodes !! b = Some nb' /\ mn_length nb' = mn_length nb /\ mn_data nb' = mn_data nb) ->
  (exists na, nodes !! a = Some na /\ mn_length na = mn_length n' /\ mn_data na = mn_data n') ->
  Forall2 (holds nodes) used q /\ holds nodes a m /\
  (forall b nb, b ∈ (used ++ [a]) ++ free -> nodes !! b = Some nb -> size <= Z.of_nat (length (mn_data nb))).
Proof.
  intros Hn' Ho (na & Hna & El & Ed). destruct push_fresh as (Hu & Hf & _). pose proof push_room as Hroom.
  assert (mn_length n' = Z.of_nat (length m) /\ mn_data n' = m ++ drop (length m) (mn_data n)) as [E1 E2]
    by (destruct Hn' as [-> | ->]; split; reflexivity).
  split; [|split].
  - apply (holds_all_same (mq_nodes x)); [|apply (qr_msgs _ _ _ _ _ _ _ R)]. intros b nb Hb Hnb.
    apply Ho; [intros ->; contradiction|exact Hnb].
  - exists na. split; [exact Hna|]. rewrite El, Ed, E1, E2. split; [reflexivity|apply take_app_length].
  - intros b nb Hb Hnb. destruct (decide (b = a)) as [->|Hne].
    + rewrite Hna in Hnb. injection Hnb as <-. rewrite Ed, E2, length_app, length_drop.
      pose proof (qr_room _ _ _ _ _ _ _ R a n (elem_of_middle _ _ _) Hn). lia.
    + pose proof (proj1 (elem_of_moved _ _ _ _) Hb) as Hb'.
      assert (is_Some (mq_nodes x !! b)) as [nb0 Hnb0].
      { apply elem_of_app in Hb' as [Hb'|Hb']; eapply chain_lookup; [apply (qr_head _ _ _ _ _ _ _ R)|exact Hb'|
          apply (qr_free _ _ _ _ _ _ _ R)|exact Hb']. }
      destruct (Ho b Hne nb0 Hnb0) as (nb' & Hnb' & _ & E). rewrite Hnb in Hnb'. injection Hnb' as <-. rewrite E.
      apply (qr_room _ _ _ _ _ _ _ R b nb0 Hb' Hnb0).
Qed.

(** The nodes after the new one is linked behind the tail. *)
Definition linked_nodes (nodes : gmap Z mqnode) (used : list Z) (nb : mqnode) : gmap Z mqnode :=
  match last used with
  | Some t => match nodes !! t with
              | Some nt => <[t := nt <| mn_next := Some a |>]> (<[a := nb]> nodes)
              | None => nodes end
  | None => <[a := nb]> nodes
  end.

Lemma append_eq y nb :
  mq_nodes y = <[a := nb]> (mq_nodes x) -> mq_tail y = last used -> mq_head y = mq_head x ->
  mq_append a y = y <| mq_nodes := linked_nodes (mq_nodes x) used nb |> <| mq_tail := Some a |>
    <| mq_head := (match mq_head x with None => Some a | Some _ => mq_head x end) |>.
Proof.
  intros Hy Ht Hh. destruct (push_fresh) as (Hu & _). unfold mq_append, linked_nodes. rewrite Ht.
  destruct (last used) as [t|] eqn:Hl.
  - assert (t ∈ used) as Hin by (apply last_Some_elem_of; exact Hl).
    destruct (chain_lookup _ _ _ _ (qr_head _ _ _ _ _ _ _ R) Hin) as [nt Hnt].
    unfold upd_node, node_at. rewrite Hy, lookup_insert_ne by (intros ->; contradiction). rewrite Hnt. cbn.
    destruct y; cbn in *. subst. destruct (mq_head x); reflexivity.
  - destruct y; cbn in *. subst. destruct (mq_head x); reflexivity.
Qed.

Lemma linked_others nb :
  (forall b, b <> a -> forall n0, mq_nodes x !! b = Some n0 ->
     exists n1, linked_nodes (mq_nodes x) used nb !! b = Some n1 /\ mn_length n1 = mn_length n0 /\
       mn_data n1 = mn_data n0 /\ (b ∉ used -> n1 = n0)) /\
  linked_nodes (mq_nodes x) used nb !! a = Some nb.
Proof.
  destruct (push_fresh) as (Hu & _). unfold linked_nodes. destruct (last used) as [t|] eqn:Hl.
  - assert (t ∈ used) as Hin by (apply last_Some_elem_of; exact Hl).
    destruct (chain_lookup _ _ _ _ (qr_head _ _ _ _ _ _ _ R) Hin) as [nt Hnt]. rewrite Hnt.
    assert (t <> a) as Hta by (intros ->; contradiction). split.
    + intros b Hb n0 Hn0. destruct (decide (b = t)) as [->|Hbt].
      * rewrite Hn0 in Hnt. injection Hnt as <-. eexists. split; [apply lookup_insert_eq|].
        split; [reflexivity|]. split; [reflexivity|]. intros; contradiction.
      * exists n0. rewrite !lookup_insert_ne by congruence. auto.
    + rewrite lookup_insert_ne by congruence. apply lookup_insert_eq.
  - split; [|apply lookup_insert_eq]. intros b Hb n0 Hn0. exists n0. rewrite lookup_insert_ne by congruence. auto.
Qed.

Lemma pushed_rep : mq_rep cap size flag (q ++ [m]) (used ++ [a]) free (mq_pushed a m x).
Proof.
  destruct push_fresh as (Hu & Hf & Hnd). destruct push_length as [Hb Hc].
  set (nb := fill_node m (n <| mn_next := None |>)).
  assert (mq_append a (mq_filled a m true x) = (x <| mq_free := mn_next n |>)
    <| mq_nodes := linked_nodes (mq_nodes x) used nb |> <| mq_tail := Some a |>
    <| mq_head := (match mq_head x with None => Some a | Some _ => mq_head x end) |>) as E.
  { rewrite (append_eq _ nb); rewrite filled_eq; try reflexivity. apply (qr_tail _ _ _ _ _ _ _ R). }
  destruct (linked_others nb) as [Ho Ha].
  destruct (push_msgs (linked_nodes (mq_nodes x) used nb) nb) as (Hq & Hh & Hroom); [right; reflexivity| |eauto|].
  { intros b Hb' n0 Hn0. destruct (Ho b Hb' n0 Hn0) as (n1 & H1 & H2 & H3 & _). eauto. }
  unfold mq_pushed. rewrite E. destruct R as [Rv Rf Rs _ _ Rb Rh Rfr Rt Re _ _]. split; cbn; try assumption.
  - rewrite (chain_head _ _ _ Rh). apply NoDup_app in Hnd as (Hnd1 & _ & _).
    pose proof (chain_snoc _ _ _ a nb Hnd1 Rh eq_refl) as H. rewrite (chain_head _ _ _ Rh) in H. exact H.
  - cbn in Rfr. destruct Rfr as (_ & n2 & H2 & Rfr). rewrite Hn in H2. injection H2 as <-.
    eapply chain_ext; [|exact Rfr]. intros b n0 Hb' Hn0.
    assert (b <> a) as Hne by (intros ->; contradiction).
    destruct (Ho b Hne n0 Hn0) as (n1 & H1 & _ & _ & Hsame). exists n1. split; [exact H1|]. rewrite Hsame; [reflexivity|].
    intros Hbu. apply NoDup_app in Hnd as (_ & Hdis & _). apply (Hdis b); [apply elem_of_app; auto|exact Hb'].
  - rewrite last_snoc. reflexivity.
  - rewrite Re, u16_small; rewrite length_app in *; cbn [length] in *; lia.
  - apply Forall2_app; [exact Hq|]. constructor; [exact Hh|constructor].
Qed.

Lemma unpopped_rep : mq_rep cap size flag (m :: q) (a :: used) free (mq_unpopped a m x).
Proof.
  destruct push_fresh as (Hu & Hf & Hnd). destruct push_length as [Hb Hc].
  set (nb := (fill_node m n) <| mn_next := mq_head x |>).
  assert (mq_prepend a (mq_filled a m false x) = (x <| mq_free := mn_next n |>)
    <| mq_nodes := <[a := nb]> (mq_nodes x) |> <| mq_head := Some a |>
    <| mq_tail := (match mq_tail x with None => Some a | Some _ => mq_tail x end) |>) as E.
  { rewrite filled_eq, (prepend_eq a (fill_node m n)) by apply lookup_insert_eq.
    unfold set_field. cbn. rewrite insert_insert_eq. reflexivity. }
  assert (forall b, b <> a -> forall n0, mq_nodes x !! b = Some n0 ->
    exists n1, (<[a := nb]> (mq_nodes x)) !! b = Some n1 /\ mn_length n1 = mn_length n0 /\ mn_data n1 = mn_data n0) as Ho.
  { intros b Hb' n0 Hn0. exists n0. rewrite lookup_insert_ne by congruence. auto. }
  destruct (push_msgs (<[a := nb]> (mq_nodes x)) (fill_node m n)) as (Hq & Hh & Hroom); [left; reflexivity|exact Ho| |].
  { exists nb. split; [apply lookup_insert_eq|split; reflexivity]. }
  unfold mq_unpopped. rewrite E. destruct R as [Rv Rf Rs Rnd _ Rb Rh Rfr Rt Re _ _]. split; cbn; try assumption.
  - apply NoDup_cons. rewrite <- app_assoc in Hnd. cbn [app] in Hnd. apply NoDup_app in Hnd as (N1 & N2 & N3).
    apply NoDup_cons in N3 as [N3 N4]. split; [rewrite elem_of_app; tauto|]. apply NoDup_app.
    split; [exact N1|]. split; [|exact N4]. intros b Hb' Hb2. apply (N2 b Hb'), list_elem_of_further, Hb2.
  - rewrite !length_app in *. cbn [length] in *. lia.
  - split; [reflexivity|]. exists nb. split; [apply lookup_insert_eq|]. apply chain_insert; assumption.
  - cbn in Rfr. destruct Rfr as (_ & n2 & H2 & Rfr). rewrite Hn in H2. injection H2 as <-.
    apply chain_insert; assumption.
  - rewrite Rt. destruct used as [|u us]; [reflexivity|]. change (last (a :: u :: us)) with (last (u :: us)).
    destruct (last (u :: us)) eqn:Hl; [reflexivity|]. apply last_None in Hl. discriminate.
  - rewrite Re, u16_small; rewrite !length_app in *; cbn [length] in *; lia.
  - constructor; assumption.
  - intros b n0 Hb'. apply Hroom, elem_of_moved. rewrite elem_of_app, !elem_of_cons, elem_of_app in *. tauto.
Qed.
End Push.

(** What receiving does: the head is unlinked and goes on the free list. *)
Definition mq_unlinked (a : Z) (n : mqnode) (x : msgqueue) : msgqueue :=
  let x := x <| mq_head := mn_next n |> in
  if bool_decide (mq_tail x = Some a) then x <| mq_tail := None |> else x.
Definition mq_popped (a : Z) (n : mqnode) (x : msgqueue) : msgqueue :=
  let y := mq_unlinked a n x in
  mq_put_free a (if 0 <? mq_entry y then y <| mq_entry ::= (fun n => n - 1) |> else y).

Lemma put_free_eq a n y :
  node_at y a = Some n ->
  mq_put_free a y = y <| mq_nodes ::= insert a (n <| mn_next := mq_free y |>) |> <| mq_free := Some a |>.
Proof. intros H. unfold mq_put_free, upd_node. rewrite H. reflexivity. Qed.

Lemma unlinked_fields a n x :
  mq_nodes (mq_unlinked a n x) = mq_nodes x /\ mq_free (mq_unlinked a n x) = mq_free x /\
  mq_entry (mq_unlinked a n x) = mq_entry x /\ mq_head (mq_unlinked a n x) = mn_next n /\
  mq_ob (mq_unlinked a n x) = mq_ob x /\ mq_msg_size (mq_unlinked a n x) = mq_msg_size x /\
  mq_tail (mq_unlinked a n x) = (if bool_decide (mq_tail x = Some a) then None else mq_tail x).
Proof. unfold mq_unlinked. cbn. destruct (bool_decide _); repeat split. Qed.

Lemma last_cons_tail (a : Z) used : a ∉ used -> (if bool_decide (last (a :: used) = Some a) then None else last (a :: used)) = last used.
Proof.
  intros Ha. destruct used as [|u us]; [cbn [last]; rewrite bool_decide_true by reflexivity; reflexivity|].
  change (last (a :: u :: us)) with (last (u :: us)). rewrite bool_decide_false; [reflexivity|].
  intros H. apply Ha, last_Some_elem_of, H.
Qed.

Lemma popped_rep cap size flag m q a used free x :
  mq_rep cap size flag (m :: q) (a :: used) free x ->
  exists n, mq_take_head x = Some (a, n, mq_unlinked a n x) /\ mn_length n = Z.of_nat (length m) /\
    take (length m) (mn_data n) = m /\ mq_rep cap size flag q used (a :: free) (mq_popped a n x).
Proof.
  intros R. pose proof (qr_nodup _ _ _ _ _ _ _ R) as Hnd. cbn [app] in Hnd. apply NoDup_cons in Hnd as [Hna Hnd].
  pose proof (qr_head _ _ _ _ _ _ _ R) as (Hh & n & Hn & Hc).
  pose proof (qr_msgs _ _ _ _ _ _ _ R) as F. inversion F as [|? ? ? ? (n1 & Hn1 & Hl & Hd) F']; subst.
  rewrite Hn in Hn1. injection Hn1 as <-. exists n.
  split; [unfold mq_take_head; rewrite Hh; unfold node_at; rewrite Hn; reflexivity|].
  split; [exact Hl|]. split; [exact Hd|]. rewrite not_elem_of_app in Hna. destruct Hna as [Hu Hf].
  destruct (unlinked_fields a n x) as (E1 & E2 & E3 & E4 & E5 & E6 & E7).
  unfold mq_popped. rewrite E3. destruct R as [Rv Rf Rs Rnd Rc Rb _ Rfr Rt Re _ Rr].
  rewrite Re. cbn [length]. rewrite (proj2 (Z.ltb_lt _ _)) by lia.
  rewrite (put_free_eq a n) by (unfold node_at; cbn; rewrite E1; exact Hn).
  assert (forall b n0, b <> a -> mq_nodes x !! b = Some n0 -> (<[a := n <| mn_next := mq_free x |>]> (mq_nodes x)) !! b = Some n0) as Ho.
  { intros b n0 Hb Hn0. rewrite lookup_insert_ne by congruence. exact Hn0. }
  split; cbn; rewrite ?E1, ?E2, ?E3, ?E4, ?E5, ?E6, ?E7; try assumption.
  - unfold mq_valid. cbn. rewrite E5. exact Rv.
  - apply NoDup_app in Hnd as (N1 & N2 & N3). apply NoDup_app. split; [exact N1|].
    split; [|apply NoDup_cons; auto]. intros b Hb [->|Hb2]%elem_of_cons; [contradiction|]. exact (N2 b Hb Hb2).
  - rewrite length_app in *. cbn [length] in *. lia.
  - apply chain_insert; assumption.
  - split; [reflexivity|]. eexists. split; [apply lookup_insert_eq|]. apply chain_insert; assumption.
  - rewrite Rt. apply last_cons_tail, Hu.
  - rewrite Re. cbn [length]. lia.
  - apply (holds_all_same (mq_nodes x)); [|exact F']. intros b n0 Hb Hn0. exists n0.
    split; [apply Ho; [intros ->; contradiction|exact Hn0]|auto].
  - intros b n0 Hb Hn0. apply elem_of_middle_cons in Hb. destruct (decide (b = a)) as [->|Hba].
    + rewrite lookup_insert_eq in Hn0. injection Hn0 as <-. cbn. apply (Rr a n); [apply list_elem_of_here|exact Hn].
    + rewrite lookup_insert_ne in Hn0 by congruence. apply (Rr b n0); assumption.
Qed.

(** ** The operations *)

Definition with_mq (q : Z) (x : msgqueue) (k : kernel) : kernel := k <| k_mqs ::= insert q x |>.

Lemma with_mq_lookup q x k : k_mqs (with_mq q x k) !! q = Some x.
Proof. apply lookup_insert_eq. Qed.

Lemma with_mq_twice q x y k : with_mq q y (with_mq q x k) = with_mq q y k.
Proof. destruct k. unfold with_mq, set_field. cbn. rewrite insert_insert_eq. reflexivity. Qed.

Lemma kinv_with_mq q x k : kinv k -> kinv (with_mq q x k).
Proof. intros HK. eapply kinv_same; [exact HK|reflexivity..]. Qed.

Lemma check_mq_eq q x k : k_mqs k !! q = Some x -> mq_valid x = true -> check_mq q k = Some (x, k).
Proof.
  intros Hx Hv. unfold check_mq. erewrite bind_eq by (apply get_obj_eq; exact Hx).
  erewrite bind_eq by (apply assert_eq; exact Hv). reflexivity.
Qed.

Lemma upd_mq_eq q x f k : k_mqs k !! q = Some x -> upd_mq q f k = Some (tt, with_mq q (f x) k).
Proof. intros Hx. unfold upd_mq. rewrite (upd_obj_eq k_mqs q f x k Hx). reflexivity. Qed.

Lemma upd_with_mq q x f k : upd_mq q f (with_mq q x k) = Some (tt, with_mq q (f x) k).
Proof. rewrite (upd_mq_eq q x) by apply with_mq_lookup. rewrite with_mq_twice. reflexivity. Qed.

Lemma upd_mq_opt_eq {A} q x (f : msgqueue -> option (A * msgqueue)) a y k :
  k_mqs k !! q = Some x -> f x = Some (a, y) -> upd_mq_opt q f k = Some (a, with_mq q y k).
Proof.
  intros Hx Hf. unfold upd_mq_opt. erewrite bind_eq by (apply get_obj_eq; exact Hx).
  erewrite bind_eq by (rewrite Hf; reflexivity). cbv beta iota.
  erewrite bind_eq by (apply upd_mq_eq; exact Hx). reflexivity.
Qed.

Lemma mq_notify_total q y k c :
  kinv k -> k_current k = Some c -> mq_entry y < RT_MQ_ENTRY_MAX ->
  exists k', mq_notify q (with_mq q y k) = Some (RT_EOK, k') /\ kinv k' /\
    notified (LMqRecv q) (with_mq q (y <| mq_entry ::= (fun n => u16 (n + 1)) |>) k) k'.
Proof.
  intros HK Hc He.
  destruct (notify_total (LMqRecv q) (with_mq q (y <| mq_entry ::= (fun n => u16 (n + 1)) |>) k) c
    (kinv_with_mq _ _ _ HK) eq_refl Hc) as (k' & HK' & N & H & _).
  exists k'. split; [|auto]. unfold mq_notify. erewrite bind_eq by (apply get_obj_eq, with_mq_lookup).
  rewrite (proj2 (Z.ltb_lt _ _) He). erewrite bind_eq by apply upd_with_mq. apply H.
Qed.

(** The first free node, filled. *)
Lemma get_free_eq a n x : mq_free x = Some a -> mq_nodes x !! a = Some n ->
  mq_get_free x = Some (a, x <| mq_free := mn_next n |>).
Proof. intros Hf Hn. unfold mq_get_free, node_at. rewrite Hf, Hn. reflexivity. Qed.

Lemma filled_unfold a m (clear : bool) n x : mq_nodes x !! a = Some n ->
  upd_node a (fun n : mqnode => fill_node m (if clear then (n <| mn_next := None |>) else n)) (x <| mq_free := mn_next n |>)
  = mq_filled a m clear x.
Proof. intros Hn. unfold mq_filled, node_at. rewrite Hn. reflexivity. Qed.

Lemma appended_entry a m x : mq_entry (mq_append a (mq_filled a m true x)) = mq_entry x /\
  mq_entry (mq_prepend a (mq_filled a m false x)) = mq_entry x.
Proof.
  assert (forall b f y, mq_entry (upd_node b f y) = mq_entry y) as Hu by (intros; unfold upd_node; destruct (node_at y b); reflexivity).
  assert (forall clear, mq_entry (mq_filled a m clear x) = mq_entry x) as Hf.
  { intros. unfold mq_filled. rewrite Hu. destruct (node_at x a); reflexivity. }
  split.
  - unfold mq_append. destruct (mq_tail _); (destruct (mq_head _); cbn; rewrite ?Hu, Hf; reflexivity).
  - unfold mq_prepend. cbn. destruct (mq_tail _); cbn; rewrite ?Hu, Hf; reflexivity.
Qed.

(** The message queue [x] of [cap] messages of up to [size] bytes holds [ms]. *)
Definition mq_holds (cap size flag : Z) (ms : list (list Z)) (x : msgqueue) : Prop :=
  exists used free, mq_rep cap size flag ms used free x.

Lemma mq_holds_free cap size flag ms x : mq_holds cap size flag ms x ->
  (Z.of_nat (length ms) < cap /\ exists used a free n, mq_rep cap size flag ms used (a :: free) x /\
     mq_free x = Some a /\ mq_nodes x !! a = Some n) \/
  (Z.of_nat (length ms) = cap /\ mq_free x = None).
Proof.
  intros (used & free & R). pose proof (mq_free_full _ _ _ _ _ _ _ R) as H.
  pose proof (qr_free _ _ _ _ _ _ _ R) as Hc. destruct free as [|a free].
  - cbn in Hc. rewrite Hc in *. right. auto.
  - destruct Hc as (E & n & Hn & _). rewrite E in *. left. split; [exact H|]. exists used, a, free, n. auto.
Qed.

Lemma mq_holds_fields cap size flag ms x : mq_holds cap size flag ms x ->
  mq_valid x = true /\ ob_flag (mq_ob x) = flag /\ mq_msg_size x = size /\
  mq_entry x = Z.of_nat (length ms) /\ Z.of_nat (length ms) <= cap < 2 ^ 16.
Proof.
  intros (used & free & R). pose proof (mq_rep_length _ _ _ _ _ _ _ R) as Hl. destruct R.
  rewrite length_app in qr_cap0. repeat (split; [assumption || (rewrite <- Hl; assumption)|]). lia.
Qed.

(** C12: Sending refines the bounded queue of messages.  A message longer than
    msg_size is refused with -RT_ERROR; with a free node the bytes are copied
    behind the queued messages and the receiver that waits first is woken; in
    a full queue the call returns -RT_EFULL without waiting when the timeout is 0
    and otherwise puts the sender to sleep, the messages unchanged.  *)
Theorem mq_send_refines t th k q x cap size flag ms buf timeout f :
  in_thread t th k -> k_mqs k !! q = Some x -> mq_holds cap size flag ms x -> flag_ok flag ->
  timeout < HALF_TICK -> buf <> [] ->
  if size <? Z.of_nat (length buf) then _rt_mq_send_wait q buf timeout f k = Some (Done (- RT_ERROR) [], k)
  else if Z.of_nat (length ms) <? cap then
    exists x' k', _rt_mq_send_wait q buf timeout f k = Some (Done RT_EOK [], k') /\ kinv k' /\
      mq_holds cap size flag (ms ++ [buf]) x' /\ k_mqs k' !! q = Some x' /\ notified (LMqRecv q) (with_mq q x' k) k'
  else if timeout =? 0 then _rt_mq_send_wait q buf timeout f k = Some (Done (- RT_EFULL) [], k)
  else exists k', _rt_mq_send_wait q buf timeout f k = Some (Waiting (PcMqSend q buf timeout (k_tick k) f), k') /\
    kinv k' /\ k_mqs k' = k_mqs k /\ asleep t (LMqSend q) flag timeout (with_error t th (- RT_EINTR) k) k'.
Proof.
  intros C Hx R Hf Hto Hb. destruct (mq_holds_fields _ _ _ _ _ R) as (Hv & Hfl & Hs & He & Hcap).
  unfold _rt_mq_send_wait, mq_send_round. erewrite bind_eq by (apply check_mq_eq; eassumption).
  erewrite bind_eq by (apply assert_eq; rewrite bool_decide_false by exact Hb; reflexivity).
  erewrite bind_eq by (eapply scheduler_available_eq; exact C). rewrite Hs.
  destruct (Z.ltb_spec size (Z.of_nat (length buf))) as [|Hlen]; [reflexivity|].
  destruct (mq_holds_free _ _ _ _ _ R) as [(Hq & used & a & free & n & R' & Hfr & Hn)|(Hq & Hfr)]; rewrite Hfr.
  - rewrite (proj2 (Z.ltb_lt _ _) Hq), bool_decide_false by discriminate. cbn [andb].
    destruct (mq_notify_total q (mq_append a (mq_filled a buf true x)) k t (it_kinv _ _ _ C) (it_current _ _ _ C))
      as (k' & H & HK & N).
    { rewrite (proj1 (appended_entry a buf x)), He. unfold RT_MQ_ENTRY_MAX. lia. }
    exists (mq_pushed a buf x), k'. split; [|split; [exact HK|split; [|split; [|exact N]]]].
    + erewrite bind_eq by (apply get_obj_eq; exact Hx). rewrite Hfr.
      erewrite bind_eq by (eapply upd_mq_opt_eq; [exact Hx|apply get_free_eq; eassumption]).
      erewrite bind_eq by apply upd_with_mq. rewrite (filled_unfold a buf true n x Hn).
      erewrite bind_eq by apply upd_with_mq. erewrite bind_eq by exact H. reflexivity.
    + exists (used ++ [a]), free. eapply pushed_rep; eassumption.
    + rewrite (of_mqs _ _ (notified_frame _ _ _ N)). apply with_mq_lookup.
  - rewrite (proj2 (Z.ltb_ge _ _)), bool_decide_true by (reflexivity || lia). cbn [andb].
    destruct (Z.eqb_spec timeout 0) as [|H0]; [reflexivity|].
    erewrite bind_eq by (apply get_obj_eq; exact Hx). rewrite Hfr.
    erewrite bind_eq by (apply the_self_eq, C). erewrite bind_eq by (apply upd_thread_eq, C).
    destruct (Z.eqb_spec timeout 0); [contradiction|]. rewrite Hfl.
    change (k <| k_threads ::= _ |>) with (with_error t th (- RT_EINTR) k).
    destruct (sleep_total _ _ _ (LMqSend q) flag f timeout (in_thread_error t th (- RT_EINTR) k C) eq_refl Hf Hto)
      as (k1 & k2 & k3 & H1 & Ht & H2 & H3 & HK & A).
    exists k3. split; [|split; [exact HK|split; [apply (of_mqs _ _ (as_frame _ _ _ _ _ _ A))|exact A]]].
    erewrite bind_eq by exact H1. cbn [negb Z.eqb RT_EOK]. erewrite bind_eq by reflexivity.
    erewrite bind_eq by exact H2. erewrite bind_eq by exact H3.
    change (k_tick (with_error t th (- RT_EINTR) k)) with (k_tick k) in Ht. cbv beta. rewrite Ht. reflexivity.
Qed.



(** An urgent message goes before all others; rt_mq_urgent refuses a
    message that is too long with -RT_ERROR and returns -RT_EFULL when no node is
    free, changing nothing.  *)
Theorem mq_urgent_refines k q x cap size flag ms buf c :
  kinv k -> k_current k = Some c -> k_mqs k !! q = Some x -> mq_holds cap size flag ms x -> buf <> [] ->
  if size <? Z.of_nat (length buf) then rt_mq_urgent q buf k = Some (- RT_ERROR, k)
  else if Z.of_nat (length ms) <? cap then
    exists x' k', rt_mq_urgent q buf k = Some (RT_EOK, k') /\ kinv k' /\
      mq_holds cap size flag (buf :: ms) x' /\ k_mqs k' !! q = Some x' /\ notified (LMqRecv q) (with_mq q x' k) k'
  else rt_mq_urgent q buf k = Some (- RT_EFULL, k).
Proof.
  intros HK0 Hc Hx R Hb. destruct (mq_holds_fields _ _ _ _ _ R) as (Hv & Hfl & Hs & He & Hcap).
  unfold rt_mq_urgent. erewrite bind_eq by (apply check_mq_eq; eassumption).
  erewrite bind_eq by (apply assert_eq; rewrite bool_decide_false by exact Hb; reflexivity). rewrite Hs.
  destruct (Z.ltb_spec size (Z.of_nat (length buf))) as [|Hlen]; [reflexivity|].
  destruct (mq_holds_free _ _ _ _ _ R) as [(Hq & used & a & free & n & R' & Hfr & Hn)|(Hq & Hfr)]; rewrite Hfr.
  - rewrite (proj2 (Z.ltb_lt _ _) Hq).
    destruct (mq_notify_total q (mq_prepend a (mq_filled a buf false x)) k c HK0 Hc) as (k' & H & HK & N).
    { rewrite (proj2 (appended_entry a buf x)), He. unfold RT_MQ_ENTRY_MAX. lia. }
    exists (mq_unpopped a buf x), k'. split; [|split; [exact HK|split; [|split; [|exact N]]]].
    + erewrite bind_eq by (eapply upd_mq_opt_eq; [exact Hx|apply get_free_eq; eassumption]).
      erewrite bind_eq by apply upd_with_mq.
      assert (upd_node a (fill_node buf) (x <| mq_free := mn_next n |>) = mq_filled a buf false x) as ->
        by exact (filled_unfold a buf false n x Hn).
      erewrite bind_eq by apply upd_with_mq. exact H.
    + exists (a :: used), free. eapply unpopped_rep; eassumption.
    + rewrite (of_mqs _ _ (notified_frame _ _ _ N)). apply with_mq_lookup.
  - rewrite (proj2 (Z.ltb_ge _ _)) by lia. reflexivity.
Qed.

(** ** Setting up and resetting *)

(** The addresses of the nodes the set-up loop has linked. *)
Fixpoint fresh_ids (pool step : Z) (temp n : nat) (ids : list Z) : list Z :=
  match n with O => ids | S n => fresh_ids pool step (S temp) n (pool + Z.of_nat temp * step :: ids) end.

Lemma elem_of_fresh_ids pool step temp n ids b :
  b ∈ fresh_ids pool step temp n ids <-> b ∈ ids \/ exists i, (temp <= i < temp + n)%nat /\ b = pool + Z.of_nat i * step.
Proof.
  revert temp ids. induction n as [|n IH]; intros temp ids; cbn [fresh_ids].
  - split; [auto|]. intros [H|(i & H & _)]; [exact H|lia].
  - rewrite IH, elem_of_cons. split.
    + intros [[->|H]|(i & H & ->)]; [right; exists temp; split; [lia|reflexivity]|auto|right; exists i; split; [lia|reflexivity]].
    + intros [H|(i & H & ->)]; [auto|]. destruct (decide (i = temp)) as [->|]; [auto|].
      right. exists i. split; [lia|reflexivity].
Qed.

Lemma length_fresh_ids pool step temp n ids : length (fresh_ids pool step temp n ids) = (n + length ids)%nat.
Proof. revert temp ids. induction n as [|n IH]; intros; cbn [fresh_ids]; [reflexivity|]. rewrite IH. cbn. lia. Qed.

Lemma free_chain_spec pool step sz temp n nodes free ids :
  0 < step -> chain nodes free ids -> NoDup ids ->
  (forall b, b ∈ ids -> exists i, (i < temp)%nat /\ b = pool + Z.of_nat i * step) ->
  (forall b nb, b ∈ ids -> nodes !! b = Some nb -> length (mn_data nb) = sz) ->
  let '(nodes', free') := mq_free_chain pool step sz temp n nodes free in
  let ids' := fresh_ids pool step temp n ids in
  chain nodes' free' ids' /\ NoDup ids' /\
  (forall b nb, b ∈ ids' -> nodes' !! b = Some nb -> length (mn_data nb) = sz).
Proof.
  intros Hstep. revert temp nodes free ids. induction n as [|n IH]; intros temp nodes free ids Hc Hnd Hids Hroom;
    cbn [mq_free_chain fresh_ids]; [auto|].
  set (a := pool + Z.of_nat temp * step).
  assert (a ∉ ids) as Ha by (intros H; destruct (Hids a H) as (i & Hi & E); unfold a in E; nia).
  apply IH.
  - split; [reflexivity|]. eexists. split; [apply lookup_insert_eq|]. apply chain_insert; assumption.
  - apply NoDup_cons. auto.
  - intros b [->|Hb]%elem_of_cons; [exists temp; split; [lia|reflexivity]|].
    destruct (Hids b Hb) as (i & Hi & E). exists i. split; [lia|exact E].
  - intros b nb Hb Hnb. destruct (decide (b = a)) as [->|Hba].
    + rewrite lookup_insert_eq in Hnb. injection Hnb as <-. apply length_replicate.
    + rewrite lookup_insert_ne in Hnb by congruence. apply elem_of_cons in Hb as [->|Hb]; [contradiction|]. eauto.
Qed.

Lemma fresh_holds static pool msg_size cap flag :
  0 <= msg_size < 2 ^ 16 -> 0 <= cap < 2 ^ 16 ->
  mq_holds cap msg_size flag [] (mq_fresh static pool msg_size cap flag).
Proof.
  intros Hs Hc. pose proof (RT_ALIGN_8 msg_size ltac:(lia)) as Hal.
  pose proof (Z.mod_pos_bound (msg_size + 7) 8 ltac:(lia)) as Hmod.
  set (al := RT_ALIGN msg_size RT_ALIGN_SIZE). assert (msg_size <= al) as Hge by (unfold al, RT_ALIGN_SIZE; lia).
  pose proof (free_chain_spec pool (al + MQ_HEADER) (Z.to_nat al) 0 (Z.to_nat cap) ∅ None []) as H.
  assert (al <= msg_size + 7) as Hle by (unfold al, RT_ALIGN_SIZE; lia).
  unfold mq_fresh, mq_step. fold al. rewrite u32_small by (unfold MQ_HEADER; lia). destruct (mq_free_chain _ _ _ _ _ _ _) as [nodes free] eqn:E.
  destruct H as (Hch & Hnd & Hroom); [unfold MQ_HEADER; lia|reflexivity|constructor| | |].
  - intros b []%elem_of_nil.
  - intros b nb []%elem_of_nil.
  - exists [], (fresh_ids pool (al + MQ_HEADER) 0 (Z.to_nat cap) []).
    split; cbn; try reflexivity; try assumption; try lia.
    + apply u16_small. lia.
    + rewrite length_fresh_ids. cbn. lia.
    + constructor.
    + intros b nb Hb Hnb. rewrite (Hroom b nb Hb Hnb). lia.
Qed.

(** rt_mq_init divides the pool into cap nodes, each with its header and
    room for an aligned message, and returns with an empty queue in which all
    of them are free; a pool without room for one message gives -RT_EINVAL.  *)
Theorem mq_init_holds q pool msg_size pool_size flag k :
  valid_flag flag = true -> 0 <= msg_size < 2 ^ 16 ->
  let cap := pool_size / (RT_ALIGN msg_size RT_ALIGN_SIZE + MQ_HEADER) in
  0 <= cap < 2 ^ 16 -> (forall x, k_mqs k !! q = Some x -> mq_valid x = false) ->
  exists x k', rt_mq_init q pool msg_size pool_size flag k = Some (if cap =? 0 then - RT_EINVAL else RT_EOK, k') /\
    k_mqs k' !! q = Some x /\ mq_valid x = true /\ (cap <> 0 -> mq_holds cap msg_size flag [] x) /\ k_lists k' (LMqRecv q) = [] /\
    k_threads k' = k_threads k.
Proof.
  intros Hf Hs cap Hc Hnew. pose proof (RT_ALIGN_8 msg_size ltac:(lia)) as Hal.
  pose proof (Z.mod_pos_bound (msg_size + 7) 8 ltac:(lia)) as Hmod.
  assert (pool_size / mq_step msg_size = cap) as Ecap.
  { unfold mq_step, cap. rewrite u32_small by (unfold RT_ALIGN_SIZE, MQ_HEADER; lia). reflexivity. }
  set (old := default (mkMq (mkIpc false false 0) ∅ 0 0 0 None None None) (k_mqs k !! q)).
  set (x0 := old <| mq_ob := mkIpc true true flag |> <| mq_msg_size := u16 msg_size |> <| mq_max_msgs := cap |>).
  assert (obj_init k_mqs mq_valid q x0 k = Some (tt, with_mq q x0 k)) as Hi.
  { unfold obj_init. erewrite bind_eq by reflexivity. cbv beta.
    erewrite bind_eq; [reflexivity|]. apply assert_eq.
    destruct (k_mqs k !! q) as [x|] eqn:E; [|reflexivity]. rewrite (Hnew x eq_refl). reflexivity. }
  unfold rt_mq_init. erewrite bind_eq by (apply assert_eq; exact Hf). erewrite bind_eq by reflexivity. fold old. cbv zeta.
  rewrite Ecap, u16_small by exact Hc. erewrite bind_eq by exact Hi. erewrite bind_eq by reflexivity. cbv beta.
  destruct (Z.eqb_spec cap 0) as [E0|E0].
  - exists x0. eexists. split; [reflexivity|]. split; [apply with_mq_lookup|]. split; [reflexivity|].
    split; [intros H; contradiction|]. split; [apply fn_lookup_insert|reflexivity].
  - exists (mq_fresh true pool msg_size cap flag). eexists. split.
    { erewrite bind_eq by (unfold upd_mq; apply upd_obj_eq, with_mq_lookup). erewrite bind_eq by reflexivity. reflexivity. }
    split; [apply lookup_insert_eq|]. split; [unfold mq_fresh; destruct (mq_free_chain _ _ _ _ _ _ _); reflexivity|].
    split; [intros _; apply fresh_holds; assumption|]. split; [|reflexivity].
    cbn. rewrite fn_lookup_insert_ne by discriminate. apply fn_lookup_insert.
Qed.

Definition with_entry (e : Z) (x : msgqueue) : msgqueue := x <| mq_entry := e |>.

Lemma reset_step a n e x :
  mq_take_head x = Some (a, n, mq_unlinked a n x) ->
  mq_take_head (with_entry e x) = Some (a, n, with_entry e (mq_unlinked a n x)) /\
  mq_put_free a (with_entry e (mq_unlinked a n x)) = with_entry e (mq_popped a n x).
Proof.
  intros H. split.
  - unfold mq_take_head, node_at in *. change (mq_head (with_entry e x)) with (mq_head x).
    destruct (mq_head x) as [b|]; [|discriminate]. change (mq_nodes (with_entry e x)) with (mq_nodes x).
    destruct (mq_nodes x !! b) as [nb|]; [|discriminate]. injection H as -> -> _.
    unfold mq_unlinked, with_entry. destruct x; cbn. destruct (bool_decide _); reflexivity.
  - unfold mq_popped, mq_put_free, upd_node, node_at. cbn. destruct (unlinked_fields a n x) as (E & _).
    destruct (0 <? mq_entry (mq_unlinked a n x)); cbn; rewrite E; destruct (mq_nodes x !! a); reflexivity.
Qed.

Lemma reset_loop_total fuel cap size flag ms used free x e :
  mq_rep cap size flag ms used free x -> (length used <= fuel)%nat ->
  exists y, mq_reset_loop fuel (with_entry e x) = Some (with_entry e y) /\ mq_holds cap size flag [] y.
Proof.
  revert ms used free x. induction fuel as [|fuel IH]; intros ms used free x R Hf.
  - destruct used; cbn in Hf; [|lia]. pose proof (mq_rep_length _ _ _ _ _ _ _ R) as Hl.
    destruct ms; [|discriminate]. exists x. split; [|exists [], free; exact R].
    pose proof (qr_head _ _ _ _ _ _ _ R) as Hh. cbn in Hh. unfold mq_reset_loop.
    change (mq_head (with_entry e x)) with (mq_head x). rewrite Hh. reflexivity.
  - pose proof (mq_rep_length _ _ _ _ _ _ _ R) as Hl. pose proof (qr_head _ _ _ _ _ _ _ R) as Hh. cbn [mq_reset_loop].
    change (mq_head (with_entry e x)) with (mq_head x). destruct used as [|a used].
    + destruct ms; [|discriminate]. cbn in Hh. rewrite Hh. exists x. split; [reflexivity|exists [], free; exact R].
    + destruct Hh as [Hh _]. rewrite Hh. destruct ms as [|m ms]; [discriminate|].
      destruct (popped_rep _ _ _ _ _ _ _ _ _ R) as (n & Htk & _ & _ & R').
      destruct (reset_step a n e x Htk) as [-> ->]. apply (IH ms used (a :: free)); [exact R'|cbn in Hf; lia].
Qed.

(** The fuel of the reset is enough. *)
Lemma used_bound cap size0 flag ms used free x :
  mq_rep cap size0 flag ms used free x -> (length used <= size (mq_nodes x))%nat.
Proof.
  intros R. pose proof (qr_nodup _ _ _ _ _ _ _ R) as Hnd. apply NoDup_app in Hnd as (Hnd & _ & _).
  rewrite <- (size_list_to_set (C := gset Z) used Hnd), <- size_dom. apply subseteq_size.
  intros a Ha. apply elem_of_list_to_set in Ha. apply elem_of_dom.
  eapply chain_lookup; [apply (qr_head _ _ _ _ _ _ _ R)|exact Ha].
Qed.

(** Resetting a message queue terminates: every waiting sender and receiver
    is woken with RT_ERROR, all messages are dropped and all nodes are free
    again; any other command returns -RT_ERROR and changes nothing.  *)
Theorem mq_reset_empties k q x cap size flag ms cmd c :
  kinv k -> k_current k = Some c -> k_mqs k !! q = Some x -> mq_holds cap size flag ms x ->
  if cmd =? RT_IPC_CMD_RESET then
    exists x' k', rt_mq_control q cmd k = Some (RT_EOK, k') /\ kinv k' /\ k_mqs k' !! q = Some x' /\
      mq_holds cap size flag [] x' /\ k_lists k' (LMqRecv q) = [] /\ k_lists k' (LMqSend q) = [] /\
      forall t, t ∈ k_lists k (LMqRecv q) \/ t ∈ k_lists k (LMqSend q) ->
        exists th', k_threads k' !! t = Some th' /\ awake th' /\ th_error th' = RT_ERROR
  else rt_mq_control q cmd k = Some (- RT_ERROR, k).
Proof.
  intros HK Hc Hx R. pose proof (mq_holds_fields _ _ _ _ _ R) as (Hv & _).
  unfold rt_mq_control. erewrite bind_eq by (apply check_mq_eq; eassumption).
  destruct (Z.eqb_spec cmd RT_IPC_CMD_RESET) as [->|]; [|reflexivity]. cbn [Z.eqb RT_IPC_CMD_RESET].
  destruct (resume_both_total (LMqRecv q) (LMqSend q) RT_ERROR k HK eq_refl eq_refl) as (k1 & k2 & H1 & H2 & HK2 & W);
    [discriminate|discriminate|].
  assert (k_mqs k2 !! q = Some x) as Hx2 by (rewrite (of_mqs _ _ (bw_frame _ _ _ _ _ W)); exact Hx).
  destruct R as (used & free & R).
  destruct (reset_loop_total (base.size (mq_nodes x)) _ _ _ _ _ _ x (mq_entry x) R (used_bound _ _ _ _ _ _ _ R)) as (y & Hy & Ry).
  assert (with_entry (mq_entry x) x = x) as Ex by (destruct x; reflexivity). rewrite Ex in Hy.
  assert (with_entry 0 (with_entry (mq_entry x) y) = y) as Ey.
  { destruct (mq_holds_fields _ _ _ _ _ Ry) as (_ & _ & _ & He & _). cbn in He. destruct y; cbn in *. subst. reflexivity. }
  destruct (kinv_with_mq q y k2 HK2) as [I3 Q3].
  assert (k_current (with_mq q y k2) = Some c) as Hc3 by (rewrite <- Hc; apply (bw_current _ _ _ _ _ W)).
  destruct (i_cur _ _ I3 c Hc3) as [cth Hct].
  destruct (schedule_total _ c cth I3 Hc3 Hct) as (k4 & H4 & I4 & F & _).
  exists y, k4. split; [|split; [split; [exact I4|exact (schedule_idle _ _ _ _ Q3 H4)]|split; [|split; [exact Ry|split; [|split]]]]].
  - erewrite bind_eq by exact H1. erewrite bind_eq by exact H2. erewrite bind_eq by (apply get_obj_eq; exact Hx2).
    erewrite bind_eq by (rewrite Hy; reflexivity). erewrite bind_eq by (apply upd_mq_eq; exact Hx2).
    erewrite bind_eq by apply upd_with_mq.
    match goal with |- (rt_schedule ≫= ?g) ?s = _ => change s with (with_mq q (with_entry 0 (with_entry (mq_entry x) y)) k2) end.
    rewrite Ey. erewrite bind_eq by exact H4. reflexivity.
  - rewrite (sf_mqs _ _ F). apply with_mq_lookup.
  - rewrite (sf_lists _ _ F) by reflexivity. apply (bw_empty _ _ _ _ _ W).
  - rewrite (sf_lists _ _ F) by reflexivity. apply (bw_empty _ _ _ _ _ W).
  - intros t Ht. destruct (bw_thread _ _ _ _ _ W t Ht) as (th2 & Ht2 & Ha & <-). eapply awake_after; eauto.
Qed.

(** ** Examples *)

(** A queue of two messages of up to four bytes, and the queue with one message. *)
Definition k_q0 : kernel := run (rt_mq_init 11 1000 4 32 RT_IPC_FLAG_FIFO) k_boot.
Definition k_q1 : kernel := run (_rt_mq_send_wait 11 [1; 2; 3] 0 RT_UNINTERRUPTIBLE) k_q0.
Definition mq_of (k : kernel) (q : Z) : msgqueue :=
  default (mkMq (mkIpc false false 0) ∅ 0 0 0 None None None) (k_mqs k !! q).

Lemma k_q1_kinv : kinv k_q1.
Proof. apply run_kinv; [apply mq_send_wait_preserves|]. apply run_kinv; [apply mq_init_preserves|apply k_boot_kinv]. Qed.

Lemma k_q1_in_thread : in_thread 100 (thread_of k_q1 100) k_q1.
Proof. split; try (vm_compute; reflexivity). apply k_q1_kinv. Qed.

Lemma k_q1_holds : mq_holds 2 4 0 [[1; 2; 3]] (mq_of k_q1 11).
Proof.
  exists [1016], [1000]. split; try (vm_compute; reflexivity).
  - apply (bool_decide_unpack _). vm_compute. exact Logic.I.
  - split; [vm_compute; reflexivity|]. eexists. split; [vm_compute; reflexivity|vm_compute; reflexivity].
  - split; [vm_compute; reflexivity|]. eexists. split; [vm_compute; reflexivity|vm_compute; reflexivity].
  - constructor; [|constructor]. eexists. split; [vm_compute; reflexivity|]. split; vm_compute; reflexivity.
  - intros a n Ha. repeat (apply elem_of_cons in Ha as [->|Ha]); [| |destruct (proj1 (elem_of_nil _) Ha)];
      vm_compute; intros [= <-]; discriminate.
Qed.

Lemma mq_send_refines_witness :
  mq_holds 2 4 0 [[1; 2; 3]] (mq_of k_q1 11) /\
  exists x' k', _rt_mq_send_wait 11 [4; 5] 0 RT_UNINTERRUPTIBLE k_q1 = Some (Done RT_EOK [], k') /\
    mq_holds 2 4 0 [[1; 2; 3]; [4; 5]] x' /\ k_mqs k' !! 11 = Some x'.
Proof.
  split; [exact k_q1_holds|].
  destruct (mq_send_refines 100 (thread_of k_q1 100) k_q1 11 (mq_of k_q1 11) 2 4 0 [[1; 2; 3]] [4; 5] 0 RT_UNINTERRUPTIBLE
    k_q1_in_thread) as (x' & k' & H & _ & R & Hx & _).
  - vm_compute. reflexivity.
  - exact k_q1_holds.
  - left. reflexivity.
  - vm_compute. reflexivity.
  - discriminate.
  - exists x', k'. auto.
Defined.


Lemma mq_urgent_refines_witness :
  mq_holds 2 4 0 [[1; 2; 3]] (mq_of k_q1 11) /\
  exists x' k', rt_mq_urgent 11 [9] k_q1 = Some (RT_EOK, k') /\ mq_holds 2 4 0 [[9]; [1; 2; 3]] x' /\
    k_mqs k' !! 11 = Some x'.
Proof.
  split; [exact k_q1_holds|].
  destruct (mq_urgent_refines k_q1 11 (mq_of k_q1 11) 2 4 0 [[1; 2; 3]] [9] 100 k_q1_kinv)
    as (x' & k' & H & _ & R & Hx & _).
  - vm_compute. reflexivity.
  - vm_compute. reflexivity.
  - exact k_q1_holds.
  - discriminate.
  - exists x', k'. auto.
Defined.

Lemma mq_init_holds_witness :
  exists x k', rt_mq_init 11 1000 4 32 RT_IPC_FLAG_FIFO k_boot = Some (RT_EOK, k') /\
    k_mqs k' !! 11 = Some x /\ mq_holds 2 4 RT_IPC_FLAG_FIFO [] x.
Proof.
  destruct (mq_init_holds 11 1000 4 32 RT_IPC_FLAG_FIFO k_boot) as (x & k' & H & Hx & _ & R & _).
  - reflexivity.
  - lia.
  - vm_compute. split; [discriminate|reflexivity].
  - intros x. vm_compute. discriminate.
  - exists x, k'. split; [exact H|]. split; [exact Hx|]. apply R. discriminate.
Defined.

Lemma mq_reset_empties_witness :
  mq_holds 2 4 0 [[1; 2; 3]] (mq_of k_q1 11) /\
  exists x' k', rt_mq_control 11 RT_IPC_CMD_RESET k_q1 = Some (RT_EOK, k') /\ k_mqs k' !! 11 = Some x' /\
    mq_holds 2 4 0 [] x'.
Proof.
  split; [exact k_q1_holds|].
  destruct (mq_reset_empties k_q1 11 (mq_of k_q1 11) 2 4 0 [[1; 2; 3]] RT_IPC_CMD_RESET 100 k_q1_kinv)
    as (x' & k' & H & _ & Hx & R & _).
  - vm_compute. reflexivity.
  - vm_compute. reflexivity.
  - exact k_q1_holds.
  - exists x', k'. auto.
Defined.
