(* ===== verification/MempoolProps.v ===== *)
(** * Properties of memory pools

    The pointer words refine a free list and a set of blocks in use. *)

From S2P Require Import Prelude Bitmap Kernel Timer Sched IpcList Thread Sem Mempool.
From S2P Require Import KernelInv TimerInv SchedInv ThreadInv TimerIdle ThreadOps IpcOps SystemInv.
From S2P Require Import Demo SchedProps Blocking WaitProps SemProps.
Open Scope rt_scope.

(** ** The abstraction *)

(** The blocks linked from address [a] on are [l]; RT_NULL is 0. *)
Fixpoint linked (words : gmap Z Z) (a : Z) (l : list Z) : Prop :=
  match l with
  | [] => a = 0
  | b :: l => a = b /\ exists w, words !! b = Some w /\ linked words w l
  end.

Lemma linked_insert words a l b w : b ∉ l -> linked words a l -> linked (<[b := w]> words) a l.
Proof.
  revert a. induction l as [|c l IH]; intros a Hb; [auto|]. intros (-> & w' & Hw & H).
  apply not_elem_of_cons in Hb as [Hbc Hb]. split; [reflexivity|]. exists w'.
  rewrite lookup_insert_ne by congruence. auto.
Qed.

(** The address of the word of block [i]. *)
Definition block_of (start bs i : Z) : Z := start + i * (bs + POINTER_SIZE).

(** Pool [p] of [total] blocks of [bs] bytes at [start]: the blocks [free] are
    linked in the free list, the words of the blocks [used] name the pool. *)
Record mp_rep (p start bs total : Z) (free used : list Z) (x : mempool) : Prop := {
  pr_valid : mp_valid x = true;
  pr_start : 0 < start;
  pr_bs : 0 <= bs;
  pr_end : block_of start bs total < 2 ^ 32;
  pr_blocks : forall b, b ∈ free ++ used -> exists i, 0 <= i < total /\ b = block_of start bs i;
  pr_nodup : NoDup (free ++ used);
  pr_total : Z.of_nat (length (free ++ used)) = total;
  pr_free : linked (mp_words x) (mp_list x) free;
  pr_used : forall b, b ∈ used -> mp_words x !! b = Some p;
  pr_count : mp_free_count x = Z.of_nat (length free);
}.

Lemma block_range start bs total i :
  0 < start -> 0 <= bs -> block_of start bs total < 2 ^ 32 -> 0 <= i < total ->
  0 < block_of start bs i /\ block_of start bs i + POINTER_SIZE + bs <= block_of start bs total.
Proof. unfold block_of, POINTER_SIZE. intros. nia. Qed.

Lemma total_bound p start bs total free used x : mp_rep p start bs total free used x -> 0 <= total < 2 ^ 32.
Proof. intros []. unfold block_of, POINTER_SIZE in *. nia. Qed.

(** ** The updates of the object *)

Definition mp_taken (p b next : Z) (x : mempool) : mempool :=
  x <| mp_free_count ::= (fun n => u32 (n - 1)) |> <| mp_list := next |> <| mp_words ::= insert b p |>.
Definition mp_given (b : Z) (x : mempool) : mempool :=
  x <| mp_free_count ::= (fun n => u32 (n + 1)) |> <| mp_words ::= insert b (mp_list x) |> <| mp_list := b |>.

Lemma taken_rep p start bs total b free used x :
  mp_rep p start bs total (b :: free) used x ->
  mp_list x = b /\ 0 < b /\ b + POINTER_SIZE < 2 ^ 32 /\ exists next, mp_words x !! b = Some next /\
    mp_rep p start bs total free (b :: used) (mp_taken p b next x).
Proof.
  intros R. pose proof (total_bound _ _ _ _ _ _ _ R) as Ht. destruct R. cbn in pr_free0.
  destruct pr_free0 as (El & next & Hw & Hl).
  destruct (pr_blocks0 b (list_elem_of_here _ _)) as (i & Hi & Eb).
  destruct (block_range start bs total i pr_start0 pr_bs0 pr_end0 Hi) as [Hb1 Hb2].
  assert (NoDup (free ++ b :: used)) as Hnd.
  { apply NoDup_cons in pr_nodup0 as [Hb Hnd]. rewrite elem_of_app in Hb. apply NoDup_app in Hnd as (N1 & N2 & N3).
    apply NoDup_app. split; [exact N1|]. split; [|apply NoDup_cons; tauto].
    intros c Hc [->|Hc2]%elem_of_cons; [tauto|]. exact (N2 c Hc Hc2). }
  assert (forall c, c ∈ free ++ b :: used -> c ∈ (b :: free) ++ used) as Hmove
    by (intros c; rewrite !elem_of_app, !elem_of_cons; tauto).
  apply NoDup_cons in pr_nodup0 as [Hbn _]. rewrite elem_of_app in Hbn.
  split; [exact El|]. split; [lia|]. split; [lia|]. exists next. split; [exact Hw|].
  split; cbn; try assumption.
  - intros c Hc. apply pr_blocks0, Hmove, Hc.
  - rewrite <- pr_total0. rewrite !length_app. cbn [length]. lia.
  - apply linked_insert; tauto.
  - intros c [->|Hc]%elem_of_cons; [apply lookup_insert_eq|].
    rewrite lookup_insert_ne by (intros <-; tauto). auto.
  - rewrite pr_count0. cbn [length]. rewrite length_app in pr_total0. cbn [length] in pr_total0.
    rewrite u32_small by lia. lia.
Qed.

Lemma given_rep p start bs total b free used1 used2 x :
  mp_rep p start bs total free (used1 ++ b :: used2) x ->
  0 < b /\ mp_rep p start bs total (b :: free) (used1 ++ used2) (mp_given b x).
Proof.
  intros R. pose proof (total_bound _ _ _ _ _ _ _ R) as Ht. destruct R.
  assert (b ∈ used1 ++ b :: used2) as Hbu by (apply elem_of_app; right; apply list_elem_of_here).
  destruct (pr_blocks0 b) as (i & Hi & Eb); [apply elem_of_app; auto|].
  destruct (block_range start bs total i pr_start0 pr_bs0 pr_end0 Hi) as [Hb1 Hb2].
  assert (Permutation (free ++ used1 ++ b :: used2) ((b :: free) ++ used1 ++ used2)) as HP.
  { cbn [app]. rewrite !app_assoc. symmetry. apply Permutation_middle. }
  assert (NoDup ((b :: free) ++ used1 ++ used2)) as Hnd by (rewrite <- HP; exact pr_nodup0).
  assert ((b ∉ free) /\ b ∉ used1 ++ used2) as [Hbf Hb12].
  { cbn [app] in Hnd. apply NoDup_cons in Hnd as [H _]. rewrite elem_of_app in H. tauto. }
  split; [lia|]. split; cbn; try assumption.
  - intros c Hc. apply pr_blocks0. rewrite HP. exact Hc.
  - rewrite <- pr_total0. cbn [app length]. rewrite !length_app. cbn [length]. lia.
  - split; [reflexivity|]. eexists. split; [apply lookup_insert_eq|]. apply linked_insert; assumption.
  - intros c Hc. rewrite lookup_insert_ne by (intros <-; contradiction). apply pr_used0.
    rewrite elem_of_app in Hc |- *. rewrite elem_of_cons. tauto.
  - rewrite pr_count0. cbn [length]. rewrite !length_app in pr_total0. cbn [length] in pr_total0.
    rewrite u32_small by lia. lia.
Qed.

(** ** The operations *)

Definition with_mp (p : Z) (x : mempool) (k : kernel) : kernel := k <| k_mps ::= insert p x |>.

Lemma with_mp_lookup p x k : k_mps (with_mp p x k) !! p = Some x.
Proof. apply lookup_insert_eq. Qed.

Lemma kinv_with_mp p x k : kinv k -> kinv (with_mp p x k).
Proof. intros HK. eapply kinv_same; [exact HK|reflexivity..]. Qed.

Lemma upd_mp_eq p x f k : k_mps k !! p = Some x -> upd_mp p f k = Some (tt, with_mp p (f x) k).
Proof. intros Hx. unfold upd_mp. rewrite (upd_obj_eq k_mps p f x k Hx). reflexivity. Qed.

Lemma upd_with_mp p x f k : upd_mp p f (with_mp p x k) = Some (tt, with_mp p (f x) k).
Proof.
  rewrite (upd_mp_eq p x) by apply with_mp_lookup. destruct k. unfold with_mp, set_field. cbn.
  rewrite insert_insert_eq. reflexivity.
Qed.

Lemma mp_take_total p k x start bs total b free used :
  k_mps k !! p = Some x -> mp_rep p start bs total (b :: free) used x ->
  exists next, mp_take p k = Some (Done (b + POINTER_SIZE) [], with_mp p (mp_taken p b next x) k) /\
    mp_rep p start bs total free (b :: used) (mp_taken p b next x).
Proof.
  intros Hx R. destruct (taken_rep _ _ _ _ _ _ _ _ R) as (El & Hb & Hb2 & next & Hw & R'). exists next. split; [|exact R'].
  unfold mp_take. erewrite bind_eq by (apply upd_mp_eq; exact Hx).
  erewrite bind_eq by (apply get_obj_eq, with_mp_lookup). cbv zeta.
  change (mp_list (x <| mp_free_count ::= (fun n => u32 (n - 1)) |>)) with (mp_list x).
  change (mp_words (x <| mp_free_count ::= (fun n => u32 (n - 1)) |>)) with (mp_words x). rewrite El.
  erewrite bind_eq by (apply assert_eq, negb_true_iff, Z.eqb_neq; lia).
  erewrite bind_eq by (rewrite Hw; reflexivity). erewrite bind_eq by apply upd_with_mp.
  rewrite u32_small by (unfold POINTER_SIZE in *; lia). reflexivity.
Qed.

(** C14: Allocating takes the first free block: the result is the address behind
    its word, the block was free and is now in use, and the free list and the
    count lose exactly it.  With no free block the call returns RT_NULL and sets
    the error -RT_ETIMEOUT when the timeout is 0, and otherwise puts the caller
    to sleep at the tail of the pool's list.  *)
Theorem mp_alloc_behaviour t th k p x start bs total free used time :
  in_thread t th k -> k_mps k !! p = Some x -> mp_rep p start bs total free used x -> time < HALF_TICK ->
  match free with
  | b :: free' => exists x', rt_mp_alloc p time k = Some (Done (b + POINTER_SIZE) [], with_mp p x' k) /\
      (b ∉ used) /\ mp_rep p start bs total free' (b :: used) x'
  | [] => if time =? 0 then rt_mp_alloc p time k = Some (Done 0 [], with_error t th (- RT_ETIMEOUT) k)
      else exists k', rt_mp_alloc p time k = Some (Waiting (PcMpAlloc p time (k_tick k)), k') /\ kinv k' /\
        k_mps k' = k_mps k /\ asleep t (LPool p) RT_IPC_FLAG_FIFO time (with_error t th RT_EOK k) k'
  end.
Proof.
  intros C Hx R Hto. unfold rt_mp_alloc, mp_alloc_round. erewrite bind_eq by (apply get_obj_eq; exact Hx).
  rewrite (pr_count _ _ _ _ _ _ _ R). destruct free as [|b free].
  - change (Z.of_nat (length []) =? 0) with true. cbv beta iota. destruct (Z.eqb_spec time 0).
    { unfold rt_set_errno. rewrite bind_assoc. erewrite bind_eq by reflexivity. rewrite (it_irq _ _ _ C).
      change (negb (u8 0 =? 0)) with false. cbv beta iota. rewrite bind_assoc. erewrite bind_eq by reflexivity.
      rewrite (it_current _ _ _ C). erewrite bind_eq by (apply upd_thread_eq, C). reflexivity. }
    erewrite bind_eq by (apply not_in_interrupt_eq, C). erewrite bind_eq by (apply the_self_eq, C).
    erewrite bind_eq by (apply upd_thread_eq, C).
    change (k <| k_threads ::= _ |>) with (with_error t th RT_EOK k).
    destruct (sleep_total _ _ _ (LPool p) RT_IPC_FLAG_FIFO RT_UNINTERRUPTIBLE time (in_thread_error t th RT_EOK k C)
      eq_refl (or_introl eq_refl) Hto) as (k1 & k2 & k3 & H1 & Ht & H2 & H3 & HK & A).
    exists k3. split; [|split; [exact HK|split; [apply (of_mps _ _ (as_frame _ _ _ _ _ _ A))|exact A]]].
    erewrite bind_eq by exact H1. erewrite bind_eq by reflexivity. erewrite bind_eq by exact H2.
    erewrite bind_eq by exact H3. cbv beta. rewrite Ht. reflexivity.
  - rewrite (proj2 (Z.eqb_neq _ _)) by (cbn [length]; lia).
    destruct (mp_take_total p k x start bs total b free used Hx R) as (next & H & R').
    exists (mp_taken p b next x). split; [exact H|]. split; [|exact R'].
    pose proof (pr_nodup _ _ _ _ _ _ _ R) as Hnd. cbn [app] in Hnd. apply NoDup_cons in Hnd as [Hnd _].
    rewrite elem_of_app in Hnd. tauto.
Qed.

(** Freeing a block in use puts it at the front of the free list of the pool
    that its word names and wakes the thread that waits first; freeing RT_NULL
    does nothing.  *)
Theorem mp_free_behaviour k p x start bs total free used1 b used2 c :
  kinv k -> k_current k = Some c -> k_mps k !! p = Some x -> mp_rep p start bs total free (used1 ++ b :: used2) x ->
  rt_mp_free p 0 k = Some (tt, k) /\
  exists x' k', rt_mp_free p (b + POINTER_SIZE) k = Some (tt, k') /\ kinv k' /\
    mp_rep p start bs total (b :: free) (used1 ++ used2) x' /\ k_mps k' !! p = Some x' /\
    notified (LPool p) (with_mp p x' k) k'.
Proof.
  intros HK Hc Hx R. split; [reflexivity|]. destruct (given_rep _ _ _ _ _ _ _ _ _ R) as [Hb R'].
  assert (mp_words x !! b = Some p) as Hw.
  { apply (pr_used _ _ _ _ _ _ _ R), elem_of_app. right. apply list_elem_of_here. }
  assert (b < 2 ^ 32) as Hb32.
  { pose proof (taken_rep p start bs total b free (used1 ++ used2) (mp_given b x) R') as (_ & _ & H & _).
    unfold POINTER_SIZE in H. lia. }
  set (k1 := with_mp p (mp_given b x) k).
  assert (forall m, (upd_mp p (fun x => x <| mp_free_count ::= (fun n => u32 (n + 1)) |>);;
    x ← get_mp p; upd_mp p (fun h => h <| mp_words ::= insert b (mp_list x) |>);;
    upd_mp p (fun x => x <| mp_list := b |>);; m) k = (m : K unit) k1) as Hgive.
  { intros m. erewrite bind_eq by (apply upd_mp_eq; exact Hx). erewrite bind_eq by (apply get_obj_eq, with_mp_lookup).
    erewrite bind_eq by apply upd_with_mp. erewrite bind_eq by apply upd_with_mp. reflexivity. }
  assert (rt_mp_free p (b + POINTER_SIZE) k = (thread ← rt_susp_list_dequeue (LPool p) RT_EOK;
    match thread with Some _ => rt_schedule | None => mret tt end) k1) as E.
  { unfold rt_mp_free. rewrite (proj2 (Z.eqb_neq _ _)) by (unfold POINTER_SIZE; lia).
    rewrite Z.add_simpl_r, u32_small by lia. erewrite bind_eq by (apply get_obj_eq; exact Hx).
    erewrite bind_eq by (rewrite Hw; reflexivity). apply Hgive. }
  exists (mp_given b x). fold k1. rewrite E. unfold notified.
  destruct (k_lists k1 (LPool p)) as [|w q] eqn:Hl.
  - exists k1. erewrite bind_eq by (apply dequeue_empty; exact Hl). split; [reflexivity|].
    split; [apply kinv_with_mp, HK|]. split; [exact R'|]. split; [apply with_mp_lookup|reflexivity].
  - destruct (wake_total k1 w (LPool p) q RT_EOK c (kinv_with_mp _ _ _ HK) eq_refl Hl Hc)
      as (k2 & k3 & H2 & H3 & HK3 & W & M).
    exists k3. erewrite bind_eq by exact H2. split; [exact H3|]. split; [exact HK3|]. split; [exact R'|].
    split; [|auto]. rewrite (of_mps _ _ (wo_frame _ _ _ _ _ _ W)). apply with_mp_lookup.
Qed.

(** ** Setting up *)

(** The blocks from number [offset] on. *)
Definition blocks (start bs : Z) (offset : Z) (n : nat) : list Z :=
  map (fun i => block_of start bs (offset + Z.of_nat i)) (seq 0 n).

Lemma blocks_S start bs offset n : blocks start bs offset (S n) = block_of start bs offset :: blocks start bs (offset + 1) n.
Proof.
  unfold blocks. cbn [seq map]. rewrite Z.add_0_r. f_equal. rewrite <- seq_shift, map_map. apply map_ext.
  intros i. f_equal. lia.
Qed.

Lemma elem_of_blocks start bs offset n b : b ∈ blocks start bs offset n <->
  exists i, offset <= i < offset + Z.of_nat n /\ b = block_of start bs i.
Proof.
  unfold blocks. rewrite list_elem_of_fmap. split.
  - intros (i & -> & Hi). apply elem_of_seq in Hi. exists (offset + Z.of_nat i). split; [lia|reflexivity].
  - intros (i & Hi & ->). exists (Z.to_nat (i - offset)). split; [f_equal; lia|apply elem_of_seq; lia].
Qed.

Lemma block_inj start bs i j : 0 <= bs -> block_of start bs i = block_of start bs j -> i = j.
Proof. unfold block_of, POINTER_SIZE. nia. Qed.

Lemma NoDup_blocks start bs offset n : 0 <= bs -> NoDup (blocks start bs offset n).
Proof.
  intros Hbs. revert offset. induction n as [|n IH]; intros offset; [constructor|]. rewrite blocks_S.
  apply NoDup_cons. split; [|apply IH]. rewrite elem_of_blocks. intros (i & Hi & E).
  apply block_inj in E; [|exact Hbs]. lia.
Qed.

Section Init.
Context (start bs total : Z).
Hypothesis Hstart : 0 < start.
Hypothesis Hbs : 0 <= bs.
Hypothesis Hend : block_of start bs total < 2 ^ 32.

Lemma block_addr_eq i : 0 <= i <= total -> block_addr start bs i = block_of start bs i.
Proof. intros Hi. unfold block_addr. apply u32_small. unfold block_of, POINTER_SIZE in *. nia. Qed.

(** The words the loop writes: each names the next block. *)
Lemma mp_chain_words offset n words :
  0 <= offset -> offset + Z.of_nat n <= total ->
  (forall i, offset <= i < offset + Z.of_nat n ->
     mp_chain start bs offset n words !! block_of start bs i = Some (block_of start bs (i + 1))) /\
  (forall a, (forall i, offset <= i < offset + Z.of_nat n -> a <> block_of start bs i) ->
     mp_chain start bs offset n words !! a = words !! a).
Proof.
  revert offset words. induction n as [|n IH]; intros offset words Ho Hn; cbn [mp_chain]; [split; [lia|reflexivity]|].
  rewrite !block_addr_eq by lia. destruct (IH (offset + 1) (<[block_of start bs offset:=block_of start bs (offset + 1)]> words))
    as [H1 H2]; [lia|lia|]. split.
  - intros i Hi. destruct (decide (i = offset)) as [->|Hne]; [|apply H1; lia].
    rewrite H2; [apply lookup_insert_eq|]. intros j Hj E. apply block_inj in E; [lia|exact Hbs].
  - intros a Ha. rewrite H2 by (intros i Hi; apply Ha; lia). apply lookup_insert_ne. intros E. apply (Ha offset); [lia|auto].
Qed.

Lemma linked_blocks words offset n :
  (forall i, offset <= i < offset + Z.of_nat n -> words !! block_of start bs i =
     Some (if i =? offset + Z.of_nat n - 1 then 0 else block_of start bs (i + 1))) ->
  linked words (if (n =? 0)%nat then 0 else block_of start bs offset) (blocks start bs offset n).
Proof.
  revert offset. induction n as [|n IH]; intros offset Hw; [reflexivity|]. rewrite blocks_S. split; [reflexivity|].
  eexists. split; [apply Hw; lia|]. destruct (decide (n = O)) as [En|Hn0].
  - rewrite En in *. rewrite (proj2 (Z.eqb_eq _ _)) by lia. reflexivity.
  - rewrite (proj2 (Z.eqb_neq _ _)) by lia. specialize (IH (offset + 1)).
    rewrite (proj2 (Nat.eqb_neq _ _) Hn0) in IH. apply IH. intros i Hi. rewrite Hw by lia.
    assert (i = offset + Z.of_nat (S n) - 1 <-> i = offset + 1 + Z.of_nat n - 1) as E by lia.
    destruct (Z.eqb_spec i (offset + Z.of_nat (S n) - 1)), (Z.eqb_spec i (offset + 1 + Z.of_nat n - 1)); tauto || lia.
Qed.

Lemma fresh_rep p static size : 0 < total ->
  mp_rep p start bs total (blocks start bs 0 (Z.to_nat total)) [] (mp_fresh static start size bs total).
Proof.
  intros Ht. destruct (mp_chain_words 0 (Z.to_nat total) ∅) as [Hw _]; [lia|lia|].
  split; cbn; rewrite ?app_nil_r; try assumption; try reflexivity.
  - intros b Hb. apply elem_of_blocks in Hb as (i & Hi & ->). exists i. split; [lia|reflexivity].
  - apply NoDup_blocks, Hbs.
  - unfold blocks. rewrite length_map, length_seq. lia.
  - unfold mp_blocks. rewrite block_addr_eq by lia.
    pose proof (linked_blocks (<[block_of start bs (total - 1):=0]> (mp_chain start bs 0 (Z.to_nat total) ∅)) 0 (Z.to_nat total)) as H.
    rewrite (proj2 (Nat.eqb_neq _ _)) in H by lia.
    assert (block_of start bs 0 = start) as E by (unfold block_of; lia). rewrite E in H. apply H.
    intros i Hi. destruct (Z.eqb_spec i (0 + Z.of_nat (Z.to_nat total) - 1)) as [->|Hne].
    + assert (0 + Z.of_nat (Z.to_nat total) - 1 = total - 1) as -> by lia. apply lookup_insert_eq.
    + rewrite lookup_insert_ne; [apply Hw; lia|]. intros E2. apply block_inj in E2; [lia|exact Hbs].
  - intros b []%elem_of_nil.
  - unfold blocks. rewrite length_map, length_seq. lia.
Qed.
End Init.

(** rt_mp_init rounds the memory down and the blocks up to the alignment
    and divides the memory into as many blocks with their words as fit; all of
    them are free, in address order, and no block reaches beyond the memory.  *)
Theorem mp_init_holds p start size block_size k :
  0 < start -> 0 < size -> start + size < 2 ^ 32 -> 0 < block_size < 2 ^ 31 ->
  (forall x, k_mps k !! p = Some x -> mp_valid x = false) ->
  let bs := RT_ALIGN block_size RT_ALIGN_SIZE in
  let total := RT_ALIGN_DOWN size RT_ALIGN_SIZE / (bs + POINTER_SIZE) in
  0 < total ->
  exists x k', rt_mp_init p start size block_size k = Some (RT_EOK, k') /\ k_mps k' !! p = Some x /\
    mp_rep p start bs total (blocks start bs 0 (Z.to_nat total)) [] x /\ block_size <= bs /\
    block_of start bs total <= start + size /\ k_lists k' (LPool p) = [] /\ k_threads k' = k_threads k.
Proof.
  intros Hst Hs Hend Hb Hnew bs total Ht.
  pose proof (RT_ALIGN_8 block_size ltac:(lia)) as Hal. pose proof (Z.mod_pos_bound (block_size + 7) 8 ltac:(lia)) as Hmod.
  pose proof (RT_ALIGN_DOWN_8 size ltac:(lia)) as Hdn. pose proof (Z.mod_pos_bound size 8 ltac:(lia)) as Hmod2.
  assert (block_size <= bs < 2 ^ 31 + 8) as Hbs by (unfold bs, RT_ALIGN_SIZE; lia).
  set (sz := RT_ALIGN_DOWN size RT_ALIGN_SIZE) in *. assert (sz <= size) as Hsz by (unfold sz, RT_ALIGN_SIZE; lia).
  assert (total * (bs + POINTER_SIZE) <= sz) as Hfit.
  { unfold total. rewrite Z.mul_comm. apply Z.mul_div_le. unfold POINTER_SIZE. lia. }
  assert (block_of start bs total <= start + size) as Hle by (unfold block_of; lia).
  exists (mp_fresh true start sz bs total). eexists. split; [|split; [|split; [apply fresh_rep; lia|split; [lia|split; [exact Hle|]]]]].
  - unfold rt_mp_init. erewrite bind_eq.
    2: { apply assert_eq, andb_true_intro. split; apply Z.ltb_lt; lia. }
    cbv zeta. fold sz bs. rewrite (u32_small (bs + POINTER_SIZE)) by (unfold POINTER_SIZE; lia). fold total.
    erewrite bind_eq.
    2: { unfold obj_init. erewrite bind_eq by reflexivity. cbv beta. erewrite bind_eq; [reflexivity|]. apply assert_eq.
      destruct (k_mps k !! p) as [x|] eqn:E; [|reflexivity]. rewrite (Hnew x eq_refl). reflexivity. }
    erewrite bind_eq by reflexivity. reflexivity.
  - apply lookup_insert_eq.
  - split; [apply fn_lookup_insert|reflexivity].
Qed.

(** ** Examples *)

(** A pool at 1000 with 40 bytes: three blocks of 8 bytes. *)
Definition k_p0 : kernel := run (rt_mp_init 12 1000 43 5) k_boot.
Definition k_p1 : kernel := run (rt_mp_alloc 12 0) k_p0.
Definition mp_of (k : kernel) (p : Z) : mempool := default (mkMempool (mkIpc false false 0) 0 0 ∅ 0 0 0) (k_mps k !! p).

Lemma k_p1_kinv : kinv k_p1.
Proof. apply run_kinv; [apply mp_alloc_preserves|]. apply run_kinv; [apply mp_init_preserves|apply k_boot_kinv]. Qed.

Lemma k_p1_in_thread : in_thread 100 (thread_of k_p1 100) k_p1.
Proof. split; try (vm_compute; reflexivity). apply k_p1_kinv. Qed.

Lemma k_p1_rep : mp_rep 12 1000 8 3 [1012; 1024] [1000] (mp_of k_p1 12).
Proof.
  split; try (vm_compute; reflexivity).
  - lia.
  - intros b Hb. repeat (apply elem_of_cons in Hb as [->|Hb]); [exists 1|exists 2|exists 0|destruct (proj1 (elem_of_nil _) Hb)];
      (split; [lia|vm_compute; reflexivity]).
  - apply (bool_decide_unpack _). vm_compute. exact Logic.I.
  - split; [vm_compute; reflexivity|]. eexists. split; [vm_compute; reflexivity|]. split; [reflexivity|].
    eexists. split; vm_compute; reflexivity.
  - intros b Hb. apply list_elem_of_singleton in Hb as ->. vm_compute. reflexivity.
Qed.

Lemma mp_alloc_behaviour_witness :
  mp_rep 12 1000 8 3 [1012; 1024] [1000] (mp_of k_p1 12) /\
  exists x', rt_mp_alloc 12 (-1) k_p1 = Some (Done 1016 [], with_mp 12 x' k_p1) /\
    mp_rep 12 1000 8 3 [1024] [1012; 1000] x'.
Proof.
  split; [exact k_p1_rep|].
  destruct (mp_alloc_behaviour 100 (thread_of k_p1 100) k_p1 12 (mp_of k_p1 12) 1000 8 3 [1012; 1024] [1000] (-1)
    k_p1_in_thread) as (x' & H & _ & R).
  - vm_compute. reflexivity.
  - exact k_p1_rep.
  - vm_compute. reflexivity.
  - exists x'. auto.
Defined.

Lemma mp_free_behaviour_witness :
  exists x' k', rt_mp_free 12 1004 k_p1 = Some (tt, k') /\ k_mps k' !! 12 = Some x' /\
    mp_rep 12 1000 8 3 [1000; 1012; 1024] [] x'.
Proof.
  destruct (mp_free_behaviour k_p1 12 (mp_of k_p1 12) 1000 8 3 [1012; 1024] [] 1000 [] 100 k_p1_kinv)
    as (_ & x' & k' & H & _ & R & Hx & _).
  - vm_compute. reflexivity.
  - vm_compute. reflexivity.
  - exact k_p1_rep.
  - exists x', k'. auto.
Defined.

Lemma mp_init_holds_witness :
  exists x k', rt_mp_init 12 1000 43 5 k_boot = Some (RT_EOK, k') /\ k_mps k' !! 12 = Some x /\
    mp_rep 12 1000 8 3 [1000; 1012; 1024] [] x.
Proof.
  destruct (mp_init_holds 12 1000 43 5 k_boot) as (x & k' & H & Hx & R & _); try lia.
  - intros x. vm_compute. discriminate.
  - vm_compute. reflexivity.
  - exists x, k'. auto.
Defined.
