(* ===== verification/RingbufferProps.v ===== *)
(** * Properties of ring buffers

    The mirrored indices refine a bounded queue of bytes. *)

From S2P Require Import Prelude Ring Ringbuffer.
Open Scope rt_scope.

(** The ring buffer [rb] has room for [cap] bytes and holds [q], oldest first. *)
Record rb_rep (cap : Z) (q : list Z) (rb : ringbuffer) : Prop := {
  rr_size : rb_size rb = cap;
  rr_cap : 0 < cap < 2 ^ 31;
  rr_pool : cap <= Z.of_nat (length (rb_buffer rb));
  rr_read : 0 <= rb_read_index rb < cap;
  rr_room : Z.of_nat (length q) <= cap;
  rr_write : rb_write_index rb = (rb_read_index rb + Z.of_nat (length q)) mod cap;
  rr_mirror : rb_write_mirror rb = xorb (rb_read_mirror rb) (cap <=? rb_read_index rb + Z.of_nat (length q));
  rr_bytes : ring cap (rb_buffer rb) (rb_read_index rb) (Z.of_nat (length q)) = q;
}.

Lemma u31_small x : 0 <= x < 2 ^ 31 -> u31 x = x.
Proof. apply Z.mod_small. Qed.

(** The write index, by the side of the mirror it is on. *)
Lemma write_index_cases cap q rb : rb_rep cap q rb ->
  let r := rb_read_index rb in let w := rb_write_index rb in let n := Z.of_nat (length q) in
  r + n < cap /\ w = r + n /\ rb_write_mirror rb = rb_read_mirror rb \/
  cap <= r + n /\ w = r + n - cap /\ rb_write_mirror rb = negb (rb_read_mirror rb).
Proof.
  intros []. cbv zeta. rewrite rr_mirror0, rr_write0. destruct (Z.leb_spec cap (rb_read_index rb + Z.of_nat (length q))).
  - right. split; [assumption|]. split; [|apply xorb_true_r].
    symmetry. apply (Z.mod_unique_pos _ _ 1); lia.
  - left. split; [assumption|]. split; [apply Z.mod_small; lia|apply xorb_false_r].
Qed.

Lemma data_len_eq cap q rb : rb_rep cap q rb -> rt_ringbuffer_data_len rb = Z.of_nat (length q).
Proof.
  intros R. pose proof (write_index_cases _ _ _ R) as W. cbv zeta in W. destruct R.
  unfold rt_ringbuffer_data_len, rt_ringbuffer_status. cbv zeta.
  destruct W as [(Hlt & -> & ->)|(Hge & -> & ->)].
  - destruct (Z.eqb_spec (rb_read_index rb) (rb_read_index rb + Z.of_nat (length q))).
    + rewrite Bool.eqb_reflx. lia.
    + rewrite (proj2 (Z.ltb_lt _ _)) by lia. lia.
  - destruct (Z.eqb_spec (rb_read_index rb) (rb_read_index rb + Z.of_nat (length q) - cap)).
    + destruct (rb_read_mirror rb); cbn; lia.
    + rewrite (proj2 (Z.ltb_ge _ _)) by lia. rewrite rr_size0, u32_small; lia.
Qed.

Lemma space_len_eq cap q rb : rb_rep cap q rb -> rt_ringbuffer_space_len rb = cap - Z.of_nat (length q).
Proof.
  intros R. unfold rt_ringbuffer_space_len. rewrite (data_len_eq _ _ _ R), (rr_size _ _ _ R). destruct R.
  apply u32_small. lia.
Qed.

(** ** Writing into the pool *)

Lemma write_at_length i bs buf : length (write_at i bs buf) = length buf.
Proof. revert i buf. induction bs as [|b bs IH]; intros i buf; [reflexivity|]. cbn. rewrite IH. apply length_insert. Qed.

Lemma write_at_ring cap bs : forall pool r n,
  0 < cap <= Z.of_nat (length pool) -> 0 <= n -> n + Z.of_nat (length bs) <= cap ->
  (r + n) mod cap + Z.of_nat (length bs) <= cap ->
  ring cap (write_at (Z.to_nat ((r + n) mod cap)) bs pool) r (n + Z.of_nat (length bs)) = ring cap pool r n ++ bs.
Proof.
  induction bs as [|b bs IH]; intros pool r n Hc Hn Hroom Hend; cbn [length] in *.
  - cbn. rewrite Z.add_0_r, app_nil_r. reflexivity.
  - pose proof (Z.mod_pos_bound (r + n) cap ltac:(lia)) as Hw. cbn [write_at].
    destruct bs as [|b' bs].
    { cbn [write_at length]. apply ring_push; lia. }
    assert ((r + (n + 1)) mod cap = (r + n) mod cap + 1) as E.
    { replace (r + (n + 1)) with (r + n + 1) by lia. rewrite <- Zplus_mod_idemp_l. cbn [length] in Hend.
      apply Z.mod_small. lia. }
    replace (S (Z.to_nat ((r + n) mod cap))) with (Z.to_nat ((r + (n + 1)) mod cap)) by (rewrite E; lia).
    replace (n + Z.of_nat (S (length (b' :: bs)))) with (n + 1 + Z.of_nat (length (b' :: bs))) by lia.
    rewrite IH; [|rewrite length_insert; lia|lia|lia|rewrite E; lia].
    rewrite ring_push by (cbn [length] in Hroom; lia). rewrite <- app_assoc. reflexivity.
Qed.

Lemma copy_in_eq i bs rb :
  0 <= i -> i + Z.of_nat (length bs) <= Z.of_nat (length (rb_buffer rb)) ->
  copy_in i bs rb = Some (tt, rb <| rb_buffer ::= write_at (Z.to_nat i) bs |>).
Proof.
  intros Hi He. unfold copy_in. erewrite bind_eq by reflexivity.
  erewrite bind_eq by (apply assert_eq, andb_true_intro; split; apply Z.leb_le; lia). reflexivity.
Qed.

(** The state after [bs] were written behind the others. *)
Definition written (bs : list Z) (rb : ringbuffer) : ringbuffer :=
  let k := rb_size rb - rb_write_index rb in
  let len := Z.of_nat (length bs) in
  if len <? k then
    rb <| rb_buffer ::= write_at (Z.to_nat (rb_write_index rb)) bs |> <| rb_write_index := rb_write_index rb + len |>
  else
    rb <| rb_buffer ::= (fun buf => write_at 0 (drop (Z.to_nat k) bs)
                            (write_at (Z.to_nat (rb_write_index rb)) (take (Z.to_nat k) bs) buf)) |>
       <| rb_write_mirror ::= negb |> <| rb_write_index := len - k |>.

Lemma written_rep cap q bs rb :
  rb_rep cap q rb -> Z.of_nat (length q) + Z.of_nat (length bs) <= cap -> rb_rep cap (q ++ bs) (written bs rb).
Proof.
  intros R Hroom. pose proof (write_index_cases _ _ _ R) as W. cbv zeta in W. destruct R.
  pose proof (Z.mod_pos_bound (rb_read_index rb + Z.of_nat (length q)) cap ltac:(lia)) as Hwr.
  unfold written. rewrite rr_size0. destruct (Z.ltb_spec (Z.of_nat (length bs)) (cap - rb_write_index rb)) as [Hlt|Hge].
  - split; cbn; rewrite ?write_at_length, ?length_app; try assumption; try lia.
    + rewrite Nat2Z.inj_add, Z.add_assoc, <- Zplus_mod_idemp_l, <- rr_write0. symmetry. apply Z.mod_small. lia.
    + rewrite rr_mirror0. f_equal. rewrite rr_write0 in *. apply eq_true_iff_eq. rewrite !Z.leb_le. lia.
    + rewrite Nat2Z.inj_add, rr_write0, write_at_ring by lia. rewrite rr_bytes0. reflexivity.
  - set (k := cap - rb_write_index rb) in *. assert (cap <= rb_read_index rb + Z.of_nat (length q) -> False) as Hno by lia.
    destruct W as [(Hlt & Hw & Hm)|(Hge' & _)]; [|contradiction].
    assert (Z.of_nat (length (take (Z.to_nat k) bs)) = k) as Hk by (rewrite length_take; lia).
    split; cbn; rewrite ?write_at_length, ?length_app, ?length_drop; try assumption; try lia.
    + rewrite Nat2Z.inj_add. apply (Z.mod_unique_pos _ _ 1); lia.
    + rewrite Hm, (proj2 (Z.leb_le _ _)) by lia. symmetry. apply xorb_true_r.
    + rewrite <- (take_drop (Z.to_nat k) bs) at 4.
      pose proof (write_at_ring cap (take (Z.to_nat k) bs) (rb_buffer rb) (rb_read_index rb) (Z.of_nat (length q)) ltac:(lia)
        ltac:(lia) ltac:(lia)) as H1. rewrite <- rr_write0, Hk, rr_bytes0 in H1. specialize (H1 ltac:(lia)).
      set (buf1 := write_at (Z.to_nat (rb_write_index rb)) (take (Z.to_nat k) bs) (rb_buffer rb)) in *.
      assert ((rb_read_index rb + (Z.of_nat (length q) + k)) mod cap = 0) as Hz.
      { replace (rb_read_index rb + (Z.of_nat (length q) + k)) with cap by lia. apply Z.mod_same. lia. }
      pose proof (write_at_ring cap (drop (Z.to_nat k) bs) buf1 (rb_read_index rb) (Z.of_nat (length q) + k)) as H2.
      rewrite Hz, H1, length_drop in H2. rewrite app_assoc, <- H2; [f_equal; lia|unfold buf1; rewrite write_at_length; lia|lia..].
Qed.

(** Both ways to write are [written]. *)
Lemma write_short_eq cap q ptr rb :
  rb_rep cap q rb -> Z.of_nat (length ptr) < rb_size rb - rb_write_index rb ->
  (copy_in (rb_write_index rb) ptr;; st_modify (fun rb => rb <| rb_write_index ::= (fun i => u31 (i + Z.of_nat (length ptr))) |>)) rb
  = Some (tt, written ptr rb).
Proof.
  intros R Hlt. pose proof (Z.mod_pos_bound (rb_read_index rb + Z.of_nat (length q)) cap ltac:(destruct R; lia)) as Hw.
  rewrite <- (rr_write _ _ _ R) in Hw. unfold written. rewrite (proj2 (Z.ltb_lt _ _) Hlt). destruct R. rewrite rr_size0 in Hlt.
  erewrite bind_eq by (apply copy_in_eq; lia). unfold st_modify, set_field. cbn. rewrite u31_small by lia. reflexivity.
Qed.

Lemma write_wrapped_eq cap q ptr rb :
  rb_rep cap q rb -> rb_size rb - rb_write_index rb <= Z.of_nat (length ptr) <= cap ->
  write_wrapped ptr rb = Some (tt, written ptr rb).
Proof.
  intros R Hle. pose proof (Z.mod_pos_bound (rb_read_index rb + Z.of_nat (length q)) cap ltac:(destruct R; lia)) as Hw.
  rewrite <- (rr_write _ _ _ R) in Hw. unfold written. rewrite (proj2 (Z.ltb_ge _ _)) by lia. destruct R. rewrite rr_size0 in *.
  unfold write_wrapped. erewrite bind_eq by reflexivity. cbv zeta. rewrite rr_size0. set (k := cap - rb_write_index rb) in *.
  assert (Z.of_nat (length (take (Z.to_nat k) ptr)) = k) as Hk by (rewrite length_take; lia).
  erewrite bind_eq by (apply copy_in_eq; lia).
  erewrite bind_eq by (apply copy_in_eq; [lia|cbn; rewrite write_at_length, length_drop; lia]).
  unfold st_modify, set_field. cbn. rewrite u31_small by lia. reflexivity.
Qed.

Lemma free_slots cap q rb : rb_rep cap q rb ->
  u32 (rb_size rb - rb_write_index rb) = rb_size rb - rb_write_index rb /\ 0 < rb_size rb - rb_write_index rb <= cap.
Proof.
  intros []. pose proof (Z.mod_pos_bound (rb_read_index rb + Z.of_nat (length q)) cap ltac:(lia)).
  rewrite rr_size0. split; [apply u32_small|]; lia.
Qed.

Lemma put_rep cap q rb ptr :
  rb_rep cap q rb ->
  let n := Z.min (Z.of_nat (length ptr)) (cap - Z.of_nat (length q)) in
  exists rb', rt_ringbuffer_put ptr rb = Some (n, rb') /\ rb_rep cap (q ++ take (Z.to_nat n) ptr) rb'.
Proof.
  intros R n. unfold rt_ringbuffer_put. erewrite bind_eq by reflexivity. cbv zeta. rewrite (space_len_eq _ _ _ R).
  pose proof (rr_room _ _ _ R) as Hroom. destruct (Z.eqb_spec (cap - Z.of_nat (length q)) 0) as [E|E].
  { exists rb. assert (n = 0) as -> by lia. rewrite app_nil_r. auto. }
  set (ptr' := if cap - Z.of_nat (length q) <? Z.of_nat (length ptr) then take (Z.to_nat (cap - Z.of_nat (length q))) ptr else ptr).
  assert (ptr' = take (Z.to_nat n) ptr) as Hp.
  { unfold ptr'. destruct (Z.ltb_spec (cap - Z.of_nat (length q)) (Z.of_nat (length ptr))).
    - f_equal. lia.
    - symmetry. apply take_ge. lia. }
  assert (Z.of_nat (length ptr') = n) as Hn by (rewrite Hp, length_take; lia).
  destruct (free_slots _ _ _ R) as [-> Hk]. exists (written ptr' rb). rewrite <- Hp.
  split; [|apply written_rep; [exact R|lia]].
  destruct (Z.ltb_spec (Z.of_nat (length ptr')) (rb_size rb - rb_write_index rb)).
  - rewrite <- bind_assoc. erewrite bind_eq by (eapply write_short_eq; eassumption). rewrite Hn. reflexivity.
  - erewrite bind_eq by (eapply write_wrapped_eq; [exact R|lia]). rewrite Hn. reflexivity.
Qed.

(** C19: rt_ringbuffer_put refines appending to a bounded queue of bytes: it
    stores as many of the bytes as there is room for behind the others, in at
    most two pieces, and returns their number.  *)
Theorem rb_put_refines cap q rb ptr :
  rb_rep cap q rb ->
  let n := Z.min (Z.of_nat (length ptr)) (cap - Z.of_nat (length q)) in
  exists rb', rt_ringbuffer_put ptr rb = Some (n, rb') /\ rb_rep cap (q ++ take (Z.to_nat n) ptr) rb'.
Proof. apply put_rep. Qed.

(** ** Reading *)

Lemma ring_app {A} `{!Inhabited A} cap (pool : list A) r a b :
  0 <= a -> 0 <= b -> ring cap pool r (a + b) = ring cap pool r a ++ ring cap pool ((r + a) mod cap) b.
Proof.
  intros Ha Hb. unfold ring. rewrite seqZ_app, map_app by lia. f_equal.
  rewrite Z.add_0_l. replace a with (a + 0) at 1 by lia. rewrite <- (fmap_add_seqZ a 0 b). unfold fmap.
  change (list_fmap _ _ (Z.add a)) with (map (Z.add a)). rewrite map_map. apply map_ext. intros i.
  rewrite Zplus_mod_idemp_l, Z.add_assoc. reflexivity.
Qed.

Lemma ring_straight {A} `{!Inhabited A} cap (pool : list A) r n :
  0 <= r -> 0 <= n -> r + n <= cap <= Z.of_nat (length pool) ->
  ring cap pool r n = take (Z.to_nat n) (drop (Z.to_nat r) pool).
Proof.
  intros Hr Hn Hc. apply list_eq. intros i. unfold ring. rewrite list_lookup_fmap.
  destruct (decide (i < Z.to_nat n)%nat) as [Hi|Hi].
  - rewrite lookup_seqZ_lt, lookup_take, decide_True, lookup_drop by lia. cbn. rewrite Z.mod_small by lia.
    replace (Z.to_nat (r + (0 + Z.of_nat i))) with (Z.to_nat r + i)%nat by lia.
    rewrite list_lookup_lookup_total_lt by lia. reflexivity.
  - rewrite lookup_seqZ_ge, lookup_take, decide_False by lia. reflexivity.
Qed.

Lemma copy_out_eq i n rb :
  0 <= i -> 0 <= n -> i + n <= Z.of_nat (length (rb_buffer rb)) ->
  copy_out i n rb = Some (take (Z.to_nat n) (drop (Z.to_nat i) (rb_buffer rb)), rb).
Proof.
  intros Hi Hn He. unfold copy_out. erewrite bind_eq by reflexivity.
  erewrite bind_eq by (apply assert_eq; rewrite !andb_true_iff; rewrite !Z.leb_le; lia). reflexivity.
Qed.

(** The state after [n] bytes were read. *)
Definition consumed (n : Z) (rb : ringbuffer) : ringbuffer :=
  let k := rb_size rb - rb_read_index rb in
  if n <? k then rb <| rb_read_index := rb_read_index rb + n |>
  else rb <| rb_read_mirror ::= negb |> <| rb_read_index := n - k |>.

Lemma consumed_rep cap q rb n :
  rb_rep cap q rb -> 0 <= n <= Z.of_nat (length q) ->
  rb_rep cap (drop (Z.to_nat n) q) (consumed n rb) /\
  take (Z.to_nat n) q = ring cap (rb_buffer rb) (rb_read_index rb) n.
Proof.
  intros R Hn. pose proof (write_index_cases _ _ _ R) as W. cbv zeta in W. destruct R.
  set (r := rb_read_index rb) in *. set (m := Z.of_nat (length q) - n) in *.
  assert (ring cap (rb_buffer rb) r n ++ ring cap (rb_buffer rb) ((r + n) mod cap) m = q) as Hq.
  { rewrite <- ring_app by lia. replace (n + m) with (Z.of_nat (length q)) by lia. exact rr_bytes0. }
  assert (length (ring cap (rb_buffer rb) r n) = Z.to_nat n) as Hl.
  { pose proof (ring_length cap (rb_buffer rb) r n ltac:(lia)). lia. }
  assert (drop (Z.to_nat n) q = ring cap (rb_buffer rb) ((r + n) mod cap) m) as Hd.
  { rewrite <- Hq at 1. rewrite <- Hl. apply drop_app_length. }
  split; [|rewrite <- Hq at 1; rewrite <- Hl; apply take_app_length].
  assert (Z.of_nat (length (drop (Z.to_nat n) q)) = m) as Hm by (rewrite length_drop; lia).
  unfold consumed. rewrite rr_size0. fold r. destruct (Z.ltb_spec n (cap - r)) as [Hlt|Hge].
  - split; cbn; rewrite ?Hm; fold r; try assumption; try lia.
    + rewrite rr_write0. f_equal. lia.
    + rewrite rr_mirror0. do 2 f_equal. lia.
    + rewrite Hd, Z.mod_small by lia. reflexivity.
  - assert ((r + n) mod cap = n - (cap - r)) as Hmod by (symmetry; apply (Z.mod_unique_pos _ _ 1); lia).
    split; cbn; rewrite ?Hm; try assumption; try lia.
    + destruct W as [(Hx & _)|(_ & -> & _)]; [lia|]. rewrite Z.mod_small; lia.
    + destruct W as [(Hx & _)|(_ & _ & ->)]; [lia|]. rewrite (proj2 (Z.leb_gt _ _)) by lia. symmetry. apply xorb_false_r.
    + rewrite Hd, Hmod. reflexivity.
Qed.

Lemma get_rep cap q rb length :
  rb_rep cap q rb -> 0 <= length < 2 ^ 32 ->
  let n := Z.min length (Z.of_nat (List.length q)) in
  exists rb', rt_ringbuffer_get length rb = Some ((n, take (Z.to_nat n) q), rb') /\ rb_rep cap (drop (Z.to_nat n) q) rb'.
Proof.
  intros R Hl n. unfold rt_ringbuffer_get. erewrite bind_eq by reflexivity. cbv zeta. rewrite (data_len_eq _ _ _ R).
  destruct (Z.eqb_spec (Z.of_nat (List.length q)) 0) as [E|E].
  { exists rb. assert (n = 0) as -> by lia. cbn. auto. }
  assert ((if Z.of_nat (List.length q) <? length then Z.of_nat (List.length q) else length) = n) as ->
    by (destruct (Z.ltb_spec (Z.of_nat (List.length q)) length); lia).
  destruct (consumed_rep cap q rb n R ltac:(lia)) as [R' Ht]. exists (consumed n rb). split; [|exact R'].
  clear R'. unfold consumed. destruct R. rewrite rr_size0. rewrite u32_small by lia. rewrite Ht.
  destruct (Z.ltb_spec n (cap - rb_read_index rb)) as [Hlt|Hge].
  - erewrite bind_eq by (apply copy_out_eq; lia). rewrite (ring_straight cap) by lia.
    unfold st_modify, set_field, mbind, st_bind. cbn. rewrite u31_small by lia. reflexivity.
  - set (k := cap - rb_read_index rb) in *.
    assert (ring cap (rb_buffer rb) (rb_read_index rb) n =
      ring cap (rb_buffer rb) (rb_read_index rb) k ++ ring cap (rb_buffer rb) 0 (n - k)) as ->.
    { replace n with (k + (n - k)) at 1 by lia. rewrite ring_app by lia. do 2 f_equal.
      replace (rb_read_index rb + k) with cap by lia. apply Z.mod_same. lia. }
    erewrite bind_eq by (apply copy_out_eq; lia). erewrite bind_eq by (apply copy_out_eq; lia).
    rewrite !(ring_straight cap) by lia.
    unfold st_modify, set_field, mbind, st_bind. cbn. rewrite u31_small by lia. reflexivity.
Qed.

(** rt_ringbuffer_get refines taking from a bounded queue of bytes: it
    returns as many of the oldest bytes as there are, in their order and at most
    the number asked for, and removes them.  *)
Theorem rb_get_refines cap q rb length :
  rb_rep cap q rb -> 0 <= length < 2 ^ 32 ->
  let n := Z.min length (Z.of_nat (List.length q)) in
  exists rb', rt_ringbuffer_get length rb = Some ((n, take (Z.to_nat n) q), rb') /\ rb_rep cap (drop (Z.to_nat n) q) rb'.
Proof. apply get_rep. Qed.

(** ** Writing over old data *)

(** The newest [cap] bytes. *)
Definition newest (cap : Z) (l : list Z) : list Z := drop (Z.to_nat (Z.of_nat (length l) - cap)) l.

Lemma newest_app cap q ptr :
  0 <= cap -> Z.of_nat (length q) <= cap ->
  let p := if cap <? Z.of_nat (length ptr) then drop (Z.to_nat (Z.of_nat (length ptr) - cap)) ptr else ptr in
  Z.of_nat (length p) = Z.min (Z.of_nat (length ptr)) cap /\
  newest cap (q ++ ptr) = drop (Z.to_nat (Z.of_nat (length q) + Z.of_nat (length p) - cap)) q ++ p.
Proof.
  intros Hc Hq. cbv zeta. unfold newest. rewrite length_app.
  destruct (Z.ltb_spec cap (Z.of_nat (length ptr))) as [Hlt|Hle].
  - rewrite length_drop. split; [lia|]. rewrite (drop_ge q) by lia. rewrite drop_app_ge by lia. cbn. f_equal. lia.
  - split; [lia|]. rewrite drop_app_le by lia. do 2 f_equal. lia.
Qed.

(** The state of [rb_put_force] after old data were overwritten. *)
Definition overwritten (ptr : list Z) (rb : ringbuffer) : ringbuffer :=
  let rb1 := written ptr rb in
  let wrapped := negb (Z.of_nat (length ptr) <? rb_size rb - rb_write_index rb) in
  rb1 <| rb_read_mirror ::= (fun m => if wrapped && (rb_write_index rb1 <=? rb_read_index rb1) then negb m else m) |>
      <| rb_read_index := rb_write_index rb1 |>.

Lemma overwritten_eq cap q ptr rb :
  rb_rep cap q rb -> Z.of_nat (length ptr) <= cap -> cap < Z.of_nat (length q) + Z.of_nat (length ptr) ->
  overwritten ptr rb = written ptr (consumed (Z.of_nat (length q) + Z.of_nat (length ptr) - cap) rb).
Proof.
  intros R Hp Hd. pose proof (write_index_cases _ _ _ R) as W. cbv zeta in W. destruct R.
  destruct rb as [buf rm r wm w sz]. cbn in *. subst sz. set (n := Z.of_nat (length q)) in *.
  set (len := Z.of_nat (length ptr)) in *. set (d := n + len - cap) in *.
  assert (forall b rm' rm'' r' r'' wm' w' s, rm' = rm'' -> r' = r'' ->
    mkRingbuffer b rm' r' wm' w' s = mkRingbuffer b rm'' r'' wm' w' s) as Heq by (intros * -> ->; reflexivity).
  unfold overwritten, written, consumed. cbn. fold len.
  destruct (Z.ltb_spec d (cap - r)) as [H1|H1]; cbn; destruct (Z.ltb_spec len (cap - w)) as [H2|H2]; cbn; apply Heq.
  all: cbv [set_field]; cbn; try lia; try reflexivity.
  all: destruct (Z.leb_spec (len - (cap - w)) r); (reflexivity || lia).
Qed.

(** The bytes that fit at all. *)
Definition fitting (cap : Z) (ptr : list Z) : list Z :=
  if cap <? Z.of_nat (length ptr) then drop (Z.to_nat (Z.of_nat (length ptr) - cap)) ptr else ptr.

Lemma put_force_eq cap q rb ptr :
  rb_rep cap q rb -> Z.of_nat (length ptr) < 2 ^ 32 ->
  let p := fitting cap ptr in
  rt_ringbuffer_put_force ptr rb = Some (Z.of_nat (length p),
    if cap - Z.of_nat (length q) <? Z.of_nat (length p) then overwritten p rb else written p rb).
Proof.
  intros R Hlen p. pose proof (rr_cap _ _ _ R) as Hc. pose proof (rr_room _ _ _ R) as Hroom.
  unfold rt_ringbuffer_put_force. erewrite bind_eq by reflexivity. cbv zeta. rewrite (space_len_eq _ _ _ R).
  rewrite (u32_small (rb_size rb)) by (rewrite (rr_size _ _ _ R); lia). rewrite (rr_size _ _ _ R). fold (fitting cap ptr). fold p.
  destruct (newest_app cap q ptr ltac:(lia) Hroom) as [Hp _]. fold (fitting cap ptr) in Hp. fold p in Hp.
  destruct (free_slots _ _ _ R) as [Hu Hk]. rewrite (rr_size _ _ _ R) in Hu, Hk. rewrite Hu. clear Hu.
  unfold overwritten. rewrite (rr_size _ _ _ R).
  destruct (Z.ltb_spec (Z.of_nat (length p)) (cap - rb_write_index rb)) as [Hlt|Hge]; cbn [negb andb].
  - rewrite <- bind_assoc. erewrite bind_eq by (eapply write_short_eq; [exact R|rewrite (rr_size _ _ _ R); exact Hlt]).
    destruct (cap - Z.of_nat (length q) <? Z.of_nat (length p)); reflexivity.
  - erewrite bind_eq by (eapply write_wrapped_eq; [exact R|rewrite (rr_size _ _ _ R); lia]).
    destruct (cap - Z.of_nat (length q) <? Z.of_nat (length p)); [|reflexivity]. cbn [when].
    rewrite bind_assoc. erewrite bind_eq by reflexivity. rewrite bind_assoc.
    destruct (rb_write_index (written p rb) <=? rb_read_index (written p rb)); reflexivity.
Qed.

(** rt_ringbuffer_put_force keeps the newest bytes: afterwards the buffer
    holds the last ones, up to its size, of what it held and was given.  *)
Theorem rb_put_force_refines cap q rb ptr :
  rb_rep cap q rb -> Z.of_nat (length ptr) < 2 ^ 32 ->
  exists rb', rt_ringbuffer_put_force ptr rb = Some (Z.min (Z.of_nat (length ptr)) cap, rb') /\
    rb_rep cap (newest cap (q ++ ptr)) rb'.
Proof.
  intros R Hlen. pose proof (rr_cap _ _ _ R) as Hc. pose proof (rr_room _ _ _ R) as Hroom.
  destruct (newest_app cap q ptr ltac:(lia) Hroom) as [Hp Hnew]. rewrite Hnew, <- Hp. fold (fitting cap ptr) in *.
  eexists. split; [apply (put_force_eq cap q); assumption|]. set (p := fitting cap ptr) in *.
  set (d := Z.of_nat (length q) + Z.of_nat (length p) - cap) in *.
  destruct (Z.ltb_spec (cap - Z.of_nat (length q)) (Z.of_nat (length p))).
  - rewrite (overwritten_eq cap q) by (assumption || lia).
    destruct (consumed_rep cap q rb d R) as [R' _]; [lia|]. apply written_rep; [exact R'|]. rewrite length_drop. lia.
  - replace (Z.to_nat d) with 0%nat by lia. rewrite drop_0. apply written_rep; [exact R|lia].
Qed.

(** ** Single bytes *)

Lemma copy_in_nil rb : copy_in 0 [] rb = Some (tt, rb).
Proof. rewrite copy_in_eq by (cbn; lia). destruct rb. reflexivity. Qed.

Lemma put_byte_eq cap q ch rb :
  rb_rep cap q rb ->
  put_byte ch rb = Some (negb (1 <? rb_size rb - rb_write_index rb), written [ch] rb).
Proof.
  intros R. destruct (free_slots _ _ _ R) as [_ Hk]. pose proof (rr_cap _ _ _ R). pose proof (rr_pool _ _ _ R).
  pose proof (Z.mod_pos_bound (rb_read_index rb + Z.of_nat (length q)) cap ltac:(lia)) as Hw. rewrite <- (rr_write _ _ _ R) in Hw.
  rewrite (rr_size _ _ _ R) in *. unfold put_byte, written. erewrite bind_eq by reflexivity.
  rewrite (rr_size _ _ _ R). cbn [length]. change (Z.of_nat 1) with 1.
  destruct (Z.ltb_spec 1 (cap - rb_write_index rb)) as [Hlt|Hge].
  - rewrite (proj2 (Z.eqb_neq _ _)) by lia. erewrite bind_eq by (apply copy_in_eq; cbn; lia).
    unfold mbind, st_bind, st_modify, set_field. cbn. rewrite u31_small by lia. reflexivity.
  - rewrite (proj2 (Z.eqb_eq _ _)) by lia. erewrite bind_eq by (apply copy_in_eq; cbn; lia).
    replace (cap - rb_write_index rb) with 1 by lia. reflexivity.
Qed.

Lemma put_one_eq cap q ch rb :
  rb_rep cap q rb -> rt_ringbuffer_put [ch] rb =
    if rt_ringbuffer_space_len rb =? 0 then Some (0, rb) else Some (1, written [ch] rb).
Proof.
  intros R. pose proof (rr_room _ _ _ R). unfold rt_ringbuffer_put. erewrite bind_eq by reflexivity. cbv zeta.
  rewrite (space_len_eq _ _ _ R). destruct (Z.eqb_spec (cap - Z.of_nat (length q)) 0); [reflexivity|].
  assert ((cap - Z.of_nat (length q) <? Z.of_nat (length [ch])) = false) as -> by (apply Z.ltb_ge; cbn [length]; lia).
  destruct (free_slots _ _ _ R) as [-> Hk].
  destruct (Z.ltb_spec (Z.of_nat (length [ch])) (rb_size rb - rb_write_index rb)) as [Hlt|Hge].
  - rewrite <- bind_assoc. erewrite bind_eq by (eapply write_short_eq; eassumption). reflexivity.
  - erewrite bind_eq by (eapply write_wrapped_eq; [exact R|cbn in *; lia]). reflexivity.
Qed.

Lemma status_full cap q rb : rb_rep cap q rb -> rt_ringbuffer_status rb = RT_RINGBUFFER_FULL <-> Z.of_nat (length q) = cap.
Proof.
  intros R. pose proof (write_index_cases _ _ _ R) as W. cbv zeta in W. destruct R. unfold rt_ringbuffer_status.
  destruct W as [(Hlt & -> & ->)|(Hge & -> & ->)].
  - rewrite Bool.eqb_reflx. destruct (_ =? _); split; (discriminate || lia).
  - destruct (Z.eqb_spec (rb_read_index rb) (rb_read_index rb + Z.of_nat (length q) - cap)).
    + destruct (rb_read_mirror rb); cbn; split; (reflexivity || lia).
    + split; [discriminate|lia].
Qed.

Lemma getchar_get cap q rb :
  rb_rep cap q rb ->
  rt_ringbuffer_getchar rb = '((_, bytes), rb') ← rt_ringbuffer_get 1 rb; Some (head bytes, rb').
Proof.
  intros R. pose proof (rr_cap _ _ _ R) as Hc. pose proof (rr_read _ _ _ R) as Hr. pose proof (rr_pool _ _ _ R) as Hp.
  unfold rt_ringbuffer_getchar, rt_ringbuffer_get, load. erewrite bind_eq by reflexivity.
  erewrite (bind_eq st_get) by reflexivity. cbv zeta. rewrite (rr_size _ _ _ R).
  destruct (Z.eqb_spec (rt_ringbuffer_data_len rb) 0) as [E|E]; [reflexivity|].
  rewrite (data_len_eq _ _ _ R) in *.
  assert ((Z.of_nat (length q) <? 1) = false) as -> by (apply Z.ltb_ge; lia).
  rewrite (u32_small (cap - rb_read_index rb)) by lia.
  destruct (lookup_lt_is_Some_2 (rb_buffer rb) (Z.to_nat (rb_read_index rb))) as [ch Hch]; [lia|].
  assert (take (Z.to_nat 1) (drop (Z.to_nat (rb_read_index rb)) (rb_buffer rb)) = [ch]) as Ht.
  { rewrite (drop_S _ ch) by exact Hch. reflexivity. }
  rewrite bind_assoc. erewrite bind_eq by reflexivity. erewrite bind_eq by (rewrite Hch; reflexivity).
  destruct (Z.ltb_spec 1 (cap - rb_read_index rb)) as [Hlt|Hge].
  - rewrite (proj2 (Z.eqb_neq _ _)) by lia.
    erewrite (bind_eq (copy_out _ _)) by (apply copy_out_eq; lia). rewrite Ht. reflexivity.
  - rewrite (proj2 (Z.eqb_eq _ _)) by lia. replace (cap - rb_read_index rb) with 1 by lia.
    erewrite (bind_eq (copy_out _ _)) by (apply copy_out_eq; lia).
    erewrite (bind_eq (copy_out _ _)) by (apply copy_out_eq; lia). rewrite Ht. reflexivity.
Qed.

(** The byte versions agree with the block versions on one byte: putchar
    with put, putchar_force with put_force and getchar with get.  *)
Theorem rb_char_versions cap q rb ch :
  rb_rep cap q rb ->
  rt_ringbuffer_putchar ch rb = rt_ringbuffer_put [ch] rb /\
  rt_ringbuffer_putchar_force ch rb = rt_ringbuffer_put_force [ch] rb /\
  rt_ringbuffer_getchar rb = '((_, bytes), rb') ← rt_ringbuffer_get 1 rb; Some (head bytes, rb').
Proof.
  intros R. pose proof (rr_room _ _ _ R) as Hroom. pose proof (rr_cap _ _ _ R) as Hc. split; [|split].
  - rewrite (put_one_eq cap q) by exact R. unfold rt_ringbuffer_putchar. erewrite bind_eq by reflexivity.
    destruct (rt_ringbuffer_space_len rb =? 0); [reflexivity|]. erewrite bind_eq by (eapply put_byte_eq; exact R). reflexivity.
  - rewrite (put_force_eq cap q) by (exact R || (cbn; lia)).
    assert (fitting cap [ch] = [ch]) as -> by (unfold fitting; rewrite (proj2 (Z.ltb_ge _ _)); [reflexivity|cbn; lia]).
    unfold rt_ringbuffer_putchar_force. erewrite bind_eq by reflexivity. cbv zeta.
    erewrite bind_eq by (eapply put_byte_eq; exact R). pose proof (status_full cap q rb R) as Hf. cbn [length].
    change (Z.of_nat 1) with 1.
    destruct (Z.ltb_spec (cap - Z.of_nat (length q)) 1) as [Hlt|Hge].
    + rewrite (proj2 Hf) by lia. unfold overwritten, written. rewrite (rr_size _ _ _ R). cbn [length].
      change (Z.of_nat 1) with 1. destruct (free_slots _ _ _ R) as [_ Hk]. rewrite (rr_size _ _ _ R) in Hk.
      destruct (Z.ltb_spec 1 (cap - rb_write_index rb)); [reflexivity|]. pose proof (rr_read _ _ _ R). cbn [negb andb].
      unfold mbind, st_bind, st_modify, set_field. cbn. rewrite (proj2 (Z.leb_le _ _)) by lia. reflexivity.
    + destruct (rt_ringbuffer_status rb); try reflexivity. pose proof (proj1 Hf eq_refl). lia.
  - apply (getchar_get cap q), R.
Qed.

(** Single bytes on the queue. *)
Lemma getchar_rep cap q rb : rb_rep cap q rb ->
  exists rb', rt_ringbuffer_getchar rb = Some (head q, rb') /\ rb_rep cap (tail q) rb'.
Proof.
  intros R. rewrite (getchar_get cap q) by exact R.
  destruct (get_rep cap q rb 1 R ltac:(lia)) as (rb' & -> & R'). exists rb'. cbn [mbind option_bind].
  destruct q as [|c q]; [split; [reflexivity|exact R']|].
  replace (Z.to_nat (Z.min 1 (Z.of_nat (length (c :: q))))) with 1%nat in * by (cbn; lia). split; [reflexivity|exact R'].
Qed.

Lemma putchar_rep cap q rb ch : rb_rep cap q rb ->
  exists n rb', rt_ringbuffer_putchar ch rb = Some (n, rb') /\
    rb_rep cap (if Z.of_nat (length q) <? cap then q ++ [ch] else q) rb'.
Proof.
  intros R. assert (rt_ringbuffer_putchar ch rb = rt_ringbuffer_put [ch] rb) as ->.
  { rewrite (put_one_eq cap q) by exact R. unfold rt_ringbuffer_putchar. erewrite bind_eq by reflexivity.
    destruct (rt_ringbuffer_space_len rb =? 0); [reflexivity|]. erewrite bind_eq by (eapply put_byte_eq; exact R). reflexivity. }
  destruct (put_rep cap q rb [ch] R) as (rb' & -> & R'). do 2 eexists. split; [reflexivity|]. pose proof (rr_room _ _ _ R).
  destruct (Z.ltb_spec (Z.of_nat (length q)) cap).
  - replace (Z.to_nat (Z.min (Z.of_nat (length [ch])) (cap - Z.of_nat (length q)))) with 1%nat in R' by (cbn; lia). exact R'.
  - replace (Z.to_nat (Z.min (Z.of_nat (length [ch])) (cap - Z.of_nat (length q)))) with 0%nat in R' by (cbn; lia).
    cbn [take] in R'. rewrite app_nil_r in R'. exact R'.
Qed.

(** ** Init, and there and back *)

Lemma init_rep pool size :
  8 <= size < 2 ^ 31 -> size <= Z.of_nat (length pool) ->
  exists rb, rt_ringbuffer_init pool size = Some rb /\ rb_rep (RT_ALIGN_DOWN size RT_ALIGN_SIZE) [] rb.
Proof.
  intros Hs Hp. unfold RT_ALIGN_SIZE. pose proof (RT_ALIGN_DOWN_8 size ltac:(lia)) as Ha.
  pose proof (Z.mod_pos_bound size 8 ltac:(lia)). pose proof (Z.mod_le size 8 ltac:(lia) ltac:(lia)).
  assert (8 <= RT_ALIGN_DOWN size 8 <= size) as Hr.
  { rewrite Ha. pose proof (Z.div_mod size 8 ltac:(lia)). pose proof (Z.div_le_lower_bound size 8 1 ltac:(lia) ltac:(lia)). lia. }
  eexists. split; [unfold rt_ringbuffer_init; rewrite (proj2 (Z.ltb_lt _ _)) by lia; reflexivity|].
  unfold RT_ALIGN_SIZE. split; cbn; try lia; first [rewrite Z.mod_0_l by lia; reflexivity|
    rewrite (proj2 (Z.leb_gt _ _)) by lia; reflexivity|reflexivity].
Qed.

Lemma reset_rep cap q rb : rb_rep cap q rb -> exists rb', rt_ringbuffer_reset rb = Some (tt, rb') /\ rb_rep cap [] rb'.
Proof.
  intros []. eexists. split; [reflexivity|]. split; cbn; try assumption; try lia; first [rewrite Z.mod_0_l by lia; reflexivity|
    rewrite (proj2 (Z.leb_gt _ _)) by lia; reflexivity|reflexivity].
Qed.

(** What is put into a fresh ring buffer and fits comes out again: get
    returns the same bytes and the buffer is empty afterwards, as it is after
    rt_ringbuffer_reset.  *)
Theorem rb_roundtrip pool size bs :
  8 <= size < 2 ^ 31 -> size <= Z.of_nat (length pool) ->
  Z.of_nat (length bs) <= RT_ALIGN_DOWN size RT_ALIGN_SIZE ->
  exists rb rb1 rb2 rb3, rt_ringbuffer_init pool size = Some rb /\
    rt_ringbuffer_put bs rb = Some (Z.of_nat (length bs), rb1) /\
    rt_ringbuffer_get (Z.of_nat (length bs)) rb1 = Some ((Z.of_nat (length bs), bs), rb2) /\
    rt_ringbuffer_data_len rb2 = 0 /\
    rt_ringbuffer_reset rb1 = Some (tt, rb3) /\ rt_ringbuffer_data_len rb3 = 0.
Proof.
  intros Hs Hp Hb. destruct (init_rep pool size Hs Hp) as (rb & Hi & R). pose proof (rr_cap _ _ _ R) as Hc.
  destruct (put_rep _ _ _ bs R) as (rb1 & H1 & R1). cbn [length] in *.
  replace (Z.min (Z.of_nat (length bs)) (RT_ALIGN_DOWN size RT_ALIGN_SIZE - Z.of_nat 0)) with (Z.of_nat (length bs)) in * by lia.
  rewrite Nat2Z.id, take_ge in R1 by lia. cbn [app] in R1.
  destruct (get_rep _ _ _ (Z.of_nat (length bs)) R1 ltac:(lia)) as (rb2 & H2 & R2).
  rewrite Z.min_id, Nat2Z.id, take_ge in H2 by lia. rewrite Z.min_id, Nat2Z.id, drop_ge in R2 by lia.
  destruct (reset_rep _ _ _ R1) as (rb3 & H3 & R3). exists rb, rb1, rb2, rb3.
  rewrite (data_len_eq _ _ _ R2), (data_len_eq _ _ _ R3). auto 10.
Qed.

(** ** Examples *)

(** A buffer of 16 bytes, as the game's, in which 12 bytes were written and 10
    of them read. *)
Definition rb16 : ringbuffer := default (mkRingbuffer [] false 0 false 0 0) (rt_ringbuffer_init (replicate 16 0) 16).
Definition rb_run {A} (m : RB A) (rb : ringbuffer) : ringbuffer := match m rb with Some (_, rb') => rb' | None => rb end.
Definition rb_used : ringbuffer := rb_run (rt_ringbuffer_get 10) (rb_run (rt_ringbuffer_put (seqZ 1 12)) rb16).

Lemma rb_used_rep : rb_rep 16 [11; 12] rb_used.
Proof. split; vm_compute; first [reflexivity|discriminate|split; first [reflexivity|discriminate]]. Qed.

Lemma rb_put_refines_witness :
  rb_rep 16 [11; 12] rb_used /\
  exists rb', rt_ringbuffer_put (seqZ 1 20) rb_used = Some (14, rb') /\ rb_rep 16 ([11; 12] ++ seqZ 1 14) rb'.
Proof. split; [exact rb_used_rep|]. exact (rb_put_refines 16 [11; 12] rb_used (seqZ 1 20) rb_used_rep). Defined.

Lemma rb_get_refines_witness :
  rb_rep 16 [11; 12] rb_used /\
  exists rb', rt_ringbuffer_get 5 rb_used = Some ((2, [11; 12]), rb') /\ rb_rep 16 [] rb'.
Proof.
  split; [exact rb_used_rep|]. apply (rb_get_refines 16 [11; 12] rb_used 5 rb_used_rep). lia.
Defined.

Lemma rb_put_force_refines_witness :
  rb_rep 16 [11; 12] rb_used /\
  exists rb', rt_ringbuffer_put_force (seqZ 1 15) rb_used = Some (15, rb') /\ rb_rep 16 (12 :: seqZ 1 15) rb'.
Proof.
  split; [exact rb_used_rep|]. apply (rb_put_force_refines 16 [11; 12] rb_used (seqZ 1 15) rb_used_rep).
  vm_compute. reflexivity.
Defined.

Lemma rb_char_versions_witness :
  rb_rep 16 [11; 12] rb_used /\ rt_ringbuffer_putchar 7 rb_used = rt_ringbuffer_put [7] rb_used.
Proof. split; [exact rb_used_rep|]. apply (rb_char_versions 16 [11; 12] rb_used 7 rb_used_rep). Defined.

Lemma rb_roundtrip_witness :
  exists rb rb1 rb2, rt_ringbuffer_init (replicate 16 0) 16 = Some rb /\ rt_ringbuffer_put (seqZ 1 9) rb = Some (9, rb1) /\
    rt_ringbuffer_get 9 rb1 = Some ((9, seqZ 1 9), rb2).
Proof.
  destruct (rb_roundtrip (replicate 16 0) 16 (seqZ 1 9)) as (rb & rb1 & rb2 & _ & Hi & H1 & H2 & _).
  - lia.
  - vm_compute. discriminate.
  - vm_compute. discriminate.
  - exists rb, rb1, rb2. auto.
Defined.
