(* ===== verification/OxRules.v ===== *)
(** * The rules of the OX game

    An abstract game is the list of the moves made, in order; X makes the first
    one.  The operations of OxGame.v on the board are shown to follow its rules:
    [game_rep ms g] says that the program's game [g] is the abstract game [ms]. *)

From S2P Require Import Prelude OxGame.
Open Scope rt_scope.

(** ** Abstract games *)

Abbreviation pos := (Z * Z)%type.

Definition lines : list (list pos) :=
  map (fun y => [(0, y); (1, y); (2, y)]) [0; 1; 2] ++
  map (fun x => [(x, 0); (x, 1); (x, 2)]) [0; 1; 2] ++
  [[(0, 0); (1, 1); (2, 2)]; [(2, 0); (1, 1); (0, 2)]].

(** The player of the [i]th move and the mark in a cell: 1 X, 2 O, 0 none. *)
Definition player_of (i : nat) : Z := if Nat.even i then 1 else 2.
Definition mark_at (ms : list pos) (c : pos) : Z :=
  match list_find (fun d => d = c) ms with Some (i, _) => player_of i | None => 0 end.

Definition has_line (p : Z) (ms : list pos) : bool :=
  existsb (fun l => forallb (fun c => mark_at ms c =? p) l) lines.

Definition status (ms : list pos) : GameState :=
  if has_line 1 ms then GAME_X_WIN else if has_line 2 ms then GAME_O_WIN
  else if (9 <=? length ms)%nat then GAME_DRAW else GAME_PLAYING.

Definition legal (ms : list pos) (c : pos) : Prop :=
  in_board (fst c) (snd c) = true /\ ¬ c ∈ ms /\ status ms = GAME_PLAYING.

(** A play of the game, and what may happen to it: a move or a new game. *)
Inductive valid : list pos -> Prop :=
  | valid_nil : valid []
  | valid_snoc ms c : valid ms -> legal ms c -> valid (ms ++ [c]).
Inductive ttt_step (ms : list pos) : list pos -> Prop :=
  | ttt_move c : legal ms c -> ttt_step ms (ms ++ [c])
  | ttt_new : ttt_step ms [].

(** ** Marks *)

Lemma player_cases i : player_of i = 1 \/ player_of i = 2.
Proof. unfold player_of. destruct (Nat.even i); auto. Qed.

Lemma mark_snoc ms c d : c ∉ ms -> mark_at (ms ++ [c]) d = if decide (d = c) then player_of (length ms) else mark_at ms d.
Proof.
  intros Hc. unfold mark_at. destruct (decide (d = c)) as [->|Hne].
  - assert (list_find (fun d => d = c) (ms ++ [c]) = Some (length ms, c)) as ->; [|reflexivity].
    apply list_find_app_Some. right. split; [lia|]. split.
    + apply list_find_None, Forall_forall. intros d Hd ->. contradiction.
    + rewrite Nat.sub_diag. cbn. rewrite decide_True by reflexivity. reflexivity.
  - destruct (list_find (fun x => x = d) ms) as [[i e]|] eqn:E.
    + assert (list_find (fun x => x = d) (ms ++ [c]) = Some (i, e)) as ->; [|reflexivity]. apply list_find_app_Some. auto.
    + assert (list_find (fun x => x = d) (ms ++ [c]) = None) as ->; [|reflexivity].
      apply list_find_None, Forall_app. apply list_find_None in E. split; [exact E|].
      constructor; [congruence|constructor].
Qed.

Lemma mark_none ms c : mark_at ms c = 0 <-> c ∉ ms.
Proof.
  unfold mark_at. destruct (list_find _ ms) as [[i e]|] eqn:E.
  - apply list_find_Some in E as (E & -> & _). pose proof (player_cases i). split; [lia|].
    intros Hn. exfalso. apply Hn. eapply list_elem_of_lookup_2, E.
  - apply list_find_None in E. rewrite Forall_forall in E. split; [|reflexivity]. intros _ H. exact (E c H eq_refl).
Qed.

Lemma mark_cases ms c : mark_at ms c = 0 \/ mark_at ms c = 1 \/ mark_at ms c = 2.
Proof. unfold mark_at. destruct (list_find _ ms) as [[i e]|]; [|auto]. right. apply player_cases. Qed.

Lemma has_line_spec p ms :
  has_line p ms = true <-> exists l, l ∈ lines /\ forall c, c ∈ l -> mark_at ms c = p.
Proof.
  unfold has_line. rewrite existsb_exists. apply exist_proper. intros l. rewrite list_elem_of_In, forallb_forall.
  apply and_iff_compat_l, forall_proper. intros c. rewrite list_elem_of_In, Z.eqb_eq. reflexivity.
Qed.

(** A move does not complete a line of the other player. *)
Lemma other_line ms c p : c ∉ ms -> p <> player_of (length ms) -> has_line p (ms ++ [c]) = true -> has_line p ms = true.
Proof.
  intros Hc Hp (l & Hl & Hm)%has_line_spec. apply has_line_spec. exists l. split; [exact Hl|]. intros d Hd.
  specialize (Hm d Hd). rewrite mark_snoc in Hm by exact Hc. destruct (decide (d = c)); [congruence|exact Hm].
Qed.

Lemma status_playing ms : status ms = GAME_PLAYING <-> has_line 1 ms = false /\ has_line 2 ms = false /\ (length ms < 9)%nat.
Proof.
  unfold status. destruct (has_line 1 ms), (has_line 2 ms), (Nat.leb_spec 9 (length ms)); split;
    try discriminate; try (intros (? & ? & ?)); try discriminate; try reflexivity; (lia || auto).
Qed.

Lemma one_winner ms : valid ms -> has_line 1 ms = true -> has_line 2 ms = true -> False.
Proof.
  intros Hv. destruct Hv as [|ms c Hv (_ & Hc & (H1 & H2 & _)%status_playing)]; [discriminate|]. intros W1 W2.
  destruct (player_cases (length ms)) as [E|E].
  - apply other_line in W2; [congruence|exact Hc|lia].
  - apply other_line in W1; [congruence|exact Hc|lia].
Qed.

Lemma valid_length ms : valid ms -> (length ms <= 9)%nat.
Proof.
  intros []; [cbn; lia|]. destruct H0 as (_ & _ & (_ & _ & ?)%status_playing). rewrite length_app. cbn. lia.
Qed.

Lemma valid_cells ms c : valid ms -> c ∈ ms -> in_board (fst c) (snd c) = true.
Proof.
  induction 1 as [|ms d Hv IH (Hd & _)]; [intros H; destruct (not_elem_of_nil _ H)|].
  intros [H|H%list_elem_of_singleton]%elem_of_app; [auto|congruence].
Qed.

(** ** The program's game *)

Record game_rep (ms : list pos) (g : OXGame) : Prop := {
  gr_valid : valid ms;
  gr_board : length (board g) = 9%nat;
  gr_cell : forall x y, in_board x y = true -> cell g x y = mark_at ms (x, y);
  gr_steps : total_steps g = Z.of_nat (length ms);
  gr_player : current_player g = Z.of_nat (length ms) mod 2;
  gr_state : state g = status ms;
  gr_cursor : in_board (cursor_x g) (cursor_y g) = true;
  gr_name_x : length (name (player_x g)) = NAME_SIZE;
  gr_name_o : length (name (player_o g)) = NAME_SIZE;
}.

Lemma player_current i : player_of i = Z.of_nat i mod 2 + 1.
Proof.
  unfold player_of. destruct (Nat.even i) eqn:E.
  - apply Nat.even_spec in E as [k ->]. rewrite Nat2Z.inj_mul, Z.mul_comm, Z.mod_mul by lia. reflexivity.
  - assert (Nat.odd i = true) as [k ->]%Nat.odd_spec by (unfold Nat.odd; rewrite E; reflexivity).
    replace (Z.of_nat (2 * k + 1)) with (1 + Z.of_nat k * 2) by lia. rewrite Z.mod_add by lia. reflexivity.
Qed.

(** The first line that is complete decides. *)
Definition line_result (m : pos -> Z) (l : list pos) : option GameState :=
  match l with [a; b; c] => winning_line (m a) (m b) (m c) | _ => None end.
Definition line_won (m : pos -> Z) (p : Z) (l : list pos) : bool := forallb (fun c => m c =? p) l.

Lemma first_line (m : pos -> Z) (ls : list (list pos)) :
  (forall c, m c = 0 \/ m c = 1 \/ m c = 2) ->
  (forall l, l ∈ ls -> exists a b c, l = [a; b; c]) ->
  let r := first_of (map (line_result m) ls) in
  r = Some GAME_X_WIN /\ existsb (line_won m 1) ls = true \/
  r = Some GAME_O_WIN /\ existsb (line_won m 2) ls = true \/
  r = None /\ existsb (line_won m 1) ls = false /\ existsb (line_won m 2) ls = false.
Proof.
  intros Hm. cbv zeta. induction ls as [|l ls IH]; intros Hl; [auto|].
  destruct (Hl l) as (a & b & c & ->); [left|]. cbn [map first_of existsb line_result line_won forallb].
  specialize (IH ltac:(intros l' H; apply Hl; right; exact H)). unfold winning_line.
  destruct (Hm a) as [-> |[-> | ->]], (Hm b) as [-> |[-> | ->]], (Hm c) as [-> |[-> | ->]]; cbn; auto.
Qed.

Lemma lines_of_three l : l ∈ lines -> exists a b c, l = [a; b; c].
Proof.
  intros H. assert (Forall (fun l : list pos => length l = 3%nat) lines) as F by (repeat constructor).
  rewrite Forall_forall in F. specialize (F l H). destruct l as [|a [|b [|c []]]]; (discriminate || eauto).
Qed.

Lemma lines_in_board l x y : l ∈ lines -> (x, y) ∈ l -> in_board x y = true.
Proof.
  intros Hl Hc. assert (Forall (Forall (fun c : pos => in_board (fst c) (snd c) = true)) lines) as F by (repeat constructor).
  rewrite Forall_forall in F. specialize (F l Hl). rewrite Forall_forall in F. exact (F (x, y) Hc).
Qed.

Lemma check_win_status ms g :
  (forall x y, in_board x y = true -> cell g x y = mark_at ms (x, y)) ->
  total_steps g = Z.of_nat (length ms) -> (has_line 1 ms = true -> has_line 2 ms = true -> False) ->
  check_win g = status ms.
Proof.
  intros Hc Hs Hone. unfold check_win. cbn [map app]. rewrite !Hc by reflexivity.
  assert ((9 <=? total_steps g) = (9 <=? length ms)%nat) as ->.
  { rewrite Hs. apply eq_true_iff_eq. rewrite Z.leb_le, Nat.leb_le. lia. }
  pose proof (first_line (mark_at ms) lines (mark_cases ms) lines_of_three) as F. cbv zeta in F.
  change (match first_of (map (line_result (mark_at ms)) lines) with
    Some s => s | None => if (9 <=? length ms)%nat then GAME_DRAW else GAME_PLAYING end = status ms).
  unfold status. change (existsb (line_won (mark_at ms) ?p) lines) with (has_line p ms) in F.
  destruct F as [[-> ->]|[[-> E]|(-> & -> & ->)]]; [reflexivity| |reflexivity].
  rewrite E. destruct (has_line 1 ms); [destruct (Hone eq_refl E)|reflexivity].
Qed.

(** ** The operations *)

Section Operations.
Context (ms : list pos) (g : OXGame) (R : game_rep ms g).

Lemma cursor_bounds : 0 <= cursor_x g < 3 /\ 0 <= cursor_y g < 3.
Proof. pose proof (gr_cursor _ _ R) as H. unfold in_board in H. bool_to_prop. lia. Qed.

(** What changes only the cursor and the flag. *)
Lemma moved_rep x y b : in_board x y = true -> game_rep ms (g <| cursor_x := x |> <| cursor_y := y |> <| state_changed := b |>).
Proof. destruct R. intros H. split; assumption. Qed.

Lemma cursor_in x y : 0 <= x < 3 -> 0 <= y < 3 -> in_board x y = true.
Proof. intros. unfold in_board. rewrite !andb_true_iff, !Z.leb_le, !Z.ltb_lt. lia. Qed.

Lemma move_left_rep : exists g', move_left g = Some (tt, g') /\
  game_rep ms g' /\ cursor_x g' = (cursor_x g - 1) mod 3 /\ cursor_y g' = cursor_y g.
Proof.
  pose proof cursor_bounds as [Hx Hy]. eexists. split; [reflexivity|].
  assert ((if cursor_x g =? 0 then 2 else u8 (cursor_x g - 1)) = (cursor_x g - 1) mod 3) as E.
  { assert (cursor_x g = 0 \/ cursor_x g = 1 \/ cursor_x g = 2) as [-> |[-> | ->]] by lia; reflexivity. }
  split; [|split; [exact E|reflexivity]]. apply (moved_rep (if cursor_x g =? 0 then 2 else u8 (cursor_x g - 1)) (cursor_y g) true).
  rewrite E. apply cursor_in; [apply Z.mod_pos_bound; lia|lia].
Qed.

Lemma move_right_rep : exists g', move_right g = Some (tt, g') /\
  game_rep ms g' /\ cursor_x g' = (cursor_x g + 1) mod 3 /\ cursor_y g' = cursor_y g.
Proof.
  pose proof cursor_bounds as [Hx Hy]. pose proof (Z.mod_pos_bound (cursor_x g + 1) 3 ltac:(lia)).
  assert (u8 ((cursor_x g + 1) mod 3) = (cursor_x g + 1) mod 3) as E by (apply u8_small; lia).
  eexists. split; [reflexivity|]. split; [|split; [exact E|reflexivity]].
  apply (moved_rep (u8 ((cursor_x g + 1) mod 3)) (cursor_y g) true). rewrite E. apply cursor_in; lia.
Qed.

Lemma move_down_rep : exists g', move_down g = Some (tt, g') /\
  game_rep ms g' /\ cursor_x g' = cursor_x g /\ cursor_y g' = (cursor_y g + 1) mod 3.
Proof.
  pose proof cursor_bounds as [Hx Hy]. pose proof (Z.mod_pos_bound (cursor_y g + 1) 3 ltac:(lia)).
  assert ((if cursor_y g <? 2 then u8 (cursor_y g + 1) else 0) = (cursor_y g + 1) mod 3) as E.
  { assert (cursor_y g = 0 \/ cursor_y g = 1 \/ cursor_y g = 2) as [-> |[-> | ->]] by lia; reflexivity. }
  eexists. split; [reflexivity|]. split; [|split; [reflexivity|exact E]].
  apply (moved_rep (cursor_x g) (if cursor_y g <? 2 then u8 (cursor_y g + 1) else 0) true).
  rewrite E. apply cursor_in; lia.
Qed.

Lemma move_up_rep : exists g', move_up g = Some (tt, g') /\
  game_rep ms g' /\ cursor_x g' = cursor_x g /\ cursor_y g' = (cursor_y g - 1) mod 3.
Proof.
  pose proof cursor_bounds as [Hx Hy]. pose proof (Z.mod_pos_bound (cursor_y g - 1) 3 ltac:(lia)).
  assert ((if cursor_y g =? 0 then 2 else u8 (cursor_y g - 1)) = (cursor_y g - 1) mod 3) as E.
  { assert (cursor_y g = 0 \/ cursor_y g = 1 \/ cursor_y g = 2) as [-> |[-> | ->]] by lia; reflexivity. }
  eexists. split; [reflexivity|]. split; [|split; [reflexivity|exact E]].
  apply (moved_rep (cursor_x g) (if cursor_y g =? 0 then 2 else u8 (cursor_y g - 1)) true).
  rewrite E. apply cursor_in; lia.
Qed.

(** The cell under the cursor can be taken. *)
Definition placeable : bool :=
  (cell g (cursor_x g) (cursor_y g) =? 0) && bool_decide (state g = GAME_PLAYING).

Lemma placeable_legal : placeable = true <-> legal ms (cursor_x g, cursor_y g).
Proof.
  unfold placeable, legal. rewrite (gr_cell _ _ R) by apply (gr_cursor _ _ R).
  rewrite (gr_state _ _ R), andb_true_iff, Z.eqb_eq, bool_decide_eq_true, mark_none. cbn [fst snd].
  rewrite (gr_cursor _ _ R). tauto.
Qed.

(** The program's game after the move in the cell under the cursor. *)
Definition placed : OXGame :=
  let g1 := g <| board ::= <[Z.to_nat (3 * cursor_x g + cursor_y g) := u8 (current_player g + 1)]> |>
              <| total_steps ::= (fun n => u8 (n + 1)) |> in
  g1 <| state := check_win g1 |> <| current_player ::= (fun p => if p =? 0 then 1 else 0) |> <| state_changed := true |>.

Lemma place_piece_eq : place_piece g = Some (tt, if placeable then placed else g).
Proof.
  pose proof (gr_cursor _ _ R) as Hc. unfold place_piece, placeable, placed. erewrite bind_eq by reflexivity.
  erewrite bind_eq.
  2: { unfold cursor_cell. erewrite bind_eq by reflexivity. erewrite bind_eq by (apply assert_eq, Hc). reflexivity. }
  destruct (_ && _); [|reflexivity]. cbn [when].
  erewrite bind_eq.
  2: { unfold set_cursor_cell. erewrite bind_eq by reflexivity. erewrite bind_eq by (apply assert_eq, Hc). reflexivity. }
  reflexivity.
Qed.

(** Different cells of the board have different indices. *)
Lemma index_inj x y x' y' : in_board x y = true -> in_board x' y' = true ->
  Z.to_nat (3 * x + y) = Z.to_nat (3 * x' + y') -> (x, y) = (x', y').
Proof. unfold in_board. intros. bool_to_prop. f_equal; lia. Qed.

Lemma placed_cell x y : in_board x y = true -> ¬ (cursor_x g, cursor_y g) ∈ ms ->
  cell placed x y = mark_at (ms ++ [(cursor_x g, cursor_y g)]) (x, y).
Proof.
  intros Hxy Hn. pose proof cursor_bounds as [Hx Hy]. rewrite mark_snoc by exact Hn. unfold cell, placed. cbn.
  destruct (decide ((x, y) = (cursor_x g, cursor_y g))) as [[= -> ->]|Hne].
  - rewrite list_lookup_total_insert_eq by (rewrite (gr_board _ _ R); lia). rewrite player_current, (gr_player _ _ R).
    pose proof (Z.mod_pos_bound (Z.of_nat (length ms)) 2 ltac:(lia)). apply u8_small. lia.
  - rewrite list_lookup_total_insert_ne; [apply (gr_cell _ _ R), Hxy|].
    intros E. apply Hne. symmetry. apply index_inj; [apply (gr_cursor _ _ R)|exact Hxy|exact E].
Qed.

Lemma placed_rep : placeable = true -> game_rep (ms ++ [(cursor_x g, cursor_y g)]) placed.
Proof.
  intros Hl%placeable_legal. pose proof Hl as (Hin & Hn & (H1 & H2 & Hlen)%status_playing).
  assert (valid (ms ++ [(cursor_x g, cursor_y g)])) as Hv by (constructor; [apply (gr_valid _ _ R)|exact Hl]).
  assert (total_steps placed = Z.of_nat (length (ms ++ [(cursor_x g, cursor_y g)]))) as Hsteps.
  { unfold placed. cbn. rewrite (gr_steps _ _ R), length_app, u8_small by lia. cbn. lia. }
  split; try exact Hv; try exact Hsteps; try (destruct R; assumption).
  - unfold placed. cbn. rewrite length_insert. apply (gr_board _ _ R).
  - intros x y Hxy. apply placed_cell; assumption.
  - unfold placed. cbn. rewrite (gr_player _ _ R), length_app. cbn [length].
    replace (Z.of_nat (length ms + 1)) with (Z.of_nat (length ms) + 1) by lia.
    rewrite <- Zplus_mod_idemp_l. pose proof (Z.mod_pos_bound (Z.of_nat (length ms)) 2 ltac:(lia)).
    assert (Z.of_nat (length ms) mod 2 = 0 \/ Z.of_nat (length ms) mod 2 = 1) as [-> | ->] by lia; reflexivity.
  - change (state placed) with (check_win placed). apply check_win_status.
    + intros x y Hxy. apply placed_cell; assumption.
    + exact Hsteps.
    + apply one_winner, Hv.
Qed.

(** The outcome of an operation: a state of the same or of the next game. *)
Definition follows (ms' : list pos) : Prop := ms' = ms \/ ttt_step ms ms'.

Lemma place_piece_rep : exists g' ms', place_piece g = Some (tt, g') /\ game_rep ms' g' /\ follows ms'.
Proof.
  rewrite place_piece_eq. destruct placeable eqn:E.
  - do 2 eexists. split; [reflexivity|]. split; [apply placed_rep, E|]. right. constructor. apply placeable_legal, E.
  - do 2 eexists. split; [reflexivity|]. split; [exact R|]. left. reflexivity.
Qed.

Lemma reset_common_rep : exists g', reset_common g = Some (tt, g') /\ game_rep [] g'.
Proof. eexists. split; [reflexivity|]. destruct R. split; try reflexivity; try assumption; [constructor|].
  intros x y H. unfold in_board in H. bool_to_prop. apply (lookup_total_replicate_2 9). lia.
Qed.

Lemma clear_names_rep : exists g', clear_names g = Some (tt, g') /\ game_rep ms g'.
Proof. eexists. split; [reflexivity|]. destruct R. split; try assumption; reflexivity. Qed.
End Operations.

(** ** Names *)

Lemma rt_strncpy_cstr src n :
  (length (cstr src) < n)%nat -> (length (cstr src) < length src)%nat ->
  rt_strncpy src n = Some (cstr src ++ replicate (n - length (cstr src)) 0).
Proof.
  revert n. induction src as [|c src IH]; intros [|n] Hn Hz; cbn in *; try lia.
  destruct (Z.eqb_spec c 0) as [->|Hc]; [reflexivity|]. cbn in *. rewrite IH by lia. reflexivity.
Qed.

Lemma cstr_end buf : cstr (buf ++ [0]) = cstr buf.
Proof. induction buf as [|c buf IH]; [reflexivity|]. cbn. rewrite IH. reflexivity. Qed.
Lemma cstr_length s : (length (cstr s) <= length s)%nat.
Proof. induction s as [|c s IH]; [reflexivity|]. cbn. destruct (c =? 0); cbn; lia. Qed.

(** The bytes of the name after the characters [buf]. *)
Definition name_bytes (buf : list Z) : list Z := cstr buf ++ replicate (NAME_SIZE - length (cstr buf)) 0.

Lemma set_name_rep ms g for_o buf : game_rep ms g -> (length buf < NAME_SIZE)%nat ->
  exists g', set_name for_o buf g = Some (tt, g') /\ game_rep ms g' /\
    name (if for_o then player_o g' else player_x g') = name_bytes buf /\
    (if for_o then player_x g' = player_x g else player_o g' = player_o g).
Proof.
  intros R Hl. pose proof (cstr_length buf). eexists. split.
  - unfold set_name. erewrite bind_eq.
    2: { rewrite rt_strncpy_cstr by (rewrite cstr_end, ?length_app; cbn; lia). reflexivity. }
    reflexivity.
  - assert (length (name_bytes buf) = NAME_SIZE) as Hn.
    { unfold name_bytes. rewrite length_app, length_replicate. lia. }
    rewrite cstr_end. fold (name_bytes buf).
    destruct for_o; (split; [destruct R; split; assumption|split; reflexivity]).
Qed.

(** ** The two switches *)

Lemma moved_follows ms g (m : G unit) (P : OXGame -> Prop) :
  (exists g', m g = Some (tt, g') /\ game_rep ms g' /\ P g') ->
  exists g' ms', m g = Some (tt, g') /\ game_rep ms' g' /\ follows ms ms'.
Proof. intros (g' & E & R & _). exists g', ms. split; [exact E|]. split; [exact R|]. left. reflexivity. Qed.

Lemma key_switch_rep ms g pin : game_rep ms g ->
  exists g' ms', key_switch pin g = Some (tt, g') /\ game_rep ms' g' /\ follows ms ms'.
Proof.
  intros R. unfold key_switch.
  destruct (pin =? BUTTON_LEFT); [eapply moved_follows, move_left_rep, R|].
  destruct (pin =? BUTTON_RIGHT); [eapply moved_follows, move_right_rep, R|].
  destruct (pin =? BUTTON_DOWN); [eapply moved_follows, move_down_rep, R|].
  destruct (pin =? BUTTON_OK); [apply place_piece_rep, R|]. exists g, ms. split; [reflexivity|]. split; [exact R|]. left. reflexivity.
Qed.

Lemma then_none ms g (m : G unit) :
  (exists g' ms', m g = Some (tt, g') /\ game_rep ms' g' /\ follows ms ms') ->
  exists (r : option ResetType) g' ms', (m;; mret None) g = Some (r, g') /\ game_rep ms' g' /\ follows ms ms'.
Proof. intros (g' & ms' & E & H). exists None, g', ms'. split; [erewrite bind_eq by exact E; reflexivity|exact H]. Qed.

Lemma cmd_switch_rep ms g ch : game_rep ms g ->
  exists r g' ms', cmd_switch ch g = Some (r, g') /\ game_rep ms' g' /\ follows ms ms'.
Proof.
  intros R. unfold cmd_switch.
  destruct (ch =? 97); [eapply then_none, moved_follows, move_left_rep, R|].
  destruct (ch =? 100); [eapply then_none, moved_follows, move_right_rep, R|].
  destruct (ch =? 115); [eapply then_none, moved_follows, move_down_rep, R|].
  destruct (ch =? 119); [eapply then_none, moved_follows, move_up_rep, R|].
  destruct (ch =? 101); [apply then_none, place_piece_rep, R|].
  assert (forall r : option ResetType, exists r' g' ms', mret (M := G) r g = Some (r', g') /\ game_rep ms' g' /\ follows ms ms') as Hret.
  { intros r. exists r, g, ms. split; [reflexivity|]. split; [exact R|]. left. reflexivity. }
  destruct (ch =? 114); [apply Hret|]. destruct (ch =? 99); apply Hret.
Qed.
