(* ===== verification/OxInv.v ===== *)
(** * The OX game: the invariant of its threads

    [app_rep ms q a]: the state [a] of the application plays the abstract game
    [ms], its ring buffer holds the bytes [q] and its mutex is held by the thread
    whose place says so.  Every enabled event keeps it and follows the rules. *)

From stdpp Require Import gmap.
From S2P Require Import Prelude Ringbuffer RingbufferProps OxGame OxApp OxRules.
Open Scope rt_scope.

(** ** Who holds the mutex *)

Definition reset_holds (p : reset_pc) : Z := match p with ResetTake _ => 0 | _ => 1 end.

Definition holds (t : tid) (a : app) : Z :=
  match t with
  | MAIN => match a_main a with MainReset p => reset_holds p | _ => 0 end
  | KEY => 0
  | LCD => match a_disp a with LcdReset p => reset_holds p | _ => 0 end
  | CMD => match a_cmd a with CmdReset p => 1 + reset_holds p | _ => 0 end
  end.

Definition lock_of (t : tid) (h : Z) : option (tid * Z) := if h =? 0 then None else Some (t, h).

(** The mutex is held by at most one thread, as often as its place says. *)
Definition lock_ok (a : app) : Prop :=
  exists t, a_lock a = lock_of t (holds t a) /\ forall t', t' <> t -> holds t' a = 0.

(** The place in reset_game where a thread stands. *)
Definition reset_of (t : tid) (a : app) : option reset_pc :=
  match t with
  | MAIN => match a_main a with MainReset p => Some p | _ => None end
  | KEY => None
  | LCD => match a_disp a with LcdReset p => Some p | _ => None end
  | CMD => match a_cmd a with CmdReset p => Some p | _ => None end
  end.

Definition buf_ok (p : reset_pc) : Prop :=
  match p with
  | ResetName _ buf => (length buf <= 15)%nat
  | ResetNameWait _ buf => (length buf < 15)%nat
  | _ => True
  end.

Definition rb_holds (q : list Z) (a : app) : Prop :=
  match a_rb a with Some rb => rb_rep 16 q rb | None => q = [] /\ a_main a = MainInit end.

Record app_rep (ms : list pos) (q : list Z) (a : app) : Prop := {
  ar_game : game_rep ms (a_game a);
  ar_rb : rb_holds q a;
  ar_rx : a_rx a = true <-> a_main a <> MainInit;
  ar_lock : lock_ok a;
  ar_off : a_main a = MainDone \/ a_key a = KeyOff /\ a_disp a = LcdOff /\ a_cmd a = CmdOff;
  ar_on : a_main a = MainDone -> a_key a <> KeyOff /\ a_disp a <> LcdOff /\ a_cmd a <> CmdOff;
  ar_buf : forall t p, reset_of t a = Some p -> buf_ok p;
  ar_sem : 0 <= a_key_sem a /\ 0 <= a_uart_rx_sem a;
}.

Lemma reset_holds_01 p : 0 <= reset_holds p <= 1.
Proof. destruct p; cbn; lia. Qed.

Lemma holds_nonneg t a : 0 <= holds t a.
Proof.
  destruct t; cbn; [destruct (a_main a)|lia|destruct (a_disp a)|destruct (a_cmd a)]; try lia.
  all: pose proof (reset_holds_01 p); lia.
Qed.

(** ** Parts of the state *)

Lemma on_game_eq {A} (m : G A) a r g : m (a_game a) = Some (r, g) -> on_game m a = Some (r, a <| a_game := g |>).
Proof. intros H. unfold on_game. rewrite H. reflexivity. Qed.

Lemma on_rb_eq {A} (m : RB A) a rb r rb' :
  a_rb a = Some rb -> m rb = Some (r, rb') -> on_rb m a = Some (r, a <| a_rb := Some rb' |>).
Proof. intros H1 H2. unfold on_rb. rewrite H1, H2. reflexivity. Qed.

Lemma lcd_take_eq t a h : 0 <= h -> a_lock a = lock_of t h -> lcd_take t a = Some (tt, a <| a_lock := lock_of t (h + 1) |>).
Proof.
  intros Hh E. unfold lcd_take. erewrite bind_eq by reflexivity. rewrite E. unfold lock_of.
  rewrite (proj2 (Z.eqb_neq (h + 1) 0)) by lia. destruct (Z.eqb_spec h 0) as [->|]; [reflexivity|].
  erewrite bind_eq by (apply assert_eq, bool_decide_eq_true; reflexivity). reflexivity.
Qed.

Lemma lcd_release_eq t a h : 0 <= h -> a_lock a = lock_of t (h + 1) -> lcd_release t a = Some (tt, a <| a_lock := lock_of t h |>).
Proof.
  intros Hh E. unfold lcd_release. erewrite bind_eq by reflexivity. rewrite E. unfold lock_of.
  rewrite (proj2 (Z.eqb_neq (h + 1) 0)) by lia. erewrite bind_eq by (apply assert_eq, bool_decide_eq_true; reflexivity).
  replace (h + 1 - 1) with h by lia.
  destruct (Z.eqb_spec h 0) as [->|]; [reflexivity|]. rewrite (proj2 (Z.eqb_neq (h + 1) 1)) by lia. reflexivity.
Qed.

Lemma rb_reset_rep cap q rb : rb_rep cap q rb -> exists rb', rt_ringbuffer_reset rb = Some (tt, rb') /\ rb_rep cap [] rb'.
Proof. apply reset_rep. Qed.

(** ** reset_game *)

(** The state after a part of reset_game: the game, the ring buffer, the value of
    uart_rx_sem, the mutex and the screen. *)
Definition touched (a : app) (g : OXGame) (rb : ringbuffer) (u : Z) (l : option (tid * Z)) (scr : list lcd_op) : app :=
  mkApp g (Some rb) (a_key_sem a) u l scr (a_level a) (a_irq a) (a_rx a) (a_main a) (a_key a) (a_disp a) (a_cmd a).

(** Where reset_game goes from the place [p] with the bytes [q] in the ring
    buffer, and the bytes that are left; no place is its return. *)
Definition name_done_next (for_o : bool) (q : list Z) : option reset_pc * list Z :=
  if for_o then (Some ResetDelay, q) else (Some (ResetName true []), []).

Definition reset_next (p : reset_pc) (q : list Z) : option reset_pc * list Z :=
  match p with
  | ResetTake RESET_FULL => (Some (ResetName false []), [])
  | ResetTake RESET_CURRENT => (Some ResetDelay, q)
  | ResetName for_o buf =>
      if Z.of_nat (length buf) <? 15 then
        match q with
        | [] => (Some (ResetNameWait for_o buf), [])
        | ch :: q =>
            if (ch =? 13) || (ch =? 10) then
              if 0 <? Z.of_nat (length buf) then name_done_next for_o q else (Some (ResetName for_o buf), q)
            else (Some (ResetName for_o (buf ++ [ch])), q)
        end
      else name_done_next for_o q
  | ResetNameWait for_o buf => (Some (ResetName for_o buf), q)
  | ResetDelay => (None, q)
  end.

Section Reset.
Context (t : tid) (h : Z) (Hh : 0 <= h).

(** What the code between two places of reset_game leaves behind. *)
Definition reset_post (ms : list pos) (next : option reset_pc * list Z) (a : app) (r : option reset_pc) (a' : app) : Prop :=
  exists g rb u scr ms' q', next = (r, q') /\
    a' = touched a g rb u (lock_of t (h + match r with Some p => reset_holds p | None => 0 end)) scr /\
    game_rep ms' g /\ follows ms ms' /\ rb_rep 16 q' rb /\ 0 <= u /\
    match r with Some p => buf_ok p | None => True end.

Lemma name_start_eq a rb q for_o :
  a_rb a = Some rb -> rb_rep 16 q rb ->
  exists rb', name_start for_o a = Some (ResetName for_o [], a <| a_rb := Some rb' |>) /\ rb_rep 16 [] rb'.
Proof.
  intros E R. destruct (rb_reset_rep _ _ _ R) as (rb' & Hr & R'). exists rb'. split; [|exact R'].
  unfold name_start. erewrite bind_eq by (eapply on_rb_eq; eassumption). reflexivity.
Qed.

Lemma reset_show_eq a : reset_show a = Some (ResetDelay, a <| a_lcd ::= (fun l => l ++ name_screen (a_game a)) |>).
Proof. reflexivity. Qed.

Lemma name_done_rep ms q a g rb u for_o buf :
  game_rep ms g -> rb_rep 16 q rb -> 0 <= u -> (length buf <= 15)%nat ->
  exists p a', name_done for_o buf (touched a g rb u (lock_of t (h + 1)) (a_lcd a)) = Some (p, a') /\
    reset_post ms (name_done_next for_o q) a (Some p) a'.
Proof.
  intros Hg R Hu Hb. destruct (set_name_rep ms g for_o buf Hg) as (g' & E & Hg' & _); [unfold NAME_SIZE; lia|].
  unfold name_done. destruct for_o.
  - do 2 eexists. split; [erewrite bind_eq by (apply on_game_eq, E); reflexivity|].
    exists g', rb, u. do 3 eexists. split; [reflexivity|]. split; [reflexivity|]. split; [exact Hg'|]. split; [left; reflexivity|].
    split; [exact R|]. split; [exact Hu|exact I].
  - destruct (rb_reset_rep _ _ _ R) as (rb' & Hr & R'). do 2 eexists. split.
    + erewrite bind_eq by (apply on_game_eq, E). unfold name_start.
      erewrite bind_eq by (eapply on_rb_eq; [reflexivity|exact Hr]). reflexivity.
    + exists g', rb', u. do 3 eexists. split; [reflexivity|]. split; [reflexivity|]. split; [exact Hg'|]. split; [left; reflexivity|].
      split; [exact R'|]. split; [exact Hu|cbn; lia].
Qed.

Lemma touched_of a a' rb l :
  a_rb a' = Some rb -> a_lock a' = l -> a_key_sem a' = a_key_sem a -> a_level a' = a_level a -> a_irq a' = a_irq a ->
  a_rx a' = a_rx a -> a_main a' = a_main a -> a_key a' = a_key a -> a_disp a' = a_disp a -> a_cmd a' = a_cmd a ->
  a' = touched a (a_game a') rb (a_uart_rx_sem a') l (a_lcd a').
Proof. destruct a'. cbn. intros. subst. reflexivity. Qed.

Ltac is_touched a := etransitivity; [apply (touched_of a); first [eassumption|reflexivity]|reflexivity].

Lemma name_round_rep ms q a rb for_o buf :
  game_rep ms (a_game a) -> a_rb a = Some rb -> rb_rep 16 q rb -> 0 <= a_uart_rx_sem a -> (length buf <= 15)%nat ->
  a_lock a = lock_of t (h + 1) ->
  exists p a', name_round for_o buf a = Some (p, a') /\ reset_post ms (reset_next (ResetName for_o buf) q) a (Some p) a'.
Proof.
  intros Hg E R Hu Hb Hl.
  assert (forall p, reset_holds p = 1 -> buf_ok p -> forall rb' q', rb_rep 16 q' rb' ->
    reset_post ms (Some p, q') a (Some p) (a <| a_rb := Some rb' |>)) as Hret.
  { intros p Hp Hok rb' q' R'. exists (a_game a), rb', (a_uart_rx_sem a), (a_lcd a), ms, q'. rewrite Hp. split; [reflexivity|].
    split; [is_touched a|]. split; [exact Hg|]. split; [left; reflexivity|]. auto. }
  unfold name_round, reset_next. destruct (Z.ltb_spec (Z.of_nat (length buf)) 15) as [Hlt|Hge].
  2: { destruct (name_done_rep ms q a (a_game a) rb (a_uart_rx_sem a) for_o buf) as (p & a' & Hd & Hp); try assumption.
       rewrite <- (touched_of a a rb _ E Hl) in Hd by reflexivity. eauto. }
  destruct (getchar_rep _ _ _ R) as (rb' & Hc & R'). erewrite bind_eq by (eapply on_rb_eq; [exact E|exact Hc]).
  destruct q as [|ch q]; cbn [head tail] in *.
  { do 2 eexists. split; [reflexivity|]. eapply Hret; [reflexivity|cbn; lia|exact R']. }
  destruct ((ch =? 13) || (ch =? 10)).
  - destruct (0 <? Z.of_nat (length buf)).
    + assert (a <| a_rb := Some rb' |> = touched a (a_game a) rb' (a_uart_rx_sem a) (lock_of t (h + 1)) (a_lcd a)) as -> by is_touched a.
      apply (name_done_rep ms q a (a_game a) rb' (a_uart_rx_sem a)); assumption.
    + do 2 eexists. split; [reflexivity|]. eapply Hret; [reflexivity|exact Hb|exact R'].
  - do 2 eexists. split; [reflexivity|]. eapply Hret; [reflexivity|cbn; rewrite length_app; cbn; lia|exact R'].
Qed.

Lemma reset_take_rep ms q a rb type :
  game_rep ms (a_game a) -> a_rb a = Some rb -> rb_rep 16 q rb -> 0 <= a_uart_rx_sem a -> a_lock a = lock_of t h ->
  exists r a', reset_run t (ResetTake type) a = Some (r, a') /\ reset_post ms (reset_next (ResetTake type) q) a r a'.
Proof.
  intros Hg E R Hu Hl. unfold reset_run. erewrite bind_eq by (apply lcd_take_eq; [exact Hh|exact Hl]).
  destruct (reset_common_rep ms (a_game a) Hg) as (g1 & H1 & G1).
  erewrite bind_eq by (apply on_game_eq; exact H1). erewrite bind_eq by reflexivity.
  destruct type.
  - erewrite bind_eq by apply reset_show_eq.
    do 2 eexists. split; [reflexivity|]. exists g1, rb, (a_uart_rx_sem a). do 3 eexists. split; [reflexivity|].
    split; [is_touched a|]. split; [exact G1|].
    split; [right; constructor|]. split; [exact R|]. split; [exact Hu|exact I].
  - destruct (clear_names_rep [] g1 G1) as (g2 & H2 & G2).
    destruct (rb_reset_rep _ _ _ R) as (rb' & Hr & R').
    erewrite bind_eq.
    2: { erewrite bind_eq by (apply on_game_eq; exact H2). unfold name_start.
         erewrite bind_eq by (eapply on_rb_eq; [exact E|exact Hr]). reflexivity. }
    do 2 eexists. split; [reflexivity|]. exists g2, rb', (a_uart_rx_sem a). do 3 eexists. split; [reflexivity|].
    split; [is_touched a|]. split; [exact G2|].
    split; [right; constructor|]. split; [exact R'|]. split; [exact Hu|cbn; lia].
Qed.

Lemma reset_run_rep ms q a rb p :
  game_rep ms (a_game a) -> a_rb a = Some rb -> rb_rep 16 q rb -> 0 <= a_uart_rx_sem a -> buf_ok p ->
  a_lock a = lock_of t (h + reset_holds p) -> reset_ready t p a = true ->
  exists r a', reset_run t p a = Some (r, a') /\ reset_post ms (reset_next p q) a r a'.
Proof.
  intros Hg E R Hu Hb Hl Hready. destruct p as [type|for_o buf|for_o buf|]; cbn [reset_holds] in Hl.
  - rewrite Z.add_0_r in Hl. eapply reset_take_rep; eassumption.
  - destruct (name_round_rep ms q a rb for_o buf) as (p & a' & Hp & Hpost); [assumption..|].
    exists (Some p), a'. split; [cbn [reset_run]; erewrite bind_eq by exact Hp; reflexivity|exact Hpost].
  - cbn in Hready. apply Z.ltb_lt in Hready. do 2 eexists. split; [reflexivity|].
    exists (a_game a), rb, (Z.pred (a_uart_rx_sem a)). do 3 eexists. split; [reflexivity|].
    split; [is_touched a|]. split; [exact Hg|].
    split; [left; reflexivity|]. split; [exact R|]. split; [lia|cbn in *; lia].
  - cbn [reset_run]. do 2 eexists. split; [erewrite bind_eq by (apply lcd_release_eq; [exact Hh|exact Hl]); reflexivity|].
    exists (a_game a), rb, (a_uart_rx_sem a). do 3 eexists. rewrite Z.add_0_r. split; [reflexivity|].
    split; [is_touched a|]. split; [exact Hg|].
    split; [left; reflexivity|].
    split; [exact R|]. split; [exact Hu|exact I].
Qed.
End Reset.

(** ** The mutex *)

Lemma lock_mine t a :
  lock_ok a -> 0 < holds t a \/ lock_free t a = true ->
  a_lock a = lock_of t (holds t a) /\ forall t', t' <> t -> holds t' a = 0.
Proof.
  intros (t0 & Hl & Ho) H. destruct (decide (t0 = t)) as [<-|Hne]; [auto|].
  assert (holds t a = 0) as E by (apply Ho; congruence). rewrite E.
  unfold lock_free in H. rewrite Hl in *. unfold lock_of in *. destruct (Z.eqb_spec (holds t0 a) 0) as [E0|].
  - split; [reflexivity|]. intros t' Ht'. destruct (decide (t' = t0)) as [->|]; auto.
  - destruct H as [H|H]; [lia|]. bool_to_prop. contradiction.
Qed.

Lemma lock_same a a' : a_lock a' = a_lock a -> (forall t, holds t a' = holds t a) -> lock_ok a -> lock_ok a'.
Proof. intros El Eh (t & Hl & Ho). exists t. rewrite El, Eh. split; [exact Hl|]. intros t' H. rewrite Eh. auto. Qed.

(** A step of [t] after which it holds the mutex as its new place says. *)
Lemma lock_moved t a a' :
  (forall t', t' <> t -> holds t' a = 0) -> (forall t', t' <> t -> holds t' a' = holds t' a) ->
  a_lock a' = lock_of t (holds t a') -> lock_ok a'.
Proof. intros Ho Es Hl. exists t. split; [exact Hl|]. intros t' H. rewrite Es by exact H. auto. Qed.

(** A reset_game that can go on finds the mutex as its place says. *)
Lemma reset_lock t p a h :
  lock_ok a -> 0 <= h -> holds t a = h + reset_holds p -> reset_ready t p a = true ->
  a_lock a = lock_of t (h + reset_holds p) /\ forall t', t' <> t -> holds t' a = 0.
Proof.
  intros Hl Hh E Hr. rewrite <- E. apply lock_mine; [exact Hl|].
  destruct p; cbn in *; first [right; exact Hr|left; lia].
Qed.

Definition steps_to (ms : list pos) (m : APP unit) (a : app) : Prop :=
  exists a' ms' q', m a = Some (tt, a') /\ app_rep ms' q' a' /\ follows ms ms'.

(** A step of a thread inside reset_game, which has the ring buffer's bytes [q]. *)
Definition reset_steps (pool : list Z) (t : tid) (ms : list pos) (q : list Z) (p : reset_pc) (a : app) : Prop :=
  exists a' ms', run pool t a = Some (tt, a') /\ app_rep ms' (snd (reset_next p q)) a' /\ follows ms ms' /\
    reset_of t a' = fst (reset_next p q) /\ a_lock a' = lock_of t (holds t a').

Lemma reset_steps_to pool t ms q p a : reset_steps pool t ms q p a -> steps_to ms (run pool t) a.
Proof. intros (a' & ms' & H1 & H2 & H3 & _). exists a', ms', (snd (reset_next p q)). auto. Qed.

(** ** The thread that starts the game *)

Lemma init_ring pool : (16 <= length pool)%nat ->
  exists rb, rt_ringbuffer_create CMD_BUF_SIZE true (Some pool) = Some (Some rb) /\ rb_rep 16 [] rb.
Proof. intros Hp. destruct (init_rep pool 16) as (rb & E & R); [lia|lia|]. exists rb. split; [|exact R].
  change (match rt_ringbuffer_init pool 16 with Some rb => Some (Some rb) | None => None end = Some (Some rb)).
  rewrite E. reflexivity.
Qed.

Lemma rb_some ms q a : app_rep ms q a -> a_main a <> MainInit -> exists rb, a_rb a = Some rb /\ rb_rep 16 q rb.
Proof.
  intros R H. pose proof (ar_rb _ _ _ R) as Hrb. unfold rb_holds in Hrb. destruct (a_rb a); [eauto|]. destruct Hrb. contradiction.
Qed.

Lemma main_init_rep pool ms q a : (16 <= length pool)%nat ->
  app_rep ms q a -> a_main a = MainInit -> steps_to ms (main_run pool) a.
Proof.
  intros Hp R Hm. destruct (init_ring pool Hp) as (rb & E & Rb). destruct R.
  destruct ar_off0 as [?|(Hk & Hd & Hc)]; [congruence|].
  do 3 eexists. split.
  - unfold main_run. erewrite bind_eq by reflexivity. rewrite Hm. erewrite bind_eq.
    2: { unfold ox_game_init. erewrite bind_eq by reflexivity. erewrite bind_eq by (rewrite E; reflexivity).
         erewrite bind_eq by reflexivity. erewrite bind_eq by reflexivity. reflexivity. }
    reflexivity.
  - split; [|left; reflexivity]. split; cbn.
    + exact ar_game0.
    + exact Rb.
    + split; [discriminate|reflexivity].
    + exists MAIN. split; [reflexivity|]. intros [] H; cbn; rewrite ?Hd, ?Hc; (reflexivity || contradiction).
    + right. auto.
    + discriminate.
    + intros [] p; cbn; rewrite ?Hd, ?Hc; intros [= <-]. exact I.
    + lia.
Qed.

(** The places of reset_game that a thread may go to are sound. *)
Ltac no_reset := cbn; intros; discriminate.

Lemma main_reset_rep pool ms q a p :
  app_rep ms q a -> a_main a = MainReset p -> reset_ready MAIN p a = true -> reset_steps pool MAIN ms q p a.
Proof.
  intros R Hm Hr. destruct (rb_some _ _ _ R) as (rb & E & Rb); [congruence|].
  destruct (reset_lock MAIN p a 0) as [Hl Ho]; [apply R|lia|cbn; rewrite Hm; lia|exact Hr|].
  destruct R. destruct ar_off0 as [?|(Hk & Hd & Hc)]; [congruence|].
  destruct (reset_run_rep MAIN 0 ltac:(lia) ms q a rb p) as (r & a1 & Hrun & g & rb' & u & scr & ms' & q' & En & -> & Hg & Hf & Rb' & Hu & Hb);
    [assumption..|apply ar_sem0|apply (ar_buf0 MAIN); cbn; rewrite Hm; reflexivity|exact Hl|exact Hr|].
  unfold reset_steps. rewrite En. cbn [fst snd run]. do 2 eexists. split.
  - unfold main_run. erewrite bind_eq by reflexivity. rewrite Hm. erewrite bind_eq by exact Hrun. reflexivity.
  - split; [|split; [exact Hf|destruct r; split; reflexivity]]. split; cbn.
    + exact Hg.
    + exact Rb'.
    + split; [destruct r; discriminate|intros _; apply ar_rx0; congruence].
    + apply (lock_moved MAIN a); [exact Ho| |destruct r; reflexivity].
      intros [] H; cbn; rewrite ?Hd, ?Hc; (reflexivity || contradiction).
    + right. auto.
    + destruct r; discriminate.
    + intros [] p'; cbn; rewrite ?Hd, ?Hc; try discriminate. destruct r; [intros [= <-]; exact Hb|discriminate].
    + split; [apply ar_sem0|exact Hu].
Qed.

Lemma main_start_rep pool ms q a : app_rep ms q a -> a_main a = MainStart -> steps_to ms (main_run pool) a.
Proof.
  intros R Hm. destruct (rb_some _ _ _ R) as (rb & E & Rb); [congruence|]. destruct R.
  destruct ar_off0 as [?|(Hk & Hd & Hc)]; [congruence|].
  do 3 eexists. split; [unfold main_run; erewrite bind_eq by reflexivity; rewrite Hm; reflexivity|].
  split; [|left; reflexivity]. split; cbn; try assumption; try discriminate.
  - unfold rb_holds. cbn. rewrite E. exact Rb.
  - split; [discriminate|intros _; apply ar_rx0; congruence].
  - apply (lock_same a); [reflexivity| |assumption]. intros []; cbn; rewrite ?Hm, ?Hd, ?Hc; reflexivity.
  - auto.
  - split; [discriminate|split; discriminate].
  - intros []; no_reset.
Qed.

Lemma main_step pool ms q a : (16 <= length pool)%nat ->
  app_rep ms q a -> main_ready a = true -> steps_to ms (main_run pool) a.
Proof.
  intros Hp R Hr. unfold main_ready in Hr. destruct (a_main a) eqn:Hm; [| | |discriminate].
  - eapply main_init_rep; eassumption.
  - apply (reset_steps_to pool MAIN ms q p), main_reset_rep; assumption.
  - eapply main_start_rep; eassumption.
Qed.

(** ** The other threads *)

Lemma started ms q a : app_rep ms q a -> a_key a <> KeyOff \/ a_disp a <> LcdOff \/ a_cmd a <> CmdOff ->
  a_main a = MainDone /\ (exists rb, a_rb a = Some rb /\ rb_rep 16 q rb) /\
  (a_key a <> KeyOff /\ a_disp a <> LcdOff /\ a_cmd a <> CmdOff).
Proof.
  intros R H. assert (a_main a = MainDone) as Hm.
  { destruct (ar_off _ _ _ R) as [|(Hk & Hd & Hc)]; [assumption|]. rewrite Hk, Hd, Hc in H. tauto. }
  split; [exact Hm|]. split; [apply (rb_some _ _ _ R); congruence|]. apply (ar_on _ _ _ R), Hm.
Qed.

(** A step that leaves the mutex as it was and [holds] of every thread too. *)
Lemma local_step ms ms' q q' a a' :
  app_rep ms q a -> a_main a = MainDone ->
  a_main a' = MainDone -> a_rx a' = a_rx a -> a_lock a' = a_lock a -> (forall t, holds t a' = holds t a) ->
  game_rep ms' (a_game a') -> rb_holds q' a' ->
  (a_key a' <> KeyOff /\ a_disp a' <> LcdOff /\ a_cmd a' <> CmdOff) ->
  (forall t p, reset_of t a' = Some p -> buf_ok p) -> 0 <= a_key_sem a' /\ 0 <= a_uart_rx_sem a' -> app_rep ms' q' a'.
Proof.
  intros R Hm Hm' Hx Hl Hh Hg Hrb Hon Hb Hs. split; try assumption.
  - rewrite Hx, Hm'. split; [discriminate|intros _]. apply (ar_rx _ _ _ R). congruence.
  - eapply lock_same; [exact Hl|exact Hh|apply R].
  - auto.
  - auto.
Qed.

Ltac by_local R :=
  first [assumption|reflexivity|intros []; reflexivity|apply (ar_rb _ _ _ R)|
    split; [first [assumption|discriminate]|split; first [assumption|discriminate]]|cbn; lia|idtac].

Lemma key_step ms q a : app_rep ms q a -> key_ready a = true -> steps_to ms key_run a.
Proof.
  intros R Hr. unfold key_ready in Hr.
  destruct (started _ _ _ R) as (Hm & (rb & E & Rb) & Hk & Hd & Hc); [left; intros H; rewrite H in Hr; discriminate|].
  pose proof (ar_sem _ _ _ R) as [Hs1 Hs2]. pose proof (ar_buf _ _ _ R) as Hbuf. pose proof (ar_game _ _ _ R) as Hg.
  unfold steps_to, key_run. erewrite bind_eq by reflexivity. destruct (a_key a) eqn:Ek; [discriminate| | |].
  - apply Z.ltb_lt in Hr. exists (a <| a_key_sem ::= Z.pred |> <| a_key := KeyDelay |>), ms, q.
    split; [reflexivity|]. split; [|left; reflexivity].
    apply (local_step ms ms q q a); by_local R.
  - exists (a <| a_key := KeyLock |>), ms, q. split; [reflexivity|]. split; [|left; reflexivity].
    apply (local_step ms ms q q a); by_local R.
  - destruct (lock_mine KEY a) as [Hl Ho]; [apply R|auto|]. cbn in Hl.
    destruct (key_switch_rep ms (a_game a) (active_pin (a_level a)) Hg) as (g' & ms' & Hsw & Hg' & Hf).
    exists (a <| a_lock := None |> <| a_game := g' |> <| a_irq ::= (fun s => {[active_pin (a_level a)]} ∪ s) |> <| a_key := KeySem |>), ms', q.
    split; [|split; [|exact Hf]].
    + erewrite bind_eq by (apply (lcd_take_eq KEY a 0); [lia|exact Hl]).
      erewrite bind_eq by (apply on_game_eq; exact Hsw).
      erewrite bind_eq by (apply (lcd_release_eq KEY _ 0); [lia|reflexivity]). reflexivity.
    + apply (local_step ms ms' q q a); by_local R.
      cbn. rewrite Hl. reflexivity.
Qed.

(** The code after the drawing in lcd_thread_entry leaves the mutex as it was. *)
Definition drawn (a : app) : app :=
  let g := a_game a in
  if state_changed g
  then a <| a_lcd := ox_game_draw_board g |> <| a_game := g <| state_changed := false |> |>
  else a.

Lemma drawn_rep ms a : game_rep ms (a_game a) -> game_rep ms (a_game (drawn a)).
Proof. unfold drawn. destruct (state_changed (a_game a)); [|auto]. intros []. split; assumption. Qed.

#[local] Opaque ox_game_draw_board.

(** The state after the round that starts with the first rt_mutex_take. *)
Definition shown (a : app) : app :=
  let d := (drawn a) <| a_lock := None |> in
  if bool_decide (state (a_game a) = GAME_PLAYING) then d <| a_disp := LcdDelay |>
  else d <| a_lcd ::= (fun l => l ++ [show_result (state (a_game a))]) |> <| a_disp := LcdMessage |>.

Lemma lcd_lock_eq a : a_disp a = LcdLock -> a_lock a = None -> lcd_run a = Some (tt, shown a).
Proof.
  intros Ed Hl. unfold lcd_run. erewrite bind_eq by reflexivity. rewrite Ed.
  erewrite bind_eq by (apply (lcd_take_eq LCD a 0); [lia|exact Hl]). unfold shown.
  change (a_game (a <| a_lock := lock_of LCD (0 + 1) |>)) with (a_game a). cbv zeta.
  erewrite (bind_eq _ _ (a <| a_lock := _ |>) tt ((drawn a) <| a_lock := lock_of LCD 1 |>)).
  2: { unfold drawn. destruct (state_changed (a_game a)); reflexivity. }
  destruct (bool_decide (state (a_game a) = GAME_PLAYING)).
  - erewrite bind_eq by (apply (lcd_release_eq LCD _ 0); [lia|reflexivity]). reflexivity.
  - erewrite bind_eq by reflexivity. erewrite bind_eq by (apply (lcd_release_eq LCD _ 0); [lia|reflexivity]). reflexivity.
Qed.

Lemma drawn_frame a :
  a_rb (drawn a) = a_rb a /\ a_key_sem (drawn a) = a_key_sem a /\ a_uart_rx_sem (drawn a) = a_uart_rx_sem a /\
  a_lock (drawn a) = a_lock a /\ a_rx (drawn a) = a_rx a /\ a_main (drawn a) = a_main a /\ a_key (drawn a) = a_key a /\ a_cmd (drawn a) = a_cmd a.
Proof. unfold drawn. destruct (state_changed (a_game a)); auto 10. Qed.

Lemma lcd_lock_rep ms q a : app_rep ms q a -> a_disp a = LcdLock -> lock_free LCD a = true -> steps_to ms lcd_run a.
Proof.
  intros R Ed Hr. destruct (started _ _ _ R) as (Hm & (rb & E & Rb) & Hk & Hd & Hc); [right; left; congruence|].
  pose proof (ar_sem _ _ _ R) as Hs. pose proof (ar_buf _ _ _ R) as Hbuf. pose proof (ar_game _ _ _ R) as Hg.
  destruct (lock_mine LCD a) as [Hl Ho]; [apply R|auto|]. cbn in Hl. rewrite Ed in Hl.
  apply (drawn_rep ms a) in Hg. destruct (drawn_frame a) as (F1 & F2 & F3 & F4 & Fx & F5 & F6 & F7).
  exists (shown a), ms, q. split; [apply lcd_lock_eq; assumption|]. split; [|left; reflexivity].
  assert (exists pc scr, (pc = LcdDelay \/ pc = LcdMessage) /\
    shown a = (drawn a) <| a_lock := None |> <| a_lcd := scr |> <| a_disp := pc |>) as (pc & scr & Hpc & ->).
  { unfold shown. destruct (bool_decide _); do 2 eexists; (split; [|reflexivity]); auto. }
  apply (local_step ms ms q q a); cbn; rewrite ?F1, ?F2, ?F3, ?Fx, ?F5, ?F6, ?F7; try assumption.
  - reflexivity.
  - symmetry. exact Hl.
  - intros []; cbn; rewrite ?F5, ?F7, ?Ed; destruct Hpc as [-> | ->]; reflexivity.
  - unfold rb_holds. cbn. rewrite F1, E. exact Rb.
  - destruct Hpc as [-> | ->]; (split; [assumption|split; [discriminate|assumption]]).
  - intros [] p; cbn; rewrite ?F5, ?F7; [apply (Hbuf MAIN)|discriminate|destruct Hpc as [-> | ->]; discriminate|apply (Hbuf CMD)].
Qed.

Lemma lcd_reset_rep pool ms q a p :
  app_rep ms q a -> a_disp a = LcdReset p -> reset_ready LCD p a = true -> reset_steps pool LCD ms q p a.
Proof.
  intros R Ed Hr. destruct (started _ _ _ R) as (Hm & (rb & E & Rb) & Hk & Hd & Hc); [right; left; congruence|].
  destruct (reset_lock LCD p a 0) as [Hl Ho]; [apply R|lia|cbn; rewrite Ed; lia|exact Hr|].
  destruct R.
  destruct (reset_run_rep LCD 0 ltac:(lia) ms q a rb p) as (r & a1 & Hrun & g & rb' & u & scr & ms' & q' & En & -> & Hg & Hf & Rb' & Hu & Hb);
    [assumption..|apply ar_sem0|apply (ar_buf0 LCD); cbn; rewrite Ed; reflexivity|exact Hl|exact Hr|].
  unfold reset_steps. rewrite En. cbn [fst snd run]. do 2 eexists. split.
  - unfold lcd_run. erewrite bind_eq by reflexivity. rewrite Ed. erewrite bind_eq by exact Hrun. reflexivity.
  - split; [|split; [exact Hf|destruct r; split; reflexivity]]. split; cbn.
    + exact Hg.
    + exact Rb'.
    + exact ar_rx0.
    + apply (lock_moved LCD a); [exact Ho| |destruct r; reflexivity].
      intros [] H; cbn; (reflexivity || contradiction).
    + left. exact Hm.
    + intros _. split; [exact Hk|]. split; [destruct r; discriminate|exact Hc].
    + intros [] p'; cbn; [apply (ar_buf0 MAIN)|discriminate| |apply (ar_buf0 CMD)].
      destruct r; [intros [= <-]; exact Hb|discriminate].
    + split; [apply ar_sem0|exact Hu].
Qed.

Lemma lcd_step ms q a : app_rep ms q a -> lcd_ready a = true -> steps_to ms lcd_run a.
Proof.
  intros R Hr. unfold lcd_ready in Hr.
  destruct (started _ _ _ R) as (Hm & (rb & E & Rb) & Hk & Hd & Hc); [right; left; intros H; rewrite H in Hr; discriminate|].
  pose proof (ar_sem _ _ _ R) as [Hs1 Hs2]. pose proof (ar_buf _ _ _ R) as Hbuf. pose proof (ar_game _ _ _ R) as Hg.
  destruct (a_disp a) as [| | |p| |] eqn:Ed; [discriminate|apply (lcd_lock_rep ms q); assumption| |
    apply (reset_steps_to [] LCD ms q p), lcd_reset_rep; assumption| |]; unfold steps_to, lcd_run; erewrite bind_eq by reflexivity; rewrite Ed.
  - exists (a <| a_disp := LcdReset (ResetTake RESET_CURRENT) |>), ms, q. split; [reflexivity|]. split; [|left; reflexivity].
    apply (local_step ms ms q q a); by_local R; [intros []; cbn; rewrite ?Ed; reflexivity|].
    intros [] p'; cbn; [apply (Hbuf MAIN)|discriminate|intros [= <-]; exact I|apply (Hbuf CMD)].
  - destruct (lock_mine LCD a) as [Hl Ho]; [apply R|auto|]. cbn in Hl. rewrite Ed in Hl.
    exists (a <| a_lock := None |> <| a_disp := LcdDelay |>), ms, q. split; [|split; [|left; reflexivity]].
    + erewrite bind_eq by (apply (lcd_take_eq LCD a 0); [lia|exact Hl]).
      erewrite bind_eq by (apply (lcd_release_eq LCD _ 0); [lia|reflexivity]). reflexivity.
    + apply (local_step ms ms q q a); by_local R.
      * cbn. rewrite Hl. reflexivity.
      * intros []; cbn; rewrite ?Ed; reflexivity.
      * intros [] p'; cbn; [apply (Hbuf MAIN)|discriminate|discriminate|apply (Hbuf CMD)].
  - exists (a <| a_disp := LcdLock |>), ms, q. split; [reflexivity|]. split; [|left; reflexivity].
    apply (local_step ms ms q q a); by_local R; [intros []; cbn; rewrite ?Ed; reflexivity|].
    intros [] p'; cbn; [apply (Hbuf MAIN)|discriminate|discriminate|apply (Hbuf CMD)].
Qed.

Lemma cmd_lock_rep ms q a ch : app_rep ms q a -> a_cmd a = CmdLock ch -> lock_free CMD a = true -> steps_to ms cmd_run a.
Proof.
  intros R Ec Hr. destruct (started _ _ _ R) as (Hm & (rb & E & Rb) & Hk & Hd & Hc); [right; right; congruence|].
  pose proof (ar_sem _ _ _ R) as Hs. pose proof (ar_buf _ _ _ R) as Hbuf. pose proof (ar_game _ _ _ R) as Hg.
  destruct (lock_mine CMD a) as [Hl Ho]; [apply R|auto|]. cbn in Hl. rewrite Ec in Hl.
  destruct (cmd_switch_rep ms (a_game a) ch Hg) as (r & g' & ms' & Hsw & Hg' & Hf).
  unfold steps_to, cmd_run. erewrite bind_eq by reflexivity. rewrite Ec.
  erewrite bind_eq by (apply (lcd_take_eq CMD a 0); [lia|exact Hl]). erewrite bind_eq by (apply on_game_eq; exact Hsw).
  destruct r as [type|].
  - exists (a <| a_lock := lock_of CMD 1 |> <| a_game := g' |> <| a_cmd := CmdReset (ResetTake type) |>), ms', q.
    split; [reflexivity|]. split; [|exact Hf]. split; cbn; try assumption; try apply R.
    + apply (lock_moved CMD a); [exact Ho| |reflexivity]. intros [] H; cbn; (reflexivity || contradiction).
    + auto.
    + intros _. split; [assumption|split; [assumption|discriminate]].
    + intros [] p; cbn; [apply (Hbuf MAIN)|discriminate|apply (Hbuf LCD)|intros [= <-]; exact I].
  - exists (a <| a_lock := None |> <| a_game := g' |> <| a_cmd := CmdGet |>), ms', q. split; [|split; [|exact Hf]].
    + erewrite bind_eq by (apply (lcd_release_eq CMD _ 0); [lia|reflexivity]). reflexivity.
    + apply (local_step ms ms' q q a); by_local R.
      * symmetry. exact Hl.
      * intros []; cbn; rewrite ?Ec; reflexivity.
      * intros [] p; cbn; [apply (Hbuf MAIN)|discriminate|apply (Hbuf LCD)|discriminate].
Qed.

Lemma cmd_reset_rep pool ms q a p :
  app_rep ms q a -> a_cmd a = CmdReset p -> reset_ready CMD p a = true -> reset_steps pool CMD ms q p a.
Proof.
  intros R Ec Hr. destruct (started _ _ _ R) as (Hm & (rb & E & Rb) & Hk & Hd & Hc); [right; right; congruence|].
  destruct (reset_lock CMD p a 1) as [Hl Ho]; [apply R|lia|cbn; rewrite Ec; lia|exact Hr|].
  destruct R.
  destruct (reset_run_rep CMD 1 ltac:(lia) ms q a rb p) as (r & a1 & Hrun & g & rb' & u & scr & ms' & q' & En & -> & Hg & Hf & Rb' & Hu & Hb);
    [assumption..|apply ar_sem0|apply (ar_buf0 CMD); cbn; rewrite Ec; reflexivity|exact Hl|exact Hr|].
  unfold reset_steps. rewrite En. cbn [fst snd run]. unfold cmd_run. erewrite bind_eq by reflexivity. rewrite Ec. erewrite bind_eq by exact Hrun.
  assert (forall pc l, (match pc with CmdReset p => r = Some p | CmdGet => r = None | _ => False end) ->
    l = lock_of CMD (match pc with CmdReset p => 1 + reset_holds p | _ => 0 end) ->
    app_rep ms' q' ((touched a g rb' u l scr) <| a_cmd := pc |>)) as Hrep.
  { intros pc l Hpc ->. split; cbn.
    - exact Hg.
    - exact Rb'.
    - exact ar_rx0.
    - apply (lock_moved CMD a); [exact Ho| |reflexivity]. intros [] H; cbn; (reflexivity || contradiction).
    - left. exact Hm.
    - intros _. split; [exact Hk|]. split; [exact Hd|]. destruct pc; (discriminate || contradiction).
    - intros [] p'; cbn; [apply (ar_buf0 MAIN)|discriminate|apply (ar_buf0 LCD)|].
      destruct pc; try discriminate. intros [= <-]. rewrite Hpc in Hb. exact Hb.
    - split; [apply ar_sem0|exact Hu]. }
  destruct r as [p'|].
  - do 2 eexists. split; [reflexivity|]. split; [apply Hrep; reflexivity|]. split; [exact Hf|split; reflexivity].
  - do 2 eexists. split.
    + erewrite bind_eq by (apply (lcd_release_eq CMD _ 0); [lia|reflexivity]). reflexivity.
    + split; [exact (Hrep CmdGet None eq_refl eq_refl)|]. split; [exact Hf|split; reflexivity].
Qed.

Lemma sem_up_pos v : 0 <= v -> 0 < sem_up v.
Proof. unfold sem_up, SEM_VALUE_MAX. destruct (Z.ltb_spec v 65535); lia. Qed.

Lemma cmd_get_rep ms q a : app_rep ms q a -> a_cmd a = CmdGet -> steps_to ms cmd_run a.
Proof.
  intros R Ec. destruct (started _ _ _ R) as (Hm & (rb & E & Rb) & Hk & Hd & Hc); [right; right; congruence|].
  pose proof (ar_sem _ _ _ R) as [Hs1 Hs2]. pose proof (ar_buf _ _ _ R) as Hbuf. pose proof (ar_game _ _ _ R) as Hg.
  pose proof (sem_up_pos _ Hs2) as Hup.
  unfold steps_to, cmd_run. erewrite bind_eq by reflexivity. rewrite Ec.
  destruct (getchar_rep _ _ _ Rb) as (rb' & Hget & Rb'). erewrite bind_eq by (eapply on_rb_eq; [exact E|exact Hget]).
  destruct (head q) as [ch|]; do 3 eexists; (split; [reflexivity|split; [|left; reflexivity]]);
    (apply (local_step ms ms q (tail q) a); by_local R;
      [intros []; cbn; rewrite ?Ec; reflexivity|intros [] p; cbn; [apply (Hbuf MAIN)|discriminate|apply (Hbuf LCD)|discriminate]]).
Qed.

Lemma cmd_step ms q a : app_rep ms q a -> cmd_ready a = true -> steps_to ms cmd_run a.
Proof.
  intros R Hr. unfold cmd_ready in Hr.
  destruct (started _ _ _ R) as (Hm & (rb & E & Rb) & Hk & Hd & Hc); [right; right; intros H; rewrite H in Hr; discriminate|].
  pose proof (ar_sem _ _ _ R) as [Hs1 Hs2]. pose proof (ar_buf _ _ _ R) as Hbuf. pose proof (ar_game _ _ _ R) as Hg.
  destruct (a_cmd a) as [| | |ch|p|] eqn:Ec; [discriminate| |apply (cmd_get_rep ms q); assumption|
    apply (cmd_lock_rep ms q a ch); assumption|apply (reset_steps_to [] CMD ms q p), cmd_reset_rep; assumption|];
    unfold steps_to, cmd_run; erewrite bind_eq by reflexivity; rewrite Ec.
  - apply Z.ltb_lt in Hr. do 3 eexists. split; [reflexivity|]. split; [|left; reflexivity].
    apply (local_step ms ms q q a); by_local R; [intros []; cbn; rewrite ?Ec; reflexivity|].
    intros [] p; cbn; [apply (Hbuf MAIN)|discriminate|apply (Hbuf LCD)|discriminate].
  - do 3 eexists. split; [reflexivity|]. split; [|left; reflexivity].
    apply (local_step ms ms q q a); by_local R; [intros []; cbn; rewrite ?Ec; reflexivity|].
    intros [] p; cbn; [apply (Hbuf MAIN)|discriminate|apply (Hbuf LCD)|discriminate].
Qed.

(** All three callers of reset_game. *)
Lemma reset_event pool t ms q p a :
  app_rep ms q a -> reset_of t a = Some p -> reset_ready t p a = true -> reset_steps pool t ms q p a.
Proof.
  intros R Hp Hr. destruct t; cbn in Hp; [|discriminate| |].
  - apply main_reset_rep; [exact R| |exact Hr]. destruct (a_main a); congruence.
  - apply lcd_reset_rep; [exact R| |exact Hr]. destruct (a_disp a); congruence.
  - apply cmd_reset_rep; [exact R| |exact Hr]. destruct (a_cmd a); congruence.
Qed.

(** ** Interrupts *)

Lemma take_take_app {A} n (l1 l2 : list A) : take n (take n l1 ++ l2) = take n (l1 ++ l2).
Proof.
  rewrite !take_app, take_take, Nat.min_id, length_take. f_equal.
  destruct (Nat.le_gt_cases (length l1) n); [f_equal; lia|].
  replace (n - n `min` length l1)%nat with 0%nat by lia. replace (n - length l1)%nat with 0%nat by lia. reflexivity.
Qed.

(** The bytes that do not fit are lost. *)
Lemma putchars_rep bytes : forall q a rb, a_rb a = Some rb -> rb_rep 16 q rb ->
  exists rb', putchars bytes a = Some (tt, a <| a_rb := Some rb' |>) /\ rb_rep 16 (take 16 (q ++ bytes)) rb'.
Proof.
  induction bytes as [|ch bytes IH]; intros q a rb E Rb; cbn [putchars].
  - exists rb. pose proof (rr_room _ _ _ Rb). rewrite app_nil_r, take_ge by lia. split; [|exact Rb].
    destruct a. cbn in E. subst. reflexivity.
  - destruct (putchar_rep _ _ _ ch Rb) as (n & rb1 & H1 & Rb1).
    erewrite bind_eq by (eapply on_rb_eq; [exact E|exact H1]).
    assert ((if Z.of_nat (length q) <? 16 then q ++ [ch] else q) = take 16 (q ++ [ch])) as Eq.
    { destruct (Z.ltb_spec (Z.of_nat (length q)) 16).
      - rewrite take_ge by (rewrite length_app; cbn; lia). reflexivity.
      - pose proof (rr_room _ _ _ Rb). rewrite take_app_le, take_ge by lia. reflexivity. }
    rewrite Eq in Rb1. assert (a_rb (a <| a_rb := Some rb1 |>) = Some rb1) as E1 by reflexivity.
    destruct (IH _ _ rb1 E1 Rb1) as (rb' & -> & Rb'). exists rb'. split; [reflexivity|].
    rewrite take_take_app, <- app_assoc in Rb'. exact Rb'.
Qed.

(** What changes nothing but interrupts' share of the state. *)
Lemma isr_rep ms q q' a a' :
  app_rep ms q a -> a_game a' = a_game a -> rb_holds q' a' -> a_rx a' = a_rx a -> a_lock a' = a_lock a ->
  a_main a' = a_main a -> a_key a' = a_key a -> a_disp a' = a_disp a -> a_cmd a' = a_cmd a ->
  0 <= a_key_sem a' /\ 0 <= a_uart_rx_sem a' -> app_rep ms q' a'.
Proof.
  intros [] Eg Hrb Ex El Em Ek Ed Ec Hs. split; try assumption; rewrite ?Eg, ?Ex, ?Em, ?Ek, ?Ed, ?Ec; try assumption.
  - apply (lock_same a); [exact El| |assumption]. intros []; cbn; rewrite ?Em, ?Ed, ?Ec; reflexivity.
  - intros t p Hp. apply (ar_buf0 t). rewrite <- Hp. destruct t; cbn; rewrite ?Em, ?Ed, ?Ec; reflexivity.
Qed.

Lemma event_rep pool ms q a e : (16 <= length pool)%nat ->
  app_rep ms q a -> enabled e a = true -> steps_to ms (handle pool e) a.
Proof.
  intros Hp R He. pose proof (ar_sem _ _ _ R) as [Hs1 Hs2]. destruct e as [[]|bytes|pin|pin l]; cbn in He.
  - apply (main_step pool ms q); assumption.
  - apply (key_step ms q); assumption.
  - apply (lcd_step ms q); assumption.
  - apply (cmd_step ms q); assumption.
  - apply andb_true_iff in He as [Hx _]. destruct (rb_some _ _ _ R) as (rb & E & Rb); [apply (proj1 (ar_rx _ _ _ R)), Hx|].
    destruct (putchars_rep bytes _ _ _ E Rb) as (rb' & Hput & Rb'). do 3 eexists.
    split; [unfold handle, uart_rx_ind; erewrite bind_eq by exact Hput; reflexivity|]. split; [|left; reflexivity].
    apply (isr_rep ms q (take 16 (q ++ bytes)) a); try exact R; try reflexivity; [exact Rb'|]. cbn. pose proof (sem_up_pos _ Hs2). lia.
  - do 3 eexists. split; [reflexivity|]. split; [|left; reflexivity].
    apply (isr_rep ms q q a); try exact R; try reflexivity; [exact (ar_rb _ _ _ R)|]. cbn. pose proof (sem_up_pos _ Hs1). lia.
  - do 3 eexists. split; [reflexivity|]. split; [|left; reflexivity].
    apply (isr_rep ms q q a); try exact R; try reflexivity; [exact (ar_rb _ _ _ R)|]. cbn. lia.
Qed.

Lemma app0_rep level : app_rep [] [] (app0 level).
Proof.
  split; cbn; try discriminate; try lia; auto.
  - split; try reflexivity; [constructor|]. intros x y H. unfold in_board in H. bool_to_prop.
    apply (lookup_total_replicate_2 9). lia.
  - split; [discriminate|]. intros H. destruct H. reflexivity.
  - exists MAIN. split; [reflexivity|]. intros [] _; reflexivity.
  - intros []; no_reset.
Qed.

Lemma reachable_rep pool level a : (16 <= length pool)%nat -> app_reachable pool level a -> exists ms q, app_rep ms q a.
Proof.
  intros Hp. induction 1 as [|a a' _ (ms & q & R) (e & He & H)].
  - exists [], []. apply app0_rep.
  - destruct (event_rep pool ms q a e Hp R He) as (a1 & ms' & q' & H1 & R' & _). rewrite H in H1. injection H1 as <-. eauto.
Qed.
