(* ===== verification/MemInv.v ===== *)
(** * The blocks of the small memory allocator

    [heap_rep bs m]: the heap [m] is the sequence [bs] of blocks, each with its
    size (header included) and whether it is in use; the headers are linked in
    that order, no two neighbours are free, [lfree] is the first free block and
    [sm_used] counts the bytes in use. *)

From stdpp Require Import gmap.
From S2P Require Import Prelude Mem.
Open Scope rt_scope.

Abbreviation block := (Z * bool)%type.
Abbreviation items := (gmap Z rt_small_mem_item).

Lemma sizes_eq : MIN_SIZE_ALIGNED = 16 /\ SIZEOF_STRUCT_MEM = 16 /\ MIN_SIZE = 12.
Proof. repeat split; reflexivity. Qed.
Lemma header_eq : SIZEOF_STRUCT_MEM = 16.
Proof. reflexivity. Qed.

(** ** Sequences of blocks *)

Fixpoint total (bs : list block) : Z := match bs with [] => 0 | (sz, _) :: bs => sz + total bs end.
Definition sizes_ok (bs : list block) : Prop := Forall (fun b => 24 <= fst b /\ fst b mod 8 = 0) bs.

(** The offset of the last block, [prev] if there is none. *)
Definition last_off (prev off : Z) (bs : list block) : Z :=
  match last bs with Some b => off + total bs - fst b | None => prev end.

Fixpoint first_free (off : Z) (bs : list block) : Z :=
  match bs with [] => off | (sz, u) :: bs => if u : bool then first_free (off + sz) bs else off end.

Fixpoint no_holes (bs : list block) : Prop :=
  match bs with
  | (_, false) :: (((_, false) :: _) as tl) => False
  | _ :: tl => no_holes tl
  | [] => True
  end.

Fixpoint in_use (bs : list block) : Z :=
  match bs with [] => 0 | (sz, u) :: bs => if u : bool then sz + in_use bs else in_use bs end.

Lemma total_app a b : total (a ++ b) = total a + total b.
Proof. induction a as [|[s u] a IH]; cbn; [reflexivity|]. rewrite IH. lia. Qed.
Lemma total_cons sz u b : total ((sz, u) :: b) = sz + total b.
Proof. reflexivity. Qed.
Lemma in_use_app a b : in_use (a ++ b) = in_use a + in_use b.
Proof. induction a as [|[s []] a IH]; cbn in *; lia. Qed.
Lemma total_nonneg bs : sizes_ok bs -> 0 <= total bs.
Proof. induction 1 as [|[s u] bs [H _] _ IH]; cbn in *; lia. Qed.
Lemma in_use_bound bs : sizes_ok bs -> 0 <= in_use bs <= total bs.
Proof. induction 1 as [|[s []] bs [H _] _ IH]; cbn in *; lia. Qed.
Lemma total_mod bs : sizes_ok bs -> total bs mod 8 = 0.
Proof.
  induction 1 as [|[s u] bs [_ H] _ IH]; [reflexivity|]. cbn in *. rewrite Zplus_mod, H, IH. reflexivity.
Qed.
Lemma last_off_snoc prev off bs sz u : last_off prev off (bs ++ [(sz, u)]) = off + total bs.
Proof. unfold last_off. rewrite last_snoc, total_app. cbn. lia. Qed.
Lemma last_off_cons prev off sz u bs : last_off prev off ((sz, u) :: bs) = last_off off (off + sz) bs.
Proof.
  unfold last_off. rewrite last_cons. destruct (last bs) as [[s v]|] eqn:E; cbn; [lia|].
  apply last_None in E as ->. cbn. lia.
Qed.

Lemma list_end {A} (l : list A) : l = [] \/ exists l' x, l = l' ++ [x].
Proof. induction l using rev_ind; eauto. Qed.

(** ** Headers *)

Section Seg.
Context (addr : Z).

Definition word (u : bool) : Z := if u then MEM_USED addr else MEM_FREED addr.

(** The headers of [bs] from offset [off] on, the block before it at [prev]. *)
Fixpoint seg (it : items) (prev off : Z) (bs : list block) : Prop :=
  match bs with
  | [] => True
  | (sz, u) :: bs => it !! off = Some (mkItem (word u) (off + sz) prev) /\ seg it off (off + sz) bs
  end.

Lemma seg_app it prev off a b :
  seg it prev off (a ++ b) <-> seg it prev off a /\ seg it (last_off prev off a) (off + total a) b.
Proof.
  revert prev off. induction a as [|[sz u] a IH]; intros prev off.
  - cbn. rewrite Z.add_0_r. tauto.
  - cbn [app seg]. rewrite IH, last_off_cons, total_cons, Z.add_assoc. tauto.
Qed.

(** Headers elsewhere do not matter. *)
Lemma seg_frame it it' prev off bs :
  sizes_ok bs -> seg it prev off bs -> (forall o, off <= o < off + total bs -> it' !! o = it !! o) -> seg it' prev off bs.
Proof.
  intros Hs. revert prev off. induction Hs as [|[sz u] bs [H _] Hs IH]; intros prev off; [auto|].
  cbn [seg]. intros [H1 H2] F. pose proof (total_nonneg bs Hs). cbn [fst] in *. rewrite total_cons in F.
  split; [rewrite F by lia; exact H1|]. apply IH; [exact H2|]. intros o Ho. apply F. lia.
Qed.

(** Another block before the first one. *)
Lemma seg_prev it it' prev prev' off bs :
  sizes_ok bs -> seg it prev off bs ->
  (match bs with [] => True | (sz, u) :: _ => it' !! off = Some (mkItem (word u) (off + sz) prev') end) ->
  (forall o, off < o < off + total bs -> it' !! o = it !! o) -> seg it' prev' off bs.
Proof.
  intros Hs. destruct Hs as [|[sz u] bs [H _] Hs]; [auto|]. cbn [seg fst] in *. intros [_ H2] H1 F. split; [exact H1|].
  eapply seg_frame; [exact Hs|exact H2|]. intros o Ho. apply F. rewrite total_cons. lia.
Qed.

Lemma seg_at it prev off a sz u b : seg it prev off (a ++ (sz, u) :: b) ->
  it !! (off + total a) = Some (mkItem (word u) (off + total a + sz) (last_off prev off a)).
Proof. intros [_ [H _]]%seg_app. exact H. Qed.
End Seg.

(** ** The flag bit *)

Lemma used_word addr : 0 <= addr < 2 ^ 32 -> addr mod 8 = 0 ->
  MEM_USED addr = addr + 1 /\ MEM_FREED addr = addr.
Proof.
  intros Ha Hm. assert (Z.land addr MEM_MASK = addr) as E.
  { change MEM_MASK with (Z.lxor (2 ^ 1 - 1) (2 ^ 32 - 1)). rewrite (land_align_mask addr 1) by lia.
    assert (addr mod 2 ^ 1 = 0); [|lia]. change (2 ^ 1) with 2. Z.to_euclidean_division_equations. lia. }
  unfold MEM_USED, MEM_FREED. rewrite E, Z.lor_0_r. split; [|reflexivity].
  assert (Z.land addr 1 = 0) as E1.
  { change 1 with (Z.ones 1). rewrite Z.land_ones by lia. change (2 ^ 1) with 2. Z.to_euclidean_division_equations. lia. }
  rewrite <- Z.lxor_lor, <- Z.add_nocarry_lxor by exact E1. reflexivity.
Qed.

Lemma isused_word addr u n p : 0 <= addr < 2 ^ 32 -> addr mod 8 = 0 -> MEM_ISUSED (mkItem (word addr u) n p) = u.
Proof.
  intros Ha Hm. destruct (used_word addr Ha Hm) as [E1 E2]. unfold MEM_ISUSED. cbn [pool_ptr]. unfold word.
  change 1 with (Z.ones 1). rewrite Z.land_ones by lia. change (2 ^ 1) with 2.
  destruct u; [rewrite E1|rewrite E2]; [apply negb_true_iff, Z.eqb_neq|apply negb_false_iff, Z.eqb_eq];
    Z.to_euclidean_division_equations; lia.
Qed.

Lemma pool_word addr u n p : 0 <= addr < 2 ^ 32 -> addr mod 8 = 0 -> MEM_POOL (mkItem (word addr u) n p) = addr.
Proof.
  intros Ha Hm. destruct (used_word addr Ha Hm) as [E1 E2]. unfold MEM_POOL. cbn [pool_ptr].
  change MEM_MASK with (Z.lxor (2 ^ 1 - 1) (2 ^ 32 - 1)). unfold word.
  assert (addr + 1 < 2 ^ 32) by (Z.to_euclidean_division_equations; lia).
  destruct u; [rewrite E1|rewrite E2]; rewrite (land_align_mask _ 1) by lia; change (2 ^ 1) with 2;
    Z.to_euclidean_division_equations; lia.
Qed.

(** ** The heap *)

(** Everything but that neighbours of a free block are in use. *)
Record heap_seg (bs : list block) (m : rt_small_mem) : Prop := {
  hs_valid : sm_valid m = true;
  hs_addr : 0 < sm_addr m < 2 ^ 32 /\ sm_addr m mod 8 = 0;
  hs_heap : 0 <= heap_ptr m /\ heap_ptr m mod 8 = 0 /\ heap_ptr m + heap_end m + 16 <= 2 ^ 32;
  hs_end : heap_end m = mem_size_aligned m + 16;
  hs_sizes : sizes_ok bs;
  hs_total : total bs = heap_end m;
  hs_seg : seg (sm_addr m) (sm_items m) 0 0 bs;
  hs_last : exists p, sm_items m !! heap_end m = Some (mkItem (word (sm_addr m) true) (heap_end m) p);
  hs_lfree : lfree m = first_free 0 bs;
}.

Record heap_rep (bs : list block) (m : rt_small_mem) : Prop := {
  hr_seg : heap_seg bs m;
  hr_holes : no_holes bs;
  hr_used : sm_used m = in_use bs;
}.

(** The parts of [m] that no operation changes. *)
Definition same_heap (m m' : rt_small_mem) : Prop :=
  sm_addr m' = sm_addr m /\ sm_valid m' = sm_valid m /\ sm_total m' = sm_total m /\ heap_ptr m' = heap_ptr m /\
  heap_end m' = heap_end m /\ mem_size_aligned m' = mem_size_aligned m.

Lemma same_heap_refl m : same_heap m m.
Proof. repeat split. Qed.
Lemma same_heap_trans m1 m2 m3 : same_heap m1 m2 -> same_heap m2 m3 -> same_heap m1 m3.
Proof. unfold same_heap. intuition congruence. Qed.

Lemma first_free_app off a b :
  first_free off (a ++ b) = if forallb snd a then first_free (off + total a) b else first_free off a.
Proof.
  revert off. induction a as [|[sz u] a IH]; intros off; cbn; [rewrite Z.add_0_r; reflexivity|].
  destruct u; cbn; [rewrite IH, Z.add_assoc; reflexivity|reflexivity].
Qed.

Lemma first_free_bound off bs : sizes_ok bs -> off <= first_free off bs <= off + total bs.
Proof.
  intros Hs. revert off. induction Hs as [|[sz u] bs [H _] Hs IH]; intros off; cbn in *; [lia|].
  pose proof (total_nonneg bs Hs). destruct u; [specialize (IH (off + sz)); lia|lia].
Qed.

Lemma heap_total_bound bs m : heap_seg bs m -> 0 <= total bs < 2 ^ 32.
Proof. intros []. pose proof (total_nonneg bs hs_sizes0). lia. Qed.

Lemma sizes_app a b : sizes_ok (a ++ b) <-> sizes_ok a /\ sizes_ok b.
Proof. apply Forall_app. Qed.
Lemma sizes_cons sz u b : sizes_ok ((sz, u) :: b) <-> (24 <= sz /\ sz mod 8 = 0) /\ sizes_ok b.
Proof. unfold sizes_ok. rewrite Forall_cons. reflexivity. Qed.

(** The header of a block and of what follows it. *)
Lemma item_eq off it m : sm_items m !! off = Some it -> item off m = Some (it, m).
Proof. intros H. unfold item. erewrite bind_eq by reflexivity. rewrite H. reflexivity. Qed.

Lemma upd_item_eq off f it m : sm_items m !! off = Some it ->
  upd_item off f m = Some (tt, m <| sm_items ::= <[off := f it]> |>).
Proof. intros H. unfold upd_item. erewrite bind_eq by (apply item_eq, H). reflexivity. Qed.

Lemma header_at pre sz u suf m : heap_seg (pre ++ (sz, u) :: suf) m ->
  sm_items m !! total pre = Some (mkItem (word (sm_addr m) u) (total pre + sz) (last_off 0 0 pre)).
Proof. intros [_ _ _ _ _ _ H _ _]. exact (seg_at _ _ _ _ _ _ _ _ H). Qed.

(** The header behind a prefix: of the next block or of the end of the heap. *)
Lemma header_behind pre suf m : heap_seg (pre ++ suf) m ->
  exists it, sm_items m !! total pre = Some it /\
    match suf with
    | [] => total pre = heap_end m /\ MEM_ISUSED it = true
    | (sz, u) :: _ => it = mkItem (word (sm_addr m) u) (total pre + sz) (last_off 0 0 pre) /\ total pre < heap_end m
    end /\ MEM_POOL it = sm_addr m.
Proof.
  intros R. pose proof R as []. destruct hs_addr0 as [Ha Hm]. destruct suf as [|[sz u] suf].
  - rewrite app_nil_r in *. destruct hs_last0 as (p & E). rewrite hs_total0. eexists. split; [exact E|].
    split; [split; [reflexivity|apply isused_word; lia]|apply pool_word; lia].
  - eexists. split; [eapply header_at, R|]. split; [split; [reflexivity|]|apply pool_word; lia].
    rewrite <- hs_total0, total_app, total_cons. apply sizes_app in hs_sizes0 as [_ [[Hs _] Hb]%sizes_cons].
    pose proof (total_nonneg suf Hb). lia.
Qed.

(** ** Changing headers *)

Definition with_items (m : rt_small_mem) (it : items) : rt_small_mem := m <| sm_items := it |>.

Lemma with_items_self m : with_items m (sm_items m) = m.
Proof. destruct m. reflexivity. Qed.

Lemma upd_with m it off f i : it !! off = Some i -> upd_item off f (with_items m it) = Some (tt, with_items m (<[off := f i]> it)).
Proof. intros H. rewrite (upd_item_eq off f i) by exact H. reflexivity. Qed.

Lemma set_with m it off i : set_item off i (with_items m it) = Some (tt, with_items m (<[off := i]> it)).
Proof. reflexivity. Qed.

Lemma item_with m it off i : it !! off = Some i -> item off (with_items m it) = Some (i, with_items m it).
Proof. intros H. apply item_eq. exact H. Qed.

(** New headers for the blocks between [pre] and [suf]: those of [pre] are the old
    ones and the header behind the new blocks refers to the last of them. *)
Lemma heap_seg_change pre old new suf m m' :
  heap_seg (pre ++ old ++ suf) m -> same_heap m m' -> sizes_ok new -> total new = total old ->
  seg (sm_addr m) (sm_items m') (last_off 0 0 pre) (total pre) new ->
  (forall o, o < total pre -> sm_items m' !! o = sm_items m !! o) ->
  (forall o, total pre + total old < o -> sm_items m' !! o = sm_items m !! o) ->
  (forall i, sm_items m !! (total pre + total old) = Some i ->
     exists p, sm_items m' !! (total pre + total old) = Some (i <| it_prev := p |>) /\
       (suf = [] \/ p = last_off (last_off 0 0 pre) (total pre) new)) ->
  lfree m' = first_free 0 (pre ++ new ++ suf) ->
  heap_seg (pre ++ new ++ suf) m'.
Proof.
  intros R (Ea & Ev & _ & Eh & Ee & Em) Hs Ht Hseg Hlow Hhigh Hnext Hfree. pose proof (header_behind (pre ++ old) suf m) as Hb.
  rewrite <- app_assoc in Hb. specialize (Hb R). destruct Hb as (ib & Eb & Hb & _). rewrite total_app in *.
  destruct (Hnext ib Eb) as (p & Ep & Hp). destruct R.
  apply sizes_app in hs_sizes0 as [Spre [Sold Ssuf]%sizes_app]. apply seg_app in hs_seg0 as [G1 [G2 G3]%seg_app].
  rewrite !total_app in *. pose proof (total_nonneg _ Ssuf). pose proof (total_nonneg _ Spre). pose proof (total_nonneg _ Sold).
  split; rewrite ?Ev, ?Ea, ?Eh, ?Ee, ?Em; try assumption.
  - rewrite !sizes_app. auto.
  - rewrite !total_app, Ht. exact hs_total0.
  - apply seg_app. rewrite Z.add_0_l in *. split; [|apply seg_app; split; [exact Hseg|]].
    + eapply seg_frame; [exact Spre|exact G1|]. intros o Ho. apply Hlow. lia.
    + rewrite Ht. eapply seg_prev; [exact Ssuf|exact G3| |intros o Ho; apply Hhigh; lia].
      destruct suf as [|[s u] suf]; [exact I|]. destruct Hb as [-> _]. destruct Hp as [?| ->]; [discriminate|]. exact Ep.
  - destruct (Z.eqb_spec (total suf) 0) as [E|E].
    + destruct hs_last0 as (p' & E'). replace (heap_end m) with (total pre + total old) in * by lia. rewrite E' in Eb.
      injection Eb as <-. exists p. exact Ep.
    + destruct hs_last0 as (p' & E'). exists p'. rewrite Hhigh by lia. exact E'.
Qed.

(** ** Merging *)

Lemma first_free_le off a sz b : sizes_ok a -> first_free off (a ++ (sz, false) :: b) <= off + total a.
Proof.
  intros Hs. rewrite first_free_app. destruct (forallb snd a); [cbn; lia|]. pose proof (first_free_bound off a Hs). lia.
Qed.

(** Two free neighbours can be counted as one block. *)
Lemma first_free_merge off a s1 s2 b :
  first_free off (a ++ (s1, false) :: (s2, false) :: b) = first_free off (a ++ (s1 + s2, false) :: b).
Proof. rewrite !first_free_app. reflexivity. Qed.

Lemma seg_distinct pre sz u suf m : heap_seg (pre ++ (sz, u) :: suf) m ->
  0 <= total pre /\ 24 <= sz /\ sz mod 8 = 0 /\ total pre mod 8 = 0 /\ 0 <= total suf /\
  total pre + sz + total suf = heap_end m /\ sizes_ok pre /\ sizes_ok suf.
Proof.
  intros []. apply sizes_app in hs_sizes0 as [H1 [[H2 H2'] H3]%sizes_cons]. rewrite total_app, total_cons in hs_total0.
  pose proof (total_nonneg _ H1). pose proof (total_nonneg _ H3). pose proof (total_mod _ H1). repeat split; (assumption || lia).
Qed.

(** Merging the free blocks of sizes [s1] and [s2] behind [pre]. *)
Lemma merge_rep pre s1 s2 suf m :
  heap_seg (pre ++ (s1, false) :: (s2, false) :: suf) m ->
  let o := total pre in
  exists it, (upd_item (o + s1) (fun i => i <| pool_ptr := 0 |>);;
      upd_item o (fun i => i <| it_next := o + s1 + s2 |>);;
      upd_item (o + s1 + s2) (fun i => i <| it_prev := o |>)) m = Some (tt, with_items m it) /\
    heap_seg (pre ++ (s1 + s2, false) :: suf) (with_items m it).
Proof.
  intros R o. destruct (seg_distinct _ _ _ _ _ R) as (D1 & D2 & D3 & D4 & D5 & D6 & D7 & D8).
  pose proof (header_at _ _ _ _ _ R) as H1. rewrite total_cons in *.
  pose proof R as R2. change ((s1, false) :: (s2, false) :: suf) with ([(s1, false)] ++ (s2, false) :: suf) in R2.
  rewrite app_assoc in R2. pose proof (header_at _ _ _ _ _ R2) as H2.
  destruct (seg_distinct _ _ _ _ _ R2) as (_ & E2 & E3 & _ & E5 & _ & _ & E8).
  rewrite total_app, last_off_snoc in H2. cbn [total] in H2. rewrite Z.add_0_r in H2.
  pose proof (header_behind ((pre ++ [(s1, false)]) ++ [(s2, false)]) suf m) as H3. rewrite <- !app_assoc in H3.
  destruct (H3 R) as (ib & Hb & _). rewrite !total_app in Hb. cbn [total] in Hb. clear H3.
  replace (total pre + (s1 + 0 + (s2 + 0))) with (o + s1 + s2) in Hb by lia. fold o in H1, H2.
  exists (<[o + s1 + s2 := ib <| it_prev := o |>]> (<[o := mkItem (word (sm_addr m) false) (o + s1 + s2) (last_off 0 0 pre)]>
    (<[o + s1 := mkItem 0 (o + s1 + s2) o]> (sm_items m)))). split.
  - rewrite <- (with_items_self m) at 1. erewrite bind_eq by (apply upd_with; exact H2).
    erewrite bind_eq by (apply upd_with; rewrite lookup_insert_ne by lia; exact H1).
    erewrite upd_with by (rewrite !lookup_insert_ne by lia; exact Hb). reflexivity.
  - apply (heap_seg_change pre [(s1, false); (s2, false)] [(s1 + s2, false)] suf m); try exact R; cbn [total].
    + repeat split.
    + constructor; [|constructor]. cbn. split; [lia|]. rewrite Zplus_mod, D3, E3. reflexivity.
    + lia.
    + split; [|exact I]. fold o. change (sm_items (with_items m ?x)) with x. rewrite lookup_insert_ne, lookup_insert_eq by lia. do 2 f_equal. lia.
    + intros x Hx. fold o in Hx. change (sm_items (with_items m ?y)) with y. rewrite !lookup_insert_ne by lia. reflexivity.
    + intros x Hx. fold o in Hx. change (sm_items (with_items m ?y)) with y. rewrite !lookup_insert_ne by lia. reflexivity.
    + fold o. replace (o + (s1 + (s2 + 0))) with (o + s1 + s2) by lia. intros i Hi. rewrite Hb in Hi. injection Hi as <-.
      exists o. change (sm_items (with_items m ?x)) with x. rewrite lookup_insert_eq. split; [reflexivity|]. right. unfold last_off. cbn. lia.
    + change (lfree (with_items m ?x)) with (lfree m). rewrite (hs_lfree _ _ R). apply first_free_merge.
Qed.

(** A free block of size [sz] with the free neighbours it has. *)
Definition merge_front (sz : Z) (suf : list block) : list block :=
  match suf with (s, false) :: suf' => (sz + s, false) :: suf' | _ => (sz, false) :: suf end.
Definition merged (pre : list block) (sz : Z) (suf : list block) : list block :=
  match last pre with
  | Some (s, false) => take (length pre - 1) pre ++ merge_front (s + sz) suf
  | _ => pre ++ merge_front sz suf
  end.

Lemma plug_forward_rep pre sz suf m : heap_seg (pre ++ (sz, false) :: suf) m ->
  exists it, plug_forward (total pre) m = Some (tt, with_items m it) /\
    heap_seg (pre ++ merge_front sz suf) (with_items m it).
Proof.
  intros R. destruct (seg_distinct _ _ _ _ _ R) as (D1 & D2 & D3 & D4 & D5 & D6 & D7 & D8).
  pose proof (header_at _ _ _ _ _ R) as H1. destruct (hs_addr _ _ R) as [Ha Hm].
  pose proof (header_behind (pre ++ [(sz, false)]) suf m) as H2. rewrite <- app_assoc in H2. cbn [app] in H2.
  destruct (H2 R) as (ib & Hb & Hcase & _). clear H2. rewrite total_app in Hb. cbn [total] in Hb. rewrite Z.add_0_r in Hb.
  unfold plug_forward. erewrite bind_eq by reflexivity. erewrite bind_eq by (apply item_eq, H1). cbn [it_next]. cbv zeta.
  erewrite bind_eq by (apply item_eq, Hb). rewrite (proj2 (Z.eqb_neq (total pre) _)) by lia.
  assert (match suf with (_, false) :: _ => False | _ => True end ->
    (negb false && negb (MEM_ISUSED ib) && negb (total pre + sz =? heap_end m)) = false) as Hno.
  { destruct suf as [|[s []] suf]; [|destruct Hcase as [-> _]; rewrite isused_word by lia; reflexivity|contradiction].
    intros _. destruct Hcase as [_ ->]. reflexivity. }
  destruct suf as [|[s []] suf]; cbn [merge_front].
  1,2: rewrite Hno by exact I; exists (sm_items m); rewrite with_items_self; split; [reflexivity|exact R].
  destruct Hcase as [-> _]. clear Hno. rewrite isused_word by lia. cbn [it_next] in *.
  pose proof (sizes_cons s false suf) as Hs. apply Hs in D8 as [[D8 _] D9]. pose proof (total_nonneg _ D9). cbn [total] in *.
  rewrite (proj2 (Z.eqb_neq _ (heap_end m))) by lia. cbn [negb andb when].
  assert ((lfree m =? total pre + sz) = false) as ->.
  { apply Z.eqb_neq. rewrite (hs_lfree _ _ R). pose proof (first_free_le 0 pre sz ((s, false) :: suf) D7). lia. }
  cbn [when]. erewrite bind_eq by reflexivity. rewrite total_app. cbn [total]. rewrite Z.add_0_r.
  destruct (merge_rep pre sz s suf m R) as (it & E & R'). exists it. split; [exact E|exact R'].
Qed.

Lemma plug_backward_rep pre sz suf m : heap_seg (pre ++ (sz, false) :: suf) m ->
  exists it, plug_backward (total pre) m = Some (tt, with_items m it) /\
    heap_seg (match last pre with
              | Some (s, false) => take (length pre - 1) pre ++ (s + sz, false) :: suf
              | _ => pre ++ (sz, false) :: suf
              end) (with_items m it).
Proof.
  intros R. destruct (seg_distinct _ _ _ _ _ R) as (D1 & D2 & D3 & D4 & D5 & D6 & D7 & D8).
  pose proof (header_at _ _ _ _ _ R) as H1. destruct (hs_addr _ _ R) as [Ha Hm].
  unfold plug_backward. erewrite bind_eq by reflexivity. erewrite bind_eq by (apply item_eq, H1). cbn [it_prev it_next]. cbv zeta.
  destruct (list_end pre) as [->|(pre0 & [s u] & ->)].
  - erewrite bind_eq by (apply item_eq; exact H1). rewrite Z.eqb_refl. exists (sm_items m). rewrite with_items_self.
    split; [reflexivity|exact R].
  - rewrite last_snoc, last_off_snoc, Z.add_0_l in *. pose proof R as R0. rewrite <- app_assoc in R0. cbn [app] in R0.
    pose proof (header_at _ _ _ _ _ R0) as H0. erewrite bind_eq by (apply item_eq, H0). rewrite total_app in *. cbn [total] in *.
    destruct (seg_distinct _ _ _ _ _ R0) as (_ & S2 & _ & _ & _ & _ & S7 & _).
    rewrite (proj2 (Z.eqb_neq (total pre0) _)) by lia. rewrite isused_word by lia. destruct u; cbn [negb andb when].
    + exists (sm_items m). rewrite with_items_self. split; [reflexivity|exact R].
    + rewrite length_app. cbn [length]. replace (length pre0 + 1 - 1)%nat with (length pre0) by lia. rewrite take_app_length.
      assert ((lfree m =? total pre0 + (s + 0)) = false) as ->.
      { apply Z.eqb_neq. rewrite (hs_lfree _ _ R0). pose proof (first_free_le 0 pre0 s ((sz, false) :: suf) S7). lia. }
      cbn [when]. erewrite bind_eq by reflexivity. rewrite Z.add_0_r in *.
      destruct (merge_rep pre0 s sz suf m R0) as (it & E & R'). exists it. split; [exact E|exact R'].
Qed.

Lemma plug_holes_rep pre sz suf m : heap_seg (pre ++ (sz, false) :: suf) m ->
  exists it, plug_holes (total pre) m = Some (tt, with_items m it) /\ heap_seg (merged pre sz suf) (with_items m it).
Proof.
  intros R. destruct (seg_distinct _ _ _ _ _ R) as (D1 & D2 & D3 & D4 & D5 & D6 & D7 & D8).
  unfold plug_holes. erewrite bind_eq by reflexivity.
  erewrite bind_eq by (apply assert_eq, Z.leb_le; lia). erewrite bind_eq by (apply assert_eq, Z.ltb_lt; lia).
  destruct (plug_forward_rep pre sz suf m R) as (it1 & E1 & R1). erewrite bind_eq by exact E1.
  assert (exists s' suf', merge_front sz suf = (s', false) :: suf') as (s' & suf' & Em) by (destruct suf as [|[? []] ?]; cbn; eauto).
  rewrite Em in R1. destruct (plug_backward_rep pre s' suf' _ R1) as (it2 & E2 & R2). exists it2. split; [exact E2|].
  unfold merged. destruct (last pre) as [[s []]|]; [rewrite Em; exact R2| |rewrite Em; exact R2].
  assert (merge_front (s + sz) suf = (s + s', false) :: suf') as ->; [|exact R2].
  destruct suf as [|[x []] y]; cbn in *; injection Em as <- <-; rewrite ?Z.add_assoc; reflexivity.
Qed.

(** ** What merging does to the blocks *)

Lemma no_holes_app a b : no_holes (a ++ b) <->
  no_holes a /\ no_holes b /\ ~ ((exists s, last a = Some (s, false)) /\ exists s b', b = (s, false) :: b').
Proof.
  induction a as [|[s u] a IH].
  - cbn. split; [intros H; split; [exact I|split; [exact H|intros [[? ?] _]; discriminate]]|tauto].
  - destruct a as [|[s' u'] a].
    + clear IH. cbn [app last]. destruct u.
      * cbn. split; [intros H; repeat split; auto; intros [[? [=]] _]|tauto].
      * destruct b as [|[s2 []] b]; cbn.
        -- split; [intros _; repeat split; auto; intros [_ (? & ? & [=])]|tauto].
        -- split; [intros H; repeat split; auto; intros [_ (? & ? & [=])]|tauto].
        -- split; [contradiction|]. intros (_ & _ & H). apply H. eauto.
    + change (((s, u) :: (s', u') :: a) ++ b) with ((s, u) :: (((s', u') :: a) ++ b)). rewrite last_cons_cons.
      destruct u, u'; cbn [app no_holes] in *; tauto.
Qed.

Lemma merge_front_no_holes sz suf : no_holes suf -> no_holes (merge_front sz suf).
Proof. destruct suf as [|[s []] [|[s' []] suf]]; cbn; tauto. Qed.

Lemma merge_front_head sz suf : exists s b, merge_front sz suf = (s, false) :: b.
Proof. destruct suf as [|[s []] suf]; cbn; eauto. Qed.

Lemma merged_cases pre sz suf :
  (exists pre0 s, pre = pre0 ++ [(s, false)] /\ merged pre sz suf = pre0 ++ merge_front (s + sz) suf) \/
  (forall s, last pre <> Some (s, false)) /\ merged pre sz suf = pre ++ merge_front sz suf.
Proof.
  unfold merged. destruct (list_end pre) as [->|(pre0 & [s u] & ->)]; [right; split; [discriminate|reflexivity]|].
  rewrite last_snoc. destruct u; [right; split; [congruence|reflexivity]|left].
  exists pre0, s. split; [reflexivity|]. rewrite length_app. cbn [length].
  replace (length pre0 + 1 - 1)%nat with (length pre0) by lia. rewrite take_app_length. reflexivity.
Qed.

Lemma merged_no_holes pre sz suf : no_holes pre -> no_holes suf -> no_holes (merged pre sz suf).
Proof.
  intros Hp Hs. destruct (merged_cases pre sz suf) as [(pre0 & s & -> & ->)|[Hl ->]]; apply no_holes_app.
  - apply no_holes_app in Hp as (Hp & _ & Hn). split; [exact Hp|]. split; [apply merge_front_no_holes, Hs|].
    intros [H _]. apply Hn. eauto.
  - split; [exact Hp|]. split; [apply merge_front_no_holes, Hs|]. intros [[s H] _]. exact (Hl s H).
Qed.

Lemma merge_front_use sz suf : in_use (merge_front sz suf) = in_use suf.
Proof. destruct suf as [|[s []] suf]; reflexivity. Qed.

Lemma merged_use pre sz suf : in_use (merged pre sz suf) = in_use pre + in_use suf.
Proof.
  destruct (merged_cases pre sz suf) as [(pre0 & s & -> & ->)|[_ ->]]; rewrite !in_use_app, merge_front_use; cbn; lia.
Qed.

(** The blocks in use with their offsets. *)
Fixpoint used_at (off : Z) (bs : list block) : list (Z * Z) :=
  match bs with [] => [] | (sz, u) :: bs => (if u : bool then [(off, sz)] else []) ++ used_at (off + sz) bs end.

Lemma used_at_app off a b : used_at off (a ++ b) = used_at off a ++ used_at (off + total a) b.
Proof.
  revert off. induction a as [|[s u] a IH]; intros off; cbn; [rewrite Z.add_0_r; reflexivity|].
  rewrite IH, app_assoc, Z.add_assoc. reflexivity.
Qed.

Lemma merge_front_used off sz suf : used_at off (merge_front sz suf) = used_at (off + sz) suf.
Proof. destruct suf as [|[s []] suf]; cbn; rewrite ?Z.add_assoc; reflexivity. Qed.

Lemma merged_used off pre sz suf : used_at off (merged pre sz suf) = used_at off pre ++ used_at (off + total pre + sz) suf.
Proof.
  destruct (merged_cases pre sz suf) as [(pre0 & s & -> & ->)|[_ ->]].
  - rewrite !used_at_app, merge_front_used, total_app. cbn. rewrite app_nil_r. do 2 f_equal. lia.
  - rewrite used_at_app, merge_front_used. reflexivity.
Qed.

(** ** Release *)

Lemma land_7 x : x mod 8 = 0 -> Z.land x (RT_ALIGN_SIZE - 1) = 0.
Proof. intros H. change (RT_ALIGN_SIZE - 1) with (Z.ones 3). rewrite Z.land_ones by lia. exact H. Qed.

Lemma mod8_add a b : a mod 8 = 0 -> b mod 8 = 0 -> (a + b) mod 8 = 0.
Proof. intros H1 H2. rewrite Zplus_mod, H1, H2. reflexivity. Qed.

Lemma first_free_freed off pre sz suf : sizes_ok pre -> 0 < sz -> sizes_ok suf ->
  (if off + total pre <? first_free off (pre ++ (sz, true) :: suf) then off + total pre
   else first_free off (pre ++ (sz, true) :: suf)) = first_free off (pre ++ (sz, false) :: suf).
Proof.
  intros Hp Hz Hs. rewrite !first_free_app. cbn [first_free]. destruct (forallb snd pre) eqn:E.
  - pose proof (first_free_bound (off + total pre + sz) suf Hs). rewrite (proj2 (Z.ltb_lt _ _)) by lia. reflexivity.
  - pose proof (first_free_bound off pre Hp). rewrite (proj2 (Z.ltb_ge _ _)) by lia. reflexivity.
Qed.

(** The address of the block behind [pre]. *)
Definition block_addr (m : rt_small_mem) (pre : list block) : Z := heap_ptr m + total pre + SIZEOF_STRUCT_MEM.

Lemma free_rep pre sz suf m : heap_rep (pre ++ (sz, true) :: suf) m ->
  exists m', rt_smem_free (Some (block_addr m pre)) m = Some (tt, m') /\ heap_rep (merged pre sz suf) m' /\
    same_heap m m' /\ sm_data m' = sm_data m.
Proof.
  intros [R Hh Hu]. destruct (seg_distinct _ _ _ _ _ R) as (D1 & D2 & D3 & D4 & D5 & D6 & D7 & D8).
  destruct (hs_addr _ _ R) as [Ha Hm]. destruct (hs_heap _ _ R) as (P1 & P2 & P3).
  pose proof (header_at _ _ _ _ _ R) as H1. pose proof (header_behind (pre ++ [(sz, true)]) suf m) as H2.
  rewrite <- app_assoc in H2. destruct (H2 R) as (ib & Hb & _ & Hpool). clear H2. rewrite total_app in Hb. cbn [total] in Hb.
  rewrite Z.add_0_r in Hb. unfold rt_smem_free, block_addr. rewrite header_eq.
  erewrite bind_eq by (apply assert_eq, Z.eqb_eq, land_7; auto using mod8_add).
  erewrite bind_eq by reflexivity. cbv zeta. replace (heap_ptr m + total pre + 16 - 16 - heap_ptr m) with (total pre) by lia.
  erewrite bind_eq by (apply item_eq, H1). cbn [it_next].
  rewrite pool_word, isused_word by lia.
  erewrite bind_eq by (apply assert_eq, andb_true_intro; split; [apply negb_true_iff, Z.eqb_neq; lia|apply Z.eqb_refl]).
  erewrite bind_eq by reflexivity. erewrite bind_eq by (apply assert_eq, R).
  erewrite bind_eq by (apply assert_eq, andb_true_intro; split; [apply Z.leb_le|apply Z.ltb_lt]; lia).
  erewrite bind_eq by (apply item_eq, Hb). erewrite bind_eq by (apply assert_eq, Z.eqb_eq, Hpool).
  erewrite bind_eq by (apply upd_item_eq, H1). rewrite (u32_small (total pre + sz - total pre)) by lia.
  replace (total pre + sz - total pre) with sz by lia.
  set (m1 := (m <| sm_items ::= <[total pre := mkItem (word (sm_addr m) false) (total pre + sz) (last_off 0 0 pre)]> |>)
    <| lfree := first_free 0 (pre ++ (sz, false) :: suf) |> <| sm_used ::= (fun u => u32 (u - sz)) |>).
  assert (heap_seg (pre ++ [(sz, false)] ++ suf) m1) as R1.
  { apply (heap_seg_change pre [(sz, true)] [(sz, false)] suf m m1); try exact R; cbn [total].
    - repeat split.
    - constructor; [cbn; lia|constructor].
    - reflexivity.
    - split; [|exact I]. apply lookup_insert_eq.
    - intros x Hx. apply lookup_insert_ne. lia.
    - intros x Hx. apply lookup_insert_ne. lia.
    - rewrite Z.add_0_r. intros i Hi. exists (it_prev i). unfold m1. cbn. rewrite lookup_insert_ne by lia. rewrite Hi.
      split; [destruct i; reflexivity|]. rewrite Hb in Hi. injection Hi as <-. destruct suf as [|[s u] suf]; [left; reflexivity|right].
      pose proof (seg_at (sm_addr m) (sm_items m) 0 0 (pre ++ [(sz, true)]) s u suf) as G. rewrite <- app_assoc in G.
      specialize (G (hs_seg _ _ R)). rewrite total_app, last_off_snoc in G. cbn [total] in G.
      replace (0 + (total pre + (sz + 0))) with (total pre + sz) in G by lia. rewrite Hb in G. injection G as ->. unfold last_off. cbn. lia.
    - reflexivity. }
  destruct (plug_holes_rep pre sz suf m1 R1) as (it & E & R2). exists (with_items m1 it).
  split; [|split; [split; [exact R2| |]|split; [repeat split|reflexivity]]].
  - pose proof (first_free_freed 0 pre sz suf D7 ltac:(lia) D8) as Ef. rewrite Z.add_0_l, <- (hs_lfree _ _ R) in Ef.
    assert (forall m0, lfree m0 = lfree m -> when (total pre <? lfree m) (set_lfree (total pre)) m0 =
      Some (tt, m0 <| lfree := first_free 0 (pre ++ (sz, false) :: suf) |>)) as Hw.
    { intros m0 E0. rewrite <- Ef. destruct (total pre <? lfree m); [reflexivity|]. rewrite <- E0. destruct m0. reflexivity. }
    erewrite bind_eq by (apply Hw; reflexivity). erewrite bind_eq by reflexivity. exact E.
  - apply no_holes_app in Hh as (Hp & Hs & _). apply merged_no_holes; [exact Hp|]. exact Hs.
  - rewrite merged_use. change (sm_used (with_items m1 it)) with (u32 (sm_used m - sz)). rewrite Hu, in_use_app. cbn [in_use].
    pose proof (in_use_bound _ D7). pose proof (in_use_bound _ D8). pose proof (heap_total_bound _ _ R). rewrite total_app in *. cbn [total] in *.
    rewrite u32_small by lia. lia.
Qed.

