(* ===== verification/MemAlloc.v ===== *)
(** * Allocation in the small memory allocator: first fit, splitting and resizing

    [alloc_rep] and [alloc_none_rep]: the block is the first free one that is large
    enough, or there is none.  The cases of [rt_smem_realloc] are [shrink_rep],
    [grow_rep] and the small ones. *)

From S2P Require Import Prelude Mem MemInv.
Open Scope rt_scope.

(** ** Allocation *)

(** A free block of size [sz] of which [size] bytes are taken. *)
Definition taken (sz size : Z) : list block :=
  if size + 32 <=? sz - 16 then [(size + 16, true); (sz - (size + 16), false)] else [(sz, true)].

Lemma taken_total sz size : total (taken sz size) = sz.
Proof. unfold taken. destruct (_ <=? _); cbn; lia. Qed.

Lemma taken_sizes sz size : 16 <= size -> size mod 8 = 0 -> 24 <= sz -> sz mod 8 = 0 -> sizes_ok (taken sz size).
Proof.
  intros. unfold taken. destruct (Z.leb_spec (size + 32) (sz - 16)); repeat constructor; cbn; try lia.
  - apply mod8_add; [assumption|reflexivity].
  - rewrite Zminus_mod, (mod8_add size 16), H2 by (assumption || reflexivity). reflexivity.
Qed.

(** The header behind a block refers to it. *)
Lemma prev_behind pre sz u suf m i : heap_seg (pre ++ (sz, u) :: suf) m -> sm_items m !! (total pre + sz) = Some i ->
  suf = [] \/ it_prev i = total pre.
Proof.
  intros R Hi. destruct suf as [|[s v] suf]; [left; reflexivity|right].
  pose proof (seg_at (sm_addr m) (sm_items m) 0 0 (pre ++ [(sz, u)]) s v suf) as G. rewrite <- app_assoc in G.
  specialize (G (hs_seg _ _ R)). rewrite total_app, last_off_snoc in G. cbn [total] in G.
  replace (0 + (total pre + (sz + 0))) with (total pre + sz) in G by lia. rewrite Hi in G. injection G as ->. cbn. lia.
Qed.

Lemma use_more_eq n m : exists mx, use_more n m = Some (tt, m <| sm_used := u32 (sm_used m + n) |> <| sm_max := mx |>).
Proof.
  unfold use_more. erewrite bind_eq by reflexivity. unfold st_modify. cbn.
  destruct (sm_max m <? u32 (sm_used m + n)); eexists; [reflexivity|]. instantiate (1 := sm_max m). destruct m. reflexivity.
Qed.

Definition take_post (pre : list block) (sz size : Z) (suf : list block) (m m1 : rt_small_mem) : Prop :=
  same_heap m m1 /\ sm_data m1 = sm_data m /\ lfree m1 = lfree m /\
  sm_used m1 = u32 (sm_used m + in_use (taken sz size)) /\
  forall m2, same_heap m1 m2 -> sm_items m2 = sm_items m1 -> lfree m2 = first_free 0 (pre ++ taken sz size ++ suf) ->
    heap_seg (pre ++ taken sz size ++ suf) m2.

Lemma take_whole pre sz suf size m :
  heap_seg (pre ++ (sz, false) :: suf) m -> (size + 32 <=? sz - 16) = false ->
  exists m1, take_block (total pre) size (mkItem (word (sm_addr m) false) (total pre + sz) (last_off 0 0 pre)) m = Some (tt, m1) /\
    take_post pre sz size suf m m1.
Proof.
  intros R Hsz. destruct (seg_distinct _ _ _ _ _ R) as (D1 & D2 & D3 & D4 & D5 & D6 & D7 & D8).
  pose proof (header_at _ _ _ _ _ R) as H1. destruct (hs_heap _ _ R) as (P1 & P2 & P3). destruct sizes_eq as (S1 & S2 & _).
  unfold take_block. erewrite bind_eq by reflexivity. cbn [it_next]. rewrite S1, S2.
  rewrite !(u32_small (total pre + sz - _)) by lia. replace (total pre + sz - (total pre + 16)) with (sz - 16) by lia.
  replace (size + 16 + 16) with (size + 32) by lia. rewrite Hsz. replace (total pre + sz - total pre) with sz by lia.
  destruct (use_more_eq sz m) as (mx & E). erewrite bind_eq by exact E.
  eexists. split; [apply upd_item_eq; exact H1|]. unfold take_post, taken. rewrite Hsz. cbn [in_use]. rewrite Z.add_0_r.
  split; [repeat split|]. split; [reflexivity|]. split; [reflexivity|]. split; [reflexivity|]. intros m2 Hsame Ei El.
  apply (heap_seg_change pre [(sz, false)] [(sz, true)] suf m m2); try exact R; try exact El; cbn [total]; rewrite ?Ei.
  - eapply same_heap_trans; [|exact Hsame]. repeat split.
  - constructor; [cbn; lia|constructor].
  - reflexivity.
  - split; [|exact I]. apply lookup_insert_eq.
  - intros x Hx. apply lookup_insert_ne. lia.
  - intros x Hx. apply lookup_insert_ne. lia.
  - rewrite Z.add_0_r. intros i Hi. exists (it_prev i). cbn. rewrite lookup_insert_ne by lia. rewrite Hi.
    split; [destruct i; reflexivity|]. destruct (prev_behind _ _ _ _ _ _ R Hi) as [->|E1]; [left; reflexivity|right]. rewrite E1. unfold last_off. cbn. lia.
Qed.

(** The header at offset [p2] of the rest of a block that is split at [n] bytes. *)
Definition split_block (o sz n : Z) (m : rt_small_mem) : SM unit :=
  set_item (o + 16 + n) (mkItem (MEM_FREED (sm_addr m)) (o + sz) o);;
  upd_item o (fun i => i <| it_next := o + 16 + n |>);;
  when (negb (o + sz =? heap_end m)) (upd_item (o + sz) (fun i => i <| it_prev := o + 16 + n |>)).

Lemma bind3_eq {S X} (a b c : st S unit) (d : st S X) s s' :
  (a;; b;; c) s = Some (tt, s') -> (a;; b;; c;; d) s = d s'.
Proof.
  unfold mbind, st_bind. destruct (a s) as [[[] s1]|]; [|discriminate]. destruct (b s1) as [[[] s2]|]; [|discriminate].
  intros ->. reflexivity.
Qed.

Lemma split_rep pre sz u suf n m : heap_seg (pre ++ (sz, u) :: suf) m -> n mod 8 = 0 -> 8 <= n -> n + 40 <= sz ->
  exists it, split_block (total pre) sz n m m = Some (tt, with_items m it) /\
    it !! total pre = Some (mkItem (word (sm_addr m) u) (total pre + 16 + n) (last_off 0 0 pre)) /\
    forall u' m2, same_heap m m2 ->
      sm_items m2 = <[total pre := mkItem (word (sm_addr m) u') (total pre + 16 + n) (last_off 0 0 pre)]> it ->
      lfree m2 = first_free 0 (pre ++ [(n + 16, u'); (sz - (n + 16), false)] ++ suf) ->
      heap_seg (pre ++ [(n + 16, u'); (sz - (n + 16), false)] ++ suf) m2.
Proof.
  intros R Hmod Hn Hsz. destruct (seg_distinct _ _ _ _ _ R) as (D1 & D2 & D3 & D4 & D5 & D6 & D7 & D8).
  pose proof (header_at _ _ _ _ _ R) as H1. pose proof (header_behind (pre ++ [(sz, u)]) suf m) as H2. rewrite <- app_assoc in H2.
  destruct (H2 R) as (ib & Hb & Hcase & _). clear H2. rewrite total_app in Hb, Hcase. cbn [total] in Hb, Hcase. rewrite Z.add_0_r in Hb, Hcase.
  set (p2 := total pre + 16 + n). set (it1 := <[total pre := mkItem (word (sm_addr m) u) p2 (last_off 0 0 pre)]>
    (<[p2 := mkItem (MEM_FREED (sm_addr m)) (total pre + sz) (total pre)]> (sm_items m))).
  exists (if negb (total pre + sz =? heap_end m) then <[total pre + sz := ib <| it_prev := p2 |>]> it1 else it1).
  split; [|split].
  - transitivity (split_block (total pre) sz n m (with_items m (sm_items m))); [rewrite with_items_self; reflexivity|].
    unfold split_block. fold p2. erewrite bind_eq by apply set_with.
    erewrite bind_eq by (apply upd_with; rewrite lookup_insert_ne by lia; exact H1). change (<[total pre := _]> _) with it1.
    destruct (negb (total pre + sz =? heap_end m)); [|reflexivity]. apply upd_with. unfold it1. rewrite !lookup_insert_ne by lia. exact Hb.
  - unfold it1. destruct (negb _); rewrite ?(lookup_insert_ne _ (total pre + sz)) by lia; apply lookup_insert_eq.
  - intros u' m2 Hsame Ei El. apply (heap_seg_change pre [(sz, u)] [(n + 16, u'); (sz - (n + 16), false)] suf m m2);
      try exact R; try exact El; try exact Hsame; cbn [total]; rewrite ?Ei.
    + constructor; [|constructor; [|constructor]]; cbn [fst]; (split; [lia|]); [apply mod8_add; [exact Hmod|reflexivity]|].
      rewrite Zminus_mod, D3, Zplus_mod, Hmod. reflexivity.
    + lia.
    + cbn [seg]. replace (total pre + (n + 16)) with p2 by (unfold p2; lia).
      split; [rewrite lookup_insert_eq; reflexivity|]. split; [|exact I]. rewrite lookup_insert_ne by (unfold p2; lia). unfold it1.
      destruct (negb _); rewrite ?(lookup_insert_ne _ (total pre + sz)) by (unfold p2; lia);
        rewrite lookup_insert_ne, lookup_insert_eq by (unfold p2; lia); do 2 f_equal; unfold p2; lia.
    + intros x Hx. unfold it1. destruct (negb _); rewrite !lookup_insert_ne by (unfold p2; lia); reflexivity.
    + intros x Hx. unfold it1. destruct (negb _); rewrite !lookup_insert_ne by (unfold p2; lia); reflexivity.
    + rewrite Z.add_0_r. intros i Hi. rewrite Hb in Hi. injection Hi as <-. rewrite lookup_insert_ne by lia.
      destruct (Z.eqb_spec (total pre + sz) (heap_end m)) as [Ee|Ee]; cbn [negb].
      * exists (it_prev ib). unfold it1. rewrite !lookup_insert_ne by (unfold p2; lia). rewrite Hb.
        split; [destruct ib; reflexivity|]. left. destruct suf as [|[s u0] suf]; [reflexivity|]. destruct Hcase as [_ Hlt]. lia.
      * exists p2. rewrite lookup_insert_eq. split; [reflexivity|]. right. unfold last_off, p2. cbn. lia.
Qed.

Lemma take_split pre sz suf size m :
  heap_seg (pre ++ (sz, false) :: suf) m -> size mod 8 = 0 -> 16 <= size -> (size + 32 <=? sz - 16) = true ->
  exists m1, take_block (total pre) size (mkItem (word (sm_addr m) false) (total pre + sz) (last_off 0 0 pre)) m = Some (tt, m1) /\
    take_post pre sz size suf m m1.
Proof.
  intros R Hmod Hsize Hsz. pose proof Hsz as Hle%Z.leb_le. destruct (seg_distinct _ _ _ _ _ R) as (D1 & D2 & D3 & D4 & D5 & D6 & _).
  destruct (hs_heap _ _ R) as (P1 & P2 & P3). destruct sizes_eq as (S1 & S2 & _).
  destruct (split_rep pre sz false suf size m R Hmod ltac:(lia) ltac:(lia)) as (it & E & Hat & Hseg).
  unfold take_block. erewrite bind_eq by reflexivity. cbn [it_next]. rewrite S1, S2.
  rewrite !(u32_small (total pre + sz - _)) by lia. replace (total pre + sz - (total pre + 16)) with (sz - 16) by lia.
  replace (size + 16 + 16) with (size + 32) by lia. rewrite Hsz. cbv zeta. rewrite (u32_small (total pre + 16 + size)) by lia.
  rewrite (u32_small (mem_size_aligned m + 16)) by (rewrite (hs_end _ _ R) in *; lia). rewrite <- (hs_end _ _ R).
  destruct (use_more_eq (size + 16) (with_items m it)) as (mx & Em). eexists. split.
  - erewrite bind_eq by (erewrite bind3_eq by exact E; exact Em). apply upd_item_eq. exact Hat.
  - unfold take_post, taken. rewrite Hsz. cbn [in_use]. rewrite Z.add_0_r.
    split; [repeat split|]. split; [reflexivity|]. split; [reflexivity|]. split; [reflexivity|]. intros m2 Hsame Ei El.
    apply Hseg; [|exact Ei|exact El]. eapply same_heap_trans; [|exact Hsame]. repeat split.
Qed.

Lemma take_block_rep pre sz suf size m :
  heap_seg (pre ++ (sz, false) :: suf) m -> size mod 8 = 0 -> 16 <= size ->
  exists m1, take_block (total pre) size (mkItem (word (sm_addr m) false) (total pre + sz) (last_off 0 0 pre)) m = Some (tt, m1) /\
    take_post pre sz size suf m m1.
Proof.
  intros R Hm Hs. destruct (size + 32 <=? sz - 16) eqn:E; [apply take_split|apply take_whole]; assumption.
Qed.

(** ** Walking *)

(** The walk has no more rounds than there are headers. *)
Fixpoint offsets (off : Z) (bs : list block) : list Z :=
  match bs with [] => [] | (sz, _) :: bs => off :: offsets (off + sz) bs end.

Lemma offsets_ge off bs o : sizes_ok bs -> o ∈ offsets off bs -> off <= o.
Proof.
  intros Hs. revert off. induction Hs as [|[sz u] bs [H _] Hs IH]; intros off; cbn in *.
  - intros Hin. destruct (not_elem_of_nil _ Hin).
  - intros [->|Hin]%elem_of_cons; [lia|]. specialize (IH _ Hin). lia.
Qed.

Lemma walk_fuel_enough addr it prev off bs : sizes_ok bs -> seg addr it prev off bs -> (length bs <= size it)%nat.
Proof.
  intros Hs Hseg. assert (NoDup (offsets off bs)) as Hn.
  { clear Hseg prev. revert off. induction Hs as [|[sz u] bs [H _] Hs IH]; intros off; cbn in *; constructor; [|apply IH].
    intros Hin. apply (offsets_ge _ _ _ Hs) in Hin. lia. }
  assert (list_to_set (offsets off bs) ⊆ dom it) as Hsub.
  { intros o Ho. apply elem_of_list_to_set in Ho. apply elem_of_dom. clear Hs Hn. revert prev off Hseg Ho.
    induction bs as [|[sz u] bs IH]; intros prev off Hseg Ho; cbn in *; [destruct (not_elem_of_nil _ Ho)|].
    destruct Hseg as [H1 H2]. apply elem_of_cons in Ho as [->|Ho]; [eauto|]. eapply IH; eassumption. }
  assert (length (offsets off bs) = length bs) as El by (clear; revert off; induction bs as [|[sz u] bs IH]; intros off; cbn; auto).
  rewrite <- El, <- (size_list_to_set (C := gset Z)) by exact Hn. rewrite <- size_dom. apply subseteq_size, Hsub.
Qed.

Lemma next_free_rep bs : forall off prev fuel m,
  0 < sm_addr m < 2 ^ 32 /\ sm_addr m mod 8 = 0 -> sizes_ok bs -> seg (sm_addr m) (sm_items m) prev off bs ->
  off + total bs = heap_end m -> (exists i, sm_items m !! heap_end m = Some i /\ MEM_ISUSED i = true) ->
  lfree m = off -> (length bs < fuel)%nat ->
  next_free fuel m = Some (tt, m <| lfree := first_free off bs |>).
Proof.
  induction bs as [|[sz u] bs IH]; intros off prev [|fuel] m Ha Hs Hseg Ht He Hl Hf; cbn [length] in Hf; try lia;
    cbn [next_free]; erewrite bind_eq by reflexivity; rewrite Hl.
  - cbn [total] in Ht. rewrite Z.add_0_r in Ht. destruct He as (i & E & Eu). rewrite <- Ht in E.
    erewrite bind_eq by (apply item_eq; exact E). rewrite Ht, Z.eqb_refl, andb_false_r. cbn [first_free].
    rewrite <- Ht, <- Hl. destruct m. reflexivity.
  - cbn [seg] in Hseg. destruct Hseg as [H1 H2]. apply sizes_cons in Hs as [[Hs _] Hs']. cbn [total] in Ht.
    erewrite bind_eq by (apply item_eq; exact H1). rewrite isused_word by lia. pose proof (total_nonneg _ Hs').
    rewrite (proj2 (Z.eqb_neq off (heap_end m))) by lia. cbn [first_free it_next]. destruct u; cbn [negb andb].
    + erewrite bind_eq by reflexivity. set (m0 := m <| lfree := off + sz |>).
      replace (m <| lfree := first_free (off + sz) bs |>) with (m0 <| lfree := first_free (off + sz) bs |>)
        by (unfold m0; destruct m; reflexivity).
      apply (IH (off + sz) off fuel m0 Ha Hs' H2); [change (heap_end m0) with (heap_end m); lia|exact He|reflexivity|lia].
    + rewrite <- Hl. destruct m. reflexivity.
Qed.

(** The whole of the allocation in a block that is large enough. *)
Lemma first_free_taken pre sz size suf : sizes_ok pre -> 24 <= sz ->
  first_free 0 (pre ++ (sz, false) :: suf) <> total pre ->
  first_free 0 (pre ++ taken sz size ++ suf) = first_free 0 (pre ++ (sz, false) :: suf).
Proof. intros Hp Hs. rewrite !first_free_app. destruct (forallb snd pre); [cbn; intros []; lia|reflexivity]. Qed.

Lemma first_free_here pre sz suf : sizes_ok pre -> first_free 0 (pre ++ (sz, false) :: suf) = total pre -> forallb snd pre = true.
Proof.
  rewrite first_free_app. destruct (forallb snd pre) eqn:E; [reflexivity|]. intros Hs.
  assert (forall off bs, sizes_ok bs -> forallb snd bs = false -> first_free off bs < off + total bs) as H.
  { clear. intros off bs Hs. revert off. induction Hs as [|[sz u] bs [H _] Hs IH]; intros off E; [discriminate|].
    cbn in *. pose proof (total_nonneg _ Hs). destruct u; [specialize (IH (off + sz) E); lia|lia]. }
  specialize (H 0 pre Hs E). lia.
Qed.

(** The first free block, when there is one. *)
Lemma first_free_split off bs : sizes_ok bs -> first_free off bs <> off + total bs ->
  exists b1 s b2, bs = b1 ++ (s, false) :: b2 /\ first_free off bs = off + total b1 /\ forallb snd b1 = true.
Proof.
  intros Hs. revert off. induction Hs as [|[sz u] bs _ Hs IH]; intros off; cbn; [lia|]. destruct u.
  - rewrite Z.add_assoc. intros H. destruct (IH _ H) as (b1 & s & b2 & -> & E & Hb). exists ((sz, true) :: b1), s, b2.
    split; [reflexivity|]. cbn. split; [rewrite E; lia|exact Hb].
  - intros _. exists [], sz, bs. cbn. split; [reflexivity|]. split; [lia|reflexivity].
Qed.

Definition alloc_post (pre : list block) (sz size : Z) (suf : list block) (m m' : rt_small_mem) : Prop :=
  same_heap m m' /\ sm_data m' = sm_data m /\ sm_used m' = u32 (sm_used m + in_use (taken sz size)) /\
  heap_seg (pre ++ taken sz size ++ suf) m'.

(** [lfree] after the block it named has been taken. *)
Lemma next_lowest pre bs m : let m0 := m <| lfree := first_free 0 (pre ++ bs) |> in
  heap_seg (pre ++ bs) m0 -> forallb snd pre = true -> lfree m = total pre ->
  (next_free (walk_fuel m);; m' ← st_get; it ← item (lfree m');
   rt_assert ((lfree m' =? heap_end m') || negb (MEM_ISUSED it))) m = Some (tt, m0).
Proof.
  intros m0 R0 Hpre Hl. destruct (hs_heap _ _ R0) as (P1 & _ & P3). pose proof (hs_addr _ _ R0) as Ha.
  pose proof (hs_sizes _ _ R0) as Hs. pose proof (hs_total _ _ R0) as Ht. pose proof (hs_seg _ _ R0) as G.
  destruct (hs_last _ _ R0) as (p & Ep). change (sm_items m0) with (sm_items m) in *.
  change (sm_addr m0) with (sm_addr m) in *. change (heap_end m0) with (heap_end m) in *. change (heap_ptr m0) with (heap_ptr m) in *.
  assert (first_free 0 (pre ++ bs) = first_free (total pre) bs) as Eff by (rewrite first_free_app, Hpre; reflexivity).
  apply seg_app in G as [_ G]. rewrite Z.add_0_l in G.
  apply sizes_app in Hs as [Sp St]. rewrite total_app in Ht.
  erewrite bind_eq.
  2: { apply (next_free_rep bs (total pre) (last_off 0 0 pre)); try assumption; try lia.
       - eexists. split; [exact Ep|]. apply isused_word; lia.
       - unfold walk_fuel. pose proof (walk_fuel_enough _ _ _ _ _ St G). lia. }
  rewrite <- Eff. erewrite bind_eq by reflexivity. fold m0. change (lfree m0) with (first_free 0 (pre ++ bs)). rewrite Eff.
  change (heap_end m0) with (heap_end m).
  destruct (Z.eqb_spec (first_free (total pre) bs) (heap_end m)) as [Ee|Ee].
  - erewrite bind_eq by (apply item_eq; rewrite Ee; exact Ep). reflexivity.
  - destruct (first_free_split (total pre) bs St) as (b1 & s & b2 & Eb & Ef & _); [lia|].
    rewrite Ef. rewrite Eb in G. apply seg_at in G. erewrite bind_eq by (apply item_eq; exact G).
    apply assert_eq. cbn [orb]. rewrite isused_word by lia. reflexivity.
Qed.

Lemma alloc_here_rep pre sz suf size m :
  heap_seg (pre ++ (sz, false) :: suf) m -> size mod 8 = 0 -> 16 <= size <= sz - 16 ->
  exists m', alloc_here (total pre) size (mkItem (word (sm_addr m) false) (total pre + sz) (last_off 0 0 pre)) m =
      Some (block_addr m pre, m') /\ alloc_post pre sz size suf m m'.
Proof.
  intros R Hmod Hsize. destruct (seg_distinct _ _ _ _ _ R) as (D1 & D2 & D3 & D4 & D5 & D6 & D7 & D8).
  destruct (hs_heap _ _ R) as (P1 & P2 & P3).
  destruct (take_block_rep pre sz suf size m R Hmod ltac:(lia)) as (m1 & E1 & Hsame & Hdata & Hl & Hu & Hseg).
  set (m2 := m1 <| lfree := first_free 0 (pre ++ taken sz size ++ suf) |>).
  assert (heap_seg (pre ++ taken sz size ++ suf) m2) as R2 by (apply Hseg; [repeat split|reflexivity|reflexivity]).
  exists m2. split; [|split; [eapply same_heap_trans; [exact Hsame|repeat split]|]; split; [exact Hdata|]; split; [exact Hu|exact R2]].
  unfold alloc_here. erewrite bind_eq by exact E1. erewrite bind_eq by reflexivity. erewrite bind_eq.
  2: { instantiate (1 := m2). instantiate (1 := tt). destruct (Z.eqb_spec (total pre) (lfree m1)) as [Heq|Hne]; cbn [when].
       - apply next_lowest; [exact R2| |congruence].
         apply (first_free_here pre sz suf D7). rewrite <- (hs_lfree _ _ R), <- Hl. symmetry. exact Heq.
       - unfold m2. rewrite first_free_taken, <- (hs_lfree _ _ R), <- Hl; [destruct m1; reflexivity|exact D7|lia|].
         rewrite <- (hs_lfree _ _ R), <- Hl. congruence. }
  destruct Hsame as (Sa & _ & _ & Sh & Se & _). erewrite bind_eq by reflexivity.
  change (heap_end m2) with (heap_end m1). change (heap_ptr m2) with (heap_ptr m1). rewrite Sh, Se, header_eq.
  rewrite (u32_small (heap_ptr m + total pre)), (u32_small (heap_ptr m + total pre + 16)) by lia.
  erewrite bind_eq by (apply assert_eq, Z.leb_le; lia).
  erewrite bind_eq.
  2: { apply assert_eq, Z.eqb_eq. change RT_ALIGN_SIZE with 8. apply mod8_add; [apply mod8_add; assumption|reflexivity]. }
  erewrite bind_eq by (apply assert_eq, Z.eqb_eq, land_7, mod8_add; assumption).
  reflexivity.
Qed.

(** ** The search *)

(** A block from which [size] bytes can be taken. *)
Definition fits (size : Z) (b : block) : bool := negb (snd b) && (size + SIZEOF_STRUCT_MEM <=? fst b).
Definition none_fits (size : Z) (bs : list block) : Prop := forallb (fun b => negb (fits size b)) bs = true.

Lemma none_fits_app size a b : none_fits size (a ++ b) <-> none_fits size a /\ none_fits size b.
Proof. unfold none_fits. rewrite forallb_app. apply andb_true_iff. Qed.

Lemma used_none_fits size bs : forallb snd bs = true -> none_fits size bs.
Proof. unfold none_fits. induction bs as [|[sz u] bs IH]; cbn; [reflexivity|]. destruct u; [exact IH|discriminate]. Qed.

(** Nothing fits when the room that is left is too small. *)
Lemma short_none_fits size bs : sizes_ok bs -> total bs < size + 16 -> none_fits size bs.
Proof.
  intros Hs. unfold none_fits. induction Hs as [|[sz u] bs [H _] Hs IH]; cbn; intros Ht; [reflexivity|].
  pose proof (total_nonneg _ Hs). cbn in H. apply andb_true_iff. split; [|apply IH; lia].
  unfold fits. cbn [fst snd]. rewrite header_eq, (proj2 (Z.leb_gt (size + 16) sz)) by lia. destruct u; reflexivity.
Qed.

(** One round of the search. *)
Lemma loop_step pre sz u suf size fuel m : heap_seg (pre ++ (sz, u) :: suf) m ->
  16 <= size <= mem_size_aligned m - total pre ->
  alloc_loop (S fuel) (total pre) size m =
    if fits size (sz, u) then
      (p ← alloc_here (total pre) size (mkItem (word (sm_addr m) u) (total pre + sz) (last_off 0 0 pre)); mret (Some p)) m
    else alloc_loop fuel (total (pre ++ [(sz, u)])) size m.
Proof.
  intros R Hsize. destruct (seg_distinct _ _ _ _ _ R) as (D1 & D2 & D3 & D4 & D5 & D6 & _). pose proof (hs_addr _ _ R).
  pose proof (hs_end _ _ R). destruct (hs_heap _ _ R) as (P1 & _ & P3). cbn [alloc_loop]. erewrite bind_eq by reflexivity.
  rewrite u32_small by lia. rewrite (proj2 (Z.leb_le (total pre) _)) by lia.
  erewrite bind_eq by (apply item_eq; apply header_at with (1 := R)). rewrite isused_word by lia. cbn [it_next].
  unfold fits. cbn [fst snd]. rewrite header_eq, u32_small by lia. rewrite total_app. cbn [total]. rewrite Z.add_0_r.
  replace (size <=? total pre + sz - (total pre + 16)) with (size + 16 <=? sz); [destruct (negb u && _); reflexivity|].
  apply eq_iff_eq_true. rewrite !Z.leb_le. lia.
Qed.

Lemma loop_none size bs : forall pre fuel m, heap_seg (pre ++ bs) m -> 16 <= size <= mem_size_aligned m ->
  none_fits size bs -> (length bs < fuel)%nat -> alloc_loop fuel (total pre) size m = Some (None, m).
Proof.
  induction bs as [|[sz u] bs IH]; intros pre [|fuel] m R Hsize Hn Hf; cbn [length] in Hf; try lia;
    pose proof (hs_end _ _ R); pose proof (hs_total _ _ R) as Ht; destruct (hs_heap _ _ R) as (P1 & _ & P3).
  - rewrite app_nil_r in Ht. cbn [alloc_loop]. erewrite bind_eq by reflexivity. rewrite u32_small by lia.
    rewrite (proj2 (Z.leb_gt (total pre) _)) by lia. reflexivity.
  - destruct (Z.le_gt_cases (total pre) (mem_size_aligned m - size)) as [Hle|Hlt].
    + rewrite (loop_step _ _ _ _ _ _ _ R) by lia. unfold none_fits in Hn. cbn [forallb] in Hn. apply andb_true_iff in Hn as [Hb Hn].
      apply negb_true_iff in Hb. rewrite Hb. apply IH; [rewrite <- app_assoc; exact R|exact Hsize|exact Hn|lia].
    + cbn [alloc_loop]. erewrite bind_eq by reflexivity. rewrite u32_small by lia.
      rewrite (proj2 (Z.leb_gt (total pre) _)) by lia. reflexivity.
Qed.

Lemma loop_found size b1 sz b2 : forall pre fuel m, heap_seg (pre ++ b1 ++ (sz, false) :: b2) m ->
  16 <= size <= sz - 16 -> size mod 8 = 0 -> none_fits size b1 -> (length b1 < fuel)%nat ->
  exists m', alloc_loop fuel (total pre) size m = Some (Some (block_addr m (pre ++ b1)), m') /\
    alloc_post (pre ++ b1) sz size b2 m m'.
Proof.
  induction b1 as [|[s u] b1 IH]; intros pre [|fuel] m R Hsize Hmod Hn Hf; cbn [length] in Hf; try lia;
    pose proof (hs_end _ _ R).
  - rewrite app_nil_r. destruct (seg_distinct _ _ _ _ _ R) as (D1 & D2 & D3 & D4 & D5 & D6 & _).
    rewrite (loop_step _ _ _ _ _ _ _ R) by lia. unfold fits. cbn [fst snd negb andb].
    rewrite header_eq, (proj2 (Z.leb_le _ _)) by lia.
    destruct (alloc_here_rep pre sz b2 size m R Hmod Hsize) as (m' & E & P). exists m'. split; [|exact P].
    erewrite bind_eq by exact E. reflexivity.
  - assert (heap_seg ((pre ++ (s, u) :: b1) ++ (sz, false) :: b2) m) as R' by (rewrite <- app_assoc; exact R).
    destruct (seg_distinct _ _ _ _ _ R') as (D1 & D2 & D3 & D4 & D5 & D6 & D7 & _).
    apply sizes_app in D7 as [S1 [_ S2]%sizes_cons]. rewrite total_app, total_cons in D6. pose proof (total_nonneg _ S2).
    rewrite (loop_step _ _ _ _ _ _ _ R) by (pose proof (proj1 (seg_distinct _ _ _ _ _ R)); destruct (seg_distinct _ _ _ _ _ R) as (_ & ? & _); lia).
    unfold none_fits in Hn. cbn [forallb] in Hn. apply andb_true_iff in Hn as [Hb Hn]. apply negb_true_iff in Hb. rewrite Hb.
    replace (pre ++ (s, u) :: b1) with ((pre ++ [(s, u)]) ++ b1) by (rewrite <- app_assoc; reflexivity).
    apply IH; [rewrite <- app_assoc; exact R|exact Hsize|exact Hmod|exact Hn|lia].
Qed.

(** ** Allocation *)

(** The bytes taken for a request of [size], rounding included. *)
Definition need (size : Z) : Z := Z.max MIN_SIZE_ALIGNED (RT_ALIGN size RT_ALIGN_SIZE).

Lemma RT_ALIGN_8_mod x : RT_ALIGN x 8 mod 8 = 0 /\ 0 <= RT_ALIGN x 8 < 2 ^ 32.
Proof.
  unfold RT_ALIGN. pose proof (u32_range (x + 8 - 1)). replace (Z.land _ _) with (RT_ALIGN_DOWN (u32 (x + 8 - 1)) 8) by reflexivity.
  rewrite RT_ALIGN_DOWN_8 by assumption. Z.to_euclidean_division_equations; lia.
Qed.

Lemma need_ok size : 16 <= need size < 2 ^ 32 /\ need size mod 8 = 0.
Proof.
  unfold need. destruct sizes_eq as (-> & _). change RT_ALIGN_SIZE with 8. destruct (RT_ALIGN_8_mod size) as [H1 H2].
  split; [lia|]. destruct (Z.max_spec 16 (RT_ALIGN size 8)) as [[_ ->]|[_ ->]]; [exact H1|reflexivity].
Qed.

Lemma alloc_enter size m : sm_valid m = true -> size <> 0 ->
  rt_smem_alloc size m =
    if mem_size_aligned m <? need size then Some (None, m) else alloc_loop (walk_fuel m) (lfree m) (need size) m.
Proof.
  intros Hv Hs. unfold rt_smem_alloc. rewrite (proj2 (Z.eqb_neq _ _) Hs). erewrite bind_eq by reflexivity.
  erewrite bind_eq by (apply assert_eq; exact Hv).
  replace (if RT_ALIGN size RT_ALIGN_SIZE <? MIN_SIZE_ALIGNED then MIN_SIZE_ALIGNED else RT_ALIGN size RT_ALIGN_SIZE) with (need size).
  - destruct (mem_size_aligned m <? need size); reflexivity.
  - unfold need. destruct (Z.ltb_spec (RT_ALIGN size RT_ALIGN_SIZE) MIN_SIZE_ALIGNED); lia.
Qed.

Lemma first_free_none off bs : sizes_ok bs -> first_free off bs = off + total bs -> forallb snd bs = true.
Proof.
  intros Hs. revert off. induction Hs as [|[sz u] bs [H _] Hs IH]; intros off E; [reflexivity|]. cbn in *.
  pose proof (total_nonneg _ Hs). destruct u; [|lia]. apply (IH (off + sz)). lia.
Qed.

(** The blocks before [lfree]. *)
Lemma lfree_split bs m : heap_seg bs m -> exists pre rest, bs = pre ++ rest /\ forallb snd pre = true /\ lfree m = total pre /\
  (length rest < walk_fuel m)%nat.
Proof.
  intros R. pose proof (hs_sizes _ _ R) as Hs. pose proof (walk_fuel_enough _ _ _ _ _ Hs (hs_seg _ _ R)) as Hf.
  destruct (Z.eq_dec (first_free 0 bs) (0 + total bs)) as [E|E].
  - exists bs, []. rewrite app_nil_r, (hs_lfree _ _ R). split; [reflexivity|].
    split; [|split; [lia|unfold walk_fuel; cbn; lia]].
    exact (first_free_none 0 bs Hs E).
  - destruct (first_free_split 0 bs Hs E) as (b1 & s & b2 & -> & Ef & Hb). exists b1, ((s, false) :: b2).
    rewrite (hs_lfree _ _ R). split; [reflexivity|]. split; [exact Hb|]. split; [lia|].
    unfold walk_fuel. rewrite length_app in Hf. lia.
Qed.

Lemma alloc_none_rep size bs m : heap_rep bs m -> none_fits (need size) bs -> size <> 0 ->
  rt_smem_alloc size m = Some (None, m).
Proof.
  intros [R _ _] Hn Hs. rewrite alloc_enter by (exact Hs || apply R).
  destruct (Z.ltb_spec (mem_size_aligned m) (need size)) as [|Hle]; [reflexivity|].
  destruct (lfree_split _ _ R) as (pre & rest & -> & _ & -> & Hf). apply none_fits_app in Hn as [_ Hn].
  apply loop_none with (bs := rest); try assumption. pose proof (need_ok size). lia.
Qed.

Lemma taken_use sz size : 0 < sz -> 0 <= size -> 0 <= in_use (taken sz size) <= sz.
Proof. unfold taken. intros. destruct (Z.leb_spec (size + 32) (sz - 16)); cbn; lia. Qed.

Lemma taken_no_holes b1 sz size b2 : no_holes (b1 ++ (sz, false) :: b2) -> no_holes (b1 ++ taken sz size ++ b2).
Proof.
  rewrite !no_holes_app. intros (H1 & H2 & _). split; [exact H1|].
  assert (no_holes b2) as H3 by (destruct b2 as [|[s []] b2]; cbn in H2 |- *; tauto).
  unfold taken. destruct (size + 32 <=? sz - 16).
  - split; [|intros [_ (? & ? & [=])]]. split; [exact I|]. split; [exact H3|]. intros [_ (s & b' & ->)]. exact H2.
  - split; [|intros [_ (? & ? & [=])]]. split; [exact I|]. split; [exact H3|]. intros [[? [=]] _].
Qed.

(** The first block that is large enough is taken. *)
Lemma alloc_rep size b1 sz b2 m : heap_rep (b1 ++ (sz, false) :: b2) m -> none_fits (need size) b1 -> need size <= sz - 16 ->
  size <> 0 ->
  exists m', rt_smem_alloc size m = Some (Some (block_addr m b1), m') /\ heap_rep (b1 ++ taken sz (need size) ++ b2) m' /\
    same_heap m m' /\ sm_data m' = sm_data m.
Proof.
  intros [R Hh Hu] Hn Hsz Hs. destruct (seg_distinct _ _ _ _ _ R) as (D1 & D2 & D3 & D4 & D5 & D6 & D7 & D8).
  pose proof (hs_end _ _ R). destruct (need_ok size) as [Hb Hm]. rewrite alloc_enter by (exact Hs || apply R).
  rewrite (proj2 (Z.ltb_ge _ _)) by lia. destruct (lfree_split _ _ R) as (pre & rest & E & Hused & -> & Hf).
  assert (exists c, b1 = pre ++ c /\ rest = c ++ (sz, false) :: b2) as (c & -> & ->).
  { clear - E Hused. revert b1 E. induction pre as [|x pre IH]; intros b1 E; [exists b1; auto|].
    cbn in Hused. apply andb_true_iff in Hused as [Hx Hp]. destruct b1 as [|y b1]; injection E as <- E; [discriminate|].
    destruct (IH Hp b1 E) as (c & -> & ->). exists c. auto. }
  rewrite <- app_assoc in R. apply none_fits_app in Hn as [_ Hn]. rewrite length_app in Hf.
  destruct (loop_found (need size) c sz b2 pre (walk_fuel m) m R) as (m' & E' & Hsame & Hd & Hu' & R'); try assumption; [lia..|].
  exists m'. split; [exact E'|]. split; [|split; assumption]. split; [exact R'|apply taken_no_holes, Hh|].
  rewrite Hu', Hu, !in_use_app. pose proof (taken_use sz (need size)). cbn [in_use].
  pose proof (in_use_bound _ D7). pose proof (in_use_bound _ D8). pose proof (heap_total_bound _ _ R) as Ht.
  rewrite !total_app, total_cons in Ht. rewrite in_use_app, total_app in *. rewrite u32_small by lia. lia.
Qed.

(** One of the two cases is there. *)
Lemma first_fit size bs : none_fits size bs \/
  exists b1 sz b2, bs = b1 ++ (sz, false) :: b2 /\ none_fits size b1 /\ size <= sz - 16.
Proof.
  induction bs as [|[sz u] bs IH]; [left; reflexivity|]. destruct (fits size (sz, u)) eqn:E.
  - right. unfold fits in E. apply andb_true_iff in E as [E1 E2]. cbn in E1. destruct u; [discriminate|].
    exists [], sz, bs. split; [reflexivity|]. split; [reflexivity|]. rewrite header_eq in E2. apply Z.leb_le in E2. cbn in E2. lia.
  - destruct IH as [H|(b1 & s & b2 & -> & H & Hs)]; [left|right; exists ((sz, u) :: b1), s, b2; split; [reflexivity|]; split; [|exact Hs]];
      unfold none_fits; cbn [forallb]; rewrite E; exact H.
Qed.

(** ** Resizing *)

Lemma heap_seg_same bs m m' : heap_seg bs m -> same_heap m m' -> sm_items m' = sm_items m -> lfree m' = lfree m -> heap_seg bs m'.
Proof.
  intros [] (Ea & Ev & _ & Eh & Ee & Em) Ei El. split; rewrite ?Ea, ?Ev, ?Eh, ?Ee, ?Em, ?Ei, ?El; assumption.
Qed.

(** [rt_smem_realloc] of a block in use, to a size between 8 and that of the heap. *)
Lemma realloc_enter pre sz suf newsize m : heap_seg (pre ++ (sz, true) :: suf) m -> let n := RT_ALIGN newsize 8 in
  0 < n <= mem_size_aligned m ->
  let a := block_addr m pre in let o := total pre in
  rt_smem_realloc (Some a) newsize m =
    (if sz - 16 =? n then mret (Some a)
     else if n + 28 <? sz - 16 then
       use_less (u32 (sz - 16 - n));;
       set_item (u32 (o + 16 + n)) (mkItem (MEM_FREED (sm_addr m)) (o + sz) o);;
       upd_item o (fun i => i <| it_next := u32 (o + 16 + n) |>);;
       when (negb (o + sz =? heap_end m)) (upd_item (o + sz) (fun i => i <| it_prev := u32 (o + 16 + n) |>));;
       when (u32 (o + 16 + n) <? lfree m) (set_lfree (u32 (o + 16 + n)));;
       plug_holes (u32 (o + 16 + n));;
       mret (Some a)
     else
       nmem ← rt_smem_alloc n;
       match nmem with
       | Some p =>
           st_modify (fun m => m <| sm_data ::= copy_bytes p a (Z.to_nat (if sz - 16 <? n then sz - 16 else n)) |>);;
           rt_smem_free (Some a);; mret nmem
       | None => mret None
       end) m.
Proof.
  intros R n Hn a o. destruct (seg_distinct _ _ _ _ _ R) as (D1 & D2 & D3 & D4 & D5 & D6 & _).
  destruct (hs_heap _ _ R) as (P1 & P2 & P3). pose proof (hs_end _ _ R). unfold a, block_addr. rewrite header_eq.
  unfold rt_smem_realloc. erewrite bind_eq by reflexivity. erewrite bind_eq by (apply assert_eq, R). change RT_ALIGN_SIZE with 8 in *.
  fold n. rewrite (proj2 (Z.ltb_ge _ _)) by lia. rewrite (proj2 (Z.eqb_neq _ _)) by lia.
  erewrite bind_eq by (apply assert_eq, Z.eqb_eq, land_7; auto using mod8_add).
  erewrite bind_eq by (apply assert_eq, Z.leb_le; lia). erewrite bind_eq by (apply assert_eq, Z.ltb_lt; lia).
  rewrite header_eq. replace (heap_ptr m + total pre + 16 - 16 - heap_ptr m) with o by (unfold o; lia).
  erewrite bind_eq by (apply item_eq; apply header_at with (1 := R)). destruct sizes_eq as (_ & _ & ->).
  cbv zeta. cbn [it_next]. fold o. replace (n + 16 + 12) with (n + 28) by lia.
  rewrite (u32_small (o + sz - o - 16)), (u32_small (mem_size_aligned m + 16)) by (unfold o; lia). replace (o + sz - o - 16) with (sz - 16) by lia.
  replace (mem_size_aligned m + 16) with (heap_end m) by lia. reflexivity.
Qed.

(** A block is made shorter: the rest is free and joins a free block behind it. *)
Lemma shrink_rep pre sz suf newsize m : heap_rep (pre ++ (sz, true) :: suf) m -> let n := RT_ALIGN newsize 8 in
  0 < n -> n + 28 < sz - 16 ->
  exists m', rt_smem_realloc (Some (block_addr m pre)) newsize m = Some (Some (block_addr m pre), m') /\
    heap_rep (pre ++ (n + 16, true) :: merge_front (sz - (n + 16)) suf) m' /\ same_heap m m' /\ sm_data m' = sm_data m.
Proof.
  intros [R Hh Hu] n Hn Hsz. destruct (seg_distinct _ _ _ _ _ R) as (D1 & D2 & D3 & D4 & D5 & D6 & D7 & D8).
  destruct (hs_heap _ _ R) as (P1 & P2 & P3). pose proof (hs_end _ _ R) as He. destruct (RT_ALIGN_8_mod newsize) as [M1 M2]. fold n in M1, M2.
  assert (8 <= n) as Hn8 by (Z.to_euclidean_division_equations; lia).
  rewrite realloc_enter with (suf := suf) (sz := sz) by (exact R || (fold n; lia)). fold n.
  rewrite (proj2 (Z.eqb_neq _ _)) by lia. rewrite (proj2 (Z.ltb_lt _ _)) by lia.
  rewrite (u32_small (sz - 16 - n)), (u32_small (total pre + 16 + n)) by lia. erewrite bind_eq by reflexivity.
  set (m1 := m <| sm_used ::= fun u => u32 (u - (sz - 16 - n)) |>).
  assert (heap_seg (pre ++ (sz, true) :: suf) m1) as R1 by (apply (heap_seg_same _ m); [exact R|repeat split|reflexivity|reflexivity]).
  assert (n + 40 <= sz) as Hsz40 by (Z.to_euclidean_division_equations; lia). set (rest := sz - (n + 16)).
  destruct (split_rep pre sz true suf n m1 R1 M1 Hn8 Hsz40) as (it & E & Hat & Hseg).
  erewrite bind3_eq by exact E. set (pre' := pre ++ [(n + 16, true)]).
  assert (total pre' = total pre + 16 + n) as Et by (unfold pre'; rewrite total_app; cbn; lia).
  set (m2 := (with_items m1 it) <| lfree := first_free 0 (pre' ++ (rest, false) :: suf) |>).
  assert (when (total pre + 16 + n <? lfree m) (set_lfree (total pre + 16 + n)) (with_items m1 it) = Some (tt, m2)) as Ew.
  { unfold m2. rewrite <- (first_free_freed 0 pre' rest suf).
    - rewrite Z.add_0_l, Et. replace (first_free 0 (pre' ++ (rest, true) :: suf)) with (lfree m).
      + destruct (_ <? _); reflexivity.
      + rewrite (hs_lfree _ _ R). unfold pre'. rewrite <- app_assoc, !first_free_app. destruct (forallb snd pre); [|reflexivity].
        cbn. f_equal. unfold rest. lia.
    - apply sizes_app. split; [exact D7|]. apply sizes_cons. split; [|constructor]. split; [lia|]. apply mod8_add; [exact M1|reflexivity].
    - unfold rest. lia.
    - exact D8. }
  erewrite bind_eq by exact Ew. rewrite <- Et.
  assert (heap_seg (pre' ++ (rest, false) :: suf) m2) as R2.
  { unfold pre'. rewrite <- app_assoc. apply (Hseg true m2); [repeat split|symmetry; apply insert_id; exact Hat|].
    unfold m2, pre'. rewrite <- app_assoc. reflexivity. }
  destruct (plug_holes_rep pre' rest suf m2 R2) as (it' & E' & R3). erewrite bind_eq by exact E'.
  eexists. split; [reflexivity|]. apply no_holes_app in Hh as (Hp & Hs & Hn'). split; [|split; [repeat split|reflexivity]].
  destruct (merged_cases pre' rest suf) as [(x & y & Ex & _)|[_ Em]]; [apply app_inj_tail in Ex as [_ [=]]|].
  rewrite Em in R3. unfold pre' in R3. rewrite <- app_assoc in R3. split; [exact R3| |].
  - apply no_holes_app. split; [exact Hp|]. split; [apply (merge_front_no_holes rest suf), Hs|]. intros [_ (? & ? & [=])].
  - change (sm_used (with_items m2 it')) with (u32 (sm_used m - (sz - 16 - n))). rewrite Hu, !in_use_app. cbn [in_use].
    rewrite merge_front_use. pose proof (in_use_bound _ D7). pose proof (in_use_bound _ D8). pose proof (heap_total_bound _ _ R) as Ht.
    rewrite total_app, total_cons in Ht. rewrite u32_small by lia. lia.
Qed.

(** The block is moved: the new one is allocated, the bytes are copied, the old one is released. *)
Lemma grow_rep pre sz suf newsize m : heap_seg (pre ++ (sz, true) :: suf) m -> let n := RT_ALIGN newsize 8 in
  0 < n <= mem_size_aligned m -> sz - 16 <> n -> sz - 16 <= n + 28 ->
  let a := block_addr m pre in
  rt_smem_realloc (Some a) newsize m =
    (nmem ← rt_smem_alloc n;
     match nmem with
     | Some p =>
         st_modify (fun m => m <| sm_data ::= copy_bytes p a (Z.to_nat (Z.min (sz - 16) n)) |>);;
         rt_smem_free (Some a);; mret nmem
     | None => mret None
     end) m.
Proof.
  intros R n Hn H1 H2 a. unfold a. rewrite realloc_enter with (suf := suf) (sz := sz) by (exact R || exact Hn). fold n.
  rewrite (proj2 (Z.eqb_neq _ _)) by exact H1. rewrite (proj2 (Z.ltb_ge _ _)) by lia.
  replace (if sz - 16 <? n then sz - 16 else n) with (Z.min (sz - 16) n) by (destruct (Z.ltb_spec (sz - 16) n); lia). reflexivity.
Qed.
