(* ===== verification/MemSpec.v ===== *)
(** * What a client of the small memory allocator may rely on

    The abstract state is the list of the live blocks, each with its address and
    its length.  [spec_step] says what a call may do to it: a new block is aligned,
    long enough, inside the heap and apart from the others; releasing removes one
    block; resizing replaces one.  [op_step]: every call by a client that passes
    only live blocks is such a step, never a failed assertion. *)

From stdpp Require Import gmap sorting.
From S2P Require Import Prelude Mem MemInv MemAlloc.
Open Scope rt_scope.

Abbreviation blocks := (list (Z * Z)).

(** The live blocks of a heap that is laid out as [bs]. *)
Definition live_at (base off : Z) (bs : list block) : blocks :=
  map (fun b => (base + fst b + 16, snd b - 16)) (used_at off bs).
Definition live (bs : list block) (m : rt_small_mem) : blocks := live_at (heap_ptr m) 0 bs.

Definition apart (x y : Z * Z) : Prop := fst x + snd x <= fst y \/ fst y + snd y <= fst x.

(** The length that a request for [size] bytes asks for. *)
Definition big_enough (size len : Z) : Prop := size <= len \/ 2 ^ 32 - 7 <= size.

Inductive heap_op :=
  | OpAlloc (size : Z)
  | OpFree (a : Z)
  | OpRealloc (a : Z) (size : Z).

Definition run_op (op : heap_op) : SM (option Z) :=
  match op with
  | OpAlloc size => rt_smem_alloc size
  | OpFree a => rt_smem_free (Some a);; mret None
  | OpRealloc a size => rt_smem_realloc (Some a) size
  end.

Definition op_target (op : heap_op) : option Z :=
  match op with OpAlloc _ => None | OpFree a => Some a | OpRealloc a _ => Some a end.

(** What a call leaves of the bytes of the live blocks: those of the blocks that it is
    not about, and those of the block that is resized, as far as the new one goes. *)
Definition kept (op : heap_op) (r : option Z) (L : blocks) (m m' : rt_small_mem) : Prop :=
  (forall x l i, (x, l) ∈ L -> op_target op <> Some x -> x <= i < x + l -> sm_data m' !! i = sm_data m !! i) /\
  match op, r with
  | OpRealloc a size, Some p => forall l i, (a, l) ∈ L -> 0 <= i < Z.min l size -> sm_data m' !! (p + i) = sm_data m !! (a + i)
  | _, _ => True
  end.

(** The client passes only addresses of live blocks. *)
Definition op_ok (L : blocks) (op : heap_op) : Prop :=
  match op with OpAlloc size => 0 <= size < 2 ^ 32 | OpFree a => a ∈ map fst L | OpRealloc a size => a ∈ map fst L /\ 0 <= size < 2 ^ 32 end.

Section Spec.
Context (lo hi : Z).

(** A block that may be handed out while [L] is live. *)
Definition fresh_block (L : blocks) (size p len : Z) : Prop :=
  p mod 8 = 0 /\ lo <= p /\ p + len <= hi /\ 0 < len /\ big_enough size len /\ Forall (apart (p, len)) L.

Inductive spec_step : heap_op -> option Z -> blocks -> blocks -> Prop :=
  | spec_alloc_fail size L : spec_step (OpAlloc size) None L L
  | spec_alloc size p len L L' : fresh_block L size p len -> L' ≡ₚ (p, len) :: L -> spec_step (OpAlloc size) (Some p) L L'
  | spec_free a len L L' : L ≡ₚ (a, len) :: L' -> spec_step (OpFree a) None L L'
  | spec_realloc_fail a size L : spec_step (OpRealloc a size) None L L
  | spec_realloc_free a L L' len : L ≡ₚ (a, len) :: L' -> forall size, RT_ALIGN size 8 = 0 -> spec_step (OpRealloc a size) None L L'
  | spec_realloc a size p len old L L1 L' : L ≡ₚ (a, old) :: L1 -> fresh_block L1 size p len ->
      L' ≡ₚ (p, len) :: L1 -> spec_step (OpRealloc a size) (Some p) L L'.
End Spec.

(** ** The live blocks *)

Lemma used_range off bs o s : sizes_ok bs -> (o, s) ∈ used_at off bs -> off <= o /\ o + s <= off + total bs /\ 24 <= s /\ (o - off) mod 8 = 0 /\ s mod 8 = 0.
Proof.
  intros Hs. revert off. induction Hs as [|[sz u] bs [H Hm] Hs IH]; intros off; cbn in *; [intros []%not_elem_of_nil|].
  pose proof (total_nonneg _ Hs). rewrite elem_of_app. intros [Hin|Hin].
  - destruct u; [|destruct (not_elem_of_nil _ Hin)]. apply list_elem_of_singleton in Hin. injection Hin as -> ->.
    rewrite Z.sub_diag. repeat split; (lia || assumption).
  - destruct (IH _ Hin) as (? & ? & ? & E & ?). repeat split; try lia; try assumption.
    replace (o - off) with ((o - (off + sz)) + sz) by lia. apply mod8_add; assumption.
Qed.

Lemma live_app base off a b : live_at base off (a ++ b) = live_at base off a ++ live_at base (off + total a) b.
Proof. unfold live_at. rewrite used_at_app, map_app. reflexivity. Qed.

Lemma live_cons base off sz u b : live_at base off ((sz, u) :: b) =
  (if u then [(base + off + 16, sz - 16)] else []) ++ live_at base (off + sz) b.
Proof. unfold live_at. cbn [used_at]. rewrite map_app. destruct u; reflexivity. Qed.

Lemma live_range base off bs a len : sizes_ok bs -> (a, len) ∈ live_at base off bs ->
  base + off + 16 <= a /\ a + len <= base + off + total bs /\ 8 <= len /\ (a - base - off) mod 8 = 0 /\ len mod 8 = 0.
Proof.
  intros Hs. unfold live_at. rewrite list_elem_of_fmap. intros ([o s] & E & Hin). injection E as -> ->. cbn [fst snd].
  destruct (used_range off bs o s Hs Hin) as (? & ? & ? & E & E'). repeat split; try lia.
  - replace (base + o + 16 - base - off) with (o - off + 16) by lia. apply mod8_add; [exact E|reflexivity].
  - replace (s - 16) with (s + -16) by lia. apply mod8_add; [exact E'|reflexivity].
Qed.

(** A block of the layout is apart from the live blocks around it. *)
Lemma hole_apart base pre sz u suf len : sizes_ok (pre ++ (sz, u) :: suf) -> len <= sz - 16 ->
  Forall (apart (base + total pre + 16, len)) (live_at base 0 pre ++ live_at base (total pre + sz) suf).
Proof.
  intros [Sp [_ Ss]%sizes_cons]%sizes_app Hl. apply Forall_app. split; apply Forall_forall; intros [a l] Hin.
  - destruct (live_range _ _ _ _ _ Sp Hin) as (_ & ? & _). right. cbn. lia.
  - destruct (live_range _ _ _ _ _ Ss Hin) as (? & _). left. cbn. lia.
Qed.

Lemma live_split base off bs a len : (a, len) ∈ live_at base off bs ->
  exists pre sz suf, bs = pre ++ (sz, true) :: suf /\ a = base + off + total pre + 16 /\ len = sz - 16.
Proof.
  revert off. induction bs as [|[sz u] bs IH]; intros off; [intros []%not_elem_of_nil|]. rewrite live_cons, elem_of_app.
  intros [Hin|Hin].
  - destruct u; [|destruct (not_elem_of_nil _ Hin)]. apply list_elem_of_singleton in Hin. injection Hin as -> ->.
    exists [], sz, bs. cbn. repeat split. lia.
  - destruct (IH _ Hin) as (pre & s & suf & -> & -> & ->). exists ((sz, u) :: pre), s, suf. cbn. repeat split. lia.
Qed.

Lemma live_nodup base off bs : sizes_ok bs -> NoDup (map fst (live_at base off bs)).
Proof.
  intros Hs. revert off. induction Hs as [|[sz u] bs [H _] Hs IH]; intros off; [constructor|]. rewrite live_cons.
  destruct u; cbn [app map]; [|apply IH]. apply NoDup_cons. split; [|apply IH]. cbn [fst] in *.
  intros ([a l] & E & Hin)%list_elem_of_fmap. cbn in E. destruct (live_range _ _ _ _ _ Hs Hin) as (? & _). lia.
Qed.

Lemma live_unique base off bs a l1 l2 : sizes_ok bs -> (a, l1) ∈ live_at base off bs -> (a, l2) ∈ live_at base off bs -> l1 = l2.
Proof.
  intros Hs H1 H2. pose proof (live_nodup base off bs Hs) as Hn. clear Hs. induction (live_at base off bs) as [|[x l] L IH]; [destruct (not_elem_of_nil _ H1)|].
  cbn in Hn. apply NoDup_cons in Hn as [Hx Hn].
  apply elem_of_cons in H1 as [E1|H1], H2 as [E2|H2]; [congruence| | |auto].
  - injection E1 as -> ->. destruct Hx. apply (list_elem_of_fmap_2 fst _ _ H2).
  - injection E2 as -> ->. destruct Hx. apply (list_elem_of_fmap_2 fst _ _ H1).
Qed.

(** What the operations do to the live blocks. *)
Definition block_pos (m : rt_small_mem) (pre : list block) (sz : Z) : Z * Z := (block_addr m pre, sz - 16).

Lemma live_mid base pre sz suf : live_at base 0 (pre ++ (sz, true) :: suf) ≡ₚ
  (base + total pre + 16, sz - 16) :: live_at base 0 pre ++ live_at base (total pre + sz) suf.
Proof. rewrite live_app, live_cons. cbn [app]. symmetry. apply Permutation_middle. Qed.

Lemma live_merged base pre sz suf :
  live_at base 0 (merged pre sz suf) = live_at base 0 pre ++ live_at base (total pre + sz) suf.
Proof. unfold live_at. rewrite merged_used, map_app. reflexivity. Qed.

Lemma live_taken base pre sz n suf : live_at base 0 (pre ++ taken sz n ++ suf) ≡ₚ
  (base + total pre + 16, in_use (taken sz n) - 16) :: live_at base 0 pre ++ live_at base (total pre + sz) suf.
Proof.
  unfold taken. destruct (n + 32 <=? sz - 16); cbn [in_use app]; rewrite ?Z.add_0_r.
  - rewrite live_mid, live_cons. cbn [app]. replace (0 + total pre + (n + 16) + (sz - (n + 16))) with (0 + total pre + sz) by lia.
    replace (total pre + (n + 16) + (sz - (n + 16))) with (total pre + sz) by lia. reflexivity.
  - rewrite live_mid. reflexivity.
Qed.

Lemma live_merge_front base off s suf : live_at base off (merge_front s suf) = live_at base (off + s) suf.
Proof. unfold live_at. rewrite merge_front_used. reflexivity. Qed.

Lemma live_front base pre n sz suf : live_at base 0 (pre ++ (n, true) :: merge_front (sz - n) suf) ≡ₚ
  (base + total pre + 16, n - 16) :: live_at base 0 pre ++ live_at base (total pre + sz) suf.
Proof.
  rewrite live_mid, live_merge_front. replace (total pre + n + (sz - n)) with (total pre + sz) by lia. reflexivity.
Qed.

Lemma live_same bs m m' : same_heap m m' -> live bs m' = live bs m.
Proof. intros (_ & _ & _ & E & _). unfold live. rewrite E. reflexivity. Qed.

Lemma heap_rep_data bs m d : heap_rep bs m -> heap_rep bs (m <| sm_data := d |>).
Proof. intros [R H U]. split; [|exact H|exact U]. eapply heap_seg_same; [exact R|repeat split|reflexivity|reflexivity]. Qed.

(** ** The bytes *)

Lemma kept_same op r L m m' : sm_data m' = sm_data m -> (forall a size, op = OpRealloc a size -> r = None \/ r = Some a) ->
  kept op r L m m'.
Proof.
  intros E Hr. split; [intros; rewrite E; reflexivity|]. destruct op as [|a|a size]; try exact I.
  destruct (Hr a size eq_refl) as [->| ->]; [exact I|]. intros. rewrite E. reflexivity.
Qed.

Lemma copy_bytes_spec dst src n d i : copy_bytes dst src n d !! i =
  if decide (dst <= i < dst + Z.of_nat n) then d !! (src + (i - dst)) else d !! i.
Proof.
  unfold copy_bytes. assert (forall k, foldr (fun i acc => match d !! (src + Z.of_nat i) with
      | Some b => <[dst + Z.of_nat i := b]> acc | None => delete (dst + Z.of_nat i) acc end) d (seq k n) !! i =
    if decide (dst + Z.of_nat k <= i < dst + Z.of_nat k + Z.of_nat n) then d !! (src + (i - dst)) else d !! i) as H.
  { induction n as [|n IH]; intros k; cbn [seq foldr]; [rewrite decide_False by lia; reflexivity|].
    destruct (Z.eq_dec i (dst + Z.of_nat k)) as [->|Hne].
    - rewrite decide_True by lia. replace (src + (dst + Z.of_nat k - dst)) with (src + Z.of_nat k) by lia.
      destruct (d !! (src + Z.of_nat k)); [apply lookup_insert_eq|apply lookup_delete_eq].
    - transitivity (foldr (fun i acc => match d !! (src + Z.of_nat i) with
        | Some b => <[dst + Z.of_nat i := b]> acc | None => delete (dst + Z.of_nat i) acc end) d (seq (S k) n) !! i).
      { destruct (d !! (src + Z.of_nat k)); [apply lookup_insert_ne; lia|apply lookup_delete_ne; lia]. }
      rewrite IH. destruct (decide (dst + Z.of_nat (S k) <= i < _)); [rewrite decide_True by lia|rewrite decide_False by lia]; reflexivity. }
  specialize (H 0%nat). rewrite Z.add_0_r in H. exact H.
Qed.

Lemma RT_ALIGN_8_wraps size : 2 ^ 32 - 7 <= size < 2 ^ 32 -> RT_ALIGN size 8 = 0.
Proof.
  intros. unfold RT_ALIGN. replace (u32 (size + 8 - 1)) with (size + 7 - 2 ^ 32).
  - replace (Z.land _ _) with (RT_ALIGN_DOWN (size + 7 - 2 ^ 32) 8) by reflexivity. rewrite RT_ALIGN_DOWN_8 by lia.
    Z.to_euclidean_division_equations; lia.
  - unfold u32. apply (Zmod_unique _ _ 1); lia.
Qed.

(** ** Every call is a step of the specification *)

Section Steps.
Context (bs : list block) (m : rt_small_mem) (Hrep : heap_rep bs m).

Definition step_result (op : heap_op) : Prop := exists r m' bs',
  run_op op m = Some (r, m') /\ heap_rep bs' m' /\ same_heap m m' /\
  spec_step (heap_ptr m + 16) (heap_ptr m + heap_end m) op r (live bs m) (live bs' m') /\ kept op r (live bs m) m m'.

(** A block of the layout as a block for the client. *)
Lemma block_fresh pre sz u suf size len : bs = pre ++ (sz, u) :: suf -> 0 < len <= sz - 16 -> big_enough size len ->
  fresh_block (heap_ptr m + 16) (heap_ptr m + heap_end m)
    (live_at (heap_ptr m) 0 pre ++ live_at (heap_ptr m) (total pre + sz) suf) size (block_addr m pre) len.
Proof.
  intros E Hl Hb. pose proof (hr_seg _ _ Hrep) as R. rewrite E in R. destruct (seg_distinct _ _ _ _ _ R) as (D1 & D2 & D3 & D4 & D5 & D6 & _).
  destruct (hs_heap _ _ R) as (P1 & P2 & P3). unfold block_addr. rewrite header_eq. split; [|split; [lia|split; [lia|split; [lia|split; [exact Hb|]]]]].
  - apply mod8_add; [apply mod8_add; assumption|reflexivity].
  - apply (hole_apart _ _ _ _ _ _ (hs_sizes _ _ R)). lia.
Qed.

Lemma aligned_ge size : 0 <= size < 2 ^ 32 - 7 -> size <= RT_ALIGN size 8.
Proof. intros. rewrite RT_ALIGN_8 by lia. Z.to_euclidean_division_equations; lia. Qed.

Lemma big_need size len : 0 <= size < 2 ^ 32 -> RT_ALIGN size 8 <= len -> big_enough size len.
Proof. intros Hs Hl. unfold big_enough. destruct (Z.lt_ge_cases size (2 ^ 32 - 7)); [left|lia]. pose proof (aligned_ge size). lia. Qed.

Lemma taken_len sz n : n + 16 <= sz -> n + 16 <= in_use (taken sz n) <= sz.
Proof. unfold taken. destruct (Z.leb_spec (n + 32) (sz - 16)); cbn; lia. Qed.

Lemma nothing_done op : run_op op m = Some (None, m) ->
  (forall L, spec_step (heap_ptr m + 16) (heap_ptr m + heap_end m) op None L L) -> step_result op.
Proof.
  intros E H. exists None, m, bs. split; [exact E|]. split; [exact Hrep|]. split; [apply same_heap_refl|].
  split; [apply H|apply kept_same; [reflexivity|auto]].
Qed.

Lemma alloc_step size : 0 <= size < 2 ^ 32 -> step_result (OpAlloc size).
Proof.
  intros Hs. destruct (Z.eq_dec size 0) as [->|Hz]; [apply nothing_done; [reflexivity|constructor]|].
  destruct (first_fit (need size) bs) as [Hn|(b1 & sz & b2 & E & Hn & Hle)].
  { apply nothing_done; [apply (alloc_none_rep size bs m Hrep Hn Hz)|constructor]. }
  pose proof Hrep as Hr. rewrite E in Hr. destruct (alloc_rep size b1 sz b2 m Hr Hn Hle Hz) as (m' & E' & H' & Hsame & Hd).
  eexists _, m', _. split; [exact E'|]. split; [exact H'|]. split; [exact Hsame|]. split; [|apply kept_same; [exact Hd|discriminate]].
  pose proof (taken_len sz (need size) ltac:(lia)) as Ht. destruct (need_ok size) as [[Hb _] _].
  rewrite (live_same _ m m' Hsame). unfold live. eapply spec_alloc; [|rewrite live_taken; unfold block_addr; rewrite header_eq].
  - rewrite E. rewrite live_app, live_cons. cbn [app]. rewrite Z.add_0_l.
    apply (block_fresh b1 sz false b2 size (in_use (taken sz (need size)) - 16) E); [lia|].
    apply big_need; [exact Hs|]. unfold need in *. change RT_ALIGN_SIZE with 8 in *. lia.
  - rewrite E, live_app, live_cons. reflexivity.
Qed.

Lemma live_inv a : a ∈ map fst (live bs m) -> exists pre sz suf, bs = pre ++ (sz, true) :: suf /\ a = block_addr m pre.
Proof.
  intros ([x l] & -> & Hin)%list_elem_of_fmap. destruct (live_split _ _ _ _ _ Hin) as (pre & sz & suf & -> & -> & _).
  exists pre, sz, suf. split; [reflexivity|]. unfold block_addr. rewrite header_eq. cbn. lia.
Qed.

Lemma free_step a : a ∈ map fst (live bs m) -> exists m' bs' len,
  rt_smem_free (Some a) m = Some (tt, m') /\ heap_rep bs' m' /\ same_heap m m' /\ sm_data m' = sm_data m /\
  live bs m ≡ₚ (a, len) :: live bs' m'.
Proof.
  intros (pre & sz & suf & E & ->)%live_inv. pose proof Hrep as Hr. rewrite E in Hr.
  destruct (free_rep pre sz suf m Hr) as (m' & E' & H' & Hsame & Hd). exists m', (merged pre sz suf), (sz - 16).
  split; [exact E'|]. split; [exact H'|]. split; [exact Hsame|]. split; [exact Hd|].
  rewrite (live_same _ m m' Hsame). unfold live. rewrite E, live_mid, live_merged. unfold block_addr. rewrite header_eq. reflexivity.
Qed.
End Steps.

(** [rt_smem_realloc] by its cases. *)
Section Realloc.
Context (pre : list block) (sz : Z) (suf : list block) (size : Z) (m : rt_small_mem).
Context (Hrep : heap_rep (pre ++ (sz, true) :: suf) m) (Hsize : 0 <= size < 2 ^ 32).

Abbreviation a := (block_addr m pre).
Abbreviation bs := (pre ++ (sz, true) :: suf).

Lemma realloc_too_large : mem_size_aligned m < RT_ALIGN size 8 -> step_result bs m (OpRealloc a size).
Proof.
  intros H. apply nothing_done; [exact Hrep| |constructor].
  cbn [run_op]. unfold rt_smem_realloc. erewrite bind_eq by reflexivity. erewrite bind_eq by (apply assert_eq, Hrep).
  change RT_ALIGN_SIZE with 8. rewrite (proj2 (Z.ltb_lt _ _)) by exact H. reflexivity.
Qed.

Lemma own_live : (a, sz - 16) ∈ live bs m.
Proof. unfold live. rewrite live_mid. left. Qed.

Lemma own_addr : a ∈ map fst (live bs m).
Proof. apply (list_elem_of_fmap_2 fst _ _ own_live). Qed.

Lemma realloc_zero : RT_ALIGN size 8 = 0 -> 0 <= mem_size_aligned m -> step_result bs m (OpRealloc a size).
Proof.
  intros H Hm. destruct (free_step bs m Hrep a own_addr) as (m' & bs' & len & E & H' & Hsame & Hd & Hp).
  exists None, m', bs'. split; [|split; [exact H'|split; [exact Hsame|split]]].
  - cbn [run_op]. unfold rt_smem_realloc. erewrite bind_eq by reflexivity. erewrite bind_eq by (apply assert_eq, Hrep).
    change RT_ALIGN_SIZE with 8. rewrite H, (proj2 (Z.ltb_ge _ _)) by exact Hm. cbn [Z.eqb]. erewrite bind_eq by exact E. reflexivity.
  - eapply spec_realloc_free; [exact Hp|exact H].
  - apply kept_same; [exact Hd|auto].
Qed.

(** The block keeps its place, with [len] bytes. *)
Lemma in_place len bs' m' : 0 < RT_ALIGN size 8 <= len -> len <= sz - 16 -> heap_rep bs' m' -> same_heap m m' -> sm_data m' = sm_data m ->
  rt_smem_realloc (Some a) size m = Some (Some a, m') ->
  live_at (heap_ptr m) 0 bs' ≡ₚ (a, len) :: live_at (heap_ptr m) 0 pre ++ live_at (heap_ptr m) (total pre + sz) suf ->
  step_result bs m (OpRealloc a size).
Proof.
  intros Hn Hl H' Hsame Hd E Hp. exists (Some a), m', bs'. split; [exact E|]. split; [exact H'|]. split; [exact Hsame|].
  split; [|apply kept_same; [exact Hd|intros ? ? [= <- <-]; right; reflexivity]].
  rewrite (live_same _ m m' Hsame). eapply spec_realloc with (len := len) (old := sz - 16).
  - unfold live. rewrite live_mid. unfold block_addr. rewrite header_eq. reflexivity.
  - apply (block_fresh bs m Hrep pre sz true suf size len eq_refl); [lia|]. apply big_need; [exact Hsize|lia].
  - exact Hp.
Qed.

Lemma realloc_here : 0 < RT_ALIGN size 8 <= mem_size_aligned m ->
  RT_ALIGN size 8 = sz - 16 \/ RT_ALIGN size 8 + 28 < sz - 16 -> step_result bs m (OpRealloc a size).
Proof.
  intros Hn [He|Hlt].
  - apply (in_place (sz - 16) bs m); [lia|lia|exact Hrep|apply same_heap_refl|reflexivity| |].
    + rewrite realloc_enter with (suf := suf) (sz := sz) by (apply Hrep || exact Hn). rewrite (proj2 (Z.eqb_eq _ _)) by lia. reflexivity.
    + rewrite live_mid. unfold block_addr. rewrite header_eq. reflexivity.
  - destruct (shrink_rep pre sz suf size m Hrep (proj1 Hn) Hlt) as (m' & E & H' & Hsame & Hd).
    eapply (in_place (RT_ALIGN size 8)); [lia|lia|exact H'|exact Hsame|exact Hd|exact E|].
    rewrite live_front. unfold block_addr. rewrite header_eq, Z.add_simpl_r. reflexivity.
Qed.

Lemma spec_alloc_inv lo hi n r L L' : spec_step lo hi (OpAlloc n) r L L' ->
  (r = None /\ L' = L) \/ exists p len, r = Some p /\ fresh_block lo hi L n p len /\ L' ≡ₚ (p, len) :: L.
Proof. inversion 1; subst; [left; auto|right; eauto]. Qed.

Lemma aligned_twice : RT_ALIGN (RT_ALIGN size 8) 8 = RT_ALIGN size 8.
Proof.
  destruct (RT_ALIGN_8_mod size) as [H1 H2]. rewrite (RT_ALIGN_8 (RT_ALIGN size 8)) by (Z.to_euclidean_division_equations; lia).
  Z.to_euclidean_division_equations; lia.
Qed.

(** The move: [m1] is the heap in which the new block of [len] bytes at [p] is live, too. *)
Lemma move_done p len n bs1 m1 : n = RT_ALIGN size 8 -> size <= n -> n mod 8 = 0 -> 0 <= n < 2 ^ 32 ->
  heap_rep bs1 m1 -> same_heap m m1 -> fresh_block (heap_ptr m + 16) (heap_ptr m + heap_end m) (live bs m) n p len ->
  live bs1 m1 ≡ₚ (p, len) :: live bs m ->
  (forall x l i, (x, l) ∈ live bs m -> x <= i < x + l -> sm_data m1 !! i = sm_data m !! i) ->
  let d := copy_bytes p a (Z.to_nat (Z.min (sz - 16) n)) (sm_data m1) in
  exists m' bs', rt_smem_free (Some a) (m1 <| sm_data := d |>) = Some (tt, m') /\ heap_rep bs' m' /\ same_heap m m' /\
    spec_step (heap_ptr m + 16) (heap_ptr m + heap_end m) (OpRealloc a size) (Some p) (live bs m) (live bs' m') /\
    kept (OpRealloc a size) (Some p) (live bs m) m m'.
Proof.
  intros En Hsn Hnm Hr H1 Hsame1 (F1 & F2 & F3 & F4 & F5 & F6) HL Hk d. set (m2 := m1 <| sm_data := d |>).
  pose proof (heap_rep_data bs1 m1 d H1) as H2. fold m2 in H2.
  assert (a ∈ map fst (live bs1 m2)) as Ha by (change (live bs1 m2) with (live bs1 m1); rewrite HL; right; exact own_addr).
  destruct (free_step bs1 m2 H2 a Ha) as (m' & bs' & len' & E' & H' & Hsame' & Hd' & Hp').
  change (live bs1 m2) with (live bs1 m1) in Hp'. set (Lr := live_at (heap_ptr m) 0 pre ++ live_at (heap_ptr m) (total pre + sz) suf).
  assert (live bs m ≡ₚ (a, sz - 16) :: Lr) as HLr by (unfold live; rewrite live_mid; unfold block_addr; rewrite header_eq; reflexivity).
  assert (len' = sz - 16) as ->.
  { apply (live_unique (heap_ptr m1) 0 bs1 a); [apply H1| |]; fold (live bs1 m1); [rewrite Hp'; left|rewrite HL; right; apply own_live]. }
  assert (live bs' m' ≡ₚ (p, len) :: Lr) as HL'.
  { apply (Permutation_cons_inv (a := (a, sz - 16))). rewrite <- Hp', HL, HLr. apply perm_swap. }
  assert (n <= len) as Hlen by (destruct F5; [assumption|Z.to_euclidean_division_equations; lia]).
  pose proof (Forall_forall (apart (p, len)) (live bs m)) as [Hap _]. specialize (Hap F6).
  exists m', bs'. split; [exact E'|]. split; [exact H'|]. split; [eapply same_heap_trans; [exact Hsame1|exact Hsame']|].
  split; [eapply spec_realloc; [exact HLr| |exact HL']|split].
  - repeat split; try assumption; [unfold big_enough; lia|]. rewrite HLr in F6. apply Forall_cons in F6. apply F6.
  - intros x l i Hin Hx Hi. rewrite Hd'. change (sm_data m2) with d. unfold d. rewrite copy_bytes_spec, decide_False; [apply (Hk x l); assumption|].
    specialize (Hap (x, l) Hin). unfold apart in Hap. cbn in Hap. lia.
  - intros l i Hin Hi. assert (l = sz - 16) as -> by (apply (live_unique (heap_ptr m) 0 bs a); [apply Hrep|exact Hin|exact own_live]).
    rewrite Hd'. change (sm_data m2) with d. unfold d. rewrite copy_bytes_spec, decide_True by lia.
    replace (a + (p + i - p)) with (a + i) by lia. apply (Hk a (sz - 16)); [exact own_live|lia].
Qed.

Lemma realloc_move : 0 < RT_ALIGN size 8 <= mem_size_aligned m ->
  RT_ALIGN size 8 <> sz - 16 -> sz - 16 <= RT_ALIGN size 8 + 28 -> step_result bs m (OpRealloc a size).
Proof.
  intros Hn Hne Hge. set (n := RT_ALIGN size 8) in *. pose proof (RT_ALIGN_8_mod size) as [Hnm Hr]. fold n in Hnm, Hr.
  assert (size <= n) as Hsn.
  { destruct (Z.lt_ge_cases size (2 ^ 32 - 7)); [apply aligned_ge; lia|]. pose proof (RT_ALIGN_8_wraps size). lia. }
  destruct (alloc_step bs m Hrep n Hr) as (r & m1 & bs1 & E1 & H1 & Hsame1 & Hs & Hk1 & _). cbn [run_op] in E1.
  assert (forall x l i, (x, l) ∈ live bs m -> x <= i < x + l -> sm_data m1 !! i = sm_data m !! i) as Hk.
  { intros x l i Hin Hi. apply (Hk1 x l i Hin); [discriminate|exact Hi]. }
  apply spec_alloc_inv in Hs as [[-> HL]|(p & len & -> & Hf & HL)].
  - exists None, m1, bs1. cbn [run_op]. rewrite (grow_rep _ _ _ _ _ (hr_seg _ _ Hrep) Hn) by lia. fold n.
    erewrite bind_eq by exact E1. split; [reflexivity|]. split; [exact H1|]. split; [exact Hsame1|]. rewrite HL.
    split; [constructor|]. split; [|exact I]. intros x l i Hin _ Hi. apply (Hk x l); assumption.
  - destruct (move_done p len n bs1 m1 eq_refl Hsn Hnm Hr H1 Hsame1 Hf HL Hk) as (m' & bs' & E' & H' & Hsame' & Hst & Hkept).
    exists (Some p), m', bs'. split; [|auto]. cbn [run_op]. rewrite (grow_rep _ _ _ _ _ (hr_seg _ _ Hrep) Hn) by lia. fold n.
    erewrite bind_eq by exact E1. etransitivity; [eapply bind_eq; reflexivity|]. erewrite bind_eq by exact E'. reflexivity.
Qed.

Lemma realloc_step : step_result bs m (OpRealloc a size).
Proof.
  pose proof (RT_ALIGN_8_mod size) as [Hnm Hr]. pose proof (hs_end _ _ (hr_seg _ _ Hrep)) as He.
  destruct (seg_distinct _ _ _ _ _ (hr_seg _ _ Hrep)) as (D1 & D2 & D3 & D4 & D5 & D6 & _).
  destruct (Z.lt_ge_cases (mem_size_aligned m) (RT_ALIGN size 8)); [apply realloc_too_large; assumption|].
  destruct (Z.eq_dec (RT_ALIGN size 8) 0); [apply realloc_zero; [assumption|lia]|].
  destruct (Z.eq_dec (RT_ALIGN size 8) (sz - 16)); [apply realloc_here; [lia|left; assumption]|].
  destruct (Z.lt_ge_cases (RT_ALIGN size 8 + 28) (sz - 16)); [apply realloc_here; [lia|right; assumption]|].
  apply realloc_move; lia.
Qed.
End Realloc.

Lemma op_step bs m op : heap_rep bs m -> op_ok (live bs m) op -> step_result bs m op.
Proof.
  intros Hrep Hop. destruct op as [size|a|a size]; cbn in Hop.
  - apply alloc_step; assumption.
  - destruct (free_step bs m Hrep a Hop) as (m' & bs' & len & E & H' & Hsame & Hd & Hp). exists None, m', bs'.
    split; [cbn [run_op]; erewrite bind_eq by exact E; reflexivity|]. split; [exact H'|]. split; [exact Hsame|].
    split; [econstructor; exact Hp|apply kept_same; [exact Hd|discriminate]].
  - destruct Hop as [Ha Hs]. destruct (live_inv bs m Hrep a Ha) as (pre & sz & suf & -> & ->). apply realloc_step; assumption.
Qed.
