(* ===== verification/OxProps.v ===== *)
(** * Properties of the OX game *)

From Stdlib Require Import Strings.Ascii Strings.String.
From stdpp Require Import gmap.
From S2P Require Import Prelude Ringbuffer RingbufferProps OxGame OxApp OxRules OxInv.
Open Scope rt_scope.

(** C20: The game refines the rules.  In every reachable state the program's game
    is an abstract game, that is a list of legal moves; every enabled event, a
    step of a thread or an interrupt, runs without a failed assertion or an
    access outside an array, and leaves the same game, the game with one more
    legal move, or a new game.  *)
Theorem ox_follows_rules pool level a :
  (16 <= length pool)%nat -> app_reachable pool level a ->
  exists ms, game_rep ms (a_game a) /\
    forall e, enabled e a = true -> exists a' ms',
      handle pool e a = Some (tt, a') /\ game_rep ms' (a_game a') /\ (ms' = ms \/ ttt_step ms ms').
Proof.
  intros Hp (ms & q & R)%reachable_rep; [|exact Hp]. exists ms. split; [apply R|]. intros e He.
  destruct (event_rep pool ms q a e Hp R He) as (a' & ms' & q' & H & R' & Hf). exists a', ms'. split; [exact H|].
  split; [apply R'|exact Hf].
Qed.

(** The verdict of every reachable game is right: X has won exactly if a row,
    a column or a diagonal holds three X, O likewise, not both, and it is a draw
    exactly if nobody has won and all nine cells are taken.  *)
Theorem ox_verdict pool level a :
  (16 <= length pool)%nat -> app_reachable pool level a ->
  let g := a_game a in
  let line p := exists l, l ∈ lines /\ forall x y, (x, y) ∈ l -> cell g x y = p in
  (state g = GAME_X_WIN <-> line 1) /\ (state g = GAME_O_WIN <-> line 2) /\ (line 1 -> line 2 -> False) /\
  (state g = GAME_DRAW <-> ~ line 1 /\ ~ line 2 /\ total_steps g = 9).
Proof.
  intros Hp (ms & q & [R _ _ _ _ _ _ _])%reachable_rep; [|exact Hp]. cbv zeta. set (g := a_game a) in *.
  assert (forall p, (exists l, l ∈ lines /\ forall x y, (x, y) ∈ l -> cell g x y = p) <-> has_line p ms = true) as Hline.
  { intros p. rewrite has_line_spec. apply exist_proper. intros l. split; intros [Hl H]; (split; [exact Hl|]).
    - intros [x y] Hxy. rewrite <- (gr_cell _ _ R) by (eapply lines_in_board; eassumption). apply H, Hxy.
    - intros x y Hxy. rewrite (gr_cell _ _ R) by (eapply lines_in_board; eassumption). apply (H (x, y)), Hxy. }
  rewrite !Hline, (gr_state _ _ R), (gr_steps _ _ R). unfold status.
  pose proof (one_winner _ (gr_valid _ _ R)) as H1. pose proof (valid_length _ (gr_valid _ _ R)) as H9.
  destruct (has_line 1 ms), (has_line 2 ms), (Nat.leb_spec 9 (length ms)).
  all: repeat split; try discriminate; try tauto; try (intros _; lia); try (intros (? & ? & ?); (lia || congruence)).
  all: intros; first [destruct H1; congruence|congruence|lia].
Qed.

(** C21: The data of every reachable game keep their ranges: the cells are 0, 1
    or 2, so that the colour table is never read beyond its end, the cursor stays
    on the board, the byte counters never wrap and the names keep 16 bytes.  *)
Theorem ox_data_in_range pool level a :
  (16 <= length pool)%nat -> app_reachable pool level a ->
  let g := a_game a in
  length (board g) = 9%nat /\ (forall x y, in_board x y = true -> 0 <= cell g x y <= 2) /\
  (forall x y, in_board x y = true -> exists c, color_table !! Z.to_nat (cell g x y) = Some c) /\
  in_board (cursor_x g) (cursor_y g) = true /\ 0 <= total_steps g <= 9 /\ 0 <= current_player g <= 1 /\
  length (name (player_x g)) = NAME_SIZE /\ length (name (player_o g)) = NAME_SIZE.
Proof.
  intros Hp (ms & q & [R _ _ _ _ _ _ _])%reachable_rep; [|exact Hp]. cbv zeta. set (g := a_game a) in *.
  assert (forall x y, in_board x y = true -> cell g x y = 0 \/ cell g x y = 1 \/ cell g x y = 2) as Hc.
  { intros x y H. rewrite (gr_cell _ _ R) by exact H. apply mark_cases. }
  pose proof (valid_length _ (gr_valid _ _ R)).
  split; [apply (gr_board _ _ R)|]. split; [intros x y H'; specialize (Hc x y H'); lia|].
  split; [intros x y H'; destruct (Hc x y H') as [-> |[-> | ->]]; eexists; reflexivity|].
  split; [apply (gr_cursor _ _ R)|]. rewrite (gr_steps _ _ R), (gr_player _ _ R).
  split; [lia|]. split; [|split; [apply (gr_name_x _ _ R)|apply (gr_name_o _ _ R)]].
  pose proof (Z.mod_pos_bound (Z.of_nat (length ms)) 2). lia.
Qed.

(** C22: The threads exclude each other.  In every reachable state lcd_mutex is
    held by at most one thread and exactly as often as the place where that
    thread stands requires; every thread that can run does so without a failed
    assertion.  *)
Theorem ox_mutual_exclusion pool level a :
  (16 <= length pool)%nat -> app_reachable pool level a ->
  (forall t t', 0 < holds t a -> 0 < holds t' a -> t = t') /\
  (forall t, holds t a = match a_lock a with Some (o, h) => if bool_decide (o = t) then h else 0 | None => 0 end) /\
  (forall t, ready t a = true -> exists a', run pool t a = Some (tt, a')).
Proof.
  intros Hp (ms & q & R)%reachable_rep; [|exact Hp]. destruct (ar_lock _ _ _ R) as (t0 & Hl & Ho).
  assert (forall t, 0 < holds t a -> t = t0) as H0.
  { intros t H. destruct (decide (t = t0)) as [|Hne]; [assumption|]. rewrite Ho in H by exact Hne. lia. }
  split; [intros t t' H H'; rewrite (H0 t H), (H0 t' H'); reflexivity|]. split.
  - intros t. rewrite Hl. unfold lock_of. destruct (decide (t = t0)) as [->|Hne].
    + destruct (Z.eqb_spec (holds t0 a) 0); [assumption|]. rewrite bool_decide_eq_true_2 by reflexivity. reflexivity.
    + rewrite Ho by exact Hne. destruct (_ =? _); [reflexivity|]. rewrite bool_decide_eq_false_2 by congruence. reflexivity.
  - intros t Ht. destruct (event_rep pool ms q a (EvThread t) Hp R Ht) as (a' & _ & _ & H & _). eauto.
Qed.

(** ** The mutex is always released *)

Section Release.
Context (pool : list Z) (Hpool : (16 <= length pool)%nat) (t : tid).

(** Steps of [t] itself and input by the user lead from [a] to [P]. *)
Definition own_event (e : event) : Prop := e = EvThread t \/ exists bytes, e = EvUart bytes.
Definition leads (a : app) (P : app -> Prop) : Prop :=
  exists es a', Forall own_event es /\ play pool es a = Some a' /\ P a'.

(** The thread [t] stands at [p] in reset_game with the bytes [q] waiting. *)
Definition stands (p : reset_pc) (q : list Z) (a : app) : Prop :=
  (exists ms, app_rep ms q a) /\ reset_of t a = Some p /\ a_lock a = lock_of t (holds t a).
Definition released (a : app) : Prop := a_lock a = None.
Definition reaches (next : option reset_pc * list Z) (a : app) : Prop :=
  match next with (Some p, q) => stands p q a | (None, _) => released a end.

Lemma leads_here a (P : app -> Prop) : P a -> leads a P.
Proof. intros H. exists [], a. auto. Qed.

Lemma play_app es1 es2 a : play pool (es1 ++ es2) a = a' ← play pool es1 a; play pool es2 a'.
Proof.
  revert a. induction es1 as [|e es IH]; intros a; [reflexivity|]. cbn. destruct (enabled e a); [|reflexivity].
  destruct (handle pool e a) as [[[] a']|]; [apply IH|reflexivity].
Qed.

Lemma leads_trans a P Q : leads a P -> (forall a', P a' -> leads a' Q) -> leads a Q.
Proof.
  intros (es1 & a1 & F1 & H1 & HP) H. destruct (H a1 HP) as (es2 & a2 & F2 & H2 & HQ).
  exists (es1 ++ es2), a2. split; [apply Forall_app_2; assumption|]. split; [|exact HQ].
  rewrite play_app, H1. exact H2.
Qed.

Lemma leads_event e a a' P : own_event e -> enabled e a = true -> handle pool e a = Some (tt, a') -> P a' -> leads a P.
Proof. intros Ho He H HP. exists [e], a'. split; [auto|]. split; [cbn; rewrite He, H; reflexivity|exact HP]. Qed.

Lemma reset_ready_ready p a : reset_of t a = Some p -> ready t a = reset_ready t p a.
Proof.
  destruct t; cbn; [|discriminate| |]; unfold main_ready, lcd_ready, cmd_ready.
  - destruct (a_main a); congruence.
  - destruct (a_disp a); congruence.
  - destruct (a_cmd a); congruence.
Qed.

Lemma leads_step p q a : stands p q a -> reset_ready t p a = true -> leads a (reaches (reset_next p q)).
Proof.
  intros ((ms & R) & Hp & Hl) Hr.
  destruct (reset_event pool t ms q p a R Hp Hr) as (a' & ms' & Hrun & R' & _ & Hp' & Hl').
  eapply (leads_event (EvThread t)); [left; reflexivity|cbn; rewrite (reset_ready_ready p) by exact Hp; exact Hr|exact Hrun|].
  unfold reaches. destruct (reset_next p q) as [[p'|] q']; cbn in *.
  - split; [eauto|]. split; assumption.
  - unfold released. rewrite Hl'. destruct t; cbn in *; try reflexivity.
    + destruct (a_main a'); (discriminate || reflexivity).
    + destruct (a_disp a'); (discriminate || reflexivity).
    + destruct (a_cmd a'); (discriminate || reflexivity).
Qed.

(** The user types [bytes]. *)
Lemma leads_input p q a bytes :
  stands p q a -> Forall (fun b => 0 <= b < 256) bytes ->
  leads a (fun a' => stands p (take 16 (q ++ bytes)) a' /\ 0 < a_uart_rx_sem a').
Proof.
  intros ((ms & R) & Hp & Hl) Hb. pose proof (ar_sem _ _ _ R) as [_ Hs].
  assert (a_main a <> MainInit) as Hm.
  { intros Hm. destruct (ar_off _ _ _ R) as [|(Hk & Hd & Hc)]; [congruence|].
    destruct t; cbn in Hp; rewrite ?Hm, ?Hd, ?Hc in Hp; discriminate. }
  destruct (rb_some _ _ _ R Hm) as (rb & E & Rb). destruct (putchars_rep bytes _ _ _ E Rb) as (rb' & Hput & Rb').
  eapply (leads_event (EvUart bytes)); [right; eauto| |unfold handle, uart_rx_ind; erewrite bind_eq by exact Hput; reflexivity|].
  - cbn. rewrite (proj2 (ar_rx _ _ _ R) Hm). apply forallb_forall. intros b Hin%list_elem_of_In.
    rewrite Forall_forall in Hb. specialize (Hb b Hin). apply andb_true_intro. split; [apply Z.leb_le|apply Z.ltb_lt]; lia.
  - split; [|cbn; apply sem_up_pos, Hs]. split.
    + exists ms. apply (isr_rep ms q (take 16 (q ++ bytes)) a); try exact R; try reflexivity; [exact Rb'|].
      cbn. pose proof (sem_up_pos _ Hs). pose proof (ar_sem _ _ _ R). lia.
    + split; [rewrite <- Hp; destruct t; reflexivity|]. cbn. rewrite Hl. destruct t; reflexivity.
Qed.

Definition name_over (for_o : bool) (a : app) : Prop := exists q, reaches (name_done_next for_o q) a.

(** One more round of input_player_name, by what the bytes are. *)
Lemma leads_round for_o buf q a P :
  stands (ResetName for_o buf) q a ->
  (forall a', reaches (reset_next (ResetName for_o buf) q) a' -> leads a' P) -> leads a P.
Proof. intros H Hn. eapply leads_trans; [eapply leads_step; [exact H|reflexivity]|exact Hn]. Qed.

Lemma leads_full for_o buf q a : stands (ResetName for_o buf) q a -> (15 <= length buf)%nat -> leads a (name_over for_o).
Proof.
  intros H Hb. eapply leads_round; [exact H|]. intros a' Ha'. apply leads_here. exists q.
  unfold reset_next in Ha'. rewrite (proj2 (Z.ltb_ge _ _)) in Ha' by lia. exact Ha'.
Qed.

(** A letter and the end of the line are enough. *)
Lemma leads_typed for_o buf a : stands (ResetName for_o buf) [65; 10] a -> leads a (name_over for_o).
Proof.
  intros H. destruct (Nat.ltb_spec (length buf) 15) as [Hlt|Hge]; [|eapply leads_full; eassumption].
  eapply leads_round; [exact H|]. intros a1 H1. unfold reset_next in H1. rewrite (proj2 (Z.ltb_lt _ _)) in H1 by lia. cbn in H1.
  destruct (Nat.ltb_spec (length (buf ++ [65])) 15) as [Hlt'|Hge']; [|eapply leads_full; eassumption].
  eapply leads_round; [exact H1|]. intros a2 H2. apply leads_here. exists []. unfold reset_next in H2.
  rewrite (proj2 (Z.ltb_lt _ _)) in H2 by lia. cbn in H2. rewrite (proj2 (Z.ltb_lt _ _)) in H2; [exact H2|].
  rewrite length_app. cbn. lia.
Qed.

Lemma leads_wait for_o buf q a : stands (ResetNameWait for_o buf) q a ->
  leads a (stands (ResetName for_o buf) (take 16 (q ++ [65; 10]))).
Proof.
  intros H. eapply leads_trans; [apply (leads_input (ResetNameWait for_o buf) q a [65; 10]); [exact H|repeat constructor; lia]|].
  intros a1 [H1 Hs]. eapply leads_trans; [eapply leads_step; [exact H1|cbn; apply Z.ltb_lt, Hs]|].
  intros a2 H2. apply leads_here. exact H2.
Qed.

Lemma leads_name for_o q : forall buf a, stands (ResetName for_o buf) q a -> leads a (name_over for_o).
Proof.
  induction q as [|ch q IH]; intros buf a H; (destruct (Nat.ltb_spec (length buf) 15) as [Hlt|Hge];
    [|eapply leads_full; eassumption]); (eapply leads_round; [exact H|]); intros a1 H1; unfold reset_next in H1;
    rewrite (proj2 (Z.ltb_lt _ 15)) in H1 by lia.
  - eapply leads_trans; [eapply leads_wait, H1|]. intros a2 H2. eapply leads_typed. exact H2.
  - destruct ((ch =? 13) || (ch =? 10)).
    + destruct (0 <? Z.of_nat (length buf)); [apply leads_here; exists q; exact H1|eapply IH; exact H1].
    + eapply IH. exact H1.
Qed.

Lemma leads_delay q a : stands ResetDelay q a -> leads a released.
Proof. intros H. eapply leads_trans; [eapply leads_step; [exact H|reflexivity]|]. intros a1 H1. apply leads_here. exact H1. Qed.

Lemma leads_names for_o q buf a : stands (ResetName for_o buf) q a -> leads a released.
Proof.
  assert (forall q buf a, stands (ResetName true buf) q a -> leads a released) as Ho.
  { intros q' buf' a' H. eapply leads_trans; [eapply leads_name, H|]. intros a1 (q1 & H1). eapply leads_delay, H1. }
  intros H. destruct for_o; [eapply Ho, H|]. eapply leads_trans; [eapply leads_name, H|]. intros a1 (q1 & H1). eapply Ho, H1.
Qed.

Lemma leads_released p q a : stands p q a -> 0 < holds t a -> leads a released.
Proof.
  intros H Hh. destruct p as [type|for_o buf|for_o buf|].
  - eapply leads_trans.
    + eapply leads_step; [exact H|]. destruct H as (_ & _ & Hl). cbn. unfold lock_free. rewrite Hl. unfold lock_of.
      rewrite (proj2 (Z.eqb_neq (holds t a) 0)) by lia. apply bool_decide_eq_true. reflexivity.
    + intros a1 H1. destruct type; [eapply leads_delay, H1|eapply leads_names, H1].
  - eapply leads_names, H.
  - eapply leads_trans; [eapply leads_wait, H|]. intros a1 H1. eapply leads_names, H1.
  - eapply leads_delay, H.
Qed.
End Release.

(** C23: The threads never block each other for good.  In every reachable state
    the thread that holds lcd_mutex can release it by its own steps alone, if the
    user types a name where it waits for one.  *)
Theorem ox_lock_released pool level a :
  (16 <= length pool)%nat -> app_reachable pool level a ->
  exists t es a', Forall (fun e => e = EvThread t \/ exists bytes, e = EvUart bytes) es /\
    play pool es a = Some a' /\ a_lock a' = None.
Proof.
  intros Hp (ms & q & R)%reachable_rep; [|exact Hp]. destruct (ar_lock _ _ _ R) as (t & Hl & _). exists t.
  destruct (Z.eqb_spec (holds t a) 0) as [E|E].
  - exists [], a. split; [constructor|]. split; [reflexivity|]. rewrite Hl, E. reflexivity.
  - pose proof (holds_nonneg t a). destruct (reset_of t a) as [p|] eqn:Hr.
    + apply (leads_released pool Hp t p q); [|lia]. split; [eauto|]. auto.
    + exfalso. apply E. destruct t; cbn in *; [destruct (a_main a)|reflexivity|destruct (a_disp a)|destruct (a_cmd a)];
        (reflexivity || discriminate).
Qed.

(** ** Names *)

Definition newline (ch : Z) : bool := (ch =? 13) || (ch =? 10).

(** [n] rounds of the loop of input_player_name for one player. *)
Fixpoint name_rounds (n : nat) (for_o : bool) (buf : list Z) : APP reset_pc :=
  match n with
  | O => mret (ResetName for_o buf)
  | S n =>
      p ← name_round for_o buf;
      match p with
      | ResetName o buf => if Bool.eqb o for_o then name_rounds n for_o buf else mret p
      | _ => mret p
      end
  end.

(** The game with the name of one player set. *)
Definition with_name (for_o : bool) (n : list Z) (g : OXGame) : OXGame :=
  if for_o then g <| player_o ::= (fun p => p <| name := n |>) |> else g <| player_x ::= (fun p => p <| name := n |>) |>.

Lemma set_name_eq for_o buf g : (length buf <= 15)%nat ->
  set_name for_o buf g = Some (tt, with_name for_o (name_bytes buf) g).
Proof.
  intros Hl. pose proof (cstr_length buf). unfold set_name. erewrite bind_eq.
  2: { rewrite rt_strncpy_cstr by (rewrite cstr_end, ?length_app; unfold NAME_SIZE; cbn; lia). reflexivity. }
  rewrite cstr_end. destruct for_o; reflexivity.
Qed.

Section Rounds.
Context (for_o : bool).

(** What the rounds read from the buffer leaves everything else alone. *)
Lemma round_char q a rb buf ch :
  a_rb a = Some rb -> rb_rep 16 (ch :: q) rb -> (length buf < 15)%nat ->
  newline ch = false \/ newline ch = true /\ buf = [] ->
  exists rb', name_round for_o buf a =
      Some (ResetName for_o (if newline ch then buf else buf ++ [ch]), a <| a_rb := Some rb' |>) /\ rb_rep 16 q rb'.
Proof.
  intros E R Hl Hn. destruct (getchar_rep _ _ _ R) as (rb' & Hc & R'). exists rb'. split; [|exact R'].
  unfold name_round. rewrite (proj2 (Z.ltb_lt _ _)) by lia. erewrite bind_eq by (eapply on_rb_eq; [exact E|exact Hc]).
  cbn [head]. fold (newline ch). destruct Hn as [-> |[-> ->]]; reflexivity.
Qed.

Lemma name_done_eq q a rb buf :
  a_rb a = Some rb -> rb_rep 16 q rb -> (length buf <= 15)%nat ->
  exists a', name_done for_o buf a = Some (if for_o then ResetDelay else ResetName true [], a') /\
    a_game a' = with_name for_o (name_bytes buf) (a_game a).
Proof.
  intros E R Hl. unfold name_done. erewrite bind_eq by (apply on_game_eq, set_name_eq, Hl). destruct for_o.
  - eexists. split; [apply reset_show_eq|reflexivity].
  - match goal with |- context [name_start true ?s] => set (a1 := s) end. assert (a_rb a1 = Some rb) as E1 by exact E.
    destruct (name_start_eq a1 rb q true E1 R) as (rb' & H & _).
    eexists. split; [exact H|reflexivity].
Qed.

Lemma rounds_read w : forall buf rest q a rb,
  a_rb a = Some rb -> rb_rep 16 (w ++ rest) rb -> Forall (fun c => newline c = false) w ->
  (0 < length buf + length w <= 15)%nat ->
  (length buf + length w = 15)%nat \/ (exists c, rest = c :: q /\ newline c = true) ->
  exists a', name_rounds (length w + 1) for_o buf a = Some (if for_o then ResetDelay else ResetName true [], a') /\
    a_game a' = with_name for_o (name_bytes (buf ++ w)) (a_game a).
Proof.
  induction w as [|ch w IH]; intros buf rest q a rb E R Hw Hlen Hend; cbn [length Datatypes.app] in *.
  - rewrite app_nil_r. rewrite Nat.add_0_r in *. cbn [name_rounds plus].
    assert (exists q' a1 a', (name_round for_o buf a = name_done for_o buf a1) /\ a_game a1 = a_game a /\
      name_done for_o buf a1 = Some (if for_o then ResetDelay else ResetName true [], a') /\
      a_game a' = with_name for_o (name_bytes buf) (a_game a1) /\ q' = q) as (_ & a1 & a' & H1 & Hg1 & H2 & Hg & _).
    { unfold name_round. destruct (Z.ltb_spec (Z.of_nat (length buf)) 15).
      - destruct Hend as [?|(c & -> & Hc)]; [lia|]. destruct (getchar_rep _ _ _ R) as (rb' & Hget & R').
        assert (a_rb (a <| a_rb := Some rb' |>) = Some rb') as E' by reflexivity.
        destruct (name_done_eq _ _ rb' buf E' R') as (a' & Hd & Hg); [lia|].
        exists q, (a <| a_rb := Some rb' |>), a'. split; [|auto].
        erewrite bind_eq by (eapply on_rb_eq; [exact E|exact Hget]). cbn [head]. fold (newline c). rewrite Hc.
        rewrite (proj2 (Z.ltb_lt _ _)) by lia. reflexivity.
      - destruct (name_done_eq _ _ rb buf E R) as (a' & Hd & Hg); [lia|]. exists q, a, a'. auto. }
    exists a'. rewrite <- Hg1. split; [|exact Hg]. erewrite bind_eq by (rewrite H1; exact H2). destruct for_o; reflexivity.
  - inversion Hw as [|? ? Hch Hw']; subst.
    destruct (round_char _ a rb buf ch E R) as (rb' & H1 & R'); [lia|auto|]. rewrite Hch in H1.
    assert (a_rb (a <| a_rb := Some rb' |>) = Some rb') as E' by reflexivity.
    destruct (IH (buf ++ [ch]) rest q _ rb' E' R' Hw') as (a' & H2 & Hg).
    + rewrite length_app. cbn. lia.
    + rewrite length_app. cbn. destruct Hend as [?|Hend]; [left; lia|right; exact Hend].
    + exists a'. rewrite <- app_assoc in Hg. split; [|exact Hg]. cbn [name_rounds plus].
      erewrite bind_eq by exact H1. cbv beta iota. rewrite Bool.eqb_reflx. exact H2.
Qed.

Lemma rounds_skip nl n : forall q a rb,
  a_rb a = Some rb -> rb_rep 16 (nl ++ q) rb -> Forall (fun c => newline c = true) nl ->
  exists rb', name_rounds (length nl + n) for_o [] a = name_rounds n for_o [] (a <| a_rb := Some rb' |>) /\ rb_rep 16 q rb'.
Proof.
  induction nl as [|ch nl IH]; intros q a rb E R Hn; cbn [length Datatypes.app plus] in *.
  - exists rb. split; [|exact R]. destruct a. cbn in E. subst. reflexivity.
  - inversion Hn as [|? ? Hch Hn']; subst.
    destruct (round_char _ a rb [] ch E R) as (rb1 & H1 & R1); [cbn; lia|auto|]. rewrite Hch in H1.
    assert (a_rb (a <| a_rb := Some rb1 |>) = Some rb1) as E1 by reflexivity.
    destruct (IH q _ rb1 E1 R1 Hn') as (rb' & H2 & R'). exists rb'. split; [|exact R'].
    cbn [name_rounds]. erewrite bind_eq by exact H1. cbv beta iota. rewrite Bool.eqb_reflx. exact H2.
Qed.
End Rounds.

(** input_player_name reads a name.  Line ends before the name are skipped;
    the name ends at a line end or after 15 characters, and its characters, up to
    a NUL, become the player's name, padded with NULs; the rest of the game and
    the other name are unchanged.  *)
Theorem ox_name_input for_o a rb nl w rest :
  a_rb a = Some rb -> rb_rep 16 (nl ++ w ++ rest) rb ->
  Forall (fun c => newline c = true) nl -> Forall (fun c => newline c = false) w -> (0 < length w <= 15)%nat ->
  (length w = 15)%nat \/ (exists c q, rest = c :: q /\ newline c = true) ->
  exists a', name_rounds (length nl + (length w + 1)) for_o [] a =
      Some (if for_o then ResetDelay else ResetName true [], a') /\
    a_game a' = with_name for_o (name_bytes w) (a_game a).
Proof.
  intros E R Hnl Hw Hlen Hend. destruct (rounds_skip for_o nl (length w + 1) (w ++ rest) a rb E R Hnl) as (rb1 & H1 & R1).
  assert (a_rb (a <| a_rb := Some rb1 |>) = Some rb1) as E1 by reflexivity.
  destruct (rounds_read for_o w [] rest (tail rest) _ rb1 E1 R1 Hw) as (a' & H2 & Hg); [cbn; lia| |].
  - destruct Hend as [H|(c & q & -> & Hc)]; [left; cbn; exact H|right; exists c; auto].
  - exists a'. split; [rewrite H1; exact H2|exact Hg].
Qed.

(** ** Playing by commands *)

(** cmd_thread_entry's switch for one command after another. *)
Fixpoint commands (cmds : list Z) : G unit :=
  match cmds with [] => mret tt | c :: cmds => _ ← cmd_switch c; commands cmds end.

Lemma commands_one c g g' : cmd_switch c g = Some (None, g') -> commands [c] g = Some (tt, g').
Proof. intros H. cbn. erewrite bind_eq by exact H. reflexivity. Qed.

Lemma commands_app l1 l2 g g1 : commands l1 g = Some (tt, g1) -> commands (l1 ++ l2) g = commands l2 g1.
Proof.
  revert g. induction l1 as [|c l1 IH]; intros g; [intros [= ->]; reflexivity|]. cbn.
  unfold mbind, st_bind. destruct (cmd_switch c g) as [[r g2]|]; [apply IH|discriminate].
Qed.

Lemma switch_move c (m : G unit) g g' :
  cmd_switch c = (m;; mret None) -> m g = Some (tt, g') -> commands [c] g = Some (tt, g').
Proof. intros E H. apply commands_one. rewrite E. erewrite bind_eq by exact H. reflexivity. Qed.

Lemma commands_to_column ms g x : game_rep ms g -> 0 <= x < 3 ->
  exists l g', (length l <= 1)%nat /\ commands l g = Some (tt, g') /\ game_rep ms g' /\
    cursor_x g' = x /\ cursor_y g' = cursor_y g.
Proof.
  intros R Hx. pose proof (cursor_bounds ms g R) as [Hc _].
  destruct (decide (x = cursor_x g)) as [->|Hne]; [exists [], g; cbn; auto|].
  destruct (decide (x = (cursor_x g + 1) mod 3)) as [->|Hne'].
  - destruct (move_right_rep ms g R) as (g' & H & R' & E1 & E2). exists [100], g'.
    split; [cbn; lia|]. split; [eapply (switch_move 100 move_right); [reflexivity|exact H]|]. auto.
  - destruct (move_left_rep ms g R) as (g' & H & R' & E1 & E2). exists [97], g'.
    split; [cbn; lia|]. split; [eapply (switch_move 97 move_left); [reflexivity|exact H]|]. split; [exact R'|].
    split; [|exact E2]. rewrite E1. clear - Hc Hx Hne Hne'. Z.to_euclidean_division_equations. lia.
Qed.

Lemma commands_to_row ms g y : game_rep ms g -> 0 <= y < 3 ->
  exists l g', (length l <= 1)%nat /\ commands l g = Some (tt, g') /\ game_rep ms g' /\
    cursor_x g' = cursor_x g /\ cursor_y g' = y.
Proof.
  intros R Hy. pose proof (cursor_bounds ms g R) as [_ Hc].
  destruct (decide (y = cursor_y g)) as [->|Hne]; [exists [], g; cbn; auto|].
  destruct (decide (y = (cursor_y g + 1) mod 3)) as [->|Hne'].
  - destruct (move_down_rep ms g R) as (g' & H & R' & E1 & E2). exists [115], g'.
    split; [cbn; lia|]. split; [eapply (switch_move 115 move_down); [reflexivity|exact H]|]. auto.
  - destruct (move_up_rep ms g R) as (g' & H & R' & E1 & E2). exists [119], g'.
    split; [cbn; lia|]. split; [eapply (switch_move 119 move_up); [reflexivity|exact H]|]. split; [exact R'|].
    split; [exact E1|]. rewrite E2. clear - Hc Hy Hne Hne'. Z.to_euclidean_division_equations. lia.
Qed.

(** Every legal move can be played through the serial line: from any cursor
    position at most two of the commands a, d, s, w bring the cursor to the cell
    and e puts the piece of the player whose turn it is there.  *)
Theorem ox_move_by_commands ms g x y :
  game_rep ms g -> legal ms (x, y) ->
  exists l g', (length l <= 3)%nat /\ commands l g = Some (tt, g') /\ game_rep (ms ++ [(x, y)]) g'.
Proof.
  intros R Hl. pose proof Hl as (Hin & _). cbn in Hin. unfold in_board in Hin.
  assert (0 <= x < 3 /\ 0 <= y < 3) as [Hx Hy] by (bool_to_prop; lia).
  destruct (commands_to_column ms g x R Hx) as (l1 & g1 & N1 & H1 & R1 & Ex1 & Ey1).
  destruct (commands_to_row ms g1 y R1 Hy) as (l2 & g2 & N2 & H2 & R2 & Ex2 & Ey2).
  assert (placeable g2 = true) as Hp.
  { apply (placeable_legal ms g2 R2). rewrite Ex2, Ex1, Ey2. exact Hl. }
  exists (l1 ++ l2 ++ [101]), (placed g2). split; [rewrite !length_app; cbn; lia|]. split.
  - rewrite (commands_app _ _ _ _ H1), (commands_app _ _ _ _ H2).
    eapply (switch_move 101 place_piece); [reflexivity|]. rewrite (place_piece_eq ms g2 R2), Hp. reflexivity.
  - pose proof (placed_rep ms g2 R2 Hp) as R3. rewrite Ex2, Ex1, Ey2 in R3. exact R3.
Qed.

(** ** The screen *)

(** The marks as they are to be drawn: a cross of two thick lines for X and a
    circle for O, in the middle of a square of 80 pixels. *)
Definition mark_ops (m x y : Z) : list lcd_op :=
  let cx := 80 + 80 * x in let cy := 240 + 80 * y in
  if m =? 1 then [LCD_DrawThickLine GGREEN (cx - 20) (cy - 20) (cx + 20) (cy + 20) 5;
                  LCD_DrawThickLine GGREEN (cx + 20) (cy - 20) (cx - 20) (cy + 20) 5]
  else if m =? 2 then [LCD_DrawCircle cx cy 20 BLUE] else [].

Definition is_mark (op : lcd_op) : bool :=
  match op with LCD_DrawThickLine _ _ _ _ _ _ | LCD_DrawCircle _ _ _ _ => true | _ => false end.

Lemma draw_piece_marks m x y : m = 0 \/ m = 1 \/ m = 2 -> 0 <= x < 3 -> 0 <= y < 3 ->
  filter (fun op => is_mark op = true)
    (if m =? 0 then [] else draw_piece x y (color_table !!! Z.to_nat m)) = mark_ops m x y.
Proof.
  intros Hm Hx Hy. assert (x = 0 \/ x = 1 \/ x = 2) as Hx' by lia. assert (y = 0 \/ y = 1 \/ y = 2) as Hy' by lia.
  destruct Hm as [-> |[-> | ->]], Hx' as [-> |[-> | ->]], Hy' as [-> |[-> | ->]]; reflexivity.
Qed.

Lemma filter_flat_map {A B} (P : B -> Prop) `{!forall b, Decision (P b)} (f : A -> list B) (l : list A) :
  filter P (flat_map f l) = flat_map (fun a => filter P (f a)) l.
Proof. induction l as [|a l IH]; [reflexivity|]. cbn. rewrite filter_app, IH. reflexivity. Qed.

(** The marks on the screen of a drawn board. *)
Lemma board_marks ms g : game_rep ms g ->
  filter (fun op => is_mark op = true) (ox_game_draw_board g) =
    flat_map (fun y => flat_map (fun x => mark_ops (mark_at ms (x, y)) x y) [0; 1; 2]) [0; 1; 2].
Proof.
  intros R. unfold ox_game_draw_board. rewrite !filter_app, filter_flat_map.
  assert (forall l1 l2 l3 l4 m : list lcd_op, l1 = [] -> l2 = [] -> l4 = [] -> l3 = m -> l1 ++ l2 ++ l3 ++ l4 = m) as H
    by (intros * -> -> -> ->; apply app_nil_r).
  apply H; [reflexivity..|]. clear H. rewrite !flat_map_concat_map. f_equal. apply map_ext_in. intros y Hy.
  rewrite filter_flat_map, !flat_map_concat_map. f_equal. apply map_ext_in. intros x Hx.
  assert (0 <= x < 3 /\ 0 <= y < 3) as [Hx' Hy'] by (cbn in Hx, Hy; lia).
  rewrite draw_piece_marks; [|rewrite (gr_cell _ _ R) by (apply cursor_in; assumption); apply mark_cases|assumption..].
  rewrite (gr_cell _ _ R) by (apply cursor_in; assumption). reflexivity.
Qed.

(** The screen shows the game.  A round of the LCD thread after a change
    clears the screen and draws exactly the marks of the board, each in its cell,
    the names and the player whose turn it is, and the verdict when the game is
    over; then the change is noted as drawn.  *)
Theorem ox_display ms q a :
  app_rep ms q a -> a_disp a = LcdLock -> a_lock a = None -> state_changed (a_game a) = true ->
  exists a', lcd_run a = Some (tt, a') /\ a_game a' = (a_game a) <| state_changed := false |> /\ a_lock a' = None /\
    filter (fun op => is_mark op = true) (a_lcd a') =
      flat_map (fun y => flat_map (fun x => mark_ops (mark_at ms (x, y)) x y) [0; 1; 2]) [0; 1; 2] /\
    (forall op, op ∈ [show_line 50 200 (chars "X: " ++ cstr (name (player_x (a_game a))));
                      show_line 100 200 (chars "O: " ++ cstr (name (player_o (a_game a))));
                      show_line 150 200 (chars "Current: " ++
                        [if Nat.even (length ms) then symbol (player_x (a_game a)) else symbol (player_o (a_game a))])] ->
       op ∈ a_lcd a') /\
    (status ms = GAME_PLAYING /\ a_disp a' = LcdDelay \/
     status ms <> GAME_PLAYING /\ a_disp a' = LcdMessage /\ show_result (status ms) ∈ a_lcd a').
Proof.
  intros R Ed Hl Hc. exists (shown a). split; [apply lcd_lock_eq; assumption|]. pose proof (ar_game _ _ _ R) as Rg.
  set (g := a_game a) in *.
  assert (exists tail, a_lcd (shown a) = ox_game_draw_board g ++ tail /\ filter (fun op => is_mark op = true) tail = [] /\
    (status ms = GAME_PLAYING /\ a_disp (shown a) = LcdDelay \/
     status ms <> GAME_PLAYING /\ a_disp (shown a) = LcdMessage /\ tail = [show_result (status ms)]) /\
    a_game (shown a) = g <| state_changed := false |> /\ a_lock (shown a) = None) as (l & El & Fl & Hv & Eg & Elock).
  { unfold shown, drawn. fold g. rewrite Hc, (gr_state _ _ Rg). destruct (bool_decide_reflect (status ms = GAME_PLAYING)) as [E|E].
    - exists []. split; [symmetry; apply app_nil_r|]. auto.
    - exists [show_result (status ms)]. split; [reflexivity|]. split; [reflexivity|]. auto 10. }
  split; [exact Eg|]. split; [exact Elock|]. rewrite El. split; [|split].
  - rewrite filter_app, Fl, app_nil_r. apply board_marks, Rg.
  - intros op Hop. apply elem_of_app. left. unfold ox_game_draw_board. rewrite !elem_of_app. right. right. right.
    assert (forall (f : list Z -> lcd_op) (p n : list Z), (length p + length n <= 39)%nat -> f (snprintf_behind 40 p n) = f (p ++ n)) as Hs.
    { intros f p n H. unfold snprintf_behind. rewrite take_ge by (rewrite length_app; lia). reflexivity. }
    pose proof (cstr_length (name (player_x g))) as Nx. pose proof (cstr_length (name (player_o g))) as No.
    rewrite (gr_name_x _ _ Rg) in Nx. rewrite (gr_name_o _ _ Rg) in No. unfold NAME_SIZE in *.
    rewrite !Hs by (cbn; lia).
    assert ((current_player g =? 0) = Nat.even (length ms)) as ->.
    { pose proof (player_current (length ms)) as H. unfold player_of in H. rewrite (gr_player _ _ Rg).
      destruct (Nat.even (length ms)); [apply Z.eqb_eq|apply Z.eqb_neq]; lia. }
    rewrite !elem_of_cons in *. destruct Hop as [-> |[-> |[-> |Hop]]]; auto 10.
  - destruct Hv as [Hv|(E & Ed' & ->)]; [left; exact Hv|right]. split; [exact E|]. split; [exact Ed'|].
    apply elem_of_app. right. apply list_elem_of_singleton. reflexivity.
Qed.

(** ** What the buttons and the display do that is not meant *)

(** The key thread takes no pressed button for the OK button, since RT_NULL
    is the number of its pin.  When the button that has triggered the interrupt is
    up again after the 20 ms, a piece is placed under the cursor if that is a
    legal move, and the interrupt of that button is not enabled again.  *)
Theorem ox_released_button ms q a :
  app_rep ms q a -> a_key a = KeyLock -> a_lock a = None ->
  a_level a !! BUTTON_LEFT = Some PIN_HIGH -> a_level a !! BUTTON_RIGHT = Some PIN_HIGH ->
  a_level a !! BUTTON_DOWN = Some PIN_HIGH -> a_level a !! BUTTON_OK = Some PIN_LOW ->
  legal ms (cursor_x (a_game a), cursor_y (a_game a)) ->
  exists a', key_run a = Some (tt, a') /\ a_key a' = KeySem /\
    game_rep (ms ++ [(cursor_x (a_game a), cursor_y (a_game a))]) (a_game a') /\
    forall pin, pin <> BUTTON_OK -> pin ∉ a_irq a -> pin ∉ a_irq a'.
Proof.
  intros R Ek Hl H1 H2 H3 H4 Hlegal. pose proof (ar_game _ _ _ R) as Rg.
  assert (active_pin (a_level a) = BUTTON_OK) as Hpin by (unfold active_pin; rewrite H1, H2, H3, H4; reflexivity).
  assert (placeable (a_game a) = true) as Hp by (apply (placeable_legal _ _ Rg); exact Hlegal).
  pose proof (place_piece_eq _ _ Rg) as Hpl. rewrite Hp in Hpl.
  exists (a <| a_lock := None |> <| a_game := placed (a_game a) |> <| a_irq ::= (fun s => {[BUTTON_OK]} ∪ s) |> <| a_key := KeySem |>).
  split; [|split; [reflexivity|split; [apply placed_rep; assumption|]]].
  - unfold key_run. erewrite bind_eq by reflexivity. rewrite Ek.
    erewrite bind_eq by (apply (lcd_take_eq KEY a 0); [lia|exact Hl]). rewrite Hpin.
    erewrite bind_eq by (apply on_game_eq; exact Hpl).
    erewrite bind_eq by (apply (lcd_release_eq KEY _ 0); [lia|reflexivity]). reflexivity.
  - intros pin Hne Hin. cbn. rewrite elem_of_union, elem_of_singleton. tauto.
Qed.

(** Events that start the game with the names A and B, all buttons up. *)
Definition idle_pins : gmap Z Z := {[BUTTON_LEFT := PIN_HIGH; BUTTON_RIGHT := PIN_HIGH; BUTTON_DOWN := PIN_HIGH; BUTTON_OK := PIN_LOW]}.
Definition ox_pool : list Z := replicate 16 0.
Definition start_events : list event :=
  let M := EvThread MAIN in [M; M; EvUart [65; 10]; M; M; EvUart [66; 10]; M; M; M; M].

(** Commands typed and handled. *)
Definition typed (cmds : list Z) : list event :=
  [EvUart cmds; EvThread CMD] ++ flat_map (fun _ => [EvThread CMD; EvThread CMD]) cmds ++ [EvThread CMD; EvThread CMD].

(** X wins with e a e w d e a e s s d e. *)
Definition x_wins : list Z := [101; 97; 101; 119; 100; 101; 97; 101; 115; 115; 100; 101].

(** The LCD thread resets whatever game there is two seconds after it has
    shown a verdict.  There is a run in which X wins, the verdict is shown, the
    players start a new game with the command c and make the first move, and the
    next step of the LCD thread wipes that running game.  *)
Theorem ox_late_reset :
  exists es a a', play ox_pool es (app0 idle_pins) = Some a /\ state (a_game a) = GAME_PLAYING /\ total_steps (a_game a) = 1 /\
    play ox_pool [EvThread LCD] a = Some a' /\ total_steps (a_game a') = 0 /\ board (a_game a') = replicate 9 0.
Proof.
  exists (start_events ++ typed x_wins ++ [EvThread LCD] ++
    (* c, with its delay, then e *)
    [EvUart [99]; EvThread CMD; EvThread CMD; EvThread CMD; EvThread CMD; EvThread CMD; EvThread CMD; EvThread CMD] ++
    typed [101] ++ [EvThread LCD]).
  do 2 eexists. split; [vm_compute; reflexivity|]. do 2 (split; [vm_compute; reflexivity|]). split; [vm_compute; reflexivity|].
  split; vm_compute; reflexivity.
Qed.

(** ** Examples *)

Lemma play_reachable pool level es : forall a a', app_reachable pool level a -> play pool es a = Some a' -> app_reachable pool level a'.
Proof.
  induction es as [|e es IH]; intros a a' Ha; cbn; [intros [= <-]; exact Ha|].
  destruct (enabled e a) eqn:He; [|discriminate]. destruct (handle pool e a) as [[[] a1]|] eqn:Hh; [|discriminate].
  apply IH. eapply app_reachable_step; [exact Ha|]. exists e. auto.
Qed.

(** The state after some events. *)
Definition ox_after (es : list event) : app := default (app0 ∅) (play ox_pool es (app0 idle_pins)).
Definition is_played (es : list event) : bool :=
  match play ox_pool es (app0 idle_pins) with Some _ => true | None => false end.

Lemma after_reachable es : is_played es = true -> app_reachable ox_pool idle_pins (ox_after es).
Proof.
  unfold is_played, ox_after. intros H. destruct (play _ _ _) as [a|] eqn:E; [|discriminate].
  eapply play_reachable; [apply app_reachable_0|exact E].
Qed.

(** X has made the first move in the middle. *)
Definition first_move : list event := start_events ++ typed [101].

Lemma ox_follows_rules_witness :
  total_steps (a_game (ox_after first_move)) = 1 /\
  exists ms, game_rep ms (a_game (ox_after first_move)).
Proof.
  split; [vm_compute; reflexivity|].
  destruct (ox_follows_rules ox_pool idle_pins (ox_after first_move)) as (ms & R & _);
    [vm_compute; lia|apply after_reachable; vm_compute; reflexivity|exists ms; exact R].
Defined.

Lemma ox_verdict_witness :
  state (a_game (ox_after (start_events ++ typed x_wins))) = GAME_X_WIN /\
  exists l, l ∈ lines /\ forall x y, (x, y) ∈ l -> cell (a_game (ox_after (start_events ++ typed x_wins))) x y = 1.
Proof.
  assert (state (a_game (ox_after (start_events ++ typed x_wins))) = GAME_X_WIN) as E by (vm_compute; reflexivity).
  split; [exact E|].
  destruct (ox_verdict ox_pool idle_pins (ox_after (start_events ++ typed x_wins))) as (H & _);
    [vm_compute; lia|apply after_reachable; vm_compute; reflexivity|exact (proj1 H E)].
Defined.

Lemma ox_data_in_range_witness :
  cell (a_game (ox_after first_move)) 1 1 = 1 /\ length (board (a_game (ox_after first_move))) = 9%nat.
Proof.
  split; [vm_compute; reflexivity|].
  apply (ox_data_in_range ox_pool idle_pins (ox_after first_move));
    [vm_compute; lia|apply after_reachable; vm_compute; reflexivity].
Defined.

(** The command thread has been told to reset everything and waits for a name. *)
Definition in_names : list event := start_events ++ [EvUart [114]; EvThread CMD; EvThread CMD; EvThread CMD; EvThread CMD].

Lemma ox_mutual_exclusion_witness :
  holds CMD (ox_after in_names) = 2 /\ a_lock (ox_after in_names) = Some (CMD, 2) /\
  forall t, 0 < holds t (ox_after in_names) -> t = CMD.
Proof.
  assert (holds CMD (ox_after in_names) = 2) as E by (vm_compute; reflexivity).
  split; [exact E|]. split; [vm_compute; reflexivity|]. intros t Ht.
  destruct (ox_mutual_exclusion ox_pool idle_pins (ox_after in_names)) as (H & _);
    [vm_compute; lia|apply after_reachable; vm_compute; reflexivity|]. apply H; [exact Ht|rewrite E; lia].
Defined.

Lemma ox_lock_released_witness :
  a_lock (ox_after in_names) = Some (CMD, 2) /\
  exists es a', play ox_pool es (ox_after in_names) = Some a' /\ a_lock a' = None.
Proof.
  split; [vm_compute; reflexivity|].
  destruct (ox_lock_released ox_pool idle_pins (ox_after in_names)) as (t & es & a' & _ & H1 & H2);
    [vm_compute; lia|apply after_reachable; vm_compute; reflexivity|]. exists es, a'. auto.
Defined.

(** A line end, then Bob and a line end. *)
Definition rb_bob : ringbuffer := rb_run (rt_ringbuffer_put [10; 66; 111; 98; 10]) rb16.
Definition app_bob : app := mkApp game_zero (Some rb_bob) 0 0 None [] ∅ ∅ true MainDone KeySem LcdLock CmdSem.

Lemma rb_bob_rep : rb_rep 16 ([10] ++ [66; 111; 98] ++ [10]) rb_bob.
Proof. split; vm_compute; first [reflexivity|discriminate|split; first [reflexivity|discriminate]]. Qed.

Lemma ox_name_input_witness :
  rb_rep 16 ([10] ++ [66; 111; 98] ++ [10]) rb_bob /\
  exists a', name_rounds 5 true [] app_bob = Some (ResetDelay, a') /\
    cstr (name (player_o (a_game a'))) = [66; 111; 98].
Proof.
  split; [exact rb_bob_rep|].
  destruct (ox_name_input true app_bob rb_bob [10] [66; 111; 98] [10] eq_refl rb_bob_rep) as (a' & H & Hg).
  - repeat constructor.
  - repeat constructor.
  - cbn. lia.
  - right. exists 10, []. auto.
  - exists a'. split; [exact H|]. rewrite Hg. reflexivity.
Defined.

Lemma ox_move_by_commands_witness :
  legal [] (2, 0) /\ exists l g', (length l <= 3)%nat /\ commands l game_zero = Some (tt, g') /\ game_rep [(2, 0)] g'.
Proof.
  assert (legal [] (2, 0)) as Hl by (split; [reflexivity|split; [apply not_elem_of_nil|reflexivity]]).
  split; [exact Hl|]. apply (ox_move_by_commands [] game_zero 2 0); [apply (ar_game _ _ _ (app0_rep ∅))|exact Hl].
Defined.

Lemma ox_display_witness :
  exists ms q a', app_rep ms q (ox_after first_move) /\ lcd_run (ox_after first_move) = Some (tt, a') /\ a_disp a' = LcdDelay.
Proof.
  destruct (reachable_rep ox_pool idle_pins (ox_after first_move)) as (ms & q & R);
    [vm_compute; lia|apply after_reachable; vm_compute; reflexivity|].
  destruct (ox_display ms q (ox_after first_move) R) as (a' & H & _ & _ & _ & _ & Hv); [vm_compute; reflexivity..|].
  exists ms, q, a'. split; [exact R|]. split; [exact H|]. destruct Hv as [[_ Hd]|(Hs & _)]; [exact Hd|].
  exfalso. apply Hs. rewrite <- (gr_state _ _ (ar_game _ _ _ R)). vm_compute. reflexivity.
Defined.

(** The left button goes down and up again within the 20 ms. *)
Definition short_press : list event :=
  start_events ++ [EvLevel BUTTON_LEFT PIN_LOW; EvButton BUTTON_LEFT; EvLevel BUTTON_LEFT PIN_HIGH; EvThread KEY; EvThread KEY].

Lemma ox_released_button_witness :
  cell (a_game (ox_after short_press)) 1 1 = 0 /\ total_steps (a_game (ox_after short_press)) = 0 /\
  exists ms a', key_run (ox_after short_press) = Some (tt, a') /\ game_rep (ms ++ [(1, 1)]) (a_game a') /\
    BUTTON_LEFT ∉ a_irq a'.
Proof.
  split; [vm_compute; reflexivity|]. split; [vm_compute; reflexivity|].
  destruct (reachable_rep ox_pool idle_pins (ox_after short_press)) as (ms & q & R);
    [vm_compute; lia|apply after_reachable; vm_compute; reflexivity|].
  destruct (ox_released_button ms q (ox_after short_press) R) as (a' & H & _ & Hg & Hpin); [vm_compute; reflexivity..| |].
  - apply (placeable_legal _ _ (ar_game _ _ _ R)). vm_compute. reflexivity.
  - exists ms, a'. split; [exact H|]. split; [exact Hg|]. apply Hpin; [discriminate|].
    apply (bool_decide_eq_false_1 (BUTTON_LEFT ∈ a_irq (ox_after short_press))). vm_compute. reflexivity.
Defined.
