(* ===== verification/MemProps.v ===== *)
(** * The small memory allocator: what its clients rely on

    [mem_ref m L]: the heap [m] is well formed and its live blocks are [L]. *)

From stdpp Require Import gmap sorting.
From S2P Require Import Prelude Mem MemInv MemAlloc MemSpec.
Open Scope rt_scope.

Definition mem_ref (m : rt_small_mem) (L : blocks) : Prop := exists bs, heap_rep bs m /\ L ≡ₚ live bs m.

Lemma op_ok_perm L L' op : L ≡ₚ L' -> op_ok L op -> op_ok L' op.
Proof. intros H. destruct op; cbn; rewrite ?H; auto. Qed.

Lemma spec_perm lo hi op r L1 L1' L2 L2' : L1' ≡ₚ L1 -> L2' ≡ₚ L2 -> spec_step lo hi op r L1 L2 ->
  exists L3, L3 ≡ₚ L2' /\ spec_step lo hi op r L1' L3.
Proof.
  intros E1 E2 H. inversion H; subst.
  - exists L1'. split; [rewrite E1, E2; reflexivity|constructor].
  - exists L2'. split; [reflexivity|]. eapply spec_alloc; [|rewrite E2, E1; eassumption].
    destruct H0 as (? & ? & ? & ? & ? & Hf). repeat split; try assumption. rewrite E1. exact Hf.
  - exists L2'. split; [reflexivity|]. econstructor. rewrite E1, E2. eassumption.
  - exists L1'. split; [rewrite E1, E2; reflexivity|constructor].
  - exists L2'. split; [reflexivity|]. eapply spec_realloc_free; [rewrite E1, E2; eassumption|assumption].
  - exists L2'. split; [reflexivity|]. eapply spec_realloc; [rewrite E1; eassumption|eassumption|rewrite E2; assumption].
Qed.

(** ** The layout after initialisation *)

Lemma align_near x : 0 <= x < 2 ^ 32 - 7 -> x <= RT_ALIGN x 8 < x + 8 /\ RT_ALIGN x 8 mod 8 = 0.
Proof. intros. split; [rewrite RT_ALIGN_8 by lia; Z.to_euclidean_division_equations; lia|apply RT_ALIGN_8_mod]. Qed.

Lemma align_down_near x : 0 <= x < 2 ^ 32 -> x - 8 < RT_ALIGN_DOWN x 8 <= x /\ RT_ALIGN_DOWN x 8 mod 8 = 0 /\ 0 <= RT_ALIGN_DOWN x 8.
Proof. intros. rewrite RT_ALIGN_DOWN_8 by lia. Z.to_euclidean_division_equations; lia. Qed.

(** [rt_smem_init] on a region that has room for its own structure and for some
    blocks gives a heap with one free block and no live ones, which lies inside the
    region behind the structure and wastes less than 64 bytes; a region without the
    room is refused. *)
Theorem smem_init_layout struct_size begin_addr size :
  0 < begin_addr -> 0 < struct_size -> 0 <= size -> begin_addr + size + struct_size + 16 < 2 ^ 32 ->
  (struct_size + 64 <= size ->
     exists m, rt_smem_init struct_size begin_addr size = Some m /\ heap_rep [(sm_total m + 16, false)] m /\ mem_ref m [] /\
       begin_addr + struct_size <= heap_ptr m /\ heap_ptr m + heap_end m + 16 <= begin_addr + size /\
       size - struct_size - 64 < sm_total m /\ sm_used m = 0) /\
  (size < struct_size + 32 -> rt_smem_init struct_size begin_addr size = None).
Proof.
  intros Hb Hs Hsz Hmax. unfold rt_smem_init. destruct sizes_eq as (_ & -> & _). change RT_ALIGN_SIZE with 8.
  destruct (align_near begin_addr) as [A1 A2]; [lia|]. rewrite (u32_small (RT_ALIGN begin_addr 8 + struct_size)) by lia.
  destruct (align_near (RT_ALIGN begin_addr 8 + struct_size)) as [B1 B2]; [lia|]. rewrite (u32_small (begin_addr + size)) by lia.
  destruct (align_down_near (begin_addr + size)) as (C1 & C2 & C3); [lia|].
  set (sm := RT_ALIGN begin_addr 8) in *. set (ba := RT_ALIGN (sm + struct_size) 8) in *. set (ea := RT_ALIGN_DOWN (begin_addr + size) 8) in *.
  split; intros Hroom.
  - rewrite (proj2 (Z.ltb_lt _ _)), (proj2 (Z.leb_le _ _)) by lia. cbn [andb]. rewrite (u32_small (ea - ba - 2 * 16)) by lia.
    rewrite (u32_small (ea - ba - 2 * 16 + 16)) by lia. eexists. split; [reflexivity|]. cbn [sm_total heap_ptr heap_end sm_used].
    set (last := ea - ba - 2 * 16 + 16).
    match goal with |- heap_rep _ ?m /\ _ => assert (heap_rep [(last, false)] m) as H end.
    { split; [split|exact I|reflexivity]; cbn; try assumption; try reflexivity; try lia.
      - constructor; [|constructor]. cbn. split; [lia|]. replace last with (ea + (- ba) + -16) by lia.
        apply mod8_add; [apply mod8_add; [exact C2|]|reflexivity]. rewrite Z.mod_opp_l_z; [reflexivity|lia|exact B2].
      - rewrite lookup_insert_ne by lia. split; [|exact I]. apply lookup_insert_eq.
      - exists last. apply lookup_insert_eq. }
    split; [exact H|]. split; [exists [(last, false)]; split; [exact H|reflexivity]|]. repeat split; lia.
  - destruct (2 * 16 <? ea); [|reflexivity]. rewrite (proj2 (Z.leb_gt _ _)) by lia. reflexivity.
Qed.

(** C25: a client that passes only live blocks never makes [rt_smem_alloc],
    [rt_smem_free] or [rt_smem_realloc] fail an assertion or reach a header that is
    not there, and each call does what the abstract allocator does: a new block is
    aligned, large enough, inside the heap and apart from the live ones, releasing
    removes one block and resizing replaces one; the bytes of the other live blocks
    keep their values and a resized block keeps those that fit. *)
Theorem smem_calls_refine m L op : mem_ref m L -> op_ok L op ->
  exists r m' L', run_op op m = Some (r, m') /\ mem_ref m' L' /\
    spec_step (heap_ptr m + 16) (heap_ptr m + heap_end m) op r L L' /\ kept op r L m m'.
Proof.
  intros (bs & Hrep & HL) Hop. destruct (op_step bs m op Hrep (op_ok_perm _ _ _ HL Hop)) as (r & m' & bs' & E & H' & _ & Hs & Hk).
  destruct (spec_perm _ _ _ _ _ _ _ (live bs' m') HL (reflexivity _) Hs) as (L' & HL' & Hs').
  exists r, m', L'. split; [exact E|]. split; [exists bs'; auto|]. split; [exact Hs'|].
  destruct Hk as [K1 K2]. split.
  - intros x l i Hin. apply K1. rewrite <- HL. exact Hin.
  - destruct op, r; try exact I. intros l i Hin. apply K2. rewrite <- HL. exact Hin.
Qed.

Lemma live_pairwise base off bs : sizes_ok bs -> ForallOrdPairs apart (live_at base off bs).
Proof.
  intros Hs. revert off. induction Hs as [|[sz u] bs [H _] Hs IH]; intros off; [constructor|]. rewrite live_cons.
  destruct u; cbn [app]; [|apply IH]. constructor; [|apply IH]. apply Forall_forall. intros [a l] Hin.
  destruct (live_range _ _ _ _ _ Hs Hin) as (? & _). left. cbn in *. lia.
Qed.

Lemma live_use base off bs : sizes_ok bs -> in_use bs = foldr (fun b s => snd b + 16 + s) 0 (live_at base off bs).
Proof.
  intros Hs. revert off. induction Hs as [|[sz u] bs _ Hs IH]; intros off; [reflexivity|]. rewrite live_cons.
  destruct u; cbn; [rewrite (IH (off + sz)); lia|apply IH].
Qed.

(** the live blocks of a heap never overlap, lie inside it on 8-byte boundaries,
    and [parent.used] is the sum of their lengths and headers. *)
Theorem smem_live_apart m L : mem_ref m L -> exists L', L' ≡ₚ L /\ ForallOrdPairs apart L' /\
  Forall (fun b => fst b mod 8 = 0 /\ heap_ptr m + 16 <= fst b /\ fst b + snd b <= heap_ptr m + heap_end m /\ 8 <= snd b) L' /\
  sm_used m = foldr (fun b s => snd b + 16 + s) 0 L' /\ sm_used m <= heap_end m.
Proof.
  intros (bs & [R H U] & HL). pose proof (hs_sizes _ _ R) as Hs. exists (live bs m). split; [symmetry; exact HL|].
  split; [apply live_pairwise, Hs|]. split; [|split; [rewrite U; apply live_use, Hs|]].
  - apply Forall_forall. intros [a l] Hin. destruct (live_range _ _ _ _ _ Hs Hin) as (? & ? & ? & Hm & _).
    destruct (hs_heap _ _ R) as (_ & P2 & _). rewrite (hs_total _ _ R) in *. cbn. split; [|lia].
    replace a with ((a - heap_ptr m - 0) + heap_ptr m) by lia. apply mod8_add; assumption.
  - rewrite U. pose proof (in_use_bound bs Hs). rewrite <- (hs_total _ _ R). lia.
Qed.

(** [rt_smem_alloc] is first fit: it takes the first free block with room for the
    rounded size, at that block's address, and splits it when the rest can be a block
    of its own; RT_NULL means that no free block has the room, and changes nothing. *)
Theorem smem_alloc_first_fit bs m size : heap_rep bs m -> size <> 0 ->
  (none_fits (need size) bs -> rt_smem_alloc size m = Some (None, m)) /\
  (forall b1 sz b2, bs = b1 ++ (sz, false) :: b2 -> none_fits (need size) b1 -> need size + 16 <= sz ->
     exists m', rt_smem_alloc size m = Some (Some (block_addr m b1), m') /\ heap_rep (b1 ++ taken sz (need size) ++ b2) m').
Proof.
  intros Hrep Hs. split; [intros Hn; exact (alloc_none_rep size bs m Hrep Hn Hs)|]. intros b1 sz b2 -> Hn Hle.
  destruct (alloc_rep size b1 sz b2 m Hrep Hn ltac:(lia) Hs) as (m' & E & H' & _). eauto.
Qed.

Lemma merged_taken b1 sz n b2 : no_holes (b1 ++ (sz, false) :: b2) ->
  exists t rest, b1 ++ taken sz n ++ b2 = b1 ++ (t, true) :: rest /\ merged b1 t rest = b1 ++ (sz, false) :: b2.
Proof.
  rewrite no_holes_app. intros (_ & H2 & H3).
  assert (forall t rest, merged b1 t rest = b1 ++ merge_front t rest) as Hm.
  { intros t rest. destruct (merged_cases b1 t rest) as [(x & s & -> & _)|[_ E]]; [|exact E].
    destruct H3. split; [exists s; apply last_snoc|eauto]. }
  unfold taken. destruct (n + 32 <=? sz - 16); cbn [app]; eexists _, _; (split; [reflexivity|]); rewrite Hm.
  - cbn. rewrite Zplus_minus. reflexivity.
  - f_equal. destruct b2 as [|[s []] b2]; [reflexivity|reflexivity|]. destruct H2.
Qed.

(** Allocating and releasing again gives the layout of before. *)
Lemma alloc_free_layout bs m size p m1 : heap_rep bs m -> size <> 0 -> rt_smem_alloc size m = Some (Some p, m1) ->
  exists bs1 len, heap_rep bs1 m1 /\ live bs1 m1 ≡ₚ (p, len) :: live bs m /\ need size <= len /\
    forall m1', (forall bs', heap_rep bs' m1 -> heap_rep bs' m1') -> same_heap m1 m1' -> exists m2, rt_smem_free (Some p) m1' = Some (tt, m2) /\ heap_rep bs m2.
Proof.
  intros Hrep Hs E. destruct (first_fit (need size) bs) as [Hn|(b1 & sz & b2 & -> & Hn & Hle)].
  { rewrite (alloc_none_rep size bs m Hrep Hn Hs) in E. discriminate. }
  destruct (alloc_rep size b1 sz b2 m Hrep Hn Hle Hs) as (m' & E' & H' & Hsame & _). rewrite E' in E. injection E as <- <-.
  exists (b1 ++ taken sz (need size) ++ b2), (in_use (taken sz (need size)) - 16). split; [exact H'|]. split; [|split].
  - rewrite (live_same _ m m' Hsame). unfold live. rewrite live_taken, live_app, live_cons. unfold block_addr. rewrite header_eq. reflexivity.
  - pose proof (taken_len sz (need size)). lia.
  - intros m1' H1 Hsame1. destruct (merged_taken b1 sz (need size) b2 (hr_holes _ _ Hrep)) as (t & rest & El & Em).
    apply H1 in H'. rewrite El in H'. destruct (free_rep b1 t rest m1' H') as (m2 & E2 & H2 & _). exists m2.
    rewrite Em in H2. split; [|exact H2]. rewrite <- E2. unfold block_addr. destruct Hsame1 as (_ & _ & _ & -> & _), Hsame as (_ & _ & _ & -> & _). reflexivity.
Qed.

(** Releasing a block right after it was allocated restores the layout of the
    heap: the same blocks, the same free space, the same [lfree] and [used]. *)
Theorem smem_alloc_free_roundtrip bs m size p m1 : heap_rep bs m -> size <> 0 -> rt_smem_alloc size m = Some (Some p, m1) ->
  exists m2, rt_smem_free (Some p) m1 = Some (tt, m2) /\ heap_rep bs m2 /\ lfree m2 = lfree m /\ sm_used m2 = sm_used m.
Proof.
  intros Hrep Hs E. destruct (alloc_free_layout bs m size p m1 Hrep Hs E) as (bs1 & len & _ & _ & _ & H).
  destruct (H m1 (fun _ h => h) (same_heap_refl m1)) as (m2 & E2 & H2). exists m2. split; [exact E2|]. split; [exact H2|].
  destruct H2 as [R2 _ U2], Hrep as [R _ U]. rewrite U2, U, (hs_lfree _ _ R2), (hs_lfree _ _ R). auto.
Qed.

(** Sizes within 7 bytes of 2^32 wrap when they are rounded up: [rt_smem_alloc]
    then hands out a block for 16 bytes and [rt_smem_realloc] releases the block. *)
Theorem smem_size_wraps size m rmem : 2 ^ 32 - 7 <= size < 2 ^ 32 -> sm_valid m = true -> 0 <= mem_size_aligned m ->
  rt_smem_alloc size m = rt_smem_alloc 16 m /\
  rt_smem_realloc rmem size m = (rt_smem_free rmem;; mret None) m.
Proof.
  intros Hs Hv Hm. split.
  - rewrite !alloc_enter by (exact Hv || lia). replace (need size) with (need 16); [reflexivity|].
    unfold need. change RT_ALIGN_SIZE with 8. rewrite (RT_ALIGN_8_wraps size Hs). reflexivity.
  - unfold rt_smem_realloc. erewrite bind_eq by reflexivity. erewrite bind_eq by (apply assert_eq; exact Hv).
    change RT_ALIGN_SIZE with 8. rewrite (RT_ALIGN_8_wraps size Hs), (proj2 (Z.ltb_ge _ _)) by exact Hm. reflexivity.
Qed.

(** ** Aligned blocks and cleared blocks *)

Lemma ldiff_pow x k : 0 <= k -> Z.ldiff x (2 ^ k - 1) = x - x mod 2 ^ k.
Proof.
  intros Hk. replace (2 ^ k - 1) with (Z.ones k) by (rewrite Z.ones_equiv; lia).
  rewrite Z.ldiff_ones_r, Z.shiftl_mul_pow2, Z.shiftr_div_pow2 by lia. pose proof (Z.div_mod x (2 ^ k)). lia.
Qed.

Lemma land_pow x k : 0 <= k -> Z.land x (2 ^ k - 1) = x mod 2 ^ k.
Proof. intros Hk. replace (2 ^ k - 1) with (Z.ones k) by (rewrite Z.ones_equiv; lia). apply Z.land_ones. exact Hk. Qed.

Lemma load_store a v d : 0 <= v < 2 ^ 32 -> load_word a (store_word a v d) = Some v.
Proof.
  intros Hv. unfold load_word. set (d' := store_word a v d).
  assert (d' !! a = Some (u8 v)) as -> by (unfold d', store_word; rewrite !lookup_insert_ne by lia; apply lookup_insert_eq).
  assert (d' !! (a + 1) = Some (u8 (Z.shiftr v 8))) as -> by (unfold d', store_word; rewrite 2 lookup_insert_ne by lia; apply lookup_insert_eq).
  assert (d' !! (a + 2) = Some (u8 (Z.shiftr v 16))) as -> by (unfold d', store_word; rewrite lookup_insert_ne by lia; apply lookup_insert_eq).
  assert (d' !! (a + 3) = Some (Z.shiftr v 24)) as -> by (unfold d', store_word; apply lookup_insert_eq).
  cbn [mbind option_bind]. f_equal. unfold u8. rewrite !Z.shiftr_div_pow2 by lia.
  change (2 ^ 16) with (2 ^ 8 * 2 ^ 8). change (2 ^ 24) with (2 ^ 8 * 2 ^ 8 * 2 ^ 8). rewrite <- !Z.div_div by lia.
  change (2 ^ 8) with 256. pose proof (Z.div_mod v 256). pose proof (Z.div_mod (v / 256) 256). pose proof (Z.div_mod (v / 256 / 256) 256). lia.
Qed.

(** The aligned address in a block of [len] bytes at [p]. *)
Definition align_in (p align : Z) : Z :=
  if Z.land p (u32 (align - 1)) =? 0 then u32 (p + align) else Z.ldiff (u32 (p + u32 (align - 1))) (u32 (align - 1)).

Lemma align_in_ok p k : p mod 8 = 0 -> 0 <= p -> 2 <= k <= 31 -> p + 2 ^ k < 2 ^ 32 ->
  let q := align_in p (2 ^ k) in q mod 2 ^ k = 0 /\ p + 4 <= q <= p + 2 ^ k.
Proof.
  intros Hp H0 Hk Hmax q. assert (2 ^ 2 <= 2 ^ k) by (apply Z.pow_le_mono_r; lia). unfold q, align_in.
  rewrite (u32_small (2 ^ k - 1)) by lia. rewrite land_pow by lia. rewrite !u32_small by lia.
  destruct (Z.eqb_spec (p mod 2 ^ k) 0) as [E|E].
  - split; [|lia]. rewrite Zplus_mod, E, Z.mod_same by lia. reflexivity.
  - rewrite ldiff_pow by lia. pose proof (Z.mod_pos_bound p (2 ^ k)). pose proof (Z.div_mod p (2 ^ k) ltac:(lia)) as Hd.
    assert (3 < k) as Hk3.
    { destruct (Z.lt_ge_cases 3 k); [assumption|]. destruct E.
      assert (k = 2 \/ k = 3) as [-> | ->] by lia; Z.to_euclidean_division_equations; lia. }
    assert (2 ^ k = 2 ^ (k - 3) * 8) as H8 by (change 8 with (2 ^ 3); rewrite <- Z.pow_add_r by lia; f_equal; lia).
    assert ((p mod 2 ^ k) mod 8 = 0) as Hm8.
    { rewrite H8 in *. rewrite Z.mul_comm, Z.rem_mul_r by lia. rewrite Hp, Z.add_0_l, Z.mul_comm, Z.mod_mul by lia. reflexivity. }
    assert ((p + (2 ^ k - 1)) mod 2 ^ k = p mod 2 ^ k - 1) as ->.
    { symmetry. apply (Zmod_unique _ _ (p / 2 ^ k + 1)); lia. }
    split; [|split].
    + replace (p + (2 ^ k - 1) - (p mod 2 ^ k - 1)) with ((p / 2 ^ k + 1) * 2 ^ k) by lia. apply Z.mod_mul. lia.
    + enough (p mod 2 ^ k + 4 <= 2 ^ k) by lia. rewrite H8 in *. set (y := p mod (2 ^ (k - 3) * 8)) in *. Z.to_euclidean_division_equations; lia.
    + lia.
Qed.

(** [rt_malloc_align] returns an address on the boundary with room for [size]
    bytes inside the block that it allocates, and [rt_free_align] finds the block
    again and restores the layout of before. *)
Theorem malloc_align_free bs m size k q m1 : heap_rep bs m -> 2 <= k <= 31 -> 0 <= size -> size + 2 ^ k + 16 < 2 ^ 32 ->
  rt_malloc_align size (2 ^ k) m = Some (Some q, m1) ->
  q mod 2 ^ k = 0 /\
  (exists p len bs1, heap_rep bs1 m1 /\ live bs1 m1 ≡ₚ (p, len) :: live bs m /\ p + 4 <= q /\ q + size <= p + len) /\
  exists m2, rt_free_align (Some q) m1 = Some (tt, m2) /\ heap_rep bs m2.
Proof.
  intros Hrep Hk Hs Hmax E. assert (2 ^ 2 <= 2 ^ k) by (apply Z.pow_le_mono_r; lia). unfold rt_malloc_align in E.
  assert (2 ^ k mod 2 ^ 2 = 0) as Hk4.
  { replace (2 ^ k) with (2 ^ (k - 2) * 2 ^ 2) by (rewrite <- Z.pow_add_r by lia; f_equal; lia). apply Z.mod_mul. lia. }
  change (4 - 1) with (2 ^ 2 - 1) in E. rewrite !ldiff_pow in E by lia. change (2 ^ 2) with 4 in *.
  rewrite !(u32_small (_ + (4 - 1))) in E by lia.
  assert ((2 ^ k + (4 - 1)) mod 4 = 3) as Hk3 by (rewrite Zplus_mod, Hk4; reflexivity).
  replace (2 ^ k + (4 - 1) - (2 ^ k + (4 - 1)) mod 4) with (2 ^ k) in E by lia. pose proof (Z.mod_pos_bound (size + (4 - 1)) 4 eq_refl).
  set (asize := u32 (size + (4 - 1) - (size + (4 - 1)) mod 4 + 2 ^ k)) in E.
  assert (size + 2 ^ k <= asize < 2 ^ 32 - 7) as Ha by (unfold asize; rewrite u32_small; lia).
  unfold rt_malloc in E. destruct (rt_smem_alloc asize m) as [[[p|] m']|] eqn:Ea.
  2: { erewrite bind_eq in E by exact Ea. discriminate. }
  2: { unfold mbind, st_bind in E. rewrite Ea in E. discriminate. }
  erewrite bind_eq in E by exact Ea.
  assert (Some (Some (align_in p (2 ^ k)), m' <| sm_data ::= store_word (align_in p (2 ^ k) - 4) p |>) = Some (Some q, m1)) as E' by exact E.
  clear E. injection E' as <- <-.
  destruct (alloc_free_layout bs m asize p m' Hrep ltac:(lia) Ea) as (bs1 & len & H1 & HL & Hlen & Hfree).
  assert ((p, len) ∈ live bs1 m') as Hin by (rewrite HL; left).
  destruct (live_range _ _ _ _ _ (hs_sizes _ _ (hr_seg _ _ H1)) Hin) as (R1 & R2 & _ & R4 & _).
  destruct (hs_heap _ _ (hr_seg _ _ H1)) as (P1 & P2 & P3). rewrite (hs_total _ _ (hr_seg _ _ H1)) in R2.
  assert (p mod 8 = 0) as Hp by (replace p with (p - heap_ptr m' - 0 + heap_ptr m') by lia; apply mod8_add; assumption).
  assert (asize <= len) as Hal by (unfold need in Hlen; change RT_ALIGN_SIZE with 8 in Hlen; pose proof (aligned_ge asize); lia).
  destruct (align_in_ok p k Hp ltac:(lia) Hk ltac:(lia)) as [Q1 Q2]. set (q := align_in p (2 ^ k)) in *.
  split; [exact Q1|]. split.
  - exists p, len, bs1. split; [apply heap_rep_data; exact H1|]. split; [exact HL|]. lia.
  - unfold rt_free_align. erewrite bind_eq by reflexivity. cbn [sm_data].
    erewrite bind_eq.
    + apply Hfree; [intros bs'; apply heap_rep_data|repeat split].
    + change (sm_data (m' <| sm_data ::= store_word (q - 4) p |>)) with (store_word (q - 4) p (sm_data m')).
      rewrite load_store by lia. reflexivity.
Qed.

Lemma zero_bytes_spec p n d i : zero_bytes p n d !! i = if decide (p <= i < p + Z.of_nat n) then Some 0 else d !! i.
Proof.
  unfold zero_bytes. assert (forall k, foldr (fun i acc => <[p + Z.of_nat i := 0]> acc) d (seq k n) !! i =
    if decide (p + Z.of_nat k <= i < p + Z.of_nat k + Z.of_nat n) then Some 0 else d !! i) as H.
  { induction n as [|n IH]; intros k; cbn [seq foldr]; [rewrite decide_False by lia; reflexivity|].
    destruct (Z.eq_dec i (p + Z.of_nat k)) as [->|Hne]; [rewrite lookup_insert_eq, decide_True by lia; reflexivity|].
    rewrite lookup_insert_ne, IH by lia.
    destruct (decide (p + Z.of_nat (S k) <= i < _)); [rewrite decide_True by lia|rewrite decide_False by lia]; reflexivity. }
  specialize (H 0%nat). rewrite Z.add_0_r in H. exact H.
Qed.

(** [rt_calloc] hands out a block whose [count * size] bytes are zero and leaves
    the bytes of the live blocks alone, as long as the product does not wrap. *)
Theorem calloc_zeroes bs m count size p m1 : heap_rep bs m -> 0 < count * size < 2 ^ 32 - 7 ->
  rt_calloc count size m = Some (Some p, m1) ->
  exists bs1 len, heap_rep bs1 m1 /\ live bs1 m1 ≡ₚ (p, len) :: live bs m /\ count * size <= len /\
    (forall i, p <= i < p + count * size -> sm_data m1 !! i = Some 0) /\
    (forall x l i, (x, l) ∈ live bs m -> x <= i < x + l -> sm_data m1 !! i = sm_data m !! i).
Proof.
  intros Hrep Hn E. unfold rt_calloc, rt_malloc in E. rewrite u32_small in E by lia. set (n := count * size) in *.
  destruct (alloc_step bs m Hrep n ltac:(lia)) as (r & m' & bs1 & Ea & H1 & Hsame & Hs & Hk & _). cbn [run_op] in Ea.
  erewrite bind_eq in E by exact Ea. apply spec_alloc_inv in Hs as [[-> _]|(p' & len & -> & Hf & HL)]; [discriminate|].
  injection E as -> <-. destruct Hf as (_ & _ & _ & _ & Hb & Hap). assert (n <= len) by (destruct Hb; lia).
  exists bs1, len. split; [apply heap_rep_data; exact H1|]. split; [exact HL|]. split; [assumption|].
  match goal with |- context [sm_data ?x] => change (sm_data x) with (zero_bytes p (Z.to_nat n) (sm_data m')) end.
  split; intros.
  - rewrite zero_bytes_spec, decide_True by lia. reflexivity.
  - rewrite zero_bytes_spec, decide_False; [apply (Hk x l); [assumption|discriminate|assumption]|].
    pose proof (proj1 (Forall_forall (apart (p, len)) (live bs m)) Hap (x, l) H0) as Ha. unfold apart in Ha. cbn in Ha. lia.
Qed.

(** ** Examples *)

(** 1 KiB at address 4096: the structure takes 68 bytes. *)
Definition heap0 : rt_small_mem := default (mkSmallMem 0 false 0 0 0 0 0 0 0 ∅ ∅) (rt_smem_init 68 4096 1024).

Lemma heap0_rep : heap_rep [(936, false)] heap0.
Proof.
  split; [split|exact I|reflexivity]; try reflexivity; try (vm_compute; repeat split; discriminate).
  - repeat constructor; discriminate.
  - exists 936. reflexivity.
Qed.

Lemma heap0_ref : mem_ref heap0 [].
Proof. exists [(936, false)]. split; [exact heap0_rep|reflexivity]. Qed.

(** The heap with one block of 40 bytes in use. *)
Definition heap1 : rt_small_mem := match rt_smem_alloc 37 heap0 with Some (_, m) => m | None => heap0 end.

Lemma heap1_rep : heap_rep [(56, true); (880, false)] heap1.
Proof. destruct (alloc_rep 37 [] 936 [] heap0 heap0_rep) as (m' & E & H & _); [reflexivity|vm_compute; discriminate|discriminate|].
  unfold heap1. rewrite E. exact H. Qed.

Lemma heap1_ref : mem_ref heap1 [(4184, 40)].
Proof. exists [(56, true); (880, false)]. split; [exact heap1_rep|reflexivity]. Qed.

Lemma smem_init_layout_witness : exists m, rt_smem_init 68 4096 1024 = Some m /\ mem_ref m [] /\ rt_smem_init 68 4096 96 = None.
Proof.
  destruct (smem_init_layout 68 4096 1024) as [H _]; try lia. destruct (H ltac:(lia)) as (m & E & _ & R & _).
  exists m. split; [exact E|]. split; [exact R|]. apply (smem_init_layout 68 4096 96); lia.
Defined.

Lemma smem_calls_refine_witness : exists r m' L', rt_smem_realloc (Some 4184) 100 heap1 = Some (r, m') /\ mem_ref m' L' /\
  spec_step 4184 5104 (OpRealloc 4184 100) r [(4184, 40)] L'.
Proof.
  destruct (smem_calls_refine heap1 [(4184, 40)] (OpRealloc 4184 100) heap1_ref) as (r & m' & L' & E & R & S & _).
  { split; [left|lia]. }
  exists r, m', L'. split; [exact E|]. split; [exact R|exact S].
Defined.

Lemma smem_live_apart_witness : sm_used heap1 = 56 /\ sm_used heap1 <= heap_end heap1.
Proof.
  split; [reflexivity|]. destruct (smem_live_apart heap1 [(4184, 40)] heap1_ref) as (L' & _ & _ & _ & _ & H). exact H.
Defined.

Lemma smem_alloc_first_fit_witness : rt_smem_alloc 1000 heap1 = Some (None, heap1) /\
  exists m', rt_smem_alloc 20 heap1 = Some (Some (block_addr heap1 [(56, true)]), m') /\
    heap_rep ([(56, true)] ++ [(40, true); (840, false)]) m'.
Proof.
  split.
  - apply (smem_alloc_first_fit _ heap1 1000 heap1_rep); [discriminate|reflexivity].
  - destruct (smem_alloc_first_fit _ heap1 20 heap1_rep) as [_ H]; [discriminate|].
    apply (H [(56, true)] 880 []); [reflexivity|reflexivity|vm_compute; discriminate].
Defined.

Lemma smem_alloc_free_roundtrip_witness : exists p m1 m2,
  rt_smem_alloc 20 heap1 = Some (Some p, m1) /\ rt_smem_free (Some p) m1 = Some (tt, m2) /\ sm_used m2 = 56.
Proof.
  destruct (rt_smem_alloc 20 heap1) as [[[p|] m1]|] eqn:E; [|vm_compute in E; discriminate..].
  destruct (smem_alloc_free_roundtrip _ heap1 20 p m1 heap1_rep ltac:(discriminate) E) as (m2 & E2 & _ & _ & U).
  exists p, m1, m2. split; [reflexivity|]. split; [exact E2|exact U].
Defined.

Lemma smem_size_wraps_witness : (exists m', rt_smem_alloc (2 ^ 32 - 1) heap0 = Some (Some 4184, m') /\ sm_used m' = 32) /\
  exists m', rt_smem_realloc (Some 4184) (2 ^ 32 - 1) heap1 = Some (None, m') /\ sm_used m' = 0.
Proof.
  destruct (smem_size_wraps (2 ^ 32 - 1) heap0 None) as [E1 _]; [lia|reflexivity|vm_compute; discriminate|].
  destruct (smem_size_wraps (2 ^ 32 - 1) heap1 (Some 4184)) as [_ E2]; [lia|reflexivity|vm_compute; discriminate|].
  split; [rewrite E1|rewrite E2]; eexists; (split; [vm_compute; reflexivity|reflexivity]).
Defined.

Lemma malloc_align_free_witness : exists q m1, rt_malloc_align 10 64 heap1 = Some (Some q, m1) /\ q mod 64 = 0 /\
  exists m2, rt_free_align (Some q) m1 = Some (tt, m2) /\ heap_rep [(56, true); (880, false)] m2.
Proof.
  destruct (rt_malloc_align 10 (2 ^ 6) heap1) as [[[q|] m1]|] eqn:E; [|vm_compute in E; discriminate..].
  destruct (malloc_align_free _ heap1 10 6 q m1 heap1_rep) as (H1 & _ & H2); [lia|lia|reflexivity|exact E|].
  exists q, m1. split; [exact E|]. split; [exact H1|exact H2].
Defined.

Lemma calloc_zeroes_witness : exists p m1, rt_calloc 3 5 heap1 = Some (Some p, m1) /\ sm_data m1 !! (p + 14) = Some 0.
Proof.
  destruct (rt_calloc 3 5 heap1) as [[[p|] m1]|] eqn:E; [|vm_compute in E; discriminate..].
  destruct (calloc_zeroes _ heap1 3 5 p m1 heap1_rep) as (bs1 & len & _ & _ & _ & H & _); [lia|exact E|].
  exists p, m1. split; [reflexivity|]. apply H. lia.
Defined.

(** The product of [rt_calloc] wraps: 2^32 + 8 bytes are asked for, 8 are cleared. *)
Example calloc_wraps : exists m', rt_calloc (2 ^ 29 + 1) 8 heap0 = Some (Some 4184, m') /\ sm_used m' = 32.
Proof. eexists. split; vm_compute; reflexivity. Qed.
