(* ===== verification/DataQueueProps.v ===== *)
(** * Properties of data queues

    A data queue is a bounded queue of items; who is woken by a push and a pop. *)

From S2P Require Import Prelude Bitmap Ring Kernel Timer Sched IpcList Thread Sem DataQueue Completion System.
From S2P Require Import KernelInv TimerInv SchedInv ThreadInv TimerIdle ThreadOps IpcOps SystemInv.
From S2P Require Import Demo SchedProps Blocking WaitProps SemProps.
Open Scope rt_scope.

(** ** The abstraction *)

(** The queue [x] has room for [cap] items and holds [l], oldest first. *)
Record dq_rep (cap lwm fn : Z) (l : list data_item) (x : dataqueue) : Prop := {
  dr_magic : dq_magic x = DATAQUEUE_MAGIC;
  dr_size : dq_size x = cap;
  dr_cap : 0 < cap < 2 ^ 15;
  dr_lwm : dq_lwm x = lwm;
  dr_notify : dq_notify x = fn;
  dr_items : Z.of_nat (length (dq_items x)) = cap;
  dr_get : 0 <= dq_get x < cap;
  dr_len : Z.of_nat (length l) <= cap;
  dr_put : dq_put x = (dq_get x + Z.of_nat (length l)) mod cap;
  dr_empty : dq_empty x = (Z.of_nat (length l) =? 0);
  dr_full : dq_full x = (Z.of_nat (length l) =? cap);
  dr_list : ring cap (dq_items x) (dq_get x) (Z.of_nat (length l)) = l;
}.

Lemma next_index_mod cap i : 0 < cap < 2 ^ 15 -> 0 <= i < cap -> next_index cap i = (i + 1) mod cap.
Proof.
  intros Hc Hi. unfold next_index, u15. rewrite (Z.mod_small (i + 1)) by lia. destruct (Z.eqb_spec (i + 1) cap) as [->|].
  - rewrite Z.mod_same by lia. reflexivity.
  - rewrite Z.mod_small by lia. reflexivity.
Qed.

(** Both indices meet exactly at an empty and at a full queue. *)
Lemma meet cap g n : 0 < cap -> 0 <= g < cap -> 0 <= n <= cap -> (((g + n) mod cap =? g) = (n =? 0) || (n =? cap)).
Proof.
  intros Hc Hg Hn. destruct (Z.eqb_spec n 0) as [->|H0]; [rewrite Z.add_0_r, Z.mod_small, Z.eqb_refl by lia; reflexivity|].
  destruct (Z.eqb_spec n cap) as [->|Hf]; cbn [orb].
  - apply Z.eqb_eq. symmetry. apply (Zmod_unique _ _ 1); lia.
  - apply Z.eqb_neq. intros E. apply H0. apply (slot_inj cap Hc g n 0); [lia..|]. rewrite E, Z.add_0_r, Z.mod_small by lia. reflexivity.
Qed.

Definition dq_pushed (d : data_item) (x : dataqueue) : dataqueue :=
  let x := x <| dq_items ::= <[Z.to_nat (dq_put x) := d]> |> <| dq_put ::= next_index (dq_size x) |> <| dq_empty := false |> in
  if dq_put x =? dq_get x then x <| dq_full := true |> else x.
Definition dq_popped (x : dataqueue) : dataqueue :=
  let x := x <| dq_get ::= next_index (dq_size x) |> <| dq_full := false |> in
  if dq_put x =? dq_get x then x <| dq_empty := true |> else x.

Lemma dq_put_range cap lwm fn l x : dq_rep cap lwm fn l x -> 0 <= dq_put x < cap.
Proof. intros R. rewrite (dr_put _ _ _ _ _ R). pose proof (dr_cap _ _ _ _ _ R). apply Z.mod_pos_bound. lia. Qed.

Lemma dq_pushed_rep cap lwm fn l d x : dq_rep cap lwm fn l x -> Z.of_nat (length l) < cap ->
  dq_rep cap lwm fn (l ++ [d]) (dq_pushed d x).
Proof.
  intros R Hl. pose proof (dq_put_range _ _ _ _ _ R) as Hp. destruct R. unfold dq_pushed. cbv zeta.
  set (y := x <| dq_items ::= _ |> <| dq_put ::= _ |> <| dq_empty := false |>).
  assert (dq_put y = (dq_get x + (Z.of_nat (length l) + 1)) mod cap) as Hy.
  { unfold y. cbn. rewrite dr_size0, next_index_mod, dr_put0, Zplus_mod_idemp_l by lia. f_equal. lia. }
  assert ((dq_put y =? dq_get y) = (Z.of_nat (length l) + 1 =? cap)) as Hm.
  { change (dq_get y) with (dq_get x). rewrite Hy, meet by lia. rewrite (proj2 (Z.eqb_neq _ 0)) by lia. reflexivity. }
  assert (ring cap (dq_items y) (dq_get x) (Z.of_nat (length l) + 1) = l ++ [d]) as Hr.
  { change (dq_items y) with (<[Z.to_nat (dq_put x) := d]> (dq_items x)). rewrite dr_put0, ring_push, dr_list0 by lia. reflexivity. }
  assert (Z.of_nat (length (l ++ [d])) = Z.of_nat (length l) + 1) as Hn by (rewrite length_app; cbn; lia).
  rewrite Hm. destruct (Z.eqb_spec (Z.of_nat (length l) + 1) cap) as [Hc|Hc];
    split; rewrite ?Hn; try (rewrite (proj2 (Z.eqb_neq _ 0)) by lia); try assumption; try lia; try reflexivity; cbn.
  all: try (rewrite length_insert; assumption).
  - symmetry. apply Z.eqb_eq. exact Hc.
  - rewrite dr_full0. rewrite !(proj2 (Z.eqb_neq _ cap)) by lia. reflexivity.
Qed.

Lemma dq_popped_rep cap lwm fn d l x : dq_rep cap lwm fn (d :: l) x ->
  dq_items x !! Z.to_nat (dq_get x) = Some d /\ dq_rep cap lwm fn l (dq_popped x).
Proof.
  intros R. pose proof (dq_put_range _ _ _ _ _ R) as Hp. destruct R. cbn [length] in *.
  rewrite (ring_pop cap) in dr_list0 by lia. injection dr_list0 as Hv Hq. split.
  { rewrite list_lookup_lookup_total_lt by lia. f_equal. exact Hv. }
  unfold dq_popped. cbv zeta. set (y := x <| dq_get ::= _ |> <| dq_full := false |>).
  assert (dq_get y = (dq_get x + 1) mod cap) as Hg by (unfold y; cbn; rewrite dr_size0; apply next_index_mod; lia).
  pose proof (slot_range cap (proj1 dr_cap0) (dq_get x + 1)) as Hs.
  assert (dq_put y = (dq_get y + Z.of_nat (length l)) mod cap) as Hy.
  { rewrite Hg, Zplus_mod_idemp_l. change (dq_put y) with (dq_put x). rewrite dr_put0. f_equal. lia. }
  assert ((dq_put y =? dq_get y) = (Z.of_nat (length l) =? 0)) as Hm.
  { rewrite Hy, Hg, meet by lia. rewrite (proj2 (Z.eqb_neq _ cap)) by lia. apply orb_false_r. }
  replace (Z.of_nat (S (length l)) - 1) with (Z.of_nat (length l)) in Hq by lia. rewrite <- Hg in Hq, Hs.
  rewrite Hm. destruct (Z.eqb_spec (Z.of_nat (length l)) 0) as [H0|H0];
    split; try assumption; try lia; try (symmetry; apply Z.eqb_neq; lia).
  - symmetry. apply Z.eqb_eq. exact H0.
  - change (dq_empty x = (Z.of_nat (length l) =? 0)). rewrite dr_empty0. rewrite !(proj2 (Z.eqb_neq _ 0)) by lia. reflexivity.
Qed.

(** ** The store *)

Definition with_dq (q : Z) (x : dataqueue) (k : kernel) : kernel := k <| k_dqs ::= insert q x |>.

Lemma with_dq_lookup q x k : k_dqs (with_dq q x k) !! q = Some x.
Proof. apply lookup_insert_eq. Qed.
Lemma with_dq_twice q x y k : with_dq q y (with_dq q x k) = with_dq q y k.
Proof. destruct k. unfold with_dq, set_field. cbn. rewrite insert_insert_eq. reflexivity. Qed.
Lemma kinv_with_dq q x k : kinv k -> kinv (with_dq q x k).
Proof. intros HK. eapply kinv_same; [exact HK|reflexivity..]. Qed.
Lemma get_dq_eq q x k : k_dqs k !! q = Some x -> get_dq q k = Some (x, k).
Proof. apply get_obj_eq. Qed.
Lemma check_dq_eq q x k : k_dqs k !! q = Some x -> dq_magic x = DATAQUEUE_MAGIC -> check_dq q k = Some (x, k).
Proof.
  intros Hx Hm. unfold check_dq. erewrite bind_eq by (apply get_dq_eq; exact Hx).
  erewrite bind_eq by (apply assert_eq, Z.eqb_eq; exact Hm). reflexivity.
Qed.
Lemma upd_dq_eq q x f k : k_dqs k !! q = Some x -> upd_dq q f k = Some (tt, with_dq q (f x) k).
Proof. intros Hx. unfold upd_dq. rewrite (upd_obj_eq k_dqs q f x k Hx). reflexivity. Qed.
Lemma upd_with_dq q x f k : upd_dq q f (with_dq q x k) = Some (tt, with_dq q (f x) k).
Proof. rewrite (upd_dq_eq q x) by apply with_dq_lookup. rewrite with_dq_twice. reflexivity. Qed.

(** A flag that is set in one of the cases. *)
Lemma when_upd_dq q x (b : bool) f k :
  when b (upd_dq q f) (with_dq q x k) = Some (tt, with_dq q (if b then f x else x) k).
Proof. destruct b; [apply upd_with_dq|reflexivity]. Qed.

Lemma dq_len_eq cap lwm fn l q x k : k_dqs k !! q = Some x -> dq_rep cap lwm fn l x ->
  rt_data_queue_len q k = Some (Z.of_nat (length l), k).
Proof.
  intros Hx R. pose proof (dq_put_range _ _ _ _ _ R) as Hp. unfold rt_data_queue_len.
  erewrite bind_eq by (apply check_dq_eq; [exact Hx|apply R]). destruct R. rewrite dr_empty0.
  destruct (Z.eqb_spec (Z.of_nat (length l)) 0) as [H0|H0]; [rewrite H0; reflexivity|].
  assert (dq_put x = dq_get x + Z.of_nat (length l) \/ dq_put x = dq_get x + Z.of_nat (length l) - cap) as Hc.
  { rewrite dr_put0. destruct (Z.ltb_spec (dq_get x + Z.of_nat (length l)) cap).
    - left. apply Z.mod_small. lia.
    - right. symmetry. apply (Zmod_unique _ _ 1); lia. }
  destruct (Z.ltb_spec (dq_get x) (dq_put x)); unfold u16; rewrite Z.mod_small by lia; cbv [mret st_ret]; apply ret_eq; lia.
Qed.

(** ** Pushing *)

Section Notify.
Context (evt_notify : Z -> Z -> Z -> K unit).

Lemma dq_put_item_eq cap lwm fn l q d s x k : k_dqs k !! q = Some x -> dq_rep cap lwm fn l x ->
  dq_put_item evt_notify q d s k =
  (thread ← rt_susp_list_dequeue (LDqPush q) RT_THREAD_RESUME_RES_THR_ERR;
   match thread with
   | Some _ => rt_schedule;; mret (Done RT_EOK [])
   | None => notify evt_notify q RT_DATAQUEUE_EVENT_PUSH;; mret (Done RT_EOK [])
   end) (with_dq q (dq_pushed (d, s) x) k).
Proof.
  intros Hx R. pose proof (dq_put_range _ _ _ _ _ R) as Hp. unfold dq_put_item.
  erewrite bind_eq by (apply get_dq_eq; exact Hx).
  erewrite bind_eq by (apply assert_eq, Z.ltb_lt; rewrite (dr_items _ _ _ _ _ R); lia).
  erewrite bind_eq by (apply upd_dq_eq; exact Hx). do 2 erewrite bind_eq by apply upd_with_dq.
  erewrite bind_eq by (apply get_dq_eq, with_dq_lookup). erewrite bind_eq by apply when_upd_dq. reflexivity.
Qed.

(** What [rt_data_queue_push] leaves behind when there was room. *)
Definition pushed_then (q : Z) (k k' : kernel) (o : option (outcome * kernel)) : Prop :=
  match k_lists k (LDqPush q) with
  | [] => k' = k /\ o = (notify evt_notify q RT_DATAQUEUE_EVENT_PUSH;; mret (Done RT_EOK [])) k'
  | p :: ps => o = Some (Done RT_EOK [], k') /\ woke p (LDqPush q) ps RT_THREAD_RESUME_RES_THR_ERR k k'
  end.

Lemma dq_put_item_total cap lwm fn l q d s x k c :
  kinv k -> k_current k = Some c -> k_dqs k !! q = Some x -> dq_rep cap lwm fn l x ->
  exists k', kinv k' /\ pushed_then q (with_dq q (dq_pushed (d, s) x) k) k' (dq_put_item evt_notify q d s k).
Proof.
  intros HK Hc Hx R. rewrite (dq_put_item_eq _ _ _ _ _ _ _ _ _ Hx R). set (k1 := with_dq q (dq_pushed (d, s) x) k).
  assert (kinv k1) as HK1 by (apply kinv_with_dq, HK). unfold pushed_then. destruct (k_lists k1 (LDqPush q)) as [|p ps] eqn:E.
  - exists k1. split; [exact HK1|]. split; [reflexivity|]. erewrite bind_eq by (apply dequeue_empty; exact E). reflexivity.
  - destruct (wake_total k1 p (LDqPush q) ps RT_THREAD_RESUME_RES_THR_ERR c HK1 eq_refl E Hc) as (k2 & k3 & H1 & H2 & HK3 & W & _).
    exists k3. split; [exact HK3|]. split; [|exact W]. erewrite bind_eq by exact H1. cbv beta iota. erewrite bind_eq by exact H2. reflexivity.
Qed.

Lemma pushed_then_dqs q k k' o : pushed_then q k k' o -> k_dqs k' = k_dqs k.
Proof. unfold pushed_then. destruct (k_lists k (LDqPush q)); [intros [-> _]; reflexivity|intros [_ W]; apply (of_dqs _ _ (wo_frame _ _ _ _ _ _ W))]. Qed.

(** A thread that waits at the queue. *)
Lemma dq_sleep t th k l timeout (m : K outcome) c :
  in_thread t th k -> susp_list l = true -> timeout < HALF_TICK -> m = mret (Waiting c) ->
  exists k', (thread ← the_self;
      upd_thread thread (fun th => th <| th_error := RT_EOK |>);;
      result ← rt_thread_suspend_to_list thread (Some l) RT_IPC_FLAG_FIFO RT_UNINTERRUPTIBLE;
      if negb (result =? RT_EOK) then mret (Done result []) else
      when (0 <? timeout) (start_thread_timer thread timeout);; rt_schedule;; m) k = Some (Waiting c, k') /\
    (thread ← the_self;
      upd_thread thread (fun th => th <| th_error := RT_EOK |>);;
      result ← rt_thread_suspend_to_list thread (Some l) RT_IPC_FLAG_FIFO RT_UNINTERRUPTIBLE;
      if negb (result =? RT_EOK) then st_fail else
      when (0 <? timeout) (start_thread_timer thread timeout);; rt_schedule;; m) k = Some (Waiting c, k') /\
    kinv k' /\ asleep t l RT_IPC_FLAG_FIFO timeout (with_error t th RT_EOK k) k'.
Proof.
  intros C Hl Hto ->.
  destruct (sleep_total _ _ _ l RT_IPC_FLAG_FIFO RT_UNINTERRUPTIBLE timeout (in_thread_error t th RT_EOK k C) Hl (or_introl eq_refl) Hto)
    as (k1 & k2 & k3 & H1 & Ht & H2 & H3 & HK & A).
  exists k3. split; [|split; [|split; [exact HK|exact A]]];
    (erewrite bind_eq by (apply the_self_eq, C); erewrite bind_eq by (apply upd_thread_eq, C);
     change (k <| k_threads ::= _ |>) with (with_error t th RT_EOK k);
     erewrite bind_eq by exact H1; cbn [negb Z.eqb RT_EOK]; erewrite bind_eq by exact H2; erewrite bind_eq by exact H3; reflexivity).
Qed.

Lemma dq_push_refines_inner t th k q x cap lwm fn l d s timeout :
  in_thread t th k -> k_dqs k !! q = Some x -> dq_rep cap lwm fn l x -> Z.of_nat (length l) < cap ->
  exists x' k', dq_rep cap lwm fn (l ++ [(d, s)]) x' /\ kinv k' /\ k_dqs k' !! q = Some x' /\
    pushed_then q (with_dq q x' k) k' (rt_data_queue_push evt_notify q d s timeout k).
Proof.
  intros C Hx R Hq. unfold rt_data_queue_push, dq_push_round.
  erewrite bind_eq by (apply check_dq_eq; [exact Hx|apply R]).
  erewrite bind_eq by (eapply scheduler_available_eq; exact C). erewrite bind_eq by (apply get_dq_eq; exact Hx).
  rewrite (dr_full _ _ _ _ _ R), (proj2 (Z.eqb_neq _ cap)) by lia.
  destruct (dq_put_item_total cap lwm fn l q d s x k t (it_kinv _ _ _ C) (it_current _ _ _ C) Hx R) as (k' & HK & P).
  exists (dq_pushed (d, s) x), k'. split; [apply dq_pushed_rep; assumption|]. split; [exact HK|]. split; [|exact P].
  rewrite (pushed_then_dqs _ _ _ _ P). apply with_dq_lookup.
Qed.

(** C29: [rt_data_queue_push] appends the item when there is room, and returns
    -RT_ETIMEOUT or sleeps when there is none.  After a push the first thread that
    waits to push is woken, or, when there is none, the callback gets the PUSH
    event. *)
Theorem dq_push_refines t th k q x cap lwm fn l d s timeout :
  in_thread t th k -> k_dqs k !! q = Some x -> dq_rep cap lwm fn l x -> timeout < HALF_TICK ->
  if Z.of_nat (length l) <? cap then
    exists x' k', dq_rep cap lwm fn (l ++ [(d, s)]) x' /\ kinv k' /\ k_dqs k' !! q = Some x' /\
      pushed_then q (with_dq q x' k) k' (rt_data_queue_push evt_notify q d s timeout k)
  else if timeout =? 0 then rt_data_queue_push evt_notify q d s timeout k = Some (Done (- RT_ETIMEOUT) [], k)
  else exists k', rt_data_queue_push evt_notify q d s timeout k = Some (Waiting (PcDqPush q d s timeout), k') /\
    kinv k' /\ k_dqs k' = k_dqs k /\ asleep t (LDqPush q) RT_IPC_FLAG_FIFO timeout (with_error t th RT_EOK k) k'.
Proof.
  intros C Hx R Hto. destruct (Z.ltb_spec (Z.of_nat (length l)) cap) as [Hq|Hq].
  { eapply dq_push_refines_inner; eassumption. }
  pose proof (dr_len _ _ _ _ _ R). unfold rt_data_queue_push, dq_push_round.
  erewrite bind_eq by (apply check_dq_eq; [exact Hx|apply R]).
  erewrite bind_eq by (eapply scheduler_available_eq; exact C). erewrite bind_eq by (apply get_dq_eq; exact Hx).
  rewrite (dr_full _ _ _ _ _ R), (proj2 (Z.eqb_eq _ cap)) by lia. destruct (Z.eqb_spec timeout 0) as [|H0]; [reflexivity|].
  destruct (dq_sleep t th k (LDqPush q) timeout _ (PcDqPush q d s timeout) C eq_refl Hto eq_refl) as (k' & H1 & _ & HK & A).
  exists k'. split; [exact H1|]. split; [exact HK|]. split; [apply (of_dqs _ _ (as_frame _ _ _ _ _ _ A))|exact A].
Qed.
(** ** Popping *)

(** The store and the rest of the call behind the removal of an item, when [n] items
    are left: at the low water mark or below a pusher is woken, which may take the
    processor before the callback gets the LWM event; above it the callback gets POP. *)
Definition popped_then (q : Z) (n : bool) (d s : Z) (self : option Z) (k : kernel) (o : option (outcome * kernel)) : Prop :=
  if n then
    match k_lists k (LDqPush q) with
    | [] => o = dq_pop_end evt_notify q d s k
    | p :: ps => exists k', kinv k' /\ woke p (LDqPush q) ps RT_THREAD_RESUME_RES_THR_ERR k k' /\
        o = if_still_running self (PcDqPopEnd q d s) (dq_pop_end evt_notify q d s) k'
    end
  else o = (notify evt_notify q RT_DATAQUEUE_EVENT_POP;; mret (Done RT_EOK [d; s])) k.

Lemma dq_take_item_total cap lwm fn l q d s x k c :
  kinv k -> k_current k = Some c -> k_dqs k !! q = Some x -> dq_rep cap lwm fn ((d, s) :: l) x ->
  popped_then q (Z.of_nat (length l) <=? lwm) d s (Some c) (with_dq q (dq_popped x) k) (dq_take_item evt_notify q k).
Proof.
  intros HK Hc Hx R. destruct (dq_popped_rep _ _ _ _ _ _ R) as [Hd R']. set (k1 := with_dq q (dq_popped x) k).
  assert (dq_take_item evt_notify q k =
    (if Z.of_nat (length l) <=? lwm then
       thread ← rt_susp_list_dequeue (LDqPush q) RT_THREAD_RESUME_RES_THR_ERR;
       match thread with
       | Some _ => after_schedule (PcDqPopEnd q d s) (dq_pop_end evt_notify q d s)
       | None => dq_pop_end evt_notify q d s
       end
     else notify evt_notify q RT_DATAQUEUE_EVENT_POP;; mret (Done RT_EOK [d; s])) k1) as ->.
  { unfold dq_take_item. erewrite bind_eq by (apply get_dq_eq; exact Hx). 
    assert (st_opt (dq_items x !! Z.to_nat (dq_get x)) k = Some ((d, s), k)) as Ho by exact (f_equal (fun o => st_opt o k) Hd).
    erewrite bind_eq by exact Ho. cbv beta iota.
    erewrite bind_eq by (apply upd_dq_eq; exact Hx). erewrite bind_eq by apply upd_with_dq.
    erewrite bind_eq by (apply get_dq_eq, with_dq_lookup). erewrite bind_eq by apply when_upd_dq.
    erewrite bind_eq by (apply (dq_len_eq cap lwm fn l q (dq_popped x)); [apply with_dq_lookup|exact R']).
    cbn [dq_lwm]. change (dq_lwm _) with (dq_lwm x) at 1. rewrite (dr_lwm _ _ _ _ _ R). reflexivity. }
  unfold popped_then. destruct (Z.of_nat (length l) <=? lwm); [|reflexivity].
  assert (kinv k1) as HK1 by (apply kinv_with_dq, HK). destruct (k_lists k1 (LDqPush q)) as [|p ps] eqn:E.
  - erewrite bind_eq by (apply dequeue_empty; exact E). reflexivity.
  - destruct (wake_total k1 p (LDqPush q) ps RT_THREAD_RESUME_RES_THR_ERR c HK1 eq_refl E Hc) as (k2 & k3 & H1 & H2 & HK3 & W & _).
    exists k3. split; [exact HK3|]. split; [exact W|]. erewrite bind_eq by exact H1. cbv beta iota. unfold after_schedule.
    assert (k_current k2 = Some c) as Hc2.
    { destruct (dequeue_cons (LDqPush q) RT_THREAD_RESUME_RES_THR_ERR _ _ _ (proj1 HK1) eq_refl E) as (k2' & H1' & _ & D). rewrite H1 in H1'.
      injection H1' as <-. rewrite (dq_current _ _ _ _ D). exact Hc. }
    erewrite bind_eq by (unfold rt_thread_self, st_gets; rewrite Hc2; reflexivity). erewrite bind_eq by exact H2. reflexivity.
Qed.

(** [rt_data_queue_pop] removes the oldest item, and returns -RT_ETIMEOUT or sleeps
    when there is none.  A thread that waits to push is woken only when at most the
    low water mark of items is left. *)
Theorem dq_pop_refines t th k q x cap lwm fn l timeout :
  in_thread t th k -> k_dqs k !! q = Some x -> dq_rep cap lwm fn l x -> timeout < HALF_TICK ->
  match l with
  | (d, s) :: l' => exists x', dq_rep cap lwm fn l' x' /\
      popped_then q (Z.of_nat (length l') <=? lwm) d s (Some t) (with_dq q x' k) (rt_data_queue_pop evt_notify q timeout k)
  | [] => if timeout =? 0 then rt_data_queue_pop evt_notify q timeout k = Some (Done (- RT_ETIMEOUT) [], k)
      else exists k', rt_data_queue_pop evt_notify q timeout k = Some (Waiting (PcDqPop q timeout), k') /\
        kinv k' /\ k_dqs k' = k_dqs k /\ asleep t (LDqPop q) RT_IPC_FLAG_FIFO timeout (with_error t th RT_EOK k) k'
  end.
Proof.
  intros C Hx R Hto. unfold rt_data_queue_pop, dq_pop_round.
  erewrite bind_eq by (apply check_dq_eq; [exact Hx|apply R]).
  erewrite bind_eq by (eapply scheduler_available_eq; exact C). erewrite bind_eq by (apply get_dq_eq; exact Hx).
  rewrite (dr_empty _ _ _ _ _ R). destruct l as [|[d s] l]; cbn [length].
  - destruct (Z.eqb_spec timeout 0) as [|H0]; [reflexivity|].
    destruct (dq_sleep t th k (LDqPop q) timeout _ (PcDqPop q timeout) C eq_refl Hto eq_refl) as (k' & _ & H2 & HK & A).
    exists k'. split; [exact H2|]. split; [exact HK|]. split; [apply (of_dqs _ _ (as_frame _ _ _ _ _ _ A))|exact A].
  - rewrite (proj2 (Z.eqb_neq _ 0)) by lia. exists (dq_popped x). split; [apply (dq_popped_rep _ _ _ _ _ _ R)|].
    eapply dq_take_item_total; [apply C|apply C|exact Hx|exact R].
Qed.
End Notify.

(** ** Initialisation, reset and peeking *)

Lemma dq_init_rep k q items size lwm fn : 0 < size < 2 ^ 15 -> 0 <= lwm < 2 ^ 16 -> Z.of_nat (length items) = size -> kinv k ->
  exists x k', rt_data_queue_init q (Some items) size lwm fn k = Some (RT_EOK, k') /\ kinv k' /\ k_dqs k' !! q = Some x /\
    dq_rep size lwm fn [] x.
Proof.
  intros Hs Hw Hi HK. eexists _, _. unfold rt_data_queue_init. rewrite u16_small by lia. split; [|split; [|split]].
  - erewrite bind_eq by (apply assert_eq, Z.ltb_lt; lia). erewrite bind_eq by reflexivity.
    erewrite bind_eq by reflexivity. erewrite bind_eq by reflexivity. reflexivity.
  - eapply (dq_init_preserves q (Some items) size lwm fn); [exact HK|]. unfold rt_data_queue_init. rewrite u16_small by lia.
    erewrite bind_eq by (apply assert_eq, Z.ltb_lt; lia). reflexivity.
  - apply lookup_insert_eq.
  - split; cbn; rewrite ?u16_small by lia; try lia; try reflexivity. symmetry. apply Z.eqb_neq. lia.
Qed.

(** Resetting empties the queue and wakes every waiter with RT_ERROR. *)
Theorem dq_clear_wakes t th k q x cap lwm fn l :
  in_thread t th k -> k_dqs k !! q = Some x -> dq_rep cap lwm fn l x ->
  exists x' k', dq_clear q k = Some (tt, k') /\ kinv k' /\ k_dqs k' !! q = Some x' /\ dq_rep cap lwm fn [] x' /\
    k_lists k' (LDqPush q) = [] /\ k_lists k' (LDqPop q) = [] /\ runs_most_urgent k' /\
    forall p, p ∈ k_lists k (LDqPush q) \/ p ∈ k_lists k (LDqPop q) ->
      exists pth, k_threads k' !! p = Some pth /\ awake pth /\ th_error pth = RT_ERROR.
Proof.
  intros C Hx R. unfold dq_clear. set (f := fun y : dataqueue => y <| dq_get := 0 |> <| dq_put := 0 |> <| dq_empty := true |> <| dq_full := false |>).
  set (k1 := with_dq q (f x) k). assert (kinv (locked k1)) as HK1.
  { destruct (kinv_with_dq q (f x) k (it_kinv _ _ _ C)) as [I Q]. split; [apply inv_nest, I|].
    exact (enter_critical_idle _ _ _ _ Q (ltac:(unfold rt_enter_critical; erewrite bind_eq by reflexivity;
      destruct C as [_ _ _ _ Hn _]; destruct k; cbn in Hn; subst; reflexivity) : rt_enter_critical k1 = Some (1, locked k1))). }
  destruct (resume_both_total (LDqPop q) (LDqPush q) RT_ERROR (locked k1) HK1 eq_refl eq_refl) as (k2 & k3 & H2 & H3 & [I3 Q3] & W);
    [discriminate|discriminate|].
  assert (k_current k3 = Some t) as Hc3 by (rewrite (bw_current _ _ _ _ _ W); apply C).
  assert (k_lock_nest k3 = 1) as Hn3 by (rewrite (of_nest _ _ (bw_frame _ _ _ _ _ W)); reflexivity).
  destruct (spin_unlock_total k3 t I3 Hc3 Hn3) as (k4 & H4 & I4 & F & M).
  exists (f x), k4. split; [|split; [split; [exact I4|exact (exit_critical_idle _ _ _ _ Q3 H4)]|]].
  - erewrite bind_eq by (apply check_dq_eq; [exact Hx|apply R]). erewrite bind_eq by (apply upd_dq_eq; exact Hx).
    change (with_dq q _ k) with k1. unfold rt_enter_critical. rewrite bind_assoc. erewrite bind_eq by reflexivity.
    erewrite bind_eq by reflexivity. replace (k1 <| k_lock_nest ::= _ |>) with (locked k1)
      by (destruct C as [_ _ _ _ Hn _]; unfold locked, k1, with_dq; destruct k; cbn in Hn; subst; reflexivity).
    erewrite bind_eq by exact H2. erewrite bind_eq by exact H3. exact H4.
  - split; [rewrite (sf_dqs _ _ F); change (k_dqs (unlocked k3)) with (k_dqs k3);
      rewrite (of_dqs _ _ (bw_frame _ _ _ _ _ W)); apply lookup_insert_eq|].
    split; [destruct R; split; cbn; try assumption; try lia; try reflexivity; symmetry; apply Z.eqb_neq; lia|].
    rewrite !(sf_lists _ _ F) by reflexivity. split; [apply (bw_empty _ _ _ _ _ W)|]. split; [apply (bw_empty _ _ _ _ _ W)|].
    split; [exact M|]. intros p Hp. destruct (bw_thread _ _ _ _ _ W p) as (pth & Hpt & Ha & He); [destruct Hp; auto|].
    rewrite <- He. eapply awake_after; eauto.
Qed.

(** ** A waiting receiver *)

(** [rt_data_queue_push] looks at the list of threads that wait to push where those
    that wait to pop are meant: without a callback, a thread that waits in
    [rt_data_queue_pop] stays asleep although the queue has an item for it. *)
Lemma dq_push_strands_popper evt_notify t th k q x cap lwm l d s timeout p :
  in_thread t th k -> k_dqs k !! q = Some x -> dq_rep cap lwm 0 l x -> timeout < HALF_TICK ->
  Z.of_nat (length l) < cap -> p ∈ k_lists k (LDqPop q) ->
  exists x' k' pth, rt_data_queue_push evt_notify q d s timeout k = Some (Done RT_EOK [], k') /\ k_dqs k' !! q = Some x' /\
    dq_rep cap lwm 0 (l ++ [(d, s)]) x' /\ p ∈ k_lists k' (LDqPop q) /\ k_threads k' !! p = Some pth /\ is_suspended pth = true.
Proof.
  intros C Hx R Hto Hl Hp.
  pose proof (dq_push_refines_inner evt_notify t th k q x cap lwm 0 l d s timeout C Hx R Hl) as (x' & k' & R' & HK & Hx' & P).
  assert (rt_data_queue_push evt_notify q d s timeout k = Some (Done RT_EOK [], k') /\ k_lists k' (LDqPop q) = k_lists k (LDqPop q)) as [H Hls].
  { unfold pushed_then in P. destruct (k_lists _ (LDqPush q)).
    - destruct P as [-> P]. split; [|reflexivity]. rewrite P. unfold notify.
      erewrite bind_eq. 2: { erewrite bind_eq by (apply get_dq_eq, with_dq_lookup). rewrite (dr_notify _ _ _ _ _ R'). reflexivity. }
      reflexivity.
    - destruct P as [P W]. split; [exact P|]. rewrite (wo_lists _ _ _ _ _ _ W) by (reflexivity || discriminate). reflexivity. }
  rewrite <- Hls in Hp. destruct (i_exists _ _ (proj1 HK) _ _ Hp) as [pth Hpth].
  destruct (so_waiting _ _ _ _ _ (inv_stat _ _ _ (proj1 HK) Hpth) (LDqPop q) eq_refl Hp) as [Hs _].
  exists x', k', pth. auto 6.
Qed.

(** ** Examples *)

Definition dq_of (k : kernel) (q : Z) : dataqueue := default (mkDq 0 0 0 0 false 0 false [] 0) (k_dqs k !! q).
Definition silent (f q e : Z) : K unit := mret tt.
Lemma silent_kinv f q e : preserves kinv (silent f q e).
Proof. apply preserves_ret. Qed.

(** Two slots, low water mark 1, no callback. *)
Definition k_dq : kernel := run (rt_data_queue_init 9 (Some [(0, 0); (0, 0)]) 2 1 0) k_boot.
(** One item in it. *)
Definition k_dq1 : kernel := run (rt_data_queue_push silent 9 71 5 0) k_dq.

Lemma k_dq_kinv : kinv k_dq.
Proof. apply run_kinv; [apply dq_init_preserves|apply k_boot_kinv]. Qed.
Lemma k_dq1_kinv : kinv k_dq1.
Proof. apply run_kinv; [apply dq_push_preserves, silent_kinv|apply k_dq_kinv]. Qed.

Lemma k_dq1_in_thread : in_thread 100 (thread_of k_dq1 100) k_dq1.
Proof. split; try (vm_compute; reflexivity). apply k_dq1_kinv. Qed.
Lemma k_dq1_rep : dq_rep 2 1 0 [(71, 5)] (dq_of k_dq1 9).
Proof. split; try (vm_compute; reflexivity); vm_compute; intuition discriminate. Qed.

Lemma dq_push_refines_witness :
  in_thread 100 (thread_of k_dq1 100) k_dq1 /\ dq_rep 2 1 0 [(71, 5)] (dq_of k_dq1 9) /\
  exists x' k', dq_rep 2 1 0 [(71, 5); (72, 6)] x' /\ k_dqs k' !! 9 = Some x'.
Proof.
  split; [exact k_dq1_in_thread|]. split; [exact k_dq1_rep|].
  destruct (dq_push_refines silent 100 (thread_of k_dq1 100) k_dq1 9 (dq_of k_dq1 9) 2 1 0 [(71, 5)] 72 6 0
    k_dq1_in_thread) as (x' & k' & R & _ & Hx & _).
  - vm_compute. reflexivity.
  - exact k_dq1_rep.
  - vm_compute. reflexivity.
  - exists x', k'. auto.
Defined.

Lemma dq_pop_refines_witness :
  dq_rep 2 1 0 [(71, 5)] (dq_of k_dq1 9) /\ exists x', dq_rep 2 1 0 [] x' /\
    popped_then silent 9 true 71 5 (Some 100) (with_dq 9 x' k_dq1) (rt_data_queue_pop silent 9 0 k_dq1).
Proof.
  split; [exact k_dq1_rep|].
  exact (dq_pop_refines silent 100 (thread_of k_dq1 100) k_dq1 9 (dq_of k_dq1 9) 2 1 0 [(71, 5)] 0 k_dq1_in_thread
    ltac:(vm_compute; reflexivity) k_dq1_rep ltac:(vm_compute; reflexivity)).
Defined.

(** Thread 300, more urgent than 100, waits for an item; then 100 pushes one. *)
Definition k_dq_popper : kernel :=
  run (rt_data_queue_pop silent 9 (-1)) (run (rt_data_queue_init 9 (Some [(0, 0); (0, 0)]) 2 1 0) (k_two 5)).
Lemma k_dq_popper_in_thread : in_thread 100 (thread_of k_dq_popper 100) k_dq_popper.
Proof.
  split; try (vm_compute; reflexivity). apply run_kinv; [apply dq_pop_preserves, silent_kinv|].
  apply run_kinv; [apply dq_init_preserves|apply k_two_kinv; lia].
Qed.
Lemma k_dq_popper_rep : dq_rep 2 1 0 [] (dq_of k_dq_popper 9).
Proof. split; try (vm_compute; reflexivity); vm_compute; intuition discriminate. Qed.

Lemma dq_push_strands_popper_witness :
  in_thread 100 (thread_of k_dq_popper 100) k_dq_popper /\ 300 ∈ k_lists k_dq_popper (LDqPop 9) /\
  exists x' k' pth, rt_data_queue_push silent 9 71 5 0 k_dq_popper = Some (Done RT_EOK [], k') /\ k_dqs k' !! 9 = Some x' /\
    dq_rep 2 1 0 [(71, 5)] x' /\ 300 ∈ k_lists k' (LDqPop 9) /\ k_threads k' !! 300 = Some pth /\ is_suspended pth = true.
Proof.
  assert (300 ∈ k_lists k_dq_popper (LDqPop 9)) as Hin.
  { assert (k_lists k_dq_popper (LDqPop 9) = [300]) as -> by (vm_compute; reflexivity). apply list_elem_of_here. }
  split; [exact k_dq_popper_in_thread|]. split; [exact Hin|].
  apply (dq_push_strands_popper silent 100 (thread_of k_dq_popper 100) k_dq_popper 9 (dq_of k_dq_popper 9) 2 1 [] 71 5 0 300
    k_dq_popper_in_thread).
  - vm_compute. reflexivity.
  - exact k_dq_popper_rep.
  - vm_compute. reflexivity.
  - cbn. lia.
  - exact Hin.
Defined.

(** The indices have 15 bits: a queue that is initialised with more than 2^15 items
    uses the first 2^15 of them only. *)
Example dq_large_size_wraps : next_index 40000 32767 = 0.
Proof. reflexivity. Qed.
