(* ===== verification/CompletionProps.v ===== *)
(** * Properties of completions

    A completion is idle, waited for by one thread, or completed. *)

From S2P Require Import Prelude Bitmap Kernel Timer Sched IpcList Thread Sem DataQueue Completion System.
From S2P Require Import KernelInv TimerInv SchedInv ThreadInv TimerIdle ThreadOps IpcOps SystemInv.
From S2P Require Import Demo SchedProps Blocking WaitProps SemProps.
Open Scope rt_scope.

(** ** The states of a completion *)

Inductive comp_state := Idle | Awaited (t : Z) | Completed.

Definition comp_word (s : comp_state) : Z := match s with Idle => 0 | Awaited t => t | Completed => 1 end.

(** The address of a thread object: not RT_NULL, its lowest bit clear. *)
Definition thread_addr (t : Z) : Prop := t <> 0 /\ Z.even t = true.

Lemma even_bit t : Z.even t = true -> Z.land t 1 = 0 /\ Z.ldiff t 1 = t.
Proof.
  intros H. assert (Z.land t 1 = 0) as E.
  { change 1 with (Z.ones 1). rewrite Z.land_ones by lia. change (2 ^ 1) with 2. rewrite Zmod_even, H. reflexivity. }
  split; [exact E|]. apply Z.bits_inj'. intros n Hn. rewrite Z.ldiff_spec.
  assert (Z.testbit (Z.land t 1) n = false) as Hb by (rewrite E; apply Z.bits_0). rewrite Z.land_spec in Hb.
  destruct (Z.testbit t n), (Z.testbit 1 n); try reflexivity; discriminate.
Qed.

Lemma comp_flag s : (forall t, s = Awaited t -> thread_addr t) ->
  (RT_COMPLETION_FLAG (comp_word s) =? RT_COMPLETED) = match s with Completed => true | _ => false end.
Proof.
  intros H. destruct s as [|t|]; try reflexivity. unfold RT_COMPLETION_FLAG. cbn [comp_word].
  rewrite (proj1 (even_bit t (proj2 (H t eq_refl)))). reflexivity.
Qed.

Lemma comp_thread s : (forall t, s = Awaited t -> thread_addr t) ->
  RT_COMPLETION_THREAD (comp_word s) = match s with Awaited t => t | _ => 0 end.
Proof.
  intros H. destruct s as [|t|]; try reflexivity. apply (even_bit t), (H t eq_refl).
Qed.

Lemma new_stat_waiter t : thread_addr t -> RT_COMPLETION_NEW_STAT t RT_UNCOMPLETED = comp_word (Awaited t).
Proof. intros [_ H]. apply (even_bit t H). Qed.

Definition with_comp (c : Z) (s : comp_state) (k : kernel) : kernel := k <| k_comps ::= insert c (comp_word s) |>.

Lemma kinv_with_comp c s k : kinv k -> kinv (with_comp c s k).
Proof. intros HK. eapply kinv_same; [exact HK|reflexivity..]. Qed.

Section Completion.
Context (c : Z) (s : comp_state) (k : kernel).
Hypothesis Hc : k_comps k !! c = Some (comp_word s).
Hypothesis Hs : forall t, s = Awaited t -> thread_addr t.

(** [k'] is [k] after thread [t] went to sleep for the completion. *)
Definition parked (t timeout : Z) (k' : kernel) : Prop :=
  k_comps k' = <[c := comp_word (Awaited t)]> (k_comps k) /\ exists th, k_threads k !! t = Some th /\ dozing t timeout (with_error t th RT_EOK k) k'.

(** [rt_completion_wait]: a completed completion is consumed at once; an idle one
    gives -RT_ETIMEOUT without waiting when the timeout is 0 and otherwise takes the
    caller to sleep, its address in the word, the timer set; when another thread
    waits already the assertion fails. *)
Theorem completion_wait_behaviour t th timeout : in_thread t th k -> thread_addr t -> timeout < HALF_TICK ->
  match s with
  | Completed => rt_completion_wait c timeout k = Some (Done RT_EOK [], with_comp c Idle k)
  | Idle =>
      if timeout =? 0 then rt_completion_wait c timeout k = Some (Done (- RT_ETIMEOUT) [], k)
      else exists k', rt_completion_wait c timeout k = Some (Waiting (PcCompWait c), k') /\ kinv k' /\ parked t timeout k'
  | Awaited _ => rt_completion_wait c timeout k = None
  end.
Proof.
  intros C Ha Hto. unfold rt_completion_wait. erewrite bind_eq by (eapply scheduler_available_eq; exact C).
  erewrite bind_eq by (apply get_obj_eq; exact Hc). rewrite (comp_flag s Hs), (comp_thread s Hs).
  destruct s as [|u|]; cbn [negb].
  - erewrite bind_eq by reflexivity. destruct (Z.eqb_spec timeout 0) as [|H0]; [reflexivity|].
    erewrite bind_eq by (apply the_self_eq, C). erewrite bind_eq by (apply upd_thread_eq, C).
    change (k <| k_threads ::= _ |>) with (with_error t th RT_EOK k).
    pose proof (in_thread_error t th RT_EOK k C) as C1.
    destruct (doze_total _ _ _ timeout RT_UNINTERRUPTIBLE (with_comp c (Awaited t)) C1 Hto) as (k1 & k2 & k3 & H1 & F1 & H2 & H3 & HK3 & F3 & D).
    { split; [apply kinv_with_comp|reflexivity..]. }
    exists k3. split; [|split; [exact HK3|]].
    + erewrite bind_eq by exact H1. cbn [Z.eqb RT_EOK]. unfold set_comp. rewrite new_stat_waiter by exact Ha.
      erewrite bind_eq by reflexivity. fold (with_comp c (Awaited t) k1).
      erewrite bind_eq by (apply not_in_interrupt_eq; change (k_irq_nest k1 = 0); rewrite (of_irq _ _ F1); apply C).
      erewrite bind_eq by exact H2. erewrite bind_eq by exact H3. reflexivity.
    + split; [|exists th; split; [apply C|exact D]]. rewrite (of_comps _ _ F3). unfold with_comp. cbv [set_field]. cbn.
      rewrite (of_comps _ _ F1). reflexivity.
  - rewrite (proj2 (Z.eqb_neq u 0)) by apply (Hs u eq_refl). reflexivity.
  - reflexivity.
Qed.

(** C30: [rt_completion_wakeup] wakes the thread that waits and marks the completion, so
    that the woken thread returns RT_EOK and leaves it idle; without a waiter it marks
    it for the next wait and returns -RT_EEMPTY; it returns -RT_EBUSY when it is marked
    already, and -RT_EINVAL when the waiter has timed out but has not run yet. *)
Theorem completion_done_behaviour x : kinv k -> k_current k = Some x ->
  match s with
  | Completed => rt_completion_wakeup c k = Some (- RT_EBUSY, k)
  | Idle => rt_completion_wakeup c k = Some (- RT_EEMPTY, with_comp c Completed k)
  | Awaited t =>
      (wakeable t k -> exists k' th th', rt_completion_wakeup c k = Some (RT_EOK, k') /\ kinv k' /\
         k_comps k' !! c = Some (comp_word Completed) /\ k_threads k !! t = Some th /\ k_threads k' !! t = Some th' /\
         awake th' /\ (k_lock_nest k = 0 -> runs_most_urgent k') /\
         (th_error th = RT_EOK -> k_current k' = Some t ->
            rt_completion_wait_resume c k' = Some (Done RT_EOK [], with_comp c Idle k'))) /\
      (forall th, k_threads k !! t = Some th -> th_valid th = true -> is_suspended th = false ->
         rt_completion_wakeup c k = Some (- RT_EINVAL, with_comp c Completed k))
  end.
Proof.
  intros HK Hx. unfold rt_completion_wakeup, _completion_done. erewrite bind_eq by (apply get_obj_eq; exact Hc).
  rewrite (comp_flag s Hs), (comp_thread s Hs). destruct s as [|t|]; [reflexivity| |reflexivity].
  rewrite (proj2 (Z.eqb_neq t 0)) by apply (Hs t eq_refl). cbn [negb]. split.
  - intros Hw. destruct (resume_total k t x HK Hx Hw) as (k1 & H1 & HK1 & [F _ M (th & th' & Ht & Ht' & Ha & He) _ _]).
    exists (with_comp c Completed k1), th, th'. split; [erewrite bind_eq by exact H1; reflexivity|].
    split; [apply kinv_with_comp, HK1|]. split; [apply lookup_insert_eq|]. split; [exact Ht|]. split; [exact Ht'|]. split; [exact Ha|].
    split; [exact M|]. intros Hok Hcur. unfold rt_completion_wait_resume. erewrite bind_eq by (apply the_self_eq; exact Hcur).
    erewrite bind_eq by (apply get_thread_eq; exact Ht'). erewrite bind_eq by reflexivity. rewrite He, Hok. reflexivity.
  - intros th Ht Hv Hns. erewrite bind_eq by (exact (resume_refused k t th (proj1 HK) Ht Hv Hns)). reflexivity.
Qed.
End Completion.

(** ** Examples *)

Definition comp_of (k : kernel) (c : Z) : Z := default (-1) (k_comps k !! c).
Definition result_of (o : option (outcome * kernel)) : option Z := match o with Some (Done r _, _) => Some r | _ => None end.

Definition k_comp : kernel := run (rt_completion_init 9) k_boot.
Lemma k_comp_in_thread : in_thread 100 (thread_of k_comp 100) k_comp.
Proof. split; try (vm_compute; reflexivity). apply run_kinv; [apply comp_init_preserves|apply k_boot_kinv]. Qed.
Lemma no_waiter (s : comp_state) : (match s with Awaited _ => false | _ => true end) = true -> forall t, s = Awaited t -> thread_addr t.
Proof. intros H t ->. discriminate. Qed.

Lemma completion_wait_behaviour_witness :
  in_thread 100 (thread_of k_comp 100) k_comp /\ k_comps k_comp !! 9 = Some (comp_word Idle) /\
  exists k', rt_completion_wait 9 50 k_comp = Some (Waiting (PcCompWait 9), k') /\ kinv k' /\ parked 9 k_comp 100 50 k'.
Proof.
  split; [exact k_comp_in_thread|]. assert (k_comps k_comp !! 9 = Some (comp_word Idle)) as Hc by (vm_compute; reflexivity).
  split; [exact Hc|].
  assert (thread_addr 100) as Ha by (split; [discriminate|reflexivity]).
  assert (50 < HALF_TICK) as Hto by (vm_compute; reflexivity).
  pose proof (completion_wait_behaviour 9 Idle k_comp Hc (no_waiter Idle eq_refl) 100 (thread_of k_comp 100) 50 k_comp_in_thread Ha Hto) as H.
  cbv beta iota in H. change (50 =? 0) with false in H. exact H.
Defined.

(** Thread 300 is more urgent than 100 and waits; then 100 signals the completion. *)
Definition k_comp_wait : kernel := run (rt_completion_wait 9 50) (run (rt_completion_init 9) (k_two 5)).
Lemma k_comp_wait_kinv : kinv k_comp_wait.
Proof. apply run_kinv; [apply comp_wait_preserves|]. apply run_kinv; [apply comp_init_preserves|apply k_two_kinv; lia]. Qed.

Lemma completion_done_behaviour_witness :
  k_comps k_comp_wait !! 9 = Some (comp_word (Awaited 300)) /\
  exists k', rt_completion_wakeup 9 k_comp_wait = Some (RT_EOK, k') /\ k_comps k' !! 9 = Some 1.
Proof.
  assert (k_comps k_comp_wait !! 9 = Some (comp_word (Awaited 300))) as Hc by (vm_compute; reflexivity). split; [exact Hc|].
  assert (wakeable 300 k_comp_wait) as Hw by (exists (thread_of k_comp_wait 300); split; [|split]; vm_compute; reflexivity).
  destruct (completion_done_behaviour 9 (Awaited 300) k_comp_wait Hc) with (x := 100) as [H _].
  - intros t [= <-]. split; [discriminate|reflexivity].
  - exact k_comp_wait_kinv.
  - vm_compute. reflexivity.
  - destruct (H Hw) as (k' & _ & _ & H1 & _ & H2 & _). exists k'. split; [exact H1|exact H2].
Defined.

(** The waiter is woken and its call returns RT_EOK. *)
Example completion_handshake :
  let k1 := run (rt_completion_wakeup 9) k_comp_wait in
  k_current k1 = Some 300 /\ result_of (rt_completion_wait_resume 9 k1) = Some RT_EOK /\
  comp_of (run (rt_completion_wait_resume 9) k1) 9 = 0.
Proof. vm_compute. repeat split. Qed.

(** The timer of the waiter fires; before the waiter runs again the completion is
    signalled.  The waiter returns -RT_ETIMEOUT and takes the mark back, so that the
    next wait finds no trace of the signal. *)
Example completion_signal_lost :
  let k1 := run (rt_completion_done 9) (run (_thread_timeout 300) k_comp_wait) in
  comp_of k1 9 = 1 /\ result_of (rt_completion_wait_resume 9 k1) = Some (- RT_ETIMEOUT) /\
  result_of (rt_completion_wait 9 0 (run (rt_completion_wait_resume 9) k1)) = Some (- RT_ETIMEOUT).
Proof. vm_compute. repeat split. Qed.
