(* ===== verification/WaitQueueProps.v ===== *)
(** * Properties of the wait queues

    A wait queue has a flag and the nodes of the threads that wait, the oldest first. *)

From stdpp Require Import gmap.
From S2P Require Import Prelude Bitmap Kernel Timer Sched IpcList Thread WaitQueue System.
From S2P Require Import KernelInv TimerInv SchedInv ThreadInv TimerIdle ThreadOps SystemInv.
From S2P Require Import Demo SchedProps Blocking WaitProps SemProps.
Open Scope rt_scope.

(** ** The primitives *)

Lemma in_kernel_eq {A} (m : K A) w x k : m (ws_kernel w) = Some (x, k) -> in_kernel m w = Some (x, w <| ws_kernel := k |>).
Proof. intros H. unfold in_kernel. rewrite H. reflexivity. Qed.

Lemma in_kernel_when b m w k : when b m (ws_kernel w) = Some (tt, k) -> when b (in_kernel m) w = Some (tt, w <| ws_kernel := k |>).
Proof. destruct b; [apply in_kernel_eq|]. intros [= <-]. destruct w. reflexivity. Qed.

Lemma get_queue_eq q x w : ws_queues w !! q = Some x -> get_queue q w = Some (x, w).
Proof. intros H. unfold get_queue. erewrite bind_eq by reflexivity. rewrite H. reflexivity. Qed.

Lemma get_node_eq n x w : ws_nodes w !! n = Some x -> get_node n w = Some (x, w).
Proof. intros H. unfold get_node. erewrite bind_eq by reflexivity. rewrite H. reflexivity. Qed.

Lemma upd_queue_eq q f x w : ws_queues w !! q = Some x -> upd_queue q f w = Some (tt, w <| ws_queues ::= <[q := f x]> |>).
Proof. intros H. unfold upd_queue. erewrite bind_eq by (apply get_queue_eq; exact H). reflexivity. Qed.

Lemma remove_eq n e w : ws_nodes w !! n = Some e -> wn_wqueue e <> 0 -> rt_wqueue_remove n w = wait_list_remove n w.
Proof.
  intros H H0. unfold rt_wqueue_remove. erewrite bind_eq by (apply get_node_eq; exact H).
  erewrite bind_eq by (apply assert_eq; destruct (Z.eqb_spec (wn_wqueue e) 0); [contradiction|reflexivity]). reflexivity.
Qed.

(** A node in no queue. *)
Definition unlinked (n : Z) (qs : gmap Z rt_wqueue) : Prop := forall q x, qs !! q = Some x -> n ∉ wq_list x.

Lemma remove_unlinked n qs : unlinked n qs -> (fun x => x <| wq_list ::= filter (fun y => y <> n) |>) <$> qs = qs.
Proof.
  intros H. apply map_eq. intros q. rewrite lookup_fmap. destruct (qs !! q) as [x|] eqn:E; [|reflexivity].
  cbn. f_equal. destruct x as [fl l]. cbv [set_field]. cbn. rewrite (filter_ne_notin n l (H q _ E)). reflexivity.
Qed.

Lemma unlinked_insert n q x x' qs : unlinked n qs -> qs !! q = Some x -> wq_list x' = wq_list x -> unlinked n (<[q := x']> qs).
Proof.
  intros H Hq Hl q' y Hy. destruct (decide (q' = q)) as [->|Hne].
  - rewrite lookup_insert_eq in Hy. injection Hy as <-. rewrite Hl. exact (H q x Hq).
  - rewrite lookup_insert_ne in Hy by congruence. exact (H q' y Hy).
Qed.

(** ** Waiting *)

(** One millisecond is one tick. *)
Lemma ticks_of_msec msec : -2147483648 <= msec < HALF_TICK -> s32 (rt_tick_from_millisecond msec) = Z.max (-1) msec.
Proof.
  change HALF_TICK with 2147483647. intros H. unfold rt_tick_from_millisecond, RT_TICK_PER_SECOND, RT_WAITING_FOREVER.
  destruct (Z.ltb_spec msec 0) as [Hn|Hn]; [change (s32 (u32 (-1))) with (-1); lia|].
  pose proof (Z.div_mod msec 1000 ltac:(lia)). pose proof (Z.mod_pos_bound msec 1000 ltac:(lia)).
  pose proof (Z.div_mod (1000 * (msec mod 1000) + 999) 1000 ltac:(lia)).
  pose proof (Z.mod_pos_bound (1000 * (msec mod 1000) + 999) 1000 ltac:(lia)).
  rewrite (u32_small (1000 * (msec / 1000))) by lia. rewrite u32_small by lia. rewrite s32_small by lia. lia.
Qed.

Lemma id_same_sched : same_sched_store id.
Proof. split; auto. Qed.

Section Wait.
Context (q : Z) (x : rt_wqueue) (t : Z) (th : thread) (w : wq_store).
Hypothesis C : in_thread t th (ws_kernel w).
Hypothesis Hq : ws_queues w !! q = Some x.
Hypothesis Hq0 : q <> 0.

Definition wait_node : rt_wqueue_node := mkWqNode t q __wqueue_default_wake 0.

(** [w] when the caller has prepared its node [wait]. *)
Definition wait_nodes (wait : Z) : gmap Z rt_wqueue_node := <[wait := wait_node]> (ws_nodes w).

Lemma wq_wait_start condition msec wait f : -2147483648 <= msec < HALF_TICK ->
  _rt_wqueue_wait q condition msec wait f w =
    if negb (condition =? 0) || (msec =? 0) then Some (Some 0, w) else
    (if wq_flag x =? RT_WQ_FLAG_WAKEUP then
       upd_queue q (fun x => x <| wq_flag := RT_WQ_FLAG_CLEAN |>);; rt_wqueue_remove wait;; wait_result t
     else
       ret ← in_kernel (rt_thread_suspend_with_flag t f);
       if negb (ret =? RT_EOK) then mret (Some (- RT_EINTR)) else
       wait_list_insert q wait;;
       when (0 <? Z.max (-1) msec) (in_kernel (start_thread_timer t (Z.max (-1) msec)));;
       in_kernel rt_schedule;; mret None)
      (mkWqStore (with_error t th RT_EOK (ws_kernel w)) (ws_queues w) (wait_nodes wait)).
Proof.
  intros Hms. unfold _rt_wqueue_wait. erewrite bind_eq by (apply in_kernel_eq, the_self_eq, C).
  erewrite bind_eq by (apply in_kernel_eq; eapply scheduler_available_eq; exact C).
  cbv zeta. rewrite (ticks_of_msec msec Hms).
  replace (Z.max (-1) msec =? 0) with (msec =? 0) by lia.
  destruct (negb (condition =? 0) || (msec =? 0)) eqn:Hcond; [destruct w; reflexivity|].
  apply orb_false_iff in Hcond as [_ H0]. apply Z.eqb_neq in H0.
  erewrite bind_eq by reflexivity.
  erewrite bind_eq by (apply in_kernel_eq, upd_thread_eq, C).
  erewrite bind_eq by (apply get_queue_eq; exact Hq).
  replace (negb (Z.max (-1) msec =? RT_WAITING_FOREVER)) with (0 <? Z.max (-1) msec) by (unfold RT_WAITING_FOREVER; lia).
  reflexivity.
Qed.

(** The caller goes to sleep. *)
Lemma wq_wait_sleeps msec wait f : -2147483648 <= msec < HALF_TICK -> msec <> 0 -> wq_flag x <> RT_WQ_FLAG_WAKEUP ->
  exists k', kinv k' /\ dozing t (Z.max (-1) msec) (with_error t th RT_EOK (ws_kernel w)) k' /\
    obj_frame (with_error t th RT_EOK (ws_kernel w)) k' /\
    _rt_wqueue_wait q 0 msec wait f w =
      Some (None, mkWqStore k' (<[q := x <| wq_list := wq_list x ++ [wait] |>]> (ws_queues w)) (wait_nodes wait)).
Proof.
  intros Hms H0 Hfl. rewrite (wq_wait_start 0 msec wait f Hms).
  rewrite (proj2 (Z.eqb_neq msec 0) H0), (proj2 (Z.eqb_neq _ _) Hfl). cbn [negb orb Z.eqb].
  pose proof (in_thread_error t th RT_EOK _ C) as C1.
  destruct (doze_total _ _ _ (Z.max (-1) msec) f id C1 ltac:(change HALF_TICK with 2147483647 in *; lia) id_same_sched)
    as (k1 & k2 & k3 & H1 & F1 & H2 & H3 & HK3 & F3 & D).
  exists k3. split; [exact HK3|]. split; [exact D|]. split; [etransitivity; [exact F1|exact F3]|].
  erewrite bind_eq by (apply in_kernel_eq; exact H1). cbn [Z.eqb RT_EOK negb].
  erewrite bind_eq by (unfold wait_list_insert; apply upd_queue_eq; exact Hq).
  erewrite bind_eq by (apply in_kernel_when; exact H2).
  erewrite bind_eq by (apply in_kernel_eq; exact H3). reflexivity.
Qed.

(** C39: rt_wqueue_wait, called as its comment asks (condition 0) and with a time other
    than 0: when the queue was woken before, it takes the flag back, does not enter the
    queue and returns 0; otherwise the caller sleeps, its node at the end of the queue and
    its timer set unless the time is negative. *)
Theorem wq_wait_behaviour msec wait f :
  unlinked wait (ws_queues w) -> -2147483648 <= msec < HALF_TICK -> msec <> 0 ->
  let k := with_error t th RT_EOK (ws_kernel w) in
  if wq_flag x =? RT_WQ_FLAG_WAKEUP then
    _rt_wqueue_wait q 0 msec wait f w = Some (Some 0, mkWqStore k (<[q := x <| wq_flag := RT_WQ_FLAG_CLEAN |>]> (ws_queues w)) (wait_nodes wait))
  else exists k', kinv k' /\ dozing t (Z.max (-1) msec) k k' /\ obj_frame k k' /\
    _rt_wqueue_wait q 0 msec wait f w =
      Some (None, mkWqStore k' (<[q := x <| wq_list := wq_list x ++ [wait] |>]> (ws_queues w)) (wait_nodes wait)).
Proof.
  intros Hwait Hms H2 k. destruct (Z.eqb_spec (wq_flag x) RT_WQ_FLAG_WAKEUP) as [Hfl|Hfl]; [|exact (wq_wait_sleeps msec wait f Hms H2 Hfl)].
  rewrite wq_wait_start by exact Hms. rewrite (proj2 (Z.eqb_neq msec 0) H2), Hfl. cbn [Z.eqb RT_WQ_FLAG_WAKEUP Pos.eqb negb orb].
  erewrite bind_eq by (apply upd_queue_eq; exact Hq).
  erewrite bind_eq by (erewrite remove_eq; [reflexivity|apply (lookup_insert_eq (ws_nodes w))|exact Hq0]).
  unfold wait_result. erewrite bind_eq by (apply in_kernel_eq, get_thread_eq, (lookup_insert_eq (k_threads (ws_kernel w)))).
  cbn [th_error]. cbv [set_field]. cbn. rewrite (remove_unlinked wait); [reflexivity|].
  eapply unlinked_insert; [exact Hwait|exact Hq|reflexivity].
Qed.
End Wait.

(** ** Waking *)

(** The errors of some threads were set to RT_EOK, nothing else. *)
Definition forgiven (k k' : kernel) : Prop :=
  k' = k <| k_threads := k_threads k' |> /\
  forall t, k_threads k' !! t = k_threads k !! t \/
    exists th, k_threads k !! t = Some th /\ k_threads k' !! t = Some (th <| th_error := RT_EOK |>).

Lemma forgiven_refl k : forgiven k k.
Proof. split; [destruct k; reflexivity|]. intros t. left. reflexivity. Qed.

Lemma forgiven_trans k1 k2 k3 : forgiven k1 k2 -> forgiven k2 k3 -> forgiven k1 k3.
Proof.
  intros [E1 H1] [E2 H2]. split; [rewrite E2, E1; reflexivity|]. intros t.
  destruct (H2 t) as [->|(th & Ht & ->)]; [apply H1|]. right.
  destruct (H1 t) as [E|(th' & Ht' & E)]; rewrite E in Ht; [exists th; auto|]. injection Ht as <-. exists th'. auto.
Qed.

Lemma forgiven_nest k k' : forgiven k k' -> k_lock_nest k' = k_lock_nest k /\ k_current k' = k_current k.
Proof. intros [-> _]. split; reflexivity. Qed.

Lemma forgiven_error t th k : k_threads k !! t = Some th -> forgiven k (with_error t th RT_EOK k).
Proof.
  intros Ht. split; [reflexivity|]. intros y. unfold with_error. cbv [set_field]. cbn.
  destruct (decide (y = t)) as [->|Hne]; [right; exists th; rewrite lookup_insert_eq; auto|left; apply lookup_insert_ne; congruence].
Qed.

Lemma kinv_error t th e k : kinv k -> k_threads k !! t = Some th -> kinv (with_error t th e k).
Proof.
  intros [I Q] Ht. pose proof (upd_thread_eq t (fun th : thread => th <| th_error := e |>) k th Ht) as H. split.
  - refine (upd_thread_same _ t _ _ _ _ _ I H). intros; repeat split.
  - refine (upd_thread_idle _ t _ _ _ _ _ Q H). auto.
Qed.

(** The thread is awake with error RT_EOK; waking others keeps it so. *)
Definition up (t : Z) (k : kernel) : Prop := exists th, k_threads k !! t = Some th /\ awake th /\ th_error th = RT_EOK.

Lemma up_forgiven t k k' : forgiven k k' -> up t k -> up t k'.
Proof.
  intros [_ H] (th & Ht & Ha & He). destruct (H t) as [E|(th' & E1 & E2)].
  - exists th. rewrite E. auto.
  - rewrite Ht in E1. injection E1 as <-. exists (th <| th_error := RT_EOK |>). auto.
Qed.

Lemma up_resumed t u k k' : resumed u k k' -> up t k -> up t k'.
Proof.
  intros R (th & Ht & Ha & He). destruct (decide (t = u)) as [->|Hne].
  - destruct (rs_thread _ _ _ R) as (th0 & th' & E & Ht' & Ha' & He'). exists th'. split; [exact Ht'|]. split; [exact Ha'|]. congruence.
  - pose proof (rs_others _ _ _ R t Hne) as H. rewrite Ht in H. destruct H as (s & Ht' & Hs).
    exists (th <| th_stat := s |>). split; [exact Ht'|]. split; [apply awake_restat; assumption|exact He].
Qed.

Lemma awake_not_suspended th : awake th -> is_suspended th = false.
Proof. rewrite is_suspended_stat. intros [H|H]; rewrite H; reflexivity. Qed.

(** A thread that can be resumed or is awake. *)
Definition resumable (t : Z) (k : kernel) : Prop :=
  exists th, k_threads k !! t = Some th /\ th_valid th = true /\ (is_suspended th = true -> ready_error t th k = RT_EOK).

Definition sleeping (t : Z) (k : kernel) : bool := match k_threads k !! t with Some th => is_suspended th | None => false end.

Lemma resumable_forgiven t k k' : forgiven k k' -> resumable t k -> resumable t k' /\ sleeping t k' = sleeping t k.
Proof.
  intros [E H] (th & Ht & Hv & Hr). assert (k_timer_list k' = k_timer_list k) as Htl by (rewrite E; reflexivity).
  unfold resumable, sleeping, ready_error. rewrite Htl, Ht. destruct (H t) as [E'|(th' & E1 & E2)].
  - rewrite E', Ht. split; [|reflexivity]. exists th. auto.
  - rewrite Ht in E1. injection E1 as <-. rewrite E2. split; [|reflexivity]. exists (th <| th_error := RT_EOK |>). auto.
Qed.

Lemma awake_not_close th : awake th -> stat_of th <> RT_THREAD_CLOSE.
Proof. intros [H|H]; rewrite H; discriminate. Qed.

Lemma resumable_resumed t u k k' : inv k' -> resumed u k k' -> resumable t k -> resumable t k'.
Proof.
  intros I R (th & Ht & Hv & Hr). destruct (decide (t = u)) as [->|Hne].
  - destruct (rs_thread _ _ _ R) as (th0 & th' & E & Ht' & Ha' & He'). exists th'. split; [exact Ht'|].
    split; [apply (so_valid _ _ _ _ _ (inv_stat _ _ _ I Ht')), awake_not_close, Ha'|].
    rewrite (awake_not_suspended _ Ha'). discriminate.
  - pose proof (rs_others _ _ _ R t Hne) as H. rewrite Ht in H. destruct H as (s & Ht' & Hs).
    exists (th <| th_stat := s |>). split; [exact Ht'|]. split; [exact Hv|]. intros Hsu.
    destruct Hs as [Hs|[_ Ha]]; [|rewrite (awake_not_suspended _ Ha) in Hsu; discriminate].
    rewrite is_suspended_stat, Hs, <- is_suspended_stat in Hsu.
    destruct (resumed_wakeable u k k' t R Hne) as (th' & Ht2 & _ & He); [exists th; auto|].
    rewrite Ht' in Ht2. injection Ht2 as <-. exact He.
Qed.

Lemma sleeping_resumed t u k k' : resumed u k k' -> t <> u -> sleeping t k' = sleeping t k.
Proof.
  intros R Hne. pose proof (rs_others _ _ _ R t Hne) as H. unfold sleeping. destruct (k_threads k !! t) as [th|]; [|rewrite H; reflexivity].
  destruct H as (s & -> & [H|[Ha Ha']]).
  - rewrite !is_suspended_stat, H. reflexivity.
  - rewrite !awake_not_suspended by assumption. reflexivity.
Qed.

Section Wake.
Context (call : Z -> Z -> Z -> WQ Z) (answer : Z -> Z -> Z -> Z) (key : Z).
(** A wake function only answers. *)
Hypothesis Hcall : forall f n w, call f n key w = Some (answer f n key, w).

Definition willing (w : wq_store) (n : Z) : bool :=
  match ws_nodes w !! n with
  | Some e => if wn_wakeup e =? __wqueue_default_wake then true else answer (wn_wakeup e) n key =? 0
  | None => false
  end.
Definition thread_at (w : wq_store) (n : Z) : Z := match ws_nodes w !! n with Some e => wn_thread e | None => 0 end.
Definition can_wake (w : wq_store) (n : Z) : bool := willing w n && sleeping (thread_at w n) (ws_kernel w).
Definition node_ok (w : wq_store) (n : Z) : Prop := is_Some (ws_nodes w !! n) /\ resumable (thread_at w n) (ws_kernel w).

Lemma call_wakeup_eq w n e : ws_nodes w !! n = Some e ->
  exists r, call_wakeup call (wn_wakeup e) n key w = Some (r, w) /\ (r =? 0) = willing w n.
Proof.
  intros H. unfold call_wakeup, willing. rewrite H. destruct (wn_wakeup e =? __wqueue_default_wake).
  - exists 0. split; reflexivity.
  - rewrite Hcall. eexists. split; reflexivity.
Qed.

(** [resume_entry] of a node that agrees to be woken. *)
Lemma resume_entry_total w n e x : kinv (ws_kernel w) -> k_current (ws_kernel w) = Some x -> ws_nodes w !! n = Some e -> node_ok w n ->
  exists k1 k2, forgiven (ws_kernel w) k1 /\ kinv k2 /\ is_Some (k_current k2) /\
    resume_entry e w = Some (if sleeping (thread_at w n) (ws_kernel w) then RT_EOK else - RT_EINVAL, w <| ws_kernel := k2 |>) /\
    if sleeping (thread_at w n) (ws_kernel w) then resumed (thread_at w n) k1 k2 /\ up (thread_at w n) k2 else k2 = k1.
Proof.
  intros HK Hx He [_ Hr]. unfold thread_at in *. rewrite He in *. set (t := wn_thread e) in *. set (k := ws_kernel w) in *.
  destruct Hr as (th & Ht & Hv & Hr). pose proof (forgiven_error t th k Ht) as F. pose proof (kinv_error t th RT_EOK k HK Ht) as HK1.
  set (k1 := with_error t th RT_EOK k) in *.
  assert (k_threads k1 !! t = Some (th <| th_error := RT_EOK |>)) as Ht1 by apply (lookup_insert_eq (k_threads k)).
  exists k1. unfold sleeping. rewrite Ht. unfold resume_entry. fold t.
  destruct (is_suspended th) eqn:Hsu.
  - destruct (resume_total k1 t x HK1 Hx) as (k2 & H2 & HK2 & R); [exists (th <| th_error := RT_EOK |>); auto|].
    exists k2. split; [exact F|]. split; [exact HK2|]. split; [apply (rs_current _ _ _ R)|]. split.
    + apply in_kernel_eq. eapply bind_eval; [apply upd_thread_eq; exact Ht|exact H2].
    + split; [exact R|]. destruct (rs_thread _ _ _ R) as (th0 & th' & E & Ht' & Ha & He').
      rewrite Ht1 in E. injection E as <-. exists th'. auto.
  - exists k1. split; [exact F|]. split; [exact HK1|]. split; [exists x; exact Hx|]. split; [|reflexivity].
    apply in_kernel_eq. eapply bind_eval; [apply upd_thread_eq; exact Ht|].
    exact (resume_refused k1 t (th <| th_error := RT_EOK |>) (proj1 HK1) Ht1 Hv Hsu).
Qed.

(** Steps that leave the nodes alone and keep the threads resumable. *)
Lemma nodes_ok_step w k' nodes : (forall t, resumable t (ws_kernel w) -> resumable t k') ->
  Forall (node_ok w) nodes -> Forall (node_ok (w <| ws_kernel := k' |>)) nodes.
Proof. intros H Hf. apply (Forall_impl _ _ _ Hf). intros n [Hn Hr]. split; [exact Hn|apply H, Hr]. Qed.

Lemma can_wake_forgiven w k' n : forgiven (ws_kernel w) k' -> node_ok w n -> can_wake (w <| ws_kernel := k' |>) n = can_wake w n.
Proof.
  intros F [_ Hr]. unfold can_wake. change (ws_kernel (w <| ws_kernel := k' |>)) with k'.
  change (thread_at (w <| ws_kernel := k' |>) n) with (thread_at w n).
  rewrite (proj2 (resumable_forgiven _ _ _ F Hr)). reflexivity.
Qed.

Lemma find_forgiven w k' nodes : forgiven (ws_kernel w) k' -> Forall (node_ok w) nodes ->
  List.find (can_wake (w <| ws_kernel := k' |>)) nodes = List.find (can_wake w) nodes /\
  existsb (can_wake (w <| ws_kernel := k' |>)) nodes = existsb (can_wake w) nodes.
Proof.
  intros F H. induction H as [|n nodes Hn _ [IH1 IH2]]; [split; reflexivity|].
  cbn [List.find existsb]. rewrite IH1, IH2, (can_wake_forgiven w k' n F Hn). split; reflexivity.
Qed.

Definition unlink (n : Z) (w : wq_store) : wq_store :=
  w <| ws_queues ::= fmap (fun x => x <| wq_list ::= filter (fun y => y <> n) |>) |>.

(** The loop wakes the first thread that sleeps and whose node agrees. *)
Lemma wakeup_loop_total nodes : forall w x, kinv (ws_kernel w) -> k_current (ws_kernel w) = Some x -> Forall (node_ok w) nodes ->
  match List.find (can_wake w) nodes with
  | Some n => exists k1 k2, forgiven (ws_kernel w) k1 /\ kinv k2 /\ resumed (thread_at w n) k1 k2 /\ up (thread_at w n) k2 /\
      wakeup_loop call nodes key w = Some (true, unlink n (w <| ws_kernel := k2 |>))
  | None => exists k1, forgiven (ws_kernel w) k1 /\ kinv k1 /\ wakeup_loop call nodes key w = Some (false, w <| ws_kernel := k1 |>)
  end.
Proof.
  induction nodes as [|n nodes IH]; intros w x HK Hx Hok.
  { exists (ws_kernel w). split; [apply forgiven_refl|]. split; [exact HK|]. destruct w. reflexivity. }
  apply Forall_cons in Hok as [Hn Hok]. destruct (proj1 Hn) as [e He]. cbn [List.find wakeup_loop].
  destruct (call_wakeup_eq w n e He) as (r & Hr & Hw).
  destruct (can_wake w n) eqn:Hcan; unfold can_wake in Hcan.
  - apply andb_true_iff in Hcan as [Hwill Hsl].
    destruct (resume_entry_total w n e x HK Hx He Hn) as (k1 & k2 & F & HK2 & _ & H2 & HR). rewrite Hsl in H2, HR.
    exists k1, k2. split; [exact F|]. split; [exact HK2|]. split; [apply HR|]. split; [apply HR|].
    erewrite bind_eq by (apply get_node_eq; exact He). erewrite bind_eq by exact Hr. rewrite Hw, Hwill.
    erewrite bind_eq by exact H2. cbn [Z.eqb RT_EOK]. reflexivity.
  - destruct (willing w n) eqn:Hwill; cbn [andb] in Hcan.
    + destruct (resume_entry_total w n e x HK Hx He Hn) as (k1 & k2 & F & HK2 & _ & H2 & HR). rewrite Hcan in H2, HR. subst k2.
      specialize (IH (w <| ws_kernel := k1 |>) x HK2).
      assert (k_current k1 = Some x) as Hx1 by (rewrite (proj1 F); exact Hx).
      specialize (IH Hx1 (nodes_ok_step w k1 nodes (fun t H => proj1 (resumable_forgiven t _ _ F H)) Hok)).
      rewrite (proj1 (find_forgiven w k1 nodes F Hok)) in IH.
      assert (wakeup_loop call (n :: nodes) key w = wakeup_loop call nodes key (w <| ws_kernel := k1 |>)) as Hstep.
      { cbn [wakeup_loop]. erewrite bind_eq by (apply get_node_eq; exact He). erewrite bind_eq by exact Hr. rewrite Hw.
        erewrite bind_eq by exact H2. reflexivity. }
      cbn [wakeup_loop] in Hstep. rewrite Hstep. destruct (List.find (can_wake w) nodes) as [m|].
      * destruct IH as (k3 & k4 & F3 & HK4 & R4 & U4 & H4). exists k3, k4. split; [exact (forgiven_trans _ _ _ F F3)|]. auto.
      * destruct IH as (k3 & F3 & HK3 & H3). exists k3. split; [exact (forgiven_trans _ _ _ F F3)|]. auto.
    + erewrite bind_eq by (apply get_node_eq; exact He). erewrite bind_eq by exact Hr. rewrite Hw.
      exact (IH w x HK Hx Hok).
Qed.
(** The loop of rt_wqueue_wakeup_all. *)
Lemma wakeup_all_loop_total nodes : forall w x b, kinv (ws_kernel w) -> k_current (ws_kernel w) = Some x -> Forall (node_ok w) nodes ->
  exists k', wakeup_all_loop call nodes key b w = Some (b || existsb (can_wake w) nodes, w <| ws_kernel := k' |>) /\
    kinv k' /\ is_Some (k_current k') /\ k_lock_nest k' = k_lock_nest (ws_kernel w) /\
    (forall n, n ∈ nodes -> can_wake w n = true -> up (thread_at w n) k') /\ (forall t, up t (ws_kernel w) -> up t k').
Proof.
  induction nodes as [|n nodes IH]; intros w x b HK Hx Hok.
  { exists (ws_kernel w). cbn [existsb]. rewrite orb_false_r. split; [destruct w; reflexivity|]. split; [exact HK|].
    split; [eauto|]. split; [reflexivity|]. split; [|auto]. intros m Hm. inversion Hm. }
  apply Forall_cons in Hok as [Hn Hok]. destruct (proj1 Hn) as [e He]. cbn [existsb wakeup_all_loop].
  destruct (call_wakeup_eq w n e He) as (r & Hr & Hw).
  erewrite bind_eq by (apply get_node_eq; exact He). erewrite bind_eq by exact Hr. rewrite Hw.
  destruct (willing w n) eqn:Hwill.
  2: { assert (can_wake w n = false) as Hcan by (unfold can_wake; rewrite Hwill; reflexivity).
       destruct (IH w x b HK Hx Hok) as (k' & H1 & H2 & H3 & H4 & H5 & H6). exists k'. rewrite Hcan. cbn [orb].
       split; [exact H1|]. split; [exact H2|]. split; [exact H3|]. split; [exact H4|]. split; [|exact H6].
       intros m Hm Hcm. apply elem_of_cons in Hm as [->|Hm]; [congruence|exact (H5 m Hm Hcm)]. }
  assert (can_wake w n = sleeping (thread_at w n) (ws_kernel w)) as Hcan by (unfold can_wake; rewrite Hwill; reflexivity).
  destruct (resume_entry_total w n e x HK Hx He Hn) as (k1 & k2 & F & HK2 & [x2 Hx2] & H2 & HR).
  set (w2 := w <| ws_kernel := k2 |>) in *.
  assert (forall t, resumable t (ws_kernel w) -> resumable t k2) as Hkeep.
  { intros t Ht. apply (resumable_forgiven _ _ _ F) in Ht as [Ht _].
    destruct (sleeping _ _); [exact (resumable_resumed t _ _ _ (proj1 HK2) (proj1 HR) Ht)|subst k2; exact Ht]. }
  assert (forall t, up t (ws_kernel w) -> up t k2) as Hup.
  { intros t Ht. apply (up_forgiven _ _ _ F) in Ht.
    destruct (sleeping _ _); [exact (up_resumed t _ _ _ (proj1 HR) Ht)|subst k2; exact Ht]. }
  assert (k_lock_nest k2 = k_lock_nest (ws_kernel w)) as Hnest.
  { rewrite <- (proj1 (forgiven_nest _ _ F)). destruct (sleeping _ _); [apply (of_nest _ _ (rs_frame _ _ _ (proj1 HR)))|subst k2; reflexivity]. }
  (* a node that could be woken still can, unless its thread is up *)
  assert (forall m, m ∈ nodes -> can_wake w m = true -> up (thread_at w m) k2 \/ can_wake w2 m = true) as Hother.
  { intros m Hm Hcm. pose proof (proj1 (Forall_forall _ _) Hok m Hm) as [_ Hrm]. unfold can_wake in *.
    change (willing w2 m) with (willing w m). change (thread_at w2 m) with (thread_at w m). change (ws_kernel w2) with k2.
    apply andb_true_iff in Hcm as [-> Hs]. rewrite <- (proj2 (resumable_forgiven _ _ _ F Hrm)) in Hs.
    destruct (sleeping (thread_at w n) (ws_kernel w)); [|subst k2; right; exact Hs].
    destruct (decide (thread_at w m = thread_at w n)) as [->|Hne]; [left; apply HR|right].
    rewrite (sleeping_resumed _ _ _ _ (proj1 HR) Hne). exact Hs. }
  destruct (IH w2 x2 (b || can_wake w n) HK2 Hx2 (nodes_ok_step w k2 nodes Hkeep Hok)) as (k' & H1 & HK' & Hc' & Hn' & Hall & Hup').
  exists k'. split.
  - erewrite bind_eq by exact H2. rewrite orb_assoc. destruct (can_wake w n) eqn:Hc; rewrite <- Hcan in *.
    + cbv beta. change (RT_EOK =? 0) with true. rewrite !orb_true_r in *. exact H1.
    + subst k2. pose proof (proj2 (find_forgiven w k1 nodes F Hok)) as E. fold w2 in E. rewrite E in H1. cbv beta. change (- RT_EINVAL =? 0) with false. exact H1.
  - split; [exact HK'|]. split; [exact Hc'|]. split; [rewrite Hn'; exact Hnest|]. split; [|intros t Ht; apply Hup', Hup, Ht].
    intros m Hm Hcm. apply elem_of_cons in Hm as [->|Hm].
    + apply Hup'. rewrite Hcan in Hcm. rewrite Hcm in HR. apply HR.
    + destruct (Hother m Hm Hcm) as [Hu|Hc2]; [apply Hup', Hu|exact (Hall m Hm Hc2)].
Qed.
Section Queue.
Context (q : Z) (x : rt_wqueue) (c : Z) (w : wq_store).
Hypothesis HK : kinv (ws_kernel w).
Hypothesis Hc : k_current (ws_kernel w) = Some c.
Hypothesis Hq : ws_queues w !! q = Some x.
Hypothesis Hok : Forall (node_ok w) (wq_list x).
(** A node lies in one queue. *)
Hypothesis Hone : forall n q' y, n ∈ wq_list x -> q' <> q -> ws_queues w !! q' = Some y -> n ∉ wq_list y.

Definition woken_queues (l : list Z) : gmap Z rt_wqueue := <[q := mkWq RT_WQ_FLAG_WAKEUP l]> (ws_queues w).

Lemma unlinked_after n fl : n ∈ wq_list x -> unlinked n (<[q := mkWq fl (filter (fun y => y <> n) (wq_list x))]> (ws_queues w)).
Proof.
  intros Hn q' y Hy. destruct (decide (q' = q)) as [->|Hne].
  - rewrite lookup_insert_eq in Hy. injection Hy as <-. cbn. rewrite list_elem_of_filter. tauto.
  - rewrite lookup_insert_ne in Hy by congruence. exact (Hone n q' y Hn Hne Hy).
Qed.

Lemma unlink_woken n k : n ∈ wq_list x ->
  unlink n (mkWqStore k (woken_queues (wq_list x)) (ws_nodes w)) =
    mkWqStore k (woken_queues (filter (fun y => y <> n) (wq_list x))) (ws_nodes w).
Proof.
  intros Hn. unfold unlink, woken_queues. cbv [set_field]. cbn. f_equal. apply map_eq. intros q'. rewrite lookup_fmap.
  destruct (decide (q' = q)) as [->|Hne]; [rewrite !lookup_insert_eq; reflexivity|rewrite !lookup_insert_ne by congruence].
  destruct (ws_queues w !! q') as [y|] eqn:E; [|reflexivity]. cbn. destruct y as [fl l]. f_equal. f_equal.
  apply filter_ne_notin. exact (Hone n q' _ Hn Hne E).
Qed.

(** C40: rt_wqueue_wakeup wakes the first thread that sleeps and whose node agrees, with
    error RT_EOK, takes its node out and schedules; the thread then returns 0 from its
    wait and clears the flag.  When there is none the flag alone is set, so that the
    next wait does not sleep. *)
Theorem wq_wakeup_behaviour :
  match List.find (can_wake w) (wq_list x) with
  | Some n =>
      exists k', let rest := filter (fun y => y <> n) (wq_list x) in let w' := mkWqStore k' (woken_queues rest) (ws_nodes w) in
        rt_wqueue_wakeup call q key w = Some (tt, w') /\ kinv k' /\ up (thread_at w n) k' /\
        (k_lock_nest (ws_kernel w) = 0 -> runs_most_urgent k') /\
        (forall e, ws_nodes w !! n = Some e -> wn_wqueue e <> 0 -> k_current k' = Some (thread_at w n) ->
           wqueue_wait_resume q n w' = Some (Some 0, mkWqStore k' (<[q := mkWq RT_WQ_FLAG_CLEAN rest]> (ws_queues w)) (ws_nodes w)))
  | None =>
      exists k', rt_wqueue_wakeup call q key w = Some (tt, mkWqStore k' (woken_queues (wq_list x)) (ws_nodes w)) /\
        kinv k' /\ forgiven (ws_kernel w) k'
  end.
Proof.
  set (w1 := mkWqStore (ws_kernel w) (woken_queues (wq_list x)) (ws_nodes w)).
  pose proof (wakeup_loop_total (wq_list x) w1 c HK Hc Hok) as H.
  change (can_wake w1) with (can_wake w) in H. change (thread_at w1) with (thread_at w) in H. change (ws_kernel w1) with (ws_kernel w) in H.
  assert (forall r, rt_wqueue_wakeup call q key w = r <->
    (need ← wakeup_loop call (wq_list x) key; when need (in_kernel rt_schedule)) w1 = r) as Hrun.
  { intros r. unfold rt_wqueue_wakeup. erewrite bind_eq by (apply upd_queue_eq; exact Hq).
    erewrite bind_eq by (apply get_queue_eq, (lookup_insert_eq (ws_queues w))). reflexivity. }
  destruct (List.find (can_wake w) (wq_list x)) as [n|] eqn:Hf.
  - destruct H as (k1 & k2 & F & HK2 & R & U & H). apply find_some in Hf as [Hn%list_elem_of_In _].
    change (w1 <| ws_kernel := k2 |>) with (mkWqStore k2 (woken_queues (wq_list x)) (ws_nodes w)) in H. rewrite (unlink_woken n k2 Hn) in H.
    destruct (rs_current _ _ _ R) as [c2 Hc2].
    destruct (schedule_resumed (thread_at w n) k1 k2 c2 HK2 Hc2 (rs_frame _ _ _ R) (rs_thread _ _ _ R) (rs_others _ _ _ R) (rs_timers _ _ _ R))
      as (k3 & H3 & HK3 & R3).
    exists k3. cbv zeta. split; [apply Hrun; erewrite bind_eq by exact H; exact (in_kernel_eq rt_schedule (mkWqStore k2 _ _) tt k3 H3)|]. split; [exact HK3|].
    assert (up (thread_at w n) k3) as U3.
    { destruct U as (th & Ht & _ & He). destruct (rs_thread _ _ _ R) as (th0 & th1 & E0 & E1 & _ & Ee1).
      destruct (rs_thread _ _ _ R3) as (th0' & th2 & E0' & E2 & Ha & Ee2). exists th2. split; [exact E2|]. split; [exact Ha|]. congruence. }
    split; [exact U3|]. split; [intros Hn0; apply (rs_next _ _ _ R3); rewrite (proj1 (forgiven_nest _ _ F)); exact Hn0|].
    intros e He Hq0 Hcur. destruct U3 as (th & Ht & _ & Her). unfold wqueue_wait_resume.
    erewrite bind_eq by (apply in_kernel_eq, the_self_eq; exact Hcur).
    erewrite bind_eq by (apply upd_queue_eq, (lookup_insert_eq (ws_queues w))).
    erewrite bind_eq by (erewrite remove_eq; [reflexivity|exact He|exact Hq0]).
    unfold wait_result. erewrite bind_eq by (apply in_kernel_eq, get_thread_eq; exact Ht). rewrite Her.
    cbv [set_field]. cbn. unfold woken_queues. rewrite insert_insert_eq. rewrite (remove_unlinked n); [reflexivity|]. apply unlinked_after, Hn.
  - destruct H as (k1 & F & HK1 & H). exists k1. split; [apply Hrun; erewrite bind_eq by exact H; reflexivity|]. split; assumption.
Qed.

(** rt_wqueue_wakeup_all wakes every thread that sleeps and whose node agrees; the
    nodes stay until the threads run. *)
Theorem wq_wakeup_all_behaviour :
  exists k', rt_wqueue_wakeup_all call q key w = Some (tt, mkWqStore k' (woken_queues (wq_list x)) (ws_nodes w)) /\ kinv k' /\
    (forall n, n ∈ wq_list x -> can_wake w n = true -> up (thread_at w n) k') /\
    (k_lock_nest (ws_kernel w) = 0 -> existsb (can_wake w) (wq_list x) = true -> runs_most_urgent k').
Proof.
  set (w1 := mkWqStore (ws_kernel w) (woken_queues (wq_list x)) (ws_nodes w)).
  destruct (wakeup_all_loop_total (wq_list x) w1 c false HK Hc Hok) as (k1 & H & HK1 & [c1 Hc1] & Hnest & Hall & _).
  change (can_wake w1) with (can_wake w) in *. change (thread_at w1) with (thread_at w) in *. cbn [orb] in H.
  assert (forall r, (need ← wakeup_all_loop call (wq_list x) key false; when need (in_kernel rt_schedule)) w1 = r -> rt_wqueue_wakeup_all call q key w = r) as Hrun.
  { intros r <-. unfold rt_wqueue_wakeup_all. erewrite bind_eq by (apply upd_queue_eq; exact Hq).
    erewrite bind_eq by (apply get_queue_eq, (lookup_insert_eq (ws_queues w))). reflexivity. }
  destruct (existsb (can_wake w) (wq_list x)).
  - destruct HK1 as [I1 Q1]. destruct (i_cur _ _ I1 _ Hc1) as [cth Hct].
    destruct (schedule_total k1 c1 cth I1 Hc1 Hct) as (k2 & H2 & I2 & F2 & _). exists k2.
    split; [apply Hrun; erewrite bind_eq by exact H; exact (in_kernel_eq rt_schedule (mkWqStore k1 _ _) tt k2 H2)|].
    split; [split; [exact I2|exact (schedule_idle _ _ _ _ Q1 H2)]|]. split.
    + intros n Hn Hcan. destruct (Hall n Hn Hcan) as (th & Ht & Ha & He).
      destruct (awake_after _ _ _ _ F2 Ht Ha) as (th' & Ht' & Ha' & He'). exists th'. split; [exact Ht'|]. split; [exact Ha'|]. congruence.
    + intros Hn0 _. destruct (schedule_most_urgent k1 c1 cth I1 Hc1 Hct) as (k2' & H2' & _ & _ & M); [rewrite Hnest; exact Hn0|].
      rewrite H2 in H2'. injection H2' as <-. exact M.
  - exists k1. split; [apply Hrun; erewrite bind_eq by exact H; reflexivity|]. split; [exact HK1|]. split; [exact Hall|]. discriminate.
Qed.
End Queue.
End Wake.

(** ** Examples *)

(** Queue 900 with thread 300, at priority 5, running. *)
Definition run_wq {A} (m : WQ A) (w : wq_store) : wq_store := match m w with Some (_, w') => w' | None => w end.
Definition returned {A} (m : WQ A) (w : wq_store) : option A := fst <$> m w.
Definition no_functions (f n key : Z) : WQ Z := mret 1.

Definition wq0 : wq_store := run_wq (rt_wqueue_init 900) (mkWqStore (k_two 5) ∅ ∅).
Definition wq1 : wq_store := run_wq (rt_wqueue_wait 900 0 50 901) wq0.

Lemma wq0_in_thread : in_thread 300 (thread_of (k_two 5) 300) (ws_kernel wq0).
Proof. split; try (vm_compute; reflexivity). apply k_two_kinv. lia. Qed.

Lemma unlinked_empty n : unlinked n (ws_queues wq0).
Proof.
  intros q x H. change (ws_queues wq0) with (<[900 := mkWq RT_WQ_FLAG_CLEAN []]> (∅ : gmap Z rt_wqueue)) in H.
  destruct (decide (q = 900)) as [->|Hne]; [rewrite lookup_insert_eq in H; injection H as <-; apply not_elem_of_nil|].
  rewrite lookup_insert_ne in H by congruence. discriminate H.
Qed.

Lemma wq_wait_behaviour_witness :
  in_thread 300 (thread_of (k_two 5) 300) (ws_kernel wq0) /\ ws_queues wq0 !! 900 = Some (mkWq RT_WQ_FLAG_CLEAN []) /\
  exists k', kinv k' /\ dozing 300 50 (with_error 300 (thread_of (k_two 5) 300) RT_EOK (ws_kernel wq0)) k' /\
    exists w', rt_wqueue_wait 900 0 50 901 wq0 = Some (None, w') /\ ws_kernel w' = k'.
Proof.
  split; [exact wq0_in_thread|]. assert (ws_queues wq0 !! 900 = Some (mkWq RT_WQ_FLAG_CLEAN [])) as Hq by (vm_compute; reflexivity).
  split; [exact Hq|].
  pose proof (wq_wait_behaviour 900 (mkWq RT_WQ_FLAG_CLEAN []) 300 (thread_of (k_two 5) 300) wq0 wq0_in_thread Hq ltac:(discriminate)
    50 901 RT_UNINTERRUPTIBLE (unlinked_empty 901) ltac:(change HALF_TICK with 2147483647; lia) ltac:(discriminate)) as H.
  destruct H as (k' & HK & D & _ & E). exists k'. split; [exact HK|]. split; [exact D|]. eexists. split; [exact E|reflexivity].
Defined.

Lemma wq1_kinv : kinv (ws_kernel wq1).
Proof.
  destruct (wq_wait_sleeps 900 (mkWq RT_WQ_FLAG_CLEAN []) 300 (thread_of (k_two 5) 300) wq0 wq0_in_thread ltac:(vm_compute; reflexivity)
    50 901 RT_UNINTERRUPTIBLE ltac:(change HALF_TICK with 2147483647; lia) ltac:(discriminate) ltac:(discriminate)) as (k' & HK & _ & _ & E).
  unfold wq1, run_wq, rt_wqueue_wait. rewrite E. exact HK.
Qed.

Lemma wq1_queue : ws_queues wq1 !! 900 = Some (mkWq RT_WQ_FLAG_CLEAN [901]) /\ ws_nodes wq1 !! 901 = Some (mkWqNode 300 900 0 0).
Proof. vm_compute. split; reflexivity. Qed.

Lemma wq1_nodes_ok : Forall (node_ok wq1) [901].
Proof.
  repeat constructor; [eexists; vm_compute; reflexivity|]. exists (thread_of (ws_kernel wq1) 300).
  split; [vm_compute; reflexivity|]. split; [vm_compute; reflexivity|]. intros _. vm_compute. reflexivity.
Qed.

Lemma wq1_one : forall n q' y, n ∈ [901] -> q' <> 900 -> ws_queues wq1 !! q' = Some y -> n ∉ wq_list y.
Proof.
  intros n q' y _ Hq H.
  assert (map_to_list (ws_queues wq1) = [(900, mkWq RT_WQ_FLAG_CLEAN [901])]) as E by (vm_compute; reflexivity).
  apply elem_of_map_to_list in H. rewrite E in H. apply list_elem_of_singleton in H. injection H as -> _. contradiction.
Qed.

(** Thread 100 wakes thread 300. *)
Lemma wq_wakeup_behaviour_witness :
  List.find (can_wake (fun _ _ _ => 1) 7 wq1) [901] = Some 901 /\
  exists w', rt_wqueue_wakeup no_functions 900 7 wq1 = Some (tt, w') /\ up 300 (ws_kernel w') /\
    ws_queues w' !! 900 = Some (mkWq RT_WQ_FLAG_WAKEUP []).
Proof.
  assert (List.find (can_wake (fun _ _ _ => 1) 7 wq1) [901] = Some 901) as Hf by (vm_compute; reflexivity). split; [exact Hf|].
  pose proof (wq_wakeup_behaviour no_functions (fun _ _ _ => 1) 7 (fun _ _ _ => eq_refl) 900 (mkWq RT_WQ_FLAG_CLEAN [901]) 100 wq1
    wq1_kinv ltac:(vm_compute; reflexivity) (proj1 wq1_queue) wq1_nodes_ok wq1_one) as H.
  cbn [wq_list] in H. rewrite Hf in H. destruct H as (k' & H1 & _ & H2 & _). eexists. split; [exact H1|]. split; [exact H2|].
  apply lookup_insert_eq.
Defined.

Lemma wq_wakeup_all_behaviour_witness :
  can_wake (fun _ _ _ => 1) 7 wq1 901 = true /\
  exists w', rt_wqueue_wakeup_all no_functions 900 7 wq1 = Some (tt, w') /\ up 300 (ws_kernel w') /\
    ws_queues w' !! 900 = Some (mkWq RT_WQ_FLAG_WAKEUP [901]).
Proof.
  assert (can_wake (fun _ _ _ => 1) 7 wq1 901 = true) as Hf by (vm_compute; reflexivity). split; [exact Hf|].
  destruct (wq_wakeup_all_behaviour no_functions (fun _ _ _ => 1) 7 (fun _ _ _ => eq_refl) 900 (mkWq RT_WQ_FLAG_CLEAN [901]) 100 wq1
    wq1_kinv ltac:(vm_compute; reflexivity) (proj1 wq1_queue) wq1_nodes_ok) as (k' & H1 & _ & H2 & _). eexists. split; [exact H1|].
  split; [|apply lookup_insert_eq]. exact (H2 901 ltac:(apply list_elem_of_here) Hf).
Defined.

(** A wakeup before the wait is not lost: the next wait returns at once. *)
Example wq_not_lost :
  let w := run_wq (rt_wqueue_wakeup no_functions 900 0) wq0 in
  returned (rt_wqueue_wait 900 0 50 901) w = Some (Some 0) /\
  returned (rt_wqueue_wait 900 0 50 901) (run_wq (rt_wqueue_wait 900 0 50 901) w) = Some None.
Proof. vm_compute. split; reflexivity. Qed.

(** Threads 300 and 100 wait.  The time of 300 is over, but a wakeup comes before it
    runs: the wakeup goes to 100, and 300 returns 0 as well, not -RT_ETIMEOUT. *)
Example wq_one_wakeup_two_returns :
  let w2 := run_wq (rt_wqueue_wait 900 0 (-1) 902) wq1 in
  let w3 := run_wq (in_kernel (_thread_timeout 300)) w2 in
  returned (wqueue_wait_resume 900 901) w3 = Some (Some (- RT_ETIMEOUT)) /\
  let w4 := run_wq (rt_wqueue_wakeup no_functions 900 0) w3 in
  k_current (ws_kernel w4) = Some 300 /\ returned (wqueue_wait_resume 900 901) w4 = Some (Some 0) /\ up 100 (ws_kernel w4) /\
  (wq_list <$> ws_queues w4 !! 900) = Some [901].
Proof.
  vm_compute. split; [reflexivity|]. split; [reflexivity|]. split; [reflexivity|]. split; [|reflexivity].
  eexists. split; [reflexivity|]. split; [left; reflexivity|reflexivity].
Qed.

(** A condition that holds ends the wait although the queue was never woken. *)
Example wq_condition : returned (rt_wqueue_wait 900 1 (-1) 901) wq0 = Some (Some 0).
Proof. vm_compute. reflexivity. Qed.
