(* ===== verification/KStringProps.v ===== *)
(** * The memory and string functions: what they do

    The word-wise versions agree with the byte-wise ones; copying and moving; the
    order of strings, searching, the copies of strings.  [cstr m a l]: the string
    [l] with its end is at [a]. *)

From stdpp Require Import gmap.
From S2P Require Import Prelude Bytes KString.
Open Scope rt_scope.

(** ** Whole loops *)

Lemma set_bytes_eq n a d m : set_bytes n a d m = stores a (replicate n d) m.
Proof.
  revert a m. induction n as [|n IH]; intros a m; [reflexivity|]. cbn. unfold mbind, st_bind.
  destruct (sb a d m) as [[[] m1]|]; [apply IH|reflexivity].
Qed.

Lemma stores_then a l1 l2 m : stores a (l1 ++ l2) m =
  match stores a l1 m with Some (_, m') => stores (a + Z.of_nat (length l1)) l2 m' | None => None end.
Proof. rewrite stores_app. unfold mbind, st_bind. destruct (stores a l1 m) as [[[] ?]|]; reflexivity. Qed.

(** Storing [n] times the byte [d], then going on. *)
Definition filled {A} (a : Z) (n : nat) (d : Z) (x : A) (m : bytes) : option (A * bytes) :=
  match stores a (replicate n d) m with Some (_, m') => Some (x, m') | None => None end.

Lemma filled_app {A} a n1 n2 d (x : A) m : filled a (n1 + n2) d x m =
  match stores a (replicate n1 d) m with Some (_, m') => filled (a + Z.of_nat n1) n2 d x m' | None => None end.
Proof.
  unfold filled. rewrite replicate_add, stores_then, length_replicate.
  destruct (stores a (replicate n1 d) m) as [[[] ?]|]; reflexivity.
Qed.

Lemma words_step count k : k <= count -> 0 < k ->
  exists q, Z.to_nat (count / k) = S q /\ Z.to_nat ((count - k) / k) = q /\ count mod k = (count - k) mod k.
Proof.
  intros H Hk. exists (Z.to_nat ((count - k) / k)). pose proof (Z.div_pos (count - k) k).
  assert (count / k = (count - k) / k + 1) as -> by (rewrite <- (Z.div_add (count - k) 1 k) by lia; f_equal; lia).
  assert (count mod k = (count - k) mod k) as -> by (rewrite <- (Z_mod_plus_full (count - k) 1 k); f_equal; lia).
  split; [lia|auto].
Qed.

Lemma set_words_eq d fuel : forall a count m, 0 <= count -> (Z.to_nat count < fuel)%nat ->
  set_words fuel a count [d; d; d; d] m =
    filled a (4 * Z.to_nat (count / 4)) d (a + 4 * (count / 4), count mod 4) m.
Proof.
  induction fuel as [|fuel IH]; intros a count m Hc Hf; [lia|]. cbn [set_words]. change LBLOCKSIZE with 4.
  destruct (Z.leb_spec 4 count).
  - destruct (words_step count 4) as (q & E1 & E2 & E3); [lia..|].
    replace (4 * Z.to_nat (count / 4))%nat with (4 + 4 * q)%nat by lia. rewrite filled_app. change (replicate 4 d) with [d; d; d; d].
    unfold mbind, st_bind, sw. destruct (stores a [d; d; d; d] m) as [[[] m1]|]; [|reflexivity].
    rewrite IH by lia. rewrite E2, E3. do 2 f_equal. change (Z.of_nat 4) with 4. Z.to_euclidean_division_equations; lia.
  - rewrite Z.div_small, Z.mod_small by lia. unfold filled. cbn. rewrite Z.add_0_r. reflexivity.
Qed.

Lemma sw4_eq {A} a d m (f : unit -> BM A) :
  (sw a [d; d; d; d];; sw (a + 4) [d; d; d; d];; sw (a + 8) [d; d; d; d];; (x ← sw (a + 12) [d; d; d; d]; f x)) m =
  match stores a (replicate 16 d) m with Some (_, m') => f tt m' | None => None end.
Proof.
  change (replicate 16 d) with ([d; d; d; d] ++ [d; d; d; d] ++ [d; d; d; d] ++ [d; d; d; d]). unfold mbind, st_bind, sw.
  rewrite !stores_then. destruct (stores a [d; d; d; d] m) as [[[] m1]|]; [|reflexivity]. rewrite stores_then.
  change (a + Z.of_nat (length [d; d; d; d])) with (a + 4). destruct (stores (a + 4) [d; d; d; d] m1) as [[[] m2]|]; [|reflexivity].
  rewrite stores_then. change (a + 4 + Z.of_nat (length [d; d; d; d])) with (a + 4 + 4). replace (a + 4 + 4) with (a + 8) by lia.
  destruct (stores (a + 8) [d; d; d; d] m2) as [[[] m3]|]; [|reflexivity].
  change (a + 8 + Z.of_nat (length [d; d; d; d])) with (a + 8 + 4). replace (a + 8 + 4) with (a + 12) by lia.
  destruct (stores (a + 12) [d; d; d; d] m3) as [[[] m4]|]; reflexivity.
Qed.

Lemma set_blocks_eq d fuel : forall a count m, 0 <= count -> (Z.to_nat count < fuel)%nat ->
  set_blocks fuel a count [d; d; d; d] m =
    filled a (16 * Z.to_nat (count / 16)) d (a + 16 * (count / 16), count mod 16) m.
Proof.
  induction fuel as [|fuel IH]; intros a count m Hc Hf; [lia|]. cbn [set_blocks]. change LBLOCKSIZE with 4. change (4 * 4) with 16.
  destruct (Z.leb_spec 16 count).
  - destruct (words_step count 16) as (q & E1 & E2 & E3); [lia..|].
    replace (16 * Z.to_nat (count / 16))%nat with (16 + 16 * q)%nat by lia. rewrite filled_app, sw4_eq.
    destruct (stores a (replicate 16 d) m) as [[[] m1]|]; [|reflexivity].
    rewrite IH by lia. rewrite E2, E3. do 2 f_equal. change (Z.of_nat 16) with 16. Z.to_euclidean_division_equations; lia.
  - rewrite Z.div_small, Z.mod_small by lia. unfold filled. cbn. rewrite Z.add_0_r. reflexivity.
Qed.

(** [rt_memset] with word accesses stores the same bytes as the byte-wise version,
    for every address and length; both fail exactly when some byte does not exist. *)
Theorem memset_versions_agree s c count m : 0 <= count ->
  rt_memset s c count m = rt_memset_tiny s c count m /\
  rt_memset s c count m =
    if decide (mapped m s (Z.to_nat count)) then Some (s, write_list s (replicate (Z.to_nat count) (u8 c)) m) else None.
Proof.
  intros Hc. assert (Z.land c 255 = u8 c) as Hd by (change 255 with (Z.ones 8); rewrite Z.land_ones by lia; reflexivity).
  assert (rt_memset_tiny s c count m = filled s (Z.to_nat count) (u8 c) s m) as Et.
  { unfold rt_memset_tiny, mbind, st_bind. rewrite set_bytes_eq. reflexivity. }
  assert (rt_memset s c count m = filled s (Z.to_nat count) (u8 c) s m) as Ef.
  { unfold rt_memset. rewrite Hd. set (d := u8 c). destruct (negb (count <? LBLOCKSIZE) && negb (UNALIGNED s)).
    - unfold mbind, st_bind. rewrite set_blocks_eq by lia.
      assert (Z.to_nat count = 16 * Z.to_nat (count / 16) + (4 * Z.to_nat (count mod 16 / 4) + Z.to_nat (count mod 16 mod 4)))%nat as Hn
        by (Z.to_euclidean_division_equations; lia).
      rewrite Hn.
      rewrite !filled_app. unfold filled at 1. destruct (stores s _ m) as [[[] m1]|]; [|reflexivity].
      rewrite set_words_eq by (Z.to_euclidean_division_equations; lia).
      replace (s + Z.of_nat (16 * Z.to_nat (count / 16))) with (s + 16 * (count / 16)) by (Z.to_euclidean_division_equations; lia).
      rewrite filled_app. unfold filled at 1.
      destruct (stores (s + 16 * (count / 16)) _ m1) as [[[] m2]|]; [|reflexivity]. rewrite set_bytes_eq. unfold filled.
      replace (s + 16 * (count / 16) + Z.of_nat (4 * Z.to_nat (count mod 16 / 4))) with (s + 16 * (count / 16) + 4 * (count mod 16 / 4))
        by (Z.to_euclidean_division_equations; lia).
      reflexivity.
    - unfold mbind, st_bind. cbn. rewrite set_bytes_eq. reflexivity. }
  split; [congruence|]. rewrite Ef. unfold filled. rewrite stores_eq, length_replicate. destruct (decide _); reflexivity.
Qed.

(** ** Copies *)

(** The bytes at [s] as they are now, at [d]. *)
Definition moved (d s : Z) (n : nat) (m : bytes) : option (unit * bytes) :=
  if decide (mapped m s n /\ mapped m d n) then Some (tt, write_list d (read_list m s n) m) else None.

Lemma read_list_ext m m' a n : (forall i, a <= i < a + Z.of_nat n -> m' !! i = m !! i) -> read_list m' a n = read_list m a n.
Proof.
  intros H. unfold read_list. apply map_ext_in. intros i Hi%in_seq. rewrite H by lia. reflexivity.
Qed.

Lemma copy_up_spec n : forall d s m, d <= s \/ s + Z.of_nat n <= d -> copy_up n d s m = moved d s n m.
Proof.
  induction n as [|n IH]; intros d s m Hd.
  - unfold moved. rewrite decide_True by (split; intros i Hi; lia). reflexivity.
  - cbn [copy_up]. unfold moved. unfold mbind, st_bind. destruct (m !! s) as [x|] eqn:E.
    2: { rewrite ld_none by exact E. rewrite decide_False; [reflexivity|]. rewrite mapped_S, E. intros [[[? [=]] _] _]. }
    rewrite (ld_eq _ _ _ E), sb_eq. destruct (decide (is_Some (m !! d))) as [Hs|Hs].
    2: { rewrite decide_False; [reflexivity|]. rewrite (mapped_S m d). tauto. }
    rewrite IH by lia. unfold moved. rewrite read_list_S, E. cbn [default write_list].
    rewrite (read_list_ext m) by (intros i Hi; apply lookup_insert_ne; lia).
    erewrite decide_ext; [reflexivity|]. rewrite !mapped_insert by exact Hs. rewrite !mapped_S, E. split; [|tauto].
    intros [H1 H2]. split; split; auto.
Qed.

Lemma read_list_snoc m a n : read_list m a (S n) = read_list m a n ++ [default 0 (m !! (a + Z.of_nat n))].
Proof. unfold read_list. rewrite seq_S, map_app. reflexivity. Qed.

Lemma mapped_snoc m a n : mapped m a (S n) <-> mapped m a n /\ is_Some (m !! (a + Z.of_nat n)).
Proof.
  replace (S n) with (n + 1)%nat by lia. rewrite mapped_app, mapped_S. split; [tauto|]. intros [H1 H2]. split; [exact H1|].
  split; [exact H2|]. intros i Hi. lia.
Qed.

Lemma write_insert_behind a l i x m : a + Z.of_nat (length l) = i -> write_list a l (<[i := x]> m) = write_list a (l ++ [x]) m.
Proof.
  intros <-. rewrite write_list_app. cbn. apply map_eq. intros j. rewrite write_list_lookup.
  destruct (Z.eq_dec j (a + Z.of_nat (length l))) as [->|Hne].
  - rewrite decide_False by lia. rewrite !lookup_insert_eq. reflexivity.
  - rewrite !lookup_insert_ne by lia. rewrite write_list_lookup. reflexivity.
Qed.

Lemma copy_down_spec n : forall d s m, s <= d \/ d + Z.of_nat n <= s ->
  copy_down n (d + Z.of_nat n) (s + Z.of_nat n) m = moved d s n m.
Proof.
  induction n as [|n IH]; intros d s m Hd.
  - unfold moved. rewrite decide_True by (split; intros i Hi; lia). reflexivity.
  - cbn [copy_down]. unfold moved. unfold mbind, st_bind.
    replace (s + Z.of_nat (S n) - 1) with (s + Z.of_nat n) by lia. replace (d + Z.of_nat (S n) - 1) with (d + Z.of_nat n) by lia.
    destruct (m !! (s + Z.of_nat n)) as [x|] eqn:E.
    2: { rewrite ld_none by exact E. rewrite decide_False; [reflexivity|]. rewrite mapped_snoc, E. intros [[_ [? [=]]] _]. }
    rewrite (ld_eq _ _ _ E), sb_eq. destruct (decide (is_Some (m !! (d + Z.of_nat n)))) as [Hs|Hs].
    2: { rewrite decide_False; [reflexivity|]. rewrite (mapped_snoc m d). tauto. }
    rewrite IH by lia. unfold moved. rewrite read_list_snoc, E. cbn [default].
    rewrite (read_list_ext m) by (intros i Hi; apply lookup_insert_ne; lia).
    rewrite write_insert_behind by (rewrite read_list_length; reflexivity).
    erewrite decide_ext; [reflexivity|]. rewrite !mapped_insert by exact Hs. rewrite !mapped_snoc, E. split; [|tauto].
    intros [H1 H2]. split; split; auto.
Qed.

Lemma memmove_spec d s n m : 0 <= n ->
  rt_memmove d s n m = (r ← moved d s (Z.to_nat n) m; Some (d, r.2)) /\
  rt_memcpy_tiny d s n m = (r ← moved d s (Z.to_nat n) m; Some (d, r.2)).
Proof.
  intros Hn.
  assert (forall f : BM unit, f m = moved d s (Z.to_nat n) m -> (f;; mret d) m = (r ← moved d s (Z.to_nat n) m; Some (d, r.2))) as H.
  { intros f E. unfold mbind at 1, st_bind. rewrite E. destruct (moved d s (Z.to_nat n) m) as [[[] m']|]; reflexivity. }
  split; apply H.
  - destruct (Z.ltb_spec s d), (Z.ltb_spec d (s + n)); cbn [andb]; try (apply copy_up_spec; lia).
    pose proof (copy_down_spec (Z.to_nat n) d s m) as E. rewrite !Z2Nat.id in E by lia. apply E. lia.
  - destruct (Z.leb_spec d s), (Z.ltb_spec (s + n) d); cbn [orb]; try (apply copy_up_spec; lia).
    pose proof (copy_down_spec (Z.to_nat n) d s m) as E. rewrite !Z2Nat.id in E by lia. apply E. lia.
Qed.

(** C26: [rt_memmove] and the byte-wise [rt_memcpy] move the bytes of any two blocks,
    overlapping or not, as if all had been read before the first is written; they
    fail exactly when a byte of one of the blocks does not exist. *)
Theorem memmove_moves d s n m : 0 <= n ->
  rt_memmove d s n m = (r ← moved d s (Z.to_nat n) m; Some (d, r.2)) /\
  rt_memcpy_tiny d s n m = (r ← moved d s (Z.to_nat n) m; Some (d, r.2)).
Proof. apply memmove_spec. Qed.

Lemma copy_up_app n1 n2 : forall d s m, copy_up (n1 + n2) d s m =
  match copy_up n1 d s m with Some (_, m') => copy_up n2 (d + Z.of_nat n1) (s + Z.of_nat n1) m' | None => None end.
Proof.
  induction n1 as [|n1 IH]; intros d s m; [cbn; rewrite !Z.add_0_r; reflexivity|]. cbn [Nat.add copy_up].
  unfold mbind, st_bind. destruct (ld s m) as [[x m1]|]; [|reflexivity]. destruct (sb d x m1) as [[[] m2]|]; [|reflexivity].
  rewrite IH. destruct (copy_up n1 (d + 1) (s + 1) m2) as [[[] m3]|]; [|reflexivity].
  replace (d + 1 + Z.of_nat n1) with (d + Z.of_nat (S n1)) by lia. replace (s + 1 + Z.of_nat n1) with (s + Z.of_nat (S n1)) by lia. reflexivity.
Qed.

(** A word is read before it is written; on aligned addresses this makes no difference. *)
Lemma copy_word_eq d s m : d <= s \/ s + 4 <= d -> copy_word d s m = copy_up 4 d s m.
Proof.
  intros H. rewrite copy_up_spec by lia. unfold copy_word, lw, sw, moved, mbind, st_bind. rewrite loads_eq.
  destruct (decide (mapped m s 4)) as [H1|H1].
  - rewrite stores_eq, read_list_length. destruct (decide (mapped m d 4)); [rewrite decide_True by auto|rewrite decide_False by tauto]; reflexivity.
  - rewrite decide_False by tauto. reflexivity.
Qed.

Section Memcpy.
Context (gap : Z -> Z -> Prop) (gap_ok : forall d s, gap d s -> d <= s \/ s + 4 <= d) (gap_shift : forall d s k, gap d s -> gap (d + k) (s + k)).

Definition copied {A} (d s : Z) (n : nat) (x : A) (m : bytes) : option (A * bytes) :=
  match copy_up n d s m with Some (_, m') => Some (x, m') | None => None end.

Lemma copied_app {A} d s n1 n2 (x : A) m : copied d s (n1 + n2) x m =
  match copy_up n1 d s m with Some (_, m') => copied (d + Z.of_nat n1) (s + Z.of_nat n1) n2 x m' | None => None end.
Proof. unfold copied. rewrite copy_up_app. destruct (copy_up n1 d s m) as [[[] ?]|]; reflexivity. Qed.

Lemma copy_words_eq fuel : forall d s len m, gap d s -> 0 <= len -> (Z.to_nat len < fuel)%nat ->
  copy_words fuel d s len m = copied d s (4 * Z.to_nat (len / 4)) (d + 4 * (len / 4), s + 4 * (len / 4), len mod 4) m.
Proof.
  induction fuel as [|fuel IH]; intros d s len m Hg Hc Hf; [lia|]. cbn [copy_words]. change LITTLEBLOCKSIZE with 4.
  destruct (Z.leb_spec 4 len).
  - destruct (words_step len 4) as (q & E1 & E2 & E3); [lia..|].
    replace (4 * Z.to_nat (len / 4))%nat with (4 + 4 * q)%nat by lia. rewrite copied_app.
    unfold mbind, st_bind. rewrite copy_word_eq by (apply gap_ok, Hg). destruct (copy_up 4 d s m) as [[[] m1]|]; [|reflexivity].
    rewrite IH by (lia || apply gap_shift, Hg). rewrite E2, E3. change (Z.of_nat 4) with 4. unfold copied.
    assert (forall a, a + 4 + 4 * ((len - 4) / 4) = a + 4 * (len / 4)) as Ha by (intros; Z.to_euclidean_division_equations; lia).
    rewrite !Ha. destruct (copy_up (4 * q) (d + 4) (s + 4) m1) as [[[] m2]|]; reflexivity.
  - rewrite Z.div_small, Z.mod_small by lia. unfold copied. cbn. rewrite !Z.add_0_r. reflexivity.
Qed.

Lemma copy_word4_eq {A} d s m (f : unit -> BM A) : gap d s ->
  (copy_word d s;; copy_word (d + 4) (s + 4);; copy_word (d + 8) (s + 8);; (x ← copy_word (d + 12) (s + 12); f x)) m =
  match copy_up 16 d s m with Some (_, m') => f tt m' | None => None end.
Proof.
  intros Hg. change 16%nat with (4 + (4 + (4 + 4)))%nat. rewrite !copy_up_app. unfold mbind, st_bind.
  assert (forall k m0, copy_word (d + k) (s + k) m0 = copy_up 4 (d + k) (s + k) m0) as Hw by (intros; apply copy_word_eq, gap_ok, gap_shift, Hg).
  rewrite copy_word_eq by (apply gap_ok, Hg). destruct (copy_up 4 d s m) as [[[] m1]|]; [|reflexivity]. rewrite Hw, copy_up_app.
  change (Z.of_nat 4) with 4. destruct (copy_up 4 (d + 4) (s + 4) m1) as [[[] m2]|]; [|reflexivity]. rewrite Hw, copy_up_app.
  change (Z.of_nat 4) with 4. replace (d + 4 + 4) with (d + 8) by lia. replace (s + 4 + 4) with (s + 8) by lia.
  destruct (copy_up 4 (d + 8) (s + 8) m2) as [[[] m3]|]; [|reflexivity]. rewrite Hw.
  replace (d + 8 + 4) with (d + 12) by lia. replace (s + 8 + 4) with (s + 12) by lia.
  destruct (copy_up 4 (d + 12) (s + 12) m3) as [[[] m4]|]; reflexivity.
Qed.

Lemma copy_blocks_eq fuel : forall d s len m, gap d s -> 0 <= len -> (Z.to_nat len < fuel)%nat ->
  copy_blocks fuel d s len m = copied d s (16 * Z.to_nat (len / 16)) (d + 16 * (len / 16), s + 16 * (len / 16), len mod 16) m.
Proof.
  induction fuel as [|fuel IH]; intros d s len m Hg Hc Hf; [lia|]. cbn [copy_blocks]. change BIGBLOCKSIZE with 16.
  destruct (Z.leb_spec 16 len).
  - destruct (words_step len 16) as (q & E1 & E2 & E3); [lia..|].
    replace (16 * Z.to_nat (len / 16))%nat with (16 + 16 * q)%nat by lia. rewrite copied_app, copy_word4_eq by exact Hg.
    destruct (copy_up 16 d s m) as [[[] m1]|]; [|reflexivity].
    rewrite IH by (lia || apply gap_shift, Hg). rewrite E2, E3. change (Z.of_nat 16) with 16. unfold copied.
    assert (forall a, a + 16 + 16 * ((len - 16) / 16) = a + 16 * (len / 16)) as Ha by (intros; Z.to_euclidean_division_equations; lia).
    rewrite !Ha. destruct (copy_up (16 * q) (d + 16) (s + 16) m1) as [[[] m2]|]; reflexivity.
  - rewrite Z.div_small, Z.mod_small by lia. unfold copied. cbn. rewrite !Z.add_0_r. reflexivity.
Qed.
End Memcpy.

Definition aligned_gap (d s : Z) : Prop := (d - s) mod 4 = 0.

Lemma aligned_gap_ok d s : aligned_gap d s -> d <= s \/ s + 4 <= d.
Proof. unfold aligned_gap. intros. Z.to_euclidean_division_equations; lia. Qed.
Lemma aligned_gap_shift d s k : aligned_gap d s -> aligned_gap (d + k) (s + k).
Proof. unfold aligned_gap. intros. replace (d + k - (s + k)) with (d - s) by lia. assumption. Qed.

Lemma aligned2 d s : UNALIGNED2 s d = false -> aligned_gap d s.
Proof.
  unfold UNALIGNED2, aligned_gap. intros H. apply negb_false_iff, Z.eqb_eq, Z.lor_eq_0_iff in H as [H1 H2].
  change (LBLOCKSIZE - 1) with (Z.ones 2) in *. rewrite Z.land_ones in * by lia. change (2 ^ 2) with 4 in *.
  Z.to_euclidean_division_equations; lia.
Qed.

Lemma memcpy_copy_up d s n m : 0 <= n -> rt_memcpy d s n m = (copy_up (Z.to_nat n) d s;; mret d) m.
Proof.
  intros Hn. unfold rt_memcpy. destruct (negb (n <? BIGBLOCKSIZE)); cbn [andb]; [|reflexivity].
  destruct (UNALIGNED2 s d) eqn:Ea; cbn [negb]; [reflexivity|]. apply aligned2 in Ea.
  assert (Z.to_nat n = 16 * Z.to_nat (n / 16) + (4 * Z.to_nat (n mod 16 / 4) + Z.to_nat (n mod 16 mod 4)))%nat as Hs
    by (Z.to_euclidean_division_equations; lia).
  unfold mbind, st_bind. rewrite (copy_blocks_eq aligned_gap aligned_gap_ok aligned_gap_shift) by (exact Ea || lia).
  rewrite Hs, !copy_up_app. unfold copied. destruct (copy_up _ d s m) as [[[] m1]|]; [|reflexivity].
  rewrite (copy_words_eq aligned_gap aligned_gap_ok aligned_gap_shift)
    by (apply aligned_gap_shift, Ea || (Z.to_euclidean_division_equations; lia)).
  unfold copied. rewrite copy_up_app.
  assert (Z.of_nat (16 * Z.to_nat (n / 16)) = 16 * (n / 16)) as -> by (Z.to_euclidean_division_equations; lia).
  assert (Z.of_nat (4 * Z.to_nat (n mod 16 / 4)) = 4 * (n mod 16 / 4)) as -> by (Z.to_euclidean_division_equations; lia).
  destruct (copy_up _ (d + 16 * (n / 16)) _ m1) as [[[] m2]|]; [|reflexivity].
  reflexivity.
Qed.

(** When the destination is not inside the source behind its start. *)
Lemma memcpy_memmove d s n m : 0 <= n -> d <= s \/ s + n <= d -> rt_memcpy d s n m = rt_memmove d s n m.
Proof.
  intros Hn Hd. rewrite memcpy_copy_up by exact Hn. unfold rt_memmove.
  destruct (Z.ltb_spec s d), (Z.ltb_spec d (s + n)); cbn [andb]; try reflexivity. lia.
Qed.

(** [rt_memcpy] with word accesses is the byte-wise copy from the lowest address
    on, for all addresses and lengths; when the destination is not inside the source
    behind its start, it moves the bytes as [rt_memmove] does. *)
Theorem memcpy_bytewise d s n m : 0 <= n ->
  rt_memcpy d s n m = (copy_up (Z.to_nat n) d s;; mret d) m /\
  (d <= s \/ s + n <= d -> rt_memcpy d s n m = rt_memmove d s n m).
Proof. intros Hn. split; [apply memcpy_copy_up, Hn|apply memcpy_memmove, Hn]. Qed.

(** ** Strings *)

Definition chars_ok (l : list Z) : Prop := Forall (fun c => 0 < c < 256) l.
Definition cstr (m : bytes) (a : Z) (l : list Z) : Prop := holds m a (l ++ [0]) /\ chars_ok l.

(** The string at [s] is not in the [n] bytes from [a] on. *)
Definition string_apart (a n s : Z) (nm : list Z) : Prop := a + n <= s \/ s + Z.of_nat (length nm) + 1 <= a.

Lemma cstr_cons m a c l : cstr m a (c :: l) <-> m !! a = Some c /\ 0 < c < 256 /\ cstr m (a + 1) l.
Proof. unfold cstr, chars_ok. cbn [app]. rewrite holds_cons, Forall_cons. tauto. Qed.

Lemma cstr_nil m a : cstr m a [] <-> m !! a = Some 0.
Proof. unfold cstr, chars_ok. cbn [app]. rewrite holds_cons. split; [tauto|]. intros H. split; [split; [exact H|apply holds_nil]|constructor]. Qed.

Lemma cstr_fuel m a l : cstr m a l -> (length l < str_fuel m)%nat.
Proof.
  intros [H _]. apply holds_mapped, mapped_size in H. rewrite length_app in H. cbn in H. unfold str_fuel. lia.
Qed.

Lemma strlen_loop_eq l : forall fuel a m, cstr m a l -> (length l < fuel)%nat ->
  strlen_loop fuel a m = Some (a + Z.of_nat (length l), m).
Proof.
  induction l as [|c l IH]; intros [|fuel] a m H Hf; cbn [length] in *; try lia; cbn [strlen_loop].
  - apply cstr_nil in H. erewrite bind_eq by (apply ld_eq, H). cbn. rewrite Z.add_0_r. reflexivity.
  - apply cstr_cons in H as (H & Hc & H'). erewrite bind_eq by (apply ld_eq, H). rewrite (proj2 (Z.eqb_neq c 0)) by lia.
    rewrite IH by (assumption || lia). apply ret_eq. lia.
Qed.

Lemma strlen_eq a l m : cstr m a l -> rt_strlen a m = Some (Z.of_nat (length l), m).
Proof.
  intros H. unfold rt_strlen. erewrite bind_eq by reflexivity.
  erewrite bind_eq by (apply strlen_loop_eq; [exact H|apply (cstr_fuel _ _ _ H)]). cbn. apply ret_eq. lia.
Qed.

Lemma strnlen_loop_eq l : forall fuel s a m maxlen, cstr m a l -> (length l < fuel)%nat -> a - s <= maxlen ->
  strnlen_loop fuel s a maxlen m = Some (s + Z.min maxlen (a - s + Z.of_nat (length l)), m).
Proof.
  induction l as [|c l IH]; intros [|fuel] s a m maxlen H Hf Hm; cbn [length] in *; try lia; cbn [strnlen_loop].
  - apply cstr_nil in H. erewrite bind_eq by (apply ld_eq, H). cbn. apply ret_eq. lia.
  - apply cstr_cons in H as (H & Hc & H'). erewrite bind_eq by (apply ld_eq, H). rewrite (proj2 (Z.eqb_neq c 0)) by lia. cbn [negb andb].
    destruct (Z.ltb_spec (a - s) maxlen).
    + rewrite IH by (assumption || lia). apply ret_eq. lia.
    + cbn. apply ret_eq. lia.
Qed.

Lemma strnlen_eq a l m maxlen : cstr m a l -> 0 <= maxlen -> rt_strnlen a maxlen m = Some (Z.min maxlen (Z.of_nat (length l)), m).
Proof.
  intros H Hm. unfold rt_strnlen. erewrite bind_eq by reflexivity.
  erewrite bind_eq by (apply strnlen_loop_eq; [exact H|apply (cstr_fuel _ _ _ H)|lia]). cbn. apply ret_eq. lia.
Qed.

(** [rt_strnlen] reads the byte behind a string that fills its [maxlen] bytes. *)
Theorem strnlen_over_read a l m : holds m a l -> chars_ok l -> m !! (a + Z.of_nat (length l)) = None ->
  rt_strnlen a (Z.of_nat (length l)) m = None.
Proof.
  intros Hh Hc Hn. unfold rt_strnlen. erewrite bind_eq by reflexivity.
  assert (forall fuel b l', holds m b l' -> chars_ok l' -> b + Z.of_nat (length l') = a + Z.of_nat (length l) ->
    strnlen_loop fuel a b (Z.of_nat (length l)) m = None) as H.
  { induction fuel as [|fuel IH]; intros b l' Hb Hc' E; [reflexivity|]. cbn [strnlen_loop]. destruct l' as [|c l'].
    - cbn in E. rewrite Z.add_0_r in E. subst b. unfold mbind, st_bind. rewrite ld_none by exact Hn. reflexivity.
    - apply holds_cons in Hb as [Hb Hb']. apply Forall_cons in Hc' as [Hc0 Hc']. cbn [length] in E.
      erewrite bind_eq by (apply ld_eq, Hb). rewrite (proj2 (Z.eqb_neq c 0)) by lia. rewrite (proj2 (Z.ltb_lt _ _)) by lia.
      apply (IH (b + 1) l'); try assumption. lia. }
  unfold mbind, st_bind. rewrite (H _ a l); auto.
Qed.

(** The first difference of two strings, the end counting as 0. *)
Fixpoint diff (l1 l2 : list Z) : Z :=
  match l1, l2 with
  | [], [] => 0
  | [], y :: _ => - y
  | x :: _, [] => x
  | x :: l1, y :: l2 => if x =? y then diff l1 l2 else x - y
  end.

(** The order of a dictionary, by the values of the bytes. *)
Fixpoint lex_lt (l1 l2 : list Z) : Prop :=
  match l1, l2 with
  | _, [] => False
  | [], _ :: _ => True
  | x :: l1, y :: l2 => x < y \/ x = y /\ lex_lt l1 l2
  end.

Lemma diff_lex l1 : forall l2, chars_ok l1 -> chars_ok l2 ->
  (diff l1 l2 = 0 <-> l1 = l2) /\ (diff l1 l2 < 0 <-> lex_lt l1 l2) /\ (0 < diff l1 l2 <-> lex_lt l2 l1) /\ -256 < diff l1 l2 < 256.
Proof.
  induction l1 as [|x l1 IH]; intros [|y l2] H1 H2; cbn.
  - repeat split; intros; (reflexivity || lia || contradiction).
  - apply Forall_cons in H2 as [H2 _]. repeat split; intros; (discriminate || exact I || lia || contradiction).
  - apply Forall_cons in H1 as [H1 _]. repeat split; intros; (discriminate || exact I || lia || contradiction).
  - apply Forall_cons in H1 as [H1 H1'], H2 as [H2 H2']. destruct (IH l2 H1' H2') as (A & B & C & D). destruct (Z.eqb_spec x y) as [->|Hne].
    + repeat split; intros; try lia; try (right; split; [reflexivity|tauto]).
      * f_equal. tauto.
      * apply A. congruence.
      * destruct H as [|[_ H]]; [lia|tauto].
      * destruct H as [|[_ H]]; [lia|tauto].
    + repeat split; intros; try lia; try congruence.
Qed.

Lemma strcmp_loop_eq l1 : forall l2 fuel a b m, cstr m a l1 -> cstr m b l2 -> (length l1 < fuel)%nat ->
  strcmp_loop fuel a b m = Some (diff l1 l2, m).
Proof.
  induction l1 as [|x l1 IH]; intros l2 [|fuel] a b m H1 H2 Hf; cbn [length] in *; try lia; cbn [strcmp_loop].
  - apply cstr_nil in H1. erewrite bind_eq by (apply ld_eq, H1). destruct l2 as [|y l2].
    + apply cstr_nil in H2. erewrite bind_eq by (apply ld_eq, H2). reflexivity.
    + apply cstr_cons in H2 as (H2 & _). erewrite bind_eq by (apply ld_eq, H2). reflexivity.
  - apply cstr_cons in H1 as (H1 & Hx & H1'). erewrite bind_eq by (apply ld_eq, H1). rewrite (proj2 (Z.eqb_neq x 0)) by lia.
    destruct l2 as [|y l2].
    + apply cstr_nil in H2. erewrite bind_eq by (apply ld_eq, H2). rewrite (proj2 (Z.eqb_neq x 0)) by lia. cbn. apply ret_eq. lia.
    + apply cstr_cons in H2 as (H2 & Hy & H2'). erewrite bind_eq by (apply ld_eq, H2). cbn [negb andb diff].
      destruct (Z.eqb_spec x y); [apply IH; (assumption || lia)|reflexivity].
Qed.

Lemma lower_range c : 0 < c < 256 -> 0 < lower c < 256.
Proof. intros Hc. unfold lower. destruct (Z.leb_spec 65 c), (Z.leb_spec c 90); cbn [andb]; lia. Qed.

Lemma strcasecmp_loop_eq l1 : forall l2 fuel a b m, cstr m a l1 -> cstr m b l2 -> (length l1 < fuel)%nat ->
  strcasecmp_loop fuel a b m = Some (diff (map lower l1) (map lower l2), m).
Proof.
  pose proof lower_range as Hl.
  assert (forall c, 0 <= c < 256 -> Z.land c 255 = c) as Hb.
  { intros c Hc. change 255 with (Z.ones 8). rewrite Z.land_ones by lia. apply Z.mod_small. exact Hc. }
  induction l1 as [|x l1 IH]; intros l2 [|fuel] a b m H1 H2 Hf; cbn [length] in *; try lia; cbn [strcasecmp_loop].
  - apply cstr_nil in H1. erewrite bind_eq by (apply ld_eq, H1). destruct l2 as [|y l2].
    + apply cstr_nil in H2. erewrite bind_eq by (apply ld_eq, H2). reflexivity.
    + apply cstr_cons in H2 as (H2 & Hy & _). erewrite bind_eq by (apply ld_eq, H2). rewrite !Hb by lia. specialize (Hl y Hy).
      change (lower 0) with 0. rewrite (proj2 (Z.eqb_neq 0 (lower y))) by lia. reflexivity.
  - apply cstr_cons in H1 as (H1 & Hx & H1'). erewrite bind_eq by (apply ld_eq, H1). pose proof (Hl x Hx).
    destruct l2 as [|y l2].
    + apply cstr_nil in H2. erewrite bind_eq by (apply ld_eq, H2). rewrite !Hb by lia. change (lower 0) with 0.
      rewrite (proj2 (Z.eqb_neq (lower x) 0)) by lia. cbn. apply ret_eq. lia.
    + apply cstr_cons in H2 as (H2 & Hy & H2'). erewrite bind_eq by (apply ld_eq, H2). rewrite !Hb by lia. cbn [map diff].
      destruct (Z.eqb_spec (lower x) (lower y)); [|reflexivity]. rewrite (proj2 (Z.eqb_neq (lower x) 0)) by lia.
      apply IH; (assumption || lia).
Qed.

Lemma s8_zero x : -256 < x < 256 -> s8 x = 0 -> x = 0.
Proof. unfold s8. intros. Z.to_euclidean_division_equations; lia. Qed.

Lemma strncmp_loop_eq n : forall l1 l2 a b m, cstr m a l1 -> cstr m b l2 ->
  strncmp_loop n a b m = Some (s8 (diff (take n l1) (take n l2)), m).
Proof.
  induction n as [|n IH]; intros l1 l2 a b m H1 H2; cbn [strncmp_loop take]; [reflexivity|].
  destruct l1 as [|x l1]; [apply cstr_nil in H1|apply cstr_cons in H1 as (H1 & Hx & H1')]; erewrite bind_eq by (apply ld_eq, H1);
    (destruct l2 as [|y l2]; [apply cstr_nil in H2|apply cstr_cons in H2 as (H2 & Hy & H2')]); erewrite bind_eq by (apply ld_eq, H2).
  - reflexivity.
  - rewrite orb_true_r. reflexivity.
  - cbn [take diff]. rewrite Z.sub_0_r, (proj2 (Z.eqb_neq (s8 x) 0)); [reflexivity|]. intros E%s8_zero; lia.
  - cbn [take diff]. destruct (Z.eqb_spec x y) as [->|Hne].
    + rewrite Z.sub_diag. change (s8 0) with 0. rewrite (proj2 (Z.eqb_neq y 0)) by lia. apply IH; assumption.
    + rewrite (proj2 (Z.eqb_neq (s8 (x - y)) 0)); [reflexivity|]. intros E%s8_zero; lia.
Qed.

(** [rt_strcmp] gives the order of two strings by their bytes and 0 exactly for
    equal ones, [rt_strcasecmp] the same with small letters for large ones, and
    [rt_strncmp] is 0 exactly if the first [n] characters agree. *)
Theorem strcmp_orders m a b l1 l2 n : cstr m a l1 -> cstr m b l2 -> 0 <= n ->
  (exists r, rt_strcmp a b m = Some (r, m) /\ (r = 0 <-> l1 = l2) /\ (r < 0 <-> lex_lt l1 l2) /\ (0 < r <-> lex_lt l2 l1)) /\
  (exists r, rt_strcasecmp a b m = Some (r, m) /\ (r = 0 <-> map lower l1 = map lower l2) /\
     (r < 0 <-> lex_lt (map lower l1) (map lower l2))) /\
  (exists r, rt_strncmp a b n m = Some (r, m) /\ (r = 0 <-> take (Z.to_nat n) l1 = take (Z.to_nat n) l2)).
Proof.
  intros H1 H2 Hn. pose proof (cstr_fuel _ _ _ H1) as Hf. destruct H1 as [Hh1 C1] eqn:E1, H2 as [Hh2 C2] eqn:E2. clear E1 E2.
  assert (chars_ok (map lower l1) /\ chars_ok (map lower l2)) as [L1 L2].
  { split; apply Forall_map; (eapply Forall_impl; [eassumption|]); intros c Hc; exact (lower_range c Hc). }
  split; [|split].
  - exists (diff l1 l2). split; [|destruct (diff_lex l1 l2 C1 C2) as (? & ? & ? & _); auto].
    unfold rt_strcmp. erewrite bind_eq by reflexivity. apply strcmp_loop_eq; assumption || (split; assumption).
  - exists (diff (map lower l1) (map lower l2)). split; [|destruct (diff_lex _ _ L1 L2) as (? & ? & _); auto].
    unfold rt_strcasecmp. erewrite bind_eq by reflexivity. apply strcasecmp_loop_eq; assumption || (split; assumption).
  - eexists. split; [apply strncmp_loop_eq; split; eassumption|].
    assert (chars_ok (take (Z.to_nat n) l1) /\ chars_ok (take (Z.to_nat n) l2)) as [T1 T2] by (split; apply Forall_take; assumption).
    destruct (diff_lex _ _ T1 T2) as (Hz & _ & _ & Hr). rewrite <- Hz. split; [apply s8_zero; exact Hr|intros ->; reflexivity].
Qed.

(** [rt_strncmp] keeps the difference in a [signed char]: for bytes that are more than
    127 apart the sign is wrong. *)
Example strncmp_wrong_sign : let m := write_list 0 [233; 0; 97; 0] (gset_to_gmap 0 (list_to_set (seqZ 0 4))) in
  rt_strcmp 0 2 m = Some (136, m) /\ rt_strncmp 0 2 8 m = Some (-120, m).
Proof. vm_compute. split; reflexivity. Qed.

(** ** Searching *)

Lemma diff_zero l1 : forall l2, length l1 = length l2 -> diff l1 l2 = 0 <-> l1 = l2.
Proof.
  induction l1 as [|x l1 IH]; intros [|y l2] H; try discriminate; cbn; [tauto|]. injection H as H.
  destruct (Z.eqb_spec x y) as [->|]; [rewrite (IH l2 H); split; congruence|]. split; [lia|congruence].
Qed.

Lemma memcmp_loop_eq l1 : forall l2 a b m, holds m a l1 -> holds m b l2 -> length l1 = length l2 ->
  memcmp_loop (length l1) a b m = Some (diff l1 l2, m).
Proof.
  induction l1 as [|x l1 IH]; intros [|y l2] a b m H1 H2 E; try discriminate; cbn [length memcmp_loop diff]; [reflexivity|].
  apply holds_cons in H1 as [H1 H1'], H2 as [H2 H2']. erewrite bind_eq by (apply ld_eq, H1). erewrite bind_eq by (apply ld_eq, H2).
  injection E as E. destruct (Z.eqb_spec x y) as [->|]; [rewrite Z.sub_diag; apply IH; assumption|].
  rewrite (proj2 (Z.eqb_neq (x - y) 0)) by lia. reflexivity.
Qed.

(** The first place of [w] in [l]. *)
Fixpoint find_sub (w l : list Z) : option nat :=
  if decide (take (length w) l = w) then Some O else match l with [] => None | _ :: l => S <$> find_sub w l end.

Lemma find_sub_short w l : (length l < length w)%nat -> find_sub w l = None.
Proof.
  induction l as [|x l IH]; intros H; cbn [find_sub]; (rewrite decide_False; [|intros E; apply (f_equal length) in E; rewrite length_take in E; cbn in *; lia]).
  - reflexivity.
  - rewrite IH by (cbn in H; lia). reflexivity.
Qed.

Lemma find_sub_spec w l k : find_sub w l = Some k <->
  take (length w) (drop k l) = w /\ (k <= length l)%nat /\ forall j, (j < k)%nat -> take (length w) (drop j l) <> w.
Proof.
  revert k. induction l as [|x l IH]; intros k; cbn [find_sub].
  - destruct (decide (take (length w) [] = w)) as [E|E].
    + split; [intros [= <-]; split; [exact E|split; [cbn; lia|lia]]|]. intros (_ & Hk & _). cbn in Hk. f_equal. lia.
    + split; [discriminate|]. intros (H & _). rewrite drop_nil in H. contradiction.
  - destruct (decide (take (length w) (x :: l) = w)) as [E|E].
    + split; [intros [= <-]; split; [exact E|split; [cbn; lia|lia]]|]. intros (_ & _ & Hk). destruct k as [|k]; [reflexivity|].
      exfalso. apply (Hk O); [lia|exact E].
    + destruct k as [|k]; [split; [destruct (find_sub w l); discriminate|intros (H & _); contradiction]|].
      transitivity (find_sub w l = Some k); [destruct (find_sub w l); cbn; split; congruence|]. rewrite IH. cbn [drop length].
      split; intros (H1 & H2 & H3).
      * split; [exact H1|]. split; [lia|]. intros [|j] Hj; [exact E|]. apply H3. lia.
      * split; [exact H1|]. split; [lia|]. intros j Hj. apply (H3 (S j)). lia.
Qed.

Lemma find_sub_none w l : find_sub w l = None -> forall j, (j <= length l)%nat -> take (length w) (drop j l) <> w.
Proof.
  induction l as [|x l IH]; cbn [find_sub length]; intros E j Hj; destruct (decide _) as [|Hne]; try discriminate.
  - replace j with O by lia. exact Hne.
  - destruct (find_sub w l) eqn:E'; [discriminate|]. destruct j as [|j]; [exact Hne|]. apply IH; [reflexivity|lia].
Qed.

Lemma strstr_loop_eq w l : forall fuel s1 s2 m, cstr m s1 l -> cstr m s2 w -> w <> [] -> (length l < fuel)%nat ->
  strstr_loop fuel s1 (Z.of_nat (length l)) s2 (Z.of_nat (length w)) m =
    Some ((fun k => s1 + Z.of_nat k) <$> find_sub w l, m).
Proof.
  induction l as [|x l IH]; intros [|fuel] s1 s2 m H1 H2 Hw Hf; cbn [length] in Hf; try lia; cbn [strstr_loop].
  - destruct w as [|y w]; [congruence|]. cbn [length]. rewrite (proj2 (Z.leb_gt _ _)) by lia. reflexivity.
  - destruct (Z.leb_spec (Z.of_nat (length w)) (Z.of_nat (length (x :: l)))) as [Hle|Hlt].
    + destruct H1 as [Hh1 Hc1] eqn:E1, H2 as [Hh2 Hc2] eqn:E2. clear E1 E2.
      assert (holds m s1 (take (length w) (x :: l))) as Ht.
      { rewrite <- (take_drop (length w) (x :: l)), <- app_assoc in Hh1. apply holds_app in Hh1. apply Hh1. }
      assert (length (take (length w) (x :: l)) = length w) as Hlen by (rewrite length_take; lia).
      apply holds_app in Hh2 as Hw2. unfold rt_memcmp. rewrite Nat2Z.id. rewrite <- Hlen at 1.
      erewrite bind_eq by (apply memcmp_loop_eq; [exact Ht|apply Hw2|exact Hlen]).
      cbn [find_sub]. destruct (decide (take (length w) (x :: l) = w)) as [E|E].
      * rewrite (proj2 (Z.eqb_eq _ _)) by (apply diff_zero; assumption). cbn. rewrite Z.add_0_r. reflexivity.
      * rewrite (proj2 (Z.eqb_neq _ _)) by (rewrite diff_zero by exact Hlen; exact E).
        replace (Z.of_nat (length (x :: l)) - 1) with (Z.of_nat (length l)) by (cbn [length]; lia).
        assert (cstr m (s1 + 1) l) as Hc' by (apply (cstr_cons m s1 x l); split; assumption).
        rewrite IH; try assumption; [|lia]. destruct (find_sub w l); cbn; apply ret_eq; [f_equal; lia|reflexivity].
    + rewrite find_sub_short by lia. reflexivity.
Qed.

(** [rt_strstr] finds the first place at which the second string occurs in the first
    one, and returns RT_NULL exactly when there is none. *)
Theorem strstr_first m s1 s2 l w : cstr m s1 l -> cstr m s2 w ->
  exists r, rt_strstr s1 s2 m = Some (r, m) /\
    match r with
    | Some p => exists k, p = s1 + Z.of_nat k /\ take (length w) (drop k l) = w /\ (k <= length l)%nat /\
                  forall j, (j < k)%nat -> take (length w) (drop j l) <> w
    | None => forall j, (j <= length l)%nat -> take (length w) (drop j l) <> w
    end.
Proof.
  intros H1 H2. unfold rt_strstr. erewrite bind_eq by (apply strlen_eq, H2). destruct w as [|y w].
  { exists (Some s1). split; [reflexivity|]. exists O. rewrite Z.add_0_r. split; [reflexivity|]. split; [reflexivity|]. split; [lia|]. lia. }
  rewrite (proj2 (Z.eqb_neq _ _)) by (cbn [length]; lia). erewrite bind_eq by (apply strlen_eq, H1).
  eexists. split; [apply strstr_loop_eq; try assumption; [discriminate|lia]|].
  set (W := y :: w) in *. destruct (find_sub W l) as [k|] eqn:E.
  - exists k. split; [reflexivity|]. apply find_sub_spec, E.
  - intros j Hj. apply (find_sub_none W l E j Hj).
Qed.

(** ** Copies of strings *)

Definition apart_from (d s n : Z) : Prop := d + n <= s \/ s + n <= d.

Lemma sb_then {A} a v m (f : unit -> BM A) : is_Some (m !! a) -> (x ← sb a v; f x) m = f tt (<[a := v]> m).
Proof. intros H. unfold mbind, st_bind. rewrite sb_eq, decide_True by exact H. reflexivity. Qed.

Lemma cstr_insert m a l i x : i < a \/ a + Z.of_nat (length l) < i -> cstr m a l -> cstr (<[i := x]> m) a l.
Proof.
  intros Hi [H C]. split; [|exact C]. intros k y E. pose proof (lookup_lt_Some _ _ _ E) as Hk. rewrite length_app in Hk. cbn in Hk.
  rewrite lookup_insert_ne by lia. apply H, E.
Qed.

Lemma strcpy_loop_eq l : forall fuel d s m, cstr m s l -> (length l < fuel)%nat -> mapped m d (length l) ->
  apart_from d s (Z.of_nat (length l) + 1) ->
  strcpy_loop fuel d s m = Some (d + Z.of_nat (length l), write_list d l m).
Proof.
  induction l as [|c l IH]; intros [|fuel] d s m H Hf Hm Ha; cbn [length] in *; try lia; cbn [strcpy_loop write_list].
  - apply cstr_nil in H. erewrite bind_eq by (apply ld_eq, H). cbn. rewrite Z.add_0_r. reflexivity.
  - apply mapped_S in Hm as [Hd Hm]. apply cstr_cons in H as (H & Hc & H'). erewrite bind_eq by (apply ld_eq, H).
    rewrite (proj2 (Z.eqb_neq c 0)) by lia. cbn [negb]. rewrite sb_then by exact Hd. unfold apart_from in *.
    rewrite IH; [apply ret_eq; lia|apply cstr_insert; [lia|exact H']|lia|apply mapped_insert; assumption|lia].
Qed.

Lemma set_bytes_run n a d m : mapped m a n -> set_bytes n a d m = Some (tt, write_list a (replicate n d) m).
Proof. intros H. rewrite set_bytes_eq, stores_eq, length_replicate, decide_True by exact H. reflexivity. Qed.

Lemma strncpy_loop_eq n : forall l d s m, cstr m s l -> mapped m d n ->
  d + Z.of_nat n <= s \/ s + Z.of_nat (length l) + 1 <= d ->
  strncpy_loop n d s m = Some (tt, write_list d (take n l ++ replicate (n - length l) 0) m).
Proof.
  induction n as [|n IH]; intros l d s m H Hm Ha; [reflexivity|]. cbn [strncpy_loop].
  apply mapped_S in Hm as [Hd Hm]. destruct l as [|c l]; cbn [length] in *.
  - apply cstr_nil in H. erewrite bind_eq by (apply ld_eq, H). rewrite sb_then by exact Hd. cbn [Z.eqb].
    apply set_bytes_run. apply mapped_insert; assumption.
  - apply cstr_cons in H as (H & Hc & H'). erewrite bind_eq by (apply ld_eq, H). rewrite sb_then by exact Hd.
    rewrite (proj2 (Z.eqb_neq c 0)) by lia. cbn [take app Nat.sub write_list].
    apply IH; [apply cstr_insert; [lia|exact H']|apply mapped_insert; assumption|lia].
Qed.

(** [rt_strcpy] makes a second copy of the string, its end included, and changes no
    other byte; [rt_strncpy] stores the first [n] characters and fills up with zeros. *)
Theorem strcpy_copies m d s l n : cstr m s l -> apart_from d s (Z.of_nat (length l) + 1) ->
  (mapped m d (S (length l)) ->
     exists m', rt_strcpy d s m = Some (d, m') /\ cstr m' d l /\ cstr m' s l /\
       forall i, i < d \/ d + Z.of_nat (length l) + 1 <= i -> m' !! i = m !! i) /\
  (mapped m d n -> d + Z.of_nat n <= s \/ s + Z.of_nat (length l) + 1 <= d ->
     rt_strncpy d s (Z.of_nat n) m = Some (d, write_list d (take n (l ++ replicate (n - length l) 0)) m)).
Proof.
  intros H Ha. unfold apart_from in Ha. split.
  - intros Hm. exists (write_list d (l ++ [0]) m). destruct H as [Hh C] eqn:E. clear E. split; [|split; [|split]].
    + unfold rt_strcpy. erewrite bind_eq by reflexivity. replace (S (length l)) with (length l + 1)%nat in Hm by lia.
      apply mapped_app in Hm as [Hm1 Hm2].
      erewrite bind_eq by (apply strcpy_loop_eq; [exact H|apply (cstr_fuel _ _ _ H)|exact Hm1|exact Ha]).
      rewrite write_list_app. rewrite sb_then; [reflexivity|]. rewrite write_outside by lia. apply Hm2. lia.
    + split; [apply write_holds|exact C].
    + split; [apply holds_write; [rewrite length_app; cbn; lia|exact Hh]|exact C].
    + intros i Hi. apply write_outside. rewrite length_app. cbn. lia.
  - intros Hm Hs. unfold rt_strncpy. rewrite Nat2Z.id. erewrite bind_eq by (apply strncpy_loop_eq; eassumption).
    rewrite take_app, (take_ge (replicate _ _)) by (rewrite length_replicate; lia). reflexivity.
Qed.

(** ** Examples *)

(** "abcab" at 8, "ab" at 16, and 16 free bytes at 32. *)
Definition mem0 : bytes := write_list 8 [97; 98; 99; 97; 98; 0] (write_list 16 [97; 98; 0] (gset_to_gmap 0 (list_to_set (seqZ 0 48)))).

Lemma mem0_cstr : cstr mem0 8 [97; 98; 99; 97; 98] /\ cstr mem0 16 [97; 98].
Proof.
  split; (split; [|repeat constructor; lia]).
  - intros i x E. do 6 (destruct i as [|i]; [injection E as <-; reflexivity|]). discriminate.
  - intros i x E. do 3 (destruct i as [|i]; [injection E as <-; reflexivity|]). discriminate.
Qed.

Lemma mem0_free : mapped mem0 32 16.
Proof. apply (proj1 (bool_decide_eq_true (mapped mem0 32 16))). vm_compute. reflexivity. Qed.

Lemma memset_versions_agree_witness :
  rt_memset 4 300 23 mem0 = rt_memset_tiny 4 300 23 mem0 /\ rt_memset 40 0 9 mem0 = None.
Proof.
  split; [apply (memset_versions_agree 4 300 23 mem0); lia|].
  destruct (memset_versions_agree 40 0 9 mem0) as [_ ->]; [lia|]. vm_compute. reflexivity.
Defined.

Lemma memmove_moves_witness : exists m', rt_memmove 10 8 5 mem0 = Some (10, m') /\
  rt_memcpy_tiny 10 8 5 mem0 = Some (10, m') /\ read_list m' 8 7 = [97; 98; 97; 98; 99; 97; 98].
Proof.
  destruct (memmove_moves 10 8 5 mem0) as [-> ->]; [lia|]. eexists. split; [vm_compute; reflexivity|]. split; vm_compute; reflexivity.
Defined.

Lemma memcpy_bytewise_witness : rt_memcpy 24 4 19 mem0 = rt_memmove 24 4 19 mem0 /\
  rt_memcpy 12 8 16 mem0 = (copy_up 16 12 8;; mret 12) mem0.
Proof.
  split; [apply (memcpy_bytewise 24 4 19 mem0); lia|]. apply (memcpy_bytewise 12 8 16 mem0). lia.
Defined.

Lemma strcmp_orders_witness : (exists r, rt_strcmp 16 8 mem0 = Some (r, mem0) /\ (r < 0 <-> lex_lt [97; 98] [97; 98; 99; 97; 98])) /\
  (exists r, rt_strncmp 16 8 2 mem0 = Some (r, mem0) /\ (r = 0 <-> [97; 98] = [97; 98])).
Proof.
  destruct mem0_cstr as [H1 H2]. destruct (strcmp_orders mem0 16 8 _ _ 2 H2 H1) as ((r & E & _ & H & _) & _ & r' & E' & H'); [lia|].
  split; [exists r|exists r']; split; assumption.
Defined.

Lemma strstr_first_witness : exists r, rt_strstr 9 16 mem0 = Some (r, mem0) /\ r = Some 11.
Proof.
  assert (cstr mem0 9 [98; 99; 97; 98]) as H by (apply (cstr_cons mem0 8 97), mem0_cstr).
  destruct (strstr_first mem0 9 16 _ _ H (proj2 mem0_cstr)) as (r & E & _). exists r. split; [exact E|].
  vm_compute in E. injection E as <-. reflexivity.
Defined.

Lemma strcpy_copies_witness : (exists m', rt_strcpy 32 8 mem0 = Some (32, m') /\ cstr m' 32 [97; 98; 99; 97; 98]) /\
  rt_strncpy 32 8 8 mem0 = Some (32, write_list 32 [97; 98; 99; 97; 98; 0; 0; 0] mem0).
Proof.
  destruct (strcpy_copies mem0 32 8 _ 8 (proj1 mem0_cstr)) as [H1 H2]; [unfold apart_from; cbn; lia|]. split.
  - destruct H1 as (m' & E & C & _); [intros i Hi; apply mem0_free; cbn in *; lia|]. exists m'. split; assumption.
  - apply H2; [intros i Hi; apply mem0_free; lia|cbn; lia].
Defined.
