(* ===== verification/ObjectProps.v ===== *)
(** * Properties of the object containers

    The containers as lists of objects, the newest first, under registering, removing
    and searching; how names are stored and compared. *)

From S2P Require Import Prelude Kernel RtList RtListProps Bytes KString KStringProps Object.
Open Scope rt_scope.

(** ** Names *)

(** The characters before the first 0. *)
Fixpoint until0 (l : list Z) : list Z := match l with [] => [] | c :: l => if c =? 0 then [] else c :: until0 l end.
Definition name_of (m : bytes) (a : Z) : list Z := until0 (read_list m (ob_name a) (Z.to_nat RT_NAME_MAX)).

Lemma until0_chars l : forall n, chars_ok l -> until0 (l ++ replicate n 0) = l.
Proof.
  induction l as [|c l IH]; intros n H; cbn; [destruct n; reflexivity|]. apply Forall_cons in H as [Hc H].
  rewrite (proj2 (Z.eqb_neq c 0)) by lia. f_equal. apply IH, H.
Qed.

Lemma name_ext m m' a : (forall i, a <= i < a + 8 -> m' !! i = m !! i) -> name_of m' a = name_of m a.
Proof. intros H. unfold name_of. f_equal. apply read_list_ext. exact H. Qed.

Lemma ld_then {A} a m x (f : Z -> BM A) : m !! a = Some x -> (c ← ld a; f c) m = f x m.
Proof. intros H. erewrite bind_eq by (apply ld_eq, H). reflexivity. Qed.

(** [rt_strncmp] of a name field, which need not end with a 0, and a string. *)
Lemma strncmp_field n : forall a b nm m, byte_mem m -> mapped m a n -> cstr m b nm ->
  exists c, strncmp_loop n a b m = Some (c, m) /\ (c = 0 <-> until0 (read_list m a n) = take n nm).
Proof.
  induction n as [|n IH]; intros a b nm m Hb Hm Hs; cbn [strncmp_loop].
  { exists 0. split; [reflexivity|]. destruct nm; split; reflexivity. }
  apply mapped_S in Hm as [[x Hx] Hm]. pose proof (Hb _ _ Hx) as Rx. rewrite (ld_then _ _ _ _ Hx), read_list_S, Hx. change (default 0 (Some x)) with x. cbn [until0].
  destruct nm as [|y nm].
  - apply cstr_nil in Hs. rewrite (ld_then _ _ _ _ Hs). cbv zeta. rewrite Z.sub_0_r. destruct (Z.eqb_spec x 0) as [->|Hne].
    + exists 0. split; [reflexivity|]. split; reflexivity.
    + exists (s8 x). assert (s8 x <> 0) as Hz by (intros E; apply s8_zero in E; lia).
      rewrite (proj2 (Z.eqb_neq _ _) Hz). cbn [negb orb]. split; [reflexivity|]. split; [contradiction|discriminate].
  - apply cstr_cons in Hs as (Hy & Ry & Hs). rewrite (ld_then _ _ _ _ Hy). cbv zeta. destruct (Z.eq_dec x y) as [->|Hne].
    + rewrite Z.sub_diag, (proj2 (Z.eqb_neq y 0)) by lia. change (negb (s8 0 =? 0) || false) with false. cbv iota. destruct (IH (a + 1) (b + 1) nm m Hb Hm Hs) as (c & E & Hc).
      exists c. split; [exact E|]. rewrite Hc. cbn [take]. split; [intros ->; reflexivity|intros [= H]; exact H].
    + assert (s8 (x - y) <> 0) as Hz by (intros E; apply s8_zero in E; lia). rewrite (proj2 (Z.eqb_neq _ _) Hz). cbn [negb orb].
      exists (s8 (x - y)). split; [reflexivity|]. split; [contradiction|]. destruct (Z.eqb_spec x 0); [discriminate|]. intros [= E _]. contradiction.
Qed.

(** ** The containers *)

(** [L i] are the objects of the container [i], the newest first. *)
Record reg_rep (L : rt_object_info_type -> list Z) (r : registry) : Prop := {
  rg_circ : forall i, circ (rg_list r) (Info i) (Obj <$> L i);
  rg_one : forall i j a, a ∈ L i -> a ∈ L j -> i = j;
  rg_typed : forall i a, a ∈ L i -> a <> 0 /\ mapped (rg_mem r) a 10 /\
    exists t, rg_mem r !! ob_type a = Some t /\ rt_object_get_information t = Some i;
  rg_gap : forall i j a b, a ∈ L i -> b ∈ L j -> a <> b -> a + 10 <= b \/ b + 10 <= a;
  rg_bytes : byte_mem (rg_mem r);
}.

(** The [n] bytes at [a] can become an object: they are outside those in the containers. *)
Record fresh_object (L : rt_object_info_type -> list Z) (r : registry) (n a : Z) : Prop := {
  fo_null : a <> 0;
  fo_size : 10 <= n;
  fo_mapped : mapped (rg_mem r) a (Z.to_nat n);
  fo_gap : forall j b, b ∈ L j -> a + n <= b \/ b + 10 <= a;
}.

#[export] Instance Obj_inj : Inj (=) (=) Obj.
Proof. intros i j [= ->]. reflexivity. Qed.

Lemma obj_in a (l : list Z) : Obj a ∈ Obj <$> l <-> a ∈ l.
Proof. rewrite list_elem_of_fmap. split; [intros (j & [= ->] & H); exact H|eauto]. Qed.

Lemma obj_in_list a i (l : list Z) : Obj a ∈ Info i :: (Obj <$> l) <-> a ∈ l.
Proof. rewrite elem_of_cons, obj_in. split; [intros [[=]|H]; exact H|auto]. Qed.
Lemma info_in_list i j (l : list Z) : Info j ∈ Info i :: (Obj <$> l) <-> j = i.
Proof. rewrite elem_of_cons, list_elem_of_fmap. split; [intros [[=]|(? & [=] & _)]; auto|intros ->; auto]. Qed.

Lemma fresh_not_in L r n a : fresh_object L r n a -> forall j, a ∉ L j.
Proof. intros F j H. pose proof (fo_size _ _ _ _ F). apply (fo_gap _ _ _ _ F) in H. lia. Qed.

Lemma rep_nodup L r i : reg_rep L r -> NoDup (L i).
Proof. intros R. destruct (rg_circ _ _ R i) as [_ H]. apply NoDup_cons in H as [_ H]. exact (NoDup_fmap_1 _ _ H). Qed.

(** The fuel of a walk. *)
Lemma rep_fuel L r i : reg_rep L r -> (length (L i) < reg_fuel r)%nat.
Proof.
  intros R. unfold reg_fuel. apply Nat.lt_succ_r. pose proof (rep_nodup _ _ i R) as Hd.
  rewrite <- (size_dom (D := gset Z)), <- (size_list_to_set (C := gset Z) (L i) Hd). apply subseteq_size. intros a Ha%elem_of_list_to_set.
  destruct (rg_typed _ _ R i a Ha) as (_ & Hm & _). apply elem_of_dom, Hm. lia.
Qed.

Section Links.
Context (L : rt_object_info_type -> list Z) (h : node -> rt_list_node node).
Hypothesis Hc : forall i, circ h (Info i) (Obj <$> L i).
Hypothesis H1 : forall i j a, a ∈ L i -> a ∈ L j -> i = j.

(** The lists do not share cells. *)
Lemma lists_apart i j z : z ∈ Info i :: (Obj <$> L i) -> z ∈ Info j :: (Obj <$> L j) -> i = j.
Proof.
  intros Hi Hj. destruct z as [k|a].
  - rewrite info_in_list in Hi, Hj. congruence.
  - rewrite obj_in_list in Hi, Hj. exact (H1 _ _ _ Hi Hj).
Qed.

Lemma links_new i a : (forall j, a ∉ L j) -> forall j, circ (rt_list_insert_after (Info i) (Obj a) h) (Info j) (Obj <$> (<[i := a :: L i]> L) j).
Proof.
  intros Ha. set (q := next (h (Info i))). assert (q ∈ Info i :: (Obj <$> L i)) as Hq.
  { destruct (Hc i) as [Hp _]. unfold q. destruct (L i) as [|b l]; cbn in *; [rewrite (proj1 Hp); left|].
    rewrite (proj1 Hp). right. left. }
  assert (spliced h (rt_list_insert_after (Info i) (Obj a) h) (Info i) (Obj a) q) as Hs.
  { apply insert_after_spliced; [discriminate|]. fold q. intros E. rewrite <- E, obj_in_list in Hq. exact (Ha i Hq). }
  intros j. destruct (decide (i = j)) as [<-|Hne].
  - rewrite fn_lookup_insert. cbn [fmap list_fmap]. apply (circ_spliced h _ (Info i) (Obj a) [] (Obj <$> L i)).
    + cbn. replace (behind (Obj <$> L i) (Info i)) with q; [exact Hs|]. destruct (Hc i) as [Hp _]. exact (path_next h (Info i) [] _ _ Hp).
    + apply Hc.
    + change ([] ++ (Obj <$> L i)) with (Obj <$> L i). rewrite obj_in_list. apply Ha.
  - rewrite fn_lookup_insert_ne by exact Hne. apply (circ_frame h); [apply Hc|]. intros z Hz. apply (spliced_other _ _ _ _ _ _ Hs); intros ->.
    + rewrite info_in_list in Hz. contradiction.
    + rewrite obj_in_list in Hz. exact (Ha j Hz).
    + exact (Hne (lists_apart _ _ _ Hq Hz)).
Qed.

Lemma links_gone i a l1 l2 : L i = l1 ++ a :: l2 -> forall j, circ (rt_list_remove (Obj a) h) (Info j) (Obj <$> (<[i := l1 ++ l2]> L) j).
Proof.
  intros E. pose proof (Hc i) as C. rewrite E, fmap_app, fmap_cons in C. destruct C as [Hp Hn].
  pose proof (path_next _ _ ((Obj <$> l1) ++ [Obj a]) (Obj <$> l2) _ ltac:(rewrite <- app_assoc; exact Hp)) as En.
  pose proof (path_prev _ _ (Obj <$> l1) (Obj a :: (Obj <$> l2)) _ Hp) as Ep. unfold before in En. rewrite last_snoc in En. cbn in En, Ep.
  set (p := before (Info i) (Obj <$> l1)) in *. set (q := behind (Obj <$> l2) (Info i)) in *.
  assert (a ∉ l1 ++ l2) as Ha.
  { apply NoDup_cons in Hn as [_ Hn]. rewrite <- Permutation_middle in Hn. apply NoDup_cons in Hn as [Hn _]. rewrite <- fmap_app, obj_in in Hn. exact Hn. }
  assert (p ∈ Info i :: (Obj <$> l1 ++ l2)) as Inp.
  { pose proof (before_in (Info i) (Obj <$> l1)) as H. fold p in H. rewrite fmap_app, elem_of_cons, elem_of_app. rewrite elem_of_cons in H. tauto. }
  assert (q ∈ Info i :: (Obj <$> l1 ++ l2)) as Inq.
  { pose proof (behind_in (Obj <$> l2) (Info i)) as H. fold q in H. rewrite fmap_app, elem_of_cons, elem_of_app.
    rewrite elem_of_app, list_elem_of_singleton in H. tauto. }
  assert (cut h (rt_list_remove (Obj a) h) p (Obj a) q) as Hs.
  { rewrite <- Ep, <- En. apply remove_cut; [rewrite Ep|rewrite En]; intros Eq; [rewrite Eq in Inp; rename Inp into I|rewrite Eq in Inq; rename Inq into I];
      rewrite obj_in_list in I; contradiction. }
  assert (forall z, z ∈ Info i :: (Obj <$> l1 ++ l2) -> z ∈ Info i :: (Obj <$> L i)) as Sub.
  { intros z. rewrite E, !elem_of_cons, !fmap_app, !elem_of_app, fmap_cons, elem_of_cons. tauto. }
  intros j. destruct (decide (i = j)) as [<-|Hne].
  - rewrite fn_lookup_insert, fmap_app. eapply circ_cut; [exact Hs|]. split; assumption.
  - rewrite fn_lookup_insert_ne by exact Hne. apply (circ_frame h); [apply Hc|]. intros z Hz. apply (cut_other _ _ _ _ _ _ Hs); intros ->.
    + exact (Hne (lists_apart _ _ _ (Sub _ Inp) Hz)).
    + rewrite obj_in_list in Hz. apply Hne, (H1 _ _ a); [rewrite E; apply elem_of_app; right; left|exact Hz].
    + exact (Hne (lists_apart _ _ _ (Sub _ Inq) Hz)).
Qed.
End Links.

(** ** Walks *)

Lemma in_mem_eq {A} (c : BM A) r x m : c (rg_mem r) = Some (x, m) -> in_mem c r = Some (x, r <| rg_mem := m |>).
Proof. intros H. unfold in_mem. rewrite H. reflexivity. Qed.
Lemma in_mem_read {A} (c : BM A) r x : c (rg_mem r) = Some (x, rg_mem r) -> in_mem c r = Some (x, r).
Proof. intros H. rewrite (in_mem_eq _ _ _ _ H). destruct r. reflexivity. Qed.

Lemma walk_end {A} (a b : A) (x : node) : (if bool_decide (x = x) then a else b) = a.
Proof. rewrite bool_decide_eq_true_2 by reflexivity. reflexivity. Qed.
Lemma walk_on {A} (a b : A) o i : (if bool_decide (Obj o = Info i) then a else b) = b.
Proof. rewrite bool_decide_eq_false_2 by discriminate. reflexivity. Qed.

Section Walk.
Context (r : registry) (i : rt_object_info_type).

Lemma find_loop_eq name nm : byte_mem (rg_mem r) -> cstr (rg_mem r) name nm -> forall l x fuel,
  path (rg_list r) x (Obj <$> l) (Info i) -> (length l < fuel)%nat -> (forall a, a ∈ l -> mapped (rg_mem r) a 10) ->
  find_loop fuel (Info i) (next (rg_list r x)) name r = Some (List.find (fun a => bool_decide (name_of (rg_mem r) a = take 8 nm)) l, r).
Proof.
  intros Hb Hs. induction l as [|a l IH]; intros x [|fuel] Hp Hf Hm; cbn [length fmap list_fmap path] in *; try lia; cbn [find_loop List.find].
  - rewrite (proj1 Hp), walk_end. reflexivity.
  - destruct Hp as (E & _ & Hp). rewrite E, walk_on. erewrite bind_eq by reflexivity.
    destruct (strncmp_field 8 a name nm (rg_mem r) Hb) as (c & Ec & Hc); [intros j Hj; apply (Hm a); [left|lia]|exact Hs|].
    erewrite bind_eq by (apply in_mem_read; exact Ec). unfold name_of. change (Z.to_nat RT_NAME_MAX) with 8%nat. unfold ob_name.
    destruct (Z.eqb_spec c 0) as [->|Hne].
    + rewrite bool_decide_eq_true_2 by (apply Hc; reflexivity). reflexivity.
    + rewrite bool_decide_eq_false_2 by (rewrite <- Hc; exact Hne). erewrite bind_eq by reflexivity.
      apply IH; [exact Hp|lia|intros b Hin; apply Hm; right; exact Hin].
Qed.

Lemma check_new_loop_eq object : forall l x fuel, path (rg_list r) x (Obj <$> l) (Info i) -> (length l < fuel)%nat ->
  check_new_loop fuel (Info i) (next (rg_list r x)) object r = if decide (object ∈ l) then None else Some (tt, r).
Proof.
  induction l as [|a l IH]; intros x [|fuel] Hp Hf; cbn [length fmap list_fmap path] in *; try lia; cbn [check_new_loop].
  - rewrite (proj1 Hp), walk_end. reflexivity.
  - destruct Hp as (E & _ & Hp). rewrite E, walk_on. erewrite bind_eq by reflexivity. destruct (Z.eqb_spec a object) as [->|Hne].
    + rewrite decide_True by left. reflexivity.
    + erewrite bind_eq by reflexivity. erewrite bind_eq by reflexivity. rewrite IH by (assumption || lia).
      destruct (decide (object ∈ l)); [rewrite decide_True by (right; assumption)|rewrite decide_False by (rewrite elem_of_cons; intros [|]; congruence)]; reflexivity.
Qed.

Lemma get_length_loop_eq : forall l x fuel n, path (rg_list r) x (Obj <$> l) (Info i) -> (length l < fuel)%nat ->
  0 <= n -> n + Z.of_nat (length l) < 2 ^ 31 ->
  get_length_loop fuel (Info i) (next (rg_list r x)) n r = Some (n + Z.of_nat (length l), r).
Proof.
  induction l as [|a l IH]; intros x [|fuel] n Hp Hf Hn Hr; cbn [length fmap list_fmap path] in *; try lia; cbn [get_length_loop].
  - rewrite (proj1 Hp), walk_end. apply ret_eq. lia.
  - destruct Hp as (E & _ & Hp). rewrite E, walk_on. erewrite bind_eq by reflexivity. rewrite s32_small, IH by (assumption || lia).
    apply ret_eq. lia.
Qed.

Lemma get_pointers_loop_eq maxlen : forall l x fuel ps, path (rg_list r) x (Obj <$> l) (Info i) -> (length l < fuel)%nat ->
  Z.of_nat (length ps) < maxlen ->
  get_pointers_loop fuel (Info i) (next (rg_list r x)) ps maxlen r = Some (take (Z.to_nat maxlen) (ps ++ l), r).
Proof.
  induction l as [|a l IH]; intros x [|fuel] ps Hp Hf Hm; cbn [length fmap list_fmap path] in *; try lia; cbn [get_pointers_loop].
  - rewrite (proj1 Hp), walk_end, app_nil_r, take_ge by lia. reflexivity.
  - destruct Hp as (E & _ & Hp). rewrite E, walk_on. erewrite bind_eq by reflexivity. cbv zeta. rewrite length_app. cbn [length].
    replace (ps ++ a :: l) with ((ps ++ [a]) ++ l) by (rewrite <- app_assoc; reflexivity).
    destruct (Z.leb_spec maxlen (Z.of_nat (length ps + 1))).
    + rewrite take_app_le, take_ge by (rewrite length_app; cbn; lia). reflexivity.
    + erewrite bind_eq by reflexivity. apply IH; [exact Hp|lia|rewrite length_app; cbn; lia].
Qed.
End Walk.

(** ** Searching and counting *)

Lemma find_newest_eq L r type i name nm : reg_rep L r -> rg_nest r = 0 -> rt_object_get_information type = Some i ->
  cstr (rg_mem r) name nm -> name <> 0 ->
  rt_object_find name type r = Some (List.find (fun a => bool_decide (name_of (rg_mem r) a = take 8 nm)) (L i), r).
Proof.
  intros R Hn Hi Hs Hz. destruct (rg_circ _ _ R i) as [Hp _]. pose proof (rep_fuel _ _ i R) as Hf.
  unfold rt_object_find. rewrite Hi, (proj2 (Z.eqb_neq _ _) Hz). erewrite bind_eq.
  2: { unfold not_in_interrupt. erewrite bind_eq by reflexivity. rewrite Hn. reflexivity. }
  erewrite bind_eq by reflexivity. erewrite bind_eq by reflexivity.
  apply find_loop_eq; [apply R|exact Hs|exact Hp|exact Hf|]. intros a Ha. apply (rg_typed _ _ R i a Ha).
Qed.

(** [rt_object_find] gives the newest object of the container whose name is the
    first 8 characters of the given one; [rt_object_get_length] and
    [rt_object_get_pointers] give the number of objects and the newest ones. *)
Theorem object_find_newest L r type i name nm maxlen : reg_rep L r -> rg_nest r = 0 -> rt_object_get_information type = Some i ->
  cstr (rg_mem r) name nm -> name <> 0 -> Z.of_nat (length (L i)) < 2 ^ 31 ->
  rt_object_find name type r = Some (List.find (fun a => bool_decide (name_of (rg_mem r) a = take 8 nm)) (L i), r) /\
  rt_object_get_length type r = Some (Z.of_nat (length (L i)), r) /\
  rt_object_get_pointers type maxlen r = Some (take (Z.to_nat maxlen) (L i), r).
Proof.
  intros R Hn Hi Hs Hz Hl. destruct (rg_circ _ _ R i) as [Hp _]. pose proof (rep_fuel _ _ i R) as Hf. split; [|split].
  - apply (find_newest_eq L r type i); assumption.
  - unfold rt_object_get_length. rewrite Hi. erewrite bind_eq by reflexivity. erewrite bind_eq by reflexivity.
    exact (get_length_loop_eq r i (L i) _ _ 0 Hp Hf ltac:(lia) Hl).
  - unfold rt_object_get_pointers. rewrite Hi. destruct (Z.leb_spec maxlen 0); [replace (Z.to_nat maxlen) with 0%nat by lia; reflexivity|].
    erewrite bind_eq by reflexivity. erewrite bind_eq by reflexivity. exact (get_pointers_loop_eq r i maxlen _ _ _ [] Hp Hf ltac:(cbn; lia)).
Qed.

(** ** Registering *)

(** A new front of one container. *)
Lemma rep_new L r i n a h m' t : reg_rep L r -> fresh_object L r n a -> h = rt_list_insert_after (Info i) (Obj a) (rg_list r) ->
  (forall x, x < a \/ a + n <= x -> m' !! x = rg_mem r !! x) -> mapped m' a 10 -> byte_mem m' ->
  m' !! ob_type a = Some t -> rt_object_get_information t = Some i ->
  reg_rep (<[i := a :: L i]> L) (r <| rg_mem := m' |> <| rg_list := h |>).
Proof.
  intros R F -> Hm Hma Hb Ht Hi. pose proof (fo_size _ _ _ _ F) as Hz. pose proof (fresh_not_in _ _ _ _ F) as Hn.
  assert (forall j b, b ∈ (<[i := a :: L i]> L) j -> (b = a /\ j = i) \/ b ∈ L j) as Hin.
  { intros j b. destruct (decide (i = j)) as [<-|Hne]; [rewrite fn_lookup_insert, elem_of_cons; tauto|rewrite fn_lookup_insert_ne by exact Hne; auto]. }
  split; cbn [rg_mem rg_list].
  - apply (links_new L (rg_list r) (rg_circ _ _ R) (rg_one _ _ R) i a Hn).
  - intros j k b [[-> ->]|H1]%Hin [[E ->]|H2]%Hin; [reflexivity|destruct (Hn _ H2)|subst; destruct (Hn _ H1)|exact (rg_one _ _ R _ _ _ H1 H2)].
  - intros j b [[-> ->]|H1]%Hin; [split; [apply F|]; eauto|]. destruct (rg_typed _ _ R j b H1) as (B1 & B2 & t' & B3 & B4).
    pose proof (fo_gap _ _ _ _ F j b H1) as G. unfold ob_type in *. split; [exact B1|]. split; [|exists t'; split; [|exact B4]].
    + intros x Hx. change (is_Some (m' !! x)). rewrite Hm by lia. apply B2. exact Hx.
    + change (m' !! (b + 8) = Some t'). rewrite Hm by lia. exact B3.
  - intros j k b c [[-> ->]|H1]%Hin [[-> ->]|H2]%Hin Hne; [contradiction|pose proof (fo_gap _ _ _ _ F _ _ H2); lia| |exact (rg_gap _ _ R _ _ _ _ H1 H2 Hne)].
    pose proof (fo_gap _ _ _ _ F _ _ H1). lia.
  - exact Hb.
Qed.

Lemma byte_insert m a x : byte_mem m -> 0 <= x < 256 -> byte_mem (<[a := x]> m).
Proof. intros H Hx i y. destruct (decide (a = i)) as [<-|Hne]; [rewrite lookup_insert_eq; intros [= <-]; exact Hx|rewrite lookup_insert_ne by exact Hne; apply H]. Qed.
Lemma byte_write l : forall m a, byte_mem m -> Forall (fun x => 0 <= x < 256) l -> byte_mem (write_list a l m).
Proof. induction l as [|x l IH]; intros m a H Hl; [exact H|]. apply Forall_cons in Hl as [Hx Hl]. cbn. apply IH; [apply byte_insert; assumption|exact Hl]. Qed.

(** The bytes of a name of [n] bytes. *)
Definition name_bytes (n : nat) (nm : list Z) : list Z := take n nm ++ replicate (n - length nm) 0.

Lemma name_bytes_ok n nm : chars_ok nm -> Forall (fun x => 0 <= x < 256) (name_bytes n nm) /\ length (name_bytes n nm) = n.
Proof.
  intros H. unfold name_bytes. split; [|rewrite length_app, length_take, length_replicate; lia]. apply Forall_app. split.
  - apply Forall_take. eapply Forall_impl; [exact H|]. cbn. lia.
  - apply Forall_replicate. lia.
Qed.

Lemma strncpy_name d s nm n m : cstr m s nm -> mapped m d (Z.to_nat n) -> d + Z.of_nat (Z.to_nat n) <= s \/ s + Z.of_nat (length nm) + 1 <= d ->
  rt_strncpy d s n m = Some (d, write_list d (name_bytes (Z.to_nat n) nm) m).
Proof. intros H Hm Hd. unfold rt_strncpy. erewrite bind_eq by (apply strncpy_loop_eq; eassumption). reflexivity. Qed.

Lemma mapped_sub m a n b k : mapped m a n -> a <= b -> b + Z.of_nat k <= a + Z.of_nat n -> mapped m b k.
Proof. intros H H1 H2 i Hi. apply H. lia. Qed.

(** Facts about all the types that fit their byte. *)
Lemma all_types (P : Z -> bool) : forallb P (seqZ 0 256) = true -> forall t, 0 <= t < 256 -> P t = true.
Proof. intros H t Ht. rewrite forallb_forall in H. apply H, list_elem_of_In, elem_of_seqZ. lia. Qed.

Lemma type_static t : 0 <= t < 256 ->
  rt_object_get_information (u8 (Z.lor t RT_Object_Class_Static)) = rt_object_get_information t /\
  Z.land (u8 (Z.lor t RT_Object_Class_Static)) RT_Object_Class_Static <> 0 /\ 0 <= u8 (Z.lor t RT_Object_Class_Static) < 256.
Proof.
  intros Ht. pose proof (u8_range (Z.lor t RT_Object_Class_Static)). split; [|split; [|assumption]].
  - apply (bool_decide_unpack _), Is_true_true. clear H. revert t Ht. apply all_types. vm_compute. reflexivity.
  - apply (bool_decide_unpack _), Is_true_true. clear H. revert t Ht. apply all_types. vm_compute. reflexivity.
Qed.

Lemma bind_none {S A B} (m : st S A) (f : A -> st S B) s : m s = None -> (m ≫= f) s = None.
Proof. intros H. unfold mbind, st_bind. rewrite H. reflexivity. Qed.

Lemma ld_in_mem r a x : rg_mem r !! a = Some x -> in_mem (ld a) r = Some (x, r).
Proof. intros H. apply in_mem_read, ld_eq, H. Qed.
Lemma sb_in_mem r a x : is_Some (rg_mem r !! a) -> in_mem (sb a x) r = Some (tt, r <| rg_mem := <[a := x]> (rg_mem r) |>).
Proof. intros H. apply in_mem_eq. rewrite sb_eq, decide_True by exact H. reflexivity. Qed.

Lemma cstr_outside m m' a nm : cstr m a nm -> (forall i, a <= i < a + Z.of_nat (length nm) + 1 -> m' !! i = m !! i) -> cstr m' a nm.
Proof.
  intros [H C] E. split; [|exact C]. intros k y Hk. pose proof (lookup_lt_Some _ _ _ Hk) as Hl. rewrite length_app in Hl. cbn in Hl.
  rewrite E by lia. apply H, Hk.
Qed.

Lemma read_written l : forall m a n, n = length l -> read_list (write_list a l m) a n = l.
Proof.
  intros m a n ->. apply list_eq. intros k. unfold read_list. destruct (decide (k < length l)%nat) as [Hk|Hk].
  - rewrite list_lookup_fmap, lookup_seq_lt by exact Hk. cbn. rewrite write_list_lookup, decide_True by lia.
    replace (Z.to_nat (a + Z.of_nat k - a)) with k by lia. destruct (lookup_lt_is_Some_2 l k Hk) as [x ->]. reflexivity.
  - rewrite !lookup_ge_None_2; [reflexivity|lia|rewrite length_map, length_seq; lia].
Qed.

Lemma name_stored m a nm n : chars_ok nm -> (n <= 8)%nat -> (forall k, (n <= k < 8)%nat -> m !! (a + Z.of_nat k) = Some 0) ->
  name_of (write_list a (name_bytes n nm) m) a = take n nm.
Proof.
  intros Hc Hn Hz. unfold name_of, ob_name. change (Z.to_nat RT_NAME_MAX) with 8%nat.
  assert (write_list a (name_bytes n nm ++ replicate (8 - n) 0) m = write_list a (name_bytes n nm) m) as <-.
  { rewrite write_list_app. apply map_eq. intros i. rewrite !write_list_lookup. destruct (name_bytes_ok n nm Hc) as [_ E]. rewrite E, length_replicate.
    destruct (decide (a + Z.of_nat n <= i < _)); [|reflexivity]. rewrite lookup_replicate_2 by lia. rewrite decide_False by lia.
    specialize (Hz (Z.to_nat (i - a)) ltac:(lia)). replace (a + Z.of_nat (Z.to_nat (i - a))) with i in Hz by lia. symmetry. exact Hz. }
  rewrite read_written by (rewrite length_app, length_replicate, (proj2 (name_bytes_ok n nm Hc)); lia).
  unfold name_bytes. rewrite <- app_assoc, <- replicate_add. apply until0_chars, Forall_take, Hc.
Qed.

(** [rt_object_init] stops at an object that is already in the container; otherwise
    the object comes first in the container of its type, marked as static, with the
    first 8 characters of the name, and no byte outside it changes. *)
Theorem object_init_registers L r object type i name nm : reg_rep L r -> 0 <= type < 256 -> rt_object_get_information type = Some i ->
  (object ∈ L i -> rt_object_init object type name r = None) /\
  (fresh_object L r 10 object -> cstr (rg_mem r) name nm -> string_apart object 10 name nm ->
   exists r', rt_object_init object type name r = Some (tt, r') /\ reg_rep (<[i := object :: L i]> L) r' /\
     name_of (rg_mem r') object = take 8 nm /\ rt_object_is_systemobject object r' = Some (true, r') /\
     rg_nest r' = rg_nest r /\ forall x, x < object \/ object + 10 <= x -> rg_mem r' !! x = rg_mem r !! x).
Proof.
  intros R Ht Hi. destruct (rg_circ _ _ R i) as [Hp _]. pose proof (rep_fuel _ _ i R) as Hf. split.
  - intros Hin. unfold rt_object_init. rewrite Hi. erewrite bind_eq by reflexivity. erewrite bind_eq by reflexivity. erewrite bind_eq by reflexivity.
    apply bind_none. rewrite (check_new_loop_eq r i object (L i)) by assumption. rewrite decide_True by exact Hin. reflexivity.
  - intros F Hs Ha. pose proof (fo_mapped _ _ _ _ F) as Hm. destruct (type_static type Ht) as (T1 & T2 & T3). rewrite Hi in T1.
    set (t := u8 (Z.lor type RT_Object_Class_Static)) in *. unfold string_apart in Ha.
    set (m1 := <[ob_type object := t]> (rg_mem r)).
    assert (mapped m1 object 10) as Hm1 by (apply mapped_insert; [apply Hm; unfold ob_type; lia|exact Hm]).
    assert (cstr m1 name nm) as Hs1 by (eapply cstr_outside; [exact Hs|]; intros k Hk; apply lookup_insert_ne; unfold ob_type; lia).
    destruct Hs as [_ Hc]. destruct (name_bytes_ok 8 nm Hc) as [N1 N2]. set (m2 := write_list object (name_bytes 8 nm) m1).
    assert (forall x, x < object \/ object + 10 <= x -> m2 !! x = rg_mem r !! x) as Hout.
    { intros x Hx. unfold m2, m1. rewrite write_list_lookup, decide_False, lookup_insert_ne by (unfold ob_type; lia). reflexivity. }
    assert (m2 !! ob_type object = Some t) as Et.
    { unfold m2, m1. rewrite write_list_lookup, decide_False, lookup_insert_eq by (unfold ob_type; lia). reflexivity. }
    exists (r <| rg_mem := m2 |> <| rg_list := rt_list_insert_after (Info i) (Obj object) (rg_list r) |>). split; [|split; [|split; [|split]]].
    + unfold rt_object_init. rewrite Hi. erewrite bind_eq by reflexivity. erewrite bind_eq by reflexivity. erewrite bind_eq by reflexivity.
      erewrite bind_eq by (rewrite (check_new_loop_eq r i object (L i)) by assumption; rewrite decide_False by (apply (fresh_not_in _ _ _ _ F)); reflexivity).
      erewrite bind_eq by (apply sb_in_mem, Hm; unfold ob_type; lia).
      erewrite bind_eq.
      2: { apply in_mem_eq. apply strncpy_name; [exact Hs1|apply (mapped_sub _ object 10); [exact Hm1| |]|]; unfold ob_name; change (Z.to_nat RT_NAME_MAX) with 8%nat; lia. }
      destruct r. reflexivity.
    + eapply rep_new; [exact R|exact F|reflexivity|exact Hout| | |exact Et|exact T1].
      * intros x Hx. unfold m2. rewrite write_list_lookup, N2. destruct (decide _); [|apply Hm1, Hx].
        apply lookup_lt_is_Some_2. lia.
      * apply byte_write; [apply byte_insert; [apply R|exact T3]|exact N1].
    + apply name_stored; [exact Hc|lia|lia].
    + unfold rt_object_is_systemobject. erewrite bind_eq by (apply assert_eq, negb_true_iff, Z.eqb_neq, F).
      erewrite bind_eq by (apply ld_in_mem; exact Et). rewrite (proj2 (Z.eqb_neq _ _) T2). reflexivity.
    + split; [reflexivity|exact Hout].
Qed.

(** ** Removing *)

Lemma rep_gone L r i a l1 l2 : reg_rep L r -> L i = l1 ++ a :: l2 ->
  reg_rep (<[i := l1 ++ l2]> L) (r <| rg_list ::= rt_list_remove (Obj a) |> <| rg_mem := <[ob_type a := 0]> (rg_mem r) |>).
Proof.
  intros R E. assert (a ∈ L i) as Ha by (rewrite E; apply elem_of_app; right; left).
  assert (forall j b, b ∈ (<[i := l1 ++ l2]> L) j -> b ∈ L j /\ b <> a) as Hin.
  { intros j b. destruct (decide (i = j)) as [<-|Hne].
    - rewrite fn_lookup_insert. intros Hb. split; [rewrite E, elem_of_app, elem_of_cons; rewrite elem_of_app in Hb; tauto|]. intros ->.
      pose proof (rep_nodup _ _ i R) as Hd. rewrite E, <- Permutation_middle in Hd. apply NoDup_cons in Hd as [Hd _]. contradiction.
    - rewrite fn_lookup_insert_ne by exact Hne. intros Hb. split; [exact Hb|]. intros ->. exact (Hne (rg_one _ _ R _ _ _ Ha Hb)). }
  split; cbn [rg_mem rg_list].
  - apply (links_gone L (rg_list r) (rg_circ _ _ R) (rg_one _ _ R) i a l1 l2 E).
  - intros j k b [H1 _]%Hin [H2 _]%Hin. exact (rg_one _ _ R _ _ _ H1 H2).
  - intros j b [H1 Hne]%Hin. destruct (rg_typed _ _ R j b H1) as (B1 & B2 & t & B3 & B4).
    pose proof (rg_gap _ _ R _ _ _ _ H1 Ha Hne) as G. unfold ob_type in *. split; [exact B1|]. split; [|exists t; split; [|exact B4]].
    + apply mapped_insert; [apply (rg_typed _ _ R i a Ha); lia|exact B2].
    + change (<[a + 8 := 0]> (rg_mem r) !! (b + 8) = Some t). rewrite lookup_insert_ne by lia. exact B3.
  - intros j k b c [H1 _]%Hin [H2 _]%Hin. exact (rg_gap _ _ R _ _ _ _ H1 H2).
  - apply byte_insert; [apply R|lia].
Qed.

Lemma detach_eq L r i a : reg_rep L r -> a ∈ L i ->
  rt_object_detach a r = Some (tt, r <| rg_list ::= rt_list_remove (Obj a) |> <| rg_mem := <[ob_type a := 0]> (rg_mem r) |>).
Proof.
  intros R Ha. destruct (rg_typed _ _ R i a Ha) as (B1 & B2 & t & B3 & B4). apply Z.eqb_neq in B1.
  unfold rt_object_detach. rewrite B1. erewrite bind_eq by reflexivity. erewrite bind_eq by (apply ld_in_mem; exact B3).
  rewrite B4. erewrite bind_eq by reflexivity. erewrite bind_eq by reflexivity. rewrite sb_in_mem by eauto. reflexivity.
Qed.

(** [rt_object_detach] and [rt_object_delete] take the object out of its
    container, wherever it stands, the second only for an object that was allocated; an
    object that was removed cannot be removed again. *)
Theorem object_removed L r i a l1 l2 : reg_rep L r -> L i = l1 ++ a :: l2 ->
  exists r', reg_rep (<[i := l1 ++ l2]> L) r' /\ rt_object_detach a r = Some (tt, r') /\
    (forall b, rt_object_is_systemobject a r = Some (b, r) -> rt_object_delete a r = if b then None else Some (tt, r')) /\
    rt_object_detach a r' = None /\ rt_object_delete a r' = None.
Proof.
  intros R E. assert (a ∈ L i) as Ha by (rewrite E; apply elem_of_app; right; left).
  destruct (rg_typed _ _ R i a Ha) as (B1 & B2 & t & B3 & B4). apply Z.eqb_neq in B1.
  exists (r <| rg_list ::= rt_list_remove (Obj a) |> <| rg_mem := <[ob_type a := 0]> (rg_mem r) |>).
  assert (is_Some (rg_mem r !! ob_type a)) as Hs by eauto.
  split; [apply rep_gone; assumption|]. split; [|split; [|split]].
  - apply (detach_eq L r i); assumption.
  - intros b. unfold rt_object_is_systemobject, rt_object_delete. rewrite B1. erewrite bind_eq by reflexivity. erewrite bind_eq by (apply ld_in_mem; exact B3).
    intros [= <-]. erewrite bind_eq by reflexivity. erewrite bind_eq by (apply ld_in_mem; exact B3).
    destruct (Z.land t RT_Object_Class_Static =? 0); [|reflexivity]. erewrite bind_eq by reflexivity. rewrite B4.
    erewrite bind_eq by reflexivity. erewrite bind_eq by reflexivity. rewrite sb_in_mem by exact Hs. reflexivity.
  - unfold rt_object_detach. rewrite B1. erewrite bind_eq by reflexivity. erewrite bind_eq by (apply ld_in_mem, lookup_insert_eq). reflexivity.
  - unfold rt_object_delete. rewrite B1. erewrite bind_eq by reflexivity. erewrite bind_eq by (apply ld_in_mem, lookup_insert_eq). reflexivity.
Qed.

(** ** Allocating *)

Lemma memset_zero a n m : 0 <= n -> mapped m a (Z.to_nat n) -> rt_memset a 0 n m = Some (a, write_list a (replicate (Z.to_nat n) 0) m).
Proof. intros Hn Hm. rewrite (proj2 (memset_versions_agree a 0 n m Hn)), decide_True by exact Hm. reflexivity. Qed.

Lemma find_ext_in {A} (f g : A -> bool) l : (forall x, In x l -> f x = g x) -> List.find f l = List.find g l.
Proof.
  induction l as [|x l IH]; intros H; [reflexivity|]. cbn. rewrite (H x (or_introl eq_refl)).
  destruct (g x); [reflexivity|]. apply IH. intros y Hy. apply H. right. exact Hy.
Qed.

(** The memory with a new object of [n] bytes. *)
Definition alloc_mem (n type a : Z) (nm : list Z) (m : bytes) : bytes :=
  write_list a (name_bytes 7 nm) (<[ob_flag a := 0]> (<[ob_type a := type]> (write_list a (replicate (Z.to_nat n) 0) m))).

Lemma alloc_mem_facts n type a nm m : 10 <= n -> 0 <= type < 256 -> chars_ok nm -> byte_mem m ->
  let m' := alloc_mem n type a nm m in
  (forall x, x < a \/ a + n <= x -> m' !! x = m !! x) /\ mapped m' a 10 /\ byte_mem m' /\ m' !! ob_type a = Some type /\
  name_of m' a = take 7 nm.
Proof.
  intros Hn Ht Hc Hb m'. destruct (name_bytes_ok 7 nm Hc) as [N1 N2]. unfold m', alloc_mem, ob_flag, ob_type.
  assert (forall x, a <= x < a + 10 -> write_list a (replicate (Z.to_nat n) 0) m !! x = Some 0) as Hz.
  { intros x Hx. rewrite write_list_lookup, length_replicate, decide_True by lia. apply lookup_replicate_2. lia. }
  split; [|split; [|split; [|split]]].
  - intros x Hx. rewrite write_list_lookup, decide_False, !lookup_insert_ne, write_list_lookup, decide_False by (rewrite ?length_replicate; lia). reflexivity.
  - intros x Hx. rewrite write_list_lookup. destruct (decide _); [apply lookup_lt_is_Some_2; lia|].
    destruct (decide (a + 9 = x)) as [<-|]; [rewrite lookup_insert_eq; eauto|rewrite lookup_insert_ne by assumption].
    destruct (decide (a + 8 = x)) as [<-|]; [rewrite lookup_insert_eq; eauto|rewrite lookup_insert_ne, Hz by (assumption || lia); eauto].
  - apply byte_write; [|exact N1]. apply byte_insert; [|lia]. apply byte_insert; [|exact Ht]. apply byte_write; [exact Hb|].
    apply Forall_replicate. lia.
  - rewrite write_list_lookup, decide_False, lookup_insert_ne, lookup_insert_eq by lia. reflexivity.
  - apply name_stored; [exact Hc|lia|]. intros k Hk. rewrite !lookup_insert_ne by lia. apply Hz. lia.
Qed.

Lemma alloc_run size L r a type i name nm : fresh_object L r (size i) a -> rg_nest r = 0 ->
  0 <= type < 256 -> rt_object_get_information type = Some i -> cstr (rg_mem r) name nm -> string_apart a (size i) name nm ->
  rt_object_allocate size type name (Some a) r =
    Some (Some a, r <| rg_mem := alloc_mem (size i) type a nm (rg_mem r) |> <| rg_list := rt_list_insert_after (Info i) (Obj a) (rg_list r) |>).
Proof.
  intros F Hn Ht Hi Hs Ha. unfold string_apart in Ha. pose proof (fo_size _ _ _ _ F) as Hz. pose proof (fo_mapped _ _ _ _ F) as Hma.
  unfold rt_object_allocate. erewrite bind_eq by (unfold not_in_interrupt; erewrite bind_eq by reflexivity; rewrite Hn; reflexivity).
  rewrite Hi. erewrite bind_eq by reflexivity. erewrite bind_eq by (apply in_mem_eq, memset_zero; [lia|exact Hma]).
  set (z := write_list a (replicate (Z.to_nat (size i)) 0) (rg_mem r)).
  assert (mapped z a (Z.to_nat (size i))) as Hz0.
  { intros x Hx. unfold z. rewrite write_list_lookup, length_replicate, decide_True by lia. apply lookup_lt_is_Some_2. rewrite length_replicate. lia. }
  unfold ob_type, ob_flag, ob_name. rewrite (u8_small type) by lia. erewrite bind_eq by (apply sb_in_mem, Hz0; lia).
  assert (mapped (<[a + 8 := type]> z) a (Z.to_nat (size i))) as Hz1 by (apply mapped_insert; [apply Hz0; lia|exact Hz0]).
  erewrite bind_eq by (apply sb_in_mem, Hz1; lia). erewrite bind_eq.
  2: { apply in_mem_eq, (strncpy_name _ _ nm); change (Z.to_nat (RT_NAME_MAX - 1)) with 7%nat; [| |lia].
    - eapply cstr_outside; [exact Hs|]. intros k Hk. cbn [rg_mem]. change (<[a + 9 := 0]> (<[a + 8 := type]> z) !! k = rg_mem r !! k).
      rewrite !lookup_insert_ne by lia. unfold z. rewrite write_list_lookup, decide_False by (rewrite length_replicate; lia). reflexivity.
    - change (mapped (<[a + 9 := 0]> (<[a + 8 := type]> z)) a 7). apply mapped_insert; [apply Hz1; lia|].
      eapply mapped_sub; [exact Hz1| |]; lia. }
  destruct r. reflexivity.
Qed.

(** An object from [rt_object_allocate] has the first 7 characters of the name only,
    so that [rt_object_find] gives it for its own name when that has at most 7
    characters, and otherwise what it would have given before. *)
Theorem object_allocate_find size L r a type i name nm : reg_rep L r -> fresh_object L r (size i) a -> rg_nest r = 0 ->
  0 <= type < 256 -> rt_object_get_information type = Some i ->
  cstr (rg_mem r) name nm -> name <> 0 -> string_apart a (size i) name nm ->
  rt_object_allocate size type name None r = Some (None, r) /\
  exists r', rt_object_allocate size type name (Some a) r = Some (Some a, r') /\ reg_rep (<[i := a :: L i]> L) r' /\
    rt_object_find name type r' =
      Some (if decide (length nm <= 7)%nat then Some a else List.find (fun a => bool_decide (name_of (rg_mem r) a = take 8 nm)) (L i), r').
Proof.
  intros R F Hn Ht Hi Hs Hne Ha. split.
  { unfold rt_object_allocate. erewrite bind_eq by (unfold not_in_interrupt; erewrite bind_eq by reflexivity; rewrite Hn; reflexivity).
    rewrite Hi. reflexivity. }
  pose proof (fo_size _ _ _ _ F) as Hz. pose proof Hs as [_ Hc].
  destruct (alloc_mem_facts (size i) type a nm (rg_mem r) Hz Ht Hc (rg_bytes _ _ R)) as (M1 & M2 & M3 & M4 & M5).
  eexists. split; [apply (alloc_run size L r a type i name nm); assumption|].
  assert (reg_rep (<[i := a :: L i]> L)
    (r <| rg_mem := alloc_mem (size i) type a nm (rg_mem r) |> <| rg_list := rt_list_insert_after (Info i) (Obj a) (rg_list r) |>)) as R'
    by (eapply rep_new; eauto).
  split; [exact R'|]. set (r' := r <| rg_mem := _ |> <| rg_list := _ |>) in *. unfold string_apart in Ha.
  assert (cstr (rg_mem r') name nm) as Hs' by (eapply cstr_outside; [exact Hs|]; intros k Hk; apply M1; lia).
  rewrite (find_newest_eq _ r' type i name nm R' Hn Hi Hs' Hne), fn_lookup_insert. cbn [List.find].
  change (rg_mem r') with (alloc_mem (size i) type a nm (rg_mem r)). rewrite M5.
  destruct (decide (length nm <= 7)%nat) as [Hl|Hl].
  - rewrite !take_ge, bool_decide_eq_true_2 by (reflexivity || lia). reflexivity.
  - rewrite bool_decide_eq_false_2 by (intros E%(f_equal length); rewrite !length_take in E; lia). do 2 f_equal.
    apply find_ext_in. intros b Hb%list_elem_of_In. pose proof (fo_gap _ _ _ _ F i b Hb). rewrite (name_ext (rg_mem r)); [reflexivity|].
    intros x Hx. apply M1. lia.
Qed.

(** ** A run *)

(** 200 bytes, the names "led" at 100, "longname" at 104, "other" at 116 and room for
    objects from 8 on; all containers are empty. *)
Definition reg_mem : bytes :=
  write_list 100 [108; 101; 100; 0] (write_list 104 [108; 111; 110; 103; 110; 97; 109; 101; 0]
    (write_list 116 [111; 116; 104; 101; 114; 0] (gset_to_gmap 0 (list_to_set (seqZ 1 200))))).
Definition reg0 : registry := mkRegistry reg_mem (fun n => mkListNode n n) ∅ 0.
Definition no_objects : rt_object_info_type -> list Z := fun _ => [].

Lemma reg0_bytes : byte_mem reg_mem.
Proof.
  unfold reg_mem. repeat (apply byte_write; [|repeat constructor; lia]). intros i x H.
  apply lookup_gset_to_gmap_Some in H as [_ <-]. lia.
Qed.

Lemma reg0_rep : reg_rep no_objects reg0.
Proof.
  split; cbn; try (intros; exfalso; eapply not_elem_of_nil; eassumption).
  - intros i. split; [split; reflexivity|]. apply NoDup_singleton.
  - exact reg0_bytes.
Qed.

Lemma reg0_names : cstr reg_mem 100 [108; 101; 100] /\ cstr reg_mem 104 [108; 111; 110; 103; 110; 97; 109; 101].
Proof.
  split; (split; [|repeat constructor; lia]); intros i x E.
  - do 4 (destruct i as [|i]; [injection E as <-; reflexivity|]). discriminate.
  - do 9 (destruct i as [|i]; [injection E as <-; reflexivity|]). discriminate.
Qed.

Lemma reg0_fresh : fresh_object no_objects reg0 24 8 /\ fresh_object no_objects reg0 10 8.
Proof.
  split; (split; [discriminate|lia| |intros j b []%elem_of_nil]); apply (bool_decide_unpack _); vm_compute; exact I.
Qed.

Lemma object_find_newest_witness :
  rt_object_find 100 2 reg0 = Some (None, reg0) /\ rt_object_get_length 2 reg0 = Some (0, reg0) /\
  rt_object_get_pointers 2 5 reg0 = Some ([], reg0).
Proof.
  exact (object_find_newest no_objects reg0 2 RT_Object_Info_Semaphore 100 _ 5 reg0_rep eq_refl eq_refl (proj1 reg0_names)
    ltac:(discriminate) ltac:(cbn; lia)).
Defined.

Lemma object_init_registers_witness : exists r', rt_object_init 8 2 104 reg0 = Some (tt, r') /\
  reg_rep (<[RT_Object_Info_Semaphore := [8]]> no_objects) r' /\ name_of (rg_mem r') 8 = [108; 111; 110; 103; 110; 97; 109; 101].
Proof.
  destruct (object_init_registers no_objects reg0 8 2 RT_Object_Info_Semaphore 104
    [108; 111; 110; 103; 110; 97; 109; 101] reg0_rep ltac:(lia) eq_refl) as [_ H].
  destruct (H (proj2 reg0_fresh) (proj2 reg0_names) ltac:(unfold string_apart; cbn; lia)) as (r' & E & R & N & _).
  exists r'. split; [exact E|]. split; [exact R|exact N].
Defined.

Lemma object_allocate_find_witness : exists r', rt_object_allocate (fun _ => 24) 2 104 (Some 8) reg0 = Some (Some 8, r') /\
  reg_rep (<[RT_Object_Info_Semaphore := [8]]> no_objects) r' /\ rt_object_find 104 2 r' = Some (None, r').
Proof.
  exact (proj2 (object_allocate_find (fun _ => 24) no_objects reg0 8 2 RT_Object_Info_Semaphore 104 _ reg0_rep (proj1 reg0_fresh) eq_refl ltac:(lia)
    eq_refl (proj2 reg0_names) ltac:(discriminate) ltac:(unfold string_apart; cbn; lia))).
Defined.

(** An object at 8 with two others around it in its container. *)
Definition reg3 : registry := default reg0 (snd <$> (rt_object_init 40 2 100;; rt_object_init 8 2 104;; rt_object_init 60 2 116) reg0).
Definition three_objects (i : rt_object_info_type) : list Z := match i with RT_Object_Info_Semaphore => [60; 8; 40] | _ => [] end.

Lemma three_in (i : rt_object_info_type) a : a ∈ three_objects i -> i = RT_Object_Info_Semaphore /\ (a = 60 \/ a = 8 \/ a = 40).
Proof. destruct i; cbn; rewrite ?elem_of_cons; intros H; try (apply elem_of_nil in H; destruct H). split; [reflexivity|]. destruct H as [H|[H|[H|[]%elem_of_nil]]]; auto. Qed.

Lemma reg3_rep : reg_rep three_objects reg3.
Proof.
  split.
  - intros i. destruct i; (split; [cbn [three_objects fmap list_fmap path]; repeat split; vm_compute; reflexivity|]);
      apply (bool_decide_unpack _); vm_compute; exact I.
  - intros i j a [-> _]%three_in [-> _]%three_in. reflexivity.
  - intros i a [-> Ha]%three_in. split; [lia|]. split; [apply (bool_decide_unpack _); destruct Ha as [->|[->| ->]]; vm_compute; exact I|].
    exists 130. destruct Ha as [->|[->| ->]]; split; vm_compute; reflexivity.
  - intros i j a b [_ Ha]%three_in [_ Hb]%three_in Hne. lia.
  - assert (map_Forall (fun _ x => bool_decide (0 <= x < 256) = true) (rg_mem reg3)) as H by (apply (bool_decide_unpack _); vm_compute; exact I).
    intros i x E. apply H in E. apply bool_decide_eq_true in E. exact E.
Qed.

Lemma object_removed_witness : exists r', rt_object_detach 8 reg3 = Some (tt, r') /\ rt_object_detach 8 r' = None.
Proof.
  destruct (object_removed three_objects reg3 RT_Object_Info_Semaphore 8 [60] [40] reg3_rep eq_refl) as (r' & _ & E & _ & E' & _).
  exists r'. split; assumption.
Defined.

(** ** What the code does besides *)

(** An object that is initialised again with another type is not noticed; the list of
    its first container does not come back to its head any more. *)
Lemma object_init_other_type :
  exists r, (rt_object_init 8 2 100;; rt_object_init 8 3 100) reg0 = Some (tt, r) /\ rt_object_get_length 3 r = Some (1, r) /\
    forall fuel n, get_length_loop fuel (Info RT_Object_Info_Semaphore) (Obj 8) n r = None.
Proof.
  exists (default reg0 (snd <$> (rt_object_init 8 2 100;; rt_object_init 8 3 100) reg0)).
  split; [vm_compute; reflexivity|]. split; [vm_compute; reflexivity|].
  set (r := default reg0 _). assert (next (rg_list r (Obj 8)) = Info RT_Object_Info_Mutex) as E1 by (vm_compute; reflexivity).
  assert (next (rg_list r (Info RT_Object_Info_Mutex)) = Obj 8) as E2 by (vm_compute; reflexivity). clearbody r.
  assert (forall fuel n, get_length_loop fuel (Info RT_Object_Info_Semaphore) (Obj 8) n r = None /\
    get_length_loop fuel (Info RT_Object_Info_Semaphore) (Info RT_Object_Info_Mutex) n r = None) as H; [|intros fuel n; apply H].
  induction fuel as [|fuel IH]; intros n; [split; reflexivity|]. cbn [get_length_loop].
  rewrite !bool_decide_eq_false_2 by discriminate. unfold next_node. split; erewrite bind_eq by reflexivity.
  - rewrite E1. apply IH.
  - rewrite E2. apply IH.
Qed.

(** A name of 8 characters has no 0 behind it: [rt_object_get_name] with a larger buffer
    goes on with the type of the object. *)
Lemma object_name_over_read :
  (fun r => read_list (rg_mem r) 150 10) <$> (snd <$> (rt_object_init 8 2 104;; rt_object_get_name 8 150 16) reg0) =
  Some [108; 111; 110; 103; 110; 97; 109; 101; 130; 0].
Proof. vm_compute. reflexivity. Qed.

(** An object that was allocated with a name of 8 characters is not found by it, one
    that was initialised is. *)
Lemma object_long_name_lost :
  fst <$> (rt_object_allocate (fun _ => 24) 2 104 (Some 8);; rt_object_find 104 2) reg0 = Some None /\
  fst <$> (rt_object_init 8 2 104;; rt_object_find 104 2) reg0 = Some (Some 8).
Proof. split; vm_compute; reflexivity. Qed.
