(* ===== verification/DeviceUse.v ===== *)
(** * The use of a device

    What device.c asks of a driver, as the class [Polite], and the step of every call of
    a client: opening and closing count the users of a device. *)

From stdpp Require Import gmap.
From S2P Require Import Prelude Kernel RtList Bytes KString KStringProps Object ObjectProps Device.
Open Scope rt_scope.

(** ** Users of a device *)

(** How many have it open, and whether RT_DEVICE_OFLAG_OPEN is set. *)
Record session := mkSession { ss_users : nat; ss_open : bool }.

Inductive dcall := Open (oflag : Z) | Close | Init | Read (pos buffer size : Z) | Write (pos buffer size : Z).

Definition succeeds (r : Z) : bool := (r =? RT_EOK) || (r =? - RT_ENOSYS).

(** What a call with the result [r] does to the session of a device, which is
    [standalone] or not. *)
Inductive session_step (standalone : bool) : dcall -> Z -> session -> session -> Prop :=
| step_busy oflag n : standalone = true -> session_step standalone (Open oflag) (- RT_EBUSY) (mkSession n true) (mkSession n true)
| step_opened oflag r n o : standalone && o = false -> succeeds r = true ->
    session_step standalone (Open oflag) r (mkSession n o) (mkSession (S n) true)
| step_open_failed oflag r n o : standalone && o = false -> r <> RT_EOK ->
    session_step standalone (Open oflag) r (mkSession n o) (mkSession n o)
| step_not_open o : session_step standalone Close (- RT_ERROR) (mkSession 0 o) (mkSession 0 o)
| step_shared n o : session_step standalone Close RT_EOK (mkSession (S (S n)) o) (mkSession (S n) o)
| step_closed r o : succeeds r = true -> session_step standalone Close r (mkSession 1 o) (mkSession 0 false)
| step_close_failed r o : succeeds r = false -> session_step standalone Close r (mkSession 1 o) (mkSession 0 o)
| step_init r x : session_step standalone Init r x x
| step_read pos buffer size r n o : (n = O -> r = 0) -> session_step standalone (Read pos buffer size) r (mkSession n o) (mkSession n o)
| step_write pos buffer size r n o : (n = O -> r = 0) -> session_step standalone (Write pos buffer size) r (mkSession n o) (mkSession n o).

Inductive session_steps (standalone : bool) : list dcall -> list Z -> session -> session -> Prop :=
| steps_done x : session_steps standalone [] [] x x
| steps_call c cs r rs x y z : session_step standalone c r x y -> session_steps standalone cs rs y z ->
    session_steps standalone (c :: cs) (r :: rs) x z.

Definition registered (dev : Z) (s : devices) : Prop :=
  dev <> 0 /\ exists t, rg_mem (ds_reg s) !! ob_type dev = Some t /\ u8 (Z.land t (Z.lnot RT_Object_Class_Static)) = RT_Object_Class_Device.

Definition opened (d : rt_device) : bool := flag_set (dv_open_flag d) RT_DEVICE_OFLAG_OPEN.
Definition activated (d : rt_device) : bool := flag_set (dv_flag d) RT_DEVICE_FLAG_ACTIVATED.
Definition alone (d : rt_device) : bool := flag_set (dv_flag d) RT_DEVICE_FLAG_STANDALONE.

(** The fields that only the core changes. *)
Definition same_use (d d' : rt_device) : Prop := dv_ref_count d' = dv_ref_count d /\ alone d' = alone d.

(** The type of the object is as before and no memory is gone. *)
Definition memory_kept (dev : Z) (s s' : devices) : Prop :=
  rg_mem (ds_reg s') !! ob_type dev = rg_mem (ds_reg s) !! ob_type dev /\
  forall a, is_Some (rg_mem (ds_reg s) !! a) -> is_Some (rg_mem (ds_reg s') !! a).

(** What a driver keeps true of its device and of its own words. *)
Definition driver_inv := rt_device -> option rt_serial_device -> Prop.

(** The function [m] of a driver, called with [Q], returns, keeps the invariant of the
    driver and leaves [P] between its result and the device before and behind it. *)
Definition returns (dev : Z) (inv : driver_inv) (Q : rt_device -> Prop) (P : Z -> rt_device -> rt_device -> Prop) (m : DV Z) (s : devices) : Prop :=
  forall d, ds_dev s !! dev = Some d -> inv d (ds_serial s !! dev) -> Q d ->
  exists r s' d', m s = Some (r, s') /\ ds_dev s' !! dev = Some d' /\ inv d' (ds_serial s' !! dev) /\ memory_kept dev s s' /\ same_use d d' /\ P r d d'.

(** What device.c itself changes in the record of a device. *)
Inductive core_update : rt_device -> rt_device -> Prop :=
| core_activate d : core_update d (d <| dv_flag ::= (fun x => Z.lor x RT_DEVICE_FLAG_ACTIVATED) |>)
| core_opened d : core_update d (d <| dv_open_flag ::= (fun x => Z.lor x RT_DEVICE_OFLAG_OPEN) |>)
| core_open_flag d oflag : dv_open d = None -> core_update d (d <| dv_open_flag := Z.land oflag RT_DEVICE_OFLAG_MASK |>)
| core_closed d : core_update d (d <| dv_open_flag := RT_DEVICE_OFLAG_CLOSE |>)
| core_count d f : core_update d (d <| dv_ref_count ::= f |>)
| core_rx_indicate d f : core_update d (d <| dv_rx_indicate := f |>).

(** A buffer that a client passes is memory, and the type of the device is not in it. *)
Definition buffer_ok (dev buffer size : Z) (s : devices) : Prop :=
  0 <= size < 2 ^ 32 /\ forall a, buffer <= a < buffer + size -> is_Some (rg_mem (ds_reg s) !! a) /\ a <> ob_type dev.

(** The functions of a driver, as device.c calls them, return and leave the count of the
    users to device.c; they leave RT_DEVICE_OFLAG_OPEN alone unless they open the device,
    and only a close that succeeds may clear RT_DEVICE_FLAG_ACTIVATED. *)
Class Polite (drv : drivers) (dev : Z) (inv : driver_inv) : Prop := {
  polite_init f s : returns dev inv (fun d => dv_init d = Some f /\ activated d = false)
    (fun _ d d' => opened d' = opened d) (call_init drv f dev) s;
  polite_open f oflag s : returns dev inv (fun d => dv_open d = Some f /\ activated d = true)
    (fun r d d' => (succeeds r = true \/ opened d' = opened d) /\ activated d' = true) (call_open drv f dev oflag) s;
  polite_close f s : returns dev inv (fun d => dv_close d = Some f /\ activated d = true /\ dv_ref_count d = 0)
    (fun r d d' => opened d' = opened d /\ (succeeds r = true \/ activated d' = true)) (call_close drv f dev) s;
  polite_read f pos buffer size s : buffer_ok dev buffer size s ->
    returns dev inv (fun d => dv_read d = Some f /\ activated d = true)
      (fun _ d d' => opened d' = opened d /\ activated d' = true) (call_read drv f dev pos buffer size) s;
  polite_write f pos buffer size s : buffer_ok dev buffer size s ->
    returns dev inv (fun d => dv_write d = Some f /\ activated d = true)
      (fun _ d d' => opened d' = opened d /\ activated d' = true) (call_write drv f dev pos buffer size) s;
  polite_core d d' own : inv d own -> core_update d d' -> inv d' own;
}.

Section Use.
Context (drv : drivers) (dev : Z) (inv : driver_inv) `{Hp : Polite drv dev inv} (standalone : bool).

Definition run_call (c : dcall) : DV Z :=
  match c with
  | Open oflag => rt_device_open drv dev oflag
  | Close => rt_device_close drv dev
  | Init => rt_device_init drv dev
  | Read pos buffer size => rt_device_read drv dev pos buffer size
  | Write pos buffer size => rt_device_write drv dev pos buffer size
  end.
Fixpoint run_calls (cs : list dcall) : DV (list Z) :=
  match cs with [] => mret [] | c :: cs => r ← run_call c; rs ← run_calls cs; mret (r :: rs) end.

Definition call_ok (s : devices) (c : dcall) : Prop :=
  match c with Read _ buffer size | Write _ buffer size => buffer_ok dev buffer size s | _ => True end.

Record use_ok (x : session) (d : rt_device) : Prop := {
  us_count : dv_ref_count d = Z.of_nat (ss_users x);
  us_bound : (ss_users x <= 255)%nat;
  us_open : opened d = ss_open x;
  us_users : (0 < ss_users x)%nat -> ss_open x = true;
  us_alone : alone d = standalone;
  us_one : standalone = true -> (ss_users x <= 1)%nat;
  us_active : ss_open x = true -> activated d = true;
}.

(** The device is registered, has the record [d] and its driver's invariant. *)
Record device_at (d : rt_device) (s : devices) : Prop := {
  at_registered : registered dev s;
  at_record : ds_dev s !! dev = Some d;
  at_inv : inv d (ds_serial s !! dev);
}.
Definition dev_rep (x : session) (s : devices) : Prop := exists d, device_at d s /\ use_ok x d.

Lemma in_reg_read {A} (c : RG A) s x : c (ds_reg s) = Some (x, ds_reg s) -> in_reg c s = Some (x, s).
Proof. intros H. unfold in_reg. rewrite H. destruct s. reflexivity. Qed.
Lemma get_dev_eq s d : ds_dev s !! dev = Some d -> get_dev dev s = Some (d, s).
Proof. intros H. unfold get_dev. erewrite bind_eq by reflexivity. rewrite H. reflexivity. Qed.
Lemma upd_dev_eq s d f : ds_dev s !! dev = Some d -> upd_dev dev f s = Some (tt, s <| ds_dev ::= <[dev := f d]> |>).
Proof. intros H. unfold upd_dev. erewrite bind_eq by (apply get_dev_eq, H). reflexivity. Qed.

Lemma assert_device_eq s : registered dev s -> assert_device dev s = Some (tt, s).
Proof.
  intros (Hz & t & Ht & Hc). apply Z.eqb_neq in Hz. unfold assert_device, rt_object_get_type. rewrite Hz. erewrite bind_eq by reflexivity.
  erewrite bind_eq.
  2: { apply in_reg_read. erewrite bind_eq by reflexivity. erewrite bind_eq by (apply ld_in_mem; exact Ht). reflexivity. }
  rewrite Hc. reflexivity.
Qed.

#[local] Instance memory_kept_order : PreOrder (memory_kept dev).
Proof. split; [intros s; split; auto|]. intros s1 s2 s3 [E1 H1] [E2 H2]. split; [congruence|auto]. Qed.

Lemma registered_kept s s' : memory_kept dev s s' -> registered dev s -> registered dev s'.
Proof. intros [E _] (Hz & t & Ht & Hc). split; [exact Hz|]. exists t. rewrite E. auto. Qed.

Lemma buffer_kept s s' buffer size : memory_kept dev s s' -> buffer_ok dev buffer size s -> buffer_ok dev buffer size s'.
Proof. intros [_ K] [Hs H]. split; [exact Hs|]. intros a Ha. destruct (H a Ha). auto. Qed.

Lemma call_kept s s' c : memory_kept dev s s' -> call_ok s c -> call_ok s' c.
Proof. intros K. destruct c; cbn; intros H; try exact H; eapply buffer_kept; eassumption. Qed.

Lemma set_lor x f g : flag_set (Z.lor x f) g = flag_set x g || flag_set f g.
Proof.
  unfold flag_set. rewrite Z.land_lor_distr_l. destruct (Z.eqb_spec (Z.lor (Z.land x g) (Z.land f g)) 0) as [E|E].
  - apply Z.lor_eq_0_iff in E as [-> ->]. reflexivity.
  - destruct (Z.eqb_spec (Z.land x g) 0) as [E1|]; [|reflexivity]. destruct (Z.eqb_spec (Z.land f g) 0) as [E2|]; [|reflexivity].
    rewrite E1, E2 in E. destruct E. reflexivity.
Qed.

(** ** One step of a call *)

(** device.c changes the record. *)
Lemma at_update d s f : device_at d s -> core_update d (f d) ->
  exists s', upd_dev dev f s = Some (tt, s') /\ device_at (f d) s' /\ memory_kept dev s s'.
Proof.
  intros [R Hd I] C. eexists. split; [apply upd_dev_eq, Hd|]. split; [|split; auto].
  split; [exact R|apply lookup_insert_eq|exact (polite_core d (f d) _ I C)].
Qed.

(** A function of the driver runs. *)
Lemma at_call Q P m d s : returns dev inv Q P m s -> device_at d s -> Q d ->
  exists r s' d', m s = Some (r, s') /\ device_at d' s' /\ memory_kept dev s s' /\ same_use d d' /\ P r d d'.
Proof.
  intros H [R Hd I] HQ. destruct (H d Hd I HQ) as (r & s' & d' & E & Hd' & I' & K & U & HP). exists r, s', d'.
  split; [exact E|]. split; [|auto]. split; [exact (registered_kept s s' K R)|exact Hd'|exact I'].
Qed.

(** The same session after a function of the driver. *)
Lemma use_kept x d d' : use_ok x d -> same_use d d' -> opened d' = opened d -> (ss_open x = true -> activated d' = true) -> use_ok x d'.
Proof. intros [U1 U2 U3 U4 U5 U6 U7] [E1 E2] E3 E4. split; rewrite ?E1, ?E2, ?E3; assumption. Qed.

Lemma use_activated x d : use_ok x d -> use_ok x (d <| dv_flag ::= (fun f => Z.lor f RT_DEVICE_FLAG_ACTIVATED) |>).
Proof.
  intros [U1 U2 U3 U4 U5 U6 U7]. split; try assumption.
  - unfold alone in *. cbn. rewrite set_lor, U5. apply orb_false_r.
  - intros _. unfold activated. cbn. rewrite set_lor. apply orb_true_r.
Qed.

(** What a call that returns has done. *)
Definition step_to (c : dcall) (x : session) (s : devices) (o : option (Z * devices)) : Prop :=
  exists r s' y, o = Some (r, s') /\ session_step standalone c r x y /\ dev_rep y s' /\ memory_kept dev s s'.

Lemma step_done c x y s r d : session_step standalone c r x y -> device_at d s -> use_ok y d -> step_to c x s (Some (r, s)).
Proof. intros S A U. exists r, s, y. split; [reflexivity|]. split; [exact S|]. split; [exists d; auto|reflexivity]. Qed.
Lemma step_from c x s s' o : memory_kept dev s s' -> step_to c x s' o -> step_to c x s o.
Proof. intros K (r & s2 & y & E & S & D & K2). exists r, s2, y. repeat (split; [assumption|]). etransitivity; eassumption. Qed.

(** Opening steps or, with 255 users, stops at the assertion on the count. *)
Definition open_step_to (oflag : Z) (x : session) (s : devices) (o : option (Z * devices)) : Prop :=
  step_to (Open oflag) x s o \/ ss_users x = 255%nat /\ o = None.

Lemma open_step_from oflag x s s' o : memory_kept dev s s' -> open_step_to oflag x s' o -> open_step_to oflag x s o.
Proof. intros K [H|H]; [left; eapply step_from; eassumption|right; exact H]. Qed.

(** The end of [rt_device_open], behind the driver. *)
Lemma open_result_step n o s d oflag r : device_at d s -> dv_ref_count d = Z.of_nat n -> (n <= 255)%nat ->
  alone d = standalone -> activated d = true -> standalone && o = false -> (standalone = true -> n = O) ->
  (succeeds r = false -> use_ok (mkSession n o) d) -> open_step_to oflag (mkSession n o) s (open_result dev r s).
Proof.
  intros A E1 Hn E2 E3 Eb H1 Hf. unfold open_result. fold (succeeds r). destruct (succeeds r) eqn:Er; cbn [when].
  2: { left. eapply step_done; [|exact A|exact (Hf eq_refl)]. apply step_open_failed; [exact Eb|]. intros ->. discriminate. }
  set (fo := fun d => d <| dv_open_flag ::= (fun x => Z.lor x RT_DEVICE_OFLAG_OPEN) |>). set (fc := fun d => d <| dv_ref_count ::= (fun x => u8 (x + 1)) |>).
  destruct (at_update d s fo A (core_opened d)) as (s1 & U1 & A1 & K1).
  destruct (at_update (fo d) s1 fc A1 (core_count (fo d) _)) as (s2 & U2 & A2 & K2).
  assert (opened (fo d) = true) as Eo by (unfold opened, fo; cbn; rewrite set_lor; apply orb_true_r).
  assert (dv_ref_count (fc (fo d)) = u8 (Z.of_nat n + 1)) as Ec by (unfold fc, fo; cbn; rewrite E1; reflexivity).
  apply (open_step_from _ _ _ s1 _ K1), (open_step_from _ _ _ s2 _ K2). rewrite bind_assoc. erewrite bind_eq by exact U1. rewrite bind_assoc. erewrite bind_eq by exact U2.
  rewrite bind_assoc. erewrite bind_eq by (apply get_dev_eq, A2). rewrite Ec. destruct (decide (n = 255%nat)) as [->|Hne]; [right; split; reflexivity|left].
  rewrite u8_small by lia. rewrite (proj2 (Z.eqb_neq _ _)) by lia. erewrite bind_eq by reflexivity.
  apply (step_done _ _ (mkSession (S n) true) _ _ (fc (fo d))); [apply step_opened; assumption|exact A2|].
  split; cbn [ss_users ss_open]; try assumption; try lia; try reflexivity.
  - rewrite Ec, u8_small by lia. lia.
  - intros Hs. rewrite (H1 Hs). lia.
  - intros _. exact E3.
Qed.

Lemma open_active_step x s oflag d : device_at d s -> use_ok x d -> activated d = true -> open_step_to oflag x s (open_active drv dev oflag s).
Proof.
  intros A U Ha. destruct x as [n o]. unfold open_active. erewrite bind_eq by (apply get_dev_eq, A).
  fold (alone d) (opened d). rewrite (us_alone _ _ U), (us_open _ _ U). cbn [ss_open].
  destruct (standalone && o) eqn:Eb.
  { apply andb_true_iff in Eb as [Es ->]. left. eapply step_done; [apply step_busy, Es|exact A|exact U]. }
  assert (standalone = true -> n = O) as H1.
  { intros Es. rewrite Es in Eb. pose proof (us_users _ _ U) as H. cbn in H. destruct n; [reflexivity|]. rewrite H in Eb by lia. discriminate. }
  assert (forall r s1 d1, device_at d1 s1 -> memory_kept dev s s1 -> same_use d d1 -> activated d1 = true -> succeeds r = true \/ opened d1 = opened d ->
    open_step_to oflag (mkSession n o) s (open_result dev r s1)) as HK.
  { intros r s1 d1 A1 K Su Ha1 Ho. apply (open_step_from _ _ _ s1 _ K). pose proof Su as [S1 S2].
    apply (open_result_step n o s1 d1); rewrite ?S1, ?S2; try assumption; try apply U.
    intros Er. apply (use_kept _ d); auto. destruct Ho as [Ho|Ho]; [congruence|exact Ho]. }
  destruct (negb o || _).
  - destruct (dv_open d) as [f|] eqn:Ef.
    + destruct (at_call _ _ _ d s (polite_open f oflag s) A (conj Ef Ha)) as (r & s1 & d1 & E & A1 & K & Su & Ho & Ha1).
      erewrite bind_eq by exact E. apply (HK r s1 d1); assumption.
    + destruct (at_update d s (fun d => d <| dv_open_flag := Z.land oflag RT_DEVICE_OFLAG_MASK |>) A (core_open_flag d oflag Ef)) as (s1 & E & A1 & K).
      rewrite bind_assoc. erewrite bind_eq by exact E. eapply HK; [exact A1|exact K|split; reflexivity|exact Ha|left; reflexivity].
  - apply (HK RT_EOK s d A); [reflexivity|split; reflexivity|exact Ha|left; reflexivity].
Qed.

Lemma open_step x s oflag : dev_rep x s -> open_step_to oflag x s (rt_device_open drv dev oflag s).
Proof.
  intros (d & A & U). unfold rt_device_open. erewrite bind_eq by (apply assert_device_eq, A). erewrite bind_eq by (apply get_dev_eq, A).
  fold (activated d). destruct (activated d) eqn:Ea; cbn [negb]; [apply (open_active_step x s oflag d); assumption|].
  assert (ss_open x = false) as Eo by (destruct (ss_open x) eqn:Eo; [|reflexivity]; rewrite (us_active _ _ U Eo) in Ea; discriminate).
  assert (forall s1 d1, device_at d1 s1 -> memory_kept dev s s1 -> use_ok x d1 ->
    open_step_to oflag x s ((activate dev;; open_active drv dev oflag) s1)) as Hact.
  { intros s1 d1 A1 K1 U1. apply (open_step_from _ _ _ s1 _ K1). destruct (at_update d1 s1 _ A1 (core_activate d1)) as (s2 & E & A2 & K2).
    apply (open_step_from _ _ _ s2 _ K2). unfold activate. erewrite bind_eq by exact E.
    eapply open_active_step; [exact A2|apply use_activated, U1|]. unfold activated. cbn. rewrite set_lor. apply orb_true_r. }
  destruct (dv_init d) as [f|] eqn:Ef.
  - destruct (at_call _ _ _ d s (polite_init f s) A (conj Ef Ea)) as (r & s1 & d1 & E & A1 & K & Su & Ho).
    assert (use_ok x d1) as U1 by (apply (use_kept x d d1 U Su Ho); congruence).
    erewrite bind_eq by exact E. destruct (Z.eqb_spec r RT_EOK) as [->|Hne]; cbn [negb]; [apply (Hact s1 d1); assumption|].
    destruct x as [n o]. cbn in Eo. subst o. left. apply (step_from _ _ _ s1 _ K).
    eapply step_done; [apply step_open_failed; [apply andb_false_r|exact Hne]|exact A1|exact U1].
  - erewrite bind_eq by reflexivity. apply (Hact s d); [exact A|reflexivity|exact U].
Qed.

(** The end of [rt_device_close]: the result [r] of the driver when the last user leaves. *)
Lemma close_result_step s d d1 s1 r : device_at d s -> dv_ref_count d = 0 -> opened d = true -> alone d = standalone ->
  device_at d1 s1 -> memory_kept dev s s1 -> same_use d d1 -> opened d1 = opened d -> succeeds r = true \/ activated d1 = true ->
  step_to Close (mkSession 1 true) s
    ((when ((r =? RT_EOK) || (r =? - RT_ENOSYS)) (upd_dev dev (fun d => d <| dv_open_flag := RT_DEVICE_OFLAG_CLOSE |>));; mret r) s1).
Proof.
  intros A E1 E2 E3 A1 K [S1 S2] Ho Ha. apply (step_from _ _ _ s1 _ K). fold (succeeds r). destruct (succeeds r) eqn:Er; cbn [when].
  - destruct (at_update d1 s1 _ A1 (core_closed d1)) as (s2 & E & A2 & K2). apply (step_from _ _ _ s2 _ K2). erewrite bind_eq by exact E.
    eapply step_done; [constructor; exact Er|exact A2|]. split; cbn [ss_users ss_open]; try lia; try reflexivity; try discriminate.
    + exact (eq_trans S1 E1).
    + exact (eq_trans S2 E3).
  - destruct Ha as [Ha|Ha]; [discriminate|]. eapply step_done; [constructor; exact Er|exact A1|].
    split; cbn [ss_users ss_open]; rewrite ?S1, ?S2, ?Ho, ?E1; try lia; assumption || reflexivity || auto.
Qed.

Lemma close_step x s : dev_rep x s -> step_to Close x s (rt_device_close drv dev s).
Proof.
  intros (d & A & U). unfold rt_device_close. erewrite bind_eq by (apply assert_device_eq, A). erewrite bind_eq by (apply get_dev_eq, A).
  destruct x as [n o]. pose proof (us_count _ _ U) as En. pose proof (us_bound _ _ U) as Hn. cbn [ss_users] in *. rewrite En. destruct n as [|n].
  { eapply step_done; [constructor|exact A|exact U]. }
  rewrite (proj2 (Z.eqb_neq _ _)) by lia. set (fc := fun d => d <| dv_ref_count ::= (fun x => u8 (x - 1)) |>).
  destruct (at_update d s fc A (core_count d _)) as (s1 & E & A1 & K1). apply (step_from _ _ _ s1 _ K1). erewrite bind_eq by exact E.
  assert (dv_ref_count (fc d) = Z.of_nat n) as E1 by (unfold fc; cbn; rewrite En, u8_small by lia; lia).
  erewrite bind_eq by (apply get_dev_eq, A1). rewrite E1. pose proof (us_users _ _ U ltac:(cbn; lia)) as Eo. cbn in Eo. subst o.
  destruct n as [|n].
  2: { rewrite (proj2 (Z.eqb_neq _ _)) by lia. cbn [negb]. eapply step_done; [constructor|exact A1|].
       destruct U as [U1 U2 U3 U4 U5 U6 U7]. split; cbn [ss_users ss_open] in *; try assumption; try lia; try reflexivity.
       intros Hs. specialize (U6 Hs). lia. }
  change (negb (Z.of_nat 0 =? 0)) with false. cbv iota. pose proof (us_active _ _ U eq_refl) as Ha. pose proof (us_open _ _ U) as Hop.
  pose proof (us_alone _ _ U) as Hal. change (dv_close (fc d)) with (dv_close d). destruct (dv_close d) as [f|] eqn:Ef.
  - destruct (at_call _ _ _ (fc d) s1 (polite_close f s1) A1 (conj Ef (conj Ha E1))) as (r & s2 & d2 & E2 & A2 & K2 & Su & Ho & Ha2).
    erewrite bind_eq by exact E2. eapply (close_result_step s1 (fc d)); eassumption.
  - erewrite bind_eq by reflexivity. apply (close_result_step s1 (fc d) (fc d)); try assumption; try reflexivity; [split; reflexivity|left; reflexivity].
Qed.

Lemma init_step x s : dev_rep x s -> step_to Init x s (rt_device_init drv dev s).
Proof.
  intros (d & A & U). pose proof (at_registered _ _ A) as [Hz _]. unfold rt_device_init.
  erewrite bind_eq by (apply assert_eq, negb_true_iff, Z.eqb_neq, Hz). erewrite bind_eq by (apply get_dev_eq, A).
  assert (step_to Init x s (Some (RT_EOK, s))) as Hret by (eapply step_done; [constructor|exact A|exact U]).
  destruct (dv_init d) as [f|] eqn:Ef; [|exact Hret]. fold (activated d). destruct (activated d) eqn:Ea; cbn [negb]; [exact Hret|].
  destruct (at_call _ _ _ d s (polite_init f s) A (conj Ef Ea)) as (r & s1 & d1 & E & A1 & K & Su & Ho). apply (step_from _ _ _ s1 _ K).
  assert (use_ok x d1) as U1 by (apply (use_kept x d d1 U Su Ho); intros Hx; rewrite (us_active _ _ U Hx) in Ea; discriminate).
  erewrite bind_eq by exact E. destruct (negb (r =? RT_EOK)); [eapply step_done; [constructor|exact A1|exact U1]|].
  destruct (at_update d1 s1 _ A1 (core_activate d1)) as (s2 & E2 & A2 & K2). apply (step_from _ _ _ s2 _ K2). unfold activate. erewrite bind_eq by exact E2.
  eapply step_done; [constructor|exact A2|apply use_activated, U1].
Qed.

(** [rt_device_read] and [rt_device_write] have the same shape. *)
Lemma transfer_step x s c (get : rt_device -> option Z) (call : Z -> DV Z) : dev_rep x s ->
  (forall r, (ss_users x = O -> r = 0) -> session_step standalone c r x x) ->
  (forall f, returns dev inv (fun d => get d = Some f /\ activated d = true) (fun _ d d' => opened d' = opened d /\ activated d' = true) (call f) s) ->
  step_to c x s ((assert_device dev;; d ← get_dev dev;
    if dv_ref_count d =? 0 then rt_set_errno (- RT_ERROR);; mret 0 else
    match get d with Some f => call f | None => rt_set_errno (- RT_ENOSYS);; mret 0 end) s).
Proof.
  intros (d & A & U) Hs Hc. erewrite bind_eq by (apply assert_device_eq, A). erewrite bind_eq by (apply get_dev_eq, A).
  assert (forall e, step_to c x s ((rt_set_errno e;; mret 0) s)) as Herr.
  { intros e. exists 0. eexists _, x. split; [reflexivity|]. split; [apply Hs; reflexivity|]. split; [|split; auto].
    exists d. split; [|exact U]. destruct A. split; assumption. }
  rewrite (us_count _ _ U). destruct (Z.eqb_spec (Z.of_nat (ss_users x)) 0) as [E|E]; [apply Herr|].
  destruct (get d) as [f|] eqn:Ef; [|apply Herr].
  pose proof (us_active _ _ U (us_users _ _ U ltac:(lia))) as Ha.
  destruct (at_call _ _ _ d s (Hc f) A (conj Ef Ha)) as (r & s1 & d1 & E1 & A1 & K & Su & Ho & Ha1). rewrite E1. apply (step_from _ _ _ s1 _ K).
  eapply step_done; [apply Hs; lia|exact A1|]. apply (use_kept x d); auto.
Qed.

Lemma read_step x s pos buffer size : dev_rep x s -> buffer_ok dev buffer size s ->
  step_to (Read pos buffer size) x s (rt_device_read drv dev pos buffer size s).
Proof.
  intros D B. apply (transfer_step x s _ dv_read (fun f => call_read drv f dev pos buffer size) D).
  - intros r Hr. destruct x. constructor. exact Hr.
  - intros f. apply polite_read, B.
Qed.
Lemma write_step x s pos buffer size : dev_rep x s -> buffer_ok dev buffer size s ->
  step_to (Write pos buffer size) x s (rt_device_write drv dev pos buffer size s).
Proof.
  intros D B. apply (transfer_step x s _ dv_write (fun f => call_write drv f dev pos buffer size) D).
  - intros r Hr. destruct x. constructor. exact Hr.
  - intros f. apply polite_write, B.
Qed.

(** A call steps, unless it is an open that stops at the assertion. *)
Definition stops (c : dcall) (x : session) (s : devices) : Prop :=
  ss_users x = 255%nat /\ exists oflag, c = Open oflag /\ rt_device_open drv dev oflag s = None.

Lemma dcall_step c x s : dev_rep x s -> call_ok s c -> step_to c x s (run_call c s) \/ stops c x s.
Proof.
  intros D B. destruct c as [oflag| | |pos buffer size|pos buffer size]; cbn [run_call].
  - destruct (open_step x s oflag D) as [H|[H1 H2]]; [left; exact H|right; split; [exact H1|exists oflag; auto]].
  - left. apply close_step, D.
  - left. apply init_step, D.
  - left. apply read_step; assumption.
  - left. apply write_step; assumption.
Qed.

End Use.
