(* ===== verification/SerialProps.v ===== *)
(** * The serial driver is polite

    The functions of Serial.v return and keep the invariant of a device that is registered
    without DMA, as all the UARTs of the board are: a mode in the open flags has its buffer,
    and a device that is not activated has no mode set. *)

From stdpp Require Import gmap.
From S2P Require Import Prelude Ring RtList Kernel RtListProps Bytes KString KStringProps Object ObjectProps Device DeviceUse Serial.
Open Scope rt_scope.

(** ** Flags as bits *)

Lemma flag_bit x k : 0 <= k -> flag_set x (2 ^ k) = Z.testbit x k.
Proof.
  intros Hk. unfold flag_set. destruct (Z.testbit x k) eqn:E.
  - destruct (Z.eqb_spec (Z.land x (2 ^ k)) 0) as [H|]; [|reflexivity]. apply (f_equal (fun z => Z.testbit z k)) in H.
    rewrite Z.land_spec, Z.pow2_bits_true, E, Z.bits_0 in H by exact Hk. discriminate.
  - rewrite (proj2 (Z.eqb_eq _ _)); [reflexivity|]. apply Z.bits_inj'. intros i Hi. rewrite Z.land_spec, Z.bits_0, Z.pow2_bits_eqb by exact Hk.
    destruct (Z.eqb_spec k i) as [<-|]; [rewrite E; reflexivity|apply andb_false_r].
Qed.

(** The modes: INT_RX, DMA_RX, INT_TX and DMA_TX. *)
Definition mode_bit (k : Z) : Prop := 8 <= k < 12.

Lemma mode_lor x f k : mode_bit k -> flag_set (Z.lor x f) (2 ^ k) = flag_set x (2 ^ k) || flag_set f (2 ^ k).
Proof. unfold mode_bit. intros H. rewrite !flag_bit by lia. apply Z.lor_spec. Qed.
Lemma mode_ldiff x f k : mode_bit k -> flag_set (Z.ldiff x f) (2 ^ k) = flag_set x (2 ^ k) && negb (flag_set f (2 ^ k)).
Proof. unfold mode_bit. intros H. rewrite !flag_bit by lia. apply Z.ldiff_spec. Qed.
Lemma mode_byte x k : mode_bit k -> flag_set (Z.land x 255) (2 ^ k) = false.
Proof.
  unfold mode_bit. intros H. rewrite flag_bit, Z.land_spec by lia. change 255 with (Z.ones 8). rewrite Z.ones_spec_high by lia. apply andb_false_r.
Qed.
(** ** The operations of the UART *)

(** They return and see the devices only through the hardware; [putc] has always sent the
    character when it returns, as that of the board. *)
Class Uart (ops : rt_uart_ops) : Prop := {
  uart_configure f dev s : op_configure ops = Some f -> exists r h, f dev s = Some (r, s <| ds_hw := h |>);
  uart_control dev cmd arg s : exists r h, op_control ops dev cmd arg s = Some (r, s <| ds_hw := h |>);
  uart_putc dev c s : exists r h, op_putc ops dev c s = Some (r, s <| ds_hw := h |>) /\ r <> -1;
  uart_getc dev s : exists r h, op_getc ops dev s = Some (r, s <| ds_hw := h |>);
}.

(** ** The invariant *)

Record fifo_ok (bufsz : Z) (f : rt_serial_rx_fifo) : Prop := {
  ff_length : Z.of_nat (length (rf_buffer f)) = bufsz;
  ff_put : 0 <= rf_put_index f < bufsz;
  ff_get : 0 <= rf_get_index f < bufsz;
}.

Record serial_ok (d : rt_device) (x : rt_serial_device) : Prop := {
  so_fns : dv_init d = Some fn_init /\ dv_open d = Some fn_open /\ dv_close d = Some fn_close /\ dv_read d = Some fn_read /\ dv_write d = Some fn_write;
  so_no_dma : flag_set (dv_flag d) RT_DEVICE_FLAG_DMA_RX = false /\ flag_set (dv_flag d) RT_DEVICE_FLAG_DMA_TX = false;
  so_open_dma : flag_set (dv_open_flag d) RT_DEVICE_FLAG_DMA_RX = false /\ flag_set (dv_open_flag d) RT_DEVICE_FLAG_DMA_TX = false;
  so_bufsz : 0 < config_bufsz x < 2 ^ 16;
  so_rx : match serial_rx x with Some (RxFifo f) => fifo_ok (config_bufsz x) f | Some (RxDma _) => False
    | None => flag_set (dv_open_flag d) RT_DEVICE_FLAG_INT_RX = false end;
  so_tx : serial_tx x = None -> flag_set (dv_open_flag d) RT_DEVICE_FLAG_INT_TX = false;
  so_idle : activated d = false -> flag_set (dv_open_flag d) RT_DEVICE_FLAG_INT_RX = false /\ flag_set (dv_open_flag d) RT_DEVICE_FLAG_INT_TX = false;
}.
Definition serial_inv : driver_inv := fun d own => match own with Some x => serial_ok d x | None => False end.

Lemma serial_core d d' own : serial_inv d own -> core_update d d' -> serial_inv d' own.
Proof.
  destruct own as [x|]; [|auto]. cbn. intros [H1 H2 H3 H4 H5 H6 H7] C. destruct C as [d|d|d oflag E|d|d f|d f].
  - split; try assumption; cbn.
    + rewrite (mode_lor _ _ 9), (mode_lor _ _ 11) by (unfold mode_bit; lia). rewrite !orb_false_r. exact H2.
    + unfold activated. cbn. rewrite set_lor, orb_true_r. discriminate.
  - assert (forall k, mode_bit k -> flag_set (Z.lor (dv_open_flag d) RT_DEVICE_OFLAG_OPEN) (2 ^ k) = flag_set (dv_open_flag d) (2 ^ k)) as E.
    { intros k Hk. rewrite mode_lor by exact Hk. unfold RT_DEVICE_OFLAG_OPEN. change 8 with (2 ^ 3). rewrite (flag_bit (2 ^ 3)), Z.pow2_bits_false by (unfold mode_bit in Hk; lia). apply orb_false_r. }
    pose proof (E 8 ltac:(unfold mode_bit; lia)) as E8. pose proof (E 9 ltac:(unfold mode_bit; lia)) as E9.
    pose proof (E 10 ltac:(unfold mode_bit; lia)) as E10. pose proof (E 11 ltac:(unfold mode_bit; lia)) as E11.
    change (2 ^ 8) with 256 in E8. change (2 ^ 9) with 512 in E9. change (2 ^ 10) with 1024 in E10. change (2 ^ 11) with 2048 in E11.
    split; try assumption; cbn; unfold RT_DEVICE_FLAG_INT_RX, RT_DEVICE_FLAG_DMA_RX, RT_DEVICE_FLAG_INT_TX, RT_DEVICE_FLAG_DMA_TX in *; rewrite ?E8, ?E9, ?E10, ?E11; assumption.
  - destruct H1 as (_ & H1 & _). congruence.
  - split; try assumption; cbn; auto. destruct (serial_rx x) as [[]|]; auto.
  - split; assumption.
  - split; assumption.
Qed.

(** ** Running a function of the driver *)

Section Serial.
Context (ops : rt_uart_ops) `{Uart ops} (malloc : Z -> option Z) (sizeof : serial_block -> Z).
Hypothesis heap_has_room : forall n, malloc n <> None.
Context (dev : Z) (Hdev : dev <> 0).

(** In [s] the device has the record [d] and the words [x]; of [s0] the registry is as before. *)
Record here (d : rt_device) (x : rt_serial_device) (s0 s : devices) : Prop := {
  he_dev : ds_dev s !! dev = Some d;
  he_serial : ds_serial s !! dev = Some x;
  he_reg : ds_reg s = ds_reg s0;
}.
(** [m] returns, and [P] holds of its result and of what the device then is. *)
Definition ends {A} (m : DV A) (s0 s : devices) (P : A -> rt_device -> rt_serial_device -> Prop) : Prop :=
  exists a s' d x, m s = Some (a, s') /\ here d x s0 s' /\ P a d x.

Lemma ends_ret {A} (a : A) d x s0 s P : here d x s0 s -> P a d x -> ends (mret a) s0 s P.
Proof. intros Hh HP. exists a, s, d, x. split; [reflexivity|]. split; assumption. Qed.

Lemma ends_bind {A B} (m : DV A) (k : A -> DV B) s0 s P a s' : m s = Some (a, s') -> ends (k a) s0 s' P -> ends (m ≫= k) s0 s P.
Proof. intros E (b & s2 & d & x & E2 & R). exists b, s2, d, x. split; [erewrite bind_eq by exact E; exact E2|exact R]. Qed.

Lemma ends_assoc {A B C} (m : DV A) (k : A -> DV B) (k' : B -> DV C) s0 s P :
  ends (m ≫= (fun a => k a ≫= k')) s0 s P -> ends ((m ≫= k) ≫= k') s0 s P.
Proof. intros (b & s2 & d & x & E & R). exists b, s2, d, x. split; [rewrite bind_assoc; exact E|exact R]. Qed.
Ltac ends_norm := repeat match goal with |- ends ((_ ≫= _) ≫= _) _ _ _ => apply ends_assoc end.

Lemma ends_assert {B} b (k : unit -> DV B) s0 s P : b = true -> ends (k tt) s0 s P -> ends (rt_assert b ≫= k) s0 s P.
Proof. intros -> Hk. eapply ends_bind; [reflexivity|exact Hk]. Qed.

Lemma ends_get_dev {B} (k : rt_device -> DV B) d x s0 s P : here d x s0 s -> ends (k d) s0 s P -> ends (get_dev dev ≫= k) s0 s P.
Proof. intros Hh. apply ends_bind. apply get_dev_eq, Hh. Qed.

Lemma get_serial_eq s x : ds_serial s !! dev = Some x -> get_serial dev s = Some (x, s).
Proof. intros E. unfold get_serial. erewrite bind_eq by reflexivity. rewrite E. reflexivity. Qed.
Lemma upd_serial_eq s x f : ds_serial s !! dev = Some x -> upd_serial dev f s = Some (tt, s <| ds_serial ::= <[dev := f x]> |>).
Proof. intros E. unfold upd_serial. erewrite bind_eq by (apply get_serial_eq, E). reflexivity. Qed.

Lemma ends_get_serial {B} (k : rt_serial_device -> DV B) d x s0 s P : here d x s0 s -> ends (k x) s0 s P -> ends (get_serial dev ≫= k) s0 s P.
Proof. intros Hh. apply ends_bind. apply get_serial_eq, Hh. Qed.

Lemma ends_upd_dev {B} f (k : unit -> DV B) d x s0 s P : here d x s0 s ->
  (forall s', here (f d) x s0 s' -> ends (k tt) s0 s' P) -> ends (upd_dev dev f ≫= k) s0 s P.
Proof.
  intros [H1 H2 H3] Hk. eapply ends_bind; [apply upd_dev_eq, H1|]. apply Hk. split; [apply lookup_insert_eq|exact H2|exact H3].
Qed.

Lemma ends_upd_serial {B} f (k : unit -> DV B) d x s0 s P : here d x s0 s ->
  (forall s', here d (f x) s0 s' -> ends (k tt) s0 s' P) -> ends (upd_serial dev f ≫= k) s0 s P.
Proof.
  intros [H1 H2 H3] Hk. eapply ends_bind; [apply upd_serial_eq, H2|]. apply Hk. split; [exact H1|apply lookup_insert_eq|exact H3].
Qed.

Lemma ends_control {B} cmd arg (k : Z -> DV B) d x s0 s P : here d x s0 s ->
  (forall r s', here d x s0 s' -> ends (k r) s0 s' P) -> ends (op_control ops dev cmd arg ≫= k) s0 s P.
Proof.
  intros [H1 H2 H3] Hk. destruct (uart_control dev cmd arg s) as (r & h & E). eapply ends_bind; [exact E|]. apply Hk. split; assumption.
Qed.

Lemma ends_alloc {B} n (k : unit -> DV B) s0 s P : ends (k tt) s0 s P -> ends (alloc_block malloc n ≫= k) s0 s P.
Proof. unfold alloc_block. apply ends_assert. destruct (malloc _) eqn:E; [reflexivity|destruct (heap_has_room _ E)]. Qed.

(** What [returns] asks, from a run that leaves the registry alone. *)
Lemma ends_returns (Q : rt_device -> Prop) P m s :
  (forall d x, here d x s s -> serial_ok d x -> Q d -> ends m s s (fun r d' x' => serial_ok d' x' /\ same_use d d' /\ P r d d')) ->
  returns dev serial_inv Q P m s.
Proof.
  intros Hm d Hd I HQ. destruct (ds_serial s !! dev) as [x|] eqn:Hx; [|destruct I].
  destruct (Hm d x) as (r & s' & d' & x' & E & [H1 H2 H3] & I' & U & HP); [split; [exact Hd|exact Hx|reflexivity]|exact I|exact HQ|].
  exists r, s', d'. split; [exact E|]. split; [exact H1|]. split; [rewrite H2; exact I'|]. split; [|split; assumption].
  split; rewrite H3; auto.
Qed.

(** ** Init *)

Lemma serial_init_returns s : returns dev serial_inv (fun d => dv_init d = Some fn_init /\ activated d = false)
  (fun _ d d' => opened d' = opened d) (rt_serial_init ops dev) s.
Proof.
  apply ends_returns. intros d x Hh I [_ Ha]. unfold rt_serial_init. apply ends_assert; [apply negb_true_iff, Z.eqb_neq, Hdev|].
  eapply ends_upd_serial; [exact Hh|]. intros s1 H1. eapply ends_upd_serial; [exact H1|]. intros s2 H2.
  eapply ends_upd_serial; [exact H2|]. intros s3 H3. set (x3 := mkSerial (config_bufsz x) None None None). change (here d x3 s s3) in H3.
  assert (serial_ok d x3) as I3.
  { destruct I as [I1 I2 I3 I4 I5 I6 I7]. destruct (I7 Ha). split; auto. }
  destruct (op_configure ops) as [f|] eqn:Ef; [|eapply ends_ret; [exact H3|]; split; [exact I3|split; [split|]; reflexivity]].
  destruct (uart_configure f dev s3 Ef) as (r & h & E). exists r, (s3 <| ds_hw := h |>), d, x3. split; [exact E|].
  split; [destruct H3; split; assumption|]. split; [exact I3|]. split; [split|]; reflexivity.
Qed.

(** ** Open *)

Definition or_mode (flag : Z) (b : bool) (d : rt_device) : rt_device := if b then d <| dv_open_flag ::= (fun x => Z.lor x flag) |> else d.
Definition opened_rx (b : bool) (x : rt_serial_device) : option serial_rx_buffer :=
  match serial_rx x with None => if b then Some (RxFifo (mkRxFifo (replicate (Z.to_nat (config_bufsz x)) 0) 0 0 false)) else None | o => o end.
Definition opened_tx (b : bool) (x : rt_serial_device) : option serial_tx_buffer :=
  match serial_tx x with None => if b then Some TxFifo else None | o => o end.

Lemma ends_open_rx {B} oflag (k : unit -> DV B) d x s0 s P : here d x s0 s -> flag_set oflag RT_DEVICE_FLAG_DMA_RX = false ->
  let b := flag_set oflag RT_DEVICE_FLAG_INT_RX in
  (forall s', here (or_mode RT_DEVICE_FLAG_INT_RX b d) (x <| serial_rx := opened_rx b x |>) s0 s' -> ends (k tt) s0 s' P) ->
  ends (open_rx ops malloc sizeof dev oflag ≫= k) s0 s P.
Proof.
  intros Hh Hn b Hk. unfold open_rx. ends_norm. eapply ends_get_serial; [exact Hh|]. rewrite Hn. fold b. unfold opened_rx in Hk.
  destruct (serial_rx x) as [f|] eqn:Ef; destruct b; cbn [or_mode when] in Hk |- *.
  - eapply ends_upd_dev; [exact Hh|]. intros s' H'. apply Hk. replace (x <| serial_rx := _ |>) with x; [exact H'|]. destruct x. cbn in Ef. subst. reflexivity.
  - eapply ends_bind; [reflexivity|]. apply Hk. replace (x <| serial_rx := _ |>) with x; [exact Hh|]. destruct x. cbn in Ef. subst. reflexivity.
  - unfold new_rx_fifo. ends_norm. eapply ends_get_serial; [exact Hh|]. ends_norm. apply ends_alloc.
    eapply ends_upd_serial; [exact Hh|]. intros s1 H1. ends_norm. eapply ends_upd_dev; [exact H1|]. intros s2 H2. ends_norm.
    eapply ends_control; [exact H2|]. intros r s3 H3. eapply ends_bind; [reflexivity|]. apply Hk, H3.
  - eapply ends_upd_serial; [exact Hh|]. intros s' H'. apply Hk, H'.
Qed.

Lemma ends_open_tx {B} oflag (k : unit -> DV B) d x s0 s P : here d x s0 s -> flag_set oflag RT_DEVICE_FLAG_DMA_TX = false ->
  let b := flag_set oflag RT_DEVICE_FLAG_INT_TX in
  (forall s', here (or_mode RT_DEVICE_FLAG_INT_TX b d) (x <| serial_tx := opened_tx b x |>) s0 s' -> ends (k tt) s0 s' P) ->
  ends (open_tx ops malloc sizeof dev oflag ≫= k) s0 s P.
Proof.
  intros Hh Hn b Hk. unfold open_tx. ends_norm. eapply ends_get_serial; [exact Hh|]. rewrite Hn. fold b. unfold opened_tx in Hk.
  destruct (serial_tx x) as [f|] eqn:Ef; destruct b; cbn [or_mode when] in Hk |- *.
  - eapply ends_upd_dev; [exact Hh|]. intros s' H'. apply Hk. replace (x <| serial_tx := _ |>) with x; [exact H'|]. destruct x. cbn in Ef. subst. reflexivity.
  - eapply ends_bind; [reflexivity|]. apply Hk. replace (x <| serial_tx := _ |>) with x; [exact Hh|]. destruct x. cbn in Ef. subst. reflexivity.
  - ends_norm. apply ends_alloc. ends_norm. eapply ends_upd_serial; [exact Hh|]. intros s1 H1. ends_norm.
    eapply ends_upd_dev; [exact H1|]. intros s2 H2. ends_norm.
    eapply ends_control; [exact H2|]. intros r s3 H3. eapply ends_bind; [reflexivity|]. apply Hk, H3.
  - eapply ends_upd_serial; [exact Hh|]. intros s' H'. apply Hk, H'.
Qed.

(** The open flags that [rt_serial_open] leaves. *)
Definition open_modes (oflag : Z) (br bt : bool) (stream : Z) : Z :=
  Z.lor (Z.lor (Z.lor (Z.land oflag 255) (if br then RT_DEVICE_FLAG_INT_RX else 0)) (if bt then RT_DEVICE_FLAG_INT_TX else 0)) stream.

Lemma open_modes_set oflag br bt stream : stream = 0 \/ stream = RT_DEVICE_FLAG_STREAM ->
  let v := open_modes oflag br bt stream in
  flag_set v RT_DEVICE_FLAG_INT_RX = br /\ flag_set v RT_DEVICE_FLAG_INT_TX = bt /\
  flag_set v RT_DEVICE_FLAG_DMA_RX = false /\ flag_set v RT_DEVICE_FLAG_DMA_TX = false.
Proof.
  intros Hs v. unfold v, open_modes, RT_DEVICE_FLAG_INT_RX, RT_DEVICE_FLAG_INT_TX, RT_DEVICE_FLAG_DMA_RX, RT_DEVICE_FLAG_DMA_TX.
  change 512 with (2 ^ 9). change 2048 with (2 ^ 11). change 256 with (2 ^ 8). change 1024 with (2 ^ 10).
  rewrite !mode_lor, !mode_byte by (unfold mode_bit; lia). destruct br, bt, Hs as [->| ->]; repeat split; reflexivity.
Qed.

Lemma opened_modes d oflag br bt stream :
  (or_mode RT_DEVICE_FLAG_INT_TX bt (or_mode RT_DEVICE_FLAG_INT_RX br (d <| dv_open_flag := Z.land oflag 255 |>)))
    <| dv_open_flag ::= (fun x => Z.lor x stream) |> = d <| dv_open_flag := open_modes oflag br bt stream |>.
Proof. unfold open_modes. destruct br, bt; cbn; rewrite ?Z.lor_0_r; reflexivity. Qed.

(** A mode that the device does not have. *)
Lemma not_lacked oflag d flag : flag_set oflag flag && negb (flag_set (dv_flag d) flag) = false -> flag_set (dv_flag d) flag = false -> flag_set oflag flag = false.
Proof. intros E1 E2. rewrite E2 in E1. cbn in E1. rewrite andb_true_r in E1. exact E1. Qed.

Lemma fresh_fifo_ok N : 0 < N < 2 ^ 16 -> fifo_ok N (mkRxFifo (replicate (Z.to_nat N) 0) 0 0 false).
Proof. intros H0. split; cbn; [rewrite length_replicate|..]; lia. Qed.

Lemma serial_opened_ok d x oflag br bt stream : serial_ok d x -> activated d = true -> stream = 0 \/ stream = RT_DEVICE_FLAG_STREAM ->
  serial_ok (d <| dv_open_flag := open_modes oflag br bt stream |>) (x <| serial_rx := opened_rx br x |> <| serial_tx := opened_tx bt x |>).
Proof.
  intros [I1 I2 I3 I4 I5 I6 I7] Ha Hs. destruct (open_modes_set oflag br bt stream Hs) as (E1 & E2 & E3 & E4).
  split; cbn [dv_open_flag dv_flag config_bufsz serial_rx serial_tx set_field]; auto.
  - cbn. unfold opened_rx. destruct (serial_rx x) as [[f|a]|]; [exact I5|destruct I5|]. destruct br; [apply fresh_fifo_ok, I4|exact E1].
  - cbn. unfold opened_tx. destruct (serial_tx x); [discriminate|]. destruct bt; [discriminate|]. intros _. exact E2.
  - unfold activated in *. cbn. intros E. rewrite Ha in E. discriminate.
Qed.

Lemma serial_open_returns oflag s : returns dev serial_inv (fun d => dv_open d = Some fn_open /\ activated d = true)
  (fun r d d' => (succeeds r = true \/ opened d' = opened d) /\ activated d' = true) (rt_serial_open ops malloc sizeof dev oflag) s.
Proof.
  apply ends_returns. intros d x Hh I [_ Ha]. unfold rt_serial_open. apply ends_assert; [apply negb_true_iff, Z.eqb_neq, Hdev|].
  eapply ends_get_dev; [exact Hh|]. cbv zeta.
  assert (ends (mret (- RT_EIO) : DV Z) s s (fun r d' x' => serial_ok d' x' /\ same_use d d' /\ (succeeds r = true \/ opened d' = opened d) /\ activated d' = true)) as Heio.
  { eapply ends_ret; [exact Hh|]. split; [exact I|]. split; [split; reflexivity|]. auto. }
  destruct (flag_set oflag RT_DEVICE_FLAG_DMA_RX && _) eqn:F1; [exact Heio|]. destruct (flag_set oflag RT_DEVICE_FLAG_DMA_TX && _) eqn:F2; [exact Heio|].
  destruct (flag_set oflag RT_DEVICE_FLAG_INT_RX && _); [exact Heio|]. destruct (flag_set oflag RT_DEVICE_FLAG_INT_TX && _); [exact Heio|]. clear Heio.
  destruct (so_no_dma _ _ I) as [N1 N2]. apply not_lacked in F1; [|exact N1]. apply not_lacked in F2; [|exact N2].
  set (stream := if _ || _ then RT_DEVICE_FLAG_STREAM else 0). assert (stream = 0 \/ stream = RT_DEVICE_FLAG_STREAM) as Hs by (unfold stream; destruct (_ || _); auto).
  clearbody stream. eapply ends_upd_dev; [exact Hh|]. intros s1 H1. eapply ends_open_rx; [exact H1|exact F1|]. intros s2 H2.
  eapply ends_open_tx; [exact H2|exact F2|]. intros s3 H3. unfold or_open_flag. eapply ends_upd_dev; [exact H3|]. intros s4 H4. rewrite opened_modes in H4.
  eapply ends_ret; [exact H4|]. split; [exact (serial_opened_ok d x _ _ _ _ I Ha Hs)|]. split; [split; reflexivity|]. split; [left; reflexivity|exact Ha].
Qed.

(** ** Close *)

Lemma ends_close_mode {B} flag (free : DV unit) (k : unit -> DV B) d x s0 s P : here d x s0 s ->
  (forall s', here (d <| dv_open_flag ::= (fun v => Z.ldiff v flag) |>) x s0 s' -> ends (free ≫= k) s0 s' P) ->
  ends (close_mode ops dev flag free ≫= k) s0 s P.
Proof.
  intros Hh Hk. unfold close_mode. ends_norm. eapply ends_control; [exact Hh|]. intros r s1 H1. unfold clear_open_flag. ends_norm.
  eapply ends_upd_dev; [exact H1|]. exact Hk.
Qed.

Lemma ends_free_rx {B} (k : unit -> DV B) d x s0 s P : here d x s0 s -> serial_rx x <> None ->
  (forall s', here d (x <| serial_rx := None |>) s0 s' -> ends (k tt) s0 s' P) -> ends (free_rx dev ≫= k) s0 s P.
Proof.
  intros Hh Hx Hk. unfold free_rx. ends_norm. eapply ends_get_serial; [exact Hh|]. ends_norm. apply ends_assert; [destruct (serial_rx x); [reflexivity|destruct (Hx eq_refl)]|].
  eapply ends_upd_serial; [exact Hh|exact Hk].
Qed.
Lemma ends_free_tx {B} (k : unit -> DV B) d x s0 s P : here d x s0 s -> serial_tx x <> None ->
  (forall s', here d (x <| serial_tx := None |>) s0 s' -> ends (k tt) s0 s' P) -> ends (free_tx dev ≫= k) s0 s P.
Proof.
  intros Hh Hx Hk. unfold free_tx. ends_norm. eapply ends_get_serial; [exact Hh|]. ends_norm. apply ends_assert; [destruct (serial_tx x); [reflexivity|destruct (Hx eq_refl)]|].
  eapply ends_upd_serial; [exact Hh|exact Hk].
Qed.

Definition clear_mode (flag : Z) (d : rt_device) : rt_device :=
  if flag_set (dv_open_flag d) flag then d <| dv_open_flag ::= (fun v => Z.ldiff v flag) |> else d.
Definition closed_rx (d : rt_device) (x : rt_serial_device) : rt_serial_device :=
  if flag_set (dv_open_flag d) RT_DEVICE_FLAG_INT_RX then x <| serial_rx := None |> else x.
Definition closed_tx (d : rt_device) (x : rt_serial_device) : rt_serial_device :=
  if flag_set (dv_open_flag d) RT_DEVICE_FLAG_INT_TX then x <| serial_tx := None |> else x.

Lemma clear_mode_set j k d : 0 <= j -> 0 <= k ->
  flag_set (dv_open_flag (clear_mode (2 ^ j) d)) (2 ^ k) = flag_set (dv_open_flag d) (2 ^ k) && negb (j =? k).
Proof.
  intros Hj Hk. unfold clear_mode. destruct (flag_set (dv_open_flag d) (2 ^ j)) eqn:E.
  - cbn. rewrite !flag_bit, Z.ldiff_spec, Z.pow2_bits_eqb by assumption. reflexivity.
  - destruct (Z.eqb_spec j k) as [<-|]; [rewrite E; reflexivity|rewrite andb_true_r; reflexivity].
Qed.

Lemma clear_modes_set k d : 0 <= k -> let d' := clear_mode RT_DEVICE_FLAG_INT_TX (clear_mode RT_DEVICE_FLAG_INT_RX d) in
  flag_set (dv_open_flag d') (2 ^ k) = flag_set (dv_open_flag d) (2 ^ k) && negb (8 =? k) && negb (10 =? k).
Proof. intros Hk d'. unfold d'. rewrite (clear_mode_set 10) by lia. rewrite (clear_mode_set 8) by lia. reflexivity. Qed.

Lemma clear_mode_fields flag d : exists v, clear_mode flag d = d <| dv_open_flag := v |>.
Proof. unfold clear_mode. destruct (flag_set _ _); [eexists; reflexivity|exists (dv_open_flag d); destruct d; reflexivity]. Qed.

Lemma serial_closed_ok d x : serial_ok d x -> let d' := clear_mode RT_DEVICE_FLAG_INT_TX (clear_mode RT_DEVICE_FLAG_INT_RX d) in
  serial_ok (d' <| dv_flag ::= (fun v => Z.ldiff v RT_DEVICE_FLAG_ACTIVATED) |>) (closed_tx d (closed_rx d x)) /\
  same_use d (d' <| dv_flag ::= (fun v => Z.ldiff v RT_DEVICE_FLAG_ACTIVATED) |>) /\ opened d' = opened d.
Proof.
  intros [I1 I2 I3 I4 I5 I6 I7] d'.
  pose proof (clear_modes_set 3 d ltac:(lia)) as E3. pose proof (clear_modes_set 8 d ltac:(lia)) as E8. pose proof (clear_modes_set 9 d ltac:(lia)) as E9.
  pose proof (clear_modes_set 10 d ltac:(lia)) as E10. pose proof (clear_modes_set 11 d ltac:(lia)) as E11. cbv zeta in *. fold d' in E3, E8, E9, E10, E11.
  cbn [Z.eqb Pos.eqb negb] in *. rewrite ?andb_false_r, ?andb_true_r in *. cbn [andb] in *.
  change (2 ^ 3) with RT_DEVICE_OFLAG_OPEN in E3. change (2 ^ 8) with RT_DEVICE_FLAG_INT_RX in E8. change (2 ^ 9) with RT_DEVICE_FLAG_DMA_RX in E9.
  change (2 ^ 10) with RT_DEVICE_FLAG_INT_TX in E10. change (2 ^ 11) with RT_DEVICE_FLAG_DMA_TX in E11.
  assert (exists v, d' = d <| dv_open_flag := v |>) as [v Ed].
  { unfold d'. destruct (clear_mode_fields RT_DEVICE_FLAG_INT_RX d) as [v1 E1]. rewrite E1.
    destruct (clear_mode_fields RT_DEVICE_FLAG_INT_TX (d <| dv_open_flag := v1 |>)) as [v2 ->]. exists v2. reflexivity. }
  split; [|split; [|exact E3]].
  - clearbody d'. subst d'. split; cbn in *; rewrite ?E8, ?E9, ?E10, ?E11; auto.
    + change RT_DEVICE_FLAG_DMA_RX with (2 ^ 9) in *. change RT_DEVICE_FLAG_DMA_TX with (2 ^ 11) in *. rewrite !mode_ldiff by (unfold mode_bit; lia).
      destruct I2 as [-> ->]. split; reflexivity.
    + unfold closed_tx, closed_rx. destruct (flag_set _ RT_DEVICE_FLAG_INT_TX), (flag_set _ RT_DEVICE_FLAG_INT_RX); exact I4.
    + unfold closed_tx, closed_rx. destruct (flag_set (dv_open_flag d) RT_DEVICE_FLAG_INT_TX), (flag_set (dv_open_flag d) RT_DEVICE_FLAG_INT_RX); cbn; try reflexivity;
        destruct (serial_rx x) as [[]|]; auto.
  - clearbody d'. subst d'. split; [reflexivity|]. unfold alone. cbn. change RT_DEVICE_FLAG_STANDALONE with (2 ^ 3). rewrite !flag_bit, Z.ldiff_spec by lia.
    change RT_DEVICE_FLAG_ACTIVATED with (2 ^ 4). rewrite Z.pow2_bits_false by lia. apply andb_true_r.
Qed.

Lemma serial_close_returns s : returns dev serial_inv (fun d => dv_close d = Some fn_close /\ activated d = true /\ dv_ref_count d = 0)
  (fun r d d' => opened d' = opened d /\ (succeeds r = true \/ activated d' = true)) (rt_serial_close ops dev) s.
Proof.
  apply ends_returns. intros d x Hh I (_ & Ha & Hc). unfold rt_serial_close. apply ends_assert; [apply negb_true_iff, Z.eqb_neq, Hdev|].
  eapply ends_get_dev; [exact Hh|]. rewrite Hc. cbn [Z.ltb Z.compare]. destruct (so_open_dma _ _ I) as [N1 N2].
  assert (flag_set (dv_open_flag d) RT_DEVICE_FLAG_INT_RX = true -> serial_rx x <> None) as Hrx.
  { intros E En. pose proof (so_rx _ _ I) as K. rewrite En in K. congruence. }
  assert (flag_set (dv_open_flag d) RT_DEVICE_FLAG_INT_TX = true -> serial_tx x <> None) as Htx.
  { intros E En. pose proof (so_tx _ _ I En). congruence. }
  assert (forall s1, here (clear_mode RT_DEVICE_FLAG_INT_RX d) (closed_rx d x) s s1 -> ends (d0 ← get_dev dev;
    (if flag_set (dv_open_flag d0) RT_DEVICE_FLAG_INT_TX then close_mode ops dev RT_DEVICE_FLAG_INT_TX (free_tx dev)
     else when (flag_set (dv_open_flag d0) RT_DEVICE_FLAG_DMA_TX) (close_mode ops dev RT_DEVICE_FLAG_DMA_TX (free_tx dev)));;
    op_control ops dev RT_DEVICE_CTRL_CLOSE 0;;
    upd_dev dev (fun d => d <| dv_flag ::= (fun x => Z.ldiff x RT_DEVICE_FLAG_ACTIVATED) |>);; mret RT_EOK) s s1
    (fun r d' x' => serial_ok d' x' /\ same_use d d' /\ opened d' = opened d /\ (succeeds r = true \/ activated d' = true))) as Htail.
  { intros s1 H1. eapply ends_get_dev; [exact H1|].
    pose proof (clear_mode_set 8 10 d ltac:(lia) ltac:(lia)) as E10. pose proof (clear_mode_set 8 11 d ltac:(lia) ltac:(lia)) as E11.
    cbn [Z.eqb Pos.eqb negb] in E10, E11. rewrite andb_true_r in E10, E11.
    change (2 ^ 8) with RT_DEVICE_FLAG_INT_RX in *. change (2 ^ 10) with RT_DEVICE_FLAG_INT_TX in *. change (2 ^ 11) with RT_DEVICE_FLAG_DMA_TX in *.
    assert (forall s2, here (clear_mode RT_DEVICE_FLAG_INT_TX (clear_mode RT_DEVICE_FLAG_INT_RX d)) (closed_tx d (closed_rx d x)) s s2 ->
      ends (op_control ops dev RT_DEVICE_CTRL_CLOSE 0;; upd_dev dev (fun d => d <| dv_flag ::= (fun x => Z.ldiff x RT_DEVICE_FLAG_ACTIVATED) |>);; mret RT_EOK) s s2
        (fun r d' x' => serial_ok d' x' /\ same_use d d' /\ opened d' = opened d /\ (succeeds r = true \/ activated d' = true))) as Hlast.
    { intros s2 H2. eapply ends_control; [exact H2|]. intros r s3 H3. eapply ends_upd_dev; [exact H3|]. intros s4 H4. eapply ends_ret; [exact H4|].
      destruct (serial_closed_ok d x I) as (K1 & K2 & K3). split; [exact K1|]. split; [exact K2|]. split; [exact K3|left; reflexivity]. }
    rewrite E10, E11, N2. unfold clear_mode in Hlast at 1. rewrite E10 in Hlast. unfold closed_tx in Hlast.
    destruct (flag_set (dv_open_flag d) RT_DEVICE_FLAG_INT_TX) eqn:Etx.
    - eapply ends_close_mode; [exact H1|]. intros s2 H2. eapply ends_free_tx; [exact H2| |exact Hlast].
      unfold closed_rx. destruct (flag_set _ RT_DEVICE_FLAG_INT_RX); exact (Htx eq_refl).
    - eapply ends_bind; [reflexivity|]. apply Hlast, H1. }
  rewrite N1. unfold clear_mode, closed_rx in Htail. destruct (flag_set (dv_open_flag d) RT_DEVICE_FLAG_INT_RX) eqn:Erx.
  - eapply ends_close_mode; [exact Hh|]. intros s1 H1. eapply ends_free_rx; [exact H1|exact (Hrx eq_refl)|exact Htail].
  - eapply ends_bind; [reflexivity|]. apply Htail, Hh.
Qed.

(** ** Read *)

Definition room_at (data : Z) (n : nat) (s : devices) : Prop :=
  forall a, data <= a < data + Z.of_nat n -> is_Some (rg_mem (ds_reg s) !! a) /\ a <> ob_type dev.

#[local] Instance memory_kept_pre : PreOrder (memory_kept dev).
Proof. split; [intros s; split; auto|]. intros s1 s2 s3 [E1 H1] [E2 H2]. split; [congruence|auto]. Qed.

Lemma room_kept data n s s' : memory_kept dev s s' -> room_at data n s -> room_at data n s'.
Proof. intros [_ K] R a Ha. destruct (R a Ha). auto. Qed.
Lemma room_S data n s : room_at data (S n) s -> room_at (data + 1) n s.
Proof. intros R a Ha. apply R. lia. Qed.

(** Storing a character changes only memory. *)
Lemma store_eq data n c s : room_at data (S n) s -> exists s', store data c s = Some (tt, s') /\ memory_kept dev s s' /\
  ds_dev s' = ds_dev s /\ ds_serial s' = ds_serial s.
Proof.
  intros R. destruct (R data ltac:(lia)) as [Hm Ht]. eexists. split; [unfold store, in_reg; rewrite (sb_in_mem _ _ _ Hm); reflexivity|].
  split; [|split; reflexivity]. split; cbn.
  - apply lookup_insert_ne. exact Ht.
  - intros a Ha. destruct (decide (a = data)) as [->|Hne]; [rewrite lookup_insert_eq; eauto|rewrite lookup_insert_ne by congruence; exact Ha].
Qed.

(** A run of a read: only memory, the hardware and the receive buffer change. *)
Definition reads (m : DV Z) (s : devices) (x : rt_serial_device) : Prop :=
  exists k s' x', m s = Some (k, s') /\ ds_dev s' = ds_dev s /\ ds_serial s' !! dev = Some x' /\ memory_kept dev s s' /\
    (x' = x \/ exists f', serial_rx x <> None /\ fifo_ok (config_bufsz x) f' /\ x' = x <| serial_rx := Some (RxFifo f') |>).

Lemma reads_ret k s x : ds_serial s !! dev = Some x -> reads (mret k) s x.
Proof. intros E. exists k, s, x. repeat (split; [reflexivity||exact E|]). left. reflexivity. Qed.

(** A read that goes on behind one character. *)
Lemma reads_next (m : DV Z) (g : Z -> Z) s s1 x x1 : ds_dev s1 = ds_dev s -> memory_kept dev s s1 ->
  (x1 = x \/ exists f', serial_rx x <> None /\ fifo_ok (config_bufsz x) f' /\ x1 = x <| serial_rx := Some (RxFifo f') |>) ->
  reads m s1 x1 -> exists k s' x', (k ← m; mret (g k)) s1 = Some (k, s') /\ ds_dev s' = ds_dev s /\ ds_serial s' !! dev = Some x' /\ memory_kept dev s s' /\
    (x' = x \/ exists f', serial_rx x <> None /\ fifo_ok (config_bufsz x) f' /\ x' = x <| serial_rx := Some (RxFifo f') |>).
Proof.
  intros Ed K H1 (k & s2 & x2 & E & Ed2 & Hx2 & K2 & H2). exists (g k), s2, x2. split; [erewrite bind_eq by exact E; reflexivity|].
  split; [congruence|]. split; [exact Hx2|]. split; [etransitivity; eassumption|].
  destruct H1 as [->|(f1 & N1 & O1 & ->)]; [exact H2|]. right. destruct H2 as [->|(f2 & _ & O2 & ->)]; [exists f1; auto|]. exists f2. auto.
Qed.

Lemma reads_bind {A} (m : DV A) (k : A -> DV Z) a s s1 x : m s = Some (a, s1) -> ds_dev s1 = ds_dev s -> memory_kept dev s s1 ->
  reads (k a) s1 x -> reads (m ≫= k) s x.
Proof.
  intros E Ed K (r & s2 & x2 & E2 & Ed2 & Hx2 & K2 & H2). exists r, s2, x2. split; [erewrite bind_eq by exact E; exact E2|].
  split; [congruence|]. split; [exact Hx2|]. split; [etransitivity; eassumption|exact H2].
Qed.

Lemma rx_next_index_range N i : 0 <= i < N -> N < 2 ^ 16 -> 0 <= rx_next_index N i < N.
Proof. intros Hi HN. unfold rx_next_index, u16. rewrite Z.mod_small by lia. destruct (Z.leb_spec N (i + 1)); lia. Qed.

Lemma get_fifo_eq s x f : ds_serial s !! dev = Some x -> serial_rx x = Some (RxFifo f) -> get_fifo dev s = Some (f, s).
Proof. intros Hx Hf. unfold get_fifo. erewrite bind_eq by (apply get_serial_eq, Hx). rewrite Hf. reflexivity. Qed.

Lemma int_rx_reads n : forall data s d x f, ds_dev s !! dev = Some d -> ds_serial s !! dev = Some x -> serial_rx x = Some (RxFifo f) ->
  0 < config_bufsz x < 2 ^ 16 -> fifo_ok (config_bufsz x) f -> room_at data n s -> reads (_serial_int_rx n dev data) s x.
Proof.
  induction n as [|n IH]; intros data s d x f Hd Hx Hf HN F R; [apply reads_ret, Hx|]. cbn [_serial_int_rx].
  apply (reads_bind _ _ x s s); [apply get_serial_eq, Hx|reflexivity|reflexivity|].
  apply (reads_bind _ _ f s s); [exact (get_fifo_eq s x f Hx Hf)|reflexivity|reflexivity|].
  destruct (_ && _); [apply reads_ret, Hx|]. destruct F as [F1 F2 F3].
  destruct (lookup_lt_is_Some_2 (rf_buffer f) (Z.to_nat (rf_get_index f)) ltac:(lia)) as [c Ec].
  apply (reads_bind _ _ c s s); [rewrite Ec; reflexivity|reflexivity|reflexivity|].
  set (f1 := f <| rf_get_index := rx_next_index (config_bufsz x) (rf_get_index f) |> <| rf_is_full := false |>).
  set (x1 := x <| serial_rx := Some (RxFifo f1) |>). set (s1 := s <| ds_serial ::= <[dev := x1]> |>).
  assert (fifo_ok (config_bufsz x) f1) as F'.
  { split; [exact F1|exact F2|]. apply rx_next_index_range; [exact F3|lia]. }
  assert (room_at data (S n) s1) as R1 by exact R.
  destruct (store_eq data n c s1 R1) as (s2 & E2 & K2 & Ed2 & Es2).
  assert (ds_serial s2 !! dev = Some x1) as Hx2 by (rewrite Es2; apply lookup_insert_eq).
  assert (reads (_serial_int_rx n dev (data + 1)) s2 x1) as IHr.
  { apply (IH (data + 1) s2 d x1 f1); try assumption; [rewrite Ed2; exact Hd|reflexivity|]. apply room_S. eapply room_kept; [exact K2|exact R1]. }
  assert (memory_kept dev s s2) as K by (destruct K2; split; assumption).
  unfold reads. rewrite (bind_eq (set_fifo dev f1) _ s tt s1) by (apply upd_serial_eq; exact Hx). rewrite (bind_eq _ _ s1 tt s2 E2).
  refine (reads_next _ (fun k => k + 1) s s2 x x1 Ed2 K _ IHr). right. exists f1. split; [congruence|]. split; [exact F'|reflexivity].
Qed.

Lemma getc_same s : exists c s', op_getc ops dev s = Some (c, s') /\ ds_dev s' = ds_dev s /\ ds_serial s' = ds_serial s /\ memory_kept dev s s'.
Proof. destruct (uart_getc dev s) as (c & h & E). exists c, (s <| ds_hw := h |>). split; [exact E|]. repeat split; auto. Qed.

Lemma poll_rx_reads n : forall data s d x, ds_dev s !! dev = Some d -> ds_serial s !! dev = Some x -> room_at data n s ->
  reads (_serial_poll_rx ops n dev data) s x.
Proof.
  induction n as [|n IH]; intros data s d x Hd Hx R; [apply reads_ret, Hx|]. cbn [_serial_poll_rx].
  destruct (getc_same s) as (c & s1 & E1 & Ed1 & Es1 & K1). apply (reads_bind _ _ c s s1 x E1 Ed1 K1).
  rewrite <- Es1 in Hx. destruct (c =? -1); [apply reads_ret, Hx|].
  pose proof (room_kept _ _ _ _ K1 R) as R1. destruct (store_eq data n c s1 R1) as (s2 & E2 & K2 & Ed2 & Es2).
  apply (reads_bind _ _ tt s1 s2 x E2 Ed2 K2). rewrite <- Es2 in Hx. rewrite <- Ed1, <- Ed2 in Hd.
  apply (reads_bind _ _ d s2 s2 x); [apply get_dev_eq, Hd|reflexivity|reflexivity|].
  destruct (_ && _); [apply reads_ret, Hx|]. unfold reads. eapply (reads_next _ (fun k => k + 1) s2 s2); [reflexivity|reflexivity|left; reflexivity|].
  apply (IH _ _ d); [exact Hd|exact Hx|]. apply room_S. eapply room_kept; [exact K2|exact R1].
Qed.

Lemma reads_returns (Q : rt_device -> Prop) m s : 
  (forall d x, ds_dev s !! dev = Some d -> ds_serial s !! dev = Some x -> serial_ok d x -> Q d -> reads m s x) ->
  (forall d, Q d -> activated d = true) ->
  returns dev serial_inv Q (fun _ d d' => opened d' = opened d /\ activated d' = true) m s.
Proof.
  intros Hm HQ d Hd I Hq. destruct (ds_serial s !! dev) as [x|] eqn:Hx; [|destruct I]. cbn in I.
  destruct (Hm d x Hd eq_refl I Hq) as (r & s' & x' & E & Ed & Hx' & K & Hf). exists r, s', d. split; [exact E|]. split; [rewrite Ed; exact Hd|].
  split; [|split; [exact K|split; [split; reflexivity|split; [reflexivity|apply HQ, Hq]]]].
  rewrite Hx'. cbn. destruct Hf as [->|(f' & Hn & F & ->)]; [exact I|]. destruct I as [I1 I2 I3 I4 I5 I6 I7]. split; try assumption.
Qed.

Lemma buffer_room buffer size s : buffer_ok dev buffer size s -> room_at buffer (Z.to_nat (u32 size)) s.
Proof. intros [Hs R] a Ha. rewrite u32_small in Ha by lia. apply R. lia. Qed.

Lemma serial_read_returns pos buffer size s : buffer_ok dev buffer size s ->
  returns dev serial_inv (fun d => dv_read d = Some fn_read /\ activated d = true)
    (fun _ d d' => opened d' = opened d /\ activated d' = true) (rt_serial_read ops dev pos buffer size) s.
Proof.
  intros B. apply reads_returns; [|intros d [_ Ha]; exact Ha]. intros d x Hd Hx I _. pose proof (buffer_room _ _ _ B) as R.
  assert (rt_assert (negb (dev =? 0)) s = Some (tt, s)) as Ea by (apply assert_eq, negb_true_iff, Z.eqb_neq, Hdev).
  unfold rt_serial_read. apply (reads_bind _ _ tt s s x Ea eq_refl (reflexivity s)). destruct (size =? 0); [apply reads_ret, Hx|].
  apply (reads_bind _ _ d s s); [apply get_dev_eq, Hd|reflexivity|reflexivity|]. destruct (so_open_dma _ _ I) as [N1 _]. rewrite N1.
  destruct (flag_set (dv_open_flag d) RT_DEVICE_FLAG_INT_RX) eqn:Erx.
  - pose proof (so_rx _ _ I) as F. destruct (serial_rx x) as [[f|a]|] eqn:Ef; [|destruct F|congruence].
    apply (reads_bind _ _ tt s s x Ea eq_refl (reflexivity s)).
    apply (reads_bind _ _ x s s); [apply get_serial_eq, Hx|reflexivity|reflexivity|].
    apply (reads_bind _ _ tt s s); [rewrite Ef; reflexivity|reflexivity|reflexivity|].
    apply (reads_next _ s32 s s x x eq_refl (reflexivity s) (or_introl eq_refl)).
    apply (int_rx_reads _ buffer s d x f Hd Hx Ef (so_bufsz _ _ I) F R).
  - apply (reads_next _ s32 s s x x eq_refl (reflexivity s) (or_introl eq_refl)). apply (poll_rx_reads _ buffer s d x Hd Hx R).
Qed.

(** ** Write *)

(** A run of a write changes only the hardware. *)
Definition writes {A} (m : DV A) (s : devices) : Prop := exists r h, m s = Some (r, s <| ds_hw := h |>).

Lemma writes_ret {A} (a : A) s : writes (mret a) s.
Proof. exists a, (ds_hw s). destruct s. reflexivity. Qed.
Lemma writes_bind {A B} (m : DV A) (k : A -> DV B) s : writes m s -> (forall a h, writes (k a) (s <| ds_hw := h |>)) -> writes (m ≫= k) s.
Proof. intros (a & h & E) Hk. destruct (Hk a h) as (b & h2 & E2). exists b, h2. erewrite bind_eq by exact E. exact E2. Qed.
Lemma writes_read {A B} (m : DV A) (k : A -> DV B) a s : m s = Some (a, s) -> writes (k a) s -> writes (m ≫= k) s.
Proof. intros E (b & h & E2). exists b, h. erewrite bind_eq by exact E. exact E2. Qed.

Lemma put_now_writes c s : writes (put_now ops dev c) s.
Proof.
  destruct (uart_putc dev c s) as (r & h & E & Hr). exists tt, h. unfold put_now. erewrite bind_eq by exact E.
  apply assert_eq, negb_true_iff, Z.eqb_neq, Hr.
Qed.
Lemma putc_writes c s : writes (op_putc ops dev c) s.
Proof. destruct (uart_putc dev c s) as (r & h & E & _). exists r, h. exact E. Qed.

Lemma load_eq data n s : room_at data (S n) s -> exists c, load data s = Some (c, s).
Proof. intros R. destruct (R data ltac:(lia)) as [[c Ec] _]. exists c. unfold load. apply in_reg_read. apply ld_in_mem, Ec. Qed.

Lemma tx_writes n : forall data s d, ds_dev s !! dev = Some d -> room_at data n s ->
  writes (_serial_poll_tx ops n dev data) s /\ writes (_serial_int_tx ops n dev data) s.
Proof.
  induction n as [|n IH]; intros data s d Hd R; [split; apply writes_ret|]. destruct (load_eq data n s R) as [c Ec].
  assert (forall h, writes (_serial_poll_tx ops n dev (data + 1)) (s <| ds_hw := h |>) /\ writes (_serial_int_tx ops n dev (data + 1)) (s <| ds_hw := h |>)) as IH'.
  { intros h. apply (IH _ _ d); [exact Hd|]. apply room_S. exact R. }
  cbn [_serial_poll_tx _serial_int_tx].
  split; (eapply writes_read; [exact Ec|]; eapply writes_read; [apply get_dev_eq, Hd|]; apply writes_bind).
  - destruct (_ && _); cbn [when]; [|apply writes_ret]. apply writes_bind; [apply putc_writes|]. intros. apply writes_ret.
  - intros _ h. apply writes_bind; [apply putc_writes|]. intros _ h2. apply (IH' h2).
  - destruct (_ && _); cbn [when]; [apply put_now_writes|apply writes_ret].
  - intros _ h. apply writes_bind; [apply put_now_writes|]. intros _ h2. apply (IH' h2).
Qed.

Lemma serial_write_returns pos buffer size s : buffer_ok dev buffer size s ->
  returns dev serial_inv (fun d => dv_write d = Some fn_write /\ activated d = true)
    (fun _ d d' => opened d' = opened d /\ activated d' = true) (rt_serial_write ops dev pos buffer size) s.
Proof.
  intros B. apply reads_returns; [|intros d [_ Ha]; exact Ha]. intros d x Hd Hx I _. pose proof (buffer_room _ _ _ B) as R.
  assert (writes (rt_serial_write ops dev pos buffer size) s) as (r & h & E).
  2: { exists r, (s <| ds_hw := h |>), x. split; [exact E|]. split; [reflexivity|]. split; [exact Hx|]. split; [split; auto|left; reflexivity]. }
  unfold rt_serial_write. apply (writes_read _ _ tt); [apply assert_eq, negb_true_iff, Z.eqb_neq, Hdev|].
  destruct (size =? 0); [apply writes_ret|]. eapply writes_read; [apply get_dev_eq, Hd|]. destruct (so_open_dma _ _ I) as [_ N2]. rewrite N2.
  destruct (tx_writes (Z.to_nat (u32 size)) buffer s d Hd R) as [W1 W2].
  destruct (flag_set (dv_open_flag d) RT_DEVICE_FLAG_INT_TX) eqn:Etx; [|apply writes_bind; [exact W1|intros; apply writes_ret]].
  eapply writes_read; [apply get_serial_eq, Hx|]. apply (writes_read _ _ tt).
  - apply assert_eq. destruct (serial_tx x) eqn:En; [reflexivity|]. pose proof (so_tx _ _ I En). congruence.
  - apply writes_bind; [exact W2|intros; apply writes_ret].
Qed.

(** The driver of a UART, through the function pointers of its device. *)
Lemma serial_polite control : Polite (serial_drivers ops malloc sizeof control) dev serial_inv.
Proof.
  assert (forall Q P (get : rt_device -> option Z) fn f m s, (forall d x, serial_ok d x -> get d = Some fn) ->
    returns dev serial_inv (fun d => get d = Some fn /\ Q d) P m s ->
    returns dev serial_inv (fun d => get d = Some f /\ Q d) P (if f =? fn then m else st_fail) s) as Hcall.
  { intros Q P get fn f m s Hf Hr d Hd I [Hq1 Hq2]. assert (f = fn) as ->.
    { destruct (ds_serial s !! dev) as [x|]; [|destruct I]. pose proof (Hf d x I). congruence. }
    rewrite Z.eqb_refl. apply (Hr d Hd I). auto. }
  split; intros; cbn [call_init call_open call_close call_read call_write serial_drivers].
  - apply Hcall; [intros d x I; apply I|apply serial_init_returns].
  - apply Hcall; [intros d x I; apply I|apply serial_open_returns].
  - apply (Hcall (fun d => activated d = true /\ dv_ref_count d = 0)); [intros d x I; apply I|apply serial_close_returns].
  - apply Hcall; [intros d x I; apply I|apply serial_read_returns; assumption].
  - apply Hcall; [intros d x I; apply I|apply serial_write_returns; assumption].
  - eapply serial_core; eassumption.
Qed.
End Serial.

(** ** The receive buffer is a queue *)

(** The characters that wait, the oldest first. *)
Definition fifo_count (N : Z) (f : rt_serial_rx_fifo) : Z := (rf_put_index f - rf_get_index f) mod N.
Definition fifo_item (N : Z) (f : rt_serial_rx_fifo) (i : nat) : Z := default 0 (rf_buffer f !! Z.to_nat ((rf_get_index f + Z.of_nat i) mod N)).
Definition fifo_items (N : Z) (f : rt_serial_rx_fifo) : list Z := fifo_item N f <$> seq 0 (Z.to_nat (fifo_count N f)).

(** What [isr_put] does to the buffer. *)
Definition fifo_put (N ch : Z) (f : rt_serial_rx_fifo) : rt_serial_rx_fifo :=
  let f := f <| rf_buffer ::= <[Z.to_nat (rf_put_index f) := u8 ch]> |> <| rf_put_index := rx_next_index N (rf_put_index f) |> in
  if rf_put_index f =? rf_get_index f then f <| rf_is_full := true |> <| rf_get_index := rx_next_index N (rf_get_index f) |> else f.
Definition fifo_get (N : Z) (f : rt_serial_rx_fifo) : rt_serial_rx_fifo :=
  f <| rf_get_index := rx_next_index N (rf_get_index f) |> <| rf_is_full := false |>.

Lemma buffer_index_mod N i : 0 <= i < N -> N < 2 ^ 16 -> rx_next_index N i = (i + 1) mod N.
Proof.
  intros Hi HN. unfold rx_next_index, u16. rewrite (Z.mod_small (i + 1) (2 ^ 16)) by lia. destruct (Z.leb_spec N (i + 1)).
  - replace (i + 1) with N by lia. rewrite Z.mod_same by lia. reflexivity.
  - rewrite Z.mod_small by lia. reflexivity.
Qed.

Lemma items_lookup N f i : fifo_items N f !! i = if decide (i < Z.to_nat (fifo_count N f))%nat then Some (fifo_item N f i) else None.
Proof.
  unfold fifo_items. rewrite list_lookup_fmap. destruct (decide _) as [H|H].
  - rewrite lookup_seq_lt by exact H. reflexivity.
  - rewrite lookup_seq_ge by lia. reflexivity.
Qed.
Lemma items_length N f : length (fifo_items N f) = Z.to_nat (fifo_count N f).
Proof. unfold fifo_items. rewrite length_fmap, length_seq. reflexivity. Qed.

Lemma count_range N f : 0 < N -> 0 <= fifo_count N f < N.
Proof. intros HN. apply Z.mod_pos_bound, HN. Qed.

(** A read takes the oldest character. *)
Lemma fifo_get_items N f : N < 2 ^ 16 -> fifo_ok N f -> 0 < fifo_count N f ->
  fifo_ok N (fifo_get N f) /\ fifo_items N f = fifo_item N f 0 :: fifo_items N (fifo_get N f).
Proof.
  intros HN [F1 F2 F3] Hc. split; [split; [exact F1|exact F2|apply rx_next_index_range; lia]|].
  pose proof (count_range N f ltac:(lia)) as Hr.
  assert (fifo_count N (fifo_get N f) = fifo_count N f - 1) as Ec.
  { unfold fifo_count in *. cbn. rewrite buffer_index_mod, Zminus_mod_idemp_r by lia.
    replace (rf_put_index f - (rf_get_index f + 1)) with (rf_put_index f - rf_get_index f - 1) by lia.
    rewrite <- Zminus_mod_idemp_l. apply Z.mod_small. lia. }
  apply list_eq. intros [|i]; [rewrite items_lookup, decide_True by lia; reflexivity|].
  change ((fifo_item N f 0 :: fifo_items N (fifo_get N f)) !! S i) with (fifo_items N (fifo_get N f) !! i). rewrite !items_lookup, Ec.
  destruct (decide _) as [H1|H1], (decide _) as [H2|H2]; try lia; [|reflexivity].
  unfold fifo_item. do 4 f_equal. cbn. rewrite buffer_index_mod, Zplus_mod_idemp_l by lia. f_equal. lia.
Qed.

(** The indices of the characters that wait are different from [rf_put_index]. *)
Lemma item_index N g p i : 0 < N -> 0 <= p < N -> 0 <= i < (p - g) mod N -> (g + i) mod N <> p.
Proof.
  intros HN Hp Hi E. assert ((p - g) mod N = i); [|lia]. rewrite <- E, Zminus_mod_idemp_l. replace (g + i - g) with i by lia.
  apply Z.mod_small. pose proof (Z.mod_pos_bound (p - g) N HN). lia.
Qed.

(** The buffer with [ch] in it, before a character is discarded: [n] of its places are in use. *)
Lemma put_items N ch f : 1 < N < 2 ^ 16 -> fifo_ok N f ->
  let f1 := f <| rf_buffer ::= <[Z.to_nat (rf_put_index f) := u8 ch]> |> in
  (fifo_item N f1 <$> seq 0 (S (Z.to_nat (fifo_count N f)))) = fifo_items N f ++ [u8 ch].
Proof.
  intros HN [F1 F2 F3] f1. pose proof (count_range N f ltac:(lia)) as Hr. rewrite seq_S, fmap_app. f_equal.
  - unfold fifo_items. apply list_fmap_ext. intros i k Hk%lookup_seq. destruct Hk as [-> Hk]. unfold fifo_item. cbn. f_equal.
    apply list_lookup_insert_ne. intros E%Z2Nat.inj; [|lia|apply Z.mod_pos_bound; lia]. symmetry in E. revert E. apply item_index; unfold fifo_count in *; lia.
  - cbn [fmap list_fmap]. f_equal. unfold fifo_item. rewrite Nat.add_0_l, Z2Nat.id by lia. change (rf_get_index f1) with (rf_get_index f). unfold fifo_count. rewrite Zplus_mod_idemp_r.
    replace (rf_get_index f + (rf_put_index f - rf_get_index f)) with (rf_put_index f) by lia. rewrite Z.mod_small by lia. cbn.
    rewrite list_lookup_insert_eq by lia. reflexivity.
Qed.

(** A character that comes in is the newest; when bufsz - 1 wait already the oldest goes. *)
Lemma fifo_put_items N ch f : 1 < N < 2 ^ 16 -> fifo_ok N f ->
  fifo_ok N (fifo_put N ch f) /\
  fifo_items N (fifo_put N ch f) = (if fifo_count N f =? N - 1 then tail (fifo_items N f) else fifo_items N f) ++ [u8 ch].
Proof.
  intros HN F. pose proof (put_items N ch f HN F) as E. cbv zeta in E. destruct F as [F1 F2 F3]. pose proof (count_range N f ltac:(lia)) as Hr.
  unfold fifo_put. set (f1 := f <| rf_buffer ::= <[Z.to_nat (rf_put_index f) := u8 ch]> |>) in *. set (f2 := f1 <| rf_put_index := rx_next_index N (rf_put_index f) |>).
  assert (fifo_ok N f2) as F' by (split; [cbn; rewrite length_insert; exact F1|apply rx_next_index_range; lia|exact F3]).
  assert (fifo_count N f2 = (fifo_count N f + 1) mod N) as Ec.
  { unfold fifo_count. cbn. rewrite buffer_index_mod, Zminus_mod_idemp_l, Zplus_mod_idemp_l by lia. f_equal. lia. }
  assert (forall n, fifo_item N f2 <$> seq 0 n = fifo_item N f1 <$> seq 0 n) as Ei by reflexivity.
  change (rf_put_index f2) with (rx_next_index N (rf_put_index f)). change (rf_get_index f2) with (rf_get_index f).
  rewrite buffer_index_mod by lia. destruct (Z.eqb_spec (fifo_count N f) (N - 1)) as [Hfull|Hroom].
  - rewrite Hfull in Ec. replace (N - 1 + 1) with N in Ec by lia. rewrite Z.mod_same in Ec by lia.
    assert ((rf_put_index f + 1) mod N = rf_get_index f) as Ep.
    { unfold fifo_count in Hfull. replace (rf_put_index f + 1) with (rf_put_index f - rf_get_index f + (rf_get_index f + 1)) by lia.
      rewrite <- Zplus_mod_idemp_l, Hfull. replace (N - 1 + (rf_get_index f + 1)) with (rf_get_index f + 1 * N) by lia.
      rewrite Z.mod_add by lia. apply Z.mod_small, F3. }
    rewrite Ep, Z.eqb_refl. set (f3 := f2 <| rf_is_full := true |> <| rf_get_index := rx_next_index N (rf_get_index f) |>).
    split; [destruct F'; split; [assumption|assumption|apply rx_next_index_range; lia]|].
    assert (fifo_count N f3 = N - 1) as E3.
    { unfold fifo_count. cbn. rewrite !buffer_index_mod, Ep, Zminus_mod_idemp_r by lia. replace (rf_get_index f - (rf_get_index f + 1)) with (N - 1 + -1 * N) by lia.
      rewrite Z.mod_add by lia. apply Z.mod_small. lia. }
    destruct (fifo_items N f) as [|c l] eqn:El; [pose proof (items_length N f) as X; rewrite El, Hfull in X; cbn in X; lia|].
    cbn [tail]. rewrite Hfull in E. cbn [seq fmap list_fmap app] in E. injection E as _ El2. rewrite <- El2. unfold fifo_items. rewrite E3, <- seq_shift, <- list_fmap_compose.
    apply list_fmap_ext. intros i k Hk%lookup_seq. destruct Hk as [-> _]. unfold fifo_item. cbn. do 3 f_equal. rewrite buffer_index_mod, Zplus_mod_idemp_l by lia. f_equal. lia.
  - assert (fifo_count N f2 = fifo_count N f + 1) as Ec' by (rewrite Ec; apply Z.mod_small; lia).
    destruct (Z.eqb_spec ((rf_put_index f + 1) mod N) (rf_get_index f)) as [Ep|_].
    { unfold fifo_count in Ec' at 1. cbn in Ec'. rewrite buffer_index_mod, Ep, Z.sub_diag, Z.mod_0_l in Ec' by lia. lia. }
    split; [exact F'|]. unfold fifo_items at 1. rewrite Ec'. replace (Z.to_nat (fifo_count N f + 1)) with (S (Z.to_nat (fifo_count N f))) by lia.
    rewrite Ei. exact E.
Qed.

Section Queue.
Context (dev : Z).

(** The interrupt stores a character. *)
Lemma isr_put_eq ch s x f : ds_serial s !! dev = Some x -> serial_rx x = Some (RxFifo f) -> fifo_ok (config_bufsz x) f ->
  isr_put dev ch s = Some (tt, s <| ds_serial ::= <[dev := x <| serial_rx := Some (RxFifo (fifo_put (config_bufsz x) ch f)) |>]> |>).
Proof.
  intros Hx Hf [F1 F2 _]. unfold isr_put. erewrite bind_eq by (apply get_serial_eq, Hx). erewrite bind_eq by (eapply get_fifo_eq; eassumption).
  erewrite bind_eq by (apply assert_eq, Z.ltb_lt; lia). apply upd_serial_eq, Hx.
Qed.

(** A read by interrupt takes the oldest characters, as many as wait and fit. *)
Theorem int_rx_takes n : forall data s x f, ds_serial s !! dev = Some x -> serial_rx x = Some (RxFifo f) ->
  config_bufsz x < 2 ^ 16 -> fifo_ok (config_bufsz x) f -> (rf_is_full f = true -> fifo_count (config_bufsz x) f <> 0) -> room_at dev data n s ->
  let got := take n (fifo_items (config_bufsz x) f) in
  exists s' f', _serial_int_rx n dev data s = Some (Z.of_nat (length got), s') /\
    rg_mem (ds_reg s') = write_list data (u8 <$> got) (rg_mem (ds_reg s)) /\
    ds_serial s' !! dev = Some (x <| serial_rx := Some (RxFifo f') |>) /\ fifo_ok (config_bufsz x) f' /\
    fifo_items (config_bufsz x) f' = drop n (fifo_items (config_bufsz x) f).
Proof.
  induction n as [|n IH]; intros data s x f Hx Hf HN F Hfull R got.
  { exists s, f. split; [reflexivity|]. split; [reflexivity|]. split; [rewrite Hx; destruct x; cbn in *; subst; reflexivity|auto]. }
  pose proof F as [F1 F2 F3]. pose proof (count_range (config_bufsz x) f ltac:(lia)) as Hr. cbn [_serial_int_rx].
  erewrite bind_eq by (apply get_serial_eq, Hx). erewrite bind_eq by (eapply get_fifo_eq; eassumption).
  destruct (Z.eq_dec (fifo_count (config_bufsz x) f) 0) as [E0|E0].
  { assert (rf_get_index f = rf_put_index f) as Eg.
    { unfold fifo_count in E0. apply Z.mod_divide in E0; [|lia]. destruct E0 as [q Eq]. assert (q = 0) as -> by nia. lia. }
    assert (fifo_items (config_bufsz x) f = []) as En by (apply length_zero_iff_nil; rewrite items_length, E0; reflexivity).
    rewrite Eg, Z.eqb_refl. destruct (rf_is_full f) eqn:Ef; [destruct (Hfull eq_refl E0)|]. unfold got. rewrite En.
    exists s, f. split; [reflexivity|]. split; [reflexivity|]. split; [rewrite Hx; destruct x; cbn in *; subst; reflexivity|auto]. }
  destruct (fifo_get_items _ f HN F ltac:(lia)) as [F' Ei]. set (N := config_bufsz x) in *.
  assert (rf_get_index f <> rf_put_index f) as Hne by (intros Eg; apply E0; unfold fifo_count; rewrite Eg, Z.sub_diag; apply Z.mod_0_l; lia).
  rewrite (proj2 (Z.eqb_neq _ _) Hne). cbn [andb]. destruct (lookup_lt_is_Some_2 (rf_buffer f) (Z.to_nat (rf_get_index f)) ltac:(lia)) as [c Ec].
  erewrite bind_eq by (rewrite Ec; reflexivity). fold (fifo_get N f).
  assert (fifo_item N f 0 = c) as Eit by (unfold fifo_item; rewrite Z.add_0_r, Z.mod_small, Ec by lia; reflexivity). rewrite Eit in Ei.
  set (x1 := x <| serial_rx := Some (RxFifo (fifo_get N f)) |>). set (s1 := s <| ds_serial ::= <[dev := x1]> |>).
  erewrite bind_eq by (apply upd_serial_eq; exact Hx). fold x1 s1. destruct (R data ltac:(lia)) as [Hm _].
  set (s2 := s1 <| ds_reg := (ds_reg s1) <| rg_mem := <[data := u8 c]> (rg_mem (ds_reg s1)) |> |>).
  erewrite bind_eq by (unfold store, in_reg; change (ds_reg s1) with (ds_reg s); rewrite (sb_in_mem _ _ _ Hm); reflexivity). fold s2.
  assert (room_at dev (data + 1) n s2) as R2.
  { intros a Ha. destruct (R a ltac:(lia)) as [Hma Hta]. split; [|exact Hta]. cbn. rewrite lookup_insert_ne by lia. exact Hma. }
  destruct (IH (data + 1) s2 x1 (fifo_get N f) (lookup_insert_eq _ _ _) eq_refl HN F' ltac:(discriminate) R2) as (s3 & f3 & E3 & M3 & X3 & F3' & I3).
  change (config_bufsz x1) with N in *. exists s3, f3. unfold got. rewrite Ei. cbn [take drop length fmap list_fmap write_list].
  split; [rewrite (bind_eq _ _ _ _ _ E3), Nat2Z.inj_succ; reflexivity|]. split; [exact M3|]. split; [exact X3|]. split; [exact F3'|exact I3].
Qed.
End Queue.

(** ** Examples *)

(** A UART whose hardware is the list of the characters that came in. *)
Definition demo_uart : rt_uart_ops := mkUartOps (Some (fun _ => mret 0)) (fun _ _ _ => mret 0) (fun _ _ => mret 1)
  (fun _ s => match ds_hw s with [] => Some (-1, s) | c :: l => Some (c, s <| ds_hw := l |>) end) (fun _ _ _ _ => mret 0).
#[export] Instance demo_uart_ok : Uart demo_uart.
Proof.
  assert (forall (s : devices), s = s <| ds_hw := ds_hw s |>) as Hs by (intros []; reflexivity).
  split; intros; cbn.
  - injection H as <-. exists 0, (ds_hw s). rewrite <- Hs. reflexivity.
  - exists 0, (ds_hw s). rewrite <- Hs. reflexivity.
  - exists 1, (ds_hw s). rewrite <- Hs. split; [reflexivity|discriminate].
  - destruct (ds_hw s) as [|c l] eqn:E; [|exists c, l; reflexivity]. exists (-1), []. rewrite <- E, <- Hs. reflexivity.
Qed.

Definition demo_malloc (n : Z) : option Z := Some 4096.
Definition demo_drivers : drivers := serial_drivers demo_uart demo_malloc (fun _ => 16) (fun _ _ _ => mret 0).

(** UARTs at 8 ("led") and 30 ("longname"), registered with RT_DEVICE_FLAG_RDWR, INT_RX and INT_TX. *)
Definition blank_device : rt_device := mkDevice 0 0 0 0 0 None None None None None None None None None 0.
Definition uart_flags : Z := 3 + 256 + 1024.
Definition demo_uarts : devices :=
  let s := mkDevices reg0 {[8 := blank_device; 30 := blank_device]} 0 {[8 := mkSerial 64 None None None; 30 := mkSerial 64 None None None]} [] in
  default s (snd <$> (rt_hw_serial_register 8 100 uart_flags 0;; rt_hw_serial_register 30 104 uart_flags 0) s).
Definition uart_device : rt_device :=
  mkDevice 0 uart_flags 0 0 0 None None (Some fn_init) (Some fn_open) (Some fn_close) (Some fn_read) (Some fn_write) (Some fn_control) None 0.

Lemma uart_ok : serial_ok uart_device (mkSerial 64 None None None).
Proof. split; try (repeat split; reflexivity); cbn; try lia; discriminate. Qed.

Lemma uarts_ready dev : dev = 8 \/ dev = 30 -> dev_rep dev serial_inv false (mkSession 0 false) demo_uarts.
Proof.
  intros Hd. exists uart_device. split.
  - assert (ds_serial demo_uarts !! dev = Some (mkSerial 64 None None None)) as Es by (destruct Hd as [->| ->]; vm_compute; reflexivity).
    split; [|destruct Hd as [->| ->]; vm_compute; reflexivity|rewrite Es; exact uart_ok].
    split; [lia|]. exists 137. destruct Hd as [->| ->]; split; vm_compute; reflexivity.
  - split; try reflexivity; cbn; try lia; discriminate.
Qed.

Definition two_uarts (i : rt_object_info_type) : list Z := match i with RT_Object_Info_Device => [30; 8] | _ => [] end.
Lemma two_in (i : rt_object_info_type) a : a ∈ two_uarts i -> i = RT_Object_Info_Device /\ (a = 30 \/ a = 8).
Proof. destruct i; cbn; rewrite ?elem_of_cons; intros H; try (apply elem_of_nil in H; destruct H). split; [reflexivity|]. destruct H as [H|[H|[]%elem_of_nil]]; auto. Qed.

Lemma uarts_rep : reg_rep two_uarts (ds_reg demo_uarts) /\ rg_nest (ds_reg demo_uarts) = 0.
Proof.
  split; [|vm_compute; reflexivity]. split.
  - intros i. destruct i; (split; [cbn [two_uarts fmap list_fmap path]; repeat split; vm_compute; reflexivity|]);
      apply (bool_decide_unpack _); vm_compute; exact I.
  - intros i j a [-> _]%two_in [-> _]%two_in. reflexivity.
  - intros i a [-> Ha]%two_in. split; [lia|]. split; [apply (bool_decide_unpack _); destruct Ha as [->| ->]; vm_compute; exact I|].
    exists 137. destruct Ha as [->| ->]; split; vm_compute; reflexivity.
  - intros i j a b [_ Ha]%two_in [_ Hb]%two_in Hne. lia.
  - assert (map_Forall (fun _ x => bool_decide (0 <= x < 256) = true) (rg_mem (ds_reg demo_uarts))) as H by (apply (bool_decide_unpack _); vm_compute; exact I).
    intros i x E. apply H in E. apply bool_decide_eq_true in E. exact E.
Qed.

Lemma uarts_name : cstr (rg_mem (ds_reg demo_uarts)) 104 [108; 111; 110; 103; 110; 97; 109; 101].
Proof.
  split; [|repeat constructor; lia]. intros i x E. do 9 (destruct i as [|i]; [injection E as <-; vm_compute; reflexivity|]). discriminate.
Qed.

(** Characters that come in are read in their order. *)
Example serial_receives :
  (fun r => (fst r, read_list (rg_mem (ds_reg (snd r))) 60 3)) <$>
    (rt_device_open demo_drivers 8 (3 + 256);; st_modify (fun s => s <| ds_hw := [104; 105] |>);;
     rt_hw_serial_isr_rx demo_uart 5 8;; rt_device_read demo_drivers 8 0 60 3) demo_uarts = Some (2, [104; 105; 0]).
Proof. vm_compute. reflexivity. Qed.

(** Opened with RT_DEVICE_FLAG_INT_RX and then without: the last close does not free the
    buffer, and the next open forgets it. *)
Example serial_open_leaks :
  (fun s => (not_null (serial_rx s), config_bufsz s)) <$> ((ds_serial (snd (default (0, demo_uarts)
    ((rt_device_open demo_drivers 8 (3 + 256);; rt_device_open demo_drivers 8 3;; rt_device_close demo_drivers 8;; rt_device_close demo_drivers 8) demo_uarts)))) !! 8)
    = Some (true, 64).
Proof. vm_compute. reflexivity. Qed.
