(* ===== verification/DeviceProps.v ===== *)
(** * Properties of devices

    Opening and closing refine a counter of users, and the names of the registered
    devices are different, so that [rt_device_find] is the inverse of registering. *)

From stdpp Require Import gmap.
From S2P Require Import Prelude Kernel RtList Bytes KString KStringProps Object ObjectProps Device DeviceUse Serial SerialProps.
Open Scope rt_scope.

(** ** Using a device *)

Section Use.
Context (drv : drivers) (dev : Z) (inv : driver_inv) `{Hp : Polite drv dev inv} (standalone : bool).
Abbreviation dev_rep := (dev_rep dev inv standalone).
Abbreviation stops := (stops drv dev).

End Use.

(** ** Registering and finding *)

Abbreviation DEV := RT_Object_Info_Device.
Definition has_name (r : registry) (nm : list Z) (a : Z) : bool := bool_decide (name_of (rg_mem r) a = take 8 nm).

(** No two devices have the same name. *)
Definition names_differ (l : list Z) (r : registry) : Prop :=
  forall a b, a ∈ l -> b ∈ l -> name_of (rg_mem r) a = name_of (rg_mem r) b -> a = b.

Lemma device_find_eq L s name nm : reg_rep L (ds_reg s) -> rg_nest (ds_reg s) = 0 -> cstr (rg_mem (ds_reg s)) name nm -> name <> 0 ->
  rt_device_find name s = Some (List.find (has_name (ds_reg s) nm) (L DEV), s).
Proof. intros R Hn Hs Hz. apply in_reg_read. apply find_newest_eq; try assumption. reflexivity. Qed.

Lemma info_device t : rt_object_get_information t = Some DEV -> u8 (Z.land t (Z.lnot RT_Object_Class_Static)) = RT_Object_Class_Device.
Proof.
  unfold rt_object_get_information, _object_container. cbn [List.find snd]. set (x := Z.land _ _).
  repeat match goal with |- context [?k =? x] => destruct (Z.eqb_spec k x) as [<-|_]; cbn [fmap option_fmap option_map fst]; [try discriminate; reflexivity|] end.
  discriminate.
Qed.

Lemma rep_registered L s a : reg_rep L (ds_reg s) -> a ∈ L DEV -> registered a s.
Proof. intros R Ha. destruct (rg_typed _ _ R DEV a Ha) as (Hz & _ & t & Ht & Hi). split; [exact Hz|]. exists t. split; [exact Ht|apply info_device, Hi]. Qed.

(** Names that are not written stay. *)
Lemma names_kept (l : list Z) r r' : (forall a, a ∈ l -> forall x, a <= x < a + 8 -> rg_mem r' !! x = rg_mem r !! x) ->
  forall a, a ∈ l -> name_of (rg_mem r') a = name_of (rg_mem r) a.
Proof. intros H a Ha. apply name_ext, H, Ha. Qed.

Lemma find_kept (l : list Z) r r' nm : (forall a, a ∈ l -> name_of (rg_mem r') a = name_of (rg_mem r) a) ->
  List.find (has_name r' nm) l = List.find (has_name r nm) l.
Proof. intros H. apply find_ext_in. intros a Ha%list_elem_of_In. unfold has_name. rewrite H by exact Ha. reflexivity. Qed.

Section Register.
Context (L : rt_object_info_type -> list Z) (s : devices) (dev name flags : Z) (nm : list Z) (d : rt_device).
Hypotheses (HR : reg_rep L (ds_reg s)) (Hnest : rg_nest (ds_reg s) = 0) (Hname : cstr (rg_mem (ds_reg s)) name nm) (Hz : name <> 0)
  (Hfresh : fresh_object L (ds_reg s) 10 dev) (Hapart : string_apart dev 10 name nm) (Hd : ds_dev s !! dev = Some d)
  (Hdiffer : names_differ (L DEV) (ds_reg s)).

(** C37: a device registers unless its name (the first 8 characters) is taken; then it is
    found by the name, closed, and the names of the devices still are different; after
    it is unregistered the name finds nothing. *)
Theorem device_register_find :
  match List.find (has_name (ds_reg s) nm) (L DEV) with
  | Some _ => rt_device_register dev name flags s = Some (- RT_ERROR, s)
  | None => exists s' s'' L', rt_device_register dev name flags s = Some (RT_EOK, s') /\ reg_rep (<[DEV := dev :: L DEV]> L) (ds_reg s') /\
      names_differ (dev :: L DEV) (ds_reg s') /\ rt_device_find name s' = Some (Some dev, s') /\
      (forall inv : driver_inv, inv (d <| dv_flag := flags |> <| dv_ref_count := 0 |> <| dv_open_flag := 0 |>) (ds_serial s !! dev) ->
        dev_rep dev inv (flag_set flags RT_DEVICE_FLAG_STANDALONE) (mkSession 0 false) s') /\
      rt_device_unregister dev s' = Some (RT_EOK, s'') /\ L' DEV = L DEV /\ reg_rep L' (ds_reg s'') /\
      rt_device_find name s'' = Some (None, s'')
  end.
Proof.
  pose proof (fo_null _ _ _ _ Hfresh) as Hdev.
  destruct (List.find (has_name (ds_reg s) nm) (L DEV)) as [a|] eqn:Ef.
  { unfold rt_device_register. rewrite (proj2 (Z.eqb_neq dev 0) Hdev). erewrite bind_eq by (apply (device_find_eq L s name nm); assumption). rewrite Ef. reflexivity. }
  destruct (object_init_registers L (ds_reg s) dev RT_Object_Class_Device DEV name nm HR ltac:(unfold RT_Object_Class_Device; lia) eq_refl) as [_ H].
  destruct (H Hfresh Hname Hapart) as (r1 & Ei & R1 & Hn1 & Hs1 & Hnest1 & Fr). clear H. unfold string_apart in Hapart.
  set (L1 := <[DEV := dev :: L DEV]> L) in *. set (d1 := d <| dv_flag := flags |> <| dv_ref_count := 0 |> <| dv_open_flag := 0 |>).
  set (s1 := s <| ds_reg := r1 |> <| ds_dev ::= <[dev := d1]> |>).
  assert (rt_device_register dev name flags s = Some (RT_EOK, s1)) as E1.
  { unfold rt_device_register. rewrite (proj2 (Z.eqb_neq dev 0) Hdev). erewrite bind_eq by (apply (device_find_eq L s name nm); assumption). rewrite Ef.
    erewrite bind_eq by (unfold in_reg; rewrite Ei; reflexivity). erewrite bind_eq by (apply upd_dev_eq; exact Hd). reflexivity. }
  assert (L1 DEV = dev :: L DEV) as EL by apply fn_lookup_insert.
  assert (forall a, a ∈ L DEV -> name_of (rg_mem r1) a = name_of (rg_mem (ds_reg s)) a) as Hk.
  { apply names_kept. intros a Ha x Hx. apply Fr. pose proof (fo_gap _ _ _ _ Hfresh DEV a Ha). lia. }
  assert (cstr (rg_mem r1) name nm) as Hname1 by (eapply cstr_outside; [exact Hname|]; intros x Hx; apply Fr; lia).
  assert (forall a, a ∈ L DEV -> name_of (rg_mem r1) a <> take 8 nm) as Hnew.
  { intros a Ha E. rewrite Hk in E by exact Ha. apply list_elem_of_In in Ha. pose proof (find_none _ _ Ef a Ha) as X. unfold has_name in X.
    rewrite bool_decide_eq_true_2 in X by exact E. discriminate. }
  assert (registered dev s1) as Rg by (apply (rep_registered L1); [exact R1|rewrite EL; left]).
  set (r2 := r1 <| rg_list ::= rt_list_remove (Obj dev) |> <| rg_mem := <[ob_type dev := 0]> (rg_mem r1) |>).
  set (L2 := <[DEV := [] ++ L DEV]> L1). assert (reg_rep L2 r2) as R2 by (apply rep_gone; [exact R1|exact EL]).
  exists s1, (s1 <| ds_reg := r2 |>), L2. split; [exact E1|]. split; [exact R1|]. split; [|split; [|split; [|split; [|split; [apply fn_lookup_insert|split; [exact R2|]]]]]].
  - intros a b Ha Hb E. change (rg_mem (ds_reg s1)) with (rg_mem r1) in E. apply elem_of_cons in Ha as [->|Ha], Hb as [->|Hb].
    + reflexivity.
    + rewrite Hn1 in E. destruct (Hnew b Hb (eq_sym E)).
    + rewrite Hn1 in E. destruct (Hnew a Ha E).
    + rewrite !Hk in E by assumption. apply Hdiffer; assumption.
  - rewrite (device_find_eq L1 s1 name nm R1) by (assumption || exact (eq_trans Hnest1 Hnest)). rewrite EL. cbn [List.find].
    unfold has_name at 1. rewrite bool_decide_eq_true_2 by exact Hn1. reflexivity.
  - intros inv Hi. exists d1. split; [split; [exact Rg|apply lookup_insert_eq|exact Hi]|].
    split; cbn [ss_users ss_open]; try reflexivity; try lia; discriminate.
  - unfold rt_device_unregister. erewrite bind_eq by (apply assert_device_eq, Rg). erewrite bind_eq by (apply in_reg_read; exact Hs1).
    erewrite bind_eq by reflexivity. erewrite bind_eq; [reflexivity|]. unfold in_reg. change (ds_reg s1) with r1.
    rewrite (detach_eq L1 r1 DEV dev R1) by (rewrite EL; left). reflexivity.
  - assert (forall x, x <> ob_type dev -> rg_mem r2 !! x = rg_mem r1 !! x) as F2 by (intros x Hx; apply lookup_insert_ne; congruence).
    set (s2 := s1 <| ds_reg := r2 |>). assert (reg_rep L2 (ds_reg s2)) as R2' by exact R2. rewrite (device_find_eq L2 s2 name nm R2'); [| |apply (cstr_outside (rg_mem r1)); [exact Hname1|]|exact Hz].
    + unfold L2. rewrite fn_lookup_insert. cbn [app]. rewrite (find_kept (L DEV) (ds_reg s)); [rewrite Ef; reflexivity|].
      intros a Ha. rewrite <- Hk by exact Ha. apply name_ext. intros x Hx. apply F2. unfold ob_type. pose proof (fo_gap _ _ _ _ Hfresh DEV a Ha). lia.
    + exact (eq_trans Hnest1 Hnest).
    + intros x Hx. apply F2. unfold ob_type. lia.
Qed.
End Register.

(** ** Examples and witnesses *)

(** A device at 8 whose driver has the functions 1, 2 and 3; all of them succeed. *)
Definition demo_device : rt_device := mkDevice 0 0 0 0 0 None None (Some 1) (Some 2) (Some 3) None None None None 0.
Definition demo_devices : devices := mkDevices reg0 {[8 := demo_device]} 0 ∅ [].
Definition driver_results (ri ro rc : Z) : drivers :=
  mkDrivers (fun _ _ => mret ri) (fun _ _ _ => mret ro) (fun _ _ => mret rc) (fun _ _ _ _ _ => mret 0) (fun _ _ _ _ _ => mret 0) (fun _ _ _ _ => mret 0).
Definition demo_ready (flags : Z) : devices := default demo_devices (snd <$> rt_device_register 8 104 flags demo_devices).




Lemma device_register_find_witness : exists s' s'', rt_device_register 8 104 3 demo_devices = Some (RT_EOK, s') /\
  rt_device_find 104 s' = Some (Some 8, s') /\ rt_device_unregister 8 s' = Some (RT_EOK, s'') /\ rt_device_find 104 s'' = Some (None, s'').
Proof.
  pose proof (device_register_find no_objects demo_devices 8 104 3 _ demo_device reg0_rep eq_refl (proj2 reg0_names) ltac:(discriminate)
    (proj2 reg0_fresh) ltac:(unfold string_apart; cbn; lia) eq_refl ltac:(intros a b Ha; destruct (proj1 (elem_of_nil a) Ha))) as H.
  cbn [no_objects List.find] in H. destruct H as (s' & s'' & L' & E1 & _ & _ & E2 & _ & E3 & _ & _ & E4). exists s', s''. auto.
Defined.

(** The 256th user wraps the count: an assertion fails. *)
Example device_256_users : match run_calls (driver_results 0 0 0) 8 (replicate 255 (Open 3)) (demo_ready 3) with
  | Some (_, s) => rt_device_open (driver_results 0 0 0) 8 3 s = None
  | None => False end.
Proof. vm_compute. reflexivity. Qed.

(** After a close that failed in the driver a standalone device has no user and cannot be
    opened or closed any more. *)
Example device_stuck_open : fst <$> run_calls (driver_results 0 0 (-8)) 8 [Open 3; Close; Open 3; Close] (demo_ready 11) =
  Some [0; -8; - RT_EBUSY; - RT_ERROR].
Proof. vm_compute. reflexivity. Qed.

(** -RT_ENOSYS from the driver's open counts as a success, from its init as a failure; the
    caller sees the same result. *)
Example device_enosys_ambiguous :
  fst <$> run_calls (driver_results (- RT_ENOSYS) 0 0) 8 [Open 3; Close] (demo_ready 3) = Some [- RT_ENOSYS; - RT_ERROR] /\
  fst <$> run_calls (driver_results 0 (- RT_ENOSYS) 0) 8 [Open 3; Close] (demo_ready 3) = Some [- RT_ENOSYS; RT_EOK].
Proof. split; vm_compute; reflexivity. Qed.
