(* ===== verification/MshProps.v ===== *)
(** * Properties of the command interpreter

    The arguments a line is split into, the command that is run, and what completion
    makes of a line. *)

From stdpp Require Import gmap.
From S2P Require Import Prelude Bytes KString KStringProps KStdio Msh.
Open Scope rt_scope.

(** ** Arguments as lists *)

Fixpoint drop_spaces (l : list Z) : list Z := match l with c :: r => if is_space c then drop_spaces r else l | [] => [] end.

(** The characters up to a quote that is not behind a backslash, and what is behind it. *)
Fixpoint quoted (l : list Z) : list Z * option (list Z) :=
  match l with
  | [] => ([], None)
  | c :: r =>
      if c =? quote then ([], Some r)
      else match r with
           | d :: r' =>
               if (c =? backslash) && (d =? quote) then let '(t, k) := quoted r' in (c :: d :: t, k)
               else let '(t, k) := quoted r in (c :: t, k)
           | [] => ([c], None)
           end
  end.

Fixpoint word (l : list Z) : list Z * list Z :=
  match l with
  | [] => ([], [])
  | c :: r => if is_space c then ([], l) else let '(t, k) := word r in (c :: t, k)
  end.

(** The arguments of a line; a quoted one that is not closed goes up to the end. *)
Fixpoint tokens_loop (fuel : nat) (l : list Z) : list (list Z) :=
  match fuel with
  | O => []
  | S fuel =>
      match drop_spaces l with
      | [] => []
      | c :: r =>
          if c =? quote then
            match quoted r with (t, Some k) => t :: tokens_loop fuel k | (t, None) => [t] end
          else let '(t, k) := word (c :: r) in t :: tokens_loop fuel k
      end
  end.
Definition tokens (l : list Z) : list (list Z) := tokens_loop (S (length l)) l.

(** ** Scanning *)

Lemma holds_ld {A} m a c l (f : Z -> BM A) : holds m a (c :: l) -> (x ← ld a; f x) m = f c m.
Proof. intros H. apply holds_cons in H as [H _]. erewrite bind_eq by (apply ld_eq, H). reflexivity. Qed.

Lemma drop_spaces_split l : exists n, l = take n l ++ drop_spaces l /\ Forall (fun c => is_space c = true) (take n l) /\ (n <= length l)%nat /\
  match drop_spaces l with [] => True | c :: _ => is_space c = false end.
Proof.
  induction l as [|c l (n & E & H & Hn & Hh)]; [exists O; repeat split; constructor|]. cbn [drop_spaces]. destruct (is_space c) eqn:Ec.
  - exists (S n). cbn [take app length]. rewrite <- E. split; [reflexivity|]. split; [constructor; assumption|]. split; [lia|exact Hh].
  - exists O. cbn [take app]. rewrite Ec. repeat split; [constructor|lia].
Qed.

Lemma drop_spaces_len l : (length (drop_spaces l) <= length l)%nat.
Proof. induction l as [|c l IH]; [reflexivity|]. cbn [drop_spaces]. destruct (is_space c); cbn [length]; lia. Qed.

(** The blanks become zeros. *)
Lemma split_spaces_eq l : forall fuel m ptr position, holds m ptr (l ++ [0]) -> (length l < fuel)%nat ->
  let n := (length l - length (drop_spaces l))%nat in
  split_spaces fuel ptr position (position + Z.of_nat (length l)) m =
    Some ((ptr + Z.of_nat n, position + Z.of_nat n), write_list ptr (replicate n 0) m).
Proof.
  induction l as [|c l IH]; intros [|fuel] m ptr position H Hf; cbn [length] in Hf; try lia; cbn [split_spaces].
  - rewrite (holds_ld _ _ _ _ _ H). rewrite (proj2 (Z.ltb_ge _ _)) by (cbn; lia). rewrite andb_false_r. cbn. rewrite !Z.add_0_r. reflexivity.
  - rewrite (holds_ld _ _ _ _ _ H). rewrite (proj2 (Z.ltb_lt _ _)) by (cbn [length]; lia). rewrite andb_true_r. cbn [drop_spaces].
    apply holds_cons in H as [H1 H2]. fold (app l [0]) in H2. destruct (is_space c).
    + rewrite sb_then by eauto. pose proof (drop_spaces_len l) as Hd.
      cbn zeta in *. replace (position + Z.of_nat (length (c :: l))) with (position + 1 + Z.of_nat (length l)) by (cbn [length]; lia).
      rewrite IH; [|apply (holds_write m (ptr + 1) (l ++ [0]) ptr [0]); [cbn; lia|exact H2]|lia].
      replace (length (c :: l) - length (drop_spaces l))%nat with (S (length l - length (drop_spaces l))) by (cbn [length]; lia).
      cbn [replicate write_list]. apply (f_equal (fun x => Some (x, _))). f_equal; lia.
    + cbn zeta. rewrite Nat.sub_diag. cbn. rewrite !Z.add_0_r. reflexivity.
Qed.

Lemma word_split l : l = (word l).1 ++ (word l).2 /\ match (word l).2 with [] => True | c :: _ => is_space c = true end.
Proof.
  induction l as [|x l IH]; [split; [reflexivity|exact I]|]. cbn [word]. destruct (is_space x) eqn:Ec; [split; [reflexivity|exact Ec]|].
  destruct (word l) as [t k]. destruct IH as [E H]. cbn [fst snd] in *. split; [cbn; f_equal; exact E|exact H].
Qed.

Lemma split_word_eq l : forall fuel m ptr position, holds m ptr (l ++ [0]) -> (length l < fuel)%nat ->
  split_word fuel ptr position (position + Z.of_nat (length l)) m =
    Some ((ptr + Z.of_nat (length (word l).1), position + Z.of_nat (length (word l).1)), m).
Proof.
  induction l as [|c l IH]; intros [|fuel] m ptr position H Hf; cbn [length] in Hf; try lia; cbn [split_word].
  - rewrite (holds_ld _ _ _ _ _ H). rewrite (proj2 (Z.ltb_ge _ _)) by (cbn; lia). rewrite andb_false_r. cbn. rewrite !Z.add_0_r. reflexivity.
  - rewrite (holds_ld _ _ _ _ _ H). rewrite (proj2 (Z.ltb_lt _ _)) by (cbn [length]; lia). rewrite andb_true_r. cbn [word].
    apply holds_cons in H as [_ H2]. fold (app l [0]) in H2. destruct (is_space c); cbn [negb]; [cbn; rewrite !Z.add_0_r; reflexivity|].
    replace (position + Z.of_nat (length (c :: l))) with (position + 1 + Z.of_nat (length l)) by (cbn [length]; lia).
    rewrite IH by (assumption || lia). destruct (word l) as [t k]. cbn [fst length]. apply (f_equal (fun x => Some (x, _))). f_equal; lia.
Qed.

(** The list of a quoted argument: its characters, and the quote when it is closed. *)
Lemma quoted_split n : forall l, (length l <= n)%nat -> l = (quoted l).1 ++ match (quoted l).2 with Some k => quote :: k | None => [] end.
Proof.
  induction n as [|n IH]; intros [|c l] Hn; cbn [length] in Hn; try lia; [reflexivity|reflexivity|]. cbn [quoted].
  destruct (Z.eqb_spec c quote) as [->|Hc]; [reflexivity|]. destruct l as [|d l]; [reflexivity|].
  destruct ((c =? backslash) && (d =? quote)).
  - specialize (IH l ltac:(cbn in Hn; lia)). destruct (quoted l) as [t k]. cbn [fst snd app] in *. do 2 f_equal. exact IH.
  - specialize (IH (d :: l) ltac:(lia)). destruct (quoted (d :: l)) as [t k]. cbn [fst snd app] in *. f_equal. exact IH.
Qed.

Lemma split_string_eq n : forall l fuel m ptr position, (length l <= n)%nat -> holds m ptr (l ++ [0]) -> (length l < fuel)%nat ->
  split_string fuel ptr position (position + Z.of_nat (length l)) m =
    Some ((ptr + Z.of_nat (length (quoted l).1), position + Z.of_nat (length (quoted l).1)), m).
Proof.
  induction n as [|n IH]; intros [|c l] [|fuel] m ptr position Hn H Hf; cbn [length] in Hn, Hf; try lia; cbn [split_string].
  1, 2: rewrite (holds_ld _ _ _ _ _ H), (proj2 (Z.ltb_ge _ _)) by (cbn; lia); rewrite andb_false_r; cbn; rewrite !Z.add_0_r; reflexivity.
  rewrite (holds_ld _ _ _ _ _ H), (proj2 (Z.ltb_lt _ _)) by (cbn [length]; lia). rewrite andb_true_r. cbn [quoted].
  apply holds_cons in H as [_ H2]. fold (app l [0]) in H2. destruct (Z.eqb_spec c quote) as [->|Hc]; cbn [negb]; [cbn; rewrite !Z.add_0_r; reflexivity|].
  assert (forall l, (length l <= n)%nat -> holds m (ptr + 1) (l ++ [0]) -> (length l < fuel)%nat ->
    split_string fuel (ptr + 1) (position + 1) (position + Z.of_nat (S (length l))) m =
      Some ((ptr + Z.of_nat (S (length (quoted l).1)), position + Z.of_nat (S (length (quoted l).1))), m)) as One.
  { intros l' H1 H3 H4. replace (position + Z.of_nat (S (length l'))) with (position + 1 + Z.of_nat (length l')) by lia.
    rewrite IH by assumption. apply (f_equal (fun x => Some (x, _))). f_equal; lia. }
  destruct l as [|d l].
  { cbn [length]. destruct (c =? backslash); [rewrite (holds_ld _ _ _ _ _ H2); change (0 =? quote) with false; cbv iota|]; apply (One []); cbn; (lia || assumption). }
  pose proof (One (d :: l) ltac:(cbn [length] in *; lia) H2 ltac:(cbn [length] in *; lia)) as One'. cbn [length] in *.
  destruct (c =? backslash); cbn [andb].
  - rewrite (holds_ld _ _ _ _ _ H2). destruct (Z.eqb_spec d quote) as [->|Hd].
    + apply holds_cons in H2 as [_ H2]. fold (app l [0]) in H2. replace (ptr + 1 + 1) with (ptr + 2) in H2 by lia.
      replace (position + Z.of_nat (S (S (length l)))) with (position + 2 + Z.of_nat (length l)) by lia.
      rewrite IH by (assumption || lia). destruct (quoted l) as [t k]. cbn [fst length]. apply (f_equal (fun x => Some (x, _))). f_equal; lia.
    + rewrite One'. destruct (quoted (d :: l)) as [t k]. reflexivity.
  - rewrite One'. destruct (quoted (d :: l)) as [t k]. reflexivity.
Qed.

(** ** Printing *)

Lemma string_loop_eq l : forall fuel a m, cstr m a l -> (length l < fuel)%nat -> string_loop fuel a m = Some (l, m).
Proof.
  induction l as [|c l IH]; intros [|fuel] a m H Hf; cbn [length] in Hf; try lia; cbn [string_loop].
  - apply cstr_nil in H. erewrite bind_eq by (apply ld_eq, H). reflexivity.
  - apply cstr_cons in H as (H & Hc & H'). erewrite bind_eq by (apply ld_eq, H). rewrite (proj2 (Z.eqb_neq c 0)) by lia.
    erewrite bind_eq by (apply IH; [exact H'|lia]). reflexivity.
Qed.

Lemma string_at_eq a l m : cstr m a l -> string_at a m = Some (l, m).
Proof. intros H. unfold string_at. erewrite bind_eq by reflexivity. apply string_loop_eq; [exact H|apply (cstr_fuel _ _ _ H)]. Qed.

Lemma mem_eq {A} (c : BM A) s x m : c (sh_mem s) = Some (x, m) -> mem c s = Some (x, s <| sh_mem := m |>).
Proof. intros H. unfold mem. rewrite H. reflexivity. Qed.
Lemma mem_read {A} (c : BM A) s x : c (sh_mem s) = Some (x, sh_mem s) -> mem c s = Some (x, s).
Proof. intros H. rewrite (mem_eq _ _ _ _ H). destruct s. reflexivity. Qed.

(** A new memory and more text; the other fields stay. *)
Definition moved_to (m : bytes) (o : list Z) (s : finsh_shell) : finsh_shell := s <| sh_mem := m |> <| sh_out ::= (fun x => x ++ o) |>.

Lemma moved_trans m o m' o' s : moved_to m' o' (moved_to m o s) = moved_to m' (o ++ o') s.
Proof. unfold moved_to. destruct s. cbn. unfold set_field. cbn. rewrite app_assoc. reflexivity. Qed.
Lemma moved_mem m s : s <| sh_mem := m |> = moved_to m [] s.
Proof. unfold moved_to. destruct s. cbn. unfold set_field. cbn. rewrite app_nil_r. reflexivity. Qed.
Lemma moved_same s : s = moved_to (sh_mem s) [] s.
Proof. rewrite <- moved_mem. destruct s. reflexivity. Qed.

Lemma emit_eq l s : emit l s = Some (tt, moved_to (sh_mem s) l s).
Proof. destruct s. reflexivity. Qed.
Lemma console_short l : (length l <= 126)%nat -> console_text l = l.
Proof. intros H. unfold console_text. change (RT_CONSOLEBUF_SIZE - 1) with 127. rewrite (proj2 (Z.ltb_lt _ _)) by lia. reflexivity. Qed.
Lemma puts_eq l s : puts l s = Some (tt, moved_to (sh_mem s) (console_text l) s).
Proof. apply emit_eq. Qed.
Lemma puts_short l s : (length l <= 126)%nat -> puts l s = Some (tt, moved_to (sh_mem s) l s).
Proof. intros H. rewrite puts_eq, console_short by exact H. reflexivity. Qed.
Lemma text_eq a l s : cstr (sh_mem s) a l -> mem (string_at a) s = Some (l, s).
Proof. intros H. apply mem_read, string_at_eq, H. Qed.
Lemma put_string_eq a l s : cstr (sh_mem s) a l -> (length l <= 126)%nat -> put_string a s = Some (tt, moved_to (sh_mem s) l s).
Proof. intros H Hl. unfold put_string. erewrite bind_eq by (apply text_eq, H). apply puts_short, Hl. Qed.

Lemma put_args_eq argv toks s : Forall2 (cstr (sh_mem s)) argv toks -> exists o, put_args argv s = Some (tt, moved_to (sh_mem s) o s).
Proof.
  revert toks s. induction argv as [|a argv IH]; intros toks s H; [exists []; rewrite <- moved_same; reflexivity|].
  inversion H as [|? t ? toks' Ha Ht]; subst. cbn [put_args]. erewrite bind_eq by (apply text_eq, Ha). erewrite bind_eq by apply puts_eq.
  destruct (IH toks' (moved_to (sh_mem s) (console_text (t ++ [32])) s) Ht) as [o E].
  exists (console_text (t ++ [32]) ++ o). rewrite E. cbn [sh_mem]. rewrite moved_trans. reflexivity.
Qed.

(** ** Splitting *)

Lemma take_within {A} n (l l' : list A) : (length l <= n)%nat -> l' = [] \/ length l = n -> take n (l ++ l') = l.
Proof. intros H [->|E]; [rewrite app_nil_r; apply take_ge, H|rewrite take_app_le, take_ge by lia; reflexivity]. Qed.

(** The arguments found so far are strings as soon as the blank at [ptr] is a 0. *)
Definition terminated (m : bytes) (ptr : Z) (l : list Z) (argv : list Z) (toks : list (list Z)) : Prop :=
  forall m', (forall x, x < ptr -> m' !! x = m !! x) -> (match l with c :: _ => is_space c = true -> m' !! ptr = Some 0 | [] => True end) ->
  Forall2 (cstr m') argv toks.

Lemma holds_sub m m' a l : holds m a l -> (forall x, a <= x < a + Z.of_nat (length l) -> m' !! x = m !! x) -> holds m' a l.
Proof. intros H E k y Hk. pose proof (lookup_lt_Some _ _ _ Hk). rewrite E by lia. apply H, Hk. Qed.

(** A token that lies before the end of what [m'] leaves alone. *)
Lemma token_cstr m m' a t rest : holds m a (t ++ rest) -> chars_ok t -> m' !! (a + Z.of_nat (length t)) = Some 0 ->
  (forall x, x < a + Z.of_nat (length t) -> m' !! x = m !! x) -> cstr m' a t.
Proof.
  intros H C E F. split; [|exact C]. apply holds_app in H as [H _]. apply holds_app. split.
  - eapply holds_sub; [exact H|]. intros x Hx. apply F. lia.
  - apply holds_cons. split; [exact E|apply holds_nil].
Qed.

Lemma terminated_new m ptr l argv toks a t rest :
  (forall m' : bytes, (forall x, x < a -> m' !! x = m !! x) -> Forall2 (cstr m') argv toks) ->
  holds m a (t ++ rest) -> chars_ok t ->
  (let e := a + Z.of_nat (length t) in e < ptr /\ m !! e = Some 0 \/ e = ptr /\ match l with c :: _ => is_space c = true | [] => False end) ->
  terminated m ptr l (argv ++ [a]) (toks ++ [t]).
Proof.
  intros Q H C He m' F Hz. apply Forall2_app; [apply Q; intros x Hx; apply F; cbn in He; lia|]. apply Forall2_cons. split; [|constructor].
  apply (token_cstr m m' a t rest); [exact H|exact C| |intros x Hx; apply F; cbn in He; lia].
  destruct He as [[He E]|[<- Hl]]; [rewrite F by exact He; exact E|]. destruct l; [contradiction|apply Hz, Hl].
Qed.

(** What the loop returns: the first arguments, as strings, with bytes changed only
    inside the line. *)
Definition split_result (s : finsh_shell) (ptr : Z) (l : list Z) (toks : list (list Z)) (r : option (list Z * finsh_shell)) : Prop :=
  exists argv m o, r = Some (argv, moved_to m o s) /\ Forall2 (cstr m) argv (take 10 toks) /\
    (forall x, x < ptr \/ ptr + Z.of_nat (length l) <= x -> m !! x = sh_mem s !! x) /\ (forall x, is_Some (sh_mem s !! x) -> is_Some (m !! x)).

Lemma split_done s ptr l argv toks toks' : Forall2 (cstr (sh_mem s)) argv toks -> (length argv <= 10)%nat -> toks' = [] \/ length argv = 10%nat ->
  split_result s ptr l (toks ++ toks') (Some (argv, s)).
Proof.
  intros H Hl Hc. pose proof (Forall2_length _ _ _ H) as E. exists argv, (sh_mem s), []. rewrite <- moved_same. split; [reflexivity|].
  rewrite take_within by (rewrite <- E; assumption). auto.
Qed.

(** After a step that changes bytes of the line only. *)
Lemma split_moved s m o ptr l ptr' l' toks r : split_result (moved_to m o s) ptr' l' toks r ->
  ptr <= ptr' -> ptr' + Z.of_nat (length l') <= ptr + Z.of_nat (length l) ->
  (forall x, x < ptr \/ ptr + Z.of_nat (length l) <= x -> m !! x = sh_mem s !! x) -> (forall x, is_Some (sh_mem s !! x) -> is_Some (m !! x)) ->
  split_result s ptr l toks r.
Proof.
  intros (argv & m' & o' & -> & H1 & H2 & H3) Hp He F D. exists argv, m', (o ++ o'). rewrite moved_trans. split; [reflexivity|]. split; [exact H1|].
  split; [|intros x Hx; apply H3, D, Hx]. intros x Hx. rewrite H2 by lia. apply F, Hx.
Qed.

Lemma tokens_stripped fuel l : tokens_loop fuel (drop_spaces l) = tokens_loop fuel l.
Proof.
  destruct fuel as [|fuel]; [reflexivity|]. cbn [tokens_loop].
  assert (drop_spaces (drop_spaces l) = drop_spaces l) as ->; [|reflexivity].
  destruct (drop_spaces_split l) as (n & _ & _ & _ & H). destruct (drop_spaces l) as [|c r]; [reflexivity|]. cbn. rewrite H. reflexivity.
Qed.

Lemma chars_ok_app l1 l2 : chars_ok (l1 ++ l2) <-> chars_ok l1 /\ chars_ok l2.
Proof. apply Forall_app. Qed.

Section SplitArg.
Context (fuel : nat) (next : Z -> Z -> list Z -> SH (list Z)) (length' : Z).
Hypothesis Hnext : forall l s ptr position argv toks, holds (sh_mem s) ptr (l ++ [0]) -> chars_ok l -> (length l <= fuel)%nat ->
  0 <= position -> length' = position + Z.of_nat (length l) -> (length argv <= 10)%nat -> terminated (sh_mem s) ptr l argv toks ->
  split_result s ptr l (toks ++ tokens_loop fuel l) (next ptr position argv s).

(** A blank-free start of the rest of the line. *)
Context (s : finsh_shell) (ptr position : Z) (argv : list Z) (toks : list (list Z)).
Hypothesis Hp : 0 <= position.
Hypothesis Ha : (length argv <= 10)%nat.
Hypothesis HQ : forall m' : bytes, (forall x, x < ptr -> m' !! x = sh_mem s !! x) -> Forall2 (cstr m') argv toks.

Lemma split_word_case l : holds (sh_mem s) ptr (l ++ [0]) -> chars_ok l -> l <> [] -> length' = position + Z.of_nat (length l) ->
  (length l <= S fuel)%nat -> (word l).1 <> [] -> (length argv < 10)%nat ->
  split_result s ptr l (toks ++ (word l).1 :: tokens_loop fuel (word l).2)
    (if length' <=? position + Z.of_nat (length (word l).1) then Some (argv ++ [ptr], s)
     else next (ptr + Z.of_nat (length (word l).1)) (position + Z.of_nat (length (word l).1)) (argv ++ [ptr]) s).
Proof.
  intros H C Hl -> Hf Ht Hc. destruct (word_split l) as [E Hk]. pose proof (f_equal length E) as El. rewrite length_app in El. set (t := (word l).1) in *. set (k := (word l).2) in *.
  rewrite E in H, C. apply chars_ok_app in C as [Ct Ck]. rewrite <- app_assoc in H. pose proof H as Hall. apply holds_app in H as [_ H].
  rewrite E, length_app. replace (toks ++ t :: tokens_loop fuel k) with ((toks ++ [t]) ++ tokens_loop fuel k) by (rewrite <- app_assoc; reflexivity).
  destruct (Z.leb_spec (position + Z.of_nat (length t + length k)) (position + Z.of_nat (length t))) as [Hle|Hlt].
  - assert (k = []) as Ek by (destruct k; [reflexivity|cbn in Hle; lia]). rewrite Ek in *. apply split_done; [|rewrite length_app; cbn; lia|].
    + apply Forall2_app; [apply HQ; auto|]. apply Forall2_cons. split; [|constructor].
      apply (token_cstr (sh_mem s) (sh_mem s) ptr t [0]); [exact Hall|exact Ct| |auto]. apply holds_cons in H as [H _]. exact H.
    + left. destruct fuel; reflexivity.
  - rewrite (moved_same s) at 2. apply (split_moved s (sh_mem s) [] ptr (t ++ k) (ptr + Z.of_nat (length t)) k);
      [rewrite <- moved_same|lia|rewrite length_app; lia|auto|auto].
    apply Hnext; [exact H|exact Ck| |lia|lia|rewrite length_app; cbn; lia|].
    + destruct t; [contradiction|]. cbn in El. lia.
    + eapply terminated_new; [exact HQ|exact Hall|exact Ct|]. right. split; [reflexivity|]. destruct k; [cbn in Hlt; lia|exact Hk].
Qed.

Lemma split_quote_case l : holds (sh_mem s) ptr (quote :: l ++ [0]) -> chars_ok l -> length' = position + 1 + Z.of_nat (length l) ->
  (length l <= fuel)%nat -> (length argv < 10)%nat ->
  let n := Z.of_nat (length (quoted l).1) in
  split_result s ptr (quote :: l) (toks ++ match quoted l with (t, Some k) => t :: tokens_loop fuel k | (t, None) => [t] end)
    (if length' <=? position + 1 + n then Some (argv ++ [ptr + 1], s)
     else (mem (sb (ptr + 1 + n) 0);; next (ptr + 1 + n + 1) (position + 1 + n + 1) (argv ++ [ptr + 1])) s).
Proof.
  intros H C -> Hf Hc n. apply holds_cons in H as [_ H]. pose proof (quoted_split (length l) l (le_n _)) as E.
  pose proof (f_equal length E) as El. rewrite length_app in El.
  destruct (quoted l) as [t k]. cbn [fst snd] in *. subst n. rewrite E in C. apply chars_ok_app in C as [Ct Ck]. destruct k as [k|]; cbn [length] in El.
  - rewrite E, length_app. cbn [length]. rewrite (proj2 (Z.leb_gt _ _)) by lia. apply Forall_cons in Ck as [_ Ck].
    rewrite E, <- app_assoc in H. pose proof H as Hall. apply holds_app in H as [_ H]. apply holds_cons in H as [Hq H]. fold (app k [0]) in H.
    set (e := ptr + 1 + Z.of_nat (length t)) in *. set (m := <[e := 0]> (sh_mem s)).
    erewrite bind_eq by (apply mem_eq; rewrite sb_eq, decide_True by eauto; reflexivity). fold m. rewrite moved_mem.
    assert (forall x, x <> e -> m !! x = sh_mem s !! x) as Fm by (intros x Hx; apply lookup_insert_ne; congruence).
    replace (toks ++ t :: tokens_loop fuel k) with ((toks ++ [t]) ++ tokens_loop fuel k) by (rewrite <- app_assoc; reflexivity).
    apply (split_moved s m [] ptr (quote :: t ++ quote :: k) (e + 1) k); [|lia|cbn [length]; rewrite length_app; cbn [length]; lia| |].
    + apply Hnext; [apply (holds_sub (sh_mem s)); [exact H|intros x Hx; apply Fm; lia]|exact Ck| |lia|lia|rewrite length_app; cbn; lia|].
      * cbn in El. lia.
      * eapply (terminated_new m (e + 1) k argv toks (ptr + 1) t []);
          [intros m' F; apply HQ; intros x Hx; rewrite F, Fm by lia; reflexivity| |exact Ct|left; split; [lia|apply lookup_insert_eq]].
        rewrite app_nil_r. apply holds_app in Hall as [Hall _]. apply (holds_sub (sh_mem s)); [exact Hall|]. intros x Hx. apply Fm. lia.
    + intros x Hx. apply Fm. cbn [length] in Hx. rewrite length_app in Hx. cbn [length] in Hx. lia.
    + intros x Hx. destruct (decide (x = e)) as [->|Hne]; [unfold m; rewrite lookup_insert_eq; eauto|rewrite Fm by exact Hne; exact Hx].
  - rewrite app_nil_r in E. subst l. rewrite (proj2 (Z.leb_le _ _)) by lia. replace (toks ++ [t]) with ((toks ++ [t]) ++ []) by apply app_nil_r.
    apply split_done; [|rewrite length_app; cbn; lia|left; reflexivity]. apply Forall2_app; [apply HQ; auto|]. apply Forall2_cons. split; [|constructor].
    apply (token_cstr (sh_mem s) (sh_mem s) (ptr + 1) t [0]); [exact H|exact Ct| |auto]. apply holds_app in H as [_ H]. apply holds_cons in H as [H _]. exact H.
Qed.
End SplitArg.

Lemma word_nonempty c r : is_space c = false -> (word (c :: r)).1 <> [].
Proof. intros H. cbn [word]. rewrite H. destruct (word r). discriminate. Qed.

(** The loop body behind the blanks. *)
Lemma split_arg_eq fuel next length' :
  (forall l s ptr position argv toks, holds (sh_mem s) ptr (l ++ [0]) -> chars_ok l -> (length l <= fuel)%nat ->
    0 <= position -> length' = position + Z.of_nat (length l) -> (length argv <= 10)%nat -> terminated (sh_mem s) ptr l argv toks ->
    split_result s ptr l (toks ++ tokens_loop fuel l) (next ptr position argv s)) ->
  forall l s ptr position argv toks, holds (sh_mem s) ptr (l ++ [0]) -> chars_ok l -> (length l <= S fuel)%nat ->
  match l with [] => True | c :: _ => is_space c = false end ->
  0 <= position -> length' = position + Z.of_nat (length l) -> (length argv <= 10)%nat ->
  (forall m' : bytes, (forall x, x < ptr -> m' !! x = sh_mem s !! x) -> Forall2 (cstr m') argv toks) ->
  split_result s ptr l (toks ++ tokens_loop (S fuel) l) (split_arg next ptr position length' argv s).
Proof.
  intros Hnext l s ptr position argv toks H C Hf Hh Hp El Ha HQ. unfold split_arg. change FINSH_ARG_MAX with 10.
  destruct (Z.leb_spec 10 (Z.of_nat (length argv))) as [Hc|Hc].
  { destruct (put_args_eq argv toks (moved_to (sh_mem s) too_many s)) as [o Eo]; [apply HQ; auto|].
    erewrite bind_eq by (apply (puts_short too_many); cbn; lia). erewrite bind_eq by exact Eo. erewrite bind_eq by (apply (puts_short newline); cbn; lia). cbn [sh_mem].
    change (sh_mem (moved_to _ o _)) with (sh_mem s). rewrite !moved_trans.
    change (split_result s ptr l (toks ++ tokens_loop (S fuel) l) (Some (argv, moved_to (sh_mem s) ((too_many ++ o) ++ newline) s))).
    eapply (split_moved s (sh_mem s) _ ptr l ptr l); [|lia|lia|auto|auto]. apply split_done; [apply HQ; auto|exact Ha|right; lia]. }
  destruct l as [|c r].
  { cbn [length] in El. rewrite (proj2 (Z.leb_le _ _)) by lia. apply split_done; [apply HQ; auto|exact Ha|left; reflexivity]. }
  rewrite (proj2 (Z.leb_gt _ _)) by (cbn [length] in El; lia). erewrite bind_eq by (apply mem_read, ld_eq; apply holds_cons in H as [H _]; exact H).
  cbn [tokens_loop drop_spaces]. rewrite Hh. destruct (Z.eqb_spec c quote) as [->|Hq].
  - assert (length' = position + 1 + Z.of_nat (length r)) as El' by (cbn [length] in El; lia). pose proof H as H'. apply holds_cons in H' as [_ H'].
    fold (app r [0]) in H'. apply Forall_cons in C as [_ C].
    erewrite bind_eq by (apply mem_read; rewrite El'; apply (split_string_eq (length r)); [lia|exact H'|cbn [length] in Hf; lia]).
    cbv beta iota. pose proof (split_quote_case fuel next length' Hnext s ptr position argv toks Hp Ha HQ r H C El'
      ltac:(cbn [length] in Hf; lia) ltac:(lia)) as W. cbv zeta in W. destruct (length' <=? _); exact W.
  - erewrite bind_eq by (apply mem_read; rewrite El; apply split_word_eq; [exact H|cbn [length] in *; lia]). cbv beta iota.
    pose proof (word_nonempty c r Hh) as Hw. destruct (word (c :: r)) as [t k] eqn:Ew.
    pose proof (split_word_case fuel next length' Hnext s ptr position argv toks Hp Ha HQ (c :: r) H C ltac:(discriminate) El Hf) as W.
    rewrite Ew in W. cbn [fst snd] in *. specialize (W Hw ltac:(lia)). destruct (length' <=? _); exact W.
Qed.

Lemma split_loop_eq fuel : forall l s ptr position length' argv toks, holds (sh_mem s) ptr (l ++ [0]) -> chars_ok l -> (length l <= fuel)%nat ->
  0 <= position -> length' = position + Z.of_nat (length l) -> (length argv <= 10)%nat -> terminated (sh_mem s) ptr l argv toks ->
  split_result s ptr l (toks ++ tokens_loop fuel l) (split_loop fuel ptr position length' argv s).
Proof.
  induction fuel as [|fuel IH]; intros l s ptr position length' argv toks H C Hf Hp El Ha HT; (destruct l as [|c r]; [|cbn [length] in Hf; try lia]).
  1, 2: cbn [split_loop]; rewrite (proj2 (Z.ltb_ge _ _)) by (cbn [length] in El; lia); apply split_done; [apply HT; auto|exact Ha|left; reflexivity].
  cbn [split_loop]. rewrite (proj2 (Z.ltb_lt _ _)) by (cbn [length] in El; lia). cbn [negb]. set (l := c :: r) in *.
  assert (length l = S (length r)) as Hlr by reflexivity.
  pose proof (drop_spaces_len l) as Hd. destruct (drop_spaces_split l) as (n & E & Hn & Hnl & Hh).
  assert (length l - length (drop_spaces l) = n)%nat as En by (rewrite E at 1; rewrite length_app, length_take; lia).
  erewrite bind_eq.
  2: { apply mem_eq. rewrite El. apply split_spaces_eq; [exact H|lia]. }
  cbv beta iota. rewrite En, moved_mem. set (m := write_list ptr (replicate n 0) (sh_mem s)).
  assert (forall x, x < ptr \/ ptr + Z.of_nat n <= x -> m !! x = sh_mem s !! x) as Fm by (intros x Hx; apply write_outside; rewrite length_replicate; lia).
  rewrite <- tokens_stripped. apply (split_moved s m [] ptr l (ptr + Z.of_nat n) (drop_spaces l)); [|lia|lia|intros x Hx; apply Fm; lia|].
  2: { intros x Hx. unfold m. rewrite write_list_lookup, length_replicate. destruct (decide _); [|exact Hx].
       apply lookup_lt_is_Some_2. rewrite length_replicate. lia. }
  rewrite E, chars_ok_app in C. destruct C as [_ C]. rewrite E, <- app_assoc in H. apply holds_app in H as [_ H]. rewrite length_take, Nat.min_l in H by lia.
  apply split_arg_eq; [intros; apply IH; assumption| |exact C|lia|exact Hh|lia|lia|exact Ha|].
  - apply (holds_sub (sh_mem s)); [exact H|]. intros x Hx. apply Fm. lia.
  - intros m' F. apply HT; [intros x Hx; rewrite F by lia; change (m !! x = sh_mem s !! x); apply Fm; lia|]. intros Hsp.
    assert (n <> O) as Hn0 by (intros ->; unfold l in En; cbn [drop_spaces] in En; rewrite Hsp in En; pose proof (drop_spaces_len r); cbn [length] in En; lia).
    rewrite F by lia. change (m !! ptr = Some 0). unfold m. rewrite write_list_lookup, length_replicate, decide_True, Z.sub_diag by lia.
    apply lookup_replicate_2. lia.
Qed.

(** C34: [msh_split] cuts a line into its arguments: the words between blanks and the
    quoted ones, of which it keeps the first 10; they are strings inside the line, and
    no byte outside the line changes. *)
Theorem msh_split_tokens s cmd l : cstr (sh_mem s) cmd l ->
  exists argv m o, msh_split cmd (Z.of_nat (length l)) s = Some (argv, moved_to m o s) /\ Forall2 (cstr m) argv (take 10 (tokens l)) /\
    (forall x, x < cmd \/ cmd + Z.of_nat (length l) <= x -> m !! x = sh_mem s !! x).
Proof.
  intros [H C]. unfold msh_split. rewrite Nat2Z.id.
  destruct (split_loop_eq (S (length l)) l s cmd 0 (Z.of_nat (length l)) [] []) as (argv & m & o & E & H1 & H2 & _);
    [exact H|exact C|lia|lia|lia|cbn; lia|intros m' _ _; constructor|]. exists argv, m, o. auto.
Qed.

(** ** Quoting *)

Definition quote_args (args : list (list Z)) : list Z := concat (map (fun a => quote :: a ++ [quote; 32]) args).

Lemma quoted_closed a r : Forall (fun c => c <> quote /\ c <> backslash) a -> quoted (a ++ quote :: r) = (a, Some r).
Proof.
  induction a as [|c a IH]; intros H; [reflexivity|]. apply Forall_cons in H as [[H1 H2] H]. cbn [app quoted].
  rewrite (proj2 (Z.eqb_neq _ _) H1). specialize (IH H). destruct (a ++ quote :: r) as [|d l] eqn:E; [destruct a; discriminate|].
  rewrite (proj2 (Z.eqb_neq _ _) H2). cbn [andb]. rewrite IH. reflexivity.
Qed.

Lemma tokens_loop_quoted args : forall fuel, Forall (Forall (fun c => c <> quote /\ c <> backslash)) args -> (length (quote_args args) < fuel)%nat ->
  tokens_loop fuel (quote_args args) = args /\ tokens_loop fuel (32 :: quote_args args) = args.
Proof.
  induction args as [|a args IH]; intros [|fuel] H Hf; try (cbn in Hf; lia); [split; reflexivity|]. apply Forall_cons in H as [Ha H].
  unfold quote_args in *. cbn [map concat] in *. assert (forall r, ((quote :: a ++ [quote; 32]) ++ r) = quote :: a ++ quote :: 32 :: r) as E
    by (intros r; cbn; rewrite <- app_assoc; reflexivity). rewrite E in *. cbn [length] in Hf. rewrite length_app in Hf. cbn [length] in Hf.
  destruct (IH fuel H ltac:(lia)) as [_ IH2]. split; cbn [tokens_loop drop_spaces]; change (is_space quote) with false; change (is_space 32) with true; cbv iota;
    rewrite Z.eqb_refl, (quoted_closed _ _ Ha), IH2; reflexivity.
Qed.

(** The arguments of a line of quoted arguments are these arguments, whatever blanks
    they have; the first 10 of them reach the command. *)
Theorem msh_split_quoted s cmd args : Forall (Forall (fun c => c <> quote /\ c <> backslash)) args -> cstr (sh_mem s) cmd (quote_args args) ->
  exists argv m o, msh_split cmd (Z.of_nat (length (quote_args args))) s = Some (argv, moved_to m o s) /\ Forall2 (cstr m) argv (take 10 args).
Proof.
  intros Ha [H C]. unfold msh_split. rewrite Nat2Z.id. set (l := quote_args args) in *.
  destruct (split_loop_eq (S (length l)) l s cmd 0 (Z.of_nat (length l)) [] []) as (argv & m & o & E & H1 & _);
    [exact H|exact C|lia|lia|lia|cbn; lia|intros m' _ _; constructor|]. exists argv, m, o. split; [exact E|].
  pose proof (proj1 (tokens_loop_quoted args (S (length l)) Ha (Nat.lt_succ_diag_r _))) as Eq. fold l in Eq. cbn [app] in H1. rewrite Eq in H1. exact H1.
Qed.

(** ** Finding a command *)

Lemma strncmp_eq n : forall l1 l2 a b m, cstr m a l1 -> cstr m b l2 ->
  exists c, strncmp n a b m = Some (c, m) /\ (c = 0 <-> take n l1 = take n l2).
Proof.
  induction n as [|n IH]; intros l1 l2 a b m H1 H2; cbn [strncmp take]; [exists 0; split; [reflexivity|split; auto]|].
  assert (forall l a, cstr m a l -> m !! a = Some (hd 0 l)) as Hd by (intros [|c l] a' H; [apply cstr_nil in H|apply cstr_cons in H as (H & _)]; exact H).
  assert (forall l a, cstr m a l -> (hd 0 l = 0 <-> l = [])) as Hz.
  { intros [|c l] a' H; cbn; [split; auto|]. apply cstr_cons in H as (_ & H & _). split; [lia|discriminate]. }
  erewrite bind_eq by (apply ld_eq, (Hd l1), H1). erewrite bind_eq by (apply ld_eq, (Hd l2), H2).
  destruct (Z.eqb_spec (hd 0 l1) (hd 0 l2)) as [E|E]; cbn [negb].
  - destruct (Z.eqb_spec (hd 0 l1) 0) as [E0|E0].
    + rewrite (proj1 (Hz _ _ H1) E0), (proj1 (Hz _ _ H2)) by congruence. exists 0. split; [reflexivity|split; auto].
    + destruct l1 as [|x l1]; [contradiction (E0 eq_refl)|]. cbn [hd] in *. subst x. destruct l2 as [|y l2]; [contradiction (E0 eq_refl)|]. cbn [hd take] in *.
      apply cstr_cons in H1 as (_ & _ & H1). apply cstr_cons in H2 as (_ & _ & H2). destruct (IH l1 l2 _ _ m H1 H2) as (c & Ec & Hc).
      exists c. split; [exact Ec|]. rewrite Hc. split; [intros ->; reflexivity|intros [= H]; exact H].
  - exists (hd 0 l1 - hd 0 l2). split; [reflexivity|]. split; [lia|]. destruct l1, l2; cbn in *; try discriminate; try (intros; contradiction); congruence.
Qed.

Lemma cstr_at m a l n : cstr m a l -> (n <= length l)%nat -> m !! (a + Z.of_nat n) = Some (default 0 (l !! n)).
Proof.
  intros [H _] Hn. destruct (l !! n) as [c|] eqn:E.
  - apply H. rewrite lookup_app_l by (eapply lookup_lt_Some, E). exact E.
  - apply lookup_ge_None in E. assert (n = length l) as -> by lia. apply holds_app in H as [_ H]. apply holds_cons in H as [H _]. exact H.
Qed.

Lemma take_prefix {A} n (l w : list A) : length w = n -> take n l = w -> (length l = n <-> l = w).
Proof. intros <- E. split; [intros H; rewrite <- E; symmetry; apply take_ge; lia|intros ->; reflexivity]. Qed.

Section Table.
Context (names : finsh_syscall -> list Z).

Lemma get_cmd_eq m cmd w rest : cstr m cmd (w ++ rest) -> forall table, Forall (fun f => cstr m (sc_name f) (names f)) table ->
  get_cmd_loop table cmd (Z.of_nat (length w)) m = Some (List.find (fun f => bool_decide (names f = w)) table, m).
Proof.
  intros Hc. induction table as [|f table IH]; intros H; [reflexivity|]. apply Forall_cons in H as [Hf H]. cbn [get_cmd_loop List.find].
  rewrite Nat2Z.id. destruct (strncmp_eq (length w) _ _ _ _ _ Hf Hc) as (c & E & Hz). erewrite bind_eq by exact E.
  rewrite take_app_length in Hz. pose proof (take_prefix (length w) (names f) w eq_refl) as Hp.
  destruct (Z.eqb_spec c 0) as [->|Hne].
  - destruct Hz as [Hz _]. specialize (Hz eq_refl). specialize (Hp Hz).
    assert (length w <= length (names f))%nat as Hl by (rewrite <- Hz, length_take; lia).
    erewrite bind_eq by (apply ld_eq, (cstr_at _ _ _ _ Hf Hl)). destruct (names f !! length w) as [x|] eqn:Ex.
    + assert (x <> 0) as Hx by (destruct Hf as [_ Hf]; apply (Forall_lookup_1 _ _ _ _ Hf) in Ex; lia).
      cbn [default from_option id]. rewrite (proj2 (Z.eqb_neq x 0) Hx). rewrite bool_decide_eq_false_2; [apply IH, H|].
      intros E'%Hp. apply lookup_lt_Some in Ex. lia.
    + cbn [default from_option id]. rewrite Z.eqb_refl, bool_decide_eq_true_2; [reflexivity|]. apply Hp. apply lookup_ge_None in Ex. lia.
  - rewrite bool_decide_eq_false_2; [apply IH, H|]. intros E'. apply Hne, Hz. rewrite E'. apply take_ge. lia.
Qed.

Lemma cmd0_eq m l : forall cmd n length' fuel, holds m (cmd + n) (l ++ [0]) -> 0 <= n -> length' = n + Z.of_nat (length l) -> (length l <= fuel)%nat ->
  cmd0_loop fuel cmd n length' m = Some (n + Z.of_nat (length (word l).1), m).
Proof.
  induction l as [|c l IH]; intros cmd n length' fuel H Hn -> Hf; cbn [length] in *.
  - destruct fuel; cbn [cmd0_loop]; rewrite (proj2 (Z.ltb_ge _ _)) by lia; apply ret_eq; cbn; lia.
  - destruct fuel as [|fuel]; [lia|]. cbn [cmd0_loop]. rewrite (proj2 (Z.ltb_lt _ _)) by lia. rewrite (holds_ld _ _ _ _ _ H). cbn [word].
    destruct (is_space c); [cbn; rewrite Z.add_0_r; reflexivity|]. apply holds_cons in H as [_ H]. fold (app l [0]) in H.
    rewrite <- Z.add_assoc in H. rewrite (IH cmd (n + 1)) by (assumption || lia). destruct (word l). cbn [fst length]. apply ret_eq. lia.
Qed.

Lemma trim_eq m l : forall cmd fuel, holds m cmd (l ++ [0]) -> (length l <= fuel)%nat ->
  trim_loop fuel cmd (Z.of_nat (length l)) m =
    Some ((cmd + Z.of_nat (length l - length (drop_spaces l)), Z.of_nat (length (drop_spaces l))), m).
Proof.
  induction l as [|c l IH]; intros cmd fuel H Hf; cbn [length] in *.
  - destruct fuel; cbn; rewrite Z.add_0_r; reflexivity.
  - destruct fuel as [|fuel]; [lia|]. cbn [trim_loop]. rewrite (proj2 (Z.ltb_lt _ _)) by lia. rewrite (holds_ld _ _ _ _ _ H). cbn [drop_spaces].
    destruct (is_space c).
    + apply holds_cons in H as [_ H]. fold (app l [0]) in H. replace (Z.of_nat (S (length l)) - 1) with (Z.of_nat (length l)) by lia.
      rewrite IH by (assumption || lia). pose proof (drop_spaces_len l). apply ret_eq. f_equal. lia.
    + cbn [length]. rewrite Nat.sub_diag, Z.add_0_r. reflexivity.
Qed.

(** The name that is printed when there is no such command: a tab does not end it. *)
Fixpoint before_space (l : list Z) : list Z := match l with [] => [] | c :: l => if c =? 32 then [] else c :: before_space l end.

Lemma truncate_eq l : forall m cmd fuel, cstr m cmd l -> (length l < fuel)%nat ->
  truncate_loop fuel cmd m = Some (tt, <[cmd + Z.of_nat (length (before_space l)) := 0]> m).
Proof.
  induction l as [|c l IH]; intros m cmd [|fuel] H Hf; cbn [length] in Hf; try lia; cbn [truncate_loop before_space].
  - apply cstr_nil in H. erewrite bind_eq by (apply ld_eq, H). change (negb (0 =? 32) && negb (0 =? 0)) with false. cbv iota.
    rewrite sb_eq, decide_True by eauto. cbn. rewrite Z.add_0_r. reflexivity.
  - apply cstr_cons in H as (H & Hc & H'). erewrite bind_eq by (apply ld_eq, H). rewrite (proj2 (Z.eqb_neq c 0)) by lia. rewrite andb_true_r.
    destruct (Z.eqb_spec c 32) as [->|Hne]; cbn [negb].
    + rewrite sb_eq, decide_True by eauto. cbn. rewrite Z.add_0_r. reflexivity.
    + rewrite (IH m (cmd + 1)) by (assumption || lia). cbn [length]. do 3 f_equal. lia.
Qed.

Lemma before_space_prefix l : exists r, l = before_space l ++ r.
Proof. induction l as [|c l [r E]]; [exists []; reflexivity|]. cbn. destruct (c =? 32); [exists (c :: l); reflexivity|exists r; cbn; f_equal; exact E]. Qed.
End Table.

Lemma tokens_nonempty l : drop_spaces l <> [] -> tokens l <> [].
Proof.
  intros H. unfold tokens. cbn [tokens_loop]. destruct (drop_spaces l) as [|c r]; [contradiction|].
  destruct (c =? quote); [destruct (quoted r) as [t [k|]]|destruct (word (c :: r))]; discriminate.
Qed.

Lemma drop_spaces_idem l : drop_spaces (drop_spaces l) = drop_spaces l.
Proof.
  destruct (drop_spaces_split l) as (n & _ & _ & _ & H). destruct (drop_spaces l) as [|c r]; [reflexivity|]. cbn. rewrite H. reflexivity.
Qed.

Section Exec.
Context (table : list finsh_syscall) (call : Z -> list Z -> SH Z) (names : finsh_syscall -> list Z).
Definition find_cmd (w : list Z) : option finsh_syscall := List.find (fun f => bool_decide (names f = w)) table.

(** A line without blanks in front. *)
Lemma exec_cmd_eq s cmd l : cstr (sh_mem s) cmd l -> Forall (fun f => cstr (sh_mem s) (sc_name f) (names f)) table ->
  l <> [] -> drop_spaces l = l ->
  match find_cmd (word l).1 with
  | Some f => exists argv m o, Forall2 (cstr m) argv (take 10 (tokens l)) /\
      (forall x, x < cmd \/ cmd + Z.of_nat (length l) <= x -> m !! x = sh_mem s !! x) /\ (forall x, is_Some (sh_mem s !! x) -> is_Some (m !! x)) /\
      _msh_exec_cmd table call cmd (Z.of_nat (length l)) s = (ret ← call (sc_func f) argv; mret (Some ret)) (moved_to m o s)
  | None => _msh_exec_cmd table call cmd (Z.of_nat (length l)) s = Some (None, s)
  end.
Proof.
  intros Hc Ht Hne Hd. pose proof Hc as [H C]. assert ((word l).1 <> []) as Hw.
  { destruct l as [|c r]; [contradiction|]. apply word_nonempty. destruct (drop_spaces_split (c :: r)) as (n & _ & _ & _ & Hh). rewrite Hd in Hh. exact Hh. }
  destruct (word_split l) as [E _]. unfold find_cmd.
  assert ((Z.of_nat (length (word l).1) =? 0) = false) as Hz by (apply Z.eqb_neq; destruct (word l).1; [contradiction|cbn; lia]).
  assert (forall (k : SH (option Z)), _msh_exec_cmd table call cmd (Z.of_nat (length l)) s =
    match List.find (fun f => bool_decide (names f = (word l).1)) table with
    | Some f => (argv ← msh_split cmd (Z.of_nat (length l));
        if bool_decide (argv = []) then mret None else ret ← call (sc_func f) argv; mret (Some ret)) s
    | None => Some (None, s) end) as Eq.
  { intros _. unfold _msh_exec_cmd. erewrite bind_eq.
    2: { apply mem_read. apply (cmd0_eq _ l); [rewrite Z.add_0_r; exact H|lia|lia|lia]. }
    rewrite Z.add_0_l, Hz. unfold msh_get_cmd. erewrite bind_eq.
    2: { apply mem_read. rewrite E in Hc at 1. eapply get_cmd_eq; [exact Hc|exact Ht]. }
    destruct (List.find _ table); reflexivity. }
  rewrite (Eq (mret None)). destruct (List.find _ table) as [f|]; [|reflexivity].
  destruct (split_loop_eq (S (length l)) l s cmd 0 (Z.of_nat (length l)) [] []) as (argv & m & o & Es & H1 & H2 & H3);
    [exact H|exact C|lia|lia|lia|cbn; lia|intros m' _ _; constructor|]. exists argv, m, o. split; [exact H1|]. split; [exact H2|]. split; [exact H3|].
  erewrite bind_eq by (unfold msh_split; rewrite Nat2Z.id; exact Es). rewrite bool_decide_eq_false_2; [reflexivity|]. intros ->.
  apply Forall2_length in H1. assert (tokens l <> []) as Ht' by (apply tokens_nonempty; rewrite Hd; exact Hne).
  change ([] ++ tokens_loop (S (length l)) l) with (tokens l) in H1. destruct (tokens l); [contradiction|discriminate].
Qed.

Lemma msh_exec_eq s cmd l : cstr (sh_mem s) cmd l -> Forall (fun f => cstr (sh_mem s) (sc_name f) (names f)) table ->
  let l' := drop_spaces l in
  let inside m := (forall x, x < cmd \/ cmd + Z.of_nat (length l) < x -> m !! x = sh_mem s !! x) /\
    (forall x, is_Some (sh_mem s !! x) -> is_Some (m !! x)) in
  if decide (l' = []) then msh_exec table call cmd (Z.of_nat (length l)) s = Some (0, s) else
  match find_cmd (word l').1 with
  | Some f => exists argv m o, Forall2 (cstr m) argv (take 10 (tokens l')) /\ inside m /\
      msh_exec table call cmd (Z.of_nat (length l)) s = call (sc_func f) argv (moved_to m o s)
  | None => exists m, inside m /\ msh_exec table call cmd (Z.of_nat (length l)) s = Some (-1, moved_to m (console_text (before_space l' ++ not_found)) s)
  end.
Proof.
  intros Hc Ht l' inside. destruct (drop_spaces_split l) as (n & E & Hn & Hnl & Hh). fold l' in E, Hh.
  assert (length l' <= length l)%nat as Hle by apply drop_spaces_len.
  assert (length l - length l' = n)%nat as En by (rewrite E at 1; rewrite length_app, length_take; lia).
  assert (cstr (sh_mem s) (cmd + Z.of_nat n) l') as Hc'.
  { destruct Hc as [H C]. rewrite E, chars_ok_app in C. split; [|apply C]. rewrite E, <- app_assoc in H. apply holds_app in H as [_ H].
    rewrite length_take, Nat.min_l in H by lia. exact H. }
  assert (forall (k : Z * Z -> SH Z), (x ← mem (trim_loop (S (Z.to_nat (Z.of_nat (length l)))) cmd (Z.of_nat (length l))); k x) s =
    k (cmd + Z.of_nat n, Z.of_nat (length l')) s) as Etrim.
  { intros k. erewrite bind_eq; [reflexivity|]. apply mem_read. rewrite <- En. apply trim_eq; [apply Hc|lia]. }
  unfold msh_exec. rewrite Etrim. cbv beta iota. destruct (decide (l' = [])) as [E0|E0].
  { rewrite E0. reflexivity. }
  rewrite (proj2 (Z.eqb_neq _ _)) by (destruct l'; [contradiction|cbn; lia]).
  pose proof (exec_cmd_eq s (cmd + Z.of_nat n) l' Hc' Ht E0 (drop_spaces_idem l)) as X. destruct (find_cmd (word l').1) as [f|].
  - destruct X as (argv & m & o & H1 & H2 & H3 & X). exists argv, m, o. split; [exact H1|]. split; [split; [intros x Hx; apply H2; lia|exact H3]|].
    unfold mbind at 1, st_bind at 1. rewrite X. unfold mbind, st_bind. destruct (call (sc_func f) argv (moved_to m o s)) as [[? ?]|]; reflexivity.
  - erewrite bind_eq by exact X. cbv beta iota. destruct (before_space_prefix l') as [r Er].
    exists (<[cmd + Z.of_nat n + Z.of_nat (length (before_space l')) := 0]> (sh_mem s)). split.
    { split; [intros x Hx; apply lookup_insert_ne; apply (f_equal length) in Er; rewrite length_app in Er; lia|].
      intros x Hx. apply lookup_insert_is_Some'. auto. }
    erewrite bind_eq.
    2: { apply mem_eq. erewrite bind_eq by reflexivity. apply (truncate_eq l'); [exact Hc'|apply (cstr_fuel _ _ _ Hc')]. }
    rewrite moved_mem. erewrite bind_eq.
    2: { apply text_eq. cbn [sh_mem]. destruct Hc' as [H C]. rewrite Er in H at 1. rewrite Er, chars_ok_app in C. rewrite <- app_assoc in H.
         apply (token_cstr (sh_mem s) _ _ _ _ H (proj1 C)); [apply lookup_insert_eq|]. intros x Hx. apply lookup_insert_ne. lia. }
    erewrite bind_eq by apply puts_eq. rewrite moved_trans. reflexivity.
Qed.

(** C35: [msh_exec] gives the line to the first command whose name is its first word, with
    the first 10 arguments as strings; for a line without such a command it prints the
    word and returns -1, and it does nothing for a blank one. *)
Theorem msh_exec_runs s cmd l : cstr (sh_mem s) cmd l -> Forall (fun f => cstr (sh_mem s) (sc_name f) (names f)) table ->
  let l' := drop_spaces l in
  let inside m := (forall x, x < cmd \/ cmd + Z.of_nat (length l) < x -> m !! x = sh_mem s !! x) /\
    (forall x, is_Some (sh_mem s !! x) -> is_Some (m !! x)) in
  if decide (l' = []) then msh_exec table call cmd (Z.of_nat (length l)) s = Some (0, s) else
  match find_cmd (word l').1 with
  | Some f => exists argv m o, Forall2 (cstr m) argv (take 10 (tokens l')) /\ inside m /\
      msh_exec table call cmd (Z.of_nat (length l)) s = call (sc_func f) argv (moved_to m o s)
  | None => exists m, inside m /\ msh_exec table call cmd (Z.of_nat (length l)) s = Some (-1, moved_to m (console_text (before_space l' ++ not_found)) s)
  end.
Proof. apply msh_exec_eq. Qed.
End Exec.

(** ** Completing *)

Fixpoint lcp (l1 l2 : list Z) : nat :=
  match l1, l2 with x :: l1, y :: l2 => if x =? y then S (lcp l1 l2) else O | _, _ => O end.

Lemma lcp_take l1 : forall l2 n, (n <= length l1)%nat -> (n <= lcp l1 l2)%nat <-> take n l1 = take n l2 /\ (n <= length l2)%nat.
Proof.
  induction l1 as [|x l1 IH]; intros [|y l2] [|n] Hn; cbn [lcp length take] in *; try (exfalso; lia);
    try (split; [intros; split; [reflexivity|lia]|lia]).
  - split; [lia|intros [[=] _]].
  - destruct (Z.eqb_spec x y) as [->|Hne].
    + specialize (IH l2 n ltac:(lia)). split.
      * intros H%Nat.succ_le_mono. apply IH in H as [-> H]. split; [reflexivity|lia].
      * intros [E H]. apply (f_equal tail) in E. apply le_n_S, IH. split; [exact E|lia].
    + split; [lia|intros [[=] _]; congruence].
Qed.

Lemma lcp_le l1 : forall l2, (lcp l1 l2 <= length l1)%nat.
Proof. induction l1 as [|x l1 IH]; intros [|y l2]; cbn; try lia. destruct (x =? y); [specialize (IH l2)|]; lia. Qed.

Lemma str_common_loop_eq l1 : forall l2 fuel a str1 b m, cstr m a l1 -> cstr m b l2 -> (length l1 < fuel)%nat ->
  str_common_loop fuel a str1 b m = Some (a - str1 + Z.of_nat (lcp l1 l2), m).
Proof.
  induction l1 as [|x l1 IH]; intros l2 [|fuel] a str1 b m H1 H2 Hf; cbn [length] in Hf; try lia; cbn [str_common_loop lcp].
  - apply cstr_nil in H1. erewrite bind_eq by (apply ld_eq, H1).
    assert (exists y, m !! b = Some y) as [y Hy] by (destruct l2; [apply cstr_nil in H2|apply cstr_cons in H2 as (H2 & _)]; eauto).
    erewrite bind_eq by (apply ld_eq, Hy). apply ret_eq. lia.
  - apply cstr_cons in H1 as (H1 & Hx & H1'). erewrite bind_eq by (apply ld_eq, H1). rewrite (proj2 (Z.eqb_neq x 0)) by lia. destruct l2 as [|y l2].
    + apply cstr_nil in H2. erewrite bind_eq by (apply ld_eq, H2). apply ret_eq. lia.
    + apply cstr_cons in H2 as (H2 & Hy & H2'). erewrite bind_eq by (apply ld_eq, H2). rewrite (proj2 (Z.eqb_neq y 0)) by lia. cbn [negb andb].
      destruct (x =? y); [|apply ret_eq; lia]. rewrite (IH l2) by (assumption || lia). apply ret_eq. lia.
Qed.

Lemma str_common_eq m a b l1 l2 : cstr m a l1 -> cstr m b l2 -> str_common a b m = Some (Z.of_nat (lcp l1 l2), m).
Proof.
  intros H1 H2. unfold str_common. erewrite bind_eq by reflexivity. rewrite (str_common_loop_eq l1 l2) by (assumption || apply (cstr_fuel _ _ _ H1)).
  apply ret_eq. lia.
Qed.

(** The names that go on from [p]. *)
Definition goes_on (p nm : list Z) : Prop := take (length p) nm = p.
#[export] Instance goes_on_dec p nm : Decision (goes_on p nm).
Proof. unfold goes_on. apply _. Defined.
Definition matching (p : list Z) (nms : list (list Z)) : list (list Z) := filter (goes_on p) nms.
(** The length of what the first of the names has in common with all the others. *)
Definition common_len (nm : list Z) (nms : list (list Z)) : nat := foldl (fun n x => Nat.min n (lcp nm x)) (length nm) nms.

Lemma foldl_min_le nm nms : forall n, (foldl (fun n x => Nat.min n (lcp nm x)) n nms <= n)%nat.
Proof. induction nms as [|x nms IH]; intros n; cbn; [lia|]. etransitivity; [apply IH|lia]. Qed.

Lemma common_len_spec nm nms k : (k <= length nm)%nat ->
  (k <= common_len nm nms)%nat <-> Forall (fun x => take k nm = take k x /\ (k <= length x)%nat) nms.
Proof.
  intros Hk. unfold common_len. assert (forall n, (k <= foldl (fun n x => Nat.min n (lcp nm x)) n nms)%nat <->
    (k <= n)%nat /\ Forall (fun x => take k nm = take k x /\ (k <= length x)%nat) nms) as H; [|rewrite H; tauto].
  induction nms as [|x nms IH]; intros n; cbn [foldl]; [split; [intros; split; [assumption|constructor]|tauto]|].
  rewrite IH, Forall_cons, <- lcp_take by exact Hk. rewrite Nat.min_glb_iff. tauto.
Qed.

(** The run of the loop behind the first match [nm] at [a], with [n] in common so far. *)
Lemma common_loop_on s prefix p a nm : cstr (sh_mem s) prefix p -> cstr (sh_mem s) a nm -> goes_on p nm -> p <> [] ->
  forall names nms s' n, sh_mem s' = sh_mem s -> Forall2 (cstr (sh_mem s)) names nms -> (length p <= n <= length nm)%nat ->
  exists o, common_loop names prefix (Z.of_nat (length p)) (Some a) (Z.of_nat n) s' =
    Some ((Some a, Z.of_nat (foldl (fun n x => Nat.min n (lcp nm x)) n (matching p nms))), moved_to (sh_mem s) o s').
Proof.
  intros Hp Ha Hg Hne. induction names as [|b names IH]; intros nms s' n Em H Hn; inversion H as [|? x ? nms' Hb Hr]; subst; clear H.
  { exists []. cbn. rewrite <- Em, <- moved_same. reflexivity. }
  cbn [common_loop]. rewrite Nat2Z.id. destruct (strncmp_eq (length p) p x prefix b _ Hp Hb) as (c & Ec & Hc).
  erewrite bind_eq by (apply mem_read; rewrite Em; exact Ec). rewrite take_ge in Hc by lia. unfold matching. cbn [filter list_filter].
  destruct (decide (goes_on p x)) as [Hx|Hx].
  - rewrite (proj2 (Z.eqb_eq c 0)) by (apply Hc; symmetry; exact Hx).
    rewrite (proj2 (Z.eqb_neq (Z.of_nat n) 0)) by (destruct p; [contradiction|cbn in Hn; lia]). erewrite bind_eq by reflexivity. cbv beta iota.
    erewrite bind_eq by (apply mem_read; rewrite Em; apply (str_common_eq _ _ _ nm x); assumption). cbv zeta.
    erewrite bind_eq by (apply text_eq; rewrite Em; exact Hb). erewrite bind_eq by apply puts_eq.
    assert (length p <= lcp nm x)%nat as Hl.
    { apply lcp_take; [lia|]. unfold goes_on in *. split; [congruence|]. rewrite <- Hx, length_take. lia. }
    replace (if Z.of_nat (lcp nm x) <? Z.of_nat n then Z.of_nat (lcp nm x) else Z.of_nat n) with (Z.of_nat (Nat.min n (lcp nm x)))
      by (destruct (Z.ltb_spec (Z.of_nat (lcp nm x)) (Z.of_nat n)); lia). cbn [sh_mem].
    destruct (IH nms' (moved_to (sh_mem s') (console_text (x ++ newline)) s') (Nat.min n (lcp nm x)) Em Hr ltac:(lia)) as [o Eo].
    exists ((console_text (x ++ newline)) ++ o). rewrite Eo. cbn [foldl]. rewrite moved_trans. reflexivity.
  - rewrite (proj2 (Z.eqb_neq c 0)) by (intros E; apply Hx; unfold goes_on; symmetry; apply Hc, E). apply IH; assumption.
Qed.

Lemma lcp_same l : lcp l l = length l.
Proof. induction l as [|x l IH]; [reflexivity|]. cbn. rewrite Z.eqb_refl, IH. reflexivity. Qed.

Lemma common_loop_start s prefix p : cstr (sh_mem s) prefix p -> p <> [] -> forall names nms, Forall2 (cstr (sh_mem s)) names nms ->
  match matching p nms with
  | [] => common_loop names prefix (Z.of_nat (length p)) None 0 s = Some ((None, 0), s)
  | nm :: rest => exists a o, (exists i, names !! i = Some a /\ nms !! i = Some nm) /\ cstr (sh_mem s) a nm /\
      common_loop names prefix (Z.of_nat (length p)) None 0 s = Some ((Some a, Z.of_nat (common_len nm rest)), moved_to (sh_mem s) o s)
  end.
Proof.
  intros Hp Hne. induction names as [|b names IH]; intros nms H; inversion H as [|? x ? nms' Hb Hr]; subst; clear H; [reflexivity|].
  cbn [common_loop]. rewrite Nat2Z.id. destruct (strncmp_eq (length p) p x prefix b _ Hp Hb) as (c & Ec & Hc). rewrite take_ge in Hc by lia.
  unfold matching. cbn [filter list_filter]. destruct (decide (goes_on p x)) as [Hx|Hx].
  - assert (length p <= length x)%nat as Hl by (unfold goes_on in Hx; rewrite <- Hx, length_take; lia).
    destruct (common_loop_on s prefix p b x Hp Hb Hx Hne names nms' (moved_to (sh_mem s) (console_text (x ++ newline)) s) (length x) eq_refl Hr ltac:(lia)) as [o Eo].
    exists b, ((console_text (x ++ newline)) ++ o). split; [exists O; auto|]. split; [exact Hb|]. erewrite bind_eq by (apply mem_read; exact Ec).
    rewrite (proj2 (Z.eqb_eq c 0)) by (apply Hc; symmetry; exact Hx). cbn [Z.eqb]. rewrite bind_assoc.
    erewrite bind_eq by (apply mem_read, strlen_eq, Hb). erewrite bind_eq by reflexivity. cbv beta iota.
    erewrite bind_eq by (apply mem_read, (str_common_eq _ _ _ x x); exact Hb). cbv zeta. rewrite lcp_same, Z.ltb_irrefl.
    erewrite bind_eq by (apply text_eq; exact Hb). erewrite bind_eq by apply puts_eq. cbn [sh_mem].
    rewrite Eo, moved_trans. reflexivity.
  - assert (c <> 0) as Hz by (intros E; apply Hx; unfold goes_on; symmetry; apply Hc, E). specialize (IH nms' Hr).
    unfold matching in IH. destruct (filter (goes_on p) nms') as [|nm rest].
    + erewrite bind_eq by (apply mem_read; exact Ec). rewrite (proj2 (Z.eqb_neq c 0)) by exact Hz. exact IH.
    + destruct IH as (a & o & (i & Hi) & Ha & IH). exists a, o. split; [exists (S i); exact Hi|]. split; [exact Ha|].
      erewrite bind_eq by (apply mem_read; exact Ec). rewrite (proj2 (Z.eqb_neq c 0)) by exact Hz. exact IH.
Qed.

(** The longest text that all of the names start with. *)
Definition completion (nms : list (list Z)) : list Z := match nms with [] => [] | nm :: rest => take (common_len nm rest) nm end.

Lemma completion_spec nms : nms <> [] ->
  Forall (fun x => take (length (completion nms)) x = completion nms) nms /\
  forall l, Forall (fun x => take (length l) x = l) nms -> (length l <= length (completion nms))%nat.
Proof.
  destruct nms as [|nm rest]; [contradiction|]. intros _. cbn [completion].
  assert (common_len nm rest <= length nm)%nat as Hl by apply foldl_min_le. rewrite length_take, Nat.min_l by exact Hl. split.
  - apply Forall_cons. split; [reflexivity|]. pose proof (proj1 (common_len_spec nm rest _ Hl) (le_n _)) as H.
    eapply Forall_impl; [exact H|]. cbn. intros x [E _]. symmetry. exact E.
  - intros l [H1 H]%Forall_cons. assert (length l <= length nm)%nat as Hln by (rewrite <- H1, length_take; lia).
    apply common_len_spec; [exact Hln|]. eapply Forall_impl; [exact H|]. cbn. intros x Ex. split; [congruence|]. rewrite <- Ex, length_take. lia.
Qed.

(** All that goes on from [p] has [p] in common. *)
Lemma matching_common p nms : matching p nms <> [] -> goes_on p (completion (matching p nms)).
Proof.
  intros H. pose proof (completion_spec _ H) as [S1 S2]. assert (Forall (fun x => take (length p) x = p) (matching p nms)) as Hp.
  { apply list.Forall_forall. intros x [Hx _]%list_elem_of_filter. exact Hx. }
  specialize (S2 p Hp). destruct (matching p nms) as [|nm rest]; [contradiction|]. apply Forall_cons in S1 as [S1 _]. apply Forall_cons in Hp as [Hp _].
  unfold goes_on. rewrite <- S1, take_take, Nat.min_l by exact S2. exact Hp.
Qed.

Lemma mapped_le m a n k : mapped m a n -> (k <= n)%nat -> mapped m a k.
Proof. intros H Hk i Hi. apply H. lia. Qed.

(** A longer text over a string with zeros behind it. *)
Lemma write_cstr m a new p k : holds m a (p ++ replicate (S k) 0) -> (length p <= length new)%nat -> chars_ok new -> (length new <= length p + k)%nat ->
  cstr (write_list a new m) a new.
Proof.
  intros H Hp C Hl. split; [|exact C]. apply holds_app. split; [apply write_holds|]. apply holds_cons. split; [|apply holds_nil].
  rewrite write_outside by lia. apply H. rewrite lookup_app_r by exact Hp. apply lookup_replicate_2. lia.
Qed.

(** [msh_auto_complete] replaces a word that some names start with by the longest
    text that all of these names start with, and changes nothing for another word. *)
Theorem msh_completes table names s prefix p k : p <> [] -> holds (sh_mem s) prefix (p ++ replicate (S k) 0) -> chars_ok p ->
  Forall (fun f => cstr (sh_mem s) (sc_name f) (names f) /\ string_apart prefix (Z.of_nat (length p + S k)) (sc_name f) (names f)) table ->
  let found := matching p (names <$> table) in
  let new := completion found in
  if decide (found = []) then msh_auto_complete table prefix s = Some (tt, s) else
  (length new <= length p + k)%nat ->
  exists o, msh_auto_complete table prefix s = Some (tt, moved_to (write_list prefix new (sh_mem s)) o s) /\
    cstr (write_list prefix new (sh_mem s)) prefix new /\ goes_on p new /\
    Forall (fun x => goes_on new x) found /\ (forall l, Forall (goes_on l) found -> (length l <= length new)%nat).
Proof.
  intros Hne Hh C Hf found new. assert (cstr (sh_mem s) prefix p) as Hp.
  { split; [|exact C]. cbn [replicate] in Hh. replace (p ++ 0 :: replicate k 0) with ((p ++ [0]) ++ replicate k 0) in Hh by (rewrite <- app_assoc; reflexivity).
    apply holds_app in Hh as [Hh _]. exact Hh. }
  assert (Forall2 (cstr (sh_mem s)) (sc_name <$> table) (names <$> table)) as Hn.
  { clear -Hf. induction Hf as [|f table [H _] _ IH]; [constructor|]. cbn. constructor; assumption. }
  pose proof (common_loop_start s prefix p Hp Hne _ _ Hn) as H. fold found in H.
  assert (sh_mem s !! prefix = Some (hd 0 p) /\ hd 0 p <> 0) as [H0 Hz].
  { destruct p as [|c p]; [contradiction|]. apply cstr_cons in Hp as (E & Hc & _). split; [exact E|cbn; lia]. }
  assert (forall K : Z -> SH unit, (c ← mem (ld prefix); if c =? 0 then msh_help table;; mret tt else len ← mem (rt_strlen prefix); K len) s =
    K (Z.of_nat (length p)) s) as Hgo.
  { intros K. erewrite bind_eq by (apply mem_read, ld_eq, H0). rewrite (proj2 (Z.eqb_neq _ _) Hz).
    erewrite bind_eq by (apply mem_read, strlen_eq, Hp). reflexivity. }
  unfold msh_auto_complete. rewrite Hgo. subst new. destruct (decide (found = [])) as [E|E].
  { rewrite E in H. erewrite bind_eq by exact H. reflexivity. }
  intros Hl. pose proof (completion_spec found E) as [S1 S2]. pose proof (matching_common p (names <$> table)) as Sp. fold found in Sp.
  destruct found as [|nm rest]; [contradiction|]. destruct H as (a & o & (i & I1 & I2) & Ha & H).
  assert (string_apart prefix (Z.of_nat (length p + S k)) a nm) as Hap.
  { apply list_lookup_fmap_Some in I1 as (f & -> & I1). apply list_lookup_fmap_Some in I2 as (f' & -> & I2).
    rewrite I1 in I2. injection I2 as <-. apply (Forall_lookup_1 _ _ _ _ Hf I1). }
  unfold string_apart in Hap. set (new := completion (nm :: rest)) in *. assert (common_len nm rest <= length nm)%nat as Hln by apply foldl_min_le.
  assert (length new = common_len nm rest) as El by (apply length_take_le; exact Hln).
  exists o. split; [|split; [|split; [exact (Sp E)|split; [exact S1|exact S2]]]].
  - erewrite bind_eq by exact H. cbv beta iota. unfold rt_strncpy. rewrite Nat2Z.id. erewrite bind_eq.
    2: { apply mem_eq. erewrite bind_eq by (apply (strncpy_loop_eq _ nm); [exact Ha| |lia]; apply holds_mapped in Hh;
           apply (mapped_le _ _ _ _ Hh); rewrite length_app, length_replicate; lia). reflexivity. }
    rewrite (proj2 (Nat.sub_0_le _ _)), app_nil_r by exact Hln. reflexivity.
  - apply (write_cstr _ _ _ p k); [exact Hh| | |exact Hl].
    { pose proof (Sp E) as Hg. unfold goes_on in Hg. apply (f_equal length) in Hg. rewrite length_take in Hg. fold new in Hg. lia. } destruct Ha as [_ Ha]. apply Forall_take, Ha.
Qed.

(** ** Witnesses *)

(** A memory with the line [led "a b" c] at 8, [l] at 24 and the commands led, lest, ox. *)
Definition demo_line : list Z := [108; 101; 100; 32; 34; 97; 32; 98; 34; 32; 99].
Definition demo_mem : bytes :=
  write_list 8 (demo_line ++ [0]) (write_list 24 (108 :: replicate 7 0) (write_list 40 [108; 101; 100; 0; 108; 101; 115; 116; 0; 111; 120; 0]
    (gset_to_gmap 0 (list_to_set (seqZ 0 64))))).
Definition demo_state : finsh_shell := mkShell demo_mem [] WAIT_NORMAL 1 1 None 0 0 0 0.
Definition demo_table : list finsh_syscall := [mkSyscall 40 43 [] 1; mkSyscall 44 48 [] 2; mkSyscall 49 51 [] 3].
Definition demo_names (f : finsh_syscall) : list Z :=
  if sc_func f =? 1 then [108; 101; 100] else if sc_func f =? 2 then [108; 101; 115; 116] else [111; 120].

#[local] Instance holds_dec m a l : Decision (holds m a l).
Proof.
  refine (cast_if (decide (Forall (fun i => m !! (a + Z.of_nat i) = l !! i) (seq 0 (length l))))); rewrite Forall_forall in *.
  - intros i x E. rewrite <- E. apply f. apply elem_of_seq. pose proof (lookup_lt_Some _ _ _ E). lia.
  - intros H. apply n. intros i Hi. apply elem_of_seq in Hi. destruct (lookup_lt_is_Some_2 l i) as [x E]; [lia|]. rewrite E. apply H, E.
Defined.
#[local] Instance cstr_dec m a l : Decision (cstr m a l).
Proof. unfold cstr, chars_ok. apply _. Defined.

Lemma msh_split_tokens_witness : cstr demo_mem 8 demo_line /\
  exists argv m o, msh_split 8 11 demo_state = Some (argv, moved_to m o demo_state) /\ Forall2 (cstr m) argv [[108; 101; 100]; [97; 32; 98]; [99]].
Proof.
  assert (cstr demo_mem 8 demo_line) as H by (apply (bool_decide_eq_true_1 _); vm_compute; reflexivity). split; [exact H|].
  destruct (msh_split_tokens demo_state 8 demo_line H) as (argv & m & o & E & F & _). exists argv, m, o. split; [exact E|exact F].
Defined.

Lemma msh_exec_runs_witness : exists argv m o, Forall2 (cstr m) argv [[108; 101; 100]; [97; 32; 98]; [99]] /\
  msh_exec demo_table (fun f argv => mret (f + Z.of_nat (length argv))) 8 11 demo_state = Some (1 + Z.of_nat (length argv), moved_to m o demo_state).
Proof.
  assert (cstr (sh_mem demo_state) 8 demo_line) as H by (apply (bool_decide_eq_true_1 _); vm_compute; reflexivity).
  assert (Forall (fun f => cstr (sh_mem demo_state) (sc_name f) (demo_names f)) demo_table) as Ht by (apply (bool_decide_eq_true_1 _); vm_compute; reflexivity).
  pose proof (msh_exec_runs demo_table (fun f argv => mret (f + Z.of_nat (length argv))) demo_names demo_state 8 demo_line H Ht) as X. cbv zeta in X.
  rewrite decide_False in X by discriminate. change (find_cmd _ _ _) with (Some (mkSyscall 40 43 [] 1)) in X. destruct X as (argv & m & o & F & _ & E).
  exists argv, m, o. split; [exact F|exact E].
Defined.

(** Completing [l] stops behind [le], which led and lest have in common. *)
Lemma msh_completes_witness : exists m o, msh_auto_complete demo_table 24 demo_state = Some (tt, moved_to m o demo_state) /\ cstr m 24 [108; 101].
Proof.
  assert (Forall (fun f => cstr (sh_mem demo_state) (sc_name f) (demo_names f) /\ string_apart 24 8 (sc_name f) (demo_names f)) demo_table) as Ht.
  { unfold string_apart. repeat constructor; try (apply (bool_decide_eq_true_1 (cstr _ _ _)); vm_compute; reflexivity); cbn; lia. }
  assert (holds (sh_mem demo_state) 24 ([108] ++ replicate 7 0)) as Hp by (apply (bool_decide_eq_true_1 _); vm_compute; reflexivity).
  pose proof (msh_completes demo_table demo_names demo_state 24 [108] 6 ltac:(discriminate) Hp ltac:(repeat constructor; lia) Ht) as X. cbv zeta in X.
  rewrite decide_False in X by (vm_compute; discriminate). destruct X as (o & E & C & _); [vm_compute; lia|].
  change (completion (matching _ _)) with [108; 101] in E, C. eexists _, o. split; [exact E|exact C].
Defined.
