(* ===== verification/ShellProps.v ===== *)
(** * Properties of the line editor

    The shell edits a line of text with a cursor and shows it: keys refine operations
    on lists, and the last row of the terminal is the line. *)

From stdpp Require Import gmap.
From S2P Require Import Prelude Bytes KString KStringProps KStdio Msh MshProps Shell.
Open Scope rt_scope.

(** ** The terminal *)

(** The last row, the cursor in it, and how much of an escape sequence was seen. *)
Record screen := mkScreen { scr_cells : list Z; scr_col : nat; scr_esc : nat }.

Definition show_char (t : screen) (c : Z) : screen :=
  let '(mkScreen cells col esc) := t in
  match esc with
  | O =>
      if c =? 8 then mkScreen cells (col - 1) 0
      else if c =? 13 then mkScreen cells 0 0
      else if c =? 10 then mkScreen [] 0 0
      else if c =? 27 then mkScreen cells col 1
      else mkScreen (take col cells ++ c :: drop (S col) cells) (S col) 0
  | 1%nat => mkScreen cells col (if c =? 91 then 2 else 0)
  | _ => if (48 <=? c) && (c <=? 57) then t else if c =? 75 then mkScreen [] col 0 else mkScreen cells col 0
  end.
Definition show (o : list Z) (t : screen) : screen := foldl show_char t o.

Lemma show_app o o' t : show (o ++ o') t = show o' (show o t).
Proof. apply foldl_app. Qed.

Definition printable (l : list Z) : Prop := Forall (fun c => 32 <= c <= 126) l.

Lemma printable_chars l : printable l -> chars_ok l.
Proof. intros H. eapply Forall_impl; [exact H|]. cbn. lia. Qed.

(** Text is written over what stands behind the cursor. *)
Lemma show_text l : forall p r, printable l ->
  show l (mkScreen (p ++ r) (length p) 0) = mkScreen (p ++ l ++ drop (length l) r) (length p + length l) 0.
Proof.
  induction l as [|c l IH]; intros p r H; [cbn; rewrite Nat.add_0_r; reflexivity|]. apply Forall_cons in H as [Hc H].
  change (show (c :: l) (mkScreen (p ++ r) (length p) 0)) with (show l (show_char (mkScreen (p ++ r) (length p) 0) c)). cbn [show_char].
  rewrite !(proj2 (Z.eqb_neq c _)) by lia. rewrite take_app_length.
  replace (drop (S (length p)) (p ++ r)) with (drop 1 r) by (rewrite drop_app_ge by lia; f_equal; lia).
  replace (p ++ c :: drop 1 r) with ((p ++ [c]) ++ drop 1 r) by (rewrite <- app_assoc; reflexivity).
  replace (S (length p)) with (length (p ++ [c])) by (rewrite length_app; cbn; lia).
  rewrite IH by exact H. rewrite drop_drop, length_app, <- app_assoc. cbn [length app]. f_equal. lia.
Qed.

Lemma show_backspaces n : forall cells col, show (replicate n 8) (mkScreen cells col 0) = mkScreen cells (col - n) 0.
Proof.
  induction n as [|n IH]; intros cells col; [cbn; rewrite Nat.sub_0_r; reflexivity|].
  change (show (replicate (S n) 8) (mkScreen cells col 0)) with (show (replicate n 8) (mkScreen cells (col - 1) 0)). rewrite IH. f_equal. lia.
Qed.

Lemma show_clear cells col : show [27; 91; 50; 75; 13] (mkScreen cells col 0) = mkScreen [] 0 0.
Proof. reflexivity. Qed.

(** ** The editor *)

Record editor := mkEditor { ed_before : list Z; ed_after : list Z; ed_hist : list (list Z); ed_cur : nat }.
Definition ed_text (e : editor) : list Z := ed_before e ++ ed_after e.

Inductive key := Char (c : Z) | Backspace | Left | Right | Up | Down.
Definition key_chars (k : key) : list Z :=
  match k with
  | Char c => [c] | Backspace => [127] | Left => [27; 91; 68] | Right => [27; 91; 67] | Up => [27; 91; 65] | Down => [27; 91; 66]
  end.

(** The line of the history at [i]. *)
Definition ed_recall (i : nat) (e : editor) : editor :=
  match ed_hist e !! i with Some h => mkEditor h [] (ed_hist e) i | None => e end.

Definition ed_key (e : editor) (k : key) : editor :=
  let '(mkEditor b a h cur) := e in
  match k with
  | Char c => mkEditor (b ++ [c]) a h cur
  | Backspace => mkEditor (removelast b) a h cur
  | Left => match last b with Some c => mkEditor (removelast b) (c :: a) h cur | None => e end
  | Right => match a with c :: a => mkEditor (b ++ [c]) a h cur | [] => e end
  | Up => match cur with S i => ed_recall i e | O => e end
  | Down => if decide (S cur < length h)%nat then ed_recall (S cur) e else ed_recall (length h - 1) e
  end.

(** A printable character that the line has room for. *)
Definition key_ok (e : editor) (k : key) : Prop :=
  match k with Char c => 32 <= c <= 126 /\ (length (ed_text e) < 79)%nat | _ => True end.

Section Shell.
Context (shell_at : Z) (table : list finsh_syscall) (call : Z -> list Z -> SH Z).
Abbreviation line := (Shell.line shell_at).
Abbreviation cmd_history := (Shell.cmd_history shell_at).

(** The arrays of the shell: a string with zeros behind it. *)
Definition padded (n : nat) (l : list Z) : list Z := l ++ replicate (n - length l) 0.

Record ed_rep (e : editor) (s : finsh_shell) : Prop := {
  er_line : holds (sh_mem s) line (padded 81 (ed_text e));
  er_len : (length (ed_text e) <= 79)%nat;
  er_text : printable (ed_text e);
  er_position : sh_position s = Z.of_nat (length (ed_text e));
  er_curpos : sh_curpos s = Z.of_nat (length (ed_before e));
  er_rows : mapped (sh_mem s) (cmd_history 0) 400;
  er_hist : forall i h, ed_hist e !! i = Some h -> holds (sh_mem s) (cmd_history (Z.of_nat i)) (padded 80 h) /\
    (0 < length h <= 79)%nat /\ printable h;
  er_count : sh_count s = Z.of_nat (length (ed_hist e)) /\ (length (ed_hist e) <= 5)%nat;
  er_current : sh_current s = Z.of_nat (ed_cur e) /\ (ed_cur e <= length (ed_hist e))%nat;
  er_stat : sh_stat s = WAIT_NORMAL;
  er_echo : sh_echo s <> 0;
  er_prompt : printable (finsh_get_prompt s);
  er_room : (length (finsh_get_prompt s) <= 47)%nat;   (* the console buffer has room for the prompt and the line *)
}.

(** The last row: something (the prompt), the line, and blanks. *)
Definition shows (e : editor) (s : finsh_shell) : Prop :=
  exists pre n, show (sh_out s) (mkScreen [] 0 0) = mkScreen (pre ++ ed_text e ++ replicate n 32) (length pre + length (ed_before e)) 0.

(** Only the line changes. *)
Definition line_step (s s' : finsh_shell) : Prop := forall x, x < line \/ line + 81 <= x -> sh_mem s' !! x = sh_mem s !! x.

Lemma padded_length n l : (length l <= n)%nat -> length (padded n l) = n.
Proof. intros H. unfold padded. rewrite length_app, length_replicate. lia. Qed.

Lemma history_apart i : 0 <= i < 5 -> cmd_history i + 80 <= line /\ cmd_history 0 <= cmd_history i.
Proof. unfold Shell.cmd_history, Shell.line, FINSH_CMD_SIZE, FINSH_HISTORY_LINES. lia. Qed.

(** A new line with the same history. *)
Lemma rep_line e s e' s' : ed_rep e s -> holds (sh_mem s') line (padded 81 (ed_text e')) -> (length (ed_text e') <= 79)%nat -> printable (ed_text e') ->
  sh_position s' = Z.of_nat (length (ed_text e')) -> sh_curpos s' = Z.of_nat (length (ed_before e')) -> line_step s s' ->
  ed_hist e' = ed_hist e -> sh_current s' = Z.of_nat (ed_cur e') -> (ed_cur e' <= length (ed_hist e))%nat ->
  sh_count s' = sh_count s -> sh_stat s' = WAIT_NORMAL -> sh_echo s' = sh_echo s -> sh_prompt s' = sh_prompt s -> sh_prompt_mode s' = sh_prompt_mode s ->
  ed_rep e' s'.
Proof.
  intros R Hl Hn Hp E1 E2 F Eh Ec Hc En Es Ee Epr Epm. split; try assumption; rewrite ?Eh, ?En, ?Ee.
  - intros x Hx. rewrite F by (unfold Shell.cmd_history, Shell.line, FINSH_CMD_SIZE, FINSH_HISTORY_LINES in *; lia). apply (er_rows _ _ R), Hx.
  - intros i h Hi. destruct (er_hist _ _ R i h Hi) as (H1 & H2 & H3). split; [|auto]. pose proof (lookup_lt_Some _ _ _ Hi) as Hlt.
    pose proof (proj2 (er_count _ _ R)). destruct (history_apart (Z.of_nat i)) as [A1 _]; [lia|].
    eapply holds_sub; [exact H1|]. intros x Hx. rewrite padded_length in Hx by lia. apply F. lia.
  - apply (er_count _ _ R).
  - auto.
  - apply (er_echo _ _ R).
  - pose proof (er_prompt _ _ R) as H. unfold finsh_get_prompt in *. rewrite Epr, Epm. exact H.
  - pose proof (er_room _ _ R) as H. unfold finsh_get_prompt in *. rewrite Epr, Epm. exact H.
Qed.

(** ** Keys *)

Lemma escape_key s s' x (h : SH unit) : sh_stat s = WAIT_NORMAL -> h s = Some (tt, s') ->
  (x, h) ∈ [(65, up_key shell_at); (66, down_key shell_at); (68, left_key); (67, right_key shell_at)] ->
  finsh_chars shell_at table call [27; 91; x] s = Some (tt, s').
Proof.
  intros Hs Hh Hin. destruct s. cbn in Hs. subst. rewrite !elem_of_cons in Hin.
  destruct Hin as [[= -> ->]|[[= -> ->]|[[= -> ->]|[[= -> ->]|[]%elem_of_nil]]]]; cbn [finsh_chars];
    (erewrite bind_eq by reflexivity; erewrite bind_eq by reflexivity; erewrite bind_eq by exact Hh; reflexivity).
Qed.

Lemma single_key s s' c : sh_stat s = WAIT_NORMAL -> c <> 27 -> handle_char shell_at table call c s = Some (tt, s') ->
  finsh_chars shell_at table call [c] s = Some (tt, s').
Proof.
  intros Hs Hc Hh. cbn [finsh_chars]. erewrite bind_eq; [reflexivity|]. unfold finsh_char. erewrite bind_eq by reflexivity.
  rewrite (proj2 (Z.eqb_neq c 27)) by exact Hc. rewrite Hs. exact Hh.
Qed.

Lemma printable_handle s c : 32 <= c <= 126 -> handle_char shell_at table call c s = normal_char shell_at c s.
Proof. intros Hc. unfold handle_char. rewrite !(proj2 (Z.eqb_neq c _)) by lia. reflexivity. Qed.

Lemma after_nonempty e s : ed_rep e s -> (sh_curpos s <? sh_position s) = negb (bool_decide (ed_after e = [])).
Proof.
  intros R. rewrite (er_position _ _ R), (er_curpos _ _ R). unfold ed_text. rewrite length_app. destruct (ed_after e); cbn [length].
  - rewrite (proj2 (Z.ltb_ge _ _)) by lia. reflexivity.
  - rewrite (proj2 (Z.ltb_lt _ _)) by lia. reflexivity.
Qed.

(** The text behind the cursor, with its zeros. *)
Lemma holds_parts m b a n : holds m line (padded n (b ++ a)) <->
  holds m line b /\ holds m (line + Z.of_nat (length b)) a /\
  holds m (line + Z.of_nat (length b) + Z.of_nat (length a)) (replicate (n - (length b + length a)) 0).
Proof. unfold padded. rewrite length_app, <- app_assoc, !holds_app. reflexivity. Qed.

Lemma holds_zeros m a n k : holds m a (replicate n 0) -> (k <= n)%nat -> holds m (a + Z.of_nat k) (replicate (n - k) 0).
Proof.
  intros H Hk. replace n with (k + (n - k))%nat in H by lia. rewrite replicate_add in H. apply holds_app in H as [_ H].
  rewrite length_replicate in H. exact H.
Qed.

Lemma memmove_eq d s l m : holds m s l -> mapped m d (length l) -> rt_memmove d s (Z.of_nat (length l)) m = Some (d, write_list d l m).
Proof.
  intros H Hm. destruct (memmove_spec d s (Z.of_nat (length l)) m ltac:(lia)) as [E _]. rewrite E, Nat2Z.id. unfold moved.
  rewrite decide_True by (split; [apply holds_mapped, H|exact Hm]). rewrite read_holds by exact H. reflexivity.
Qed.

(** Inserting [c] before [a] and writing it behind [b]. *)
Lemma insert_bytes m b a c : holds m line (padded 81 (b ++ a)) -> (length b + length a < 81)%nat ->
  let m1 := write_list (line + Z.of_nat (length b) + 1) a m in
  holds (<[line + Z.of_nat (length b) := c]> m1) line (padded 81 ((b ++ [c]) ++ a)).
Proof.
  intros H Hl m1. apply holds_parts in H as (H1 & H2 & H3). set (p := line + Z.of_nat (length b)) in *.
  assert (forall x, x < p \/ p + 1 + Z.of_nat (length a) <= x -> <[p := c]> m1 !! x = m !! x) as F
    by (intros x Hx; rewrite lookup_insert_ne by lia; apply write_outside; lia).
  apply holds_parts. rewrite length_app. cbn [length]. replace (line + Z.of_nat (length b + 1)) with (p + 1) by lia. split; [|split].
  - apply holds_app. split; [eapply holds_sub; [exact H1|]; intros x Hx; apply F; lia|]. apply holds_cons. split; [apply lookup_insert_eq|apply holds_nil].
  - eapply holds_sub; [apply write_holds|]. intros x Hx. rewrite lookup_insert_ne by lia. reflexivity.
  - replace (81 - (length b + 1 + length a))%nat with (81 - (length b + length a) - 1)%nat by lia.
    replace (p + 1 + Z.of_nat (length a)) with (p + Z.of_nat (length a) + Z.of_nat 1) by lia.
    eapply holds_sub; [apply (holds_zeros m _ _ 1 H3); lia|]. intros x Hx. apply F. lia.
Qed.

(** What a key does to a shell that shows its line. *)
Definition edits (e : editor) (s : finsh_shell) (e' : editor) (r : option (unit * finsh_shell)) : Prop :=
  exists s', r = Some (tt, s') /\ ed_rep e' s' /\ shows e' s' /\ line_step s s'.

(** A step that changes the line, the cursor and the terminal only. *)
Lemma edits_line e s e' s' o : ed_rep e s -> shows e s ->
  holds (sh_mem s') line (padded 81 (ed_text e')) -> (length (ed_text e') <= 79)%nat -> printable (ed_text e') -> line_step s s' ->
  sh_out s' = sh_out s ++ o ->
  (forall pre n, exists n', show o (mkScreen ((pre ++ ed_before e) ++ ed_after e ++ replicate n 32) (length (pre ++ ed_before e)) 0) =
     mkScreen (pre ++ ed_text e' ++ replicate n' 32) (length pre + length (ed_before e')) 0) ->
  ed_hist e' = ed_hist e -> ed_cur e' = ed_cur e ->
  sh_position s' = Z.of_nat (length (ed_text e')) -> sh_curpos s' = Z.of_nat (length (ed_before e')) -> sh_current s' = sh_current s ->
  sh_count s' = sh_count s -> sh_stat s' = sh_stat s -> sh_echo s' = sh_echo s -> sh_prompt s' = sh_prompt s -> sh_prompt_mode s' = sh_prompt_mode s ->
  edits e s e' (Some (tt, s')).
Proof.
  intros R (pre & n & Hs) Hl Hlen Hp F Eo Hsh Eh Ecur E1 E2 Ec En Es Ee Epr Epm. exists s'. split; [reflexivity|]. destruct (er_current _ _ R) as [C1 C2].
  split; [eapply rep_line; try eassumption|split; [|exact F]].
  - rewrite Ec, Ecur. exact C1.
  - rewrite Ecur. exact C2.
  - rewrite Es. apply (er_stat _ _ R).
  - destruct (Hsh pre n) as [n' E]. exists pre, n'. rewrite Eo, show_app, Hs, <- E. unfold ed_text. rewrite length_app, <- !app_assoc. reflexivity.
Qed.

Lemma u16_sum x : 0 <= x <= 80 -> u16 x = x.
Proof. intros H. apply u16_small. lia. Qed.

Lemma line_mapped e s k : ed_rep e s -> 0 <= k < 81 -> is_Some (sh_mem s !! (line + k)).
Proof.
  intros R Hk. pose proof (er_line _ _ R) as H. apply holds_mapped in H. apply H. rewrite padded_length; [lia|]. pose proof (er_len _ _ R). lia.
Qed.

Lemma drop_blanks k n : drop k (replicate n 32) = replicate (n - k) 32.
Proof. revert n. induction k as [|k IH]; intros [|n]; cbn; try reflexivity. apply IH. Qed.

Ltac same_fields := cbn; rewrite <- ?app_assoc; reflexivity.

Lemma insert_shown c b a pre n : printable (c :: a) -> exists n',
  show ((c :: a) ++ replicate (length a) 8) (mkScreen ((pre ++ b) ++ a ++ replicate n 32) (length (pre ++ b)) 0) =
  mkScreen (pre ++ ((b ++ [c]) ++ a) ++ replicate n' 32) (length pre + length (b ++ [c])) 0.
Proof.
  intros Hp. rewrite show_app, show_text, show_backspaces by exact Hp. cbn [length app]. rewrite !length_app. cbn [length].
  exists (n - 1)%nat. f_equal; [|lia]. rewrite <- !app_assoc. cbn [app]. do 4 f_equal. rewrite <- drop_blanks.
  replace (S (length a)) with (length a + 1)%nat by lia. rewrite <- drop_drop, drop_app_length. reflexivity.
Qed.

Lemma printable_app l1 l2 : printable (l1 ++ l2) <-> printable l1 /\ printable l2.
Proof. apply Forall_app. Qed.

(** The text from the cursor on is a string. *)
Lemma line_string m b a : holds m line (padded 81 (b ++ a)) -> printable a -> (length b + length a < 81)%nat -> cstr m (line + Z.of_nat (length b)) a.
Proof.
  intros H Hp Hl. apply holds_parts in H as (_ & H2 & H3). split; [|apply printable_chars, Hp]. apply holds_app. split; [exact H2|].
  apply holds_cons. split; [|apply holds_nil]. specialize (H3 O 0). rewrite Z.add_0_r in H3. apply H3. apply lookup_replicate_2. lia.
Qed.

Lemma char_key c e s : ed_rep e s -> shows e s -> key_ok e (Char c) -> edits e s (ed_key e (Char c)) (normal_char shell_at c s).
Proof.
  intros R Hs [Hc Hl]. pose proof (er_position _ _ R) as Ep. pose proof (er_curpos _ _ R) as Ec. pose proof (er_text _ _ R) as Ht.
  pose proof (er_line _ _ R) as HL. pose proof (after_nonempty _ _ R) as Ha.
  destruct e as [b a h cur]. unfold ed_text in *. cbn [ed_before ed_after ed_key] in *. rewrite length_app in Ep, Hl.
  pose proof (proj1 (holds_parts _ _ _ _) HL) as (P1 & P2 & _). apply printable_app in Ht as [Ht1 Ht2].
  assert (printable ((b ++ [c]) ++ a)) as Hp by (rewrite !printable_app; repeat split; [exact Ht1|repeat constructor; lia|exact Ht2]).
  unfold normal_char. erewrite bind_eq by reflexivity. rewrite Ep. change FINSH_CMD_SIZE with 80. rewrite (proj2 (Z.leb_gt _ _)) by lia.
  erewrite bind_eq by reflexivity. erewrite bind_eq by reflexivity. rewrite Ha, Ec.
  pose proof (insert_bytes (sh_mem s) b a c HL ltac:(lia)) as HI. cbv zeta in HI.
  destruct a as [|a0 a]; [rewrite bool_decide_eq_true_2 by reflexivity|rewrite bool_decide_eq_false_2 by discriminate]; cbn [negb].
  - rewrite bind_assoc, Ep. cbn [length] in *. rewrite Nat.add_0_r in *.
    erewrite bind_eq by (apply mem_eq; rewrite sb_eq, decide_True by (eapply line_mapped; [exact R|lia]); reflexivity).
    rewrite (proj2 (Z.eqb_neq _ _) (er_echo _ _ R)). cbn [negb when]. erewrite bind_eq by (apply (puts_short [c]); cbn; lia).
    do 3 (erewrite bind_eq by reflexivity). cbn [sh_position]. rewrite !u16_sum by lia. rewrite (proj2 (Z.leb_gt _ _)) by (cbn; lia).
    eapply edits_line; [exact R|exact Hs|exact HI| |exact Hp| |same_fields|..]; try reflexivity.
    + unfold ed_text; cbn; rewrite !length_app; cbn; lia.
    + intros x Hx. cbn. apply lookup_insert_ne. lia.
    + intros pre n. apply (insert_shown c b [] pre n). repeat constructor; lia.
    + cbn. unfold ed_text. cbn. rewrite !length_app. cbn. lia.
    + cbn. rewrite length_app. cbn. lia.
  - set (a' := a0 :: a) in *. clearbody a'. replace (sh_position s - Z.of_nat (length b)) with (Z.of_nat (length a')) by lia.
    assert (mapped (sh_mem s) (line + Z.of_nat (length b) + 1) (length a')) as Hm.
    { intros x Hx. replace x with (line + (x - line)) by lia. eapply line_mapped; [exact R|lia]. }
    rewrite bind_assoc. erewrite bind_eq by (apply mem_eq, memmove_eq; [exact P2|exact Hm]). rewrite bind_assoc.
    erewrite bind_eq.
    2: { apply mem_eq. rewrite sb_eq, decide_True; [reflexivity|]. cbn. rewrite write_outside by lia. eapply line_mapped; [exact R|lia]. }
    rewrite (proj2 (Z.eqb_neq _ _) (er_echo _ _ R)). cbn [negb when]. rewrite bind_assoc.
    erewrite bind_eq.
    2: { apply put_string_eq; [apply (line_string _ b (c :: a')); [|apply Forall_cons; split; [lia|exact Ht2]|];
         rewrite <- app_assoc in HI; [exact HI|cbn [length]; lia]|cbn [length]; lia]. }
    erewrite bind_eq by apply emit_eq. rewrite moved_trans.
    do 3 (erewrite bind_eq by reflexivity). cbn [sh_position]. rewrite !u16_sum by lia. rewrite (proj2 (Z.leb_gt _ _)) by (cbn; lia).
    eapply edits_line; [exact R|exact Hs|exact HI| |exact Hp| |same_fields|..]; try reflexivity.
    + unfold ed_text; cbn [ed_before ed_after]; rewrite !length_app; cbn [length]; lia.
    + intros x Hx. cbn. rewrite lookup_insert_ne by lia. apply write_outside. lia.
    + intros pre n. unfold backspaces. rewrite Nat2Z.id. apply insert_shown. apply printable_app in Hp as [Hp _]. apply Forall_cons. split; [lia|exact Ht2].
    + cbn. unfold ed_text. cbn [ed_before ed_after]. rewrite !length_app. cbn [length]. lia.
    + cbn. rewrite length_app. cbn [length]. lia.
Qed.

(** Moving [a] one place to the front, over the last character of [b]. *)
Lemma remove_bytes m b x a : holds m line (padded 81 ((b ++ [x]) ++ a)) -> (length b + 1 + length a < 81)%nat ->
  let m1 := write_list (line + Z.of_nat (length b)) a m in
  holds (<[line + Z.of_nat (length b) + Z.of_nat (length a) := 0]> m1) line (padded 81 (b ++ a)).
Proof.
  intros H Hl m1. apply holds_parts in H as (H1 & H2 & H3). apply holds_app in H1 as [H1 _]. rewrite length_app in *. cbn [length] in *.
  set (p := line + Z.of_nat (length b)) in *.
  assert (forall y, y < p \/ p + Z.of_nat (length a) < y -> <[p + Z.of_nat (length a) := 0]> m1 !! y = m !! y) as F
    by (intros y Hy; rewrite lookup_insert_ne by lia; apply write_outside; lia).
  apply holds_parts. fold p. split; [|split].
  - eapply holds_sub; [exact H1|]. intros y Hy. apply F. lia.
  - eapply holds_sub; [apply write_holds|]. intros y Hy. apply lookup_insert_ne. lia.
  - replace (81 - (length b + length a))%nat with (S (81 - (length b + 1 + length a))) by lia. apply holds_cons. split; [apply lookup_insert_eq|].
    replace (p + Z.of_nat (length a) + 1) with (line + Z.of_nat (length b + 1) + Z.of_nat (length a)) by lia.
    eapply holds_sub; [exact H3|]. intros y Hy. apply F. lia.
Qed.

Lemma remove_shown b x a pre n : printable a -> exists n',
  show ((8 :: a) ++ [32; 32; 8] ++ replicate (S (length a)) 8) (mkScreen ((pre ++ b ++ [x]) ++ a ++ replicate n 32) (length (pre ++ b ++ [x])) 0) =
  mkScreen (pre ++ (b ++ a) ++ replicate n' 32) (length pre + length b) 0.
Proof.
  intros Hp. exists (2 + (n - 1))%nat. rewrite !length_app. cbn [length].
  change (show ((8 :: a) ++ [32; 32; 8] ++ replicate (S (length a)) 8) (mkScreen ((pre ++ b ++ [x]) ++ a ++ replicate n 32) (length pre + (length b + 1)) 0))
    with (show (a ++ [32; 32; 8] ++ replicate (S (length a)) 8) (mkScreen ((pre ++ b ++ [x]) ++ a ++ replicate n 32) (length pre + (length b + 1) - 1) 0)).
  replace (length pre + (length b + 1) - 1)%nat with (length (pre ++ b)) by (rewrite length_app; lia).
  replace ((pre ++ b ++ [x]) ++ a ++ replicate n 32) with ((pre ++ b) ++ x :: a ++ replicate n 32) by (rewrite <- !app_assoc; reflexivity).
  change ([32; 32; 8] ++ replicate (S (length a)) 8) with ([32; 32] ++ replicate (2 + length a) 8). rewrite (app_assoc a), show_app.
  assert (printable (a ++ [32; 32])) as Hp2 by (apply Forall_app; split; [exact Hp|repeat constructor; lia]).
  rewrite show_text, show_backspaces by exact Hp2. rewrite !length_app. cbn [length]. f_equal; [|lia]. rewrite <- !app_assoc. do 3 f_equal.
  replace (length a + 2)%nat with (S (length a + 1)) by lia. cbn [skipn]. rewrite <- drop_drop, drop_app_length, drop_blanks. reflexivity.
Qed.

Lemma remove_end_shown b x pre n : exists n',
  show [8; 32; 8] (mkScreen ((pre ++ b ++ [x]) ++ replicate n 32) (length (pre ++ b ++ [x])) 0) =
  mkScreen (pre ++ (b ++ []) ++ replicate n' 32) (length pre + length b) 0.
Proof.
  exists (S n). rewrite app_nil_r, !length_app. cbn [length]. replace (length pre + (length b + 1))%nat with (S (length (pre ++ b))) by (rewrite length_app; lia).
  cbn [show foldl show_char Z.eqb Pos.eqb]. rewrite Nat.sub_succ, Nat.sub_0_r.
  replace ((pre ++ b ++ [x]) ++ replicate n 32) with ((pre ++ b) ++ x :: replicate n 32) by (rewrite <- !app_assoc; reflexivity).
  rewrite take_app_length, drop_app_ge by lia. replace (S (length (pre ++ b)) - length (pre ++ b))%nat with 1%nat by lia. rewrite length_app.
  f_equal; [|lia]. rewrite <- app_assoc. reflexivity.
Qed.

Lemma backspace_key_edits e s : ed_rep e s -> shows e s -> edits e s (ed_key e Backspace) (backspace_key shell_at s).
Proof.
  intros R Hs. pose proof (er_position _ _ R) as Ep. pose proof (er_curpos _ _ R) as Ec. pose proof (er_text _ _ R) as Ht.
  pose proof (er_line _ _ R) as HL. pose proof (er_len _ _ R) as Hl.
  destruct e as [b a h cur]. unfold ed_text in *. cbn [ed_before ed_after ed_key] in *. rewrite length_app in Ep, Hl.
  unfold backspace_key. erewrite bind_eq by reflexivity. rewrite Ec. destruct b as [|x b _] using rev_ind.
  { cbn. exists s. split; [reflexivity|]. split; [exact R|]. split; [exact Hs|]. intros y _. reflexivity. }
  rewrite removelast_last, length_app in *. cbn [length] in *. rewrite (proj2 (Z.eqb_neq _ _)) by lia. cbn [negb when].
  pose proof (proj1 (holds_parts _ _ _ _) HL) as (_ & P2 & _). rewrite !printable_app in Ht. destruct Ht as [[Hb _] Ha].
  pose proof (remove_bytes (sh_mem s) b x a HL ltac:(lia)) as HR. cbv zeta in HR.
  do 3 (erewrite bind_eq by reflexivity). cbn [sh_position sh_curpos]. rewrite Ep, !u16_sum by lia.
  replace (Z.of_nat (length b + 1) - 1) with (Z.of_nat (length b)) by lia.
  replace (Z.of_nat (length b + 1 + length a) - 1) with (Z.of_nat (length b) + Z.of_nat (length a)) by lia.
  assert (forall k, 0 <= k < 81 -> is_Some (sh_mem s !! (line + k))) as Hmap by (intros k Hk; eapply line_mapped; [exact R|exact Hk]).
  rewrite length_app in P2. cbn [length] in P2. replace (line + Z.of_nat (length b + 1)) with (line + Z.of_nat (length b) + 1) in P2 by lia.
  match goal with |- context [sh_curpos ?t] => set (t1 := t);
    change (sh_curpos t1) with (Z.of_nat (length b)); change (sh_position t1) with (Z.of_nat (length b) + Z.of_nat (length a)) end.
  destruct a as [|a0 a].
  - cbn [length] in *. rewrite Z.add_0_r, Z.ltb_irrefl. erewrite bind_eq by (apply (puts_short [8; 32; 8]); cbn; lia).
    erewrite mem_eq by (rewrite sb_eq, decide_True by (apply Hmap; lia); reflexivity).
    eapply edits_line; [exact R|exact Hs| |unfold ed_text; cbn [ed_before ed_after]; rewrite length_app; cbn [length]; lia| | |same_fields|..]; try reflexivity.
    + unfold ed_text. cbn [ed_before ed_after]. cbn in HR |- *. rewrite Z.add_0_r in HR. exact HR.
    + unfold ed_text. cbn. rewrite app_nil_r. exact Hb.
    + intros y Hy. cbn. apply lookup_insert_ne. lia.
    + intros pre n. cbn [ed_before ed_after app]. apply (remove_end_shown b x pre n).
    + cbn. unfold ed_text. cbn. rewrite length_app. cbn. lia.
  - set (a' := a0 :: a) in *. assert (0 < length a')%nat as Hpos by (cbn; lia). clearbody a'. rewrite (proj2 (Z.ltb_lt _ _)) by lia.
    replace (Z.of_nat (length b) + Z.of_nat (length a') - Z.of_nat (length b)) with (Z.of_nat (length a')) by lia.
    assert (mapped (sh_mem s) (line + Z.of_nat (length b)) (length a')) as Hm by (intros y Hy; replace y with (line + (y - line)) by lia; apply Hmap; lia).
    erewrite bind_eq by (apply mem_eq, memmove_eq; [exact P2|exact Hm]).
    erewrite bind_eq.
    2: { apply mem_eq. rewrite sb_eq, decide_True; [reflexivity|]. cbn. rewrite Z.add_assoc, write_outside by lia. rewrite <- Z.add_assoc. apply Hmap. lia. }
    rewrite Z.add_assoc. erewrite bind_eq by (apply text_eq, (line_string _ b a'); [exact HR|exact Ha|lia]).
    erewrite bind_eq by (apply puts_short; rewrite !length_app; cbn [length]; lia). rewrite emit_eq, moved_trans.
    eapply edits_line; [exact R|exact Hs|exact HR|unfold ed_text; cbn [ed_before ed_after]; rewrite length_app; lia| | |same_fields|..]; try reflexivity.
    + unfold ed_text. cbn [ed_before ed_after]. apply printable_app. auto.
    + intros y Hy. cbn. rewrite lookup_insert_ne by lia. apply write_outside. lia.
    + intros pre n. unfold backspaces. cbn [ed_before ed_after]. replace (Z.to_nat (Z.of_nat (length a') + 1)) with (S (length a')) by lia.
      destruct (remove_shown b x a' pre n Ha) as [n' E]. exists n'. refine (eq_trans _ E). f_equal.
    + cbn. unfold ed_text. cbn [ed_before ed_after]. rewrite length_app. lia.
Qed.

(** A step that only moves the cursor. *)
Lemma edits_cursor e s b a o : ed_rep e s -> shows e s -> b ++ a = ed_text e ->
  (forall pre n, show o (mkScreen (pre ++ ed_text e ++ replicate n 32) (length pre + length (ed_before e)) 0) =
     mkScreen (pre ++ ed_text e ++ replicate n 32) (length pre + length b) 0) ->
  edits e s (mkEditor b a (ed_hist e) (ed_cur e))
    (Some (tt, moved_to (sh_mem s) o s <| sh_curpos := Z.of_nat (length b) |>)).
Proof.
  intros R Hs E Hsh. assert (ed_text (mkEditor b a (ed_hist e) (ed_cur e)) = ed_text e) as E' by exact E.
  eapply edits_line; [exact R|exact Hs|..]; rewrite ?E'; try reflexivity.
  - apply (er_line _ _ R).
  - apply (er_len _ _ R).
  - apply (er_text _ _ R).
  - intros y _. reflexivity.
  - intros pre n. exists n. rewrite length_app. specialize (Hsh pre n). unfold ed_text in Hsh at 1. rewrite <- !app_assoc in Hsh |- *. exact Hsh.
  - apply (er_position _ _ R).
Qed.

Lemma left_key_edits e s : ed_rep e s -> shows e s -> edits e s (ed_key e Left) (left_key s).
Proof.
  intros R Hs. pose proof (er_curpos _ _ R) as Ec. pose proof (er_len _ _ R) as Hl. unfold left_key. erewrite bind_eq by reflexivity. rewrite Ec.
  destruct e as [b a h cur]. unfold ed_text in Hl. cbn [ed_before ed_after ed_key] in *. destruct b as [|x b _] using rev_ind.
  { cbn. exists s. split; [reflexivity|]. split; [exact R|]. split; [exact Hs|]. intros y _. reflexivity. }
  rewrite last_snoc, removelast_last. rewrite !length_app in *. cbn [length] in *. rewrite (proj2 (Z.eqb_neq _ _)) by lia. cbn [negb when].
  erewrite bind_eq by (apply (puts_short [8]); cbn; lia). unfold set_curpos. rewrite u16_sum by lia. replace (Z.of_nat (length b + 1) - 1) with (Z.of_nat (length b)) by lia.
  apply (edits_cursor (mkEditor (b ++ [x]) a h cur) s b (x :: a) [8] R Hs).
  - unfold ed_text. cbn. rewrite <- app_assoc. reflexivity.
  - intros pre n. cbn [ed_before ed_after]. rewrite length_app. cbn. f_equal. lia.
Qed.

Lemma right_key_edits e s : ed_rep e s -> shows e s -> edits e s (ed_key e Right) (right_key shell_at s).
Proof.
  intros R Hs. pose proof (er_curpos _ _ R) as Ec. pose proof (er_len _ _ R) as Hl. pose proof (after_nonempty _ _ R) as Ha.
  pose proof (er_text _ _ R) as Ht. unfold right_key. erewrite bind_eq by reflexivity. rewrite Ha, Ec.
  destruct (proj1 (holds_parts _ _ _ _) (er_line _ _ R)) as (_ & P & _).
  destruct e as [b a h cur]. unfold ed_text in Hl, Ht. cbn [ed_before ed_after ed_key] in *. destruct a as [|x a].
  { cbn. exists s. split; [reflexivity|]. split; [exact R|]. split; [exact Hs|]. intros y _. reflexivity. }
  rewrite bool_decide_eq_false_2 by discriminate. cbn [negb when]. rewrite length_app in Hl. cbn [length] in Hl.
  apply holds_cons in P as [P _]. erewrite bind_eq by (apply mem_read, ld_eq, P). erewrite bind_eq by (apply (puts_short [x]); cbn; lia).
  unfold set_curpos. rewrite u16_sum by lia. replace (Z.of_nat (length b) + 1) with (Z.of_nat (length (b ++ [x]))) by (rewrite length_app; cbn; lia).
  apply (edits_cursor (mkEditor b (x :: a) h cur) s (b ++ [x]) a [x] R Hs).
  - unfold ed_text. cbn. rewrite <- app_assoc. reflexivity.
  - intros pre n. unfold ed_text. cbn [ed_before ed_after]. apply printable_app in Ht as [_ Hx]. apply Forall_cons in Hx as [Hx _].
    rewrite <- !app_assoc, !(app_assoc pre b), <- length_app. rewrite show_text by (repeat constructor; lia). rewrite !length_app. cbn. f_equal. lia.
Qed.

(** The line becomes [h], and the row is written anew. *)
Lemma history_edits e s i : ed_rep e s -> shows e s -> (i < length (ed_hist e))%nat ->
  edits e s (ed_recall i e) (show_history shell_at (s <| sh_current := Z.of_nat i |>)).
Proof.
  intros R (pre & n & Hs) Hi. unfold ed_recall. destruct (lookup_lt_is_Some_2 _ _ Hi) as [h E]. rewrite E.
  destruct (er_hist _ _ R i h E) as (Hh & [Hh0 Hhl] & Hhp). pose proof (proj2 (er_count _ _ R)) as Hc.
  destruct (history_apart (Z.of_nat i)) as [A1 A2]; [lia|].
  set (m := write_list line (padded 80 h) (sh_mem s)).
  assert (mapped (sh_mem s) line 80) as Hm by (intros x Hx; replace x with (line + (x - line)) by lia; eapply line_mapped; [exact R|lia]).
  assert (holds m line (padded 81 h)) as Hl.
  { replace (padded 81 h) with (padded 80 h ++ [0]).
    2: { unfold padded. rewrite <- app_assoc. f_equal. replace (81 - length h)%nat with (80 - length h + 1)%nat by lia. rewrite replicate_add. reflexivity. }
    apply holds_app. split; [apply write_holds|]. rewrite padded_length by lia. apply holds_cons. split; [|apply holds_nil].
    unfold m. rewrite write_outside by (rewrite padded_length by lia; lia).
    apply (er_line _ _ R). unfold padded. pose proof (er_len _ _ R). rewrite lookup_app_r, lookup_replicate by lia. lia. }
  unfold show_history. erewrite bind_eq by reflexivity. change (sh_current _) with (Z.of_nat i) at 1. erewrite bind_eq.
  2: { apply mem_eq. cbn [sh_mem]. change FINSH_CMD_SIZE with 80. rewrite memcpy_memmove by lia.
       replace 80 with (Z.of_nat (length (padded 80 h))) by (rewrite padded_length; lia). apply memmove_eq; [exact Hh|]. rewrite padded_length by lia. exact Hm. }
  fold m. assert (cstr m line h) as Hstr.
  { pose proof (line_string m [] h Hl Hhp) as H. cbn in H. rewrite Z.add_0_r in H. apply H. lia. }
  erewrite bind_eq by (apply mem_read, strlen_eq, Hstr). cbv beta.
  do 2 (erewrite bind_eq by reflexivity). rewrite u16_sum by lia. unfold shell_handle_history, put_prompted.
  erewrite bind_eq by (apply (puts_short [27; 91; 50; 75; 13]); cbn; lia). erewrite bind_eq by reflexivity.
  erewrite bind_eq by (apply text_eq; exact Hstr). rewrite puts_short.
  2: { rewrite length_app. pose proof (er_room _ _ R) as Hr. change (length (finsh_get_prompt s) + length h <= 126)%nat. lia. }
  rewrite moved_trans.
  assert (ed_text (mkEditor h [] (ed_hist e) i) = h) as Et by apply app_nil_r.
  assert (forall x, x < line \/ line + 81 <= x -> m !! x = sh_mem s !! x) as F
    by (intros x Hx; apply write_outside; rewrite padded_length by lia; lia).
  eexists. split; [reflexivity|]. unfold shows. split; [eapply rep_line; [exact R|..]; rewrite ?Et|split]; rewrite ?Et; try reflexivity; try assumption.
  - cbn [ed_cur]. lia.
  - apply (er_stat _ _ R).
  - match goal with |- context [sh_out ?t] => change (sh_out t) with (sh_out s ++ [27; 91; 50; 75; 13] ++ finsh_get_prompt s ++ h) end.
    exists (finsh_get_prompt s), O. rewrite show_app, Hs, show_app, show_clear. cbn [ed_before].
    pose proof (show_text (finsh_get_prompt s ++ h) [] []) as T. cbn [app length Nat.add] in T.
    rewrite T by (apply printable_app; split; [apply (er_prompt _ _ R)|exact Hhp]). rewrite drop_nil, length_app, !app_nil_r. reflexivity.
Qed.

Lemma up_key_edits e s : ed_rep e s -> shows e s -> edits e s (ed_key e Up) (up_key shell_at s).
Proof.
  intros R Hs. destruct (er_current _ _ R) as [Ec Hc]. pose proof (proj2 (er_count _ _ R)) as Hn. unfold up_key. erewrite bind_eq by reflexivity. rewrite Ec.
  pose proof (fun i => history_edits e s i R Hs) as H. destruct e as [b a h cur]. cbn [ed_cur ed_hist ed_key] in *. destruct cur as [|i].
  - rewrite (proj2 (Z.ltb_ge _ _)) by lia. exists s. split; [|split; [exact R|split; [exact Hs|intros y _; reflexivity]]].
    destruct s. cbn in Ec |- *. subst. reflexivity.
  - rewrite (proj2 (Z.ltb_lt _ _)) by lia. erewrite bind_eq by reflexivity. rewrite u16_sum by lia.
    replace (Z.of_nat (S i) - 1) with (Z.of_nat i) by lia. apply H. lia.
Qed.

Lemma down_key_edits e s : ed_rep e s -> shows e s -> edits e s (ed_key e Down) (down_key shell_at s).
Proof.
  intros R Hs. destruct (er_current _ _ R) as [Ec Hc]. destruct (er_count _ _ R) as [En Hn]. unfold down_key. erewrite bind_eq by reflexivity. rewrite Ec, En.
  pose proof (fun i => history_edits e s i R Hs) as H. destruct e as [b a h cur]. cbn [ed_cur ed_hist ed_key] in *. destruct (decide (S cur < length h)%nat).
  - rewrite (proj2 (Z.ltb_lt _ _)) by lia. erewrite bind_eq by reflexivity. rewrite u16_sum by lia.
    replace (Z.of_nat cur + 1) with (Z.of_nat (S cur)) by lia. apply H. lia.
  - rewrite (proj2 (Z.ltb_ge _ _)) by lia. destruct h as [|h0 h].
    + exists s. split; [reflexivity|split; [exact R|split; [exact Hs|intros y _; reflexivity]]].
    + cbn [length] in *. rewrite (proj2 (Z.eqb_neq _ _)) by lia. cbn [negb]. erewrite bind_eq by reflexivity. rewrite u16_sum by lia.
      replace (Z.of_nat (S (length h)) - 1) with (Z.of_nat (S (length h) - 1)) by lia. apply H. lia.
Qed.

Lemma finsh_chars_app l1 l2 s : finsh_chars shell_at table call (l1 ++ l2) s =
  (finsh_chars shell_at table call l1;; finsh_chars shell_at table call l2) s.
Proof.
  revert s. induction l1 as [|c l1 IH]; intros s; [reflexivity|]. cbn [app finsh_chars]. rewrite bind_assoc. unfold mbind, st_bind.
  destruct (finsh_char shell_at table call c s) as [[[] s1]|]; [rewrite IH|]; reflexivity.
Qed.

Lemma key_edits k e s : ed_rep e s -> shows e s -> key_ok e k ->
  edits e s (ed_key e k) (finsh_chars shell_at table call (key_chars k) s).
Proof.
  intros R Hs Hk. pose proof (er_stat _ _ R) as Est. destruct k as [c| | | | |]; cbn [key_chars].
  - destruct (char_key c e s R Hs Hk) as (s' & E & H). exists s'. split; [|exact H]. destruct Hk as [Hc _].
    apply single_key; [exact Est|lia|]. rewrite printable_handle by lia. exact E.
  - destruct (backspace_key_edits e s R Hs) as (s' & E & H). exists s'. split; [|exact H]. apply single_key; [exact Est|lia|exact E].
  - destruct (left_key_edits e s R Hs) as (s' & E & H). exists s'. split; [|exact H]. eapply escape_key; [exact Est|exact E|rewrite !elem_of_cons; auto].
  - destruct (right_key_edits e s R Hs) as (s' & E & H). exists s'. split; [|exact H]. eapply escape_key; [exact Est|exact E|rewrite !elem_of_cons; auto].
  - destruct (up_key_edits e s R Hs) as (s' & E & H). exists s'. split; [|exact H]. eapply escape_key; [exact Est|exact E|rewrite !elem_of_cons; auto].
  - destruct (down_key_edits e s R Hs) as (s' & E & H). exists s'. split; [|exact H]. eapply escape_key; [exact Est|exact E|rewrite !elem_of_cons; auto].
Qed.

Fixpoint keys_ok (e : editor) (ks : list key) : Prop :=
  match ks with [] => True | k :: ks => key_ok e k /\ keys_ok (ed_key e k) ks end.

Lemma prompt_fits s : match sh_prompt s with Some p => printable p /\ (length p <= 46)%nat | None => True end ->
  printable (finsh_get_prompt s) /\ (length (finsh_get_prompt s) <= 47)%nat.
Proof.
  intros Hp. unfold finsh_get_prompt. destruct (sh_prompt_mode s =? 0); [split; [constructor|cbn; lia]|]. cbv zeta.
  destruct (sh_prompt s) as [q|].
  - destruct Hp as [Hp Hq]. rewrite take_ge by (change (Z.to_nat RT_CONSOLEBUF_SIZE) with 128%nat; lia).
    destruct (_ <? _); [|split; [exact Hp|lia]]. rewrite length_app. split; [|cbn [length]; lia].
    apply printable_app. split; [exact Hp|repeat constructor; lia].
  - change (printable [109; 115; 104; 32; 62] /\ (5 <= 47)%nat). split; [|lia].
    repeat (apply Forall_cons; split; [lia|]). apply Forall_nil_2.
Qed.

(** [finsh_system_init] with its 481 bytes, then the start of the thread. *)
Lemma shell_starts s : mapped (sh_mem s) (cmd_history 0) 481 -> show (sh_out s) (mkScreen [] 0 0) = mkScreen [] 0 0 ->
  match sh_prompt s with Some p => printable p /\ (length p <= 46)%nat | None => True end ->
  exists s', (finsh_system_init shell_at (Some shell_at);; finsh_thread_start) s = Some (tt, s') /\
    ed_rep (mkEditor [] [] [] 0) s' /\ shows (mkEditor [] [] [] 0) s'.
Proof.
  intros Hm Ho Hp. assert (line = cmd_history 0 + 400) as El by (unfold Shell.cmd_history, Shell.line, FINSH_CMD_SIZE, FINSH_HISTORY_LINES; lia).
  set (m := write_list (cmd_history 0) (replicate 481 0) (sh_mem s)).
  assert (forall x, cmd_history 0 <= x < cmd_history 0 + 481 -> m !! x = Some 0) as F.
  { intros x Hx. unfold m. rewrite write_list_lookup, length_replicate, decide_True by lia. apply lookup_replicate_2. lia. }
  eexists. split.
  { unfold finsh_system_init. rewrite bind_assoc. erewrite bind_eq.
    2: { apply mem_eq. change (FINSH_CMD_SIZE * FINSH_HISTORY_LINES + FINSH_CMD_SIZE + 1) with 481.
         rewrite (proj2 (memset_versions_agree _ _ 481 _ ltac:(lia))), decide_True by exact Hm. reflexivity. }
    change (u8 0) with 0. change (Z.to_nat 481) with 481%nat. fold m. rewrite bind_assoc. erewrite bind_eq by reflexivity.
    rewrite bind_assoc. erewrite bind_eq by reflexivity. erewrite bind_eq by reflexivity. unfold finsh_thread_start.
    erewrite bind_eq by reflexivity. unfold put_prompt. erewrite bind_eq by reflexivity. apply puts_eq. }
  set (p := finsh_get_prompt _). assert (printable p /\ (length p <= 47)%nat) as [Hpp Hpl].
  { apply prompt_fits. exact Hp. }
  rewrite console_short by lia.
  split.
  - split; unfold ed_text; try reflexivity; try (cbn; lia).
    + intros i y E. apply lookup_replicate in E as [-> Hi]. cbn. apply F. lia.
    + constructor.
    + intros x Hx. cbn. rewrite F by lia. eauto.
    + intros i h [=].
    + discriminate.
    + exact Hpp.
    + exact Hpl.
  - exists p, O. match goal with |- context [sh_out ?t] => change (sh_out t) with (sh_out s ++ p) end. rewrite show_app, Ho.
    pose proof (show_text p [] [] Hpp) as X. cbn [app length Nat.add] in X. rewrite X, drop_nil. cbn. rewrite !app_nil_r, Nat.add_0_r. reflexivity.
Qed.

Lemma keys_edit ks e s : ed_rep e s -> shows e s -> keys_ok e ks ->
  edits e s (foldl ed_key e ks) (finsh_chars shell_at table call (concat (map key_chars ks)) s).
Proof.
  revert e s. induction ks as [|k ks IH]; intros e s R Hs Hk.
  { exists s. split; [reflexivity|split; [exact R|split; [exact Hs|intros x _; reflexivity]]]. }
  destruct Hk as [Hk Hks]. destruct (key_edits k e s R Hs Hk) as (s1 & E1 & R1 & Hs1 & F1).
  destruct (IH _ s1 R1 Hs1 Hks) as (s2 & E2 & R2 & Hs2 & F2). exists s2. cbn [map concat foldl].
  rewrite finsh_chars_app. erewrite bind_eq by exact E1. split; [exact E2|split; [exact R2|split; [exact Hs2|]]].
  intros x Hx. rewrite F2, F1 by exact Hx. reflexivity.
Qed.

(** C32: whatever editing keys are pressed, as long as the line has room for the
    characters, the shell's line, cursor, history and history position are those of
    the editor on lists, the row of the terminal shows the line with the cursor in
    its place, and no byte outside the line is written. *)
Theorem shell_edits ks e s : ed_rep e s -> shows e s -> keys_ok e ks ->
  edits e s (foldl ed_key e ks) (finsh_chars shell_at table call (concat (map key_chars ks)) s).
Proof. apply keys_edit. Qed.
End Shell.

(** ** Examples and witnesses *)

(** A shell whose arrays are at 1000 and a command "led" that prints its arguments. *)
Definition boot_mem : bytes := write_list 2000 [108; 101; 100; 0] (gset_to_gmap 0 (list_to_set (seqZ 1000 481 ++ seqZ 2000 4))).
Definition boot_shell : finsh_shell := mkShell boot_mem [] WAIT_NORMAL 0 0 None 0 0 0 0.
Definition shell_table : list finsh_syscall := [mkSyscall 2000 2003 [] 7].
Definition shell_call (f : Z) (argv : list Z) : SH Z := put_args argv;; mret 0.
Abbreviation shell_chars := (finsh_chars 1000 shell_table shell_call).
Definition ready_shell : finsh_shell := boot_shell <| sh_echo := 1 |> <| sh_prompt_mode := 1 |>.

(** 80 characters are discarded by resetting the position, but their bytes stay: a command
    typed afterwards gets them with its name. *)
Example shell_stale_argument : exists s, shell_chars (replicate 80 97 ++ [108; 101; 100; 13]) ready_shell = Some (tt, s) /\
  drop 84 (sh_out s) = [108; 101; 100] ++ replicate 77 97 ++ [32] ++ finsh_get_prompt s.
Proof. eexists. split; vm_compute; reflexivity. Qed.

(** After TAB the position is 80 again; one more character puts the cursor behind the
    position, and two backspaces take the position below 0: [rt_memmove] leaves the memory. *)
Example shell_overrun : (exists s, shell_chars (replicate 80 97 ++ [9; 97; 8]) ready_shell = Some (tt, s) /\ sh_position s = 0 /\ sh_curpos s = 80) /\
  shell_chars (replicate 80 97 ++ [9; 97; 8; 8]) ready_shell = None.
Proof. split; [eexists; split; [|split]|]; vm_compute; reflexivity. Qed.

Lemma boot_mapped : mapped (sh_mem boot_shell) (cmd_history 1000 0) 481.
Proof.
  intros x Hx. unfold cmd_history, FINSH_CMD_SIZE in Hx. cbn [sh_mem boot_shell]. unfold boot_mem. rewrite write_outside by (cbn [length]; lia).
  exists 0. apply lookup_gset_to_gmap_Some. split; [|reflexivity]. apply elem_of_list_to_set, elem_of_app. left. apply elem_of_seqZ. lia.
Qed.

(** "la", one to the left, "e", a wrong letter and Backspace. *)
Lemma shell_edits_witness : exists s s', (finsh_system_init 1000 (Some 1000);; finsh_thread_start) boot_shell = Some (tt, s) /\
  shell_chars [108; 97; 27; 91; 68; 101; 120; 127] s = Some (tt, s') /\ ed_rep 1000 (mkEditor [108; 101] [97] [] 0) s' /\ shows (mkEditor [108; 101] [97] [] 0) s'.
Proof.
  destruct (shell_starts 1000 boot_shell boot_mapped eq_refl I) as (s & E & R & Hs).
  destruct (shell_edits 1000 shell_table shell_call [Char 108; Char 97; Left; Char 101; Char 120; Backspace] (mkEditor [] [] [] 0) s R Hs)
    as (s' & E' & R' & Hs' & _); [cbn; lia|]. exists s, s'. split; [exact E|]. split; [exact E'|]. split; [exact R'|exact Hs'].
Defined.
