(* ===== verification/ShellHistoryProps.v ===== *)
(** * Properties of the history and of the Enter key

    [shell_push_history] refines a list of at most five lines; Enter puts the line into
    the history, runs it and leaves an empty line on a new row. *)

From stdpp Require Import gmap.
From S2P Require Import Prelude Bytes KString KStringProps KStdio Msh MshProps Shell ShellProps.
Open Scope rt_scope.

(** ** The history as a list *)

Definition push_line (h : list (list Z)) (l : list Z) : list (list Z) :=
  if decide (l = []) then h
  else if decide (last h = Some l) then h
  else (if decide (length h < 5)%nat then h else drop 1 h) ++ [l].

Definition ed_push (e : editor) : editor :=
  let h := push_line (ed_hist e) (ed_text e) in mkEditor (ed_before e) (ed_after e) h (length h).

Section Rows.
Context (shell_at : Z).
Abbreviation line := (Shell.line shell_at).
Abbreviation row := (Shell.cmd_history shell_at).

Lemma row_add i k : row (i + k) = row i + 80 * k.
Proof. unfold Shell.cmd_history, FINSH_CMD_SIZE. lia. Qed.

(** Rows [i], ..., [i + n - 1] get the bytes of the rows behind them. *)
Lemma shift_history_eq n : forall i m, mapped m (row i) (80 * S n) ->
  exists m', shift_history shell_at n i m = Some (tt, m') /\
    (forall x, row i <= x < row i + 80 * Z.of_nat n -> m' !! x = m !! (x + 80)) /\
    (forall x, x < row i \/ row i + 80 * Z.of_nat n <= x -> m' !! x = m !! x).
Proof.
  induction n as [|n IH]; intros i m Hm; cbn [shift_history].
  { exists m. split; [reflexivity|]. split; [intros; lia|reflexivity]. }
  rewrite row_add. set (m1 := write_list (row i) (read_list m (row i + 80 * 1) 80) m).
  erewrite bind_eq.
  2: { change FINSH_CMD_SIZE with 80. rewrite memcpy_memmove by lia. rewrite (proj1 (memmove_spec _ _ 80 _ ltac:(lia))).
       unfold moved. rewrite decide_True by (split; intros x Hx; apply Hm; lia). reflexivity. }
  cbn [snd]. change (Z.to_nat 80) with 80%nat. fold m1.
  assert (forall x, x < row i \/ row i + 80 <= x -> m1 !! x = m !! x) as F by (intros x Hx; apply write_outside; rewrite read_list_length; lia).
  assert (forall x, row i <= x < row i + 80 -> m1 !! x = m !! (x + 80)) as G.
  { intros x Hx. unfold m1. rewrite write_list_lookup, read_list_length, decide_True, read_list_lookup, decide_True by lia.
    replace (row i + 80 * 1 + Z.of_nat (Z.to_nat (x - row i))) with (x + 80) by lia. destruct (Hm (x + 80)) as [y E]; [lia|]. rewrite E. reflexivity. }
  destruct (IH (i + 1) m1) as (m' & E & H1 & H2).
  { rewrite row_add. intros x Hx. rewrite F by lia. apply Hm. lia. }
  exists m'. split; [exact E|]. rewrite row_add in H1, H2. split; intros x Hx.
  - destruct (decide (x < row i + 80)); [rewrite H2, G by lia; reflexivity|]. rewrite H1, F by lia. reflexivity.
  - rewrite H2, F by lia. reflexivity.
Qed.

(** A row is cleared and filled with the line. *)
Lemma put_row_eq i l m : mapped m (row i) 80 -> holds m line l -> (length l <= 80)%nat -> row i + 80 <= line ->
  exists m', (rt_memset (row i) 0 FINSH_CMD_SIZE;; rt_memcpy (row i) line (Z.of_nat (length l))) m = Some (row i, m') /\
    holds m' (row i) (padded 80 l) /\ (forall x, x < row i \/ row i + 80 <= x -> m' !! x = m !! x).
Proof.
  intros Hm Hl Hn Hd. change FINSH_CMD_SIZE with 80. set (m1 := write_list (row i) (replicate 80 0) m).
  assert (forall x, x < row i \/ row i + 80 <= x -> m1 !! x = m !! x) as F by (intros x Hx; apply write_outside; rewrite length_replicate; lia).
  exists (write_list (row i) l m1). split; [|split].
  - erewrite bind_eq by (rewrite (proj2 (memset_versions_agree _ _ 80 _ ltac:(lia))), decide_True by exact Hm; reflexivity).
    change (u8 0) with 0. fold m1. rewrite memcpy_memmove by lia. apply memmove_eq.
    + eapply holds_sub; [exact Hl|]. intros x Hx. apply F. lia.
    + intros x Hx. unfold m1. rewrite write_list_lookup, length_replicate, decide_True by lia. rewrite lookup_replicate_2 by lia. eauto.
  - unfold padded. apply holds_app. split; [apply write_holds|].
    assert (holds m1 (row i) (replicate 80 0)) as H by apply write_holds. apply (holds_zeros m1 (row i) 80 (length l)) in H; [|exact Hn].
    eapply holds_sub; [exact H|]. intros x Hx. apply write_outside. lia.
  - intros x Hx. rewrite write_outside by lia. apply F, Hx.
Qed.
End Rows.

Lemma padded_inj h : forall t k1 k2, printable h -> printable t -> h ++ replicate k1 0 = t ++ replicate k2 0 -> h = t.
Proof.
  induction h as [|x h IH]; intros [|y t] k1 k2 H1 H2 E; [reflexivity| | |].
  - apply Forall_cons in H2 as [H2 _]. destruct k1; [discriminate|]. injection E as <- _. lia.
  - apply Forall_cons in H1 as [H1 _]. destruct k2; [discriminate|]. injection E as -> _. lia.
  - apply Forall_cons in H1 as [_ H1], H2 as [_ H2]. injection E as -> E. f_equal. eapply IH; eassumption.
Qed.

Section History.
Context (shell_at : Z) (table : list finsh_syscall) (call : Z -> list Z -> SH Z).
Abbreviation line := (Shell.line shell_at).
Abbreviation row := (Shell.cmd_history shell_at).

(** Comparing a row with the line. *)
Lemma row_cmp m i h l : holds m (row i) (padded 80 h) -> holds m line (padded 81 l) -> printable h -> printable l ->
  (length h <= 79)%nat -> (length l <= 79)%nat ->
  exists c, rt_memcmp (row i) line FINSH_CMD_SIZE m = Some (c, m) /\ (c = 0 <-> h = l).
Proof.
  intros H1 H2 P1 P2 L1 L2. exists (diff (padded 80 h) (padded 80 l)).
  assert (length (padded 80 h) = 80%nat) as E1 by (apply padded_length; lia). assert (length (padded 80 l) = 80%nat) as E2 by (apply padded_length; lia). split.
  - unfold rt_memcmp. change (Z.to_nat FINSH_CMD_SIZE) with 80%nat. rewrite <- E1 at 1. apply memcmp_loop_eq; [exact H1| |congruence].
    replace (padded 81 l) with (padded 80 l ++ [0]) in H2; [apply holds_app in H2 as [H2 _]; exact H2|].
    unfold padded. rewrite <- app_assoc. f_equal. replace (81 - length l)%nat with (80 - length l + 1)%nat by lia. rewrite replicate_add. reflexivity.
  - rewrite diff_zero by congruence. split; [|intros ->; reflexivity]. intros E. eapply padded_inj; eassumption.
Qed.

(** The same line with other rows. *)
Lemma rep_rows e s h s' : ed_rep shell_at e s -> (forall x, x < shell_at \/ line <= x -> sh_mem s' !! x = sh_mem s !! x) ->
  mapped (sh_mem s') (row 0) 400 -> (length h <= 5)%nat ->
  (forall i l, h !! i = Some l -> holds (sh_mem s') (row (Z.of_nat i)) (padded 80 l) /\ (0 < length l <= 79)%nat /\ printable l) ->
  sh_count s' = Z.of_nat (length h) -> sh_current s' = Z.of_nat (length h) -> sh_position s' = sh_position s -> sh_curpos s' = sh_curpos s ->
  sh_stat s' = sh_stat s -> sh_echo s' = sh_echo s -> sh_prompt s' = sh_prompt s -> sh_prompt_mode s' = sh_prompt_mode s ->
  ed_rep shell_at (mkEditor (ed_before e) (ed_after e) h (length h)) s'.
Proof.
  intros R F Hm Hn Hh En Ec Ep Eq Es Ee Epr Epm. split; rewrite ?Ep, ?Eq, ?Es, ?Ee; auto; try (apply R).
  - eapply holds_sub; [apply (er_line _ _ _ R)|]. intros x Hx. apply F. right.
    unfold Shell.line, FINSH_CMD_SIZE, FINSH_HISTORY_LINES in *. lia.
  - pose proof (er_prompt _ _ _ R) as H. unfold finsh_get_prompt in *. rewrite Epr, Epm. exact H.
  - pose proof (er_room _ _ _ R) as H. unfold finsh_get_prompt in *. rewrite Epr, Epm. exact H.
Qed.

Definition rows_step (s s' : finsh_shell) : Prop := forall x, x < shell_at \/ line <= x -> sh_mem s' !! x = sh_mem s !! x.

(** What the line needs to become the last row of the history. *)
Lemma rows_snoc m m' h l : (forall i x, h !! i = Some x -> holds m (row (Z.of_nat i)) (padded 80 x) /\ (0 < length x <= 79)%nat /\ printable x) ->
  (forall x, x < row (Z.of_nat (length h)) -> m' !! x = m !! x) -> holds m' (row (Z.of_nat (length h))) (padded 80 l) ->
  (0 < length l <= 79)%nat -> printable l ->
  forall i x, (h ++ [l]) !! i = Some x -> holds m' (row (Z.of_nat i)) (padded 80 x) /\ (0 < length x <= 79)%nat /\ printable x.
Proof.
  intros H F Hl Hn Hp i x E. apply lookup_app_Some in E as [E|[Hi E]].
  - destruct (H i x E) as (H1 & H2 & H3). split; [|auto]. pose proof (lookup_lt_Some _ _ _ E). eapply holds_sub; [exact H1|].
    intros y Hy. rewrite padded_length in Hy by lia. apply F. unfold Shell.cmd_history, FINSH_CMD_SIZE in *. lia.
  - apply list_lookup_singleton_Some in E as [E <-]. replace i with (length h) by lia. auto.
Qed.

Lemma last_row e s : ed_rep shell_at e s -> ed_hist e <> [] -> exists c,
  rt_memcmp (row (sh_count s - 1)) line FINSH_CMD_SIZE (sh_mem s) = Some (c, sh_mem s) /\ (c = 0 <-> last (ed_hist e) = Some (ed_text e)).
Proof.
  intros R Hne. destruct (er_count _ _ _ R) as [-> _]. rewrite last_lookup. destruct (ed_hist e) as [|h0 hs] eqn:Eh; [contradiction|]. rewrite <- Eh.
  destruct (lookup_lt_is_Some_2 (ed_hist e) (pred (length (ed_hist e)))) as [h E]; [rewrite Eh; cbn; lia|]. rewrite E.
  destruct (er_hist _ _ _ R _ _ E) as (H1 & H2 & H3).
  replace (Z.of_nat (length (ed_hist e)) - 1) with (Z.of_nat (pred (length (ed_hist e)))) by (rewrite Eh; cbn; lia).
  destruct (row_cmp _ _ h (ed_text e) H1 (er_line _ _ _ R) H3 (er_text _ _ _ R)) as (c & Ec & Hc); [lia|apply (er_len _ _ _ R)|].
  exists c. split; [exact Ec|]. rewrite Hc. split; congruence.
Qed.

Definition pushes (e : editor) (s : finsh_shell) (h : list (list Z)) (r : option (unit * finsh_shell)) : Prop :=
  exists s', r = Some (tt, s') /\ ed_rep shell_at (mkEditor (ed_before e) (ed_after e) h (length h)) s' /\ sh_out s' = sh_out s /\ rows_step s s'.

(** Nothing is stored. *)
Lemma keep_rows e s : ed_rep shell_at e s -> pushes e s (ed_hist e) (set_current (sh_count s) s).
Proof.
  intros R. destruct (er_count _ _ _ R) as [En Hn]. eexists. split; [reflexivity|]. split; [|split; [reflexivity|intros x _; reflexivity]].
  apply (rep_rows e s); try reflexivity; try assumption; try apply R.
  - cbn. rewrite En. apply u16_sum. lia.
Qed.

(** The rows are full: they move up. *)
Lemma hist_push_full e s : ed_rep shell_at e s -> length (ed_hist e) = 5%nat -> ed_text e <> [] ->
  pushes e s (drop 1 (ed_hist e) ++ [ed_text e])
    ((mem (shift_history shell_at (Z.to_nat (FINSH_HISTORY_LINES - 1)) 0;;
           rt_memset (row (FINSH_HISTORY_LINES - 1)) 0 FINSH_CMD_SIZE;;
           rt_memcpy (row (FINSH_HISTORY_LINES - 1)) line (sh_position s));;
      st_modify (fun s => s <| sh_count := FINSH_HISTORY_LINES |>);;
      s ← st_get; set_current (sh_count s)) s).
Proof.
  intros R E5 Ht. pose proof (er_len _ _ _ R) as Hl. pose proof (er_rows _ _ _ R) as Hr.
  assert (length (drop 1 (ed_hist e)) = 4%nat) as E4 by (rewrite length_drop; lia).
  change FINSH_HISTORY_LINES with 5. change (5 - 1) with 4. change (Z.to_nat 4) with 4%nat.
  assert (row 4 = row 0 + 320) as E0 by (unfold Shell.cmd_history, FINSH_CMD_SIZE; lia).
  assert (line = row 0 + 400) as El by (unfold Shell.cmd_history, Shell.line, FINSH_CMD_SIZE, FINSH_HISTORY_LINES; lia).
  assert (row 0 = shell_at) as Es by (unfold Shell.cmd_history; lia).
  destruct (shift_history_eq shell_at 4 0 (sh_mem s)) as (m1 & Em1 & G1 & F1); [exact Hr|].
  destruct (put_row_eq shell_at 4 (ed_text e) m1) as (m2 & Em2 & Hm2 & F2); [..|lia|lia|].
  { intros x Hx. rewrite F1 by lia. apply Hr. lia. }
  { destruct (proj1 (holds_parts shell_at _ (ed_text e) [] 81) ltac:(rewrite app_nil_r; apply (er_line _ _ _ R))) as (H & _).
    eapply holds_sub; [exact H|]. intros x Hx. apply F1. lia. }
  eexists. split.
  { erewrite bind_eq; [reflexivity|]. apply mem_eq. erewrite bind_eq by exact Em1. rewrite (er_position _ _ _ R). exact Em2. }
  split; [|split; [reflexivity|]].
  2: { intros x Hx. cbn. rewrite F2, F1 by lia. reflexivity. }
  apply (rep_rows e s); rewrite ?length_app, ?E4; try reflexivity; [exact R|..].
  - intros x Hx. cbn. rewrite F2, F1 by lia. reflexivity.
  - intros x Hx. cbn. destruct (decide (x < row 4)); [|apply holds_mapped in Hm2; apply Hm2; rewrite padded_length by lia; lia].
    rewrite F2, G1 by lia. apply Hr. lia.
  - apply (rows_snoc m1); rewrite ?E4; [|intros x Hx; apply F2; change (Z.of_nat 4) with 4 in Hx; lia|exact Hm2| |apply (er_text _ _ _ R)].
    + intros i x E. pose proof (lookup_lt_Some _ _ _ E). rewrite lookup_drop in E. destruct (er_hist _ _ _ R _ _ E) as (H1 & H2 & H3).
      split; [|auto]. intros k y Hk. pose proof (lookup_lt_Some _ _ _ Hk) as Hk'. rewrite padded_length in Hk' by lia. apply H1 in Hk.
      assert (row (Z.of_nat (1 + i)) = row (Z.of_nat i) + 80 /\ row 0 <= row (Z.of_nat i) <= row 0 + 240) as [Ei ?]
        by (unfold Shell.cmd_history, FINSH_CMD_SIZE; lia).
      rewrite G1 by lia. rewrite <- Hk. f_equal. lia.
    + destruct (ed_text e); [contradiction|]. cbn [length] in *. lia.
Qed.

(** There is room for another row. *)
Lemma hist_push_room e s : ed_rep shell_at e s -> (length (ed_hist e) < 5)%nat -> ed_text e <> [] ->
  pushes e s (ed_hist e ++ [ed_text e])
    (((set_current (sh_count s);;
       mem (rt_memset (row (sh_count s)) 0 FINSH_CMD_SIZE;; rt_memcpy (row (sh_count s)) line (sh_position s));;
       st_modify (fun s => s <| sh_count := u16 (sh_count s + 1) |>));;
      s ← st_get; set_current (sh_count s)) s).
Proof.
  intros R Hn Ht. pose proof (er_len _ _ _ R) as Hl. pose proof (er_rows _ _ _ R) as Hr. destruct (er_count _ _ _ R) as [En _].
  rewrite En. set (n := Z.of_nat (length (ed_hist e))) in *.
  assert (row 0 <= row n <= row 0 + 320) as E0 by (unfold Shell.cmd_history, FINSH_CMD_SIZE; lia).
  assert (line = row 0 + 400) as El by (unfold Shell.cmd_history, Shell.line, FINSH_CMD_SIZE, FINSH_HISTORY_LINES; lia).
  assert (row 0 = shell_at) as Es by (unfold Shell.cmd_history; lia).
  destruct (put_row_eq shell_at n (ed_text e) (sh_mem s)) as (m2 & Em2 & Hm2 & F2); [..|lia|lia|].
  { intros x Hx. apply Hr. lia. }
  { destruct (proj1 (holds_parts shell_at _ (ed_text e) [] 81) ltac:(rewrite app_nil_r; apply (er_line _ _ _ R))) as (H & _). exact H. }
  eexists. split.
  { erewrite bind_eq; [reflexivity|]. erewrite bind_eq by reflexivity. erewrite bind_eq; [reflexivity|]. apply mem_eq.
    rewrite (er_position _ _ _ R). exact Em2. }
  split; [|split; [reflexivity|]].
  2: { intros x Hx. cbn. rewrite F2 by lia. reflexivity. }
  assert (length (ed_hist e ++ [ed_text e]) = S (length (ed_hist e))) as E1 by (rewrite length_app; cbn; lia).
  apply (rep_rows e s); rewrite ?E1; try reflexivity; [exact R|..]; cbn; rewrite ?En, ?u16_sum by (rewrite ?u16_sum; lia); try lia.
  - intros x Hx. rewrite F2 by lia. reflexivity.
  - intros x Hx. destruct (decide (row n <= x < row n + 80)) as [Hi|Hi]; [|rewrite F2 by lia; apply Hr; lia].
    apply holds_mapped in Hm2. apply Hm2. rewrite padded_length by lia. lia.
  - apply (rows_snoc (sh_mem s)); [apply (er_hist _ _ _ R)| |exact Hm2| |apply (er_text _ _ _ R)].
    + intros x Hx. fold n in Hx. apply F2. lia.
    + destruct (ed_text e); [contradiction|]. cbn [length] in *. lia.
Qed.

(** [shell_push_history] refines [ed_push]. *)
Lemma push_history_pushes e s : ed_rep shell_at e s -> pushes e s (ed_hist (ed_push e)) (shell_push_history shell_at s).
Proof.
  intros R. destruct (er_count _ _ _ R) as [En Hn]. pose proof (er_position _ _ _ R) as Ep.
  unfold shell_push_history, ed_push, push_line. cbn [ed_hist]. erewrite bind_eq by reflexivity.
  destruct (decide (ed_text e = [])) as [Et|Et].
  { rewrite Ep, Et. erewrite bind_eq by reflexivity. erewrite bind_eq by reflexivity. apply keep_rows, R. }
  rewrite (proj2 (Z.eqb_neq _ _)) by (rewrite Ep; destruct (ed_text e); [contradiction|cbn; lia]). cbn [negb when]. rewrite En. change FINSH_HISTORY_LINES with 5.
  pose proof (last_row e s R) as Hcmp. rewrite En in Hcmp.
  destruct (Z.leb_spec 5 (Z.of_nat (length (ed_hist e)))) as [H5|H5]; [|destruct (ed_hist e) as [|h0 hs] eqn:Eh].
  - assert (length (ed_hist e) = 5%nat) as E5 by lia. rewrite E5 in Hcmp. destruct Hcmp as (c & Ec & Hc); [intros E0; rewrite E0 in E5; discriminate|].
    rewrite bind_assoc. erewrite bind_eq by (apply mem_read; exact Ec). destruct (Z.eqb_spec c 0) as [E0|E0]; cbn [negb when].
    + rewrite decide_True by (apply Hc, E0). erewrite bind_eq by reflexivity. apply keep_rows, R.
    + rewrite decide_False by (intros X; apply E0, Hc, X). rewrite decide_False by lia. rewrite bind_assoc. apply (hist_push_full e s R E5 Et).
  - rewrite decide_False by discriminate. pose proof (hist_push_room e s R ltac:(rewrite Eh; cbn; lia) Et) as H. rewrite Eh, En in H.
    rewrite bind_assoc. erewrite bind_eq by reflexivity. cbn [negb when Z.eqb]. rewrite decide_True by (cbn; lia). exact H.
  - destruct Hcmp as (c & Ec & Hc); [discriminate|]. rewrite (proj2 (Z.eqb_neq _ _)) by (cbn; lia).
    rewrite bind_assoc. erewrite bind_eq by (apply mem_read; exact Ec). destruct (Z.eqb_spec c 0) as [E0|E0]; cbn [negb when].
    + rewrite decide_True by (apply Hc, E0). erewrite bind_eq by reflexivity. rewrite <- Eh. apply keep_rows, R.
    + rewrite decide_False by (intros X; apply E0, Hc, X). rewrite decide_True by lia.
      pose proof (hist_push_room e s R ltac:(rewrite Eh; lia) Et) as H. rewrite Eh, En in H. exact H.
Qed.

(** ** Enter *)

(** A command leaves the shell's data alone, and the cursor behind what stands in the
    last row. *)
Record tidy (s s' : finsh_shell) : Prop := {
  td_rows : forall x, shell_at <= x < line -> sh_mem s' !! x = sh_mem s !! x;
  td_line : mapped (sh_mem s') line 81;
  td_shell : sh_stat s' = sh_stat s /\ sh_echo s' = sh_echo s /\ sh_prompt_mode s' = sh_prompt_mode s /\ sh_prompt s' = sh_prompt s /\
    sh_current s' = sh_current s /\ sh_count s' = sh_count s;
  td_row : exists pre, show (sh_out s') (mkScreen [] 0 0) = mkScreen pre (length pre) 0;
}.

(** The state after the command, with an empty line. *)
Lemma rep_cleared e s s2 s3 : ed_rep shell_at e s -> tidy s s2 -> sh_mem s3 = write_list line (replicate 81 0) (sh_mem s2) ->
  sh_position s3 = 0 -> sh_curpos s3 = 0 -> sh_stat s3 = sh_stat s2 -> sh_echo s3 = sh_echo s2 -> sh_prompt_mode s3 = sh_prompt_mode s2 ->
  sh_prompt s3 = sh_prompt s2 -> sh_current s3 = sh_current s2 -> sh_count s3 = sh_count s2 ->
  ed_rep shell_at (mkEditor [] [] (ed_hist e) (ed_cur e)) s3.
Proof.
  intros R [T1 _ (A1 & A2 & A3 & A4 & A5 & A6) _] Em Ep Ec B1 B2 B3 B4 B5 B6.
  assert (forall x, shell_at <= x < line -> sh_mem s3 !! x = sh_mem s !! x) as F by (intros x Hx; rewrite Em, write_outside by lia; apply T1, Hx).
  pose proof (er_count _ _ _ R) as Hn. split; unfold ed_text; cbn [ed_before ed_after ed_hist ed_cur app length];
    rewrite ?B1, ?B2, ?B5, ?B6, ?A1, ?A2, ?A5, ?A6; try assumption; try apply R.
  - rewrite Em. apply write_holds.
  - lia.
  - constructor.
  - intros x Hx. rewrite F; [apply (er_rows _ _ _ R), Hx|]. unfold Shell.cmd_history, Shell.line, FINSH_CMD_SIZE, FINSH_HISTORY_LINES in *. lia.
  - intros i h E. destruct (er_hist _ _ _ R i h E) as (H1 & H2 & H3). split; [|auto]. pose proof (lookup_lt_Some _ _ _ E).
    eapply holds_sub; [exact H1|]. intros x Hx. rewrite padded_length in Hx by lia. apply F.
    unfold Shell.cmd_history, Shell.line, FINSH_CMD_SIZE, FINSH_HISTORY_LINES in *. lia.
  - pose proof (er_prompt _ _ _ R) as H. unfold finsh_get_prompt in *. rewrite B3, B4, A3, A4. exact H.
  - pose proof (er_room _ _ _ R) as H. unfold finsh_get_prompt in *. rewrite B3, B4, A3, A4. exact H.
Qed.

(** C33: on Enter the line goes into the history (unless it is empty or repeats the last
    row; the oldest of five makes room), [msh_exec] gets the line as it is, on a new row,
    and when the command returns with the shell's data intact, an empty line follows
    behind a new prompt and the history keeps its lines. *)
Theorem shell_enter e s : ed_rep shell_at e s -> shows e s ->
  exists s1, (shell_push_history shell_at;; puts newline) s = Some (tt, s1) /\ ed_rep shell_at (ed_push e) s1 /\ show (sh_out s1) (mkScreen [] 0 0) = mkScreen [] 0 0 /\ rows_step s s1 /\
  forall r s2, msh_exec table call line (Z.of_nat (length (ed_text e))) s1 = Some (r, s2) -> tidy s1 s2 ->
  exists s3, finsh_chars shell_at table call [13] s = Some (tt, s3) /\
    ed_rep shell_at (mkEditor [] [] (ed_hist (ed_push e)) (ed_cur (ed_push e))) s3 /\ shows (mkEditor [] [] (ed_hist (ed_push e)) (ed_cur (ed_push e))) s3.
Proof.
  intros R (pre & n & Hs). destruct (push_history_pushes e s R) as (s0 & E0 & R0 & Eo & F0).
  exists (moved_to (sh_mem s0) newline s0).
  assert (ed_rep shell_at (ed_push e) (moved_to (sh_mem s0) newline s0)) as R1 by (destruct R0; split; assumption).
  split; [erewrite bind_eq by exact E0; apply (puts_short newline); cbn; lia|]. split; [exact R1|]. split.
  { change (sh_out (moved_to (sh_mem s0) newline s0)) with (sh_out s0 ++ newline). rewrite Eo, show_app, Hs. reflexivity. }
  split; [exact F0|]. intros r s2 Ex T. destruct (td_row _ _ T) as [row2 Hrow].
  assert (length (finsh_get_prompt s2) <= 126)%nat as Hroom.
  { pose proof (er_room _ _ _ R1) as H. destruct (td_shell _ _ T) as (_ & _ & A3 & A4 & _). unfold finsh_get_prompt in *. rewrite A3, A4. lia. }
  eexists. split; [apply single_key; [apply R|lia|]|].
  { change (handle_char shell_at table call 13 s) with (enter_key shell_at table call s). unfold enter_key.
    erewrite bind_eq by exact E0. erewrite bind_eq by reflexivity. rewrite (proj2 (Z.eqb_neq _ _) (er_echo _ _ _ R0)). cbn [negb when].
    erewrite bind_eq by (apply (puts_short newline); cbn; lia). rewrite (er_position _ _ _ R0). erewrite bind_eq by exact Ex.
    unfold put_prompt at 1. rewrite bind_assoc. erewrite bind_eq by reflexivity. erewrite bind_eq by (apply puts_short, Hroom). erewrite bind_eq.
    2: { apply mem_eq. change (FINSH_CMD_SIZE + 1) with 81. rewrite (proj2 (memset_versions_agree _ _ 81 _ ltac:(lia))), decide_True by apply (td_line _ _ T). reflexivity. }
    reflexivity. }
  split; [eapply (rep_cleared _ _ s2); [exact R1|exact T|reflexivity..]|].
  exists (row2 ++ finsh_get_prompt s2), O. match goal with |- context [sh_out ?t] => change (sh_out t) with (sh_out s2 ++ finsh_get_prompt s2) end.
  rewrite show_app, Hrow. pose proof (show_text (finsh_get_prompt s2) row2 []) as X. rewrite !app_nil_r in X. rewrite X.
  - rewrite drop_nil, length_app. cbn [ed_text ed_before ed_after app length]. rewrite !app_nil_r, Nat.add_0_r. reflexivity.
  - pose proof (er_prompt _ _ _ R1) as H. destruct (td_shell _ _ T) as (_ & _ & A3 & A4 & _). unfold finsh_get_prompt in *. rewrite A3, A4. exact H.
Qed.
End History.

(** "led" and Enter, where the command does not exist. *)
Lemma shell_enter_witness : exists s s', ed_rep 1000 (mkEditor [108; 101; 100] [] [] 0) s /\
  finsh_chars 1000 [] shell_call [13] s = Some (tt, s') /\
  ed_rep 1000 (mkEditor [] [] [[108; 101; 100]] 1) s' /\ shows (mkEditor [] [] [[108; 101; 100]] 1) s'.
Proof.
  destruct (shell_starts 1000 boot_shell boot_mapped eq_refl I) as (s0 & _ & R0 & Hs0).
  destruct (keys_edit 1000 [] shell_call [Char 108; Char 101; Char 100] (mkEditor [] [] [] 0) s0 R0 Hs0) as (s & _ & R & Hs & _); [cbn; lia|].
  destruct (shell_enter 1000 [] shell_call (mkEditor [108; 101; 100] [] [] 0) s R Hs) as (s1 & _ & R1 & Hs1 & _ & H).
  pose proof (line_string 1000 (sh_mem s1) [] [108; 101; 100] (er_line _ _ _ R1) (er_text _ _ _ R1) ltac:(cbn; lia)) as Hl. rewrite Z.add_0_r in Hl.
  pose proof (msh_exec_eq [] shell_call (fun _ => []) s1 _ _ Hl (Forall_nil_2 _)) as X. cbv zeta in X. rewrite decide_False in X by (vm_compute; discriminate).
  destruct X as (m & [F Hm] & E). destruct (H (-1) _ E) as (s3 & E3 & R3 & Hs3).
  - split.
    + intros x Hx. apply F. lia.
    + intros x Hx. apply Hm. replace x with (line 1000 + (x - line 1000)) by lia. eapply line_mapped; [exact R1|lia].
    + repeat split.
    + exists []. change (sh_out (moved_to _ ?o _)) with (sh_out s1 ++ o). rewrite show_app, Hs1. reflexivity.
  - exists s, s3. split; [exact R|]. split; [exact E3|]. split; [exact R3|exact Hs3].
Defined.
