(* ===== verification/ShellDeviceProps.v ===== *)
(** * Properties of the console device

    Changing the device of the shell moves one use from the old device to the new one,
    and reading a character ends or sleeps. *)

From stdpp Require Import gmap.
From S2P Require Import Prelude Kernel RtList Bytes KString KStringProps Object ObjectProps Device DeviceUse Serial SerialProps DeviceProps.
From S2P Require Import KStdio Msh MshProps Shell ShellProps ShellDevice.
Open Scope rt_scope.

(** ** Devices do not touch each other *)

(** The names of the objects, and the records and the words of the devices other than [dev],
    are those of [s]. *)
Definition others (dev : Z) (s s' : devices) : Prop :=
  ds_reg s' = ds_reg s /\ forall a, a <> dev -> ds_dev s' !! a = ds_dev s !! a /\ ds_serial s' !! a = ds_serial s !! a.

Class Isolated (drv : drivers) (dev : Z) : Prop := {
  isolated_init f s : preserves (others dev s) (call_init drv f dev);
  isolated_open f oflag s : preserves (others dev s) (call_open drv f dev oflag);
  isolated_close f s : preserves (others dev s) (call_close drv f dev);
}.

Section Isolation.
Context (drv : drivers) (dev : Z) `{Isolated drv dev} (s : devices).

Lemma get_dev_others a : preserves (others dev s) (get_dev a).
Proof. unfold get_dev. preserve. Qed.
Lemma upd_dev_others f : preserves (others dev s) (upd_dev dev f).
Proof.
  unfold upd_dev. apply preserves_bind; [apply get_dev_others|]. intros d. apply preserves_modify. intros s1 [E1 E2]. split; [exact E1|].
  intros a Ha. cbn. rewrite lookup_insert_ne by congruence. apply E2, Ha.
Qed.
Lemma assert_others a : preserves (others dev s) (assert_device a).
Proof.
  unfold assert_device, rt_object_get_type. apply preserves_bind; [apply preserves_assert|]. intros _.
  apply preserves_bind; [|intros t; apply preserves_assert]. intros s1 x s2 [E1 E2] E. unfold in_reg in E.
  destruct ((rt_assert _;; _) (ds_reg s1)) as [[y r]|] eqn:Er; [|discriminate]. injection E as <- <-.
  assert (r = ds_reg s1) as ->; [|destruct s1; split; assumption]. inv_bind Er. unfold rt_assert in Hs. destruct (negb (a =? 0)); [|discriminate].
  injection Hs as <- <-. inv_bind Er. injection Er as <- <-. unfold in_mem in Hs. destruct (ld (ob_type a) (rg_mem (ds_reg s1))) as [[z m]|] eqn:El; [|discriminate].
  injection Hs as <- <-. unfold ld in El. cbn in El. unfold mbind, st_bind, st_get in El. cbn in El. destruct (rg_mem (ds_reg s1) !! ob_type a); [|discriminate].
  injection El as <- <-. destruct (ds_reg s1). reflexivity.
Qed.
#[local] Hint Resolve get_dev_others upd_dev_others assert_others isolated_init isolated_open isolated_close : rt_pres.

Lemma open_others oflag : preserves (others dev s) (rt_device_open drv dev oflag).
Proof. unfold rt_device_open, activate, open_active, open_result. preserve. Qed.
Lemma close_others : preserves (others dev s) (rt_device_close drv dev).
Proof. unfold rt_device_close. preserve. Qed.
Lemma set_rx_others x : preserves (others dev s) (rt_device_set_rx_indicate dev x).
Proof. unfold rt_device_set_rx_indicate. preserve. Qed.
End Isolation.

Lemma rep_others a inv dev sa x s s' : others dev s s' -> a <> dev -> dev_rep a inv sa x s -> dev_rep a inv sa x s'.
Proof.
  intros [E1 E2] Ha (d & [R Hd I] & U). destruct (E2 a Ha) as [Ed Es]. exists d. split; [|exact U].
  split; [|rewrite Ed; exact Hd|rewrite Es; exact I]. destruct R as (Hz & R). split; [exact Hz|rewrite E1; exact R].
Qed.
Lemma others_refl dev s : others dev s s.
Proof. split; [reflexivity|auto]. Qed.

Lemma set_rx_step drv dev inv `{Polite drv dev inv} sa x s f : dev_rep dev inv sa x s ->
  exists s', rt_device_set_rx_indicate dev f s = Some (RT_EOK, s') /\ dev_rep dev inv sa x s' /\ dv_rx_indicate <$> ds_dev s' !! dev = Some f.
Proof.
  intros (d & A & U). destruct (at_update drv dev inv d s _ A (core_rx_indicate d f)) as (s' & E & A' & K). exists s'.
  unfold rt_device_set_rx_indicate. erewrite bind_eq by (apply assert_device_eq, A). erewrite bind_eq by exact E. split; [reflexivity|].
  split; [exists (d <| dv_rx_indicate := f |>); split; [exact A'|destruct U; split; assumption]|]. rewrite (at_record _ _ _ _ A'). reflexivity.
Qed.

Lemma on_devices_eq {A} (m : DV A) c x d : m (cn_devices c) = Some (x, d) -> on_devices m c = Some (x, c <| cn_devices := d |>).
Proof. intros H. unfold on_devices. rewrite H. reflexivity. Qed.
Lemma on_devices_read {A} (m : DV A) c x : m (cn_devices c) = Some (x, cn_devices c) -> on_devices m c = Some (x, c).
Proof. intros H. rewrite (on_devices_eq m c x _ H). destruct c. reflexivity. Qed.
Lemma on_shell_eq {A} (m : SH A) c x s : m (cn_shell c) = Some (x, s) -> on_shell m c = Some (x, c <| cn_shell := s |>).
Proof. intros H. unfold on_shell. rewrite H. reflexivity. Qed.

(** The session behind a successful open and behind a close. *)
Lemma opened_session sa oflag x y : session_step sa (Open oflag) RT_EOK x y -> y = mkSession (S (ss_users x)) true.
Proof. intros H. inversion H; subst; try reflexivity; try discriminate; contradiction. Qed.
Lemma closed_session sa r n o y : session_step sa Close r (mkSession (S n) o) y -> ss_users y = n.
Proof. intros H. inversion H; subst; reflexivity. Qed.

(** ** Changing the device *)

Section Console.
Context (drv : drivers) (shell_at rx_ind ch : Z).
Abbreviation line := (Shell.line shell_at).

(** The old device loses a use. *)
Lemma close_old_step old io sb n o s : Polite drv old io -> Isolated drv old -> dev_rep old io sb (mkSession (S n) o) s ->
  exists s', (rt_device_close drv old;; rt_device_set_rx_indicate old None;; mret tt) s = Some (tt, s') /\
    (exists o', dev_rep old io sb (mkSession n o') s') /\ others old s s'.
Proof.
  intros P I D. destruct (close_step drv old io sb (mkSession (S n) o) s D) as (r & s1 & y & E1 & St & D1 & _).
  apply closed_session in St as <-. destruct (set_rx_step drv old io sb y s1 None D1) as (s2 & E2 & D2 & _). exists s2. split; [|split].
  - erewrite bind_eq by exact E1. erewrite bind_eq by exact E2. reflexivity.
  - exists (ss_open y). destruct y. exact D2.
  - eapply set_rx_others; [|exact E2]. eapply close_others; [apply I|apply others_refl|exact E1].
Qed.

(** The line is empty, the memory outside it as before. *)
Record cleared (s s' : finsh_shell) : Prop := {
  cl_line : holds (sh_mem s') line (replicate 81 0);
  cl_position : sh_position s' = 0 /\ sh_curpos s' = 0;
  cl_mem : forall x, x < line \/ line + 81 <= x -> sh_mem s' !! x = sh_mem s !! x;
  cl_out : sh_out s' = sh_out s;
}.

(** The part of [finsh_set_device] behind [rt_device_open]. *)
Lemma switch_step c dev inv `{Polite drv dev inv} sa x old io sb n o : mapped (sh_mem (cn_shell c)) line 81 ->
  dev_rep dev inv sa x (cn_devices c) -> dev <> old -> Isolated drv dev ->
  (old <> 0 -> Polite drv old io /\ Isolated drv old /\ dev_rep old io sb (mkSession (S n) o) (cn_devices c)) ->
  exists c', (when (negb (old =? 0)) (on_devices (rt_device_close drv old);; on_devices (rt_device_set_rx_indicate old None);; mret tt);;
      on_shell (mem (rt_memset line 0 (FINSH_CMD_SIZE + 1)));; on_shell (set_position 0;; set_curpos 0);;
      st_modify (fun c => c <| cn_device := dev |>);; on_devices (rt_device_set_rx_indicate dev (Some rx_ind));; mret tt) c = Some (tt, c') /\
    cn_device c' = dev /\ dev_rep dev inv sa x (cn_devices c') /\ dv_rx_indicate <$> ds_dev (cn_devices c') !! dev = Some (Some rx_ind) /\
    (old <> 0 -> exists o', dev_rep old io sb (mkSession n o') (cn_devices c')) /\ cleared (cn_shell c) (cn_shell c').
Proof.
  intros Hm D Hne I Ho.
  assert (exists s1, when (negb (old =? 0)) (on_devices (rt_device_close drv old);; on_devices (rt_device_set_rx_indicate old None);; mret tt) c =
      Some (tt, c <| cn_devices := s1 |>) /\ dev_rep dev inv sa x s1 /\ (old <> 0 -> exists o', dev_rep old io sb (mkSession n o') s1)) as (s1 & E1 & D1 & O1).
  { destruct (Z.eqb_spec old 0) as [E0|E0]; cbn [negb when].
    - exists (cn_devices c). split; [destruct c; reflexivity|]. split; [exact D|contradiction].
    - destruct (Ho E0) as (P & Io & Do). destruct (close_old_step old io sb n o _ P Io Do) as (s1 & E1 & Do1 & Fr). exists s1.
      split; [|split; [eapply rep_others; [exact Fr|exact Hne|exact D]|auto]].
      inv_bind E1. inv_bind E1. injection E1 as ->. erewrite bind_eq by (apply on_devices_eq; exact Hs).
      erewrite bind_eq by (apply on_devices_eq; exact Hs0). reflexivity. }
  destruct (set_rx_step drv dev inv sa x s1 (Some rx_ind) D1) as (s2 & E2 & D2 & Hrx).
  eexists. split.
  - erewrite bind_eq by exact E1. erewrite bind_eq.
    2: { apply on_shell_eq, mem_eq. change (FINSH_CMD_SIZE + 1) with 81. rewrite (proj2 (memset_versions_agree _ _ 81 _ ltac:(lia))), decide_True by exact Hm. reflexivity. }
    erewrite bind_eq by (apply on_shell_eq; reflexivity). erewrite bind_eq by reflexivity.
    erewrite bind_eq by (apply on_devices_eq; exact E2). reflexivity.
  - split; [reflexivity|]. split; [exact D2|]. split; [exact Hrx|]. split.
    + intros E0. destruct (O1 E0) as [o' Do]. exists o'. eapply rep_others; [|exact (not_eq_sym Hne)|exact Do].
      eapply set_rx_others; [apply others_refl|exact E2].
    + split; [apply write_holds|split; reflexivity| |reflexivity]. intros y Hy. cbn. apply write_outside. rewrite length_replicate. change (Z.to_nat 81) with 81%nat. lia.
Qed.

(** C38: [finsh_set_device] prints a message for a name without a device and does nothing
    for the device that the shell has; otherwise it opens the new device, and when that
    succeeds the new device has one user more and notifies the shell, the old one has one
    user less, and the line is empty; when the open fails nothing else changes. *)
Theorem set_device_switches c L name nm io sb n o : reg_rep L (ds_reg (cn_devices c)) -> rg_nest (ds_reg (cn_devices c)) = 0 ->
  cstr (rg_mem (ds_reg (cn_devices c))) name nm -> name <> 0 -> mapped (sh_mem (cn_shell c)) line 81 ->
  let old := cn_device c in
  (old <> 0 -> Polite drv old io /\ Isolated drv old /\ dev_rep old io sb (mkSession (S n) o) (cn_devices c)) ->
  match List.find (has_name (ds_reg (cn_devices c)) nm) (L DEV) with
  | None => finsh_set_device drv shell_at rx_ind name c =
      Some (tt, c <| cn_shell := moved_to (sh_mem (cn_shell c)) (console_text (no_such_device ++ nm ++ newline)) (cn_shell c) |>)
  | Some dev =>
      if decide (dev = old) then finsh_set_device drv shell_at rx_ind name c = Some (tt, c) else
      forall inv sa x, Polite drv dev inv -> Isolated drv dev -> dev_rep dev inv sa x (cn_devices c) -> (ss_users x < 255)%nat ->
      exists r d c', rt_device_open drv dev console_oflag (cn_devices c) = Some (r, d) /\
        finsh_set_device drv shell_at rx_ind name c = Some (tt, c') /\
        if r =? RT_EOK then
          cn_device c' = dev /\ dev_rep dev inv sa (mkSession (S (ss_users x)) true) (cn_devices c') /\
          dv_rx_indicate <$> ds_dev (cn_devices c') !! dev = Some (Some rx_ind) /\
          (old <> 0 -> exists o', dev_rep old io sb (mkSession n o') (cn_devices c')) /\ cleared (cn_shell c) (cn_shell c')
        else c' = c <| cn_devices := d |>
  end.
Proof.
  intros R Hn Hs Hz Hm old Ho. unfold finsh_set_device. pose proof (device_find_eq L (cn_devices c) name nm R Hn Hs Hz) as Ef.
  destruct (List.find _ _) as [dev|]; erewrite bind_eq by (apply on_devices_read; exact Ef); cbv beta iota.
  2: { erewrite bind_eq by (apply on_devices_read, in_reg_read, in_mem_read, string_at_eq, Hs). apply on_shell_eq, puts_eq. }
  erewrite bind_eq by reflexivity. cbv zeta. fold old. destruct (decide (dev = old)) as [->|Hne]; [rewrite Z.eqb_refl; reflexivity|].
  rewrite (proj2 (Z.eqb_neq _ _) Hne). intros inv sa x P I D Hx.
  destruct (open_step drv dev inv sa x (cn_devices c) console_oflag D) as [(r & d & y & Eo & St & D1 & _)|[Hx' _]]; [|lia].
  assert (others dev (cn_devices c) d) as Fr by (eapply open_others; [apply I|apply others_refl|exact Eo]).
  exists r, d. erewrite bind_eq by (apply on_devices_eq; exact Eo). destruct (Z.eqb_spec r RT_EOK) as [->|]; cbn [when].
  2: { eexists. split; [exact Eo|]. split; reflexivity. }
  apply opened_session in St as ->.
  set (c1 := c <| cn_devices := d |>). destruct (switch_step c1 dev inv sa (mkSession (S (ss_users x)) true) old io sb n o Hm D1 Hne I) as (c' & E & H).
  { intros E0. destruct (Ho E0) as (Po & Io & Do). split; [exact Po|]. split; [exact Io|].
    eapply rep_others; [exact Fr|exact (not_eq_sym Hne)|exact Do]. }
  exists c'. split; [exact Eo|]. split; [exact E|exact H].
Qed.

(** ** Reading a character *)

(** The byte [ch] is memory and not the type of the device. *)
Definition ch_ok (device : Z) (s : devices) : Prop := is_Some (rg_mem (ds_reg s) !! ch) /\ ch <> ob_type device.

Lemma ch_buffer device s : ch_ok device s -> buffer_ok device ch 1 s.
Proof. intros [H1 H2]. split; [lia|]. intros a Ha. replace a with ch by lia. auto. Qed.

(** The result of a run of the loop on [device]. *)
Definition read_ends (device : Z) (inv : driver_inv) (sa : bool) (x : session) (c : console) (r : option (getchar_result * console)) : Prop :=
  exists res c', r = Some (res, c') /\ cn_device c' = cn_device c /\ cn_shell c' = cn_shell c /\ dev_rep device inv sa x (cn_devices c') /\
    match res with Sleeps d => d = device /\ cn_rx c' = 0 | GotChar a => rg_mem (ds_reg (cn_devices c')) !! ch = Some a /\ 0 <= cn_rx c' <= cn_rx c end.

Lemma getchar_loop_eq inv sa x fuel : forall c, Polite drv (cn_device c) inv -> dev_rep (cn_device c) inv sa x (cn_devices c) ->
  ch_ok (cn_device c) (cn_devices c) -> 0 <= cn_rx c -> (Z.to_nat (cn_rx c) < fuel)%nat ->
  read_ends (cn_device c) inv sa x c (getchar_loop drv ch fuel (cn_device c) c).
Proof.
  induction fuel as [|fuel IH]; intros c P D Hb Hr Hf; [lia|]. cbn [getchar_loop].
  destruct (read_step drv (cn_device c) inv sa x (cn_devices c) (-1) ch 1 D (ch_buffer _ _ Hb)) as (r & d & y & E & St & D1 & K).
  assert (y = x) as -> by (inversion St; subst; reflexivity).
  assert (ch_ok (cn_device c) d) as Hb1 by (destruct Hb; split; [apply K; assumption|assumption]).
  erewrite bind_eq by (apply on_devices_eq; exact E).
  destruct (r =? 1).
  - destruct (proj1 Hb1) as [a Ea]. exists (GotChar a), (c <| cn_devices := d |>). split.
    { erewrite bind_eq by (apply on_devices_read, in_reg_read, in_mem_read, ld_eq, Ea). reflexivity. }
    split; [reflexivity|]. split; [reflexivity|]. split; [exact D1|]. split; [exact Ea|]. cbn. lia.
  - erewrite bind_eq by reflexivity. change (cn_rx (c <| cn_devices := d |>)) with (cn_rx c). destruct (Z.ltb_spec 0 (cn_rx c)).
    + erewrite bind_eq by reflexivity. cbn [cn_device]. change (cn_device (c <| cn_devices := d |>)) with (cn_device c). rewrite Z.eqb_refl. cbn [negb].
      set (c1 := c <| cn_devices := d |> <| cn_rx ::= (fun n => n - 1) |>). assert (cn_rx c1 = cn_rx c - 1) as E1 by reflexivity.
      destruct (IH c1 P D1 Hb1 ltac:(lia) ltac:(lia)) as (res & c' & E' & H1 & H2 & H3 & H4). exists res, c'. split; [exact E'|].
      split; [exact H1|]. split; [exact H2|]. split; [exact H3|]. destruct res; [|exact H4]. split; [apply H4|lia].
    + exists (Sleeps (cn_device c)), (c <| cn_devices := d |>). split; [reflexivity|]. split; [reflexivity|]. split; [reflexivity|].
      split; [exact D1|]. split; [reflexivity|]. cbn. lia.
Qed.

(** [finsh_getchar], also when it goes on after a release, ends with a character that
    the driver stored or sleeps without a pending release; after a change of the device
    it reads from the new one. *)
Theorem getchar_ends c inv sa x device : Polite drv (cn_device c) inv -> dev_rep (cn_device c) inv sa x (cn_devices c) ->
  0 <= cn_rx c -> ch_ok (cn_device c) (cn_devices c) ->
  (exists c0, on_devices (in_reg (in_mem (sb ch 0))) c = Some (tt, c0) /\ read_ends (cn_device c) inv sa x c0 (finsh_getchar drv ch c)) /\
  read_ends (cn_device c) inv sa x c (finsh_getchar_resume drv ch device c).
Proof.
  intros P D Hr Hb. pose proof D as (d & A & U). pose proof (proj1 (at_registered _ _ _ _ A)) as Hz. split.
  - set (d0 := (cn_devices c) <| ds_reg ::= (fun r => r <| rg_mem ::= <[ch := 0]> |>) |>). set (c0 := c <| cn_devices := d0 |>).
    assert (on_devices (in_reg (in_mem (sb ch 0))) c = Some (tt, c0)) as E.
    { apply on_devices_eq. unfold in_reg. rewrite (sb_in_mem _ _ _ (proj1 Hb)). reflexivity. }
    exists c0. split; [exact E|]. unfold finsh_getchar. erewrite bind_eq by exact E. erewrite bind_eq by reflexivity.
    change (cn_device c0) with (cn_device c). rewrite (proj2 (Z.eqb_neq _ _) Hz). apply (getchar_loop_eq inv sa x _ c0 P).
    + destruct A as [(_ & t & Ht & Hc) Hd I]. exists d. split; [|exact U]. split; [|exact Hd|exact I]. split; [exact Hz|]. exists t. split; [|exact Hc].
      cbn. rewrite lookup_insert_ne by apply Hb. exact Ht.
    + split; [|apply Hb]. cbn. rewrite lookup_insert_eq. eauto.
    + exact Hr.
    + cbn. lia.
  - unfold finsh_getchar_resume. erewrite bind_eq by reflexivity. destruct (Z.eqb_spec (cn_device c) device) as [<-|Hd]; cbn [negb].
    + apply getchar_loop_eq; try assumption. lia.
    + rewrite (proj2 (Z.eqb_neq _ _) Hz). apply getchar_loop_eq; try assumption. lia.
Qed.
End Console.

(** ** The serial driver *)

Section Serial.
Context (ops : rt_uart_ops) `{Uart ops} (malloc : Z -> option Z) (sizeof : serial_block -> Z) (dev : Z) (s : devices).

Lemma hw_others {A} (m : DV A) : (forall s, exists r h, m s = Some (r, s <| ds_hw := h |>)) -> preserves (others dev s) m.
Proof. intros Hm s1 r s2 O E. destruct (Hm s1) as (r' & h & E'). rewrite E in E'. injection E' as _ ->. exact O. Qed.
Lemma control_others a cmd arg : preserves (others dev s) (op_control ops a cmd arg).
Proof. apply hw_others. intros s1. apply uart_control. Qed.
Lemma get_serial_others a : preserves (others dev s) (get_serial a).
Proof. unfold get_serial. preserve. Qed.
Lemma upd_serial_others f : preserves (others dev s) (upd_serial dev f).
Proof.
  unfold upd_serial. apply preserves_bind; [apply get_serial_others|]. intros x. apply preserves_modify. intros s1 [E1 E2]. split; [exact E1|].
  intros a Ha. cbn. rewrite lookup_insert_ne by congruence. apply E2, Ha.
Qed.
#[local] Hint Resolve get_dev_others upd_dev_others control_others get_serial_others upd_serial_others : rt_pres.

Lemma serial_init_others : preserves (others dev s) (rt_serial_init ops dev).
Proof.
  unfold rt_serial_init. destruct (op_configure ops) as [g|] eqn:E; preserve. apply hw_others. intros s1. eapply uart_configure, E.
Qed.
Lemma serial_open_others oflag : preserves (others dev s) (rt_serial_open ops malloc sizeof dev oflag).
Proof. unfold rt_serial_open, open_rx, open_tx, new_rx_fifo, alloc_block, or_open_flag. preserve. Qed.
Lemma serial_close_others : preserves (others dev s) (rt_serial_close ops dev).
Proof. unfold rt_serial_close, close_mode, free_rx, free_tx, clear_open_flag. preserve. Qed.
End Serial.

(** A UART does not touch another device. *)
Lemma serial_isolated ops `{Uart ops} malloc sizeof control dev : Isolated (serial_drivers ops malloc sizeof control) dev.
Proof.
  split; intros; cbn [call_init call_open call_close serial_drivers]; (destruct (f =? _); [|apply preserves_fail]).
  - apply serial_init_others; assumption.
  - apply serial_open_others; assumption.
  - apply serial_close_others; assumption.
Qed.

(** ** Examples and witnesses *)

(** The UART at 8 is the console, the shell changes to the one at 30. *)
Lemma set_device_switches_witness : exists c c' o', finsh_set_device demo_drivers 1000 77 104 c = Some (tt, c') /\
  cn_device c = 8 /\ dev_rep 8 serial_inv false (mkSession 1 true) (cn_devices c) /\ dev_rep 30 serial_inv false (mkSession 0 false) (cn_devices c) /\
  cn_device c' = 30 /\ dev_rep 8 serial_inv false (mkSession 0 o') (cn_devices c') /\ dev_rep 30 serial_inv false (mkSession 1 true) (cn_devices c').
Proof.
  assert (forall dev, dev <> 0 -> Polite demo_drivers dev serial_inv) as HP by (intros dev Hz; apply serial_polite; [apply demo_uart_ok|discriminate|exact Hz]).
  assert (forall dev, Isolated demo_drivers dev) as HI by (intros dev; apply serial_isolated; apply demo_uart_ok).
  pose proof (HP 8 ltac:(discriminate)) as P8. pose proof (HP 30 ltac:(discriminate)) as P30.
  assert (fst <$> (rt_device_open demo_drivers 8 console_oflag;; rt_device_open demo_drivers 30 console_oflag) demo_uarts = Some RT_EOK) as Eo by (vm_compute; reflexivity).
  assert (fst <$> rt_device_open demo_drivers 8 console_oflag demo_uarts = Some RT_EOK) as Eo8 by (vm_compute; reflexivity).
  destruct (open_step demo_drivers 8 serial_inv false _ _ console_oflag (uarts_ready 8 ltac:(auto))) as [(r & s1 & y & E1 & St & D8 & _)|[? _]]; [|discriminate].
  rewrite E1 in Eo8. injection Eo8 as ->. rewrite (bind_eq _ _ _ _ _ E1) in Eo. apply opened_session in St as ->.
  assert (others 8 demo_uarts s1) as Fr by (eapply open_others; [apply HI|apply others_refl|exact E1]).
  assert (dev_rep 30 serial_inv false (mkSession 0 false) s1) as D30 by (eapply rep_others; [exact Fr|discriminate|apply uarts_ready; auto]).
  set (c := mkConsole boot_shell s1 8 0). destruct uarts_rep as [R Hn]. destruct Fr as [Er _].
  pose proof (set_device_switches demo_drivers 1000 77 c two_uarts 104 _ serial_inv false 0 true ltac:(cbn; rewrite Er; exact R) ltac:(cbn; rewrite Er; exact Hn)
    ltac:(cbn; rewrite Er; exact uarts_name) ltac:(discriminate)
    ltac:(intros x Hx; apply boot_mapped; unfold line, cmd_history, FINSH_CMD_SIZE, FINSH_HISTORY_LINES in *; lia) ltac:(intros _; auto)) as Hsw.
  cbv zeta in Hsw. assert (List.find (has_name (ds_reg (cn_devices c)) [108; 111; 110; 103; 110; 97; 109; 101]) (two_uarts DEV) = Some 30) as Ef.
  { cbn [c cn_devices]. rewrite Er. vm_compute. reflexivity. }
  rewrite Ef, decide_False in Hsw by discriminate.
  destruct (Hsw serial_inv false _ P30 (HI 30) D30 ltac:(cbn; lia)) as (r & d & c' & Eo2 & E & Hr). cbn [c cn_devices] in Eo2. rewrite Eo2 in Eo. injection Eo as ->.
  destruct Hr as (H1 & H2 & _ & H3 & _). destruct (H3 ltac:(discriminate)) as [o' Do]. exists c, c', o'. repeat (split; [first [exact E|reflexivity|exact D8|exact D30|exact H1|exact Do]|]). exact H2.
Defined.

(** The console with a character in its receive buffer: [finsh_getchar] stores it at 60. *)
Definition char_console : console :=
  mkConsole boot_shell (default demo_uarts (snd <$> (rt_device_open demo_drivers 8 console_oflag;;
    st_modify (fun s => s <| ds_hw := [97] |>);; rt_hw_serial_isr_rx demo_uart 5 8) demo_uarts)) 8 1.

Lemma char_ready : dev_rep 8 serial_inv false (mkSession 1 true) (cn_devices char_console).
Proof.
  eexists. split.
  - split; [split; [discriminate|exists 137; split; vm_compute; reflexivity]|vm_compute; reflexivity|].
    replace (ds_serial (cn_devices char_console) !! 8) with (Some (mkSerial 64 (Some (RxFifo (mkRxFifo (97 :: replicate 63 0) 1 0 false))) None None))
      by (vm_compute; reflexivity).
    split; try (repeat split; reflexivity); cbn; try lia; try discriminate. split; cbn; lia.
  - split; try reflexivity; cbn; try lia; discriminate.
Qed.

Lemma getchar_ends_witness : exists c', finsh_getchar demo_drivers 60 char_console = Some (GotChar 97, c') /\
  dev_rep 8 serial_inv false (mkSession 1 true) (cn_devices c').
Proof.
  assert (Polite demo_drivers 8 serial_inv) as P by (apply serial_polite; [apply demo_uart_ok|discriminate|discriminate]).
  assert (ch_ok 60 8 (cn_devices char_console)) as Hb by (split; [eexists; vm_compute; reflexivity|discriminate]).
  destruct (getchar_ends demo_drivers 60 char_console serial_inv false _ 8 P char_ready ltac:(cbn; lia) Hb) as [(c0 & _ & res & c' & E & _ & _ & D' & H) _].
  assert (fst <$> finsh_getchar demo_drivers 60 char_console = Some (GotChar 97)) as Er by (vm_compute; reflexivity).
  rewrite E in Er. injection Er as ->. exists c'. split; [exact E|exact D'].
Defined.

(** The driver's open is not implemented (-RT_ENOSYS): [rt_device_open] counts a user,
    [finsh_set_device] takes the result for a failure. *)
Example set_device_leaks_use :
  (fun c => (cn_device c, dv_ref_count <$> ds_dev (cn_devices c) !! 8)) <$>
    (snd <$> finsh_set_device (driver_results 0 (- RT_ENOSYS) 0) 1000 77 104 (mkConsole boot_shell (demo_ready 3) 0 0)) = Some (0, Some 1).
Proof. vm_compute. reflexivity. Qed.
