(* ===== verification/KStdioProps.v ===== *)
(** * Formatted output: the text and where it is written

    [number_text] and [format_text] say what a number and a whole format stand for,
    as lists of characters; [rt_vsnprintf] writes a prefix of that text. *)

From stdpp Require Import gmap.
From S2P Require Import Prelude Bytes KString KStdio.
Open Scope rt_scope.

(** ** The text *)

Definition spaces (n : Z) : list Z := replicate (Z.to_nat n) 32.
Definition zeros (n : Z) : list Z := replicate (Z.to_nat n) 48.

(** [sign], [prefix] and [body] in a field of [width] characters. *)
Definition field (width : Z) (left zeropad : bool) (sign prefix body : list Z) : list Z :=
  let pad := width - Z.of_nat (length (sign ++ prefix ++ body)) in
  if left then sign ++ prefix ++ body ++ spaces pad
  else if zeropad then sign ++ prefix ++ zeros pad ++ body
  else spaces pad ++ sign ++ prefix ++ body.

Definition sign_text (type qualifier num : Z) : list Z := let '(s, _) := sign_of type qualifier num in if s =? 0 then [] else [s].

Definition digits_text (type qualifier num base : Z) : option (list Z) :=
  let '(_, num) := sign_of type qualifier num in
  (fun l => rev l) <$> (if num =? 0 then Some [48] else number_digits 32 (has type LARGE) num base).

Definition number_text (num base qualifier width precision type : Z) : option (list Z) :=
  ds ← digits_text type qualifier num base;
  Some (field width (has type LEFT) (has type ZEROPAD) (sign_text type qualifier num) (prefix_of type base)
    (zeros (precision - Z.of_nat (length ds)) ++ ds)).

(** ** Writing a list of characters *)

Lemma put_list_app e p l1 l2 m : put_list e p (l1 ++ l2) m = (q ← put_list e p l1; put_list e q l2) m.
Proof.
  revert p m. induction l1 as [|c l1 IH]; intros p m; [reflexivity|]. cbn [app put_list]. rewrite bind_assoc.
  unfold mbind, st_bind in *. destruct (put e p c m) as [[q m']|]; [apply IH|reflexivity].
Qed.

Lemma put_one e p c m : put e p c m = put_list e p [c] m.
Proof. cbn. unfold mbind, st_bind. destruct (put e p c m) as [[? ?]|]; reflexivity. Qed.

(** A step that writes [l], then the rest. *)
Lemma put_then {B} e p l (f : Z -> BM B) (g : BM Z) m : g m = put_list e p l m ->
  (q ← g; f q) m = (q ← put_list e p l; f q) m.
Proof. intros E. unfold mbind, st_bind. rewrite E. reflexivity. Qed.

Lemma put_join {B} e p l1 l2 (f : Z -> BM B) m :
  (q ← put_list e p l1; q ← put_list e q l2; f q) m = (q ← put_list e p (l1 ++ l2); f q) m.
Proof.
  unfold mbind, st_bind. rewrite put_list_app. unfold mbind, st_bind.
  destruct (put_list e p l1 m) as [[? ?]|]; reflexivity.
Qed.

Lemma ret_bind {A B} (x : A) (f : A -> BM B) m : (y ← mret x; f y) m = f x m.
Proof. reflexivity. Qed.

Lemma bind_pair {B} (g : BM Z) (s : Z) (f : Z * Z -> BM B) m :
  ((q ← g; mret (q, s)) ≫= f) m = (q ← g; f (q, s)) m.
Proof. unfold mbind, st_bind. destruct (g m) as [[q m']|]; reflexivity. Qed.

Lemma opt_bind {A B} (o : option A) (f : A -> BM B) m : (x ← st_opt o; f x) m = match o with Some a => f a m | None => None end.
Proof. destruct o; reflexivity. Qed.

(** ** Numbers *)

Lemma has_ldiff type : has (Z.ldiff type ZEROPAD) ZEROPAD = false.
Proof.
  unfold has. replace (Z.land (Z.ldiff type ZEROPAD) ZEROPAD) with 0; [reflexivity|].
  apply Z.bits_inj'. intros n Hn. rewrite Z.land_spec, Z.ldiff_spec, Z.bits_0. destruct (Z.testbit type n), (Z.testbit ZEROPAD n); reflexivity.
Qed.

Lemma has_other type flag : Z.land ZEROPAD flag = 0 -> has (Z.ldiff type ZEROPAD) flag = has type flag.
Proof.
  intros H. unfold has. do 2 f_equal. apply Z.bits_inj'. intros n Hn. rewrite !Z.land_spec, Z.ldiff_spec.
  assert (Z.testbit (Z.land ZEROPAD flag) n = false) as Hb by (rewrite H; apply Z.bits_0). rewrite Z.land_spec in Hb.
  destruct (Z.testbit type n), (Z.testbit ZEROPAD n), (Z.testbit flag n); try reflexivity; discriminate.
Qed.

Lemma has_either type a b : has type (Z.lor a b) = has type a || has type b.
Proof.
  unfold has. rewrite Z.land_lor_distr_r. destruct (Z.eqb_spec (Z.land type a) 0) as [E1|E1].
  - rewrite E1, Z.lor_0_l. reflexivity.
  - rewrite (proj2 (Z.eqb_neq _ _)); [reflexivity|]. intros [E _]%Z.lor_eq_0_iff. contradiction.
Qed.

Lemma put_n_nil {B} e p n c (f : Z -> BM B) m : n <= 0 -> (q ← put_n e p n c; f q) m = f p m.
Proof. intros H. unfold put_n. replace (Z.to_nat n) with O by lia. reflexivity. Qed.

Lemma sign_of_left type q num : sign_of (Z.ldiff type ZEROPAD) q num = sign_of type q num.
Proof. unfold sign_of. rewrite !has_other by reflexivity. reflexivity. Qed.
Lemma prefix_of_left type base : prefix_of (Z.ldiff type ZEROPAD) base = prefix_of type base.
Proof. unfold prefix_of. rewrite !has_other by reflexivity. reflexivity. Qed.

(** The part of [print_number] behind the choice of the digits, for [tmp] digits of
    which [digits] are printed. *)
Definition put_field (e buf size sign : Z) (prefix : list Z) (n i : Z) (digits : list Z) (left zeropad : bool) : BM Z :=
  let c := if zeropad then 48 else 32 in
  '(buf, size) ← (if negb (zeropad || left) then
      let size := if negb (sign =? 0) && (0 <? size) then size - 1 else size in
      buf ← put_n e buf size 32; mret (buf, after_pad size)
    else mret (buf, size));
  '(buf, size) ← (if negb (sign =? 0) then buf ← put e buf sign; mret (buf, size - 1) else mret (buf, size));
  buf ← put_list e buf prefix;
  '(buf, size) ← (if negb left then buf ← put_n e buf size c; mret (buf, after_pad size) else mret (buf, size));
  buf ← put_n e buf (n - i) 48;
  buf ← put_list e buf digits;
  put_n e buf size 32.

(** Writing [l1] and going on with something that writes [l2]. *)
Lemma put_step e p l1 l2 (f : Z -> BM Z) m : (forall q m', f q m' = put_list e q l2 m') ->
  (q ← put_list e p l1; f q) m = put_list e p (l1 ++ l2) m.
Proof.
  intros H. rewrite put_list_app. unfold mbind, st_bind. destruct (put_list e p l1 m) as [[q m']|]; [apply H|reflexivity].
Qed.

Lemma put_step_n e p n c l2 (f : Z -> BM Z) m : (forall q m', f q m' = put_list e q l2 m') ->
  (q ← put_n e p n c; f q) m = put_list e p (replicate (Z.to_nat n) c ++ l2) m.
Proof. apply put_step. Qed.

Lemma put_step_pair e p n c s l2 (f : Z * Z -> BM Z) m : (forall q m', f (q, s) m' = put_list e q l2 m') ->
  ((q ← put_n e p n c; mret (q, s)) ≫= f) m = put_list e p (replicate (Z.to_nat n) c ++ l2) m.
Proof. intros H. rewrite bind_pair. apply put_step, H. Qed.

Lemma put_step_sign e p sign size l2 (f : Z * Z -> BM Z) m :
  let sg := if sign =? 0 then [] else [sign] in
  (forall q m', f (q, size - Z.of_nat (length sg)) m' = put_list e q l2 m') ->
  ((if negb (sign =? 0) then buf ← put e p sign; mret (buf, size - 1) else mret (p, size)) ≫= f) m = put_list e p (sg ++ l2) m.
Proof.
  intros sg H. unfold sg in *. clear sg. destruct (sign =? 0); cbn [negb length] in *.
  - rewrite Z.sub_0_r in H. apply H.
  - rewrite bind_pair. rewrite (put_then e p [sign]) by apply put_one. apply put_step, H.
Qed.

Lemma put_field_eq e buf m sign prefix size n digits i (left zeropad : bool) :
  (left = true -> zeropad = false) -> i = Z.of_nat (length digits) -> i <= n ->
  put_field e buf (size - Z.of_nat (length prefix) - n) sign prefix n i digits left zeropad m =
  put_list e buf (field size left zeropad (if sign =? 0 then [] else [sign]) prefix (zeros (n - i) ++ digits)) m.
Proof.
  intros Hl Hi Hn. set (sg := if sign =? 0 then [] else [sign]). set (sz := size - Z.of_nat (length prefix) - n).
  assert (0 <= Z.of_nat (length sg) <= 1) as Hsg by (unfold sg; destruct (sign =? 0); cbn; lia).
  assert (size - Z.of_nat (length (sg ++ prefix ++ zeros (n - i) ++ digits)) = sz - Z.of_nat (length sg)) as Hlen.
  { unfold zeros, sz. rewrite !length_app, length_replicate. lia. }
  unfold put_field, field. rewrite Hlen. destruct left; [rewrite (Hl eq_refl)|destruct zeropad]; cbn [orb negb]; cbv zeta.
  - etransitivity.
    { rewrite ret_bind. apply put_step_sign; intros q1 m1. apply put_step; intros q2 m2. rewrite ret_bind.
      apply put_step_n; intros q3 m3. apply put_step; intros q4 m4. unfold put_n. reflexivity. }
    fold sg. unfold zeros, spaces. rewrite <- !app_assoc. reflexivity.
  - etransitivity.
    { rewrite ret_bind. apply put_step_sign; intros q1 m1. apply put_step; intros q2 m2. apply put_step_pair; intros q3 m3.
      apply put_step_n; intros q4 m4. apply put_step; intros q5 m5. unfold put_n. reflexivity. }
    fold sg. unfold zeros, after_pad. replace (Z.to_nat (Z.min _ 0 - 1)) with O by lia. rewrite app_nil_r. reflexivity.
  - set (sz1 := if negb (sign =? 0) && (0 <? sz) then sz - 1 else sz). etransitivity.
    { apply put_step_pair; intros q0 m0. apply put_step_sign; intros q1 m1. apply put_step; intros q2 m2. apply put_step_pair; intros q3 m3.
      apply put_step_n; intros q4 m4. apply put_step; intros q5 m5. unfold put_n. reflexivity. }
    fold sg. unfold zeros, spaces, after_pad. replace (Z.to_nat (Z.min _ 0 - 1)) with O by lia.
    replace (Z.to_nat (Z.min sz1 0 - 1 - Z.of_nat (length sg))) with O by lia. rewrite app_nil_r. cbn [replicate app]. f_equal.
    assert (Z.to_nat sz1 = Z.to_nat (sz - Z.of_nat (length sg))) as ->; [|reflexivity].
    unfold sz1, sg. destruct (sign =? 0); cbn [negb andb length]; [lia|]. destruct (Z.ltb_spec 0 sz); lia.
Qed.

(** [print_number] writes the text of the number, unless a precision of 0 is given. *)
Lemma print_number_text e buf num base qualifier size precision type m : precision <> 0 ->
  print_number buf e num base qualifier size precision type m =
  match number_text num base qualifier size precision type with Some t => put_list e buf t m | None => None end.
Proof.
  intros Hp. unfold number_text, digits_text, sign_text, print_number.
  set (type' := if has type LEFT then Z.ldiff type ZEROPAD else type).
  assert (forall f, Z.land ZEROPAD f = 0 -> has type' f = has type f) as Hf
    by (intros f H; unfold type'; destruct (has type LEFT); [apply has_other, H|reflexivity]).
  assert (sign_of type' qualifier num = sign_of type qualifier num) as -> by (unfold type'; destruct (has type LEFT); [apply sign_of_left|reflexivity]).
  assert (prefix_of type' base = prefix_of type base) as -> by (unfold type'; destruct (has type LEFT); [apply prefix_of_left|reflexivity]).
  destruct (sign_of type qualifier num) as [sign num']. rewrite (Hf LARGE) by reflexivity.
  destruct (if num' =? 0 then Some [48] else number_digits 32 (has type LARGE) num' base) as [tmp|]; [|reflexivity].
  cbn [fmap option_fmap option_map mbind option_bind]. erewrite bind_eq by reflexivity. cbv zeta.
  rewrite has_either. rewrite (Hf LEFT) by reflexivity. rewrite (proj2 (Z.eqb_neq _ _) Hp). cbn [negb].
  set (i := Z.of_nat (length tmp)). set (n := if precision <? i then i else precision).
  assert (i <= n) as Hn by (unfold n; destruct (Z.ltb_spec precision i); lia).
  etransitivity; [apply (put_field_eq e buf m sign (prefix_of type base) size n (rev tmp) i (has type LEFT) (has type' ZEROPAD))|].
  - intros E. unfold type'. rewrite E. apply has_ldiff.
  - rewrite length_rev. reflexivity.
  - exact Hn.
  - f_equal. rewrite length_rev. fold i. unfold field.
    replace (zeros (n - i)) with (zeros (precision - i)) by (unfold zeros, n; destruct (Z.ltb_spec precision i); f_equal; lia).
    unfold type'. destruct (has type LEFT); reflexivity.
Qed.

(** ** Formats *)

Definition char_text (width flags v : Z) : list Z :=
  if has flags LEFT then u8 v :: spaces (width - 1) else spaces (width - 1) ++ [u8 v].

Definition str_text (s : option (list Z)) (width precision flags : Z) : list Z :=
  let s := default [40; 78; 85; 76; 76; 41] s in
  let len := str_len s width precision in
  let t := take (Z.to_nat len) s in
  if has flags LEFT then t ++ spaces (width - len) else spaces (width - len) ++ t.

(** A number whose precision is not 0. *)
Definition num_text (num base qualifier width precision flags : Z) : option (list Z) :=
  if precision =? 0 then None else number_text num base qualifier width precision flags.

Definition conv_text (c : Z) (args : list va_arg) (flags width precision qualifier : Z) : option (list Z * list va_arg) :=
  if c =? 99 then '(v, args) ← next_int args; Some (char_text width flags v, args)
  else if c =? 115 then match args with VStr s :: args => Some (str_text s width precision flags, args) | _ => None end
  else if c =? 112 then
    let '(width, flags) := if width =? -1 then (10, Z.lor (Z.lor flags SPECIAL) ZEROPAD) else (width, flags) in
    '(v, args) ← next_int args; t ← num_text (u32 v) 16 qualifier width precision flags; Some (t, args)
  else if c =? 37 then Some ([37], args)
  else match number_conv c flags with
  | Some (base, flags) =>
      '(v, args) ← next_int args; t ← num_text (fetch qualifier flags v) base qualifier width precision flags; Some (t, args)
  | None =>
      args ← (if is_float c then match args with VDouble :: args => Some args | _ => None end else Some args);
      Some (37 :: (if c =? 0 then [] else [c]), args)
  end.

(** The text of a format and its arguments. *)
Fixpoint format_text (fuel : nat) (fmt : list Z) (args : list va_arg) : option (list Z) :=
  match fuel with
  | O => None
  | S fuel =>
      match fmt with
      | [] => Some []
      | c :: fmt =>
          if negb (c =? 37) then t ← format_text fuel fmt args; Some (c :: t)
          else
            let '(fmt, flags) := skip_flags fmt 0 in
            '(fmt, args, flags, width) ← get_width fmt args flags;
            '(fmt, args, precision) ← get_precision fmt args;
            let '(fmt, qualifier) := get_qualifier fmt in
            '(t, args) ← conv_text (hd 0 fmt) args flags width precision qualifier;
            t' ← format_text fuel (tl fmt) args;
            Some (t ++ t')
      end
  end.

Lemma put_char_text e p width flags v m : put_char e p width flags v m = put_list e p (char_text width flags v) m.
Proof.
  unfold put_char, char_text. destruct (has flags LEFT); cbn [negb].
  - rewrite ret_bind. rewrite (put_then e p [u8 v]) by apply put_one. apply (put_step e p [u8 v]). intros q m1. reflexivity.
  - etransitivity.
    { apply put_step_pair; intros q m1. rewrite (put_then e q [u8 v]) by apply put_one. apply put_step; intros q2 m2.
      unfold put_n. reflexivity. }
    unfold spaces. replace (Z.to_nat (Z.min (width - 1) 0 - 1)) with O by lia. reflexivity.
Qed.

Lemma put_str_text e p s width precision flags m : put_str e p s width precision flags m = put_list e p (str_text s width precision flags) m.
Proof.
  unfold put_str, str_text. set (l := default _ s). set (len := str_len l width precision). destruct (has flags LEFT); cbn [negb].
  - rewrite ret_bind. apply put_step. intros q m1. reflexivity.
  - etransitivity.
    { apply put_step_pair; intros q m1. apply put_step; intros q2 m2. unfold put_n. reflexivity. }
    unfold spaces. replace (Z.to_nat (Z.min width len - 1 - len)) with O by lia. rewrite app_nil_r. reflexivity.
Qed.

Lemma num_text_put e p num base q width precision flags m t : num_text num base q width precision flags = Some t ->
  print_number p e num base q width precision flags m = put_list e p t m.
Proof.
  unfold num_text. destruct (Z.eqb_spec precision 0) as [|Hp]; [discriminate|]. intros E. rewrite print_number_text by exact Hp.
  rewrite E. reflexivity.
Qed.

(** A conversion writes its text and leaves the same arguments. *)
Lemma convert_text e p c args flags width precision q m t args' :
  conv_text c args flags width precision q = Some (t, args') ->
  convert e p c args flags width precision q m = (p' ← put_list e p t; mret (p', args')) m.
Proof.
  unfold conv_text, convert. destruct (c =? 99).
  { destruct (next_int args) as [[v a]|]; [|discriminate]. cbn. intros [= <- <-]. erewrite bind_eq by reflexivity.
    apply put_then, put_char_text. }
  destruct (c =? 115).
  { destruct args as [|[v|s|] a]; try discriminate. intros [= <- <-]. apply put_then, put_str_text. }
  destruct (c =? 112).
  { destruct (if width =? -1 then _ else _) as [w f]. destruct (next_int args) as [[v a]|]; [|discriminate]. cbn [mbind option_bind].
    destruct (num_text _ _ _ _ _ _) as [t'|] eqn:E; [|discriminate]. intros [= <- <-]. erewrite bind_eq by reflexivity.
    apply put_then, num_text_put, E. }
  destruct (c =? 37); [intros [= <- <-]; apply put_then, put_one|].
  destruct (number_conv c flags) as [[base f]|].
  { destruct (next_int args) as [[v a]|]; [|discriminate]. cbn [mbind option_bind].
    destruct (num_text _ _ _ _ _ _) as [t'|] eqn:E; [|discriminate]. intros [= <- <-]. erewrite bind_eq by reflexivity.
    apply put_then, num_text_put, E. }
  set (o := if is_float c then _ else Some args). set (g := if is_float c then _ else mret args).
  intros E. assert (g m = match o with Some a => Some (a, m) | None => None end) as Eg.
  { unfold g, o. destruct (is_float c); [destruct args as [|[] ?]; reflexivity|reflexivity]. }
  destruct o as [a|]; [|discriminate]. cbn in E. injection E as <- <-. erewrite bind_eq by exact Eg.
  destruct (c =? 0); cbn [negb].
  - rewrite (put_then e p [37]) by apply put_one. unfold mbind, st_bind. destruct (put_list e p [37] m) as [[? ?]|]; reflexivity.
  - rewrite (put_then e p [37]) by apply put_one. rewrite <- (put_join e p [37] [c]).
    unfold mbind, st_bind. destruct (put_list e p [37] m) as [[x y]|]; [|reflexivity]. rewrite put_one. reflexivity.
Qed.

Lemma loop_text fuel : forall e p fmt args m t, format_text fuel fmt args = Some t ->
  vsnprintf_loop fuel e p fmt args m = put_list e p t m.
Proof.
  induction fuel as [|fuel IH]; intros e p fmt args m t E; [discriminate|]. cbn [format_text vsnprintf_loop] in *.
  destruct fmt as [|c fmt]; [injection E as <-; reflexivity|]. destruct (negb (c =? 37)).
  - destruct (format_text fuel fmt args) as [t'|] eqn:E'; [|discriminate]. injection E as <-.
    rewrite (put_then e p [c]) by apply put_one. apply (put_step e p [c]). intros q m'. apply IH, E'.
  - destruct (skip_flags fmt 0) as [fmt1 flags]. rewrite opt_bind.
    destruct (get_width fmt1 args flags) as [[[[fmt2 args2] flags2] width]|]; [|discriminate].
    cbn [mbind option_bind] in E. rewrite opt_bind. destruct (get_precision fmt2 args2) as [[[fmt3 args3] precision]|]; [|discriminate].
    cbn [mbind option_bind] in E. destruct (get_qualifier fmt3) as [fmt4 q].
    destruct (conv_text (hd 0 fmt4) args3 flags2 width precision q) as [[t1 args4]|] eqn:E1; [|discriminate].
    cbn [mbind option_bind] in E. destruct (format_text fuel (tl fmt4) args4) as [t2|] eqn:E2; [|discriminate]. injection E as <-.
    transitivity (((p' ← put_list e p t1; mret (p', args4)) ≫= (fun '(str, args) => vsnprintf_loop fuel e str (tl fmt4) args)) m).
    { unfold mbind at 1 2, st_bind at 1 2. rewrite (convert_text _ _ _ _ _ _ _ _ _ _ _ E1). reflexivity. }
    rewrite bind_assoc. apply put_step. intros q' m'. apply IH, E2.
Qed.

(** ** Enough rounds *)

Lemma skip_flags_len fmt flags : (length (skip_flags fmt flags).1 <= length fmt)%nat.
Proof.
  revert flags. induction fmt as [|c fmt IH]; intros flags; cbn [skip_flags]; [cbn; lia|].
  repeat match goal with |- context [if ?b then _ else _] => destruct b; [etransitivity; [apply IH|cbn; lia]|] end. cbn. lia.
Qed.

Lemma skip_atoi_len fmt i : (length (skip_atoi fmt i).1 <= length fmt)%nat.
Proof.
  revert i. induction fmt as [|c fmt IH]; intros i; cbn [skip_atoi]; [cbn; lia|].
  destruct (_ISDIGIT c); [etransitivity; [apply IH|cbn; lia]|cbn; lia].
Qed.

Lemma next_int_cases (args : list va_arg) : next_int args = None \/ exists v a, next_int args = Some (v, a).
Proof. destruct args as [|[] ?]; cbn; eauto. Qed.

Lemma get_width_len fmt args flags fmt' a f w : get_width fmt args flags = Some (fmt', a, f, w) -> (length fmt' <= length fmt)%nat.
Proof.
  destruct fmt as [|c fmt]; cbn [get_width]; [intros [= <- _ _ _]; lia|]. destruct (_ISDIGIT c).
  - pose proof (skip_atoi_len (c :: fmt) 0) as H. destruct (skip_atoi (c :: fmt) 0). intros [= <- _ _ _]. exact H.
  - destruct (c =? 42); [|intros [= <- _ _ _]; lia]. destruct (next_int_cases args) as [->|(v & a' & ->)]; [discriminate|].
    cbn. destruct (s32 v <? 0); intros [= <- _ _ _]; lia.
Qed.

Lemma get_precision_len fmt args fmt' a p : get_precision fmt args = Some (fmt', a, p) -> (length fmt' <= length fmt)%nat.
Proof.
  destruct fmt as [|c fmt]; cbn [get_precision]; [intros [= <- _ _]; lia|]. destruct (c =? 46); [|intros [= <- _ _]; lia].
  destruct fmt as [|d fmt]; [intros [= <- _ _]; cbn; lia|]. destruct (_ISDIGIT d).
  - pose proof (skip_atoi_len (d :: fmt) 0) as H. destruct (skip_atoi (d :: fmt) 0). intros [= <- _ _]. cbn in *. lia.
  - destruct (d =? 42); [|intros [= <- _ _]; cbn; lia]. destruct (next_int_cases args) as [->|(v & a' & ->)]; [discriminate|].
    intros [= <- _ _]. cbn. lia.
Qed.

Lemma get_qualifier_len fmt : (length (get_qualifier fmt).1 <= length fmt)%nat.
Proof.
  destruct fmt as [|c fmt]; cbn; [lia|]. destruct (c =? 104); [destruct fmt as [|d fmt]; [cbn; lia|destruct (d =? 104); cbn; lia]|].
  destruct ((c =? 108) || (c =? 122)); cbn; lia.
Qed.

(** More fuel than characters makes no difference. *)
Lemma format_text_fuel f1 : forall f2 fmt args, (length fmt < f1)%nat -> (length fmt < f2)%nat ->
  format_text f1 fmt args = format_text f2 fmt args.
Proof.
  induction f1 as [|f1 IH]; intros [|f2] fmt args H1 H2; try lia. cbn [format_text]. destruct fmt as [|c fmt]; [reflexivity|].
  cbn [length] in *. destruct (negb (c =? 37)); [rewrite (IH f2) by lia; reflexivity|].
  pose proof (skip_flags_len fmt 0) as L1. destruct (skip_flags fmt 0) as [fmt1 flags].
  destruct (get_width fmt1 args flags) as [[[[fmt2 args2] flags2] width]|] eqn:E2; [|reflexivity]. apply get_width_len in E2.
  cbn [mbind option_bind]. destruct (get_precision fmt2 args2) as [[[fmt3 args3] precision]|] eqn:E3; [|reflexivity]. apply get_precision_len in E3.
  cbn [mbind option_bind]. pose proof (get_qualifier_len fmt3) as L4. destruct (get_qualifier fmt3) as [fmt4 q]. cbn [fst] in *.
  destruct (conv_text _ _ _ _ _ _) as [[t1 args4]|]; [|reflexivity]. cbn [mbind option_bind].
  rewrite (IH f2); [reflexivity|destruct fmt4; cbn in *; lia..].
Qed.

Definition formatted (fmt : list Z) (args : list va_arg) : option (list Z) := format_text (S (length fmt)) fmt args.

(** ** The buffer *)

Lemma put_list_write e l : forall p m, 0 <= p -> p + Z.of_nat (length l) < 2 ^ 32 ->
  mapped m p (Z.to_nat (Z.min (Z.of_nat (length l)) (e - p))) ->
  put_list e p l m = Some (p + Z.of_nat (length l), write_list p (take (Z.to_nat (e - p)) l) m).
Proof.
  induction l as [|c l IH]; intros p m Hp Hl Hm; cbn [put_list length] in *.
  - rewrite Z.add_0_r, take_nil. reflexivity.
  - unfold put. rewrite bind_assoc. destruct (Z.ltb_spec p e) as [Hlt|Hge]; cbn [when].
    + replace (Z.to_nat (Z.min (Z.of_nat (S (length l))) (e - p))) with (S (Z.to_nat (Z.min (Z.of_nat (length l)) (e - (p + 1))))) in Hm by lia.
      apply mapped_S in Hm as [Hm1 Hm2]. unfold mbind at 1, st_bind at 1. rewrite sb_eq, decide_True by exact Hm1.
      erewrite bind_eq by reflexivity. rewrite u32_small by lia. rewrite IH by (lia || (apply mapped_insert; assumption)).
      replace (Z.to_nat (e - p)) with (S (Z.to_nat (e - (p + 1)))) by lia. cbn [take write_list]. apply ret_eq; lia.
    + erewrite bind_eq by reflexivity. erewrite bind_eq by reflexivity. rewrite u32_small by lia. rewrite IH; [|lia|lia|intros i Hi; lia].
      replace (Z.to_nat (e - p)) with O by lia. replace (Z.to_nat (e - (p + 1))) with O by lia. rewrite !take_0. apply ret_eq; lia.
Qed.

(** The text with its end, cut to [size] bytes. *)
Definition cut (size : Z) (t : list Z) : list Z := if size <=? 0 then [] else take (Z.to_nat (size - 1)) t ++ [0].

Lemma sb_run a v m : is_Some (m !! a) -> sb a v m = Some (tt, <[a := v]> m).
Proof. intros H. rewrite sb_eq, decide_True by exact H. reflexivity. Qed.

(** The final 0, behind the text or over its last character that fits. *)
Lemma terminate buf size t m : 0 < size -> mapped m buf (Z.to_nat (Z.min size (Z.of_nat (length t) + 1))) ->
  let e := buf + size in
  (if buf + Z.of_nat (length t) <? e then sb (buf + Z.of_nat (length t)) 0 else sb (e - 1) 0)
    (write_list buf (take (Z.to_nat size) t) m) = Some (tt, write_list buf (cut size t) m).
Proof.
  intros Hs Hm e. unfold cut. rewrite (proj2 (Z.leb_gt size 0)) by lia. rewrite write_list_app.
  destruct (Z.ltb_spec (buf + Z.of_nat (length t)) e) as [Hl|Hg]; unfold e in *.
  - rewrite !take_ge by lia. rewrite sb_run; [reflexivity|]. rewrite write_list_lookup, decide_False by lia. apply Hm. lia.
  - replace (Z.to_nat size) with (S (Z.to_nat (size - 1))) by lia.
    destruct (lookup_lt_is_Some_2 t (Z.to_nat (size - 1))) as [x Ex]; [lia|]. rewrite (take_S_r _ _ _ Ex), write_list_app.
    rewrite length_take, Nat.min_l by lia. rewrite Z2Nat.id by lia. cbn [write_list]. replace (buf + size - 1) with (buf + (size - 1)) by lia.
    rewrite sb_run by (rewrite lookup_insert_eq; eauto). rewrite insert_insert_eq. reflexivity.
Qed.

Lemma vsnprintf_run fmt args t buf size m : formatted fmt args = Some t ->
  0 < buf -> 0 <= size -> buf + size < 2 ^ 32 -> buf + Z.of_nat (length t) + 1 < 2 ^ 32 -> Z.of_nat (length t) < 2 ^ 31 ->
  mapped m buf (Z.to_nat (Z.min size (Z.of_nat (length t) + 1))) ->
  rt_vsnprintf buf size fmt args m = Some (Z.of_nat (length t), write_list buf (cut size t) m).
Proof.
  intros Ht Hb Hs He Hl Hi Hm. unfold rt_vsnprintf. rewrite (u32_small (buf + size)) by lia. rewrite (proj2 (Z.ltb_ge _ _)) by lia.
  erewrite bind_eq.
  2: { rewrite (loop_text _ _ _ _ _ _ _ Ht). apply put_list_write; [lia|lia|]. intros i Hx. apply Hm. lia. }
  replace (buf + size - buf) with size by lia. destruct (Z.ltb_spec 0 size) as [Hp|Hz]; cbn [when].
  - erewrite bind_eq by (apply terminate; assumption). cbn. rewrite s32_small by lia. apply ret_eq; lia.
  - unfold cut. rewrite (proj2 (Z.leb_le size 0)) by lia. replace (Z.to_nat size) with O by lia. rewrite take_0.
    erewrite bind_eq by reflexivity. cbn. rewrite s32_small by lia. apply ret_eq; lia.
Qed.

Lemma vsprintf_run fmt args t buf m : formatted fmt args = Some t ->
  0 < buf -> buf + Z.of_nat (length t) + 1 < 2 ^ 32 -> Z.of_nat (length t) < 2 ^ 31 -> mapped m buf (S (length t)) ->
  rt_vsprintf buf fmt args m = Some (Z.of_nat (length t), write_list buf (t ++ [0]) m).
Proof.
  intros Ht Hb Hl Hi Hm. unfold rt_vsprintf, rt_vsnprintf. assert (u32 (buf + (2 ^ 32 - 1)) = buf - 1) as ->.
  { unfold u32. symmetry. apply (Zmod_unique _ _ 1); lia. }
  rewrite (proj2 (Z.ltb_lt _ _)) by lia. erewrite bind_eq.
  2: { rewrite (loop_text _ _ _ _ _ _ _ Ht). apply put_list_write; [lia|lia|]. intros i Hx. apply Hm. lia. }
  rewrite (proj2 (Z.ltb_lt 0 _)) by lia. cbn [when]. rewrite (proj2 (Z.ltb_lt _ _)) by lia. rewrite take_ge by lia.
  erewrite bind_eq.
  2: { apply sb_run. rewrite write_list_lookup, decide_False by lia. apply Hm. lia. }
  rewrite write_list_app. cbn. rewrite s32_small by lia. apply ret_eq; lia.
Qed.

(** C27: [rt_vsnprintf] writes the text that the format stands for, cut to the size of
    the buffer and always ended by a 0; it needs no byte outside the buffer and changes
    none.  When the text fits it returns the number of characters written.  [rt_vsprintf]
    writes and counts all of it. *)
Theorem vsnprintf_writes fmt args t buf size m : formatted fmt args = Some t ->
  0 < buf -> 0 <= size -> buf + size < 2 ^ 32 -> buf + Z.of_nat (length t) + 1 < 2 ^ 32 -> Z.of_nat (length t) < 2 ^ 31 ->
  (mapped m buf (Z.to_nat (Z.min size (Z.of_nat (length t) + 1))) ->
     exists n, rt_vsnprintf buf size fmt args m = Some (n, write_list buf (cut size t) m) /\
       (Z.of_nat (length t) < size -> n = Z.of_nat (length t) /\ cut size t = t ++ [0])) /\
  (mapped m buf (S (length t)) -> rt_vsprintf buf fmt args m = Some (Z.of_nat (length t), write_list buf (t ++ [0]) m)).
Proof.
  intros Ht Hb Hs He Hl Hi. split; intros Hm; [|apply vsprintf_run; assumption].
  exists (Z.of_nat (length t)). split; [apply vsnprintf_run; assumption|]. intros Hfit. split; [reflexivity|].
  unfold cut. rewrite (proj2 (Z.leb_gt _ _)) by lia. rewrite take_ge by lia. reflexivity.
Qed.

(** "%04x" and "-%d" into 6 bytes, where the text is cut, and into 8, where it fits. *)
Lemma vsnprintf_writes_witness :
  let fmt := [37; 48; 52; 120; 45; 37; 100] in
  let m := write_list 100 (replicate 8 0) ∅ in
  formatted fmt [VInt 48879; VInt (-7)] = Some [98; 101; 101; 102; 45; 45; 55] /\
  (exists n, rt_vsnprintf 100 6 fmt [VInt 48879; VInt (-7)] m = Some (n, write_list 100 [98; 101; 101; 102; 45; 0] m)) /\
  rt_vsnprintf 100 8 fmt [VInt 48879; VInt (-7)] m = Some (7, write_list 100 [98; 101; 101; 102; 45; 45; 55; 0] m).
Proof.
  intros fmt m. assert (formatted fmt [VInt 48879; VInt (-7)] = Some [98; 101; 101; 102; 45; 45; 55]) as Ht by (vm_compute; reflexivity).
  assert (forall k, (k <= 8)%nat -> mapped m 100 k) as Hm.
  { intros k Hk i Hi. unfold m. rewrite write_list_lookup, decide_True by (cbn; lia). rewrite lookup_replicate_2 by lia. eauto. }
  split; [exact Ht|]. split.
  - destruct (vsnprintf_writes _ _ _ 100 6 m Ht ltac:(lia) ltac:(lia) ltac:(lia) ltac:(cbn; lia) ltac:(cbn; lia)) as [H _].
    destruct (H (Hm 6%nat ltac:(lia))) as (n & E & _). exists n. exact E.
  - destruct (vsnprintf_writes _ _ _ 100 8 m Ht ltac:(lia) ltac:(lia) ltac:(lia) ltac:(cbn; lia) ltac:(cbn; lia)) as [H _].
    destruct (H (Hm 8%nat ltac:(lia))) as (n & E & Hn). destruct (Hn ltac:(cbn; lia)) as [-> _]. exact E.
Defined.

(** The comments of [rt_vsnprintf] and [rt_snprintf] promise the number of characters
    actually written; of a text that is cut they return the whole length. *)
Theorem vsnprintf_counts_cut fmt args t buf size m : formatted fmt args = Some t ->
  0 < buf -> 0 <= size -> buf + size < 2 ^ 32 -> buf + Z.of_nat (length t) + 1 < 2 ^ 32 -> Z.of_nat (length t) < 2 ^ 31 ->
  mapped m buf (Z.to_nat (Z.min size (Z.of_nat (length t) + 1))) -> size <= Z.of_nat (length t) ->
  exists m', rt_vsnprintf buf size fmt args m = Some (Z.of_nat (length t), m') /\
    (forall x, m' !! x <> m !! x -> buf <= x < buf + size) /\ (0 < size -> m' !! (buf + size - 1) = Some 0).
Proof.
  intros Ht Hb Hs He Hl Hi Hm Hc. eexists. split; [apply vsnprintf_run; eassumption|].
  assert (Z.of_nat (length (cut size t)) = size) as El.
  { unfold cut. destruct (Z.leb_spec size 0); [cbn; lia|]. rewrite length_app, length_take. cbn [length]. lia. }
  split.
  - intros x Hx. destruct (decide (buf <= x < buf + size)) as [?|Hn]; [assumption|]. destruct Hx. apply write_outside. lia.
  - intros Hp. rewrite write_list_lookup, decide_True by lia. unfold cut. rewrite (proj2 (Z.leb_gt _ _)) by lia.
    rewrite lookup_app_r by (rewrite length_take; lia). rewrite length_take, Nat.min_l by lia.
    replace (Z.to_nat (buf + size - 1 - buf) - Z.to_nat (size - 1))%nat with O by lia. reflexivity.
Qed.

(** [rt_kprintf] takes that length for the number of bytes in its buffer. *)
Theorem kprintf_hands_over fmt args t buf m : formatted fmt args = Some t ->
  0 < buf -> buf + 128 < 2 ^ 32 -> buf + Z.of_nat (length t) + 1 < 2 ^ 32 -> Z.of_nat (length t) < 2 ^ 31 ->
  mapped m buf 128 -> exists m', rt_kprintf buf fmt args m = Some (console_text t, m').
Proof.
  intros Ht Hb He Hl Hi Hm. unfold rt_kprintf. erewrite bind_eq.
  2: { apply (vsnprintf_run fmt args t); try eassumption; change (RT_CONSOLEBUF_SIZE - 1) with 127; [lia|lia|]. intros x Hx. apply Hm. lia. }
  cbv zeta. rewrite u32_small by lia. erewrite bind_eq by reflexivity. eexists. apply ret_eq.
  change (RT_CONSOLEBUF_SIZE - 1) with 127. unfold console_text, cut. change (RT_CONSOLEBUF_SIZE - 1) with 127. cbn [Z.leb Z.compare].
  change (Z.to_nat (127 - 1)) with 126%nat. change (Z.to_nat (RT_CONSOLEBUF_SIZE - 2)) with 126%nat.
  destruct (Z.ltb_spec (Z.of_nat (length t)) 127) as [Hs|Hs].
  - rewrite (proj2 (Z.ltb_ge _ _)) by lia. rewrite Nat2Z.id, take_ge by lia.
    apply read_holds. intros i v Hv. apply (write_holds m buf (t ++ [0])). apply lookup_app_l_Some, Hv.
  - replace (Z.to_nat (if 127 <? Z.of_nat (length t) then 127 else Z.of_nat (length t))) with (length (take 126 t ++ [0])).
    + apply read_holds, write_holds.
    + rewrite length_app, length_take. cbn [length]. destruct (Z.ltb_spec 127 (Z.of_nat (length t))); lia.
Qed.

(** ** Reading the digits back *)

Definition digit_value (c : Z) : Z := if c <? 58 then c - 48 else if c <? 91 then c - 55 else c - 87.
Definition read_digits (base : Z) (l : list Z) : Z := fold_left (fun a c => a * base + digit_value c) l 0.
Definition read_number (base : Z) (l : list Z) : Z :=
  match l with 45 :: l => - read_digits base l | _ => read_digits base l end.

Lemma digit_value_char large d : 0 <= d < 16 -> digit_value (digit_char large d) = d /\ digit_char large d <> 45.
Proof.
  intros H. unfold digit_char, digit_value. destruct (Z.ltb_spec d 10).
  - rewrite (proj2 (Z.ltb_lt _ _)) by lia. lia.
  - rewrite (proj2 (Z.ltb_ge _ 58)) by (destruct large; lia). destruct large; [rewrite (proj2 (Z.ltb_lt _ _)) by lia|rewrite (proj2 (Z.ltb_ge _ _)) by lia]; lia.
Qed.

(** The digits of a number fit [tmp] and are read back as the number. *)
Lemma number_digits_read large base : 2 <= base <= 16 -> forall room num, 0 <= num < 2 ^ Z.of_nat room ->
  exists ds, number_digits room large num base = Some ds /\ (length ds <= room)%nat /\ read_digits base (rev ds) = num /\
    Forall (fun c => c <> 45) ds.
Proof.
  intros Hb. induction room as [|room IH]; intros num Hn; cbn [number_digits].
  - rewrite (proj2 (Z.eqb_eq num 0)) by (cbn in Hn; lia). exists []. cbn in *. repeat split; [lia..|constructor].
  - destruct (Z.eqb_spec num 0) as [->|Hz]; [exists []; repeat split; [cbn; lia|constructor]|].
    assert (0 <= num mod base < base) as Hm by (apply Z.mod_pos_bound; lia).
    destruct (IH (num / base)) as (ds & E & L & R & F).
    { split; [apply Z.div_pos; lia|]. apply Z.div_lt_upper_bound; [lia|]. rewrite Nat2Z.inj_succ, Z.pow_succ_r in Hn by lia. nia. }
    cbn [divide]. unfold divide. rewrite E. cbn. eexists. split; [reflexivity|]. cbn [length rev]. split; [lia|].
    destruct (digit_value_char large (num mod base)) as [V N]; [lia|]. split; [|constructor; assumption].
    unfold read_digits in *. rewrite fold_left_app, R. cbn. rewrite V. pose proof (Z.div_mod num base). lia.
Qed.

Lemma number_digits_len large base k : 2 <= base -> forall room num ds, 0 <= num < base ^ Z.of_nat k ->
  number_digits room large num base = Some ds -> (length ds <= k)%nat.
Proof.
  intros Hb. induction k as [|k IH]; intros room num ds Hn E.
  - assert (num = 0) as -> by (cbn in Hn; lia). destruct room; injection E as <-; reflexivity.
  - destruct room as [|room]; cbn [number_digits] in E; destruct (num =? 0); try discriminate; try (injection E as <-; cbn; lia).
    unfold divide in E. destruct (number_digits room large (num / base) base) as [l|] eqn:El; [|discriminate]. injection E as <-.
    cbn [length]. apply le_n_S. apply (IH room (num / base) l); [|exact El]. rewrite Nat2Z.inj_succ, Z.pow_succ_r in Hn by lia.
    split; [apply Z.div_pos; lia|]. apply Z.div_lt_upper_bound; lia.
Qed.

(** The digits that [print_number] prints. *)
Lemma shown_digits large base num : 2 <= base <= 16 -> 0 <= num < 2 ^ 32 ->
  exists ds, (fun l => rev l) <$> (if num =? 0 then Some [48] else number_digits 32 large num base) = Some ds /\
    (length ds <= 32)%nat /\ (base = 10 -> (length ds <= 10)%nat) /\ read_digits base ds = num /\ Forall (fun c => c <> 45) ds.
Proof.
  intros Hb Hn. destruct (Z.eqb_spec num 0) as [->|Hz].
  - exists [48]. repeat split; cbn; try lia. constructor; [lia|constructor].
  - destruct (number_digits_read large base Hb 32 num Hn) as (ds & E & L & R & F). rewrite E. exists (rev ds). rewrite length_rev.
    split; [reflexivity|]. split; [exact L|]. split; [|split; [exact R|apply Forall_rev, F]].
    intros ->. apply (number_digits_len large 10 10 ltac:(lia) 32 num ds); [lia|exact E].
Qed.

Lemma read_number_pos base l : Forall (fun c => c <> 45) l -> read_number base l = read_digits base l.
Proof.
  intros [|c l' H _]; [reflexivity|]. unfold read_number. destruct c as [|p|p]; try reflexivity.
  do 6 (destruct p as [p|p|]; try reflexivity). contradiction.
Qed.

Lemma magnitude_spec v : s32 (u32 v) = s32 v /\ (s32 v < 0 -> u32 (- u32 v) = - s32 v) /\ (0 <= s32 v -> u32 v = s32 v).
Proof.
  unfold s32, u32. pose proof (Z.div_mod v (2 ^ 32)) as D. pose proof (Z.mod_pos_bound v (2 ^ 32)) as B. change 4294967296 with (2 ^ 32) in *.
  set (r := v mod 2 ^ 32) in *. assert ((v + 2 ^ 31) mod 2 ^ 32 = (r + 2 ^ 31) mod 2 ^ 32) as ->.
  { unfold r. rewrite Zplus_mod_idemp_l. reflexivity. }
  destruct (Z.ltb_spec r (2 ^ 31)).
  - rewrite (Z.mod_small (r + 2 ^ 31)) by lia. lia.
  - replace ((r + 2 ^ 31) mod 2 ^ 32) with (r - 2 ^ 31) by (apply (Zmod_unique _ _ 1); lia).
    split; [lia|]. split; [|lia]. intros _. symmetry. apply (Zmod_unique _ _ (-1)); lia.
Qed.

(** A conversion without flags, width and precision. *)
Lemma plain_number c base flags v : number_conv c 0 = Some (base, flags) ->
  (flags = SIGN /\ base = 10 \/ has flags SIGN = false /\ (2 <= base <= 16)) /\ (flags = 0 \/ flags = SIGN \/ flags = LARGE) /\
  formatted [37; c] [VInt v] = (fun ds => sign_text flags 0 (u32 v) ++ ds) <$> digits_text flags 0 (u32 v) base.
Proof.
  assert (forall f b, (f = 0 \/ f = SIGN \/ f = LARGE) ->
    ('(t, _) ← (t ← number_text (u32 v) b 0 (-1) (-1) f; Some (t, @nil va_arg)); t' ← Some []; Some (t ++ t')) = (fun ds => sign_text f 0 (u32 v) ++ ds) <$> digits_text f 0 (u32 v) b) as Hn.
  { intros f b Hf. unfold number_text. destruct (digits_text f 0 (u32 v) b) as [ds|]; [|reflexivity]. cbn [mbind option_bind fmap option_fmap option_map].
    assert (has f LEFT = false /\ has f ZEROPAD = false /\ prefix_of f b = []) as (-> & -> & ->) by (destruct Hf as [->|[->| ->]]; repeat split).
    unfold field, zeros, spaces. cbn [app]. replace (Z.to_nat (-1 - Z.of_nat (length ds))) with O by lia. cbn [replicate app].
    replace (Z.to_nat (-1 - _)) with O by lia. cbn [replicate app]. rewrite app_nil_r. reflexivity. }
  unfold number_conv.
  repeat match goal with
  | |- context [?x =? ?k] => destruct (Z.eqb_spec x k) as [->|]; cbn [orb]
  end; intros [= <- <-]; (split; [first [left; split; reflexivity|right; split; [reflexivity|lia]]|]; split; [auto|]; rewrite <- Hn by auto; reflexivity).
Qed.

Lemma plain_digits base flags v :
  (flags = SIGN /\ base = 10 \/ has flags SIGN = false /\ (2 <= base <= 16)) -> (flags = 0 \/ flags = SIGN \/ flags = LARGE) ->
  exists ds, digits_text flags 0 (u32 v) base = Some ds /\ (length (sign_text flags 0 (u32 v) ++ ds) <= 32)%nat /\
    read_number base (sign_text flags 0 (u32 v) ++ ds) = (if has flags SIGN then s32 v else u32 v).
Proof.
  intros [[-> ->]|[Hs Hb]] Hf.
  - destruct (magnitude_spec v) as (E1 & E2 & E3). unfold digits_text, sign_text, sign_of. change (has SIGN SIGN) with true.
    unfold narrow, magnitude. cbn [Z.eqb]. rewrite E1. destruct (Z.ltb_spec (s32 v) 0) as [Hlt|Hge].
    + rewrite E2 by exact Hlt. pose proof (u32_range (- u32 v)). rewrite E2 in * by exact Hlt.
      destruct (shown_digits (has SIGN LARGE) 10 (- s32 v)) as (ds & E & L & L' & R & F); [lia..|].
      exists ds. split; [exact E|]. specialize (L' eq_refl). cbn [Z.eqb app length]. split; [lia|]. cbn. rewrite R. lia.
    + change (has SIGN PLUS) with false. change (has SIGN SPACE) with false. pose proof (u32_range v).
      destruct (shown_digits (has SIGN LARGE) 10 (u32 v)) as (ds & E & L & L' & R & F); [lia..|].
      exists ds. split; [exact E|]. cbn [Z.eqb app]. split; [exact L|]. rewrite read_number_pos by exact F. rewrite R. apply E3, Hge.
  - unfold digits_text, sign_text, sign_of. rewrite Hs. pose proof (u32_range v).
    destruct (shown_digits (has flags LARGE) base (u32 v)) as (ds & E & L & _ & R & F); [lia..|].
    exists ds. split; [exact E|]. cbn [Z.eqb app]. split; [exact L|]. rewrite read_number_pos by exact F. exact R.
Qed.

(** C28: What [rt_sprintf] prints for [%d], [%i], [%u], [%x], [%X], [%o] and [%b] reads
    back as the number: as a signed number of 32 bits for [%d] and [%i], unsigned
    for the others.  It takes at most 32 characters, so [tmp] is large enough. *)
Theorem number_roundtrip c base flags v buf m : number_conv c 0 = Some (base, flags) ->
  0 < buf -> buf + 33 < 2 ^ 32 -> mapped m buf 33 ->
  exists t, rt_sprintf buf [37; c] [VInt v] m = Some (Z.of_nat (length t), write_list buf (t ++ [0]) m) /\
    (length t <= 32)%nat /\ read_number base t = (if has flags SIGN then s32 v else u32 v).
Proof.
  intros Hc Hb He Hm. pose proof (u32_range v) as Hv.
  destruct (plain_number c base flags v Hc) as (Hbase & Hlow & Hfmt).
  destruct (plain_digits base flags v Hbase Hlow) as (ds & Eds & Lds & Rds).
  rewrite Eds in Hfmt. cbn in Hfmt. exists (sign_text flags 0 (u32 v) ++ ds). split; [|split; [exact Lds|exact Rds]].
  unfold rt_sprintf. apply vsprintf_run; [exact Hfmt|lia..|]. intros i Hi. apply Hm. lia.
Qed.

(** "%d" of 0x80000000 *)
Lemma number_roundtrip_witness :
  let m := write_list 100 (replicate 33 0) ∅ in
  number_conv 100 0 = Some (10, SIGN) /\
  exists t, rt_sprintf 100 [37; 100] [VInt 2147483648] m = Some (Z.of_nat (length t), write_list 100 (t ++ [0]) m) /\
    (length t <= 32)%nat /\ read_number 10 t = - 2147483648.
Proof.
  intros m. split; [reflexivity|]. apply (number_roundtrip 100 10 SIGN 2147483648 100 m); [reflexivity|lia|lia|].
  intros i Hi. unfold m. rewrite write_list_lookup, decide_True by (cbn; lia). rewrite lookup_replicate_2 by lia. eauto.
Defined.

(** ** Where the output differs from the C standard's *)

Definition printed (fmt : list Z) (args : list va_arg) : option (list Z) :=
  '(n, m) ← rt_sprintf 100 fmt args (write_list 100 (replicate 16 0) ∅); Some (read_list m 100 (Z.to_nat n)).

(** "%.0d" of 5 prints nothing. *)
Example precision_zero_drops_digits : printed [37; 46; 48; 100] [VInt 5] = Some [].
Proof. vm_compute. reflexivity. Qed.

(** "%2s" of "abc" prints "ab": the field width cuts the string. *)
Example width_truncates_string : printed [37; 50; 115] [VStr (Some [97; 98; 99])] = Some [97; 98].
Proof. vm_compute. reflexivity. Qed.

(** "%.0s" of "abc" prints all of it. *)
Example precision_zero_prints_string : printed [37; 46; 48; 115] [VStr (Some [97; 98; 99])] = Some [97; 98; 99].
Proof. vm_compute. reflexivity. Qed.

(** "%hhu" of 200 prints 4294967240. *)
Example hhu_sign_extends : printed [37; 104; 104; 117] [VInt 200] = Some [52; 50; 57; 52; 57; 54; 55; 50; 52; 48].
Proof. vm_compute. reflexivity. Qed.
