(* ===== verification/EventProps.v ===== *)
(** * Properties of event sets

    Which waiters a send wakes, with which events, and what receiving does. *)

From S2P Require Import Prelude Bitmap Kernel Timer Sched IpcList Thread Sem Event.
From S2P Require Import KernelInv TimerInv SchedInv ThreadInv TimerIdle ThreadOps IpcOps SystemInv.
From S2P Require Import Demo SchedProps Blocking WaitProps SemProps.
Open Scope rt_scope.

(** ** What a send gives a waiter *)

(** A wait for the events [want] ends with the events [have] when none of them
    is missing, or for a wait for some of them when one is there; it then gets
    those that are there. *)
Definition wait_over (info want have : Z) : bool :=
  if has_flag info RT_EVENT_FLAG_AND then Z.ldiff want have =? 0 else negb (Z.land want have =? 0).

(** The events thread [t] gets when the set is [have]. *)
Definition got_of (have : Z) (k : kernel) (t : Z) : option Z :=
  th ← k_threads k !! t;
  if wait_over (th_evinfo th) (th_evset th) have then Some (Z.land (th_evset th) have) else None.

Lemma none_missing want have : (Z.land want have =? want) = (Z.ldiff want have =? 0).
Proof.
  assert (Z.lor (Z.land want have) (Z.ldiff want have) = want) as Hu.
  { apply Z.bits_inj'. intros n _. rewrite Z.lor_spec, Z.land_spec, Z.ldiff_spec.
    destruct (Z.testbit want n), (Z.testbit have n); reflexivity. }
  apply eq_true_iff_eq. rewrite !Z.eqb_eq. split; intros H; [|rewrite H, Z.lor_0_r in Hu; exact Hu].
  rewrite <- H. apply Z.bits_inj'. intros n _. rewrite Z.ldiff_spec, Z.land_spec, Z.bits_0.
  destruct (Z.testbit want n), (Z.testbit have n); reflexivity.
Qed.

Lemma event_match_spec info want have :
  has_flag info RT_EVENT_FLAG_AND = true \/ has_flag info RT_EVENT_FLAG_OR = true ->
  event_match info want have = Some (if wait_over info want have then Some (Z.land want have) else None).
Proof.
  intros Hm. unfold event_match, wait_over. rewrite <- none_missing. destruct (has_flag info RT_EVENT_FLAG_AND).
  - destruct (Z.eqb_spec (Z.land want have) want) as [H|]; [rewrite H|]; reflexivity.
  - destruct Hm as [|Ho]; [discriminate|]. rewrite Ho. reflexivity.
Qed.

(** The events that the waiters [ts] which are served consume. *)
Definition cleared (have : Z) (k : kernel) (ts : list Z) : Z :=
  fold_right Z.lor 0 (map (fun t => match got_of have k t, k_threads k !! t with
    | Some g, Some th => if has_flag (th_evinfo th) RT_EVENT_FLAG_CLEAR then g else 0
    | _, _ => 0 end) ts).

(** A wait is for all or for some of its events. *)
Definition proper_wait (k : kernel) (t : Z) : Prop :=
  forall th, k_threads k !! t = Some th ->
    has_flag (th_evinfo th) RT_EVENT_FLAG_AND = true \/ has_flag (th_evinfo th) RT_EVENT_FLAG_OR = true.

(** The waiters of [ts] that are served have left list [l]. *)
Record served (l : lid) (have : Z) (ts : list Z) (k k' : kernel) : Prop := {
  sv_frame : obj_frame k k';
  sv_current : k_current k' = k_current k;
  sv_list : k_lists k' l = filter (fun t => t ∈ ts -> got_of have k t = None) (k_lists k l);
  sv_lists : forall l', ready_list l' = false -> l' <> l -> k_lists k' l' = k_lists k l';
  sv_other : forall t, t ∉ ts \/ got_of have k t = None -> k_threads k' !! t = k_threads k !! t;
  sv_thread : forall t g, t ∈ ts -> got_of have k t = Some g ->
    exists th', k_threads k' !! t = Some th' /\ awake th' /\ th_error th' = RT_EOK /\ th_evset th' = g;
}.

Lemma ready_total k t th l :
  inv k -> k_threads k !! t = Some th -> susp_list l = true -> t ∈ k_lists k l ->
  exists k', rt_sched_thread_ready t k = Some (RT_EOK, k') /\ inv k' /\ dequeued t (-1) k k'.
Proof.
  intros I Ht Hl Hin. destruct (waiting_ready _ _ _ _ I Ht Hl Hin) as [Hs He].
  exists (ready_state t th k). split; [rewrite (thread_ready_eq _ _ _ I Ht), Hs, He; reflexivity|].
  split; [apply (ready_state_inv _ _ _ I Ht Hs)|].
  destruct (ready_state_thread t th k) as (th' & Ht' & Hw). split.
  - apply ready_state_frame.
  - apply ready_state_current.
  - intros l' Hl'. apply ready_state_lists, Hl'.
  - intros x Hx. apply ready_state_other, Hx.
  - exists th, th'. auto.
Qed.

(** A waiter is given its events. *)
Definition give (g : Z) (th : thread) : thread := th <| th_evset := g |>.
Definition no_error (th : thread) : thread := th <| th_error := RT_EOK |>.

(** Serving one waiter. *)
Lemma serve_total k t th l g :
  kinv k -> k_threads k !! t = Some th -> susp_list l = true -> t ∈ k_lists k l ->
  exists k1 k2 k', upd_thread t (give g) k = Some (tt, k1) /\
    rt_sched_thread_ready t k1 = Some (RT_EOK, k2) /\
    upd_thread t no_error k2 = Some (tt, k') /\ kinv k' /\
    obj_frame k k' /\ k_current k' = k_current k /\
    (forall l', ready_list l' = false -> k_lists k' l' = filter (fun x => x <> t) (k_lists k l')) /\
    (forall x, x <> t -> k_threads k' !! x = k_threads k !! x) /\
    exists th', k_threads k' !! t = Some th' /\ awake th' /\ th_error th' = RT_EOK /\ th_evset th' = g.
Proof.
  intros [I Q] Ht Hl Hin. set (th1 := give g th). set (k1 := k <| k_threads ::= insert t th1 |>).
  assert (upd_thread t (give g) k = Some (tt, k1)) as H1 by exact (upd_thread_eq t _ k th Ht).
  assert (inv k1) as I1 by (eapply (upd_thread_same _ t (give g)); [intros; repeat split|exact I|exact H1]).
  pose proof (upd_thread_idle _ t (give g) ltac:(intros ? HH; exact HH) _ _ _ Q H1) as Q1.
  assert (k_threads k1 !! t = Some th1) as Ht1 by apply lookup_insert_eq.
  destruct (ready_total k1 t th1 l I1 Ht1 Hl Hin) as (k2 & H2 & I2 & D).
  pose proof (thread_ready_idle _ t _ _ _ Q1 H2) as Q2.
  destruct (dq_thread _ _ _ _ D) as (tha & th2 & Ea & Ht2 & W). rewrite Ht1 in Ea. injection Ea as <-.
  set (k3 := k2 <| k_threads ::= insert t (no_error th2) |>).
  assert (upd_thread t no_error k2 = Some (tt, k3)) as H3 by exact (upd_thread_eq t _ k2 th2 Ht2).
  exists k1, k2, k3. split; [exact H1|]. split; [exact H2|]. split; [exact H3|]. split; [split|].
  - eapply (upd_thread_same _ t no_error); [apply error_same_sched|exact I2|exact H3].
  - refine (upd_thread_idle _ t no_error _ _ _ _ Q2 H3); intros ? HH; exact HH.
  - split; [etransitivity; [|etransitivity; [apply (dq_frame _ _ _ _ D)|]]; split; reflexivity|].
    split; [apply (dq_current _ _ _ _ D)|]. split; [intros l' Hl'; apply (dq_lists _ _ _ _ D l' Hl')|]. split.
    + intros x Hx. unfold k3. cbv [set_field]. cbn. rewrite lookup_insert_ne by congruence.
      rewrite (dq_other _ _ _ _ D x Hx). apply lookup_insert_ne. congruence.
    + exists (no_error th2). split; [apply lookup_insert_eq|].
      split; [destruct (wk_stat _ _ W); [right|left]; assumption|]. split; [reflexivity|apply (wk_evset _ _ W)].
Qed.

Lemma got_of_other have k k' t : k_threads k' !! t = k_threads k !! t -> got_of have k' t = got_of have k t.
Proof. intros H. unfold got_of. rewrite H. reflexivity. Qed.

Lemma cleared_other have k k' ts : (forall t, t ∈ ts -> k_threads k' !! t = k_threads k !! t) ->
  cleared have k' ts = cleared have k ts.
Proof.
  intros H. unfold cleared. f_equal. apply map_ext_in. intros t Ht. apply list_elem_of_In in Ht.
  rewrite (got_of_other have k k' t), (H t Ht) by (apply H, Ht). reflexivity.
Qed.

Lemma served_cons l have t ts g k k1 k' :
  t ∉ ts -> got_of have k t = Some g -> t ∈ k_lists k l -> obj_frame k k1 -> k_current k1 = k_current k ->
  (forall l', ready_list l' = false -> k_lists k1 l' = filter (fun x => x <> t) (k_lists k l')) ->
  (forall x, x <> t -> k_threads k1 !! x = k_threads k !! x) ->
  (exists th', k_threads k1 !! t = Some th' /\ awake th' /\ th_error th' = RT_EOK /\ th_evset th' = g) ->
  susp_list l = true -> inv k -> served l have ts k1 k' -> served l have (t :: ts) k k'.
Proof.
  intros Hn Hg Ht F C L O (th' & Ht' & Ha & He & Hev) Hl I S. pose proof (susp_not_ready l Hl) as Hr.
  assert (forall x, x <> t -> got_of have k1 x = got_of have k x) as Hgo by (intros x Hx; apply got_of_other, O, Hx).
  split.
  - etransitivity; [exact F|apply (sv_frame _ _ _ _ _ S)].
  - rewrite (sv_current _ _ _ _ _ S). exact C.
  - rewrite (sv_list _ _ _ _ _ S), L, list_filter_filter by exact Hr. apply list_filter_iff. intros x.
    rewrite elem_of_cons. destruct (decide (x = t)) as [->|Hx]; [|rewrite Hgo by exact Hx; tauto].
    split; [intros [_ []]; reflexivity|]. intros H. rewrite H in Hg by auto. discriminate.
  - intros l' Hl' Hne. rewrite (sv_lists _ _ _ _ _ S) by assumption. rewrite L by exact Hl'. apply filter_ne_notin.
    intros Hin. apply Hne, (i_uniq _ _ I _ _ _ Hin Ht).
  - intros x Hx. assert (x <> t) as Hxt by (intros ->; rewrite elem_of_cons in Hx; destruct Hx as [Hx|Hx]; [tauto|congruence]).
    rewrite <- (O x Hxt). apply (sv_other _ _ _ _ _ S). rewrite Hgo by exact Hxt. rewrite elem_of_cons in Hx. tauto.
  - intros x gx Hx Hgx. destruct (decide (x = t)) as [->|Hxt].
    + rewrite Hg in Hgx. injection Hgx as <-. exists th'. rewrite (sv_other _ _ _ _ _ S) by (left; exact Hn). auto.
    + apply elem_of_cons in Hx as [->|Hx]; [contradiction|]. apply (sv_thread _ _ _ _ _ S x gx Hx).
      rewrite Hgo by exact Hxt. exact Hgx.
Qed.

Lemma served_skip l have t ts k k' :
  got_of have k t = None -> served l have ts k k' -> served l have (t :: ts) k k'.
Proof.
  intros Hg S. split; try apply S.
  - rewrite (sv_list _ _ _ _ _ S). apply list_filter_iff. intros x. rewrite elem_of_cons.
    destruct (decide (x = t)) as [->|]; tauto.
  - intros x Hx. apply (sv_other _ _ _ _ _ S). rewrite elem_of_cons in Hx.
    destruct (decide (x = t)) as [->|]; tauto.
  - intros x g [->|Hx]%elem_of_cons Hgx; [congruence|]. apply (sv_thread _ _ _ _ _ S x g Hx Hgx).
Qed.

Lemma filter_all {A} (P : A -> Prop) `{!forall x, Decision (P x)} (l : list A) :
  (forall x, P x) -> filter P l = l.
Proof. intros HP. induction l as [|x l IH]; [reflexivity|]. rewrite filter_cons_True, IH by auto. reflexivity. Qed.

Lemma filter_ext_in {A} (P Q : A -> Prop) `{!forall x, Decision (P x)} `{!forall x, Decision (Q x)} (l : list A) :
  (forall x, x ∈ l -> P x <-> Q x) -> filter P l = filter Q l.
Proof.
  induction l as [|x l IH]; intros HP; [reflexivity|].
  assert (filter P l = filter Q l) as E by (apply IH; intros y Hy; apply HP, list_elem_of_further, Hy).
  destruct (HP x (list_elem_of_here _ _)) as [HPQ HQP]. destruct (decide (P x)) as [Hx|Hx].
  - rewrite !filter_cons_True by auto. congruence.
  - rewrite !filter_cons_False by auto. exact E.
Qed.

(** The walk over the waiters. *)
Lemma event_send_loop_total l have ts k c b :
  kinv k -> susp_list l = true -> NoDup ts -> (forall t, t ∈ ts -> t ∈ k_lists k l) ->
  (forall t, t ∈ ts -> proper_wait k t) ->
  exists k', event_send_loop ts have c b k =
      Some (Some (Z.lor c (cleared have k ts), b || existsb (fun t => bool_decide (is_Some (got_of have k t))) ts), k') /\
    kinv k' /\ served l have ts k k'.
Proof.
  intros HK Hl. revert k c b HK. induction ts as [|t ts IH]; intros k c b HK Hnd Hin Hp; cbn [event_send_loop].
  { exists k. rewrite Z.lor_0_r, orb_false_r. split; [reflexivity|]. split; [exact HK|]. split; try reflexivity.
    - symmetry. apply filter_all. intros t []%elem_of_nil.
    - intros t g []%elem_of_nil. }
  apply NoDup_cons in Hnd as [Hn Hnd]. assert (t ∈ k_lists k l) as Ht by (apply Hin, list_elem_of_here).
  destruct (i_exists _ _ (proj1 HK) _ _ Ht) as [th Hth]. erewrite bind_eq by (apply get_thread_eq; exact Hth).
  pose proof (Hp t (list_elem_of_here _ _) th Hth) as Hmode.
  rewrite (event_match_spec _ _ _ Hmode).
  assert (got_of have k t = if wait_over (th_evinfo th) (th_evset th) have then Some (Z.land (th_evset th) have) else None)
    as Hgot by (unfold got_of; rewrite Hth; reflexivity). rewrite <- Hgot.
  assert (forall k1 x, (forall y, y <> t -> k_threads k1 !! y = k_threads k !! y) -> x ∈ ts -> k_threads k1 !! x = k_threads k !! x) as Hsame.
  { intros k1 x H Hx. apply H. intros ->. contradiction. }
  unfold cleared. cbn [map fold_right existsb]. rewrite Hth. clear Hgot. destruct (got_of have k t) as [g|] eqn:Hgot.
  - destruct (serve_total k t th l g HK Hth Hl Ht) as (ka & kb & k1 & Ha & Hb & Hc & HK1 & F1 & C1 & L1 & O1 & T1).
    set (c1 := if has_flag (th_evinfo th) RT_EVENT_FLAG_CLEAR then Z.lor c g else c).
    destruct (IH k1 c1 true HK1 Hnd) as (k' & H' & HK' & S').
    + intros x Hx. rewrite L1 by (apply susp_not_ready, Hl). apply elem_of_filter_ne.
      split; [intros ->; contradiction|apply Hin, list_elem_of_further, Hx].
    + intros x Hx thx Hthx. rewrite (Hsame k1 x O1 Hx) in Hthx. exact (Hp x (list_elem_of_further _ _ _ Hx) thx Hthx).
    + exists k'. split; [|split; [exact HK'|exact (served_cons l have t ts g k k1 k' Hn Hgot Ht F1 C1 L1 O1 T1 Hl (proj1 HK) S')]].
      erewrite bind_eq by exact Ha. cbv zeta. erewrite bind_eq by exact Hb. erewrite bind_eq by exact Hc. fold c1.
      rewrite H'. rewrite (cleared_other have k k1 ts (fun x Hx => Hsame k1 x O1 Hx)).
      cbn [bool_decide is_Some]. rewrite bool_decide_true by eauto. cbn [orb]. rewrite orb_true_r.
      do 4 f_equal. fold (cleared have k ts). unfold c1.
      destruct (has_flag _ RT_EVENT_FLAG_CLEAR); [symmetry; apply Z.lor_assoc|reflexivity].
  - rewrite bool_decide_false by (intros []; discriminate). cbn [orb].
    destruct (IH k c b HK Hnd) as (k' & H' & HK' & S').
    + intros x Hx. apply Hin, list_elem_of_further, Hx.
    + intros x Hx. apply Hp, list_elem_of_further, Hx.
    + exists k'. split; [exact H'|]. split; [exact HK'|]. eapply served_skip; eassumption.
Qed.

(** ** Sending *)

Lemma check_event_eq e x k : k_events k !! e = Some x -> event_valid x = true -> check_event e k = Some (x, k).
Proof.
  intros Hx Hv. unfold check_event. erewrite bind_eq by (apply get_obj_eq; exact Hx).
  erewrite bind_eq by (apply assert_eq; exact Hv). reflexivity.
Qed.

Definition with_event (e : Z) (x : event) (k : kernel) : kernel := k <| k_events ::= insert e x |>.

Lemma upd_event_eq e x f k : k_events k !! e = Some x -> upd_event e f k = Some (tt, with_event e (f x) k).
Proof. intros Hx. unfold upd_event. rewrite (upd_obj_eq k_events e f x k Hx). reflexivity. Qed.

Lemma kinv_with_event e x k : kinv k -> kinv (with_event e x k).
Proof. intros HK. eapply kinv_same; [exact HK|reflexivity..]. Qed.

(** The switch after the walk. *)
Lemma resched_when k c b :
  kinv k -> k_current k = Some c ->
  exists k', when b rt_schedule k = Some (tt, k') /\ kinv k' /\ sched_frame k k' /\
    (b = true -> k_lock_nest k = 0 -> runs_most_urgent k').
Proof.
  intros [I Q] Hc. destruct b; cbn [when].
  - destruct (i_cur _ _ I _ Hc) as [cth Hct].
    destruct (schedule_total k c cth I Hc Hct) as (k' & H & I' & F & _). exists k'. split; [exact H|].
    split; [split; [exact I'|exact (schedule_idle _ _ _ _ Q H)]|]. split; [exact F|]. intros _ Hn.
    destruct (schedule_most_urgent k c cth I Hc Hct Hn) as (k2 & H2 & _ & _ & M).
    rewrite H in H2. injection H2 as <-. exact M.
  - exists k. split; [reflexivity|]. split; [split; assumption|]. split; [reflexivity|discriminate].
Qed.

(** What a send of events leaves behind. *)
Record event_sent (e have : Z) (x : event) (k k' : kernel) : Prop := {
  es_set : k_events k' !! e = Some (x <| ev_set := Z.ldiff have (cleared have k (k_lists k (LEvent e))) |>);
  es_list : k_lists k' (LEvent e) = filter (fun t => got_of have k t = None) (k_lists k (LEvent e));
  es_lists : forall l, ready_list l = false -> l <> LEvent e -> k_lists k' l = k_lists k l;
  es_served : forall t g, t ∈ k_lists k (LEvent e) -> got_of have k t = Some g ->
    exists th', k_threads k' !! t = Some th' /\ awake th' /\ th_error th' = RT_EOK /\ th_evset th' = g;
  es_other : forall t, t ∉ k_lists k (LEvent e) \/ got_of have k t = None ->
    restat (k_threads k !! t) (k_threads k' !! t);
  es_switch : forall t g, t ∈ k_lists k (LEvent e) -> got_of have k t = Some g -> k_lock_nest k = 0 ->
    runs_most_urgent k';
}.

Lemma sent_of_served e have x x1 k k1 k2 k3 :
  served (LEvent e) have (k_lists k (LEvent e)) (with_event e x1 k) k1 ->
  k_events k2 !! e = Some (x <| ev_set := Z.ldiff have (cleared have k (k_lists k (LEvent e))) |>) ->
  k_lists k2 = k_lists k1 -> k_threads k2 = k_threads k1 -> sched_frame k2 k3 ->
  (existsb (fun t => bool_decide (is_Some (got_of have k t))) (k_lists k (LEvent e)) = true ->
   k_lock_nest k = 0 -> runs_most_urgent k3) ->
  event_sent e have x k k3.
Proof.
  intros S He Hl Ht F M. split.
  - rewrite (of_events _ _ (sched_obj_frame _ _ F)). exact He.
  - rewrite (sf_lists _ _ F), Hl, (sv_list _ _ _ _ _ S) by reflexivity. apply filter_ext_in.
    intros t Hin. tauto.
  - intros l Hr Hne. rewrite (sf_lists _ _ F), Hl by exact Hr. apply (sv_lists _ _ _ _ _ S); assumption.
  - intros t g Hin Hg. destruct (sv_thread _ _ _ _ _ S t g Hin Hg) as (th1 & Ht1 & Ha & Her & Hev).
    pose proof (sf_threads _ _ F t) as R. rewrite Ht, Ht1 in R. destruct R as (s & Ht3 & Hs).
    exists (th1 <| th_stat := s |>). split; [exact Ht3|]. split; [apply awake_restat; assumption|auto].
  - intros t Hn. pose proof (sf_threads _ _ F t) as R. rewrite Ht, (sv_other _ _ _ _ _ S t Hn) in R. exact R.
  - intros t g Hin Hg. apply M. apply existsb_exists. exists t. split; [apply list_elem_of_In, Hin|].
    apply bool_decide_eq_true. eauto.
Qed.

(** C15: Sending a non-empty set adds it to the events of the set and walks over
    all the waiters: exactly those whose condition (all or some of their events)
    holds for the new set leave the list,
    awake with error RT_EOK and the events they got, the others stay in their
    order with their threads unchanged; the events of the waiters that asked for
    it are then cleared, and with the scheduler unlocked the most urgent thread
    runs.  *)
Theorem event_send_wakes k e x set c :
  kinv k -> k_current k = Some c -> k_events k !! e = Some x -> event_valid x = true -> set <> 0 ->
  (forall t, t ∈ k_lists k (LEvent e) -> proper_wait k t) ->
  exists k', rt_event_send e set k = Some (RT_EOK, k') /\ kinv k' /\
    event_sent e (Z.lor (ev_set x) set) x k k'.
Proof.
  intros HK Hc Hx Hv Hs Hp. unfold rt_event_send. set (have := Z.lor (ev_set x) set).
  set (x1 := x <| ev_set := have |>). set (ka := with_event e x1 k).
  erewrite bind_eq by (apply check_event_eq; eassumption).
  rewrite (proj2 (Z.eqb_neq _ _) Hs). erewrite bind_eq by (apply upd_event_eq; exact Hx).
  change (with_event e (x <| ev_set ::= (fun s => Z.lor s set) |>) k) with ka.
  assert (k_events ka !! e = Some x1) as Hx1 by apply lookup_insert_eq.
  erewrite bind_eq by (apply get_obj_eq; exact Hx1). erewrite bind_eq by reflexivity. cbv beta.
  change (k_lists ka (LEvent e)) with (k_lists k (LEvent e)). change (ev_set x1) with have.
  set (ts := k_lists k (LEvent e)). set (need := cleared have k ts).
  set (sw := existsb (fun t => bool_decide (is_Some (got_of have k t))) ts).
  destruct (event_send_loop_total (LEvent e) have ts ka 0 false (kinv_with_event _ _ _ HK) eq_refl)
    as (kb & Hb & HKb & Sb); [apply (i_nodup _ _ (proj1 HK))|auto|exact Hp|].
  erewrite bind_eq by exact Hb. cbv beta iota. rewrite Z.lor_0_l, orb_false_l.
  change (cleared have ka ts) with need.
  change (existsb (fun t => bool_decide (is_Some (got_of have ka t))) ts) with sw.
  assert (k_events kb !! e = Some x1) as Hxb by (rewrite (of_events _ _ (sv_frame _ _ _ _ _ Sb)); exact Hx1).
  set (x2 := x <| ev_set := Z.ldiff have need |>).
  assert (exists kc, when (negb (need =? 0)) (upd_event e (fun x => x <| ev_set ::= (fun s => Z.ldiff s need) |>)) kb
    = Some (tt, kc) /\ kinv kc /\ k_events kc !! e = Some x2 /\ k_lists kc = k_lists kb /\
    k_threads kc = k_threads kb /\ k_current kc = k_current kb /\ k_lock_nest kc = k_lock_nest kb)
    as (kc & H1 & HKc & Hxc & Hl & Ht & Hcc & Hnc).
  { destruct (Z.eqb_spec need 0) as [E|_]; cbn [negb when].
    - exists kb. split; [reflexivity|]. split; [exact HKb|]. split; [|auto].
      unfold x2. rewrite E, Z.ldiff_0_r. exact Hxb.
    - exists (with_event e x2 kb). split; [exact (upd_event_eq e x1 _ kb Hxb)|].
      split; [apply kinv_with_event, HKb|]. split; [apply lookup_insert_eq|auto]. }
  erewrite bind_eq by exact H1.
  destruct (resched_when kc c sw HKc) as (kd & H2 & HKd & F & M).
  { rewrite Hcc, (sv_current _ _ _ _ _ Sb). exact Hc. }
  exists kd. split; [erewrite bind_eq by exact H2; reflexivity|]. split; [exact HKd|].
  eapply sent_of_served; [exact Sb|exact Hxc|exact Hl|exact Ht|exact F|].
  intros H Hn. apply M; [exact H|]. rewrite Hnc, (of_nest _ _ (sv_frame _ _ _ _ _ Sb)). exact Hn.
Qed.

(** ** Receiving *)

(** The caller's record is [th'] in store [k]. *)
Definition with_thread (t : Z) (th' : thread) (k : kernel) : kernel := k <| k_threads ::= insert t th' |>.

Lemma upd_with_thread t th f k : upd_thread t f (with_thread t th k) = Some (tt, with_thread t (f th) k).
Proof.
  rewrite (upd_thread_eq t f _ th) by apply lookup_insert_eq. unfold with_thread. destruct k.
  unfold set_field. cbn. rewrite insert_insert_eq. reflexivity.
Qed.

Lemma recv_status (b1 b2 c1 c2 : bool) (k : kernel) : b1 = true \/ b2 = true ->
  (if b1 then mret c1 else if b2 then mret c2 else st_fail : K bool) k = Some (if b1 then c1 else c2, k).
Proof. destruct b1; [reflexivity|]. intros [H | ->]; [discriminate|reflexivity]. Qed.

(** A thread that receives events gets the requested events that are set at
    once when all (AND) or some (OR) of them are there, and with CLEAR the
    requested ones are removed; otherwise it returns -RT_ETIMEOUT without waiting
    if the timeout is 0, and else stores what it waits for, where rt_event_send
    looks for it, and sleeps in the list of the event by its discipline.  *)
Theorem event_recv_behaviour t th k e x set option timeout f :
  in_thread t th k -> k_events k !! e = Some x -> event_valid x = true -> flag_ok (ob_flag (ev_ob x)) ->
  set <> 0 -> has_flag option RT_EVENT_FLAG_AND = true \/ has_flag option RT_EVENT_FLAG_OR = true ->
  timeout < HALF_TICK ->
  let got := Z.land (ev_set x) set in
  if (if has_flag option RT_EVENT_FLAG_AND then got =? set else negb (got =? 0)) then
    let k1 := with_thread t (th <| th_error := RT_EOK |> <| th_evset := got |> <| th_evinfo := option |>) k in
    _rt_event_recv e set option timeout f k = Some (Done RT_EOK [got],
      if has_flag option RT_EVENT_FLAG_CLEAR then with_event e (x <| ev_set := Z.ldiff (ev_set x) set |>) k1 else k1)
  else if timeout =? 0 then
    _rt_event_recv e set option timeout f k =
      Some (Done (- RT_ETIMEOUT) [], with_thread t (th <| th_error := - RT_ETIMEOUT |>) k)
  else exists k', _rt_event_recv e set option timeout f k = Some (Waiting (PcEventRecv e), k') /\ kinv k' /\
    asleep t (LEvent e) (ob_flag (ev_ob x)) timeout
      (with_thread t (th <| th_error := - RT_EINTR |> <| th_evset := set |> <| th_evinfo := option |>) k) k'.
Proof.
  intros C Hx Hv Hf Hs Hopt Hto. cbv zeta. unfold _rt_event_recv.
  erewrite bind_eq by (apply check_event_eq; eassumption).
  erewrite bind_eq by (eapply scheduler_available_eq; exact C).
  rewrite (proj2 (Z.eqb_neq _ _) Hs). erewrite bind_eq by (apply the_self_eq, C).
  erewrite bind_eq by (exact (upd_thread_eq t _ k th (it_thread _ _ _ C))).
  change (k <| k_threads ::= _ |>) with (with_thread t (th <| th_error := - RT_EINTR |>) k).
  erewrite bind_eq by (apply (get_obj_eq k_events e x); exact Hx).
  erewrite bind_eq by (apply recv_status, Hopt).
  destruct (if has_flag option RT_EVENT_FLAG_AND then Z.land (ev_set x) set =? set
            else negb (Z.land (ev_set x) set =? 0)).
  - erewrite bind_eq by apply upd_with_thread.
    destruct (has_flag option RT_EVENT_FLAG_CLEAR); cbn [when].
    + erewrite bind_eq by (apply upd_event_eq; exact Hx). reflexivity.
    + reflexivity.
  - destruct (Z.eqb_spec timeout 0) as [|H0]; [erewrite bind_eq by apply upd_with_thread; reflexivity|].
    erewrite bind_eq by apply upd_with_thread.
    match goal with |- context [with_thread t ?th' k] => set (th2 := th' : thread) end.
    assert (in_thread t th2 (with_thread t th2 k)) as C2.
    { apply (in_thread_upd t th k (fun th => th <| th_error := - RT_EINTR |> <| th_evset := set |> <| th_evinfo := option |>) C);
        [intros; repeat split|auto]. }
    destruct (sleep_total _ _ _ (LEvent e) (ob_flag (ev_ob x)) f timeout C2 eq_refl Hf Hto)
      as (k1 & k2 & k3 & H1 & _ & H2 & H3 & HK & A).
    exists k3. split; [|split; [exact HK|exact A]].
    erewrite bind_eq by exact H1. cbn [negb Z.eqb RT_EOK].
    erewrite bind_eq by exact H2. erewrite bind_eq by exact H3. reflexivity.
Qed.

(** ** Examples *)

(** Thread 300 waits for events 1 and 2 together, to be cleared. *)
Definition ALL_CLEAR : Z := Z.lor RT_EVENT_FLAG_AND RT_EVENT_FLAG_CLEAR.
Definition k_event0 : kernel := run (rt_event_init 8 RT_IPC_FLAG_FIFO) k_boot.
Definition k_event_wait : kernel :=
  run (_rt_event_recv 8 3 ALL_CLEAR (-1) RT_INTERRUPTIBLE)
    (run (rt_thread_startup 300) (run (rt_thread_create (Some 300) (Some 0) 5 20) k_event0)).
Definition event_of (k : kernel) (e : Z) : event := default (mkEvent (mkIpc false false 0) 0) (k_events k !! e).

Lemma k_event0_kinv : kinv k_event0.
Proof. apply run_kinv; [apply event_init_preserves|apply k_boot_kinv]. Qed.

Lemma k_event_wait_kinv : kinv k_event_wait.
Proof.
  apply run_kinv; [apply event_recv_preserves|]. apply run_kinv; [preserve|].
  apply run_kinv; [apply thread_create_kinv; lia|]. apply k_event0_kinv.
Qed.

Lemma k_event0_in_thread : in_thread 100 (thread_of k_event0 100) k_event0.
Proof. split; try (vm_compute; reflexivity). apply k_event0_kinv. Qed.

Lemma event_send_wakes_witness :
  k_lists k_event_wait (LEvent 8) = [300] /\
  exists k' th', rt_event_send 8 7 k_event_wait = Some (RT_EOK, k') /\ k_lists k' (LEvent 8) = [] /\
    k_threads k' !! 300 = Some th' /\ th_evset th' = 3 /\ ev_set (event_of k' 8) = 4.
Proof.
  assert (k_lists k_event_wait (LEvent 8) = [300]) as Hl by (vm_compute; reflexivity). split; [exact Hl|].
  destruct (event_send_wakes k_event_wait 8 (event_of k_event_wait 8) 7 100 k_event_wait_kinv)
    as (k' & H & _ & E); try (vm_compute; reflexivity); [lia| |].
  - intros t Ht th Hth. rewrite Hl in Ht. apply list_elem_of_singleton in Ht as ->. left.
    assert (option_map th_evinfo (k_threads k_event_wait !! 300) = Some ALL_CLEAR) as Hi by (vm_compute; reflexivity).
    rewrite Hth in Hi. injection Hi as Hi. rewrite Hi. reflexivity.
  - assert (300 ∈ k_lists k_event_wait (LEvent 8)) as Hin by (rewrite Hl; apply list_elem_of_here).
    destruct (es_served _ _ _ _ _ E 300 3 Hin) as (th' & Ht' & _ & _ & Hg); [vm_compute; reflexivity|].
    exists k', th'. split; [exact H|]. split; [rewrite (es_list _ _ _ _ _ E), Hl; vm_compute; reflexivity|].
    split; [exact Ht'|]. split; [exact Hg|]. unfold event_of. rewrite (es_set _ _ _ _ _ E). vm_compute. reflexivity.
Defined.

Lemma event_recv_behaviour_witness :
  in_thread 100 (thread_of k_event0 100) k_event0 /\
  exists k', _rt_event_recv 8 3 ALL_CLEAR (-1) RT_INTERRUPTIBLE k_event0 = Some (Waiting (PcEventRecv 8), k') /\
    k_lists k' (LEvent 8) = [100].
Proof.
  split; [exact k_event0_in_thread|].
  pose proof (event_recv_behaviour 100 (thread_of k_event0 100) k_event0 8 (event_of k_event0 8) 3 ALL_CLEAR (-1)
    RT_INTERRUPTIBLE k_event0_in_thread) as T.
  assert (ev_set (event_of k_event0 8) = 0) as Hs by (vm_compute; reflexivity). rewrite Hs in T.
  destruct T as (k' & H & _ & A); [vm_compute; reflexivity..|left; vm_compute; reflexivity|lia|left; reflexivity|
    vm_compute; reflexivity|].
  exists k'. split; [exact H|]. rewrite (as_list _ _ _ _ _ _ A). vm_compute. reflexivity.
Defined.
