(* ===== verification/MutexProps.v ===== *)
(** * Properties of mutexes

    Ownership, recursion and hand-over, and the inheritance of priorities along
    a chain of owners. *)

From S2P Require Import Prelude Bitmap Kernel Timer Sched IpcList Thread Sem Mutex.
From S2P Require Import KernelInv TimerInv SchedInv ThreadInv TimerIdle ThreadOps IpcOps MutexOps SystemInv.
From S2P Require Import Demo SchedProps Blocking WaitProps SemProps.
Open Scope rt_scope.

(** ** Changing the priority of a thread *)

(** [k'] is [k] with other priorities: of the threads [ts], which may have moved
    in the ready queues and in the queues of mutexes, and of mutexes. *)
Record reprioritised (ts : list Z) (k k' : kernel) : Prop := {
  rp_taken : k_taken k' = k_taken k;
  rp_nest : k_lock_nest k' = k_lock_nest k;
  rp_irq : k_irq_nest k' = k_irq_nest k;
  rp_tick : k_tick k' = k_tick k;
  rp_current : k_current k' = k_current k;
  rp_timers : k_timer_list k' = k_timer_list k;
  rp_lists : forall l, ready_list l = false -> (forall m, l <> LMutex m) -> k_lists k' l = k_lists k l;
  rp_members : forall m u, u ∈ k_lists k' (LMutex m) <-> u ∈ k_lists k (LMutex m);
  rp_threads : forall u, u ∉ ts -> k_threads k' !! u = k_threads k !! u;
  rp_same : forall u th, k_threads k !! u = Some th -> exists th', k_threads k' !! u = Some th' /\
    stat_of th' = stat_of th /\ th_pending th' = th_pending th /\ th_init_prio th' = th_init_prio th;
  rp_mutexes : forall m x, k_mutexes k !! m = Some x -> exists p,
    k_mutexes k' !! m = Some (x <| mx_priority := p |>);
}.

Lemma change_priority_total t p k th :
  inv k -> k_threads k !! t = Some th -> 0 <= p < RT_THREAD_PRIORITY_MAX ->
  exists k', rt_sched_thread_change_priority t p k = Some (RT_EOK, k') /\ inv k' /\
    obj_frame k k' /\ k_timer_list k' = k_timer_list k.
Proof.
  intros I Ht Hp.
  assert (exists k', rt_sched_thread_change_priority t p k = Some (RT_EOK, k') /\
    obj_frame k k' /\ k_timer_list k' = k_timer_list k) as (k' & H & F).
  2: { exists k'. split; [exact H|]. split; [|exact F]. apply (change_priority_spec _ _ _ _ _ I (proj1 Hp) H). }
  unfold rt_sched_thread_change_priority.
  erewrite bind_eq by (apply assert_eq, Z.ltb_lt, Hp). unfold rt_sched_thread_get_stat. rewrite bind_assoc.
  erewrite bind_eq by (apply get_thread_eq; exact Ht). cbv zeta.
  erewrite bind_eq by reflexivity. destruct (stat_of th =? RT_THREAD_READY) eqn:Hr; bool_to_prop.
  - destruct (remove_thread_total t th k Ht) as [k1 H1]. erewrite bind_eq by exact H1.
    destruct (proj1 (so_ready _ _ _ _ _ (inv_stat _ _ _ I Ht)) Hr) as [q Hq].
    destruct (ready_off _ _ _ _ _ I (fun H => H) Ht Hq) as (_ & _ & Hoff).
    pose proof (sched_frame_remove _ _ _ _ _ I H1 Hoff) as F1.
    pose proof (remove_thread_spec _ _ _ _ _ I H1) as (_ & _ & Hlo & _).
    pose (a := with_prio p th <| th_stat := RT_THREAD_INIT |>).
    pose (k2 := k1 <| k_threads ::= insert t (with_prio p th) |>).
    pose (k3 := k2 <| k_threads ::= insert t a |>). exists (insert_state t a k3). split.
    + erewrite bind_eq by (apply (upd_thread_eq t _ k1 th); rewrite (lo_threads _ _ Hlo); exact Ht).
      erewrite bind_eq by (apply (upd_thread_eq t _ k2 (with_prio p th)), lookup_insert_eq).
      erewrite bind_eq by (apply (insert_thread_eq t a k3), lookup_insert_eq). reflexivity.
    + split.
      * etransitivity; [apply sched_obj_frame, F1|].
        transitivity k3; [split; reflexivity|apply insert_state_frame].
      * rewrite <- (sf_timers _ _ F1). unfold insert_state. destruct (bool_decide _); reflexivity.
  - exists (k <| k_threads ::= insert t (with_prio p th) |>). split; [|split; [split|]; reflexivity].
    erewrite bind_eq by (apply upd_thread_eq; exact Ht). reflexivity.
Qed.

Lemma change_priority_reprioritised t p k th :
  inv k -> k_threads k !! t = Some th -> 0 <= p < RT_THREAD_PRIORITY_MAX ->
  exists k', rt_sched_thread_change_priority t p k = Some (RT_EOK, k') /\ inv k' /\ reprioritised [t] k k' /\
    prio_of k' t = p /\ k_mutexes k' = k_mutexes k /\
    (forall l, ready_list l = false -> k_lists k' l = k_lists k l).
Proof.
  intros I Ht Hp. destruct (change_priority_total t p k th I Ht Hp) as (k' & H & I' & F & Htl).
  destruct (change_priority_spec _ _ _ _ _ I (proj1 Hp) H)
    as (_ & _ & a & a' & Ha & Hk & Hpr & Hst & Hc & Hm & Hl & _ & Hpe & Hin & _).
  rewrite Ht in Ha. injection Ha as <-.
  exists k'. split; [exact H|]. split; [exact I'|]. split; [|split; [|auto]].
  - split; try apply F; try assumption; auto.
    + intros m u. rewrite Hl by reflexivity. reflexivity.
    + intros u Hu. rewrite Hk. apply lookup_insert_ne. intros ->. apply Hu, list_elem_of_here.
    + intros u uth Hu. rewrite Hk. destruct (decide (u = t)) as [->|Hne].
      * rewrite lookup_insert_eq. exists a'. rewrite Ht in Hu. injection Hu as <-. auto.
      * rewrite lookup_insert_ne by congruence. exists uth. auto.
    + intros m x Hx. exists (mx_priority x). rewrite Hm, Hx. destruct x. reflexivity.
  - unfold prio_of. rewrite Hk, lookup_insert_eq. exact Hpr.
Qed.

Lemma reprioritised_trans ts1 ts2 ts k1 k2 k3 :
  reprioritised ts1 k1 k2 -> reprioritised ts2 k2 k3 -> (forall u, u ∈ ts1 \/ u ∈ ts2 -> u ∈ ts) ->
  reprioritised ts k1 k3.
Proof.
  intros A B H. split; try (destruct A, B; congruence).
  - intros l Hl Hn. rewrite (rp_lists _ _ _ B) by assumption. apply (rp_lists _ _ _ A); assumption.
  - intros m u. rewrite (rp_members _ _ _ B). apply (rp_members _ _ _ A).
  - intros u Hu. rewrite (rp_threads _ _ _ B) by auto. apply (rp_threads _ _ _ A). auto.
  - intros u th Hu. destruct (rp_same _ _ _ A u th Hu) as (th2 & H2 & E1 & E2 & E3).
    destruct (rp_same _ _ _ B u th2 H2) as (th3 & H3 & F1 & F2 & F3). exists th3. repeat split; congruence.
  - intros m x Hx. destruct (rp_mutexes _ _ _ A m x Hx) as (p & H2).
    destruct (rp_mutexes _ _ _ B m _ H2) as (q & H3). exists q. rewrite H3. destruct x. reflexivity.
Qed.

Lemma reprioritised_refl ts k : reprioritised ts k k.
Proof.
  split; try reflexivity.
  - intros u th Hu. exists th. auto.
  - intros m x Hx. exists (mx_priority x). destruct x. exact Hx.
Qed.

(** ** Chains of owners *)

(** Thread [t] waits for mutex [m], which [o] owns. *)
Definition waits_for (k : kernel) (t m o : Z) : Prop :=
  exists th x, k_threads k !! t = Some th /\ is_suspended th = true /\ th_pending th = Some m /\
    t ∈ k_lists k (LMutex m) /\ k_mutexes k !! m = Some x /\ mutex_valid x = true /\
    flag_ok (ob_flag (mx_ob x)) /\ mx_owner x = Some o /\ m ∈ k_taken k o.

(** Thread [t] waits for no mutex. *)
Definition waits_for_none (k : kernel) (t : Z) : Prop :=
  exists th, k_threads k !! t = Some th /\ (is_suspended th = false \/ th_pending th = None) /\
    forall m, t ∉ k_lists k (LMutex m).

(** The mutexes and owners that are met from [t] on. *)
Inductive chain (k : kernel) : Z -> list (Z * Z) -> Prop :=
| chain_end t : waits_for_none k t -> chain k t []
| chain_link t m o c : waits_for k t m o -> chain k o c -> chain k t ((m, o) :: c).

(** The mutexes that a thread has taken are its own. *)
Definition holds_ok (k : kernel) : Prop :=
  forall t m, m ∈ k_taken k t -> exists x, k_mutexes k !! m = Some x /\ mx_owner x = Some t.

Lemma chain_thread k t c : chain k t c -> is_Some (k_threads k !! t).
Proof. intros [? (th & Ht & _)|? ? ? ? (th & x & Ht & _) _]; eauto. Qed.

Lemma chain_unique k t c c' : chain k t c -> chain k t c' -> c = c'.
Proof.
  intros H. revert c'. induction H as [t (th & Ht & Hn & Hl)|t m o c (th & x & Ht & Hs & Hp & Hin & Hx & _ & _ & Ho & _) _ IH];
    intros c' H'; inversion H' as [? (th' & Ht' & Hn' & Hl')|? m' o' c2 (th' & x' & Ht' & Hs' & Hp' & Hin' & Hx' & _ & _ & Ho' & _) H2];
    subst; try reflexivity.
  - destruct (Hl _ Hin').
  - destruct (Hl' _ Hin).
  - assert (m' = m) as -> by congruence. assert (o' = o) as -> by congruence. f_equal. apply IH, H2.
Qed.

Lemma chain_from k t c o : chain k t c -> o ∈ map snd c -> exists c', chain k o c' /\ (length c' < length c)%nat.
Proof.
  induction 1 as [t Hn|t m o' c Hw Hc IH]; cbn; [intros []%elem_of_nil|].
  intros [->|Ho]%elem_of_cons; [exists c; split; [exact Hc|lia]|].
  destruct (IH Ho) as (c' & H' & Hlt). exists c'. split; [exact H'|lia].
Qed.

(** A chain is acyclic: it is finite and there is only one. *)
Lemma chain_acyclic k t c : chain k t c -> t ∉ map snd c.
Proof.
  intros H Hin. destruct (chain_from _ _ _ _ H Hin) as (c' & H' & Hlt). rewrite (chain_unique _ _ _ _ H H') in Hlt. lia.
Qed.

Lemma chain_owner k t c m o : chain k t c -> (m, o) ∈ c -> exists x, k_mutexes k !! m = Some x /\ mx_owner x = Some o.
Proof.
  induction 1 as [t Hn|t m' o' c (th & x & _ & _ & _ & _ & Hx & _ & _ & Ho & _) Hc IH]; [intros []%elem_of_nil|].
  intros [[= -> ->]|Hin]%elem_of_cons; eauto.
Qed.

(** The threads of a chain wait in the queues of its mutexes only. *)
Lemma chain_member k t c u m : inv k -> chain k t c -> u = t \/ u ∈ map snd c -> u ∈ k_lists k (LMutex m) -> m ∈ map fst c.
Proof.
  intros I. induction 1 as [t (th & _ & _ & Hl)|t m' o c Hw Hc IH]; cbn; intros Hu Hin.
  - destruct Hu as [->|[]%elem_of_nil]. destruct (Hl _ Hin).
  - rewrite elem_of_cons in *. destruct Hu as [->|Hu]; [left|right; apply IH; assumption].
    destruct Hw as (th & x & _ & _ & _ & Hin' & _). pose proof (i_uniq _ _ I _ _ _ Hin Hin') as E. congruence.
Qed.

Lemma chain_mutex_new k t m o c : chain k t ((m, o) :: c) -> m ∉ map fst c.
Proof.
  intros H Hin. inversion H as [|? ? ? ? (th & x & _ & _ & _ & _ & Hx & _ & _ & Ho & _) Hc]; subst.
  apply list_elem_of_In, in_map_iff in Hin as ([m' o'] & E & Hin). cbn in E. subst m'. apply list_elem_of_In in Hin.
  destruct (chain_owner _ _ _ _ _ Hc Hin) as (x' & Hx' & Ho').
  apply (chain_acyclic _ _ _ Hc). apply list_elem_of_In, in_map_iff. exists (m, o'). cbn.
  split; [congruence|apply list_elem_of_In, Hin].
Qed.

Lemma reprioritised_chain ts k k' t c : reprioritised ts k k' -> chain k t c -> chain k' t c.
Proof.
  intros R. induction 1 as [t (th & Ht & Hn & Hl)|t m o c (th & x & Ht & Hs & Hp & Hin & Hx & Hv & Hf & Ho & Hta) _ IH];
    destruct (rp_same _ _ _ R t th Ht) as (th' & Ht' & Est & Epe & _).
  - apply chain_end. exists th'. split; [exact Ht'|]. rewrite is_suspended_stat, Est, <- is_suspended_stat, Epe.
    split; [exact Hn|]. intros m. rewrite (rp_members _ _ _ R). apply Hl.
  - apply chain_link; [|exact IH]. destruct (rp_mutexes _ _ _ R m x Hx) as (p & Hx').
    exists th', (x <| mx_priority := p |>). split; [exact Ht'|].
    rewrite is_suspended_stat, Est, <- is_suspended_stat, Epe, (rp_members _ _ _ R), (rp_taken _ _ _ R).
    repeat (split; [assumption|]). assumption.
Qed.

Lemma reprioritised_holds ts k k' : reprioritised ts k k' -> holds_ok k -> holds_ok k'.
Proof.
  intros R H t m Hm. rewrite (rp_taken _ _ _ R) in Hm. destruct (H t m Hm) as (x & Hx & Ho).
  destruct (rp_mutexes _ _ _ R m x Hx) as (p & Hx'). exists (x <| mx_priority := p |>). auto.
Qed.

(** ** The walk of _thread_update_priority *)

(** The priority that [t] inherits, and what holds of a mutex [m] with owner [o]
    when the priorities are up to date. *)
Definition inherited_prio (k : kernel) (t : Z) : Z :=
  match k_threads k !! t with Some th => inherited k t th | None => 0 end.
Definition link_ok (k : kernel) (l : Z * Z) : Prop :=
  (exists x, k_mutexes k !! l.1 = Some x /\ mx_priority x = waiter_prio k l.1) /\
  prio_of k l.2 = inherited_prio k l.2.

Lemma taken_min_le k ms p : taken_min k ms p <= p.
Proof.
  revert p. induction ms as [|m ms IH]; intros p; cbn; [lia|]. etransitivity; [apply IH|].
  destruct (mutex_prio_at k m); [case_bool; lia|lia].
Qed.

Lemma taken_min_ext k k' ms p :
  (forall m, m ∈ ms -> k_mutexes k' !! m = k_mutexes k !! m) -> taken_min k' ms p = taken_min k ms p.
Proof.
  revert p. induction ms as [|m ms IH]; intros p H; cbn; [reflexivity|].
  unfold mutex_prio_at at 2 4. rewrite (H m (list_elem_of_here _ _)). apply IH. intros. apply H, list_elem_of_further. assumption.
Qed.

(** Steps that do not touch a link leave it up to date. *)
Lemma link_ok_same k k' m o :
  k_mutexes k' !! m = k_mutexes k !! m -> waiter_prio k' m = waiter_prio k m ->
  k_threads k' !! o = k_threads k !! o -> k_taken k' = k_taken k ->
  (forall m', m' ∈ k_taken k o -> k_mutexes k' !! m' = k_mutexes k !! m') ->
  link_ok k (m, o) -> link_ok k' (m, o).
Proof.
  intros Hm Hw Ho Ht Hall [(x & Hx & Hp) Hi]. cbn in *. split; cbn.
  - exists x. rewrite Hm, Hw. auto.
  - unfold prio_of, inherited_prio, inherited in *. rewrite Ho, Ht. destruct (k_threads k !! o); [|exact Hi].
    rewrite (taken_min_ext k k') by exact Hall. exact Hi.
Qed.

Lemma waiter_prio_same k k' m :
  k_lists k' (LMutex m) = k_lists k (LMutex m) ->
  (forall u, u ∈ k_lists k (LMutex m) -> k_threads k' !! u = k_threads k !! u) -> waiter_prio k' m = waiter_prio k m.
Proof.
  intros Hl Hu. unfold waiter_prio. rewrite Hl. destruct (k_lists k (LMutex m)) as [|u q]; [reflexivity|].
  unfold prio_of. rewrite (Hu u (list_elem_of_here _ _)). reflexivity.
Qed.

Lemma get_mutex_priority_eq k t th :
  k_threads k !! t = Some th -> holds_ok k -> _thread_get_mutex_priority t k = Some (inherited k t th, k).
Proof.
  intros Ht Hh. unfold _thread_get_mutex_priority, rt_sched_thread_get_init_prio. rewrite bind_assoc.
  erewrite bind_eq by (apply get_thread_eq; exact Ht). erewrite bind_eq by reflexivity. erewrite bind_eq by reflexivity.
  cbv beta. unfold inherited.
  assert (forall m, m ∈ k_taken k t -> is_Some (k_mutexes k !! m)) as Hx by (intros m (x & Hx & _)%Hh; eauto).
  generalize (th_init_prio th). clear Hh. induction (k_taken k t) as [|m ms IH]; intros p; cbn; [reflexivity|].
  destruct (Hx m (list_elem_of_here _ _)) as [x Hm]. erewrite bind_eq by (apply get_obj_eq; exact Hm). cbv zeta.
  rewrite IH by (intros; apply Hx, list_elem_of_further; assumption).
  unfold mutex_prio_at at 2. rewrite Hm. reflexivity.
Qed.

Lemma get_curr_prio_eq k t th :
  k_threads k !! t = Some th -> rt_sched_thread_get_curr_prio t k = Some (prio_of k t, k).
Proof.
  intros Ht. unfold rt_sched_thread_get_curr_prio, prio_of. erewrite bind_eq by (apply get_thread_eq; exact Ht).
  rewrite Ht. reflexivity.
Qed.

(** The thread is queued again and the priority of the mutex renewed. *)
Definition requeued (t m : Z) (k k' : kernel) : Prop :=
  inv k' /\ reprioritised [] k k' /\ k_threads k' = k_threads k /\
  (forall m', m' <> m -> k_lists k' (LMutex m') = k_lists k (LMutex m')) /\
  (forall m', m' <> m -> k_mutexes k' !! m' = k_mutexes k !! m') /\
  exists x, k_mutexes k' !! m = Some x /\ mx_priority x = waiter_prio k' m.

Lemma requeue_lists k t m flag l :
  inv k -> t ∈ k_lists k (LMutex m) -> l <> LMutex m ->
  k_lists (enqueue_state (LMutex m) t flag (remove_lists t k)) l = k_lists k l.
Proof.
  intros I Hin Hl. unfold enqueue_state. etransitivity; [apply fn_lookup_insert_ne; congruence|].
  apply filter_ne_notin. intros H. apply Hl, (i_uniq _ _ I _ _ _ H Hin).
Qed.

Lemma requeue_members k t m flag u :
  t ∈ k_lists k (LMutex m) ->
  u ∈ k_lists (enqueue_state (LMutex m) t flag (remove_lists t k)) (LMutex m) <-> u ∈ k_lists k (LMutex m).
Proof.
  intros Hin. unfold enqueue_state.
  assert (forall f q, (<[LMutex m:=q]> f : lid -> list Z) (LMutex m) = q) as Hq by (intros; apply fn_lookup_insert).
  cbv [set_field]. cbn [k_lists]. rewrite Hq, elem_of_enqueued. unfold remove_lists. cbv [set_field]. cbn [k_lists].
  rewrite elem_of_filter_ne. destruct (decide (u = t)) as [->|]; tauto.
Qed.

Lemma requeue_total t m o k th x :
  inv k -> waits_for k t m o -> k_threads k !! t = Some th -> k_mutexes k !! m = Some x ->
  exists k', requeued t m k k' /\
    forall A (rest : K A),
      (rt_list_remove t;; rt_susp_list_enqueue (LMutex m) t (ob_flag (mx_ob x));; _mutex_update_priority m;; rest) k
      = rest k'.
Proof.
  intros I (th' & x' & Ht & Hs & Hp & Hin & Hx & Hv & Hf & Ho & Hta) Ht' Hx'.
  rewrite Ht' in Ht. injection Ht as <-. rewrite Hx' in Hx. injection Hx as <-.
  set (k1 := enqueue_state (LMutex m) t (ob_flag (mx_ob x)) (remove_lists t k)).
  assert (inv k1) as I1 by (apply (requeue_inv k t th); [assumption..|congruence|reflexivity]).
  set (p := waiter_prio k1 m). set (k2 := k1 <| k_mutexes ::= insert m (x <| mx_priority := p |>) |>).
  assert (upd_mutex m (fun x => x <| mx_priority := p |>) k1 = Some (tt, k2)) as H2
    by exact (upd_obj_eq k_mutexes m (fun x => x <| mx_priority := p |>) x k1 Hx').
  assert (forall m', m' <> m -> k_mutexes k2 !! m' = k_mutexes k !! m') as Hm by (intros; apply lookup_insert_ne; congruence).
  assert (k_mutexes k2 !! m = Some (x <| mx_priority := p |>)) as Hmm by apply lookup_insert_eq.
  assert (forall l, l <> LMutex m -> k_lists k2 l = k_lists k l) as Hl by (intros; apply requeue_lists; assumption).
  exists k2. split.
  - split; [|split; [|split; [reflexivity|split; [intros; apply Hl; congruence|split; [exact Hm|eauto]]]]].
    { refine (upd_mutex_preserves _ m (fun x => x <| mx_priority := p |>) _ _ _ _ I1 H2).
      intros y [Hy1 Hy2]. split; [apply waiter_prio_nonneg, I1|exact Hy2]. }
    split; try reflexivity.
    + intros l _ Hne. apply Hl, Hne.
    + intros m' u. destruct (decide (m' = m)) as [->|Hne]; [apply requeue_members, Hin|].
      rewrite Hl by congruence. reflexivity.
    + intros u uth Hu. exists uth. auto.
    + intros m' y Hy. destruct (decide (m' = m)) as [->|Hne]; [|exists (mx_priority y); rewrite Hm, Hy by exact Hne; destruct y; reflexivity].
      rewrite Hx' in Hy. injection Hy as <-. eauto.
  - intros A rest. erewrite bind_eq by reflexivity. change (st_modify _ k) with (Some (tt, remove_lists t k)).
    erewrite bind_eq by (apply enqueue_eq; exact Hf). fold k1. unfold _mutex_update_priority.
    rewrite bind_assoc. erewrite bind_eq by (apply first_waiter_prio_eq, I1). fold p.
    rewrite bind_assoc. erewrite bind_eq by exact H2. reflexivity.
Qed.

(** What the walk from [t] over the chain [c] leaves behind. *)
Record settled (c : list (Z * Z)) (k k' : kernel) : Prop := {
  st_inv : inv k';
  st_prio : reprioritised (map snd c) k k';
  st_links : Forall (link_ok k') c;
  st_mutexes : forall m, m ∉ map fst c -> k_mutexes k' !! m = k_mutexes k !! m;
  st_queues : forall m, m ∉ map fst c -> k_lists k' (LMutex m) = k_lists k (LMutex m);
}.

Lemma elem_of_pairs {A B} (c : list (A * B)) a b : (a, b) ∈ c -> a ∈ map fst c /\ b ∈ map snd c.
Proof. rewrite !list_elem_of_In, !in_map_iff. intros H. split; exists (a, b); auto. Qed.

(** Putting [t] at its new place does not concern the links behind. *)
Lemma requeued_links k k' t m o c :
  inv k -> requeued t m k k' -> chain k t ((m, o) :: c) -> holds_ok k ->
  Forall (link_ok k) c -> Forall (link_ok k') c.
Proof.
  intros I (_ & R & Ht & Hl & Hm & _) C Hh F. rewrite Forall_forall in F |- *. intros [m' o'] Hin.
  pose proof (chain_mutex_new _ _ _ _ _ C) as Hnew.
  inversion C as [|? ? ? ? (th & x & _ & _ & _ & _ & Hx & _ & _ & Ho & _) C']; subst.
  destruct (elem_of_pairs _ _ _ Hin) as [Hm' Ho'].
  assert (m' <> m) as Hne by (intros ->; contradiction).
  apply (link_ok_same k); [apply Hm, Hne| |rewrite Ht; reflexivity|apply R| |apply F, Hin].
  - apply waiter_prio_same; [apply Hl, Hne|]. intros u _. rewrite Ht. reflexivity.
  - intros m2 Hm2. apply Hm. intros ->. destruct (Hh _ _ Hm2) as (y & Hy & Hyo).
    apply (chain_acyclic _ _ _ C'). congruence.
Qed.

(** The new priority of [o] concerns only the mutex it waits for. *)
Lemma changed_links k k' o c :
  inv k -> reprioritised [o] k k' -> k_mutexes k' = k_mutexes k ->
  (forall m, k_lists k' (LMutex m) = k_lists k (LMutex m)) -> chain k o c ->
  Forall (link_ok k) (tail c) -> Forall (link_ok k') (tail c).
Proof.
  intros I R Hm Hl C F. destruct c as [|[m1 o1] c]; [constructor|]. cbn [tail] in *.
  rewrite Forall_forall in F |- *. intros [m' o'] Hin. destruct (elem_of_pairs _ _ _ Hin) as [Hm' Ho'].
  pose proof (chain_mutex_new _ _ _ _ _ C) as Hnew. pose proof (chain_acyclic _ _ _ C) as Hac. cbn in Hac.
  rewrite elem_of_cons in Hac.
  inversion C as [|? ? ? ? (th & x & _ & _ & _ & Hino & _) C']; subst.
  apply (link_ok_same k); [rewrite Hm; reflexivity| | |apply R|intros; rewrite Hm; reflexivity|apply F, Hin].
  - apply waiter_prio_same; [apply Hl|]. intros u Hu. apply (rp_threads _ _ _ R).
    intros ->%list_elem_of_singleton. pose proof (i_uniq _ _ I _ _ _ Hu Hino) as E. congruence.
  - apply (rp_threads _ _ _ R). intros ->%list_elem_of_singleton. tauto.
Qed.

(** The rest of the walk does not concern the first link. *)
Lemma settled_link k k' m o c t :
  inv k -> settled c k k' -> chain k t ((m, o) :: c) -> holds_ok k -> link_ok k (m, o) -> link_ok k' (m, o).
Proof.
  intros I [_ R _ Hm Hl] C Hh L. pose proof (chain_mutex_new _ _ _ _ _ C) as Hnew.
  inversion C as [|? ? ? ? (th & x & _ & _ & _ & _ & Hx & _ & _ & Ho & _) C']; subst.
  pose proof (chain_acyclic _ _ _ C') as Hac.
  apply (link_ok_same k); [apply Hm, Hnew| |apply (rp_threads _ _ _ R), Hac|apply R| |exact L].
  - apply waiter_prio_same; [apply Hl, Hnew|]. intros u Hu. apply (rp_threads _ _ _ R).
    intros Hin. apply Hnew. eapply chain_member; eauto.
  - intros m2 Hm2. apply Hm. intros Hin. destruct (Hh _ _ Hm2) as (y & Hy & Hyo).
    apply list_elem_of_In, in_map_iff in Hin as ([m' o'] & E & Hin). cbn in E. subst m'.
    apply list_elem_of_In in Hin. destruct (chain_owner _ _ _ _ _ C' Hin) as (z & Hz & Hzo).
    apply Hac. assert (o' = o) as -> by congruence. apply (elem_of_pairs _ _ _ Hin).
Qed.

Lemma loop_end fuel t k : waits_for_none k t -> update_priority_loop (S fuel) t k = Some (tt, k).
Proof.
  intros (th & Ht & Hn & _). cbn [update_priority_loop]. unfold rt_sched_thread_is_suspended. rewrite bind_assoc.
  erewrite bind_eq by (apply get_thread_eq; exact Ht). erewrite bind_eq by reflexivity.
  destruct (is_suspended th) eqn:Hs; cbn [negb]; [|reflexivity]. destruct Hn as [?|Hn]; [discriminate|].
  erewrite bind_eq by (apply get_thread_eq; exact Ht). rewrite Hn. reflexivity.
Qed.

Lemma inherited_range k t th : inv k -> k_threads k !! t = Some th ->
  0 <= inherited k t th < RT_THREAD_PRIORITY_MAX.
Proof.
  intros I Ht. pose proof (tw_prio _ _ _ _ (i_threads _ _ I _ _ Ht)) as [_ H]. unfold inherited. split.
  - apply taken_min_nonneg; [exact I|lia].
  - pose proof (taken_min_le k (k_taken k t) (th_init_prio th)). lia.
Qed.

(** One round: [t] waits for [m], whose owner [o] gets the priority it now
    inherits. *)
Lemma loop_round fuel t m o c k :
  inv k -> chain k t ((m, o) :: c) -> holds_ok k -> Forall (link_ok k) c ->
  exists k2, requeued t m k k2 /\ chain k2 o c /\ Forall (link_ok k2) c /\
    update_priority_loop (S fuel) t k =
      (if negb (inherited_prio k2 o =? prio_of k2 o)
       then rt_sched_thread_change_priority o (inherited_prio k2 o);; update_priority_loop fuel o
       else mret tt) k2.
Proof.
  intros I C Hh F.
  inversion C as [|? ? ? ? W C']; subst. pose proof W as (th & x & Ht & Hs & Hp & Hin & Hx & Hv & Hf & Ho & Hta).
  destruct (chain_thread _ _ _ C') as [oth Hot].
  destruct (requeue_total t m o k th x I W Ht Hx) as (k2 & Rq & E).
  pose proof Rq as (I2 & R & Hth & Hl & Hm & x2 & Hx2 & Hp2).
  exists k2. split; [exact Rq|]. split; [eapply reprioritised_chain; eauto|].
  split; [exact (requeued_links k k2 t m o c I Rq C Hh F)|].
  cbn [update_priority_loop]. unfold rt_sched_thread_is_suspended. rewrite bind_assoc.
  erewrite bind_eq by (apply get_thread_eq; exact Ht). erewrite bind_eq by reflexivity. rewrite Hs. cbn [negb].
  erewrite bind_eq by (apply get_thread_eq; exact Ht). rewrite Hp.
  erewrite bind_eq by (apply get_obj_eq; exact Hx). rewrite Hv. cbn [negb]. rewrite E.
  rewrite Ho. erewrite bind_eq by reflexivity.
  assert (k_threads k2 !! o = Some oth) as Hot2 by (rewrite Hth; exact Hot).
  erewrite bind_eq by (apply get_mutex_priority_eq; [exact Hot2|eapply reprioritised_holds; eauto]).
  erewrite bind_eq by (eapply get_curr_prio_eq; exact Hot2).
  unfold inherited_prio. rewrite Hot2. reflexivity.
Qed.

Lemma requeued_first k k2 t m o :
  inv k2 -> requeued t m k k2 -> prio_of k2 o = inherited_prio k2 o -> link_ok k2 (m, o).
Proof. intros _ (_ & _ & _ & _ & _ & Hx) Hp. split; [exact Hx|exact Hp]. Qed.

Lemma inherited_reprioritised ts k k' o :
  reprioritised ts k k' -> k_mutexes k' = k_mutexes k -> is_Some (k_threads k !! o) ->
  inherited_prio k' o = inherited_prio k o.
Proof.
  intros R Hm [oth Ho]. destruct (rp_same _ _ _ R o oth Ho) as (oth' & Ho' & _ & _ & Hi).
  unfold inherited_prio, inherited. rewrite Ho, Ho', Hi, (rp_taken _ _ _ R).
  apply taken_min_ext. intros. rewrite Hm. reflexivity.
Qed.

(** A round that changes the priority of [o], and the rest of the walk. *)
Lemma settled_cons t m o c k k2 k3 k' :
  requeued t m k k2 -> chain k t ((m, o) :: c) -> holds_ok k ->
  inv k3 -> reprioritised [o] k2 k3 -> k_mutexes k3 = k_mutexes k2 ->
  (forall l, ready_list l = false -> k_lists k3 l = k_lists k2 l) -> prio_of k3 o = inherited_prio k2 o ->
  settled c k3 k' -> settled ((m, o) :: c) k k'.
Proof.
  intros (I2 & R2 & Hth2 & Hl2 & Hm2 & x2 & Hx2 & Hp2) C Hh I3 R3 Hm3 Hl3 Hpo S.
  assert (reprioritised [o] k k3) as R by (eapply reprioritised_trans; [exact R2|exact R3|intros u [[]%elem_of_nil|Hu]; exact Hu]).
  pose proof (reprioritised_chain _ _ _ _ _ R C) as C3.
  pose proof (chain_mutex_new _ _ _ _ _ C3) as Hnew. inversion C3 as [|? ? ? ? _ Co]; subst.
  assert (forall m', m' ∉ map fst ((m, o) :: c) -> m' <> m /\ m' ∉ map fst c) as Hout.
  { intros m' H. cbn in H. rewrite elem_of_cons in H. tauto. }
  assert (link_ok k3 (m, o)) as L.
  { split; cbn.
    - exists x2. rewrite Hm3. split; [exact Hx2|]. rewrite Hp2. symmetry. apply waiter_prio_same; [apply Hl3; reflexivity|].
      intros u Hu. apply (rp_threads _ _ _ R3). intros ->%list_elem_of_singleton. apply Hnew.
      apply (chain_member k3 o c o m I3 Co (or_introl eq_refl)). rewrite Hl3 by reflexivity. exact Hu.
    - rewrite Hpo. symmetry. apply (inherited_reprioritised _ _ _ _ R3 Hm3).
      destruct (chain_thread _ _ _ Co) as [y Hy]. destruct (k_threads k2 !! o) eqn:E; [eauto|].
      rewrite Hth2 in E.
      inversion C as [|? ? ? ? _ Ck]; subst. destruct (chain_thread _ _ _ Ck). congruence. }
  split; [apply S| | | |].
  - eapply reprioritised_trans; [exact R|apply S|]. intros u. cbn. rewrite !elem_of_cons, elem_of_nil. tauto.
  - constructor; [|apply S]. exact (settled_link k3 k' m o c t I3 S C3 (reprioritised_holds _ _ _ R Hh) L).
  - intros m' H. destruct (Hout _ H). rewrite (st_mutexes _ _ _ S), Hm3 by assumption. apply Hm2. assumption.
  - intros m' H. destruct (Hout _ H). rewrite (st_queues _ _ _ S), Hl3 by (reflexivity || assumption). apply Hl2. assumption.
Qed.

(** The walk ends and brings the whole chain up to date. *)
Lemma update_priority_loop_settles c : forall fuel t k,
  inv k -> chain k t c -> holds_ok k -> Forall (link_ok k) (tail c) -> (length c < fuel)%nat ->
  exists k', update_priority_loop fuel t k = Some (tt, k') /\ settled c k k'.
Proof.
  induction c as [|[m o] c IH]; intros fuel t k I C Hh F Hfuel; (destruct fuel as [|fuel]; [cbn in Hfuel; lia|]).
  - exists k. inversion C. split; [apply loop_end; assumption|]. split; [exact I|apply reprioritised_refl|constructor|auto|auto].
  - cbn [tail] in F. destruct (loop_round fuel t m o c k I C Hh F) as (k2 & Rq & C2 & F2 & E). rewrite E. clear E.
    pose proof Rq as (I2 & R2 & Hth2 & Hl2 & Hm2 & Hx2).
    destruct (Z.eqb_spec (inherited_prio k2 o) (prio_of k2 o)) as [Heq|Hne]; cbn [negb].
    + exists k2. split; [reflexivity|]. split; [exact I2| | | |].
      * eapply reprioritised_trans; [exact R2|apply reprioritised_refl|intros u [[]%elem_of_nil|Hu]; exact Hu].
      * constructor; [split; [exact Hx2|cbn; congruence]|exact F2].
      * intros m' Hm'. apply Hm2. cbn in Hm'. rewrite elem_of_cons in Hm'. tauto.
      * intros m' Hm'. apply Hl2. cbn in Hm'. rewrite elem_of_cons in Hm'. tauto.
    + destruct (chain_thread _ _ _ C2) as [oth Hot].
      assert (0 <= inherited_prio k2 o < RT_THREAD_PRIORITY_MAX) as Hrange
        by (unfold inherited_prio; rewrite Hot; apply inherited_range; assumption).
      destruct (change_priority_reprioritised o _ k2 oth I2 Hot Hrange) as (k3 & H3 & I3 & R3 & Hp3 & Hm3 & Hl3).
      pose proof (reprioritised_holds _ _ _ R2 Hh) as Hh2.
      destruct (IH fuel o k3 I3 (reprioritised_chain _ _ _ _ _ R3 C2) (reprioritised_holds _ _ _ R3 Hh2)) as (k' & H' & S).
      { eapply changed_links; [exact I2|exact R3|exact Hm3|auto|exact C2|]. destruct c; [constructor|]. inversion F2. assumption. }
      { cbn in Hfuel. lia. }
      exists k'. split; [erewrite bind_eq by exact H3; exact H'|].
      exact (settled_cons t m o c k k2 k3 k' Rq C Hh I3 R3 Hm3 Hl3 Hp3 S).
Qed.

Lemma taken_min_mem k ms p m x :
  m ∈ ms -> k_mutexes k !! m = Some x -> taken_min k ms p <= mx_priority x.
Proof.
  intros Hin Hx. revert p. induction ms as [|m' ms IH]; intros p; [destruct (not_elem_of_nil _ Hin)|]. cbn.
  apply elem_of_cons in Hin as [<-|Hin]; [|apply IH, Hin].
  etransitivity; [apply taken_min_le|]. unfold mutex_prio_at. rewrite Hx. cbn. unfold mutex_prio.
  destruct (Z.ltb_spec (mx_priority x) (mx_ceiling x)); case_bool; lia.
Qed.

(** An owner is as urgent as the first waiter. *)
Lemma link_no_inversion k m o : link_ok k (m, o) -> m ∈ k_taken k o -> is_Some (k_threads k !! o) ->
  prio_of k o <= waiter_prio k m.
Proof.
  intros [(x & Hx & Hw) Hp] Hm [oth Ho]. cbn in *. rewrite <- Hw, Hp. unfold inherited_prio. rewrite Ho. apply (taken_min_mem k _ _ m x Hm Hx).
Qed.

Lemma chain_taken k t c m o : chain k t c -> (m, o) ∈ c -> m ∈ k_taken k o /\ is_Some (k_threads k !! o).
Proof.
  induction 1 as [t Hn|t m' o' c (th & x & _ & _ & _ & _ & _ & _ & _ & _ & Hta) Hc IH]; [intros []%elem_of_nil|].
  intros [[= -> ->]|Hin]%elem_of_cons; [|auto]. split; [exact Hta|eapply chain_thread, Hc].
Qed.

(** [_thread_update_priority] as a function. *)
Lemma update_priority_total fuel t p k c th :
  inv k -> k_threads k !! t = Some th -> 0 <= p < RT_THREAD_PRIORITY_MAX -> chain k t c -> holds_ok k ->
  Forall (link_ok k) (tail c) -> (length c < fuel)%nat ->
  exists k1 k', rt_sched_thread_change_priority t p k = Some (RT_EOK, k1) /\ reprioritised [t] k k1 /\
    _thread_update_priority fuel t p k = Some (tt, k') /\ settled c k1 k' /\ prio_of k' t = p /\
    k_mutexes k1 = k_mutexes k /\ (forall l, ready_list l = false -> k_lists k1 l = k_lists k l) /\
    chain k' t c /\ reprioritised (t :: map snd c) k k'.
Proof.
  intros I Ht Hp C Hh F Hfuel.
  destruct (change_priority_reprioritised t p k th I Ht Hp) as (k1 & H1 & I1 & R1 & Hp1 & Hm1 & Hl1).
  pose proof (reprioritised_chain _ _ _ _ _ R1 C) as C1.
  destruct (update_priority_loop_settles c fuel t k1 I1 C1 (reprioritised_holds _ _ _ R1 Hh)) as (k' & H' & S);
    [exact (changed_links k k1 t c I R1 Hm1 (fun m => Hl1 (LMutex m) eq_refl) C F)|exact Hfuel|].
  exists k1, k'. split; [exact H1|]. split; [exact R1|].
  split; [unfold _thread_update_priority; erewrite bind_eq by exact H1; exact H'|].
  split; [exact S|]. split; [|split; [exact Hm1|split; [exact Hl1|split; [exact (reprioritised_chain _ _ _ _ _ (st_prio _ _ _ S) C1)|]]]].
  - rewrite <- Hp1. unfold prio_of. rewrite (rp_threads _ _ _ (st_prio _ _ _ S)); [reflexivity|].
    apply (chain_acyclic _ _ _ C1).
  - eapply reprioritised_trans; [exact R1|apply S|]. intros u. rewrite !elem_of_cons, elem_of_nil. tauto.
Qed.

(** C16: Priority inheritance.  When a thread gets a new priority, the walk along
    the mutexes it waits for and their owners ends after as many rounds as there
    are owners; then each of these mutexes has the priority of its first waiter,
    each owner the priority it inherits (the most urgent of its own initial
    priority and of the mutexes it holds), so that no owner is less urgent than
    the first thread that waits for it, and no other thread has changed.  *)
Theorem priority_inheritance fuel t p k c th :
  inv k -> k_threads k !! t = Some th -> 0 <= p < RT_THREAD_PRIORITY_MAX ->
  chain k t c -> holds_ok k -> Forall (link_ok k) (tail c) -> (length c < fuel)%nat ->
  exists k', _thread_update_priority fuel t p k = Some (tt, k') /\ inv k' /\ chain k' t c /\ prio_of k' t = p /\
    (forall m o, (m, o) ∈ c -> link_ok k' (m, o) /\ prio_of k' o <= waiter_prio k' m) /\
    (forall u, u <> t -> u ∉ map snd c -> k_threads k' !! u = k_threads k !! u) /\
    (forall l u, ready_list l = false -> u ∈ k_lists k' l <-> u ∈ k_lists k l).
Proof.
  intros I Ht Hp C Hh F Hfuel.
  destruct (update_priority_total fuel t p k c th I Ht Hp C Hh F Hfuel) as (k1 & k' & _ & _ & H & S & Hpt & _ & _ & C' & R).
  exists k'. split; [exact H|]. split; [apply S|]. split; [exact C'|]. split; [exact Hpt|]. split; [|split].
  - intros m o Hin. pose proof (st_links _ _ _ S) as L. rewrite Forall_forall in L. specialize (L _ Hin).
    split; [exact L|]. destruct (chain_taken _ _ _ _ _ C' Hin). apply link_no_inversion; assumption.
  - intros u Hu Hn. apply (rp_threads _ _ _ R). rewrite elem_of_cons. tauto.
  - intros l u Hl. destruct l; try discriminate; first [apply (rp_members _ _ _ R)|rewrite (rp_lists _ _ _ R) by (reflexivity || congruence); reflexivity].
Qed.

(** ** An example *)

(** The main thread 100 holds mutex 1, for which thread 300 of priority 5 waits. *)
Definition k_mutex : kernel := run (_rt_mutex_take 9 1 0 RT_UNINTERRUPTIBLE) (run (rt_mutex_init 1) k_boot).
Definition k_inherit : kernel :=
  run (_rt_mutex_take 9 1 (-1) RT_INTERRUPTIBLE)
    (run (rt_thread_startup 300) (run (rt_thread_create (Some 300) (Some 0) 5 20) k_mutex)).

Example k_inherit_lists : k_lists k_inherit (LMutex 1) = [300] /\ k_current k_inherit = Some 100 /\
  prio_of k_inherit 100 = 5 /\ k_taken k_inherit 100 = [1].
Proof. vm_compute. auto. Qed.

Definition mutex_of (k : kernel) (m : Z) : mutex := default (fresh_mutex false) (k_mutexes k !! m).

(** Looks at the bits of [p] until [H] is decided. *)
Ltac by_bits p H tac :=
  cbn in H; first [solve [inversion H]|solve [tac]|destruct p as [p|p|]; by_bits p H tac].

Lemma k_inherit_holds : holds_ok k_inherit.
Proof.
  intros t m Hm. vm_compute in Hm. destruct t as [|p|p]; [inversion Hm| |inversion Hm].
  by_bits p Hm ltac:(apply list_elem_of_singleton in Hm as ->; exists (mutex_of k_inherit 1); vm_compute; auto).
Qed.

Lemma k_mutex_kinv : kinv k_mutex.
Proof. apply run_kinv; [apply mutex_take_preserves|]. apply run_kinv; [apply mutex_init_preserves|apply k_boot_kinv]. Qed.

Lemma k_inherit_kinv : kinv k_inherit.
Proof.
  apply run_kinv; [apply mutex_take_preserves|]. apply run_kinv; [preserve|].
  apply run_kinv; [apply thread_create_kinv; lia|apply k_mutex_kinv].
Qed.

(** A running thread waits for no mutex. *)
Lemma running_waits_for_none k t th :
  inv k -> k_threads k !! t = Some th -> is_suspended th = false -> waits_for_none k t.
Proof.
  intros I Ht Hs. exists th. split; [exact Ht|]. split; [left; exact Hs|]. intros m Hin.
  destruct (so_waiting _ _ _ _ _ (inv_stat _ _ _ I Ht) (LMutex m) eq_refl Hin). congruence.
Qed.

Lemma k_inherit_chain : chain k_inherit 300 [(1, 100)].
Proof.
  apply chain_link.
  - exists (thread_of k_inherit 300), (mutex_of k_inherit 1).
    split; [vm_compute; reflexivity|]. split; [vm_compute; reflexivity|]. split; [vm_compute; reflexivity|].
    split; [rewrite (proj1 k_inherit_lists); apply list_elem_of_here|]. split; [vm_compute; reflexivity|].
    split; [vm_compute; reflexivity|]. split; [right; vm_compute; reflexivity|]. split; [vm_compute; reflexivity|].
    destruct k_inherit_lists as (_ & _ & _ & ->). apply list_elem_of_here.
  - apply chain_end. apply (running_waits_for_none _ _ (thread_of k_inherit 100)); [apply k_inherit_kinv|vm_compute; reflexivity..].
Qed.

Lemma priority_inheritance_witness :
  chain k_inherit 300 [(1, 100)] /\
  exists k', _thread_update_priority 2 300 3 k_inherit = Some (tt, k') /\ prio_of k' 300 = 3 /\
    prio_of k' 100 <= waiter_prio k' 1.
Proof.
  split; [exact k_inherit_chain|].
  destruct (priority_inheritance 2 300 3 k_inherit [(1, 100)] (thread_of k_inherit 300) (proj1 k_inherit_kinv))
    as (k' & H & _ & C & Hp & L & _ & M).
  - vm_compute. reflexivity.
  - unfold RT_THREAD_PRIORITY_MAX. lia.
  - exact k_inherit_chain.
  - exact k_inherit_holds.
  - constructor.
  - cbn. lia.
  - exists k'. split; [exact H|]. split; [exact Hp|]. destruct (L 1 100 (list_elem_of_here _ _)) as [_ Hle].
    exact Hle.
Defined.
