(* ===== verification/MutexCalls.v ===== *)
(** * Taking and releasing a mutex

    Ownership, recursion, waiting with inheritance, and hand-over. *)

From S2P Require Import Prelude Bitmap Kernel Timer Sched IpcList Thread Sem Mutex.
From S2P Require Import KernelInv TimerInv SchedInv ThreadInv TimerIdle ThreadOps IpcOps MutexOps SystemInv.
From S2P Require Import Demo SchedProps Blocking WaitProps SemProps MutexProps.
Open Scope rt_scope.

(** ** The scheduler lock around a call *)

(** The end of a call that did not wait: the lock is given back. *)
Lemma unlock_done {A} k c (r : A) :
  inv k -> k_current k = Some c -> k_lock_nest k = 1 ->
  exists k', (rt_spin_unlock;; mret r) k = Some (r, k') /\ inv k' /\ sched_frame (unlocked k) k'.
Proof.
  intros I Hc Hn. destruct (spin_unlock_total k c I Hc Hn) as (k' & H & I' & F & _).
  exists k'. split; [erewrite bind_eq by exact H; reflexivity|auto].
Qed.

Lemma check_mutex_eq m x k : k_mutexes k !! m = Some x -> mutex_valid x = true -> check_mutex m k = Some (x, k).
Proof.
  intros Hx Hv. unfold check_mutex. erewrite bind_eq by (apply get_obj_eq; exact Hx).
  erewrite bind_eq by (apply assert_eq; exact Hv). reflexivity.
Qed.

Definition with_mutex (m : Z) (x : mutex) (k : kernel) : kernel := k <| k_mutexes ::= insert m x |>.

Lemma upd_mutex_eq m x f k : k_mutexes k !! m = Some x -> upd_mutex m f k = Some (tt, with_mutex m (f x) k).
Proof. intros Hx. unfold upd_mutex. rewrite (upd_obj_eq k_mutexes m f x k Hx). reflexivity. Qed.

Lemma inv_with_mutex m x k : inv k -> 0 <= mx_priority x -> 0 <= mx_ceiling x -> inv (with_mutex m x k).
Proof.
  intros I Hp Hc. eapply inv_same; [exact I|reflexivity..|].
  intros m' y. change (k_mutexes (with_mutex m x k)) with (<[m := x]> (k_mutexes k)).
  destruct (decide (m' = m)) as [->|Hne].
  - rewrite lookup_insert_eq. intros [= <-]. auto.
  - rewrite lookup_insert_ne by congruence. apply (i_mutex _ _ I).
Qed.

Lemma inv_with_error t th e k : inv k -> k_threads k !! t = Some th -> inv (with_error t th e k).
Proof.
  intros I Ht. refine (upd_thread_same _ t (fun th : thread => th <| th_error := e |>) (error_same_sched e) _ _ _ I _).
  exact (upd_thread_eq t _ k th Ht).
Qed.

(** ** Taking without waiting *)

Section Calls.
Context (fuel : nat).

(** The call up to the look at the mutex. *)
Lemma take_enter t th m x timeout f k :
  in_thread t th k -> k_mutexes k !! m = Some x -> mutex_valid x = true ->
  let k1 := with_error t th RT_EOK (locked k) in
  inv k1 /\ k_current k1 = Some t /\ k_threads k1 !! t = Some (th <| th_error := RT_EOK |>) /\
  _rt_mutex_take fuel m timeout f k = 
    match mx_owner x with
    | Some owner =>
        if owner =? t then
          if mx_hold x <? RT_MUTEX_HOLD_MAX then
            upd_mutex m (fun x => x <| mx_hold ::= (fun h => u8 (h + 1)) |>);; rt_spin_unlock;; mret (Done RT_EOK [])
          else rt_spin_unlock;; mret (Done (- RT_EFULL) [])
        else if timeout =? 0 then
          upd_thread t (fun th => th <| th_error := RT_ETIMEOUT |>);; rt_spin_unlock;; mret (Done (- RT_ETIMEOUT) [])
        else
          ret ← rt_thread_suspend_to_list t (Some (LMutex m)) (ob_flag (mx_ob x)) f;
          if negb (ret =? RT_EOK) then rt_spin_unlock;; mret (Done ret []) else
          upd_thread t (fun th => th <| th_pending := Some m |>);;
          priority ← rt_sched_thread_get_curr_prio t;
          when (priority <? mx_priority x)
            (upd_mutex m (fun x => x <| mx_priority := priority |>);;
             po ← rt_sched_thread_get_curr_prio owner;
             when (priority <? po) (_thread_update_priority fuel owner priority));;
          when (0 <? timeout) (start_thread_timer t timeout);;
          rt_spin_unlock;;
          mret (Waiting (PcMutexTake m))
    | None =>
        upd_mutex m (fun x => x <| mx_owner := Some t |> <| mx_priority := 0xff |> <| mx_hold := 1 |>);;
        when (negb (mx_ceiling x =? 0xFF))
          (cur ← rt_sched_thread_get_curr_prio t;
           when (mx_ceiling x <? cur) (_thread_update_priority fuel t (mx_ceiling x)));;
        taken_insert_after t m;;
        rt_spin_unlock;;
        mret (Done RT_EOK [])
    end k1.
Proof.
  intros C Hx Hv k1. pose proof C as [[I Q] Hc Ht Hr Hn Hi].
  split; [apply inv_with_error; [apply inv_nest, I|exact Ht]|]. split; [exact Hc|]. split; [apply lookup_insert_eq|].
  unfold _rt_mutex_take. erewrite bind_eq by (eapply scheduler_available_eq; exact C).
  erewrite bind_eq by (apply check_mutex_eq; eassumption). erewrite bind_eq by (apply the_self_eq, Hc).
  erewrite bind_eq by (apply spin_lock_eq, Hn).
  erewrite bind_eq by (exact (upd_thread_eq t _ (locked k) th Ht)).
  erewrite bind_eq by (apply (get_obj_eq k_mutexes m x); exact Hx). reflexivity.
Qed.

(** The mutex that [t] has just taken. *)
Definition owned_by (t : Z) (x : mutex) : mutex :=
  x <| mx_owner := Some t |> <| mx_priority := 0xff |> <| mx_hold := 1 |>.

(** The result of a call that did not wait: [k1] up to a switch to a more urgent
    thread. *)
Definition returned (r : Z) (k1 : kernel) (res : option (outcome * kernel)) : Prop :=
  exists k', res = Some (Done r [], k') /\ inv k' /\ sched_frame k1 k'.

Lemma returned_unlock k c r k0 :
  inv k -> k_current k = Some c -> k_lock_nest k = 1 -> k0 = unlocked k ->
  returned r k0 ((rt_spin_unlock;; mret (Done r [])) k).
Proof.
  intros I Hc Hn ->. destruct (unlock_done k c (Done r []) I Hc Hn) as (k' & H & I' & F). exists k'. auto.
Qed.

Lemma with_mutex_lock m y t th e k : k_lock_nest k = 0 ->
  with_mutex m y (with_error t th e k) = unlocked (with_mutex m y (with_error t th e (locked k))).
Proof. intros Hn. destruct k. cbn in Hn. subst. reflexivity. Qed.

Lemma with_error_lock t th e k : k_lock_nest k = 0 ->
  with_error t th e k = unlocked (with_error t th e (locked k)).
Proof. intros Hn. destruct k. cbn in Hn. subst. reflexivity. Qed.

Lemma with_error_twice t th e1 e2 k :
  upd_thread t (fun th => th <| th_error := e2 |>) (with_error t th e1 k) = Some (tt, with_error t th e2 k).
Proof.
  rewrite (upd_thread_eq t _ _ (th <| th_error := e1 |>)) by apply lookup_insert_eq.
  unfold with_error. destruct k. unfold set_field. cbn. rewrite insert_insert_eq. reflexivity.
Qed.

(** Taking a mutex without waiting.  A free mutex (without a ceiling)
    becomes the caller's, held once, and is put at the front of its taken list;
    the owner takes it again by counting up, up to RT_MUTEX_HOLD_MAX, where the
    call returns -RT_EFULL; a mutex of another thread gives -RT_ETIMEOUT when the
    timeout is 0.  Nothing else changes, except that giving the scheduler lock
    back may switch to a more urgent thread.  *)
Theorem mutex_take_at_once t th k m x timeout f :
  in_thread t th k -> k_mutexes k !! m = Some x -> mutex_valid x = true -> 0 <= mx_hold x <= RT_MUTEX_HOLD_MAX ->
  match mx_owner x with
  | None => mx_ceiling x = 0xff ->
      returned RT_EOK ((with_mutex m (owned_by t x) (with_error t th RT_EOK k))
        <| k_taken ::= (fun ls => <[t := m :: ls t]> ls) |>) (_rt_mutex_take fuel m timeout f k)
  | Some o =>
      if o =? t then
        if mx_hold x <? RT_MUTEX_HOLD_MAX then
          returned RT_EOK (with_mutex m (x <| mx_hold := mx_hold x + 1 |>) (with_error t th RT_EOK k))
            (_rt_mutex_take fuel m timeout f k)
        else returned (- RT_EFULL) (with_error t th RT_EOK k) (_rt_mutex_take fuel m timeout f k)
      else timeout = 0 -> returned (- RT_ETIMEOUT) (with_error t th RT_ETIMEOUT k) (_rt_mutex_take fuel m timeout f k)
  end.
Proof.
  intros C Hx Hv Hh. destruct (take_enter t th m x timeout f k C Hx Hv) as (I1 & Hc & Ht & E). rewrite E. clear E.
  pose proof (it_nest _ _ _ C) as Hn. set (k1 := with_error t th RT_EOK (locked k)) in *.
  destruct (i_mutex _ _ (proj1 (it_kinv _ _ _ C)) _ _ Hx) as [Hp0 Hc0]. destruct (mx_owner x) as [o|].
  - destruct (Z.eqb_spec o t) as [->|Hne].
    + destruct (Z.ltb_spec (mx_hold x) RT_MUTEX_HOLD_MAX) as [Hlt|Hge].
      * erewrite bind_eq by (apply upd_mutex_eq; exact Hx). eapply returned_unlock; [| exact Hc|reflexivity|].
        { apply inv_with_mutex; [exact I1|exact Hp0|exact Hc0]. }
        rewrite with_mutex_lock by exact Hn. unfold RT_MUTEX_HOLD_MAX in *.
        assert (x <| mx_hold ::= (fun h => u8 (h + 1)) |> = x <| mx_hold := mx_hold x + 1 |>) as ->; [|reflexivity].
        unfold set_field. cbn. rewrite u8_small by lia. reflexivity.
      * eapply returned_unlock; [exact I1|exact Hc|reflexivity|apply with_error_lock, Hn].
    + intros ->. change (0 =? 0) with true. cbv beta iota. erewrite bind_eq by apply with_error_twice.
      eapply returned_unlock; [|exact Hc|reflexivity|apply with_error_lock, Hn].
      apply inv_with_error; [apply inv_nest, C|apply C].
  - intros Hce. erewrite bind_eq by (apply upd_mutex_eq; exact Hx). rewrite Hce. cbn [negb Z.eqb Pos.eqb when].
    erewrite bind_eq by reflexivity. erewrite bind_eq by reflexivity.
    eapply returned_unlock; [|exact Hc|reflexivity|].
    + eapply inv_same; [apply (inv_with_mutex m (owned_by t x) k1 I1)|reflexivity..|]; [cbn; lia|exact Hc0|].
      apply (i_mutex _ _ (inv_with_mutex m (owned_by t x) k1 I1 ltac:(cbn; lia) Hc0)).
    + rewrite with_mutex_lock by exact Hn. reflexivity.
Qed.

(** ** Waiting *)

Lemma chain_mono k k' s c :
  chain k s c -> (forall u, u = s \/ u ∈ map snd c -> k_threads k' !! u = k_threads k !! u) ->
  (forall m, m ∈ map fst c -> k_mutexes k' !! m = k_mutexes k !! m) -> k_taken k' = k_taken k ->
  (forall m u, u = s \/ u ∈ map snd c -> u ∈ k_lists k' (LMutex m) <-> u ∈ k_lists k (LMutex m)) -> chain k' s c.
Proof.
  intros H. induction H as [s (th & Ht & Hn & Hl)|s m o c (th & x & Ht & Hs & Hp & Hin & Hx & Hv & Hf & Ho & Hta) _ IH];
    cbn [map fst snd]; intros Th Hm Hk Hl'.
  - apply chain_end. exists th. split; [rewrite Th; auto|]. split; [exact Hn|]. intros m. rewrite Hl' by auto. apply Hl.
  - apply chain_link.
    + exists th, x. rewrite Th, Hm, Hk, Hl' by (auto using list_elem_of_here). auto 10.
    + apply IH; [| |exact Hk|]; intros.
      * apply Th. rewrite elem_of_cons. tauto.
      * apply Hm. rewrite elem_of_cons. tauto.
      * apply Hl'. rewrite elem_of_cons. tauto.
Qed.

(** A step that keeps the priorities keeps the links. *)
Definition prios (o : option thread) : option (Z * Z) := (fun th => (th_cur_prio th, th_init_prio th)) <$> o.

Record same_prios (k k' : kernel) : Prop := {
  sm_mutexes : k_mutexes k' = k_mutexes k;
  sm_taken : k_taken k' = k_taken k;
  sm_queues : forall m, k_lists k' (LMutex m) = k_lists k (LMutex m);
  sm_prios : forall u, prios (k_threads k' !! u) = prios (k_threads k !! u);
}.

Lemma same_prio_of k k' u : same_prios k k' -> prio_of k' u = prio_of k u.
Proof.
  intros S. pose proof (sm_prios _ _ S u) as H. unfold prio_of, prios in *.
  destruct (k_threads k' !! u), (k_threads k !! u); cbn in H; congruence.
Qed.

Lemma same_links k k' c : same_prios k k' -> Forall (link_ok k) c -> Forall (link_ok k') c.
Proof.
  intros S F. rewrite Forall_forall in F |- *. intros [m o] Hin. destruct (F _ Hin) as [(x & Hx & Hp) Hi]. cbn in *.
  split; cbn.
  - exists x. rewrite (sm_mutexes _ _ S). split; [exact Hx|]. rewrite Hp. unfold waiter_prio.
    rewrite (sm_queues _ _ S). destruct (k_lists k (LMutex m)); [reflexivity|]. symmetry. apply same_prio_of, S.
  - rewrite (same_prio_of _ _ _ S), Hi. unfold inherited_prio, inherited. pose proof (sm_prios _ _ S o) as H.
    unfold prios in H. destruct (k_threads k' !! o) as [a|], (k_threads k !! o) as [b|]; cbn in H; try discriminate; [|reflexivity].
    injection H as _ ->. rewrite (sm_taken _ _ S). symmetry. apply taken_min_ext. intros. rewrite (sm_mutexes _ _ S). reflexivity.
Qed.

Lemma sched_same_prios k k' : sched_frame k k' -> same_prios k k'.
Proof.
  intros F. split; try apply F; [intros; apply (sf_lists _ _ F); reflexivity|].
  intros u. pose proof (sf_threads _ _ F u) as R. destruct (k_threads k !! u); [|rewrite R; reflexivity].
  destruct R as (s & -> & _). reflexivity.
Qed.

Lemma timer_same_prios t k k' : timer_started t k k' -> same_prios k k'.
Proof.
  intros T. split; try apply (ts_frame _ _ _ T); [intros; rewrite (ts_lists _ _ _ T); reflexivity|].
  intros u. destruct (decide (u = t)) as [->|Hu]; [|rewrite (ts_other _ _ _ T u Hu); reflexivity].
  destruct (ts_thread _ _ _ T) as (th & th' & -> & -> & A). cbn. rewrite (ar_prio _ _ A), (ar_init _ _ A). reflexivity.
Qed.

(** The priority [p] of a new waiter of [m] reaches the owner. *)
Lemma raise_owner_total m x o c k p :
  inv k -> k_mutexes k !! m = Some x -> chain k o c -> holds_ok k -> Forall (link_ok k) c ->
  mx_owner x = Some o -> m ∉ map fst c -> 0 <= p < RT_THREAD_PRIORITY_MAX -> (length c < fuel)%nat ->
  exists k', (when (p <? mx_priority x)
      (upd_mutex m (fun x => x <| mx_priority := p |>);;
       po ← rt_sched_thread_get_curr_prio o;
       when (p <? po) (_thread_update_priority fuel o p))) k = Some (tt, k') /\
    inv k' /\ reprioritised (o :: map snd c) k k' /\ Forall (link_ok k') c /\
    (prio_of k o <= mx_priority x -> prio_of k' o <= p) /\
    k_lists k' (LMutex m) = k_lists k (LMutex m) /\
    k_mutexes k' !! m = Some (x <| mx_priority := Z.min p (mx_priority x) |>).
Proof.
  intros I Hx C Hh F Ho Hm Hp Hfuel. destruct (i_mutex _ _ I _ _ Hx) as [Hp0 Hc0].
  destruct (Z.ltb_spec p (mx_priority x)) as [Hlt|Hge]; cbn [when].
  2: { exists k. split; [reflexivity|]. split; [exact I|]. split; [apply reprioritised_refl|]. split; [exact F|].
       split; [lia|]. split; [reflexivity|]. rewrite Z.min_r by exact Hge. destruct x. exact Hx. }
  rewrite Z.min_l by lia. set (y := x <| mx_priority := p |>). set (k1 := with_mutex m y k).
  assert (inv k1) as I1 by (apply inv_with_mutex; [exact I|apply Hp|exact Hc0]).
  assert (forall m', m' <> m -> k_mutexes k1 !! m' = k_mutexes k !! m') as Hm1 by (intros; apply lookup_insert_ne; congruence).
  assert (k_mutexes k1 !! m = Some y) as Hy by apply lookup_insert_eq.
  assert (reprioritised [] k k1) as R1.
  { split; try reflexivity; [intros u th Hu; exists th; auto|]. intros m' z Hz.
    destruct (decide (m' = m)) as [->|Hne]; [rewrite Hx in Hz; injection Hz as <-; eauto|].
    exists (mx_priority z). rewrite Hm1, Hz by exact Hne. destruct z. reflexivity. }
  pose proof (reprioritised_chain _ _ _ _ _ R1 C) as C1. pose proof (reprioritised_holds _ _ _ R1 Hh) as Hh1.
  assert (Forall (link_ok k1) c) as F1.
  { rewrite Forall_forall in F |- *. intros [m' o'] Hin. destruct (elem_of_pairs _ _ _ Hin) as [Hm' Ho'].
    apply (link_ok_same k); [apply Hm1; congruence|reflexivity|reflexivity|reflexivity| |apply F, Hin].
    intros m2 Hm2. apply Hm1. intros ->. destruct (Hh _ _ Hm2) as (z & Hz & Hzo).
    apply (chain_acyclic _ _ _ C). congruence. }
  destruct (chain_thread _ _ _ C1) as [oth Hot]. 
  assert (upd_mutex m (fun x => x <| mx_priority := p |>) k = Some (tt, k1)) as H1 by exact (upd_mutex_eq m x _ k Hx).
  destruct (Z.ltb_spec p (prio_of k1 o)) as [Hlt'|Hge'].
  - destruct (update_priority_total fuel o p k1 c oth I1 Hot Hp C1 Hh1)
      as (k2 & k' & _ & R2 & H & S & Hpo & Hm2 & Hl2 & _ & R); [destruct c; [constructor|inversion F1; assumption]|exact Hfuel|].
    exists k'. split.
    { erewrite bind_eq by exact H1. erewrite bind_eq by (eapply get_curr_prio_eq; exact Hot).
      rewrite (proj2 (Z.ltb_lt _ _) Hlt'). exact H. }
    split; [apply S|]. split; [eapply reprioritised_trans; [exact R1|exact R|intros u [[]%elem_of_nil|Hu]; exact Hu]|].
    split; [apply S|]. split; [intros _; rewrite Hpo; reflexivity|].
    split; [rewrite (st_queues _ _ _ S), Hl2 by (reflexivity || exact Hm); reflexivity|].
    rewrite (st_mutexes _ _ _ S), Hm2 by exact Hm. exact Hy.
  - exists k1. split.
    { erewrite bind_eq by exact H1. erewrite bind_eq by (eapply get_curr_prio_eq; exact Hot).
      rewrite (proj2 (Z.ltb_ge _ _) Hge'). reflexivity. }
    split; [exact I1|]. split; [eapply reprioritised_trans; [exact R1|apply reprioritised_refl|intros u [[]%elem_of_nil|Hu]; exact Hu]|].
    split; [exact F1|]. split; [intros _; exact Hge'|]. split; [reflexivity|exact Hy].
Qed.

(** [k'] is [k] with the running thread [t] asleep in the queue of mutex [m]. *)
Record queued (t m flag : Z) (th th' : thread) (k k' : kernel) : Prop := {
  qu_inv : inv k';
  qu_frame : obj_frame k k';
  qu_current : k_current k' = k_current k;
  qu_timers : k_timer_list k' = k_timer_list k;
  qu_queue : k_lists k' (LMutex m) = enqueued flag (prio_of k) t (k_lists k (LMutex m));
  qu_lists : forall l, l <> LMutex m -> k_lists k' l = k_lists k l;
  qu_other : forall u, u <> t -> k_threads k' !! u = k_threads k !! u;
  qu_thread : k_threads k' !! t = Some th';
  qu_susp : is_suspended th' = true;
  qu_pending : th_pending th' = Some m;
  qu_error : th_error th' = th_error th;
  qu_prio : th_cur_prio th' = th_cur_prio th /\ th_init_prio th' = th_init_prio th;
  qu_processing : th_processing th' = th_processing th;
}.

Lemma queue_on_mutex t th k m flag f :
  inv k -> k_current k = Some t -> k_threads k !! t = Some th -> stat_of th = RT_THREAD_RUNNING -> flag_ok flag ->
  exists k1 k2 th', rt_thread_suspend_to_list t (Some (LMutex m)) flag f k = Some (RT_EOK, k1) /\
    upd_thread t (fun th => th <| th_pending := Some m |>) k1 = Some (tt, k2) /\ queued t m flag th th' k k2.
Proof.
  intros I Hc Ht Hr Hf. destruct (suspend_total k t th (Some (LMutex m)) flag f I Hc Ht Hr (conj eq_refl Hf)) as (k1 & H1 & I1 & S).
  destruct (sp_thread _ _ _ _ _ _ S) as (s & Hs & Hs8 & Ht1).
  set (th1 := th <| th_stat ::= with_stat s |> <| th_ttmr := false |>) in *.
  set (th2 := th1 <| th_pending := Some m |>). set (k2 := k1 <| k_threads ::= insert t th2 |>).
  assert (upd_thread t (fun th => th <| th_pending := Some m |>) k1 = Some (tt, k2)) as H2 by exact (upd_thread_eq t _ k1 th1 Ht1).
  assert (k_lists k1 (LMutex m) = enqueued flag (prio_of k) t (k_lists k (LMutex m))) as Hq
    by (rewrite (sp_lists _ _ _ _ _ _ S); apply fn_lookup_insert).
  exists k1, k2, th2. split; [exact H1|]. split; [exact H2|]. split; try reflexivity.
  - apply (set_pending_inv k1 t (LMutex m) m tt k2 I1 eq_refl); [|exact H2].
    rewrite Hq. apply elem_of_enqueued. auto.
  - destruct (sp_frame _ _ _ _ _ _ S). split; assumption.
  - exact (sp_current _ _ _ _ _ _ S).
  - exact (sp_timers _ _ _ _ _ _ S).
  - exact Hq.
  - intros l Hl. change (k_lists k1 l = k_lists k l). rewrite (sp_lists _ _ _ _ _ _ S). apply fn_lookup_insert_ne. congruence.
  - intros u Hu. etransitivity; [apply lookup_insert_ne; congruence|]. apply (sp_other _ _ _ _ _ _ S u Hu).
  - apply lookup_insert_eq.
  - change (is_suspended (th <| th_stat ::= with_stat s |>) = true). rewrite suspended_with by lia. exact Hs.
  - auto.
Qed.

Lemma enqueued_ext flag p1 p2 t q : (forall u, p1 u = p2 u) -> enqueued flag p1 t q = enqueued flag p2 t q.
Proof. intros H. unfold enqueued. destruct (_ =? _); [reflexivity|apply prio_insert_ext, H]. Qed.

(** The chain and its links do not notice the new waiter. *)
Lemma queued_chain t m flag th th' k k' x o c :
  inv k -> queued t m flag th th' k k' -> (forall l, t ∉ k_lists k l) -> chain k o c -> holds_ok k -> Forall (link_ok k) c ->
  k_mutexes k !! m = Some x -> mx_owner x = Some o -> o <> t -> t ∉ map snd c ->
  (m ∉ map fst c) /\ chain k' o c /\ holds_ok k' /\ Forall (link_ok k') c.
Proof.
  intros I Q Hoff C Hh F Hx Ho Hot Htc. pose proof (qu_frame _ _ _ _ _ _ _ Q) as Fr.
  assert (m ∉ map fst c) as Hm.
  { intros Hin. apply list_elem_of_In, in_map_iff in Hin as ([m' o'] & E & Hin). cbn in E. subst m'.
    apply list_elem_of_In in Hin. destruct (chain_owner _ _ _ _ _ C Hin) as (z & Hz & Hzo).
    apply (chain_acyclic _ _ _ C). assert (o' = o) as <- by congruence. apply (elem_of_pairs _ _ _ Hin). }
  assert (forall u, u = o \/ u ∈ map snd c -> u <> t) as Hne by (intros u [->|Hu] ->; contradiction).
  split; [exact Hm|]. split; [|split].
  - apply (chain_mono k); [exact C|intros; apply (qu_other _ _ _ _ _ _ _ Q); auto|intros; rewrite (of_mutexes _ _ Fr); reflexivity|apply Fr|].
    intros m' u Hu. destruct (decide (m' = m)) as [->|Hmm]; [|rewrite (qu_lists _ _ _ _ _ _ _ Q) by congruence; reflexivity].
    rewrite (qu_queue _ _ _ _ _ _ _ Q), elem_of_enqueued. pose proof (Hne u Hu). tauto.
  - intros s m' Hs. rewrite (of_taken _ _ Fr) in Hs. rewrite (of_mutexes _ _ Fr). apply Hh, Hs.
  - rewrite Forall_forall in F |- *. intros [m' o'] Hin. destruct (elem_of_pairs _ _ _ Hin) as [Hm' Ho'].
    apply (link_ok_same k); [rewrite (of_mutexes _ _ Fr); reflexivity| |apply (qu_other _ _ _ _ _ _ _ Q); auto|apply Fr|
      intros; rewrite (of_mutexes _ _ Fr); reflexivity|apply F, Hin].
    apply waiter_prio_same; [apply (qu_lists _ _ _ _ _ _ _ Q); congruence|].
    intros u Hu. apply (qu_other _ _ _ _ _ _ _ Q). intros ->. exact (Hoff _ Hu).
Qed.

Lemma with_error_prio t th e k u : k_threads k !! t = Some th -> prio_of (with_error t th e k) u = prio_of k u.
Proof.
  intros Ht. unfold prio_of. change (k_threads (with_error t th e k)) with (<[t := th <| th_error := e |>]> (k_threads k)).
  destruct (decide (u = t)) as [->|Hu]; [rewrite lookup_insert_eq, Ht|rewrite lookup_insert_ne by congruence]; reflexivity.
Qed.

Lemma with_error_prios t th e k u : k_threads k !! t = Some th ->
  prios (k_threads (with_error t th e k) !! u) = prios (k_threads k !! u).
Proof.
  intros Ht. unfold with_error. cbv [set_field]. cbn [k_threads].
  destruct (decide (u = t)) as [->|Hu]; [rewrite lookup_insert_eq, Ht|rewrite lookup_insert_ne by congruence]; reflexivity.
Qed.

(** Arming the timer of the thread that sleeps. *)
Lemma arm_total t th k timeout :
  inv k -> k_threads k !! t = Some th -> is_suspended th = true -> th_processing th = false ->
  TThread t ∉ k_timer_list k -> timeout < HALF_TICK ->
  exists k', when (0 <? timeout) (start_thread_timer t timeout) k = Some (tt, k') /\ inv k' /\ same_prios k k' /\
    obj_frame k k' /\ k_current k' = k_current k /\ k_lists k' = k_lists k /\
    (exists th', k_threads k' !! t = Some th' /\ is_suspended th' = true /\ th_pending th' = th_pending th /\
       th_error th' = th_error th) /\
    (if 0 <? timeout then TThread t ∈ k_timer_list k' /\ timeout_of k' (TThread t) = u32 (k_tick k + timeout)
     else TThread t ∉ k_timer_list k').
Proof.
  intros I Ht Hs Hp Hn Hto. destruct (Z.ltb_spec 0 timeout) as [Hpos|Hneg]; cbn [when].
  - assert (u32 timeout = timeout) as Hu by (apply u32_small; change HALF_TICK with 2147483647 in Hto; lia).
    destruct (start_thread_timer_total t th k timeout I Ht Hs Hp) as (k' & H & I' & T & D); [lia|]. rewrite Hu in D.
    exists k'. split; [exact H|]. split; [exact I'|]. split; [eapply timer_same_prios, T|]. split; [apply T|].
    split; [apply T|]. split; [apply T|]. split; [|split; [apply T|exact D]].
    destruct (ts_thread _ _ _ T) as (tha & th' & Ea & Eb & A). rewrite Ht in Ea. injection Ea as <-.
    exists th'. split; [exact Eb|]. split; [unfold is_suspended in *; rewrite (ar_stat _ _ A); exact Hs|].
    split; [apply (ar_pending _ _ A)|apply (ar_error _ _ A)].
  - exists k. split; [reflexivity|]. split; [exact I|]. split; [split; reflexivity|]. split; [reflexivity|].
    split; [reflexivity|]. split; [reflexivity|]. split; [exists th; auto|exact Hn].
Qed.

(** What a thread that waits for a mutex leaves behind. *)
Record mutex_waits (t m o timeout : Z) (c : list (Z * Z)) (x : mutex) (k k' : kernel) : Prop := {
  mw_thread : exists th', k_threads k' !! t = Some th' /\ is_suspended th' = true /\
    th_pending th' = Some m /\ th_error th' = RT_EOK;
  mw_queue : k_lists k' (LMutex m) = enqueued (ob_flag (mx_ob x)) (prio_of k) t (k_lists k (LMutex m));
  mw_mutex : k_mutexes k' !! m = Some (x <| mx_priority := Z.min (prio_of k t) (mx_priority x) |>);
  mw_owner : prio_of k' o <= prio_of k t;
  mw_links : Forall (link_ok k') c;
  mw_timer : if 0 <? timeout
             then TThread t ∈ k_timer_list k' /\ timeout_of k' (TThread t) = u32 (k_tick k + timeout)
             else TThread t ∉ k_timer_list k';
  mw_next : runs_most_urgent k';
}.

Lemma nest_links n k c : Forall (link_ok k) c -> Forall (link_ok (k <| k_lock_nest := n |>)) c.
Proof. apply same_links. split; reflexivity. Qed.

(** The end of the call: the lock is given back. *)
Lemma waits_done t m o timeout c x k k4 k' :
  sched_frame (unlocked k4) k' -> runs_most_urgent k' ->
  (exists th, k_threads k4 !! t = Some th /\ is_suspended th = true /\ th_pending th = Some m /\ th_error th = RT_EOK) ->
  k_lists k4 (LMutex m) = enqueued (ob_flag (mx_ob x)) (prio_of k) t (k_lists k (LMutex m)) ->
  k_mutexes k4 !! m = Some (x <| mx_priority := Z.min (prio_of k t) (mx_priority x) |>) ->
  Forall (link_ok k4) c -> prio_of k4 o <= prio_of k t ->
  (if 0 <? timeout then TThread t ∈ k_timer_list k4 /\ timeout_of k4 (TThread t) = u32 (k_tick k + timeout)
   else TThread t ∉ k_timer_list k4) ->
  mutex_waits t m o timeout c x k k'.
Proof.
  intros F M (th & Ht & Hs & Hp & He) Hq Hx L Ho D. pose proof (sched_same_prios _ _ F) as S. split.
  - destruct (restat_suspended _ _ _ (sf_threads _ _ F t) Ht Hs) as (s & Ht' & Hs').
    exists (th <| th_stat := s |>). auto.
  - rewrite (sf_lists _ _ F) by reflexivity. exact Hq.
  - rewrite (sf_mutexes _ _ F). exact Hx.
  - rewrite (same_prio_of _ _ o S). exact Ho.
  - apply (same_links _ _ _ S), nest_links, L.
  - rewrite (sf_timers _ _ F), (restat_timeout_of _ _ _ F). exact D.
  - exact M.
Qed.

(** C17: A thread that takes the mutex of another thread, with a timeout, sleeps
    in the queue of the mutex with the mutex as its pending object; the mutex
    gets the priority of its most urgent waiter, the owner and the owners it
    waits for in turn inherit it, so that the owner is not less urgent than the
    waiter, and the most urgent thread that is ready runs.  (The chain of owners
    must not lead back to the caller, which would be a deadlock.)  *)
Theorem mutex_take_inherits t th k m x o timeout f c :
  in_thread t th k -> k_mutexes k !! m = Some x -> mutex_valid x = true -> flag_ok (ob_flag (mx_ob x)) ->
  mx_owner x = Some o -> o <> t -> timeout <> 0 -> timeout < HALF_TICK ->
  chain k o c -> t ∉ map snd c -> holds_ok k -> Forall (link_ok k) c -> (length c < fuel)%nat ->
  prio_of k o <= mx_priority x ->
  exists k', _rt_mutex_take fuel m timeout f k = Some (Waiting (PcMutexTake m), k') /\ kinv k' /\
    mutex_waits t m o timeout c x k k'.
Proof.
  intros C Hx Hv Hf Ho Hne Ht0 Hto Ch Htc Hh Fc Hfuel Hpo.
  destruct (take_enter t th m x timeout f k C Hx Hv) as (I1 & Hc1 & Ht1 & E).
  set (k1 := with_error t th RT_EOK (locked k)) in *. pose proof C as [[I Q] Hc Ht Hr Hn Hi].
  rewrite Ho, (proj2 (Z.eqb_neq _ _) Hne), (proj2 (Z.eqb_neq _ _) Ht0) in E.
  destruct (queue_on_mutex t _ k1 m (ob_flag (mx_ob x)) f I1 Hc1 Ht1 Hr Hf) as (ka & k2 & th2 & Ha & H2 & Qu).
  destruct (running_off _ _ _ _ I (fun H => H) Ht Hr) as [Hoff Htm].
  assert (same_prios k k1) as Sp by (split; try reflexivity; intros u; exact (with_error_prios t th RT_EOK (locked k) u Ht)).
  assert (chain k1 o c) as C1.
  { apply (chain_mono k); [exact Ch| |reflexivity|reflexivity|reflexivity]. intros u Hu. apply lookup_insert_ne.
    intros <-. destruct Hu as [->|Hu]; contradiction. }
  destruct (queued_chain t m _ _ th2 k1 k2 x o c I1 Qu Hoff C1 Hh (same_links _ _ _ Sp Fc) Hx Ho Hne Htc)
    as (Hm & C2 & Hh2 & F2).
  pose proof (qu_frame _ _ _ _ _ _ _ Qu) as Fr2.
  assert (k_mutexes k2 !! m = Some x) as Hx2 by (rewrite (of_mutexes _ _ Fr2); exact Hx).
  assert (prio_of k2 t = prio_of k t) as Hp2.
  { unfold prio_of. rewrite (qu_thread _ _ _ _ _ _ _ Qu), Ht. apply (qu_prio _ _ _ _ _ _ _ Qu). }
  assert (prio_of k2 o = prio_of k o) as Hpo2.
  { unfold prio_of. rewrite (qu_other _ _ _ _ _ _ _ Qu o Hne). exact (with_error_prio t th RT_EOK (locked k) o Ht). }
  destruct (raise_owner_total m x o c k2 (prio_of k t) (qu_inv _ _ _ _ _ _ _ Qu) Hx2 C2 Hh2 F2 Ho Hm (prio_of_range k t I) Hfuel)
    as (k3 & H3 & I3 & R3 & F3 & Hpo3 & Hq3 & Hx3).
  assert (k_threads k3 !! t = Some th2) as Ht3.
  { rewrite (rp_threads _ _ _ R3); [apply (qu_thread _ _ _ _ _ _ _ Qu)|]. rewrite elem_of_cons. intros [->|Hin]; contradiction. }
  destruct (arm_total t th2 k3 timeout I3 Ht3 (qu_susp _ _ _ _ _ _ _ Qu)) as (k4 & H4 & I4 & S4 & Fr4 & Hc4 & L4 & T4 & D4).
  { rewrite (qu_processing _ _ _ _ _ _ _ Qu). exact (q_flag _ _ Q t th Ht (fun H => H)). }
  { rewrite (rp_timers _ _ _ R3), (qu_timers _ _ _ _ _ _ _ Qu). exact Htm. }
  { exact Hto. }
  destruct (spin_unlock_total k4 t I4) as (k' & H5 & I5 & F5 & M5).
  { rewrite Hc4, (rp_current _ _ _ R3), (qu_current _ _ _ _ _ _ _ Qu). exact Hc1. }
  { rewrite (of_nest _ _ Fr4), (rp_nest _ _ _ R3), (of_nest _ _ Fr2). reflexivity. }
  assert (_rt_mutex_take fuel m timeout f k = Some (Waiting (PcMutexTake m), k')) as H.
  { rewrite E. erewrite bind_eq by exact Ha. cbn [negb Z.eqb RT_EOK]. erewrite bind_eq by exact H2.
    erewrite bind_eq by (eapply get_curr_prio_eq, Qu). rewrite Hp2. erewrite bind_eq by exact H3.
    erewrite bind_eq by exact H4. erewrite bind_eq by exact H5. reflexivity. }
  exists k'. split; [exact H|]. split; [exact (mutex_take_preserves fuel m timeout f _ _ _ (conj I Q) H)|].
  assert (k_tick k3 = k_tick k) as Htick by (rewrite (rp_tick _ _ _ R3), (of_tick _ _ Fr2); reflexivity).
  rewrite (qu_pending _ _ _ _ _ _ _ Qu), (qu_error _ _ _ _ _ _ _ Qu) in T4. rewrite Htick in D4.
  apply (waits_done t m o timeout c x k k4 k' F5 M5 T4); [| |apply (same_links _ _ _ S4), F3| |exact D4].
  - rewrite L4, Hq3, (qu_queue _ _ _ _ _ _ _ Qu). apply enqueued_ext. intros u. exact (with_error_prio t th RT_EOK (locked k) u Ht).
  - rewrite (of_mutexes _ _ Fr4). exact Hx3.
  - rewrite (same_prio_of _ _ o S4). apply Hpo3. rewrite Hpo2. exact Hpo.
Qed.
End Calls.

(** ** Releasing *)

(** The priority of the thread that gives a mutex up. *)
Lemma check_and_update_total t x k th :
  inv k -> k_threads k !! t = Some th -> holds_ok k ->
  let b := negb (mx_ceiling x =? 0xFF) || (prio_of k t =? mx_priority x) in
  exists k', _check_and_update_prio t x k = Some (b, k') /\ inv k' /\ reprioritised [t] k k' /\
    k_mutexes k' = k_mutexes k /\ (forall l, ready_list l = false -> k_lists k' l = k_lists k l) /\
    prio_of k' t = if b then inherited_prio k' t else prio_of k t.
Proof.
  intros I Ht Hh. cbv zeta. unfold _check_and_update_prio. erewrite bind_eq by (eapply get_curr_prio_eq; exact Ht).
  destruct (negb (mx_ceiling x =? 0xFF) || (prio_of k t =? mx_priority x)).
  - destruct (change_priority_reprioritised t _ k th I Ht (inherited_range k t th I Ht)) as (k' & H & I' & R & Hp & Hm & Hl).
    exists k'. split; [|split; [exact I'|split; [exact R|split; [exact Hm|split; [exact Hl|]]]]].
    + erewrite bind_eq by (apply get_mutex_priority_eq; [exact Ht|exact Hh]). erewrite bind_eq by exact H. reflexivity.
    + rewrite (inherited_reprioritised _ _ _ t R Hm) by eauto. rewrite Hp. unfold inherited_prio. rewrite Ht. reflexivity.
  - exists k. split; [reflexivity|]. split; [exact I|]. split; [apply reprioritised_refl|]. auto.
Qed.

(** The first waiter leaves the queue and is awake. *)
Lemma release_next_total n m k t q :
  inv k -> k_lists k (LMutex m) = t :: q ->
  exists k', release_next (S n) m k = Some (Some t, k') /\ inv k' /\ dequeued t (-1) k k'.
Proof.
  intros I Hl. assert (t ∈ k_lists k (LMutex m)) as Hin by (rewrite Hl; apply list_elem_of_here).
  destruct (i_exists _ _ I _ _ Hin) as [th Ht]. destruct (waiting_ready _ _ _ (LMutex m) I Ht eq_refl Hin) as [Hs He].
  pose proof (suspended_not_ready _ _ _ I Ht Hs) as Hnr. pose proof (remove_lists_inv _ _ _ I Ht Hnr) as I1.
  exists (ready_state t th (remove_lists t k)). split; [|split; [apply ready_state_inv; assumption|]].
  - cbn [release_next]. unfold list_first, rt_sched_thread_is_suspended. rewrite !bind_assoc.
    erewrite bind_eq by reflexivity. cbv beta. rewrite Hl. erewrite bind_eq by reflexivity.
    rewrite bind_assoc. erewrite bind_eq by (apply get_thread_eq; exact Ht). erewrite bind_eq by reflexivity.
    erewrite bind_eq by (apply assert_eq; exact Hs). erewrite bind_eq by reflexivity.
    change (k <| k_lists ::= _ |>) with (remove_lists t k).
    erewrite bind_eq; [|rewrite (thread_ready_eq (remove_lists t k) t th I1 Ht), Hs;
      change (ready_error t th (remove_lists t k)) with (ready_error t th k); rewrite He; reflexivity].
    reflexivity.
  - destruct (ready_state_thread t th (remove_lists t k)) as (th' & Ht' & W). split.
    + etransitivity; [|apply ready_state_frame]. split; reflexivity.
    + etransitivity; [apply ready_state_current|reflexivity].
    + intros l Hr. rewrite ready_state_lists by exact Hr. apply filter_ne_notin, notin_filter_ne.
    + intros u Hu. etransitivity; [apply ready_state_other, Hu|reflexivity].
    + exists th, th'. auto.
Qed.

(** The new owner. *)
Definition handed_to (t : Z) (p : Z) (x : mutex) : mutex :=
  x <| mx_owner := Some t |> <| mx_hold := 1 |> <| mx_priority := p |>.

Lemma hand_over_total m t k x th :
  inv k -> k_mutexes k !! m = Some x -> k_threads k !! t = Some th ->
  exists k', (upd_mutex m (fun x => x <| mx_owner := Some t |> <| mx_hold := 1 |>);;
      taken_insert_after t m;;
      upd_thread t (fun th => th <| th_pending := None |>);;
      _mutex_update_priority m;; mret true) k = Some (true, k') /\ inv k' /\
    k_mutexes k' = <[m := handed_to t (waiter_prio k m) x]> (k_mutexes k) /\
    k_taken k' = <[t := m :: k_taken k t]> (k_taken k) /\
    k_threads k' = <[t := th <| th_pending := None |>]> (k_threads k) /\
    k_lists k' = k_lists k /\ k_current k' = k_current k /\ k_lock_nest k' = k_lock_nest k.
Proof.
  intros I Hx Ht. destruct (i_mutex _ _ I _ _ Hx) as [Hp0 Hc0].
  set (y := x <| mx_owner := Some t |> <| mx_hold := 1 |>).
  set (k1 := with_mutex m y k). assert (inv k1) as I1 by (apply inv_with_mutex; assumption).
  set (k2 := k1 <| k_taken ::= (fun ls => <[t := m :: ls t]> ls) |>).
  assert (inv k2) as I2 by (eapply inv_same; [exact I1|reflexivity..|apply (i_mutex _ _ I1)]).
  set (k3 := k2 <| k_threads ::= insert t (th <| th_pending := None |>) |>).
  assert (upd_thread t (fun th => th <| th_pending := None |>) k2 = Some (tt, k3)) as H3 by exact (upd_thread_eq t _ k2 th Ht).
  pose proof (clear_pending_preserves _ t _ _ _ I2 H3) as I3.
  assert (waiter_prio k3 m = waiter_prio k m) as Hw.
  { unfold waiter_prio. change (k_lists k3 (LMutex m)) with (k_lists k (LMutex m)).
    destruct (k_lists k (LMutex m)) as [|u q]; [reflexivity|]. unfold prio_of, k3. cbv [set_field]. cbn [k_threads].
    destruct (decide (u = t)) as [->|Hu]; [rewrite lookup_insert_eq; change (k_threads k2 !! t) with (k_threads k !! t); rewrite Ht|
      rewrite lookup_insert_ne by congruence]; reflexivity. }
  exists (with_mutex m (handed_to t (waiter_prio k m) x) k3).
  assert (k_mutexes k3 !! m = Some y) as Hy by apply lookup_insert_eq.
  split; [|split].
  - erewrite bind_eq by (apply upd_mutex_eq; exact Hx). erewrite bind_eq by reflexivity. fold y k1 k2.
    erewrite bind_eq by exact H3. unfold _mutex_update_priority. rewrite bind_assoc.
    erewrite bind_eq by (apply first_waiter_prio_eq, I3). rewrite bind_assoc.
    erewrite bind_eq by (apply upd_mutex_eq; exact Hy). rewrite Hw. reflexivity.
  - apply inv_with_mutex; [exact I3| |exact Hc0]. cbn. rewrite <- Hw. apply waiter_prio_nonneg, I3.
  - split; [apply insert_insert_eq|]. repeat (split; [reflexivity|]). reflexivity.
Qed.

(** The call returned RT_EOK, or the caller was preempted on its way out. *)
Definition left_running (t : Z) (out : outcome) (k : kernel) : Prop :=
  out = Done RT_EOK [] \/ exists b, out = Waiting (PcSchedRet b RT_EOK) /\ k_current k <> Some t.

Lemma release_finish k t need :
  inv k -> k_current k = Some t -> k_lock_nest k = 1 ->
  exists out k', (rt_spin_unlock;; if_still_running (Some t) (PcSchedRet need RT_EOK) (sched_ret need RT_EOK)) k
      = Some (out, k') /\ inv k' /\ sched_frame (unlocked k) k' /\ runs_most_urgent k' /\ left_running t out k'.
Proof.
  intros I Hc Hn. destruct (spin_unlock_total k t I Hc Hn) as (k1 & H1 & I1 & F1 & M1).
  unfold if_still_running, rt_thread_self, sched_ret.
  destruct (decide (k_current k1 = Some t)) as [Hc1|Hc1].
  - assert (k_lock_nest k1 = 0) as Hn1 by (rewrite (sf_nest _ _ F1); reflexivity).
    destruct (i_cur _ _ I1 _ Hc1) as [cth Hct].
    destruct (schedule_most_urgent k1 t cth I1 Hc1 Hct Hn1) as (k2 & H2 & I2 & F2 & M2). destruct need.
    + exists (Done RT_EOK []), k2. split; [|split; [exact I2|split; [etransitivity; eassumption|split; [exact M2|left; reflexivity]]]].
      erewrite bind_eq by exact H1. erewrite bind_eq by reflexivity. cbv beta. rewrite bool_decide_true by exact Hc1.
      cbn [when]. erewrite bind_eq by exact H2. reflexivity.
    + exists (Done RT_EOK []), k1. split; [|split; [exact I1|split; [exact F1|split; [exact M1|left; reflexivity]]]].
      erewrite bind_eq by exact H1. erewrite bind_eq by reflexivity. cbv beta. rewrite bool_decide_true by exact Hc1. reflexivity.
  - exists (Waiting (PcSchedRet need RT_EOK)), k1. split; [|split; [exact I1|split; [exact F1|split; [exact M1|right; eauto]]]].
    erewrite bind_eq by exact H1. erewrite bind_eq by reflexivity. cbv beta. rewrite bool_decide_false by exact Hc1. reflexivity.
Qed.

Lemma in_thread_context t th k : in_thread t th k -> RT_DEBUG_IN_THREAD_CONTEXT k = Some (tt, k).
Proof.
  intros C. unfold RT_DEBUG_IN_THREAD_CONTEXT. erewrite bind_eq by reflexivity.
  erewrite bind_eq by (apply assert_eq; rewrite (it_current _ _ _ C); reflexivity). apply not_in_interrupt_eq, C.
Qed.

(** The caller counts down. *)
Definition counted_down (x : mutex) : mutex := x <| mx_hold := mx_hold x - 1 |>.

Lemma release_enter t th m x k :
  in_thread t th k -> k_mutexes k !! m = Some x -> mutex_valid x = true -> mx_owner x = Some t -> 0 < mx_hold x < 256 ->
  rt_mutex_release m k =
    (need ← (if mx_hold x - 1 =? 0 then release_last m t else mret false);
     rt_spin_unlock;; if_still_running (Some t) (PcSchedRet need RT_EOK) (sched_ret need RT_EOK))
    (with_mutex m (counted_down x) (locked k)).
Proof.
  intros C Hx Hv Ho Hh. unfold rt_mutex_release. erewrite bind_eq by (apply check_mutex_eq; eassumption).
  erewrite bind_eq by (eapply in_thread_context; exact C). erewrite bind_eq by (apply the_self_eq, C).
  erewrite bind_eq by (apply spin_lock_eq, C). erewrite bind_eq by (apply (get_obj_eq k_mutexes m x); exact Hx).
  rewrite bool_decide_true by exact Ho. cbn [negb].
  assert (upd_mutex m (fun x => x <| mx_hold ::= (fun h => u8 (h - 1)) |>) (locked k) =
    Some (tt, with_mutex m (counted_down x) (locked k))) as Hu.
  { rewrite (upd_mutex_eq m x) by exact Hx. unfold counted_down, set_field. cbn. rewrite u8_small by lia. reflexivity. }
  erewrite bind_eq by exact Hu.
  erewrite bind_eq by (apply (get_obj_eq k_mutexes m (counted_down x)), lookup_insert_eq). reflexivity.
Qed.

(** Releasing a mutex.  A thread that does not own it gets -RT_ERROR; the
    owner that holds it more than once counts down and keeps it.  *)
Theorem mutex_release_not_last t th k m x :
  in_thread t th k -> k_mutexes k !! m = Some x -> mutex_valid x = true -> 0 < mx_hold x <= RT_MUTEX_HOLD_MAX ->
  if bool_decide (mx_owner x = Some t) then
    1 < mx_hold x -> exists out k', rt_mutex_release m k = Some (out, k') /\ inv k' /\ left_running t out k' /\
      sched_frame (with_mutex m (x <| mx_hold := mx_hold x - 1 |>) k) k'
  else returned (- RT_ERROR) (with_error t th (- RT_ERROR) k) (rt_mutex_release m k).
Proof.
  intros C Hx Hv Hh. unfold RT_MUTEX_HOLD_MAX in Hh. pose proof C as [[I Q] Hc Ht Hr Hn Hi].
  destruct (i_mutex _ _ I _ _ Hx) as [Hp0 Hc0]. destruct (bool_decide_reflect (mx_owner x = Some t)) as [Ho|Ho].
  - intros Hh1. rewrite (release_enter t th m x k C Hx Hv Ho) by lia. rewrite (proj2 (Z.eqb_neq _ _)) by lia.
    erewrite bind_eq by reflexivity.
    destruct (release_finish (with_mutex m (counted_down x) (locked k)) t false) as (out & k' & H & I' & F & _ & L);
      [apply inv_with_mutex; [apply inv_nest, I|exact Hp0|exact Hc0]|exact Hc|reflexivity|].
    exists out, k'. split; [exact H|]. split; [exact I'|]. split; [exact L|].
    assert (with_mutex m (x <| mx_hold := mx_hold x - 1 |>) k = unlocked (with_mutex m (counted_down x) (locked k))) as ->;
      [destruct k; cbn in Hn; subst; reflexivity|exact F].
  - unfold rt_mutex_release. erewrite bind_eq by (apply check_mutex_eq; eassumption).
    erewrite bind_eq by (eapply in_thread_context; exact C). erewrite bind_eq by (apply the_self_eq, C).
    erewrite bind_eq by (apply spin_lock_eq, C). erewrite bind_eq by (apply (get_obj_eq k_mutexes m x); exact Hx).
    rewrite bool_decide_false by exact Ho. cbn [negb].
    erewrite bind_eq by (exact (upd_thread_eq t _ (locked k) th Ht)).
    eapply (returned_unlock (with_error t th (- RT_ERROR) (locked k))); [|exact Hc|reflexivity|apply with_error_lock, Hn].
    apply inv_with_error; [apply inv_nest, I|exact Ht].
Qed.

(** What the last release of mutex [m] by its owner [t] leaves behind; [q] are
    the threads that waited. *)
Record released (t m : Z) (q : list Z) (x : mutex) (k k' : kernel) : Prop := {
  re_mutex : exists y, k_mutexes k' !! m = Some y /\ mx_owner y = head q /\ mx_ob y = mx_ob x /\
    mx_ceiling y = mx_ceiling x /\ mx_hold y = (if q is [] then 0 else 1) /\
    mx_priority y = (if q is [] then 0xff else waiter_prio k' m);
  re_others : forall m', m' <> m -> k_mutexes k' !! m' = k_mutexes k !! m';
  re_queue : k_lists k' (LMutex m) = tail q;
  re_taken : forall u, k_taken k' u =
    (if bool_decide (head q = Some u) then [m] else []) ++ filter (fun m' => m' <> m) (k_taken k u);
  re_next : forall u, head q = Some u -> exists uth uth', k_threads k !! u = Some uth /\
    k_threads k' !! u = Some uth' /\ awake uth' /\ th_pending uth' = None /\ th_error uth' = th_error uth;
  re_caller : prio_of k' t = (if negb (mx_ceiling x =? 0xFF) || (prio_of k t =? mx_priority x)
                              then inherited_prio k' t else prio_of k t);
}.

Lemma released_sched t m q x k k1 k2 : released t m q x k k1 -> sched_frame k1 k2 -> released t m q x k k2.
Proof.
  intros [(y & Hy & Hyo & Hyb & Hyc & Hyh & Hyp) Ho Hq Hta Hn Hc] F. pose proof (sched_same_prios _ _ F) as S. split.
  - exists y. rewrite (sf_mutexes _ _ F). repeat (split; [assumption|]). rewrite Hyp. destruct q; [reflexivity|].
    unfold waiter_prio. rewrite (sf_lists _ _ F) by reflexivity.
    destruct (k_lists k1 (LMutex m)); [reflexivity|]. symmetry. apply same_prio_of, S.
  - rewrite (sf_mutexes _ _ F). exact Ho.
  - rewrite (sf_lists _ _ F) by reflexivity. exact Hq.
  - rewrite (sf_taken _ _ F). exact Hta.
  - intros u Hu. destruct (Hn u Hu) as (uth & uth' & H1 & H2 & Ha & Hp & He).
    pose proof (sf_threads _ _ F u) as R. rewrite H2 in R. destruct R as (s & H3 & Hs).
    exists uth, (uth' <| th_stat := s |>). repeat (split; [assumption|]). split; [apply awake_restat; assumption|auto].
  - rewrite (same_prio_of _ _ t S), Hc. destruct (_ || _); [|reflexivity].
    unfold inherited_prio, inherited. pose proof (sm_prios _ _ S t) as H.
    unfold prios in H. destruct (k_threads k2 !! t) as [a|], (k_threads k1 !! t) as [b|]; cbn in H; try discriminate; [|reflexivity].
    injection H as _ ->. rewrite (sf_taken _ _ F). symmetry. apply taken_min_ext. intros. rewrite (sf_mutexes _ _ F). reflexivity.
Qed.

(** The store after [rt_list_remove(&(mutex->taken_list))]. *)
Definition untaken (m : Z) (k : kernel) : kernel := k <| k_taken ::= (fun ls t => filter (fun x => x <> m) (ls t)) |>.

Lemma untaken_holds m k : holds_ok k -> holds_ok (untaken m k).
Proof. intros H t m' Hm. apply elem_of_filter_ne in Hm as [_ Hm]. exact (H t m' Hm). Qed.

Lemma inherited_others k k' t m th :
  k_threads k !! t = Some th -> k_threads k' !! t = Some th -> k_taken k' t = k_taken k t -> m ∉ k_taken k t ->
  (forall m', m' <> m -> k_mutexes k' !! m' = k_mutexes k !! m') -> inherited_prio k' t = inherited_prio k t.
Proof.
  intros Ht Ht' Hta Hm Hx. unfold inherited_prio, inherited. rewrite Ht, Ht', Hta. apply taken_min_ext.
  intros m' Hin. apply Hx. intros ->. contradiction.
Qed.

(** Nobody waits: the mutex is free. *)
Lemma release_last_free t m x k th :
  inv k -> k_current k = Some t -> k_threads k !! t = Some th -> k_mutexes k !! m = Some x -> mx_hold x = 0 ->
  holds_ok k -> k_lists k (LMutex m) = [] ->
  exists need k', release_last m t k = Some (need, k') /\ inv k' /\ k_current k' = Some t /\
    k_lock_nest k' = k_lock_nest k /\ released t m [] x k k'.
Proof.
  intros I Hc Ht Hx Hh0 Hh Hq. destruct (i_mutex _ _ I _ _ Hx) as [Hp0 Hc0]. set (ka := untaken m k).
  assert (inv ka) as Ia by (eapply inv_same; [exact I|reflexivity..|apply (i_mutex _ _ I)]).
  destruct (check_and_update_total t x ka th Ia Ht (untaken_holds m k Hh)) as (kb & Hb & Ib & Rb & Hmb & Hlb & Hpb).
  set (b := negb (mx_ceiling x =? 0xFF) || (prio_of ka t =? mx_priority x)) in *.
  assert (k_mutexes kb !! m = Some x) as Hxb by (rewrite Hmb; exact Hx).
  set (y := x <| mx_owner := None |> <| mx_priority := 0xff |>). set (kc := with_mutex m y kb).
  assert (k_mutexes kc !! m = Some y) as Hy by apply lookup_insert_eq.
  assert (forall m', m' <> m -> k_mutexes kc !! m' = k_mutexes k !! m') as Hother.
  { intros m' Hne. etransitivity; [apply lookup_insert_ne; congruence|]. rewrite Hmb. reflexivity. }
  destruct (rp_same _ _ _ Rb t th Ht) as (thb & Htb & _). exists b, kc. split; [|split; [|split; [|split; [|split]]]].
  - unfold release_last. erewrite bind_eq by reflexivity. change (k <| k_taken ::= _ |>) with ka.
    erewrite bind_eq by (apply (get_obj_eq k_mutexes m x ka); exact Hx). erewrite bind_eq by exact Hb.
    erewrite bind_eq by reflexivity. cbv beta. rewrite Hlb by reflexivity.
    change (k_lists ka (LMutex m)) with (k_lists k (LMutex m)). rewrite Hq.
    erewrite bind_eq by (apply upd_mutex_eq; exact Hxb). reflexivity.
  - apply inv_with_mutex; [exact Ib|cbn; lia|exact Hc0].
  - exact (eq_trans (rp_current _ _ _ Rb) Hc).
  - exact (rp_nest _ _ _ Rb).
  - exists y. auto 10.
  - exact Hother.
  - exact (eq_trans (Hlb (LMutex m) eq_refl) Hq).
  - intros u. change (k_taken kc) with (k_taken kb). rewrite (rp_taken _ _ _ Rb). reflexivity.
  - discriminate.
  - change (prio_of kc t) with (prio_of kb t). rewrite Hpb.
    change (negb (mx_ceiling x =? 0xFF) || (prio_of k t =? mx_priority x)) with b. destruct b; [|reflexivity]. symmetry.
    apply (inherited_others kb kc t m thb); [exact Htb|exact Htb|reflexivity| |].
    + rewrite (rp_taken _ _ _ Rb). apply notin_filter_ne.
    + intros m' Hne. apply lookup_insert_ne. congruence.
Qed.

Lemma waiter_prio_pending k k' m u uth :
  k_threads k !! u = Some uth -> k_threads k' = <[u := uth <| th_pending := None |>]> (k_threads k) ->
  k_lists k' = k_lists k -> waiter_prio k' m = waiter_prio k m.
Proof.
  intros Hu Ht Hl. unfold waiter_prio. rewrite Hl. destruct (k_lists k (LMutex m)) as [|v q]; [reflexivity|].
  unfold prio_of. rewrite Ht. destruct (decide (v = u)) as [->|Hv];
    [rewrite lookup_insert_eq, Hu|rewrite lookup_insert_ne by congruence]; reflexivity.
Qed.

(** The first waiter becomes the owner. *)
Lemma release_last_hand_over t m x k th u q :
  inv k -> k_current k = Some t -> k_threads k !! t = Some th -> k_mutexes k !! m = Some x -> mx_hold x = 0 ->
  holds_ok k -> k_lists k (LMutex m) = u :: q -> u <> t ->
  exists need k', release_last m t k = Some (need, k') /\ inv k' /\ k_current k' = Some t /\
    k_lock_nest k' = k_lock_nest k /\ released t m (u :: q) x k k'.
Proof.
  intros I Hc Ht Hx Hh0 Hh Hq Hut. set (ka := untaken m k).
  assert (inv ka) as Ia by (eapply inv_same; [exact I|reflexivity..|apply (i_mutex _ _ I)]).
  destruct (check_and_update_total t x ka th Ia Ht (untaken_holds m k Hh)) as (kb & Hb & Ib & Rb & Hmb & Hlb & Hpb).
  set (b := negb (mx_ceiling x =? 0xFF) || (prio_of ka t =? mx_priority x)) in *.
  assert (k_lists kb (LMutex m) = u :: q) as Hqb by exact (eq_trans (Hlb (LMutex m) eq_refl) Hq).
  destruct (release_next_total (length q) m kb u q Ib Hqb) as (kc & Hrn & Ic & D).
  destruct (dq_thread _ _ _ _ D) as (uth & uth' & Hu & Hu' & W). change (0 <=? -1) with false in W. cbv beta iota in W.
  pose proof (dq_frame _ _ _ _ D) as Fc.
  assert (k_mutexes kc !! m = Some x) as Hxc by (rewrite (of_mutexes _ _ Fc), Hmb; exact Hx).
  destruct (hand_over_total m u kc x uth' Ic Hxc Hu') as (kd & Hd & Id & Hmd & Htad & Htd & Hld & Hcd & Hnd).
  destruct (rp_same _ _ _ Rb t th Ht) as (thb & Htb & _).
  assert (k_threads kd !! t = Some thb) as Htd' by (rewrite Htd, lookup_insert_ne, (dq_other _ _ _ _ D) by congruence; exact Htb).
  assert (k_taken kc = k_taken ka) as Htac by (rewrite (of_taken _ _ Fc); apply Rb).
  assert (k_taken kd t = k_taken kb t) as Htat.
  { rewrite Htad, fn_lookup_insert_ne, Htac, (rp_taken _ _ _ Rb) by congruence. reflexivity. }
  assert (forall m', m' <> m -> k_mutexes kd !! m' = k_mutexes kb !! m') as Hother.
  { intros m' Hne. rewrite Hmd, lookup_insert_ne, (of_mutexes _ _ Fc) by congruence. reflexivity. }
  assert (k_lists kd (LMutex m) = q) as Hqd.
  { rewrite Hld. eapply dequeued_tail; [exact Ib|reflexivity|exact Hqb|exact D]. }
  exists true, kd. split; [|split; [exact Id|split; [|split; [|split]]]].
  - unfold release_last. erewrite bind_eq by reflexivity. change (k <| k_taken ::= _ |>) with ka.
    erewrite bind_eq by (apply (get_obj_eq k_mutexes m x ka); exact Hx). erewrite bind_eq by exact Hb.
    erewrite bind_eq by reflexivity. cbv beta. rewrite Hqb. erewrite bind_eq by exact Hrn. exact Hd.
  - rewrite Hcd, (dq_current _ _ _ _ D), (rp_current _ _ _ Rb). exact Hc.
  - rewrite Hnd, (of_nest _ _ Fc). exact (rp_nest _ _ _ Rb).
  - exists (handed_to u (waiter_prio kc m) x). rewrite Hmd, lookup_insert_eq. repeat (split; [reflexivity|]).
    symmetry. exact (waiter_prio_pending kc kd m u uth' Hu' Htd Hld).
  - intros m' Hne. rewrite Hother, Hmb by exact Hne. reflexivity.
  - exact Hqd.
  - intros v. rewrite Htad, Htac. cbn [head]. destruct (decide (v = u)) as [->|Hv].
    + rewrite fn_lookup_insert, bool_decide_true by reflexivity. reflexivity.
    + rewrite fn_lookup_insert_ne, bool_decide_false by congruence. reflexivity.
  - intros v [= <-]. exists uth, (uth' <| th_pending := None |>). rewrite Htd, lookup_insert_eq.
    split; [rewrite (rp_threads _ _ _ Rb) in Hu; [exact Hu|intros ->%list_elem_of_singleton; contradiction]|].
    split; [reflexivity|]. split; [destruct (wk_stat _ _ W); [right|left]; assumption|].
    split; [reflexivity|exact (wk_error _ _ W)].
  - change (negb (mx_ceiling x =? 0xFF) || (prio_of k t =? mx_priority x)) with b.
    assert (prio_of kd t = prio_of kb t) as -> by (unfold prio_of; rewrite Htb, Htd'; reflexivity). rewrite Hpb.
    destruct b; [|reflexivity]. symmetry. apply (inherited_others kb kd t m thb Htb Htd' Htat); [|exact Hother].
    rewrite (rp_taken _ _ _ Rb). apply notin_filter_ne.
Qed.

Lemma released_base t m q x k k2 :
  released t m q (counted_down x) (with_mutex m (counted_down x) (locked k)) k2 -> released t m q x k k2.
Proof.
  intros [Hm Ho Hq Hta Hn Hc]. split; try assumption. intros m' Hne. rewrite (Ho m' Hne). apply lookup_insert_ne. congruence.
Qed.

(** C18: The last release.  The mutex goes to the first thread that waits for it,
    which leaves the queue, is awake with nothing pending, holds the mutex once
    and has it in its taken list; without waiters the mutex is free.  It leaves
    the taken list of the releasing thread, whose priority falls back to what it
    still inherits if the mutex had raised it; the queue behind determines the
    new priority of the mutex, and the most urgent thread runs.  *)
Theorem mutex_release_hands_over t th k m x :
  in_thread t th k -> k_mutexes k !! m = Some x -> mutex_valid x = true -> mx_owner x = Some t -> mx_hold x = 1 ->
  holds_ok k ->
  exists out k', rt_mutex_release m k = Some (out, k') /\ kinv k' /\ left_running t out k' /\
    released t m (k_lists k (LMutex m)) x k k' /\ runs_most_urgent k'.
Proof.
  intros C Hx Hv Ho Hh1 Hh. pose proof C as [[I Q] Hc Ht Hr Hn Hi].
  pose proof (release_enter t th m x k C Hx Hv Ho ltac:(lia)) as E. rewrite Hh1 in E. change (1 - 1 =? 0) with true in E.
  cbv beta iota in E. set (k1 := with_mutex m (counted_down x) (locked k)) in *.
  destruct (i_mutex _ _ I _ _ Hx) as [Hp0 Hc0].
  assert (inv k1) as I1 by (apply inv_with_mutex; [apply inv_nest, I|exact Hp0|exact Hc0]).
  assert (k_mutexes k1 !! m = Some (counted_down x)) as Hx1 by apply lookup_insert_eq.
  assert (mx_hold (counted_down x) = 0) as Hh0 by (cbn; lia).
  assert (holds_ok k1) as Hhk.
  { intros s m' Hs. destruct (Hh s m' Hs) as (y & Hy & Hyo). destruct (decide (m' = m)) as [->|Hne].
    - exists (counted_down x). split; [exact Hx1|]. cbn. congruence.
    - exists y. split; [etransitivity; [apply lookup_insert_ne; congruence|exact Hy]|exact Hyo]. }
  assert (exists need k2, release_last m t k1 = Some (need, k2) /\ inv k2 /\ k_current k2 = Some t /\
    k_lock_nest k2 = 1 /\ released t m (k_lists k (LMutex m)) (counted_down x) k1 k2)
    as (need & k2 & Hrl & I2 & Hc2 & Hn2 & R).
  { destruct (k_lists k (LMutex m)) as [|u q] eqn:Hq; [exact (release_last_free t m _ k1 th I1 Hc Ht Hx1 Hh0 Hhk Hq)|].
    apply (release_last_hand_over t m _ k1 th u q I1 Hc Ht Hx1 Hh0 Hhk Hq). intros ->.
    apply (proj1 (running_off _ _ _ _ I (fun H => H) Ht Hr) (LMutex m)). rewrite Hq. apply list_elem_of_here. }
  destruct (release_finish k2 t need I2 Hc2 Hn2) as (out & k' & H & I' & F & M & L).
  assert (rt_mutex_release m k = Some (out, k')) as Hrel by (rewrite E; erewrite bind_eq by exact Hrl; exact H).
  exists out, k'. split; [exact Hrel|]. split; [exact (mutex_release_preserves m _ _ _ (conj I Q) Hrel)|].
  split; [exact L|]. split; [|exact M]. apply (released_sched _ _ _ _ _ (unlocked k2)); [|exact F].
  apply released_base in R. destruct R as [(y & Hy) ? ? ? ? ?]. split; try assumption. exists y. exact Hy.
Qed.

(** ** Examples *)

Definition k_mutex0 : kernel := run (rt_mutex_init 1) k_boot.

Lemma k_mutex0_in_thread : in_thread 100 (thread_of k_mutex0 100) k_mutex0.
Proof. split; try (vm_compute; reflexivity). apply run_kinv; [apply mutex_init_preserves|apply k_boot_kinv]. Qed.

Lemma mutex_take_at_once_witness :
  mx_owner (mutex_of k_mutex0 1) = None /\
  exists k', rt_mutex_take 9 1 (-1) k_mutex0 = Some (Done RT_EOK [], k') /\ mx_owner (mutex_of k' 1) = Some 100 /\
    k_taken k' 100 = [1].
Proof.
  assert (mx_owner (mutex_of k_mutex0 1) = None) as Hn by (vm_compute; reflexivity). split; [exact Hn|].
  pose proof (mutex_take_at_once 9 100 (thread_of k_mutex0 100) k_mutex0 1 (mutex_of k_mutex0 1) (-1) RT_UNINTERRUPTIBLE
    k_mutex0_in_thread) as T.
  rewrite Hn in T. destruct T as (k' & H & _ & F).
  - vm_compute. reflexivity.
  - vm_compute. reflexivity.
  - vm_compute. split; discriminate.
  - vm_compute. reflexivity.
  - exists k'. split; [exact H|]. split.
    + unfold mutex_of. rewrite (sf_mutexes _ _ F). vm_compute. reflexivity.
    + rewrite (sf_taken _ _ F). vm_compute. reflexivity.
Defined.

(** Thread 300, of priority 5, runs; the main thread, of priority 10, holds the
    mutex. *)
Definition k_contend : kernel :=
  run (rt_thread_startup 300) (run (rt_thread_create (Some 300) (Some 0) 5 20) k_mutex).

Lemma k_contend_kinv : kinv k_contend.
Proof. apply run_kinv; [preserve|]. apply run_kinv; [apply thread_create_kinv; lia|apply k_mutex_kinv]. Qed.

Lemma k_contend_in_thread : in_thread 300 (thread_of k_contend 300) k_contend.
Proof. split; try (vm_compute; reflexivity). apply k_contend_kinv. Qed.

Lemma k_contend_holds : holds_ok k_contend.
Proof.
  intros t m Hm. vm_compute in Hm. destruct t as [|p|p]; [inversion Hm| |inversion Hm].
  by_bits p Hm ltac:(apply list_elem_of_singleton in Hm as ->; exists (mutex_of k_contend 1); vm_compute; auto).
Qed.

Lemma mutex_take_inherits_witness :
  prio_of k_contend 100 = 10 /\ prio_of k_contend 300 = 5 /\
  exists k', rt_mutex_take 9 1 50 k_contend = Some (Waiting (PcMutexTake 1), k') /\ prio_of k' 100 <= 5 /\
    k_lists k' (LMutex 1) = [300] /\ timeout_of k' (TThread 300) = 50.
Proof.
  split; [vm_compute; reflexivity|]. split; [vm_compute; reflexivity|].
  destruct (mutex_take_inherits 9 300 (thread_of k_contend 300) k_contend 1 (mutex_of k_contend 1) 100 50
    RT_UNINTERRUPTIBLE [] k_contend_in_thread) as (k' & H & _ & W).
  - vm_compute. reflexivity.
  - vm_compute. reflexivity.
  - right. vm_compute. reflexivity.
  - vm_compute. reflexivity.
  - lia.
  - lia.
  - vm_compute. reflexivity.
  - apply chain_end, (running_waits_for_none _ _ (thread_of k_contend 100)); [apply k_contend_kinv|vm_compute; reflexivity..].
  - intros []%elem_of_nil.
  - exact k_contend_holds.
  - constructor.
  - cbn. lia.
  - vm_compute. discriminate.
  - exists k'. split; [exact H|]. split; [|split].
    + assert (prio_of k_contend 300 = 5) as Hp by (vm_compute; reflexivity). rewrite <- Hp. apply (mw_owner _ _ _ _ _ _ _ _ W).
    + rewrite (mw_queue _ _ _ _ _ _ _ _ W). vm_compute. reflexivity.
    + rewrite (proj2 (mw_timer _ _ _ _ _ _ _ _ W)). vm_compute. reflexivity.
Defined.

(** Thread 300 does not own the mutex. *)
Lemma mutex_release_not_last_witness :
  mx_owner (mutex_of k_contend 1) = Some 100 /\
  exists k', rt_mutex_release 1 k_contend = Some (Done (- RT_ERROR) [], k').
Proof.
  assert (mx_owner (mutex_of k_contend 1) = Some 100) as Ho by (vm_compute; reflexivity). split; [exact Ho|].
  pose proof (mutex_release_not_last 300 (thread_of k_contend 300) k_contend 1 (mutex_of k_contend 1) k_contend_in_thread) as T.
  rewrite Ho, bool_decide_false in T by discriminate. destruct T as (k' & H & _ & _).
  - vm_compute. reflexivity.
  - vm_compute. reflexivity.
  - vm_compute. split; [reflexivity|discriminate].
  - exists k'. exact H.
Defined.

Lemma k_inherit_in_thread : in_thread 100 (thread_of k_inherit 100) k_inherit.
Proof. split; try (vm_compute; reflexivity). apply k_inherit_kinv. Qed.

(** The main thread, raised to priority 5, releases the mutex for thread 300. *)
Lemma mutex_release_hands_over_witness :
  prio_of k_inherit 100 = 5 /\
  exists out k', rt_mutex_release 1 k_inherit = Some (out, k') /\ mx_owner (mutex_of k' 1) = Some 300 /\
    prio_of k' 100 = inherited_prio k' 100.
Proof.
  split; [vm_compute; reflexivity|].
  destruct (mutex_release_hands_over 100 (thread_of k_inherit 100) k_inherit 1 (mutex_of k_inherit 1) k_inherit_in_thread)
    as (out & k' & H & _ & _ & R & _).
  - vm_compute. reflexivity.
  - vm_compute. reflexivity.
  - vm_compute. reflexivity.
  - vm_compute. reflexivity.
  - exact k_inherit_holds.
  - rewrite (proj1 k_inherit_lists) in R. exists out, k'. split; [exact H|]. split.
    + destruct (re_mutex _ _ _ _ _ _ R) as (y & Hy & Hyo & _). unfold mutex_of. rewrite Hy. exact Hyo.
    + rewrite (re_caller _ _ _ _ _ _ R).
      assert (prio_of k_inherit 100 = mx_priority (mutex_of k_inherit 1)) as -> by (vm_compute; reflexivity).
      rewrite Z.eqb_refl, orb_true_r. reflexivity.
Defined.
