(* ===== verification/TimerProps.v ===== *)
(** * Properties of the timers

    The order of the timer list, the timers that a tick fires, and the tick
    arithmetic. *)

From Stdlib Require Import Sorted.
From S2P Require Import Prelude Bitmap Kernel Timer Sched IpcList Thread Sem KernelInv TimerInv.
From S2P Require Import SchedInv ThreadInv TimerIdle ThreadOps IpcOps MutexOps ExitOps System.
From S2P Require Import SystemInv Demo WaitProps.
Open Scope rt_scope.

(** ** The order of the timer list *)

(** Ticks from [base] to [due], modulo 2^32. *)
Definition after_base (base due : Z) : Z := u32 (due - base).

Lemma u32_diff base a b :
  0 <= after_base base a < HALF_TICK -> 0 <= after_base base b < HALF_TICK ->
  u32 (a - b) = u32 (after_base base a - after_base base b).
Proof.
  intros _ _. unfold after_base, u32. rewrite <- Zminus_mod. f_equal. lia.
Qed.

Definition due_order (base : Z) (due : tmid -> Z) (i j : tmid) : Prop :=
  after_base base (due i) <= after_base base (due j).

(** All the timers are due within half the range of ticks after [base]. *)
Definition in_window (base : Z) (due : tmid -> Z) (l : list tmid) : Prop :=
  Forall (fun i => after_base base (due i) < HALF_TICK) l.

Lemma half_tick : HALF_TICK = 2147483647.
Proof. reflexivity. Qed.

(** The step of the walk, in terms of the distances from [base]. *)
Lemma walk_test base x y :
  after_base base x < HALF_TICK -> after_base base y < HALF_TICK ->
  (u32 (x - y) =? 0) = (after_base base x =? after_base base y) /\
  (u32 (x - y) <? HALF_TICK) = (after_base base y <=? after_base base x).
Proof.
  intros Hx Hy. pose proof (u32_range (x - base)) as Rx. pose proof (u32_range (y - base)) as Ry.
  rewrite (u32_diff base x y) by (unfold after_base in *; lia).
  unfold after_base in *. set (a := u32 (x - base)) in *. set (b := u32 (y - base)) in *.
  rewrite half_tick in *. destruct (Z.leb_spec b a).
  - rewrite u32_small by lia. split; [destruct (Z.eqb_spec (a - b) 0), (Z.eqb_spec a b); lia|apply Z.ltb_lt; lia].
  - assert (u32 (a - b) = a - b + 4294967296) as ->.
    { unfold u32. change (2 ^ 32) with 4294967296. symmetry. apply (Z.mod_unique_pos _ _ (-1)); lia. }
    split; [destruct (Z.eqb_spec (a - b + 4294967296) 0), (Z.eqb_spec a b); lia|apply Z.ltb_ge; lia].
Qed.

Lemma timer_insert_split base due i at_tick l :
  in_window base due l -> after_base base at_tick < HALF_TICK ->
  StronglySorted (due_order base due) l ->
  exists before after, l = before ++ after /\ timer_insert due i at_tick l = before ++ i :: after /\
    Forall (fun j => after_base base (due j) <= after_base base at_tick) before /\
    Forall (fun j => after_base base at_tick < after_base base (due j)) after.
Proof.
  induction l as [|j l IH]; intros Hw Ha Hs; [exists [], []; repeat split; constructor|].
  apply Forall_cons in Hw as [Hj Hw]. apply StronglySorted_inv in Hs as [Hs Hf]. cbn.
  destruct (walk_test base (due j) at_tick Hj Ha) as [-> ->].
  destruct (IH Hw Ha Hs) as (before & after & E & E' & Hb & Haf).
  destruct (Z.eqb_spec (after_base base (due j)) (after_base base at_tick)) as [He|He].
  - exists (j :: before), after. rewrite E'. subst l. split; [reflexivity|]. split; [reflexivity|].
    split; [constructor; [lia|assumption]|assumption].
  - destruct (Z.leb_spec (after_base base at_tick) (after_base base (due j))).
    + exists [], (j :: l). split; [reflexivity|]. split; [reflexivity|]. split; [constructor|].
      constructor; [lia|]. rewrite Forall_forall in Hf |- *. intros x Hx. specialize (Hf x Hx).
      unfold due_order in Hf. lia.
    + exists (j :: before), after. rewrite E'. subst l. split; [reflexivity|]. split; [reflexivity|].
      split; [constructor; [lia|assumption]|assumption].
Qed.

(** C5: When every timer of the list and the new one are due within half the
    tick range after some tick, whether or not the counter wraps around in
    between, the walk of _timer_start puts the new timer behind all timers that
    are due no later and before all that are due later, so a sorted list stays
    sorted and timers of one tick fire in the order they were started.  *)
Theorem timer_insert_sorted base due i l :
  i ∉ l -> in_window base due l -> after_base base (due i) < HALF_TICK ->
  StronglySorted (due_order base due) l ->
  StronglySorted (due_order base due) (timer_insert due i (due i) l) /\
  in_window base due (timer_insert due i (due i) l) /\
  exists before after, l = before ++ after /\ timer_insert due i (due i) l = before ++ i :: after /\
    Forall (fun j => after_base base (due j) <= after_base base (due i)) before /\
    Forall (fun j => after_base base (due i) < after_base base (due j)) after.
Proof.
  intros Hi Hw Ha Hs. destruct (timer_insert_split base due i (due i) l Hw Ha Hs) as (before & after & E & E' & Hb & Haf).
  rewrite E'. subst l. split; [|split; [|exists before, after; auto]].
  - clear E' Hi Hw. induction before as [|j before IH]; cbn in *.
    + constructor; [assumption|]. rewrite Forall_forall in Haf |- *. intros x Hx. specialize (Haf x Hx). unfold due_order. lia.
    + apply Forall_cons in Hb as [Hj Hb]. apply StronglySorted_inv in Hs as [Hs Hf]. constructor; [auto|].
      rewrite Forall_forall in Hf |- *. intros x Hx. apply elem_of_app in Hx as [Hx|Hx].
      * apply Hf, elem_of_app. auto.
      * apply elem_of_cons in Hx as [->|Hx]; [exact Hj|]. apply Hf, elem_of_app. auto.
  - apply Forall_app in Hw as [Hw1 Hw2]. apply Forall_app. split; [exact Hw1|]. constructor; assumption.
Qed.

(** Two timers around the wrap of the counter. *)
Definition demo_due (i : tmid) : Z :=
  match i with TUser 1 => 4294967290 | TUser 2 => 4 | _ => 4294967295 end.

Lemma timer_insert_sorted_witness :
  timer_insert demo_due (TUser 3) (demo_due (TUser 3)) [TUser 1; TUser 2] = [TUser 1; TUser 3; TUser 2] /\
  StronglySorted (due_order 4294967280 demo_due) (timer_insert demo_due (TUser 3) (demo_due (TUser 3)) [TUser 1; TUser 2]).
Proof.
  split; [vm_compute; reflexivity|].
  apply (timer_insert_sorted 4294967280 demo_due (TUser 3) [TUser 1; TUser 2]).
  - rewrite !not_elem_of_cons. split; [discriminate|]. split; [discriminate|]. apply not_elem_of_nil.
  - repeat constructor.
  - vm_compute. reflexivity.
  - repeat constructor. unfold due_order. vm_compute. discriminate.
Defined.

(** ** The timers a tick fires *)

(** [k'] is [k] after the timer of thread [t] expired. *)
Record timed_out (t : Z) (k k' : kernel) : Prop := {
  to_frame : obj_frame k k';
  to_list : k_timer_list k' = filter (fun i => i <> TThread t) (k_timer_list k);
  to_susp : forall l, ready_list l = false -> k_lists k' l = filter (fun x => x <> t) (k_lists k l);
  to_other : forall x, x <> t -> restat (k_threads k !! x) (k_threads k' !! x);
  to_thread : exists th th', k_threads k !! t = Some th /\ k_threads k' !! t = Some th' /\
    awake th' /\ th_error th' = - RT_ETIMEOUT /\ th_cur_prio th' = th_cur_prio th;
}.

Lemma restat_timeout x k k' :
  restat (k_threads k !! x) (k_threads k' !! x) ->
  match k_threads k !! x, k_threads k' !! x with
  | Some th, Some th' => th_timer th' = th_timer th
  | None, None => True
  | _, _ => False
  end.
Proof.
  destruct (k_threads k !! x) as [th|]; cbn; [intros (s & -> & _); reflexivity|intros ->; exact Logic.I].
Qed.

Lemma upd_thread_frame t th' k : obj_frame k (k <| k_threads ::= insert t th' |>).
Proof. split; reflexivity. Qed.

Lemma fired_frame t k k' : fired t k k' -> obj_frame k k'.
Proof. intros []. destruct_and!. split; auto. Qed.

Lemma timeout_total t k :
  expired t k -> exists k' th th', _thread_timeout t k = Some (tt, k') /\ inv k' /\ obj_frame k k' /\
    k_timer_list k' = k_timer_list k /\
    (forall l, ready_list l = false -> k_lists k' l = filter (fun x => x <> t) (k_lists k l)) /\
    (forall x, x <> t -> restat (k_threads k !! x) (k_threads k' !! x)) /\
    k_threads k !! t = Some th /\ k_threads k' !! t = Some th' /\ awake th' /\
    th_error th' = - RT_ETIMEOUT /\ th_cur_prio th' = th_cur_prio th.
Proof.
  intros E. destruct (ex_thread _ _ E) as (th & Ht & Hs & Hv & _).
  pose proof (timeout_state_inv t th k E Ht) as I1. destruct (resched_total _ I1) as (k' & H & I' & F).
  set (th1 := th <| th_error := - RT_ETIMEOUT |>).
  set (k1 := remove_lists t (k <| k_threads ::= insert t th1 |>)).
  assert (exists th2, k_threads (insert_state t th1 k1) !! t = Some th2 /\ awake th2 /\
    th_error th2 = - RT_ETIMEOUT /\ th_cur_prio th2 = th_cur_prio th) as (th2 & Ht2 & Ha2 & He2 & Hp2).
  { unfold insert_state. destruct (bool_decide _); eexists; (split; [apply lookup_insert_eq|]);
      (split; [apply awake_with; auto|split; reflexivity]). }
  pose proof (sf_threads _ _ F t) as R. change (timeout_state t th k) with (insert_state t th1 k1) in R. rewrite Ht2 in R. destruct R as (s & Ht' & Hst).
  exists k', th, (th2 <| th_stat := s |>). rewrite (thread_timeout_eq t th k Ht Hs Hv).
  split; [exact H|]. split; [exact I'|].
  split; [|split; [|split; [|split; [|split; [exact Ht|split; [exact Ht'|]]]]]].
  - etransitivity; [|apply sched_obj_frame; exact F]. unfold timeout_state.
    etransitivity; [|apply insert_state_frame]. split; reflexivity.
  - rewrite (sf_timers _ _ F). unfold timeout_state, insert_state. destruct (bool_decide _); reflexivity.
  - intros l Hl. rewrite (sf_lists _ _ F) by assumption. unfold timeout_state, insert_state.
    destruct (bool_decide _); [reflexivity|]. cbv [set_field]. cbn. unfold inserted.
    destruct (has_flag _ _); rewrite fn_lookup_insert_ne; try reflexivity; intros <-; discriminate.
  - intros x Hx. pose proof (sf_threads _ _ F x) as R.
    assert (k_threads (timeout_state t th k) !! x = k_threads k !! x) as Hsame.
    { unfold timeout_state, insert_state. destruct (bool_decide _); cbv [set_field remove_lists]; cbn;
        rewrite !lookup_insert_ne by congruence; reflexivity. }
    rewrite <- Hsame. exact R.
  - split; [|split; [exact He2|exact Hp2]]. destruct Hst as [Hst|[_ Hst]]; [|exact Hst].
    unfold awake in *. rewrite Hst. exact Ha2.
Qed.

(** One round of the loop of [rt_timer_check], for the timer of a thread. *)
Section Rounds.
Context (user_timeout : Z -> K unit).

Lemma unmark_total t th k :
  k_threads k !! t = Some th -> exists k', unmark (TThread t) k = Some (tt, k') /\ obj_frame k k' /\
    k_timer_list k' = k_timer_list k /\ k_timer_exec k' = k_timer_exec k /\ k_lists k' = k_lists k /\
    (forall x, x <> t -> k_threads k' !! x = k_threads k !! x) /\
    exists th', k_threads k' !! t = Some th' /\ th_stat th' = th_stat th /\ th_error th' = th_error th /\
      th_cur_prio th' = th_cur_prio th.
Proof.
  intros Ht. eexists. split; [apply upd_timer_eq; exact Ht|]. split; [split; reflexivity|].
  do 3 (split; [reflexivity|]). split; [intros x Hx; apply lookup_insert_ne; congruence|].
  eexists. split; [apply lookup_insert_eq|]. repeat split.
Qed.

Lemma refire_thread_total t th k :
  kinv k -> k_threads k !! t = Some th ->
  refire (TThread t) k = Some (tt, k <| k_timer_exec ::= filter (fun j => j <> TThread t) |>).
Proof.
  intros [I Q] Ht. unfold refire. eapply bind_eval; [reflexivity|]. cbv beta.
  eapply bind_eval; [apply get_timer_eq; exact Ht|].
  rewrite (tw_oneshot _ _ _ _ (i_threads _ _ I _ _ Ht)). reflexivity.
Qed.

Lemma round_total t q now n k :
  settled k -> k_timer_list k = TThread t :: q -> (u32 (now - timeout_of k (TThread t)) <? HALF_TICK) = true ->
  exists k', timer_check_loop (timeout_func user_timeout) (S n) now k =
      timer_check_loop (timeout_func user_timeout) n (k_tick k) k' /\ settled k' /\ timed_out t k k'.
Proof.
  intros [HK He] Hl Hdue. assert (TThread t ∈ k_timer_list k) as Hin by (rewrite Hl; apply list_elem_of_here).
  destruct (fire_thread t k HK Hin) as (k1 & H1 & F & E1 & Q1). pose proof (fired_frame _ _ _ F) as F1.
  destruct (fd_thread _ _ _ F) as (th & th1 & Ht & Ht1 & S1 & _ & _ & P1).
  pose proof (fd_timers _ _ _ F) as L1. pose proof (fd_lists _ _ _ F) as Ls1. pose proof (fd_other _ _ _ F) as O1.
  assert (k_timer_exec k1 = [TThread t]) as X1 by (rewrite (fd_exec _ _ _ F), He; reflexivity).
  destruct (timeout_total t k1 E1) as (k2 & th1' & th2 & H2 & I2 & F2 & L2 & Ls2 & O2 & Ht1' & Ht2 & A2 & Er2 & P2).
  rewrite Ht1 in Ht1'. injection Ht1' as <-.
  pose proof (timeout_exec _ _ _ _ E1 H2) as X2. pose proof (thread_timeout_idle _ t _ _ _ Q1 H2) as Q2.
  destruct (unmark_total t th2 k2 Ht2) as (k3 & H3 & F3 & L3 & X3 & Ls3 & O3 & th3 & Ht3 & S3 & Er3 & P3).
  pose proof (unmark_thread t k2 _ k3 I2 Q2 H3) as HK3.
  pose proof (refire_thread_total t th3 k3 HK3 Ht3) as H4.
  set (k4 := k3 <| k_timer_exec ::= filter (fun j => j <> TThread t) |>) in *.
  assert (k_timer_exec k3 = [TThread t]) as X3' by congruence.
  exists k4. split; [|split].
  - rewrite (check_loop_round user_timeout n now k (TThread t) q Hl Hdue).
    erewrite bind_eq by exact H1. cbn [timeout_func]. erewrite bind_eq by exact H2.
    erewrite bind_eq by reflexivity. erewrite bind_eq by exact H3. erewrite bind_eq by reflexivity. cbv beta.
    rewrite X3', bool_decide_false by discriminate. erewrite bind_eq by exact H4.
    rewrite (of_tick _ _ F2), (of_tick _ _ F1). reflexivity.
  - eapply refire_spec; [split; [exact HK3|]| |exact H4].
    + rewrite X3'. intros j Hj. apply list_elem_of_singleton in Hj. exact Hj.
    + rewrite X3'. discriminate.
  - split.
    + etransitivity; [exact F1|]. etransitivity; [exact F2|]. etransitivity; [exact F3|]. split; reflexivity.
    + change (k_timer_list k4) with (k_timer_list k3). congruence.
    + intros l Hlr. change (k_lists k4) with (k_lists k3). rewrite Ls3, Ls2, Ls1 by assumption. reflexivity.
    + intros x Hx. change (k_threads k4) with (k_threads k3). rewrite O3 by assumption.
      rewrite <- (O1 x Hx). apply O2, Hx.
    + exists th, th3. split; [exact Ht|]. split; [exact Ht3|]. split; [|split; congruence].
      unfold awake, stat_of in *. rewrite S3. exact A2.
Qed.
End Rounds.

Lemma timed_out_timeout t k k' i :
  timed_out t k k' -> i <> TThread t -> timeout_of k' i = timeout_of k i.
Proof.
  intros T Hi. destruct i as [x|u]; cbn [timeout_of]; [|rewrite (of_utimers _ _ (to_frame _ _ _ T)); reflexivity].
  pose proof (restat_timeout x k k' (to_other _ _ _ T x ltac:(congruence))) as R.
  destruct (k_threads k !! x), (k_threads k' !! x); try contradiction; [rewrite R|]; reflexivity.
Qed.

(** The threads [ts] timed out and nothing else happened. *)
Record all_timed_out (ts : list Z) (k k' : kernel) : Prop := {
  at_frame : obj_frame k k';
  at_susp : forall l x, ready_list l = false -> x ∈ k_lists k' l <-> x ∈ k_lists k l /\ x ∉ ts;
  at_other : forall x, x ∉ ts -> restat (k_threads k !! x) (k_threads k' !! x);
  at_thread : forall t, t ∈ ts -> exists th th', k_threads k !! t = Some th /\ k_threads k' !! t = Some th' /\
    awake th' /\ th_error th' = - RT_ETIMEOUT /\ th_cur_prio th' = th_cur_prio th;
}.

Lemma awake_stat_change th s : awake th ->
  stat_of (th <| th_stat := s |>) = stat_of th \/ awake th /\ awake (th <| th_stat := s |>) ->
  awake (th <| th_stat := s |>).
Proof. intros Ha [H|[_ H]]; [|exact H]. unfold awake in *. rewrite H. exact Ha. Qed.

Lemma all_timed_out_cons t ts k k1 k' :
  t ∉ ts -> timed_out t k k1 -> all_timed_out ts k1 k' -> all_timed_out (t :: ts) k k'.
Proof.
  intros Hn T A. split.
  - etransitivity; [apply (to_frame _ _ _ T)|apply (at_frame _ _ _ A)].
  - intros l x Hl. rewrite (at_susp _ _ _ A) by assumption. rewrite (to_susp _ _ _ T) by assumption.
    rewrite elem_of_filter_ne, not_elem_of_cons. tauto.
  - intros x Hx. apply not_elem_of_cons in Hx as [H1 H2].
    eapply restat_trans; [apply (to_other _ _ _ T x H1)|apply (at_other _ _ _ A x H2)].
  - intros x Hx. apply elem_of_cons in Hx as [->|Hx].
    + destruct (to_thread _ _ _ T) as (th & th1 & H1 & H2 & Ha & He & Hp).
      pose proof (at_other _ _ _ A t Hn) as R. rewrite H2 in R. destruct R as (s & H3 & Hs).
      exists th, (th1 <| th_stat := s |>). split; [exact H1|]. split; [exact H3|].
      split; [eapply awake_stat_change; eauto|auto].
    + destruct (at_thread _ _ _ A x Hx) as (th1 & th' & H1 & H2 & Ha & He & Hp).
      assert (x <> t) as Hne by (intros ->; contradiction).
      pose proof (to_other _ _ _ T x Hne) as R. destruct (k_threads k !! x) as [th|]; cbn in R.
      * destruct R as (s & R & _). rewrite H1 in R. injection R as ->. exists th, th'. auto.
      * congruence.
Qed.

Definition due (now : Z) (k : kernel) (i : tmid) : bool := u32 (now - timeout_of k i) <? HALF_TICK.

Lemma check_loop_total user_timeout ts rest k n :
  settled k -> k_timer_list k = map TThread ts ++ rest -> Forall (fun t => due (k_tick k) k (TThread t) = true) ts ->
  match rest with [] => True | i :: _ => due (k_tick k) k i = false end -> (length ts < n)%nat ->
  exists k', timer_check_loop (timeout_func user_timeout) n (k_tick k) k = Some (tt, k') /\ settled k' /\
    k_timer_list k' = rest /\ all_timed_out ts k k'.
Proof.
  revert k n. induction ts as [|t ts IH]; intros k n HS Hl Hd Hr Hn; destruct n as [|n]; cbn in Hn; try lia.
  - exists k. split; [|split; [exact HS|split; [exact Hl|]]].
    + cbn [timer_check_loop]. erewrite bind_eq by reflexivity. cbv beta. rewrite Hl. cbn [map app].
      destruct rest as [|i rest]; [reflexivity|]. erewrite bind_eq by reflexivity. cbv beta.
      unfold due in Hr. rewrite Hr. reflexivity.
    + split; [reflexivity|intros l x _; rewrite elem_of_nil; tauto|intros; apply restat_refl|].
      intros t H. apply elem_of_nil in H. destruct H.
  - apply Forall_cons in Hd as [Hd1 Hd]. cbn [map app] in Hl.
    destruct (round_total user_timeout t (map TThread ts ++ rest) (k_tick k) n k HS Hl Hd1) as (k1 & H1 & S1 & T1).
    pose proof (i_tnodup _ _ (proj1 (proj1 HS))) as Hnd. rewrite Hl in Hnd. apply NoDup_cons in Hnd as [Hn1 Hnd].
    assert (k_timer_list k1 = map TThread ts ++ rest) as Hl1.
    { rewrite (to_list _ _ _ T1), Hl, filter_cons_False by (intros H; apply H; reflexivity).
      apply filter_ne_notin, Hn1. }
    assert (t ∉ ts) as Hnt.
    { intros Hin. apply Hn1, elem_of_app. left. apply list_elem_of_fmap. eauto. }
    pose proof (of_tick _ _ (to_frame _ _ _ T1)) as Htick.
    assert (forall i, i <> TThread t -> due (k_tick k1) k1 i = due (k_tick k) k i) as Hdue.
    { intros i Hi. unfold due. rewrite Htick, (timed_out_timeout t k k1 i T1 Hi). reflexivity. }
    destruct (IH k1 n S1 Hl1) as (k' & H' & S' & L' & A'); [| |lia|].
    + rewrite Forall_forall in Hd |- *. intros x Hx. rewrite Hdue by (intros [= ->]; contradiction). apply Hd, Hx.
    + destruct rest as [|i rest]; [exact Logic.I|]. rewrite Hdue; [exact Hr|]. intros ->. apply Hn1, elem_of_app.
      right. apply list_elem_of_here.
    + exists k'. rewrite H1, <- Htick. split; [exact H'|]. split; [exact S'|]. split; [exact L'|].
      eapply all_timed_out_cons; eauto.
Qed.

(** C6: In the tick interrupt, when the timers at the front of the timer list
    that are due belong to the threads ts and the next one is not due,
    rt_timer_check terminates and fires exactly those: each of these threads has
    left every suspend list and is ready or running with error -RT_ETIMEOUT, the
    other timers stay in the list in their order, no other thread leaves its
    wait and no object changes.  *)
Theorem timer_check_fires_expired user_timeout ts rest k fuel :
  kinv k -> 0 < u8 (k_irq_nest k) -> k_timer_list k = map TThread ts ++ rest ->
  Forall (fun t => due (k_tick k) k (TThread t) = true) ts ->
  match rest with [] => True | i :: _ => due (k_tick k) k i = false end -> (length ts < fuel)%nat ->
  exists k', rt_timer_check (timeout_func user_timeout) fuel k = Some (tt, k') /\ kinv k' /\
    k_timer_list k' = rest /\ obj_frame k k' /\
    (forall t, t ∈ ts -> exists th', k_threads k' !! t = Some th' /\ awake th' /\ th_error th' = - RT_ETIMEOUT /\
       forall l, ready_list l = false -> t ∉ k_lists k' l) /\
    (forall l x, ready_list l = false -> x ∉ ts -> x ∈ k_lists k' l <-> x ∈ k_lists k l) /\
    (forall x, x ∉ ts -> restat (k_threads k !! x) (k_threads k' !! x)).
Proof.
  intros [I Q] Hirq Hl Hd Hr Hn.
  set (k0 := k <| k_timer_exec := [] |>).
  assert (settled k0) as S0.
  { split; [split|reflexivity].
    - eapply inv_same; [exact I|reflexivity..|apply (i_mutex _ _ I)].
    - split; [exact (q_flag _ _ Q)|]. intros i Hi. apply elem_of_nil in Hi. destruct Hi. }
  destruct (check_loop_total user_timeout ts rest k0 fuel S0 Hl Hd Hr Hn) as (k' & H & [HK' _] & L & A).
  exists k'. split; [|split; [exact HK'|split; [exact L|split; [|split; [|split]]]]].
  - unfold rt_timer_check. erewrite bind_eq by reflexivity. cbv beta.
    erewrite bind_eq by (apply assert_eq, Z.ltb_lt, Hirq). erewrite bind_eq by reflexivity. cbv beta.
    erewrite bind_eq by reflexivity. exact H.
  - etransitivity; [|apply (at_frame _ _ _ A)]. split; reflexivity.
  - intros t Ht. destruct (at_thread _ _ _ A t Ht) as (th & th' & _ & H2 & Ha & He & _). exists th'.
    split; [exact H2|]. split; [exact Ha|]. split; [exact He|].
    intros l Hlr Hin. apply (at_susp _ _ _ A) in Hin as [_ Hin]; [contradiction|assumption].
  - intros l x Hlr Hx. rewrite (at_susp _ _ _ A) by assumption. change (k_lists k0) with (k_lists k). tauto.
  - intros x Hx. apply (at_other _ _ _ A x Hx).
Qed.

(** The tick interrupt comes when the timeout of thread 300 has passed. *)
Definition k_due : kernel := run rt_interrupt_enter (run (rt_tick_set 60) k_wait).

Lemma k_due_kinv : kinv k_due.
Proof.
  apply run_kinv; [apply irq_preserves|]. apply run_kinv; [|apply k_wait_kinv].
  apply kinv_and; [preserve_same|unfold rt_tick_set; preserve].
Qed.

Lemma timer_check_fires_expired_witness :
  kinv k_due /\ k_lists k_due (LSem 7) = [300] /\
  exists k', rt_timer_check (timeout_func (fun _ => mret tt)) 2 k_due = Some (tt, k') /\
    k_timer_list k' = [] /\ 300 ∉ k_lists k' (LSem 7).
Proof.
  split; [exact k_due_kinv|]. split; [vm_compute; reflexivity|].
  destruct (timer_check_fires_expired (fun _ => mret tt) [300] [] k_due 2 k_due_kinv)
    as (k' & H & _ & L & _ & Hw & _).
  - vm_compute. reflexivity.
  - vm_compute. reflexivity.
  - repeat constructor.
  - exact Logic.I.
  - cbn. lia.
  - exists k'. split; [exact H|]. split; [exact L|].
    destruct (Hw 300 (list_elem_of_here _ _)) as (th' & _ & _ & _ & Hoff). apply Hoff. reflexivity.
Defined.

(** ** Tick arithmetic *)

(** rt_tick_from_millisecond converts every non-negative argument of 32 bits
    to the smallest number of ticks that is at least as long, without wrapping;
    a negative argument gives the largest tick value, the wait without
    timeout.  *)
Theorem tick_from_millisecond_rounds_up ms :
  -2147483648 <= ms < 2147483648 ->
  let t := rt_tick_from_millisecond ms in
  0 <= t < 2 ^ 32 /\
  (ms < 0 -> t = RT_TICK_MAX) /\
  (0 <= ms -> ms * RT_TICK_PER_SECOND <= t * 1000 < ms * RT_TICK_PER_SECOND + 1000).
Proof.
  intros Hms. cbv zeta. unfold rt_tick_from_millisecond, RT_TICK_PER_SECOND, RT_WAITING_FOREVER, RT_TICK_MAX.
  destruct (Z.ltb_spec ms 0).
  - change (u32 (-1)) with 4294967295. lia.
  - pose proof (Z.div_mod ms 1000 ltac:(lia)). pose proof (Z.mod_pos_bound ms 1000 ltac:(lia)).
    pose proof (Z.div_mod (1000 * (ms mod 1000) + 999) 1000 ltac:(lia)).
    pose proof (Z.mod_pos_bound (1000 * (ms mod 1000) + 999) 1000 ltac:(lia)).
    rewrite (u32_small (1000 * (ms / 1000))) by lia. rewrite u32_small by lia. lia.
Qed.

Lemma tick_from_millisecond_rounds_up_witness :
  (-2147483648 <= 2147483647 < 2147483648) /\ rt_tick_from_millisecond 2147483647 = 2147483647 /\
  (0 <= 2147483647 -> 2147483647 * RT_TICK_PER_SECOND <= rt_tick_from_millisecond 2147483647 * 1000
     < 2147483647 * RT_TICK_PER_SECOND + 1000).
Proof.
  split; [lia|]. split; [reflexivity|].
  apply (tick_from_millisecond_rounds_up 2147483647). lia.
Defined.
