(* ===== verification/SystemProps.v ===== *)
(** * Properties of the whole system

    What holds in every system that the boot and any sequence of calls, ticks
    and interrupts can reach. *)

From S2P Require Import Prelude Bitmap Kernel Timer Sched IpcList Thread Sem Mutex ThreadExit.
From S2P Require Import System KernelInv TimerInv SchedInv ThreadInv TimerIdle ThreadOps IpcOps.
From S2P Require Import MutexOps ExitOps SystemInv Demo.
Open Scope rt_scope.

(** ** The callbacks of the examples: a timer that releases semaphore 7 *)

Definition release_callback (u : Z) : K unit := rt_sem_release 7;; mret tt.
Definition no_cleanup (t : Z) : K unit := mret tt.

Section LocalList.
Context (i : tmid).
Definition exec_within (k : kernel) : Prop := forall j, j ∈ k_timer_exec k -> j = i.

Lemma within_modify f :
  (forall k, k_timer_exec (f k) = k_timer_exec k) -> preserves exec_within (st_modify f).
Proof. intros Hf. apply preserves_modify. intros k H j. rewrite Hf. apply H. Qed.
Lemma within_upd_thread t f : preserves exec_within (upd_thread t f).
Proof. intros k u k' H E. apply upd_thread_Some in E as (th & _ & ->). exact H. Qed.
Lemma within_remove j : preserves exec_within (_timer_remove j).
Proof.
  apply preserves_modify. intros k H x Hx. cbv [set_field] in Hx. cbn in Hx.
  apply elem_of_filter_ne in Hx as [_ Hx]. exact (H x Hx).
Qed.
#[local] Hint Extern 1 (preserves exec_within (st_modify _)) => apply within_modify; reflexivity : rt_pres.
#[local] Hint Extern 1 (preserves exec_within (set_stat _ _)) => apply within_upd_thread : rt_pres.
#[local] Hint Resolve within_upd_thread within_remove : rt_pres.

Lemma within_sem_release s : preserves exec_within (rt_sem_release s).
Proof.
  unfold rt_sem_release, rt_susp_list_dequeue, rt_schedule, rt_sched_thread_ready, rt_sched_thread_is_suspended,
    rt_sched_thread_timer_stop, rt_timer_stop, rt_sched_insert_thread,
    _scheduler_get_highest_priority_thread, rt_sched_remove_thread, rt_list_remove, rt_list_insert_before,
    rt_list_insert_after, list_first, upd_timer, get_timer. unfold upd_sem, upd_obj. ipc.
Qed.
End LocalList.

Lemma release_callback_ok u : preserves (ticking (TUser u)) (release_callback u).
Proof.
  unfold release_callback. apply preserves_bind; [|intros; apply preserves_ret].
  intros k r k' [HK He] H. split; [eapply sem_release_preserves; eauto|eapply within_sem_release; eauto].
Qed.

Lemma no_cleanup_ok t : preserves (fun k => kinv_caller k /\ dead t k) (no_cleanup t).
Proof. apply preserves_ret. Qed.

Definition no_notify (f q e : Z) : K unit := mret tt.
Lemma no_notify_ok f q e : preserves kinv (no_notify f q e).
Proof. apply preserves_ret. Qed.

(** ** Reachable systems *)

(** C1: In every reachable system no thread is in two places at once: it is at
    most once in at most one of the ready queues, suspend lists and the defunct
    queue; it is ready exactly when it is in the ready queue of its current
    priority, only the current thread is running, the threads of a suspend list
    are suspended with a valid thread object; the group word has exactly the
    bits of the ready queues that are not empty; and the thread timers of the
    timer list are those that are activated, each of a suspended thread.  *)
Theorem reachable_invariant user_timeout cleanup evt_notify fuel s :
  (forall u, preserves (ticking (TUser u)) (user_timeout u)) ->
  (forall t, preserves (fun k => kinv_caller k /\ dead t k) (cleanup t)) ->
  (forall f q e, preserves kinv (evt_notify f q e)) ->
  reachable user_timeout cleanup evt_notify fuel s ->
  let k := s_kernel s in
  inv k /\
  (forall l, NoDup (k_lists k l)) /\
  (forall l1 l2 t, t ∈ k_lists k l1 -> t ∈ k_lists k l2 -> l1 = l2) /\
  (forall p, 0 <= p < RT_THREAD_PRIORITY_MAX ->
     Z.testbit (k_group k) p = true <-> k_lists k (LReady p) <> []) /\
  (forall t th, k_threads k !! t = Some th ->
     (stat_of th = RT_THREAD_READY <-> t ∈ k_lists k (LReady (th_cur_prio th))) /\
     (stat_of th = RT_THREAD_RUNNING -> k_current k = Some t) /\
     (forall l, susp_list l = true -> t ∈ k_lists k l -> is_suspended th = true /\ th_valid th = true) /\
     (t ∈ k_lists k LDefunct -> stat_of th = RT_THREAD_CLOSE) /\
     (TThread t ∈ k_timer_list k <-> timer_active th = true) /\
     (TThread t ∈ k_timer_list k -> is_suspended th = true)).
Proof.
  intros Hu Hc Hn R. pose proof (reachable_kinv _ _ _ _ Hu Hc Hn s R) as [I Q]. cbv zeta.
  split; [exact I|]. split; [apply I|]. split; [apply (i_uniq _ _ I)|]. split.
  - intros p Hp. rewrite (i_bits _ _ I p Hp), negb_true_iff, bool_decide_eq_false. reflexivity.
  - intros t th Ht. pose proof (inv_stat _ _ _ I Ht) as SO. pose proof (i_threads _ _ I _ _ Ht) as W.
    split; [|split; [apply (so_running _ _ _ _ _ SO)|split; [|split; [apply (so_defunct _ _ _ _ _ SO)|
      split; [apply (tw_active _ _ _ _ W)|]]]]].
    + rewrite (so_ready _ _ _ _ _ SO). split; [|eauto]. intros [p Hp].
      destruct (tw_ready _ _ _ _ W p Hp) as [-> _]. exact Hp.
    + intros l Hl Hin. split; [apply (so_waiting _ _ _ _ _ SO l Hl Hin)|apply (tw_listed _ _ _ _ W l Hin)].
    + intros Hin. apply (so_timer _ _ _ _ _ SO Hin).
Qed.

(** The boot, then a tick. *)
Definition k_ticked : kernel := run (SysTick_Handler release_callback 10) k_boot.

Lemma k_ticked_reachable : reachable release_callback no_cleanup no_notify 10 (mkSys k_ticked ∅).
Proof.
  apply reach_step with (s := mkSys k_boot ∅).
  - exact (reach_boot _ _ _ _ k_reset (Some 100) (Some 0) 200 k_boot k_reset_state k_boot_eq).
  - apply step_tick; [vm_compute; reflexivity|]. unfold k_ticked.
    destruct (run_Some (SysTick_Handler release_callback 10) k_boot) as [[] H]; [|exact H].
    destruct (SysTick_Handler release_callback 10 k_boot) eqn:E; [eauto|].
    assert (match SysTick_Handler release_callback 10 k_boot with Some _ => true | None => false end = true) as Hs
      by (vm_compute; reflexivity). rewrite E in Hs. discriminate.
Qed.

Lemma reachable_invariant_witness :
  reachable release_callback no_cleanup no_notify 10 (mkSys k_ticked ∅) /\ k_tick k_ticked = 1 /\
  k_current k_ticked = Some 100 /\ inv k_ticked.
Proof.
  split; [exact k_ticked_reachable|]. split; [vm_compute; reflexivity|]. split; [vm_compute; reflexivity|].
  exact (proj1 (reachable_invariant release_callback no_cleanup no_notify 10 (mkSys k_ticked ∅)
    release_callback_ok no_cleanup_ok no_notify_ok k_ticked_reachable)).
Defined.
